(* ===== verification/_CoqProject ===== *)
-Q . S2P
Prelude.v
Utf8.v
Utf16.v
Text.v
Protobuf.v
Framing.v
Frames.v
Payload.v
Crypto.v
Ukey2Crypto.v
Handshake.v
Hkdf.v
D2d.v
SecureMessage.v
Channel.v
Pin.v
Service.v
Sharing.v
Fsm.v
Upgrade.v
UpgradeFsm.v
Multiplex.v
Apple.v
Ble.v
Dns.v
Endpoint.v
Stream.v
Mux.v
Connection.v
Outbound.v
Transfer.v
Transfers.v
Plist.v
PlistRound.v
Framed.v
Inbox.v
Http.v
Send.v
Airdrop.v
Exchange.v
Arrival.v
Mdns.v
Discovery.v
Device.v
Visibility.v
Radio.v
Window.v
Population.v
Peers.v
Browse.v
Netlink.v
Channels.v
Awdl.v
Lan.v
Steps.v
Daemon.v
Jobs.v
Server.v
Ctl.v
