(* ===== verification/Prelude.v ===== *)
(** * Tarish daemon: a verification library for file sharing

    Tarish lets an Android device share files with Quick Share and AirDrop peers.  The Quick
    Share protocol is the Rust crate under [src/protocol/src/]: it never touches a socket, a
    clock or a thread, every step takes bytes or an event and returns bytes or effects.  The
    daemon under [src/sharingd/] performs the effects, speaks AirDrop, and answers clients over
    binder.  AirDrop needs Apple's radio link, which a second, privileged daemon under [src/src/]
    holds while the first asks for it.  This library models the crate, the daemon's sessions
    around it, its AirDrop client and server, its transfer table and its codecs, and the
    privileged daemon, and proves what makes them correct.

    ** How the program fits together, and which file models what

    Quick Share, bottom up.
    - [Framing] ([framing.rs]): frames on a byte stream.  [Multiplex] ([multiplex.rs]): the
      virtual socket an L2CAP channel needs around each frame; [Mux] ([quickshare/mux.rs]): the
      daemon's socket over it, a pump thread, a paced writer and a reader.
    - [Ukey2Crypto] and [Handshake] ([ukey2/]): the key exchange; its result feeds [Hkdf]
      ([hkdf.rs]) and [D2d] ([d2d.rs]), which derive the four traffic keys, and [Pin]
      ([pin.rs]), which derives the digits two users compare.
    - [SecureMessage] ([securemessage.rs]) encrypts and signs one message, [Channel]
      ([channel.rs]) adds the sequence numbers.
    - [Frames] ([frames.rs]): the offline frames inside the channel.  [Payload] ([payload.rs]):
      the reassembly of payload chunks.  [Sharing] ([sharing.rs]): the frames inside BYTES
      payloads.  [Fsm] ([fsm.rs]): what the two sides of a share do with them.
    - [Upgrade] and [UpgradeFsm] ([upgrade.rs]): moving a running connection to a faster
      medium, the messages and the two state machines.
    - [Stream] and [Connection] ([quickshare/connection.rs]): frames on a live connection, and
      the receiving session with its handover.  [Outbound] ([quickshare/outbound.rs]): the
      sending session.  [Transfer] puts the two ends together.
    - [Ble] ([ble.rs]), [Apple] ([apple.rs]), [Service] ([service.rs]), [Endpoint]
      ([quickshare/endpoint.rs]) and [Dns] ([sharingd/src/dns.rs]): what discovery sends and
      reads.  [Discovery] ([quickshare/discovery.rs, mod.rs]): the names of endpoints, the
      browser's table and the responder.  [Lan] ([main.rs], [start_quickshare_server] and
      [start_quickshare_discovery]): the threads that drive them and listen for transfers.

    AirDrop.
    - [Plist] and [PlistRound] ([plist.rs]): binary property lists, written and read; [Framed]
      ([framed.rs]): the block framing of Apple's uploads.
    - [Http] ([httpd.rs], its wire half): heads, bodies, chunks, responses.  [Inbox]
      ([httpd.rs], its storage half): names, destinations, unpacking, collecting.  [Airdrop]
      ([httpd.rs], [Httpd]): what a connection does with its requests; [Server]: the listener, and
      the calls to clients.  [Send] ([send.rs]): the sender.  [Exchange] and [Arrival] put the two ends together.
    - [Mdns] ([mdns.rs]): the table of peers, who is dropped from it and when, and the
      responder that announces this device, over [Dns].

    - [Population] ([main.rs], [AppleNearby]): the Apple devices Bluetooth hears.  [Peers]
      ([getPeers] and what it reads): the list a client is shown, of both protocols.  [Browse]
      ([start_discovery]): the loop that drives the browser, with both.

    Both.
    - [Transfers] ([main.rs], [TransferState]): the one slot for one transfer, answers, PINs,
      cancellation and the claim on the radio, which every thread of the daemon uses.
    - [Device], [Visibility], [Radio] and [Window] ([main.rs], parts of [Tarish]): names and
      small text; the policy and the visibility windows; the thread that asks for the radio;
      the exemption from a VPN's kill-switch with the three things that end it.
    - [Daemon] ([main.rs], [QsHost] and [TransferProgress]): what a session reaches of the daemon
      around it, as instances of the classes [Connection] and [Outbound] are written against.
      [Jobs] ([main.rs], the service's calls about transfers): what a call that starts, answers or
      stops a transfer does, and the threads it starts.  [Steps] has the lemmas the two share: a
      property each step of a session keeps is one the session keeps.

    The privileged daemon.
    - [Netlink] ([src/route.rs, nl80211.rs]): its messages to the kernel and the answers, the rule
      that lets one user route over the link, the probe for a kill-switch.  [Channels]
      ([src/main.rs]): the properties it reads, the country, the channels to offer, the radio's
      configuration.  [Awdl] ([src/main.rs, mosey.rs]): the main loop and the link it holds.

    The shell client, [Ctl] ([tarishctl/src/main.rs]): which calls a command line comes to.

    [Protobuf] ([protobuf.rs]) is the wire codec of all Quick Share messages; [Utf8], [Utf16]
    and [Text] are what the code uses of the standard library's strings.  [Crypto] is the
    interface to OpenSSL.  This file holds what they share: bytes, machine integers, [Result]
    and the [?] operator, slices, big-endian integers, bit operations and the [rust] hint
    database.

    A definition keeps the name of the function or type it models, in a [Module] named after
    the type where methods of several types share a name ([Assembler.accept] for
    [Assembler::accept], [Writer.varint], [Inbound.on]).  A method that mutates its receiver
    takes it last and returns it with the result.

    ** Modelling conventions

    A byte is [Byte.byte]; a [Vec<u8>], a slice and a [String] are lists of bytes, a [String]
    being its UTF-8 encoding.  Integers are [Z], with every cast written out ([as_u64],
    [as_i32], ...) and [usize] of 64 bits.  A buffer can hold at most [isize::MAX] bytes, which
    is the hypothesis [fits].  A [Result] is [result]; an operation that could panic or
    overflow in the source is a partial function, or has a fault as a value, wherever that is
    not excluded by a check right before it, and a theorem says when it happens.  A [HashMap],
    and a directory, is a [gmap].

    Code that is not in the repository is a parameter.  [Crypto] has a class of operations for
    each group of OpenSSL calls, and next to it a class of laws: the documented behaviour a
    theorem relies on (lengths of digests, decryption inverting encryption, symmetry of
    Diffie-Hellman).  [Crypto.Toy] instantiates every class and proves every law, so that no
    theorem is vacuous, and the witnesses evaluate the model on it.  [Framed.Zlib],
    [Send.Gzip] and [Send.Odc] are compression and the archive format.

    Sockets, clocks, people and files are classes of operations on an abstract world
    ([Stream.World], its [Connection] half [Stream.Host], its [Outbound] half
    [Outbound.Sender], [Send.Network], [Daemon.System],
    [Netlink.Kernel], [Channels.Platform], [Awdl.Host]): a theorem about all instances is one about everything
    a network, a peer and a person can do.  The reads of a source are lists of what each
    returns, in pieces of any length.  A deadline is the number of rounds of the waiting loop
    that fit before it.  A session's effects are kept in a trace; a connection of the AirDrop
    server also notes the states in which it looked at the policy, claimed the slot and found an
    answer.  What [Awdl] assumes of the kernel and the radio library is what their answers mean
    ([Awdl.Lawful]) and, for what it says of rules, that the kernel deletes those it has
    ([Awdl.Heeds]).

    Threads interleave in three ways: as labels of a step function, any sequence of which is a
    run ([Mux.Threads], [Transfers.Threads], [UpgradeFsm], [Window], [Visibility], [Browse], [Lan]); as functions on the shared state
    that other threads apply before each access ([Airdrop.others], [Transfers.await], [Daemon.Job]); and
    inside a world.

    ** Fuel

    Loops that are not structural take fuel, chosen by the caller of the loop, never by a
    theorem: [Reader.varint_loop] has eleven rounds, one more than the shift test allows;
    [next_field_loop], [fields_loop], [Framing.drain_loop], [Apple.parse_loop] and the packed
    varints of [Upgrade] have the length of the buffer plus one, and each round consumes a
    byte; [Hkdf.expand_loop] has one round per block; [Dns.Reader.name_loop] has 272, one for
    each jump and each byte of a name that the code's caps allow, and the last; the nesting of
    a property list has seventeen levels, one more than the cap; loops over a source
    ([FramedReader.refill], [Http.read_chunked_loop], [Http.stream_chunk], ...) have one round
    for each byte and each event of it, and every read takes one.  The lemmas
    [fields_loop_agrees], [parse_loop_spec], [expand_rfc], [name_loop_total],
    [send_loop_terminates], [read_exact_loop_spec] and their like show that the fuel never runs
    out.  Two functions take fuel as an argument because the code may not end:
    [Send.copy], of which [copy_ends_unless_cancelled] says when it does, and what calls it.
    [Airdrop.serve_connection] takes a bound on the requests a peer makes.  [Awdl.main] takes a
    bound on the passes of a loop that only a signal ends; [Awdl.await_iface] has a round for
    every 20 ms of its three seconds ([await_fuel]); [Netlink.find_attr] and [Netlink.walk] have
    one for each byte of their buffer.

    ** What the theorems show

    - Consent: [Fsm.inbound_consent] and [outbound_sends_what_was_accepted] (every run of the
      two machines), [stores_only_what_was_approved] and [sends_only_when_cleared] (every run
      of the two sessions around them), [offers_are_approved] (the AirDrop server),
      [send_sends_the_archive] (the AirDrop sender), [inbox_needs_consent] (the receiving session
      in its daemon: what reaches the inbox, and who was asked).  The PIN check of the sending
      session is its host's, and that of this daemon says yes to every PIN
      ([Daemon.confirm_pin_], docs/PIN-DISABLED.md).
    - Arrival: [a_file_arrives] (Quick Share, through every layer) with
      [send_one_sends_the_file] and [send_loop_terminates]; [airdrop_arrives] (AirDrop, from
      the sender's files to the receiver's inbox); [mux_delivers], [handover_settles] (every
      interleaving of an upgrade's four queues), [copy_ends_unless_cancelled].
    - Discovery: [announced_peers_are_found], [goodbye_is_final],
      [silence_alone_drops_nobody], [not_our_own_peer] (every run of the AirDrop browser),
      [announced_endpoints_are_found] and [quick_share_advertises_what_listened] (Quick Share),
      [population_is_what_was_heard];
      [advertising_follows_the_flag], [bluetooth_decides], [the_loop_keeps_asking] and
      [naming_is_patient] (every run of the loop around the browser); [list_is_canonical],
      [bluetooth_rows_are_current] and [a_row_leads_to_its_peer] (what a client sees of it).
    - Agreement and secrecy: [handshake_agrees], [commitment_binds], [hmac_gates_decryption],
      [channel_accepts_prefix] (replay, loss, reordering), [channel_delivers].
    - One transfer at a time: [one_transfer_at_a_time], [offers_get_their_own_answers],
      [try_begin_outcome], and [steps_refine_calls], which says what beginning and
      finishing do to the table, as calls and by their atomic steps.  [every_transfer_is_accounted_for],
      [connection_is_accounted_for] and [group_request_is_withdrawn]: what becomes of a transfer
      that a call, or a peer, has started; [pruning_drops_the_dead]: who is told.
      [a_replaced_link_is_noticed]: when the AirDrop listener gives up.
    - What the service publishes: [exemption_is_bounded] (the kill-switch exemption, in every
      interleaving of its threads), [visible_only_while_permitted], [radio_follows_demand],
      [any_name_is_fit].
    - The privileged daemon: [link_session_and_rule_agree], [exempt_rule_is_earned],
      [restarts_are_paced] and [shutdown_leaves_nothing] (every run of its loop),
      [lockdown_is_read] (the kill-switch), [sta_band_is_never_offered] and [config_reads_back]
      (what it asks of the radio).
    - The shell client: [policy_edits_one_thing] and [policy_reads_then_writes].
    - Bounds against hostile peers: [assembler_bounded], [accept_refuses], [mux_paced],
      [plist_bounded], [read_body_bounded], [extract_stays_in_the_inbox],
      [mdns_parse_bounded], [is_plausible_peer_is_local].
    - Refinement: [reader_is_grammar] relates the cursor-based protobuf reader to a grammar on
      byte lists, [hkdf_expand] the key derivation to its standard.
    - Round trips: one theorem per message layer, each relating builders to the parser, from
      [receive_any_chunking] at the bottom to [plist_roundtrip] and [response_is_read].
    - Examples next to the theorems record behaviour that differs from what the comments beside
      the code intend: [upload_without_consent], [aborted_upload_is_kept],
      [partial_file_is_kept], [chunk_size_overflows], [a_cancel_forgotten],
      [the_ceiling_is_forgotten], [a_demotion_that_fails], [an_unnamed_file],
      [a_truncated_dump_is_open], [shows_who_is_gone], [name_of_dots] and others.

    ** What is not modelled

    [Display] implementations and logging; the zeroing of buffers on allocation; timing (the
    constant-time comparison is its result); TLS, which is the identity; what [GzEncoder]
    writes when it is dropped after an error.  Of the daemon: TLS certificates, [main], and the calls that only store or report one value; a poisoned lock other
    than those of [Daemon].  Of the privileged daemon: what only decides what is logged, and the installation of signal handlers.
    Vendored crates, IPC definitions and policy files. *)

From Stdlib Require Export ZArith Lia Bool.
From Stdlib Require Import Strings.Byte.
From stdpp Require Export base list numbers option.
From stdpp Require Export strings.

#[global] Open Scope Z_scope.
#[global] Set Default Proof Using "Type".

(** ** Bytes *)

Abbreviation byte := Byte.byte.

(** A Rust [u8] read as an integer. *)
Definition u8 (b : byte) : Z := Z.of_N (Byte.to_N b).

(** [z as u8]: the low eight bits. *)
Definition to_u8 (z : Z) : byte :=
  match Byte.of_N (Z.to_N (z mod 256)) with
  | Some b => b
  | None => x00
  end.

(** A Rust [String] or [&str] is its UTF-8 bytes; a literal is written [str "..."]. *)
Definition str (s : string) : list byte := String.list_byte_of_string s.

#[export] Instance byte_eq_dec : EqDecision byte := Byte.byte_eq_dec.

Lemma u8_range b : 0 <= u8 b < 256.
Proof.
  unfold u8. pose proof (Byte.to_N_bounded b). lia.
Qed.

Lemma u8_to_u8 z : u8 (to_u8 z) = z mod 256.
Proof.
  unfold u8, to_u8. pose proof (Z.mod_pos_bound z 256 ltac:(lia)) as Hz.
  destruct (Byte.of_N (Z.to_N (z mod 256))) as [b|] eqn:E.
  - apply Byte.to_of_N in E. rewrite E. lia.
  - apply Byte.of_N_None_iff in E. lia.
Qed.

Lemma to_u8_u8 b : to_u8 (u8 b) = b.
Proof. destruct b; reflexivity. Qed.

Lemma u8_inj b1 b2 : u8 b1 = u8 b2 -> b1 = b2.
Proof. intros H. rewrite <- (to_u8_u8 b1), <- (to_u8_u8 b2). by rewrite H. Qed.

Lemma u8_to_u8_small z : 0 <= z < 256 -> u8 (to_u8 z) = z.
Proof. intros. rewrite u8_to_u8. by apply Z.mod_small. Qed.

(** ** Lists *)

(** The last element of which [f] is [b]. *)
Definition last_with {A B : Type} `{EqDecision B} (f : A -> B) (b : B) (l : list A) : option A :=
  last (filter (fun x => f x = b) l).

Lemma last_with_snoc {A B : Type} `{EqDecision B} (f : A -> B) b l x :
  last_with f b (l ++ [x]) = if decide (f x = b) then Some x else last_with f b l.
Proof.
  unfold last_with. rewrite filter_app, filter_cons, filter_nil. case_decide; [by rewrite last_snoc|by rewrite app_nil_r].
Qed.

Lemma last_with_in {A B : Type} `{EqDecision B} (f : A -> B) b l x : last_with f b l = Some x -> x ∈ l /\ f x = b.
Proof. intros Hx%last_Some_elem_of. by apply list_elem_of_filter in Hx as [? ?]. Qed.

(** ** Machine integers

    [usize] is 64 bits on every target the daemon is built for. *)

Definition u32_max : Z := 2 ^ 32 - 1.
Definition u64_max : Z := 2 ^ 64 - 1.
Definition usize_max : Z := u64_max.
Definition i64_max : Z := 2 ^ 63 - 1.
(** The largest length a Rust [Vec] can have. *)
Definition isize_max : Z := 2 ^ 63 - 1.

Definition is_u32 (z : Z) : Prop := 0 <= z < 2 ^ 32.
Definition is_u64 (z : Z) : Prop := 0 <= z < 2 ^ 64.
Definition is_i32 (z : Z) : Prop := - 2 ^ 31 <= z < 2 ^ 31.
Definition is_i64 (z : Z) : Prop := - 2 ^ 63 <= z < 2 ^ 63.

(** [z as u64], [z as u32], [z as i64], [z as i32], [b as i8]. *)
Definition as_u64 (z : Z) : Z := z mod 2 ^ 64.
Definition as_u32 (z : Z) : Z := z mod 2 ^ 32.
Definition as_signed (w z : Z) : Z := (z + 2 ^ (w - 1)) mod 2 ^ w - 2 ^ (w - 1).
Definition as_i64 : Z -> Z := as_signed 64.
Definition as_i32 : Z -> Z := as_signed 32.
Definition as_i8 : Z -> Z := as_signed 8.

(** [bool as u64]. *)
Definition bool_u64 (b : bool) : Z := if b then 1 else 0.

Ltac unfold_ints :=
  unfold is_u32, is_u64, is_i32, is_i64, as_u64, as_u32, as_i64, as_i32, as_i8, as_signed,
    usize_max, isize_max, u64_max, u32_max, i64_max, bool_u64 in *.

Lemma as_u64_small z : is_u64 z -> as_u64 z = z.
Proof. apply Z.mod_small. Qed.

Lemma as_u32_small z : is_u32 z -> as_u32 z = z.
Proof. apply Z.mod_small. Qed.

Lemma as_u64_range z : is_u64 (as_u64 z).
Proof. apply Z.mod_pos_bound. lia. Qed.

Lemma as_i64_range z : is_i64 (as_i64 z).
Proof. unfold_ints. pose proof (Z.mod_pos_bound (z + 2 ^ (64 - 1)) (2 ^ 64)). lia. Qed.

Lemma as_i32_range z : is_i32 (as_i32 z).
Proof. unfold_ints. pose proof (Z.mod_pos_bound (z + 2 ^ (32 - 1)) (2 ^ 32)). lia. Qed.

(** [i64 -> u64 -> i64] is the identity: the cast protobuf fields of type [int64] use. *)
Lemma as_i64_u64 z : is_i64 z -> as_i64 (as_u64 z) = z.
Proof.
  intros Hz. unfold_ints. rewrite Zplus_mod_idemp_l.
  rewrite Z.mod_small; lia.
Qed.

(** [i32 -> i64 -> u64 -> i64 -> i32] is the identity: the cast of [int32] fields. *)
Lemma as_i32_i64_u64 z : is_i32 z -> as_i32 (as_i64 (as_u64 z)) = z.
Proof.
  intros Hz. rewrite as_i64_u64 by (unfold_ints; lia).
  unfold_ints. rewrite Z.mod_small; lia.
Qed.

Lemma bool_u64_nonzero b : negb (bool_u64 b =? 0) = b.
Proof. by destruct b. Qed.

Lemma is_u64_bool b : is_u64 (bool_u64 b).
Proof. destruct b; unfold_ints; lia. Qed.

(** ** [Result], [Option] and the [?] operator *)

Inductive result (A E : Type) : Type :=
| Ok (a : A)
| Err (e : E).
Arguments Ok {A E} a.
Arguments Err {A E} e.

(** Rust's [From], as far as the [?] operator uses it. *)
Class From (E1 E2 : Type) := from : E1 -> E2.

#[export] Instance from_id {E : Type} : From E E | 0 := fun e => e.

(** [let x = r?; k x]. *)
Definition try_bind {A B E1 E2 : Type} `{From E1 E2}
    (r : result A E1) (k : A -> result B E2) : result B E2 :=
  match r with
  | Ok a => k a
  | Err e => Err (from e)
  end.

(** [let x = o?; k x] in a function that returns an [Option]. *)
Definition opt_bind {A B : Type} (o : option A) (k : A -> option B) : option B :=
  match o with
  | Some a => k a
  | None => None
  end.

Declare Scope rust_scope.
Delimit Scope rust_scope with rust.

Notation "'let?' x ':=' r 'in' k" := (try_bind r (fun x => k))
  (at level 10, x pattern, r at level 100, k at level 200,
   format "'[v' 'let?'  x  ':='  r  'in' '/' k ']'") : rust_scope.
Notation "'let^' x ':=' o 'in' k" := (opt_bind o (fun x => k))
  (at level 10, x pattern, o at level 100, k at level 200,
   format "'[v' 'let^'  x  ':='  o  'in' '/' k ']'") : rust_scope.

#[global] Open Scope rust_scope.

(** [Option::ok_or], [Result::ok], [Result::map], [Result::map_err], [Result::is_ok]. *)
Definition ok_or {A E : Type} (o : option A) (e : E) : result A E :=
  match o with Some a => Ok a | None => Err e end.
Definition ok {A E : Type} (r : result A E) : option A :=
  match r with Ok a => Some a | Err _ => None end.
Definition map_ok {A B E : Type} (f : A -> B) (r : result A E) : result B E :=
  match r with Ok a => Ok (f a) | Err e => Err e end.
Definition map_err {A E F : Type} (f : E -> F) (r : result A E) : result A F :=
  match r with Ok a => Ok a | Err e => Err (f e) end.
Definition is_ok {A E : Type} (r : result A E) : bool :=
  match r with Ok _ => true | Err _ => false end.

(** [Option::unwrap_or], [Option::map], [Option::flatten]. *)
Definition unwrap_or {A : Type} (o : option A) (d : A) : A :=
  match o with Some a => a | None => d end.
Definition map_opt {A B : Type} (f : A -> B) (o : option A) : option B :=
  match o with Some a => Some (f a) | None => None end.
Definition flatten_opt {A : Type} (o : option (option A)) : option A :=
  match o with Some o' => o' | None => None end.
Definition is_some {A : Type} (o : option A) : bool :=
  match o with Some _ => true | None => false end.

Lemma Ok_inj {A E} (a b : A) : Ok a = (Ok b : result A E) -> a = b.
Proof. by intros [= ->]. Qed.

Lemma try_bind_Ok {A B E1 E2} `{From E1 E2} (r : result A E1) (k : A -> result B E2) b :
  try_bind r k = Ok b -> exists a, r = Ok a /\ k a = Ok b.
Proof. destruct r; cbn; [eauto|done]. Qed.

Lemma ok_or_Ok {A E} (o : option A) (e : E) a : ok_or o e = Ok a -> o = Some a.
Proof. destruct o; [by intros ->%Ok_inj|done]. Qed.

Lemma opt_bind_Some {A B} (o : option A) (k : A -> option B) b :
  opt_bind o k = Some b -> exists a, o = Some a /\ k a = Some b.
Proof. destruct o; cbn; [eauto|done]. Qed.

(** Invert a computation known to succeed, one step at a time. *)
Ltac inv_ok :=
  repeat match goal with
  | H : try_bind _ _ = Ok _ |- _ => apply try_bind_Ok in H as (? & ? & H)
  | H : opt_bind _ _ = Some _ |- _ => apply opt_bind_Some in H as (? & ? & H)
  | H : (let (_, _) := ?p in _) = Ok _ |- _ => destruct p
  | H : (let (_, _) := ?p in _) = Some _ |- _ => destruct p
  | H : (if ?c then _ else _) = Ok _ |- _ => destruct c eqn:?
  | H : (if ?c then _ else _) = Some _ |- _ => destruct c eqn:?
  | H : Ok _ = Ok _ |- _ => injection H; clear H; intros
  | H : Err _ = Ok _ |- _ => discriminate H
  | H : None = Some _ |- _ => discriminate H
  end.

(** ** Slices *)

Definition len {A : Type} (l : list A) : Z := Z.of_nat (length l).

Definition is_empty {A : Type} (l : list A) : bool :=
  match l with [] => true | _ => false end.

(** [buf.get(i)]. *)
Definition get {A : Type} (l : list A) (i : Z) : option A :=
  if (0 <=? i) && (i <? len l) then l !! Z.to_nat i else None.

(** [buf.get(a..b)]; an out-of-range or decreasing range is [None] (the indexing form
    [buf[a..b]] panics there). *)
Definition slice {A : Type} (l : list A) (a b : Z) : option (list A) :=
  if (0 <=? a) && (a <=? b) && (b <=? len l)
  then Some (take (Z.to_nat (b - a)) (drop (Z.to_nat a) l))
  else None.

Lemma len_nat {A : Type} (l : list A) : len l = Z.of_nat (length l).
Proof. done. Qed.

Lemma len_nil {A : Type} : len (@nil A) = 0.
Proof. done. Qed.

Lemma len_cons {A : Type} (x : A) l : len (x :: l) = len l + 1.
Proof. unfold len. rewrite length_cons. lia. Qed.

Lemma len_app {A : Type} (l k : list A) : len (l ++ k) = len l + len k.
Proof. unfold len. rewrite length_app. lia. Qed.

Lemma len_mjoin_cons {A} (x : list A) l : len (mjoin (x :: l)) = len x + len (mjoin l).
Proof. apply len_app. Qed.

Lemma len_nonneg {A : Type} (l : list A) : 0 <= len l.
Proof. unfold len. lia. Qed.

Lemma len_0_nil {A : Type} (l : list A) : len l = 0 -> l = [].
Proof. destruct l; [done|]. rewrite len_cons. pose proof (len_nonneg l). lia. Qed.

Lemma len_replicate {A : Type} n (x : A) : len (replicate n x) = Z.of_nat n.
Proof. unfold len. by rewrite length_replicate. Qed.

Lemma len_take {A : Type} n (l : list A) : len (take n l) = Z.min (Z.of_nat n) (len l).
Proof. unfold len. rewrite length_take. lia. Qed.

Lemma len_drop {A : Type} n (l : list A) : len (drop n l) = Z.max 0 (len l - Z.of_nat n).
Proof. unfold len. rewrite length_drop. lia. Qed.

Lemma len_map {A B : Type} (f : A -> B) (l : list A) : len (f <$> l) = len l.
Proof. unfold len. by rewrite length_fmap. Qed.

#[global] Opaque len.

(** Push [len] through the list constructors. *)
Ltac simpl_len :=
  repeat first
    [ progress rewrite ?len_app, ?len_cons, ?len_map, ?len_replicate
    | progress change (@len _ nil) with 0 ].
Tactic Notation "simpl_len" "in" hyp(H) :=
  repeat first
    [ progress rewrite ?len_app, ?len_cons, ?len_map, ?len_replicate in H
    | progress change (@len _ nil) with 0 in H ].

Lemma get_app_pos {A : Type} (l k : list A) i :
  i = len l -> get (l ++ k) i = head k.
Proof.
  intros ->. unfold get. rewrite len_app. pose proof (len_nonneg l).
  destruct k as [|x k]; cbn [head].
  - simpl_len. rewrite (proj2 (Z.ltb_ge _ _)) by lia. by rewrite andb_false_r.
  - rewrite len_cons. pose proof (len_nonneg k).
    rewrite (proj2 (Z.leb_le _ _)), (proj2 (Z.ltb_lt _ _)) by lia. cbn.
    rewrite !len_nat. rewrite Nat2Z.id, lookup_app_r by lia.
    by rewrite Nat.sub_diag.
Qed.

Lemma get_Some_lt {A : Type} (l : list A) i x : get l i = Some x -> 0 <= i < len l.
Proof. unfold get. destruct ((0 <=? i) && (i <? len l)) eqn:E; [|done]. lia. Qed.

Lemma get_is_Some {A : Type} (l : list A) i : 0 <= i < len l -> is_Some (get l i).
Proof.
  intros Hi. unfold get. rewrite (proj2 (Z.leb_le _ _)), (proj2 (Z.ltb_lt _ _)) by lia. cbn.
  apply lookup_lt_is_Some_2. rewrite len_nat in Hi. lia.
Qed.

Lemma get_None_ge {A : Type} (l : list A) i : 0 <= i -> get l i = None <-> len l <= i.
Proof.
  intros Hi. split; intros H.
  - destruct (decide (len l <= i)); [done|].
    destruct (get_is_Some l i) as [x Hx]; [lia|congruence].
  - unfold get. rewrite (proj2 (Z.ltb_ge _ _)) by lia. by rewrite andb_false_r.
Qed.

Lemma slice_app {A : Type} (l m r : list A) a b :
  a = len l -> b = len l + len m -> slice (l ++ m ++ r) a b = Some m.
Proof.
  intros -> ->. unfold slice. rewrite !len_app.
  pose proof (len_nonneg l). pose proof (len_nonneg m). pose proof (len_nonneg r).
  rewrite !(proj2 (Z.leb_le _ _)) by lia.
  cbn. f_equal.
  replace (len l + len m - len l) with (len m) by lia.
  rewrite !len_nat. rewrite !Nat2Z.id, drop_app_length. by apply take_app_length.
Qed.

Lemma slice_len {A : Type} (l m : list A) a b : slice l a b = Some m -> len m = b - a.
Proof.
  unfold slice. destruct ((0 <=? a) && (a <=? b) && (b <=? len l)) eqn:E; [|done].
  intros [= <-]. rewrite len_take, len_drop. lia.
Qed.

Lemma slice_Some_iff {A : Type} (l : list A) a b :
  is_Some (slice l a b) <-> 0 <= a <= b /\ b <= len l.
Proof.
  unfold slice. destruct ((0 <=? a) && (a <=? b) && (b <=? len l)) eqn:E.
  - split; [lia|eauto].
  - split; [intros [? ?]; done|lia].
Qed.

(** ** Big-endian integers *)

(** The [n] low bytes of [v], most significant first: [v.to_be_bytes()]. *)
Fixpoint to_be_bytes (n : nat) (v : Z) : list byte :=
  match n with
  | O => []
  | S n' => to_u8 (v / 256 ^ Z.of_nat n') :: to_be_bytes n' v
  end.

(** [uN::from_be_bytes]. *)
Definition from_be_bytes (bs : list byte) : Z :=
  fold_left (fun acc b => acc * 256 + u8 b) bs 0.

Lemma len_to_be_bytes n v : len (to_be_bytes n v) = Z.of_nat n.
Proof. induction n; [done|]. cbn [to_be_bytes]. rewrite len_cons, IHn. lia. Qed.

Lemma from_be_bytes_acc bs acc :
  fold_left (fun acc b => acc * 256 + u8 b) bs acc
  = acc * 256 ^ len bs + from_be_bytes bs.
Proof.
  unfold from_be_bytes. revert acc.
  induction bs as [|b bs IH]; intros acc; cbn [fold_left].
  - simpl_len. lia.
  - rewrite IH, (IH (0 * 256 + u8 b)), len_cons.
    rewrite Z.pow_add_r by (pose proof (len_nonneg bs); lia). lia.
Qed.

Lemma from_be_bytes_cons b bs :
  from_be_bytes (b :: bs) = u8 b * 256 ^ len bs + from_be_bytes bs.
Proof. unfold from_be_bytes at 1. cbn [fold_left]. by rewrite from_be_bytes_acc. Qed.

Lemma from_be_bytes_range bs : 0 <= from_be_bytes bs < 256 ^ len bs.
Proof.
  induction bs as [|b bs IH]; [simpl_len; cbn; lia|].
  rewrite from_be_bytes_cons, len_cons.
  rewrite Z.pow_add_r by (pose proof (len_nonneg bs); lia).
  pose proof (u8_range b). nia.
Qed.

Lemma from_be_bytes_app a b :
  from_be_bytes (a ++ b) = from_be_bytes a * 256 ^ len b + from_be_bytes b.
Proof. unfold from_be_bytes at 1. by rewrite fold_left_app, from_be_bytes_acc. Qed.

Lemma from_be_bytes_inj a b :
  length a = length b -> from_be_bytes a = from_be_bytes b -> a = b.
Proof.
  revert b. induction a as [|x a IH]; intros [|y b]; try done. intros [= Hl].
  rewrite !from_be_bytes_cons. intros Heq.
  pose proof (from_be_bytes_range a) as Ha. pose proof (from_be_bytes_range b) as Hb.
  assert (Hlen : len a = len b) by (rewrite !len_nat; lia). rewrite Hlen in Heq, Ha.
  assert (Hxy : u8 x = u8 y) by nia. f_equal; [by apply u8_inj|]. apply IH; [done|].
  rewrite Hxy in Heq. lia.
Qed.

Lemma from_to_be_bytes n v :
  0 <= v -> from_be_bytes (to_be_bytes n v) = v mod 256 ^ Z.of_nat n.
Proof.
  intros Hv. induction n as [|n IH]; [by rewrite Z.mod_1_r|].
  cbn [to_be_bytes]. rewrite from_be_bytes_cons, IH, u8_to_u8, len_to_be_bytes.
  replace (Z.of_nat (S n)) with (Z.of_nat n + 1) by lia.
  rewrite Z.pow_add_r by lia. change (256 ^ 1) with 256.
  rewrite Z.rem_mul_r by lia. lia.
Qed.

Lemma from_to_be_bytes_small n v :
  0 <= v < 256 ^ Z.of_nat n -> from_be_bytes (to_be_bytes n v) = v.
Proof. intros Hv. rewrite from_to_be_bytes by lia. by apply Z.mod_small. Qed.

(** ** Bit operations as arithmetic *)

Lemma land_127 z : Z.land z 127 = z mod 128.
Proof. change 127 with (Z.ones 7). by rewrite Z.land_ones. Qed.

Lemma shiftr_7 z : Z.shiftr z 7 = z / 128.
Proof. by rewrite Z.shiftr_div_pow2. Qed.

Lemma lor_disjoint a b s : 0 <= s -> 0 <= a < 2 ^ s -> Z.lor a (Z.shiftl b s) = a + b * 2 ^ s.
Proof.
  intros Hs Ha. rewrite <- Z.shiftl_mul_pow2 by done.
  rewrite <- (Z.add_lor_land a (Z.shiftl b s)).
  replace (Z.land a (Z.shiftl b s)) with 0; [lia|].
  apply Z.bits_inj'. intros n Hn. rewrite Z.bits_0, Z.land_spec.
  destruct (decide (n < s)).
  - rewrite Z.shiftl_spec_low by done. by rewrite andb_false_r.
  - rewrite <- (Z.mod_small a (2 ^ s)) by done.
    rewrite Z.mod_pow2_bits_high by lia. done.
Qed.

Lemma lor_range w a b : 0 <= w -> 0 <= a < 2 ^ w -> 0 <= b < 2 ^ w -> 0 <= Z.lor a b < 2 ^ w.
Proof.
  intros Hw Ha Hb.
  assert (H0 : 0 <= Z.lor a b) by (apply Z.lor_nonneg; lia).
  split; [done|].
  replace (Z.lor a b) with (Z.lor a b mod 2 ^ w); [apply Z.mod_pos_bound; lia|].
  apply Z.bits_inj'. intros n Hn. destruct (decide (n < w)).
  - by rewrite Z.mod_pow2_bits_low.
  - rewrite Z.mod_pow2_bits_high by lia. rewrite Z.lor_spec.
    rewrite <- (Z.mod_small a (2 ^ w)), <- (Z.mod_small b (2 ^ w)) by done.
    by rewrite !Z.mod_pow2_bits_high by lia.
Qed.

Lemma land_128_byte b : (Z.land (u8 b) 128 =? 0) = (u8 b <? 128).
Proof. by destruct b. Qed.

(** [buf[a..b]] for indices already checked; the callers' bounds are proved. *)
Definition sub_range {A : Type} (l : list A) (a b : Z) : list A :=
  take (Z.to_nat (b - a)) (drop (Z.to_nat a) l).

(** [now.duration_since(t)] of two [Instant]s, which is zero for a later [t]. *)
Definition duration_since (now t : Z) : Z := Z.max 0 (now - t).

(** [usize::checked_add]. *)
Definition checked_add (a b : Z) : option Z :=
  if a + b <=? usize_max then Some (a + b) else None.

Lemma checked_add_small a b : a + b <= usize_max -> checked_add a b = Some (a + b).
Proof. intros H. unfold checked_add. by rewrite (proj2 (Z.leb_le _ _)). Qed.

Lemma slice_skip {A : Type} (l r : list A) a b :
  0 <= a -> slice (l ++ r) (len l + a) (len l + b) = slice r a b.
Proof.
  intros Ha. unfold slice. simpl_len. pose proof (len_nonneg l).
  replace (0 <=? len l + a) with (0 <=? a) by (rewrite !(proj2 (Z.leb_le _ _)) by lia; done).
  replace (len l + a <=? len l + b) with (a <=? b)
    by (destruct (Z.leb_spec a b); destruct (Z.leb_spec (len l + a) (len l + b)); lia || done).
  replace (len l + b <=? len l + len r) with (b <=? len r)
    by (destruct (Z.leb_spec b (len r)); destruct (Z.leb_spec (len l + b) (len l + len r));
        lia || done).
  destruct (_ && _); [|done]. do 2 f_equal; [lia|].
  rewrite (len_nat l), Z2Nat.inj_add, Nat2Z.id by lia. by rewrite <- drop_drop, drop_app_length.
Qed.

Lemma sub_range_mid {A : Type} (l m r : list A) a b :
  a = len l -> b = len l + len m -> sub_range (l ++ m ++ r) a b = m.
Proof.
  intros -> ->. unfold sub_range. replace (len l + len m - len l) with (len m) by lia.
  rewrite !len_nat, !Nat2Z.id, drop_app_length. apply take_app_length.
Qed.

Lemma slice_split {A : Type} (l m : list A) a b :
  slice l a b = Some m -> exists x y, l = x ++ m ++ y /\ a = len x.
Proof.
  unfold slice. destruct ((0 <=? a) && (a <=? b) && (b <=? len l)) eqn:E; [|done]. intros [= <-].
  exists (take (Z.to_nat a) l), (drop (Z.to_nat (b - a)) (drop (Z.to_nat a) l)).
  rewrite !take_drop. split; [done|]. rewrite len_take. lia.
Qed.

Lemma slice_sub {A : Type} (l m : list A) a b : slice l a b = Some m -> m = sub_range l a b.
Proof. unfold slice, sub_range. destruct (_ && _); [|done]. by intros <-%(inj Some). Qed.

Lemma get_nth (l : list byte) i : 0 <= i < len l -> get l i = Some (nth (Z.to_nat i) l Byte.x00).
Proof.
  intros Hi. unfold get. rewrite (proj2 (Z.leb_le _ _)), (proj2 (Z.ltb_lt _ _)) by lia. cbn.
  rewrite len_nat in Hi. rewrite nth_lookup.
  destruct (l !! Z.to_nat i) as [x|] eqn:E; [done|]. apply lookup_ge_None in E. lia.
Qed.

Lemma slice_take (l : list byte) a b :
  0 <= a <= b -> b <= len l -> slice l a b = Some (take (Z.to_nat (b - a)) (drop (Z.to_nat a) l)).
Proof. intros Ha Hb. unfold slice. by rewrite !(proj2 (Z.leb_le _ _)) by lia. Qed.

Lemma take_len_app {A} n (l k : list A) :
  len l <= n -> take (Z.to_nat n) (l ++ k) = l ++ take (Z.to_nat (n - len l)) k.
Proof.
  intros Hn. pose proof (len_nonneg l). rewrite len_nat in *.
  rewrite take_app, firstn_all2 by lia. do 2 f_equal. lia.
Qed.

Lemma drop_len_app {A} n (l k : list A) :
  len l <= n -> drop (Z.to_nat n) (l ++ k) = drop (Z.to_nat (n - len l)) k.
Proof.
  intros Hn. rewrite len_nat in *. rewrite drop_app, skipn_all2 by lia. cbn [app]. f_equal. lia.
Qed.

(** Method-call chaining, [w |> f |> g] for [w.f().g()]. *)
Notation "w |> f" := (f w) (at level 45, left associativity, only parsing) : rust_scope.

(** A buffer the program can hold: a [Vec] never exceeds [isize::MAX] bytes. *)
Definition fits {A : Type} (l : list A) : Prop := len l <= isize_max.

Lemma fits_app {A : Type} (l k : list A) : fits (l ++ k) -> fits l /\ fits k.
Proof.
  unfold fits. simpl_len. pose proof (len_nonneg l). pose proof (len_nonneg k). lia.
Qed.

Lemma fits_le {A B : Type} (l : list A) (k : list B) : len l <= len k -> fits k -> fits l.
Proof. unfold fits. lia. Qed.

Lemma fits_is_u64 {A : Type} (l : list A) : fits l -> is_u64 (len l).
Proof. unfold fits. unfold_ints. pose proof (len_nonneg l). lia. Qed.

Create HintDb rust.
#[export] Hint Resolve len_nonneg fits_is_u64 is_u64_bool as_u64_range : rust.
