(* ===== verification/Utf8.v ===== *)
(** * [String::from_utf8_lossy] and [str::from_utf8]

    Names and identifiers taken from a peer are decoded with the standard library's lossy
    UTF-8 conversion: each maximal invalid prefix becomes U+FFFD.  A Rust [String] is
    modelled by its UTF-8 bytes, so the conversion is a function on byte lists. *)

From S2P Require Import Prelude.

Definition in_range (lo hi : Z) (b : byte) : bool := (lo <=? u8 b) && (u8 b <=? hi).

(** A continuation byte, [10xxxxxx]. *)
Definition cont (b : byte) : bool := in_range 0x80 0xBF b.

(** The second byte of a three-byte and of a four-byte sequence: no overlong forms, no
    surrogates, nothing above U+10FFFF. *)
Definition second3 (b0 b1 : byte) : bool :=
  ((u8 b0 =? 0xE0) && in_range 0xA0 0xBF b1)
  || (in_range 0xE1 0xEC b0 && cont b1)
  || ((u8 b0 =? 0xED) && in_range 0x80 0x9F b1)
  || (in_range 0xEE 0xEF b0 && cont b1).
Definition second4 (b0 b1 : byte) : bool :=
  ((u8 b0 =? 0xF0) && in_range 0x90 0xBF b1)
  || (in_range 0xF1 0xF3 b0 && cont b1)
  || ((u8 b0 =? 0xF4) && in_range 0x80 0x8F b1).

(** The sequence that starts with [b0]: is it a whole character, and how many bytes of
    [l] belong to it (to the character, or to the maximal invalid prefix). *)
Definition scan (b0 : byte) (l : list byte) : bool * nat :=
  if u8 b0 <? 0x80 then (true, 0%nat)
  else if in_range 0xC2 0xDF b0 then
    match l with
    | b1 :: _ => if cont b1 then (true, 1%nat) else (false, 0%nat)
    | _ => (false, 0%nat)
    end
  else if in_range 0xE0 0xEF b0 then
    match l with
    | b1 :: l =>
        if second3 b0 b1 then
          match l with
          | b2 :: _ => if cont b2 then (true, 2%nat) else (false, 1%nat)
          | _ => (false, 1%nat)
          end
        else (false, 0%nat)
    | _ => (false, 0%nat)
    end
  else if in_range 0xF0 0xF4 b0 then
    match l with
    | b1 :: l =>
        if second4 b0 b1 then
          match l with
          | b2 :: l =>
              if cont b2 then
                match l with
                | b3 :: _ => if cont b3 then (true, 3%nat) else (false, 2%nat)
                | _ => (false, 2%nat)
                end
              else (false, 1%nat)
          | _ => (false, 1%nat)
          end
        else (false, 0%nat)
    | _ => (false, 0%nat)
    end
  else (false, 0%nat).

(** U+FFFD REPLACEMENT CHARACTER. *)
Definition replacement : list byte := [to_u8 0xEF; to_u8 0xBF; to_u8 0xBD].

Fixpoint lossy_go (fuel : nat) (l : list byte) : list byte :=
  match fuel, l with
  | S fuel, b :: l =>
      let (good, n) := scan b l in
      (if good then b :: take n l else replacement) ++ lossy_go fuel (drop n l)
  | _, _ => []
  end.

Definition from_utf8_lossy (l : list byte) : list byte := lossy_go (length l) l.

Fixpoint valid_go (fuel : nat) (l : list byte) : bool :=
  match fuel, l with
  | S fuel, b :: l => let (good, n) := scan b l in good && valid_go fuel (drop n l)
  | O, _ :: _ => false
  | _, [] => true
  end.

(** Is [l] well-formed UTF-8? *)
Definition valid (l : list byte) : bool := valid_go (length l) l.

Definition from_utf8 (l : list byte) : option (list byte) := if valid l then Some l else None.

(** ** Lemmas *)

Lemma scan_good b l n :
  scan b l = (true, n) -> (n <= length l)%nat /\ forall k, scan b (take n l ++ k) = (true, n).
Proof.
  unfold scan. intros H.
  repeat (case_match; try (exfalso; congruence));
    injection H as <-; cbn [length take app]; (split; [lia|]); intros k;
    repeat match goal with Hc : ?c = true |- context [?c] => rewrite Hc end; done.
Qed.

Lemma lossy_fuel n m l :
  (length l <= n)%nat -> (length l <= m)%nat -> lossy_go n l = lossy_go m l.
Proof.
  revert m l. induction n as [|n IH]; intros [|m] [|b l] Hn Hm; cbn [length] in *;
    try done || lia.
  cbn [lossy_go]. destruct (scan b l) as [g k]. f_equal.
  apply IH; rewrite length_drop; lia.
Qed.

Lemma valid_fuel n m l :
  (length l <= n)%nat -> (length l <= m)%nat -> valid_go n l = valid_go m l.
Proof.
  revert m l. induction n as [|n IH]; intros [|m] [|b l] Hn Hm; cbn [length] in *;
    try done || lia.
  cbn [valid_go]. destruct (scan b l) as [g k]. f_equal.
  apply IH; rewrite length_drop; lia.
Qed.

Lemma valid_cons b l :
  valid (b :: l) = let (good, n) := scan b l in good && valid (drop n l).
Proof.
  unfold valid. cbn [length valid_go]. destruct (scan b l) as [g n]. f_equal.
  apply valid_fuel; rewrite ?length_drop; lia.
Qed.

Lemma lossy_cons b l :
  from_utf8_lossy (b :: l) =
  let (good, n) := scan b l in
  (if good then b :: take n l else replacement) ++ from_utf8_lossy (drop n l).
Proof.
  unfold from_utf8_lossy. cbn [length lossy_go]. destruct (scan b l) as [g n]. f_equal.
  apply lossy_fuel; rewrite ?length_drop; lia.
Qed.

Lemma length_ind {A : Type} (P : list A -> Prop) :
  (forall l, (forall k, (length k < length l)%nat -> P k) -> P l) -> forall l, P l.
Proof.
  intros H l. remember (length l) as n eqn:Hn. revert l Hn.
  induction (lt_wf n) as [n _ IH]. intros l ->. apply H. intros k Hk. by eapply IH.
Qed.

(** Well-formed input is returned unchanged. *)
Lemma lossy_valid l : valid l = true -> from_utf8_lossy l = l.
Proof.
  induction l as [[|b l] IH] using length_ind; [done|].
  rewrite valid_cons, lossy_cons. destruct (scan b l) as [g n].
  intros [-> Hv]%andb_true_iff. rewrite IH; [|cbn; rewrite length_drop; lia|done].
  cbn [app]. by rewrite take_drop.
Qed.

Lemma valid_good_app b l n k :
  scan b l = (true, n) -> valid k = true -> valid ((b :: take n l) ++ k) = true.
Proof.
  intros Hs Hk. destruct (scan_good _ _ _ Hs) as [Hn Hsc]. cbn [app].
  rewrite valid_cons, Hsc. cbn [andb].
  rewrite drop_app_length'; [done|]. rewrite length_take. lia.
Qed.

(** Whatever the input, the result is well-formed UTF-8: a [String]. *)
Lemma lossy_is_valid l : valid (from_utf8_lossy l) = true.
Proof.
  induction l as [[|b l] IH] using length_ind; [done|].
  rewrite lossy_cons. destruct (scan b l) as [[|] n] eqn:Hs.
  - apply valid_good_app; [done|]. apply IH. cbn. rewrite length_drop. lia.
  - apply (valid_good_app _ [to_u8 0xBF; to_u8 0xBD] 2); [reflexivity|].
    apply IH. cbn. rewrite length_drop. lia.
Qed.

Lemma lossy_idemp l : from_utf8_lossy (from_utf8_lossy l) = from_utf8_lossy l.
Proof. apply lossy_valid, lossy_is_valid. Qed.

#[export] Hint Resolve lossy_is_valid : rust.

(** Concatenating strings gives a string. *)
Lemma valid_app a b : valid a = true -> valid b = true -> valid (a ++ b) = true.
Proof.
  induction a as [[|x a] IH] using length_ind; [done|]. intros Ha Hb.
  rewrite valid_cons in Ha. destruct (scan x a) as [g n] eqn:Hs.
  apply andb_true_iff in Ha as [-> Ha].
  rewrite <- (take_drop n a), app_comm_cons, <- app_assoc.
  apply valid_good_app; [done|]. apply IH; [|done..]. cbn. rewrite length_drop. lia.
Qed.

Lemma from_utf8_Some l s : from_utf8 l = Some s -> s = l /\ valid s = true.
Proof. unfold from_utf8. destruct (valid l) eqn:Hv; [|done]. by intros [= <-]. Qed.
