(* ===== verification/Utf16.v ===== *)
(** * [str::encode_utf16] and [String::from_utf16_lossy]

    The standard library's conversions between a [String] (its UTF-8 bytes) and UTF-16 code
    units, which binary property lists use for text that is not ASCII. *)

From S2P Require Import Prelude Utf8.

(** The character whose UTF-8 form is [b] and the continuation bytes [l]. *)
Definition char_of (b : byte) (l : list byte) : Z :=
  match l with
  | [] => u8 b
  | [b1] => (u8 b - 0xC0) * 64 + (u8 b1 - 0x80)
  | [b1; b2] => ((u8 b - 0xE0) * 64 + (u8 b1 - 0x80)) * 64 + (u8 b2 - 0x80)
  | b1 :: b2 :: b3 :: _ =>
      (((u8 b - 0xF0) * 64 + (u8 b1 - 0x80)) * 64 + (u8 b2 - 0x80)) * 64 + (u8 b3 - 0x80)
  end.

Definition utf8_of (c : Z) : list byte :=
  if c <? 0x80 then [to_u8 c]
  else if c <? 0x800 then [to_u8 (0xC0 + c / 64); to_u8 (0x80 + c mod 64)]
  else if c <? 0x10000 then
    [to_u8 (0xE0 + c / 4096); to_u8 (0x80 + c / 64 mod 64); to_u8 (0x80 + c mod 64)]
  else
    [to_u8 (0xF0 + c / 262144); to_u8 (0x80 + c / 4096 mod 64); to_u8 (0x80 + c / 64 mod 64);
     to_u8 (0x80 + c mod 64)].

Definition units_of (c : Z) : list Z :=
  if c <? 0x10000 then [c]
  else [0xD800 + (c - 0x10000) / 1024; 0xDC00 + (c - 0x10000) mod 1024].

Fixpoint utf16_go (fuel : nat) (l : list byte) : list Z :=
  match fuel, l with
  | S fuel, b :: l =>
      let n := snd (scan b l) in units_of (char_of b (take n l)) ++ utf16_go fuel (drop n l)
  | _, _ => []
  end.

Definition encode_utf16 (s : list byte) : list Z := utf16_go (length s) s.

Definition high (u : Z) : bool := (0xD800 <=? u) && (u <? 0xDC00).
Definition low (u : Z) : bool := (0xDC00 <=? u) && (u <? 0xE000).

(** An unpaired surrogate becomes U+FFFD. *)
Fixpoint from_utf16_lossy (us : list Z) : list byte :=
  match us with
  | [] => []
  | u :: us' =>
      if high u then
        match us' with
        | v :: us'' =>
            if low v
            then utf8_of (0x10000 + (u - 0xD800) * 1024 + (v - 0xDC00)) ++ from_utf16_lossy us''
            else replacement ++ from_utf16_lossy us'
        | [] => replacement
        end
      else if low u then replacement ++ from_utf16_lossy us'
      else utf8_of u ++ from_utf16_lossy us'
  end.

(** ** Lemmas *)

Lemma to_u8_eq z b : z = u8 b -> to_u8 z = b.
Proof. intros ->. apply to_u8_u8. Qed.

(** The boundaries of the four lengths, and what each byte of a character is. *)
Ltac utf8_arith := Z.to_euclidean_division_equations; lia.

Lemma utf8_of_1 b : u8 b < 0x80 -> utf8_of (char_of b []) = [b].
Proof.
  intros Hb. cbn [char_of]. unfold utf8_of. rewrite (proj2 (Z.ltb_lt _ _)) by done.
  by rewrite to_u8_u8.
Qed.

Lemma utf8_of_2 b b1 :
  0xC2 <= u8 b <= 0xDF -> 0x80 <= u8 b1 <= 0xBF -> utf8_of (char_of b [b1]) = [b; b1].
Proof.
  intros Hb H1. cbn [char_of]. unfold utf8_of.
  rewrite (proj2 (Z.ltb_ge _ 0x80)), (proj2 (Z.ltb_lt _ 0x800)) by lia.
  repeat f_equal; apply to_u8_eq; utf8_arith.
Qed.

Lemma utf8_of_3 b b1 b2 :
  0xE0 <= u8 b <= 0xEF -> 0x80 <= u8 b1 <= 0xBF -> 0x80 <= u8 b2 <= 0xBF ->
  (u8 b = 0xE0 -> 0xA0 <= u8 b1) -> utf8_of (char_of b [b1; b2]) = [b; b1; b2].
Proof.
  intros Hb H1 H2 H0. cbn [char_of]. unfold utf8_of.
  rewrite (proj2 (Z.ltb_ge _ 0x80)), (proj2 (Z.ltb_ge _ 0x800)), (proj2 (Z.ltb_lt _ 0x10000)) by lia.
  repeat f_equal; apply to_u8_eq; utf8_arith.
Qed.

Lemma utf8_of_4 b b1 b2 b3 :
  0xF0 <= u8 b <= 0xF4 -> 0x80 <= u8 b1 <= 0xBF -> 0x80 <= u8 b2 <= 0xBF ->
  0x80 <= u8 b3 <= 0xBF -> (u8 b = 0xF0 -> 0x90 <= u8 b1) ->
  utf8_of (char_of b [b1; b2; b3]) = [b; b1; b2; b3].
Proof.
  intros Hb H1 H2 H3 H0. cbn [char_of]. unfold utf8_of.
  rewrite (proj2 (Z.ltb_ge _ 0x80)), (proj2 (Z.ltb_ge _ 0x800)), (proj2 (Z.ltb_ge _ 0x10000)) by lia.
  repeat f_equal; apply to_u8_eq; utf8_arith.
Qed.

(** A character is not a surrogate, and is written back as it was read. *)
Lemma char_of_spec b l n :
  scan b l = (true, n) ->
  let c := char_of b (take n l) in
  utf8_of c = b :: take n l /\ 0 <= c < 0x110000 /\ high c = false /\ low c = false.
Proof.
  unfold scan, second3, second4, cont, in_range, high, low. pose proof (u8_range b).
  intros Hs. repeat (case_match; try (exfalso; congruence)); injection Hs as <-; cbn [take].
  - rewrite take_0. cbn zeta. rewrite utf8_of_1 by lia. cbn [char_of]. split_and!; [done|lia..].
  - cbn zeta. rewrite take_0, utf8_of_2 by lia. cbn [char_of]. split_and!; [done|lia..].
  - cbn zeta. rewrite take_0, utf8_of_3 by lia. cbn [char_of]. split_and!; [done|lia..].
  - cbn zeta. rewrite take_0, utf8_of_4 by lia. cbn [char_of]. split_and!; [done|lia..].
Qed.

Lemma from_units c us :
  0 <= c < 0x110000 -> high c = false -> low c = false ->
  from_utf16_lossy (units_of c ++ us) = utf8_of c ++ from_utf16_lossy us.
Proof.
  intros Hc Hh Hl. unfold units_of. destruct (Z.ltb_spec c 0x10000).
  { cbn [app from_utf16_lossy]. by rewrite Hh, Hl. }
  cbn [app from_utf16_lossy]. unfold high, low.
  rewrite (proj2 (andb_true_iff _ _)) by (rewrite Z.leb_le, Z.ltb_lt; utf8_arith).
  rewrite (proj2 (andb_true_iff _ _)) by (rewrite Z.leb_le, Z.ltb_lt; utf8_arith).
  do 2 f_equal. utf8_arith.
Qed.

Lemma utf16_fuel n m l :
  (length l <= n)%nat -> (length l <= m)%nat -> utf16_go n l = utf16_go m l.
Proof.
  revert m l. induction n as [|n IH]; intros [|m] [|b l] Hn Hm; cbn [length] in *; try done || lia.
  cbn [utf16_go]. f_equal. apply IH; rewrite length_drop; lia.
Qed.

Lemma encode_utf16_cons b l :
  encode_utf16 (b :: l) =
  let n := snd (scan b l) in units_of (char_of b (take n l)) ++ encode_utf16 (drop n l).
Proof.
  unfold encode_utf16. cbn [length utf16_go]. f_equal.
  apply utf16_fuel; rewrite ?length_drop; lia.
Qed.

(** A string survives the trip through UTF-16. *)
Lemma utf16_roundtrip s : valid s = true -> from_utf16_lossy (encode_utf16 s) = s.
Proof.
  induction s as [[|b l] IH] using length_ind; [done|].
  rewrite valid_cons, encode_utf16_cons. destruct (scan b l) as [g n] eqn:Hs.
  intros [-> Hv]%andb_true_iff. cbn [snd]. cbv zeta.
  destruct (char_of_spec _ _ _ Hs) as (Hc & Hr & Hh & Hl).
  rewrite from_units by done. rewrite Hc, IH; [|cbn; rewrite length_drop; lia|done].
  cbn [app]. by rewrite take_drop.
Qed.

Lemma units_range c : 0 <= c < 0x110000 -> Forall (fun u => 0 <= u < 65536) (units_of c).
Proof.
  intros Hc. unfold units_of. destruct (Z.ltb_spec c 0x10000); repeat constructor; utf8_arith.
Qed.

Lemma utf16_range s : valid s = true -> Forall (fun u => 0 <= u < 65536) (encode_utf16 s).
Proof.
  induction s as [[|b l] IH] using length_ind; [constructor|].
  rewrite valid_cons, encode_utf16_cons. destruct (scan b l) as [g n] eqn:Hs.
  intros [-> Hv]%andb_true_iff. cbn [snd]. cbv zeta.
  destruct (char_of_spec _ _ _ Hs) as (_ & Hr & _). apply Forall_app_2; [by apply units_range|].
  apply IH; [cbn; rewrite length_drop; lia|done].
Qed.

(** At most four bytes for a unit, also of bytes that are not text. *)
Lemma scan_le b l : (snd (scan b l) <= 3)%nat.
Proof. unfold scan. repeat case_match; cbn; lia. Qed.

Lemma utf16_len s : len s <= 4 * len (encode_utf16 s).
Proof.
  induction s as [[|b l] IH] using length_ind; [done|]. rewrite encode_utf16_cons.
  pose proof (scan_le b l) as Hn. cbv zeta. set (n := snd (scan b l)) in *.
  specialize (IH (drop n l) ltac:(cbn; rewrite length_drop; lia)).
  rewrite len_cons, len_app. rewrite <- (take_drop n l) at 1. rewrite len_app, len_take.
  enough (1 <= len (units_of (char_of b (take n l)))) by lia.
  unfold units_of. case_match; simpl_len; lia.
Qed.
