(* ===== verification/Text.v ===== *)
(** * Rust's [str]

    What the daemon uses of the standard library's strings: characters, trimming, splitting,
    case, and the parsing of numbers.  A string is its UTF-8 bytes. *)

From stdpp Require Import countable.
From S2P Require Import Prelude Utf8 Utf16.

(** Strings are keys of maps. *)
#[export] Instance byte_countable : Countable byte.
Proof. refine (inj_countable Byte.to_N Byte.of_N _). by intros []. Defined.

(** ** Characters *)

Fixpoint chars_go (fuel : nat) (l : list byte) : list Z :=
  match fuel, l with
  | S fuel, b :: l =>
      let n := snd (scan b l) in char_of b (take n l) :: chars_go fuel (drop n l)
  | _, _ => []
  end.

(** [s.chars()]. *)
Definition chars (s : list byte) : list Z := chars_go (length s) s.

(** [collect::<String>()]. *)
Definition of_chars (cs : list Z) : list byte := mjoin (utf8_of <$> cs).

Definition between (lo hi c : Z) : bool := (lo <=? c) && (c <=? hi).

(** [char::is_control]: the category Cc. *)
Definition is_control (c : Z) : bool := between 0 0x1F c || between 0x7F 0x9F c.

(** [char::is_whitespace]: the property White_Space. *)
Definition is_whitespace (c : Z) : bool :=
  between 0x09 0x0D c || (c =? 0x20) || (c =? 0x85) || (c =? 0xA0) || (c =? 0x1680)
  || between 0x2000 0x200A c || (c =? 0x2028) || (c =? 0x2029) || (c =? 0x202F)
  || (c =? 0x205F) || (c =? 0x3000).

(** ** Trimming and splitting *)

Fixpoint drop_while {A} (p : A -> bool) (l : list A) : list A :=
  match l with
  | [] => []
  | x :: l' => if p x then drop_while p l' else l
  end.

Definition trim_chars (cs : list Z) : list Z :=
  rev (drop_while is_whitespace (rev (drop_while is_whitespace cs))).

(** [s.trim()]. *)
Definition trim (s : list byte) : list byte := of_chars (trim_chars (chars s)).

(** What follows the last byte that satisfies [p]: [s.rsplit(p).next()]. *)
Fixpoint last_part (p : byte -> bool) (s : list byte) : list byte :=
  match s with
  | [] => []
  | b :: s' => if existsb p s' then last_part p s' else if p b then s' else s
  end.

(** What precedes the first: [s.split(p).next()]. *)
Fixpoint first_part (p : byte -> bool) (s : list byte) : list byte :=
  match s with
  | [] => []
  | b :: s => if p b then [] else b :: first_part p s
  end.

(** [s.split_once(c)] and [s.rsplit_once(c)]. *)
Fixpoint split_once (c : byte) (s : list byte) : option (list byte * list byte) :=
  match s with
  | [] => None
  | b :: s =>
      if bool_decide (b = c) then Some ([], s)
      else match split_once c s with Some (x, y) => Some (b :: x, y) | None => None end
  end.
Fixpoint rsplit_once (c : byte) (s : list byte) : option (list byte * list byte) :=
  match s with
  | [] => None
  | b :: s =>
      match rsplit_once c s with
      | Some (x, y) => Some (b :: x, y)
      | None => if bool_decide (b = c) then Some ([], s) else None
      end
  end.

Definition LF : byte := to_u8 10.
Definition CR : byte := to_u8 13.

(** [s.lines()]: a line feed ends a line, with a carriage return before it if there is one. *)
Fixpoint lines_go (line s : list byte) : list (list byte) :=
  match s with
  | [] => if is_empty line then [] else [line]
  | b :: s =>
      if bool_decide (b = LF) then
        (if bool_decide (last line = Some CR) then removelast line else line) :: lines_go [] s
      else lines_go (line ++ [b]) s
  end.
Definition lines (s : list byte) : list (list byte) := lines_go [] s.

(** [s.split_whitespace()]. *)
Fixpoint words_go (word cs : list Z) : list (list byte) :=
  match cs with
  | [] => if is_empty word then [] else [of_chars word]
  | c :: cs =>
      if is_whitespace c then
        if is_empty word then words_go [] cs else of_chars word :: words_go [] cs
      else words_go (word ++ [c]) cs
  end.
Definition split_whitespace (s : list byte) : list (list byte) := words_go [] (chars s).

(** ** ASCII case *)

Definition lower (b : byte) : byte := if between 65 90 (u8 b) then to_u8 (u8 b + 32) else b.
Definition to_ascii_lowercase (s : list byte) : list byte := lower <$> s.
Definition eq_ignore_ascii_case (s t : list byte) : bool :=
  bool_decide (to_ascii_lowercase s = to_ascii_lowercase t).

Definition starts_with (s p : list byte) : bool := bool_decide (take (length p) s = p).
Definition ends_with (s p : list byte) : bool :=
  (length p <=? length s)%nat && bool_decide (drop (length s - length p) s = p).

(** [s.contains(t)]. *)
Fixpoint contains (s t : list byte) : bool :=
  starts_with s t || match s with [] => false | _ :: s => contains s t end.

(** ** Numbers *)

(** [char::to_digit]. *)
Definition to_digit (radix : Z) (b : byte) : option Z :=
  let d := if between 48 57 (u8 b) then u8 b - 48
           else if between 65 90 (u8 b) then u8 b - 55
           else if between 97 122 (u8 b) then u8 b - 87 else radix in
  if d <? radix then Some d else None.

Fixpoint digits (radix max acc : Z) (s : list byte) : option Z :=
  match s with
  | [] => Some acc
  | b :: s =>
      match to_digit radix b with
      | Some d => if max <? acc * radix + d then None else digits radix max (acc * radix + d) s
      | None => None
      end
  end.

(** [from_str_radix] and [parse] of an unsigned type with the given maximum: a leading [+] is
    allowed, an empty number is not. *)
Definition parse_radix (radix max : Z) (s : list byte) : option Z :=
  let s := match s with b :: s' => if (u8 b =? 43) && negb (is_empty s') then s' else s | [] => s end in
  if is_empty s then None else digits radix max 0 s.

(** [format!("{n}")] and [format!("{n:x}")] of an unsigned number. *)
Definition digit_char (d : Z) : byte := to_u8 (if d <? 10 then 48 + d else 87 + d).
Fixpoint show_go (fuel : nat) (radix n : Z) (acc : list byte) : list byte :=
  match fuel with
  | O => acc
  | S fuel =>
      let acc := digit_char (n mod radix) :: acc in
      if n / radix =? 0 then acc else show_go fuel radix (n / radix) acc
  end.
(** A number below [2^64] has at most 64 digits. *)
Definition show_radix (radix n : Z) : list byte := show_go 64 radix n [].
Definition show (n : Z) : list byte := show_radix 10 n.

(** ** Lemmas *)

Lemma chars_fuel n m l :
  (length l <= n)%nat -> (length l <= m)%nat -> chars_go n l = chars_go m l.
Proof.
  revert m l. induction n as [|n IH]; intros [|m] [|b l] Hn Hm; cbn [length] in *; try done || lia.
  cbn [chars_go]. f_equal. apply IH; rewrite length_drop; lia.
Qed.

Lemma chars_cons b l :
  chars (b :: l) = let n := snd (scan b l) in char_of b (take n l) :: chars (drop n l).
Proof.
  unfold chars. cbn [length chars_go]. f_equal. apply chars_fuel; rewrite ?length_drop; lia.
Qed.

Lemma of_chars_app cs ds : of_chars (cs ++ ds) = of_chars cs ++ of_chars ds.
Proof. unfold of_chars. by rewrite fmap_app, join_app. Qed.

Lemma of_chars_chars s : valid s = true -> of_chars (chars s) = s.
Proof.
  induction s as [[|b l] IH] using length_ind; [done|].
  rewrite valid_cons, chars_cons. destruct (scan b l) as [g n] eqn:Hs.
  intros [-> Hv]%andb_true_iff. cbn [snd]. cbv zeta.
  destruct (char_of_spec _ _ _ Hs) as (Hc & _).
  change (of_chars (?c :: ?cs)) with (utf8_of c ++ of_chars cs). rewrite Hc, IH; [|cbn; rewrite length_drop; lia|done].
  cbn [app]. by rewrite take_drop.
Qed.

Lemma drop_while_suffix {A} (p : A -> bool) l : exists k, l = k ++ drop_while p l.
Proof.
  induction l as [|x l [k IH]]; [by exists []|]. cbn [drop_while].
  destruct (p x); [exists (x :: k); cbn; by rewrite <- IH|by exists []].
Qed.

Lemma trim_chars_infix cs : exists a b, cs = a ++ trim_chars cs ++ b.
Proof.
  destruct (drop_while_suffix is_whitespace cs) as [a Ha].
  destruct (drop_while_suffix is_whitespace (rev (drop_while is_whitespace cs))) as [b Hb].
  exists a, (rev b). unfold trim_chars. rewrite <- rev_app_distr, <- Hb, rev_involutive. done.
Qed.

(** Trimming takes bytes away at both ends. *)
Lemma trim_infix s : valid s = true -> exists a b, s = a ++ trim s ++ b.
Proof.
  intros Hv. destruct (trim_chars_infix (chars s)) as (a & b & Hab).
  exists (of_chars a), (of_chars b). rewrite <- (of_chars_chars s Hv) at 1. rewrite Hab at 1.
  by rewrite !of_chars_app.
Qed.

Lemma trim_elem s b : valid s = true -> b ∈ trim s -> b ∈ s.
Proof.
  intros Hv Hb. destruct (trim_infix s Hv) as (x & y & ->). rewrite !elem_of_app. by auto.
Qed.

(** The last part of a string holds no separator, and is a part of it. *)
Lemma last_part_clean p s : forallb (fun b => negb (p b)) (last_part p s) = true.
Proof.
  induction s as [|b s IH]; [done|]. cbn [last_part].
  destruct (existsb p s) eqn:He; [done|].
  assert (Hs : forallb (fun b => negb (p b)) s = true).
  { clear IH. induction s as [|x s IH]; [done|]. cbn in *. apply orb_false_iff in He as [-> He]. cbn. by apply IH. }
  destruct (p b) eqn:Hb; [done|]. cbn. by rewrite Hb.
Qed.

Lemma last_part_elem p s b : b ∈ last_part p s -> b ∈ s.
Proof.
  induction s as [|x s IH]; [done|]. cbn [last_part].
  destruct (existsb p s); [intros ?%IH; by right|]. destruct (p x); [intros ?; by right|done].
Qed.

(** The bytes after the first of a character are not ASCII. *)
Lemma scan_tail b l n :
  scan b l = (true, n) -> (n <= length l)%nat /\ Forall (fun y => 0x80 <= u8 y) (take n l).
Proof.
  unfold scan, second3, second4, cont, in_range. intros Hs.
  repeat (case_match; try (exfalso; congruence)); injection Hs as <-; cbn [length take];
    (split; [lia|]); repeat constructor; lia.
Qed.

(** A string cut after an ASCII character is a string. *)
Lemma valid_after a x b : u8 x < 0x80 -> valid (a ++ x :: b) = true -> valid b = true.
Proof.
  intros Hx. induction a as [[|c a] IH] using length_ind; cbn [app]; rewrite valid_cons.
  - unfold scan. rewrite (proj2 (Z.ltb_lt _ _)) by done. by rewrite drop_0.
  - destruct (scan c (a ++ x :: b)) as [g n] eqn:Hs. cbn [fst snd].
    intros [-> Hv]%andb_true_iff. apply scan_tail in Hs as [Hn Hc].
    destruct (decide (n <= length a)%nat) as [Hle|Hgt].
    + rewrite drop_app_le in Hv by done. apply (IH (drop n a)); [cbn; rewrite length_drop; lia|done].
    + exfalso. rewrite take_app_ge in Hc by lia. apply Forall_app in Hc as [_ Hc].
      destruct (n - length a)%nat as [|k] eqn:Hk; [lia|]. cbn [take] in Hc.
      apply Forall_cons in Hc as [Hc _]. lia.
Qed.

Lemma last_part_valid p s :
  (forall b, p b = true -> u8 b < 0x80) -> valid s = true -> valid (last_part p s) = true.
Proof.
  intros Hp Hv.
  assert (Hs : last_part p s = s \/ exists a x, p x = true /\ s = a ++ x :: last_part p s).
  { clear Hv. induction s as [|b s IH]; [by left|]. cbn [last_part].
    destruct (existsb p s) eqn:He.
    - right. destruct IH as [IH|(a & x & Hx & IH)].
      + rewrite IH. exfalso. apply existsb_exists in He as (y & Hy & Hpy).
        pose proof (last_part_clean p s) as Hcl. rewrite IH in Hcl. rewrite forallb_forall in Hcl.
        apply Hcl in Hy. by rewrite Hpy in Hy.
      + exists (b :: a), x. split; [done|]. cbn. by rewrite <- IH.
    - destruct (p b) eqn:Hb; [right; by exists [], b|by left]. }
  destruct Hs as [->|(a & x & Hx & Hs)]; [done|]. rewrite Hs in Hv.
  eapply valid_after; [by apply Hp|exact Hv].
Qed.

(** *** Characters of a concatenation *)

Lemma chars_good_app b l n k :
  scan b l = (true, n) -> chars ((b :: take n l) ++ k) = char_of b (take n l) :: chars k.
Proof.
  intros Hs. destruct (scan_good _ _ _ Hs) as [Hn Hsc]. cbn [app].
  rewrite chars_cons, Hsc. cbn [snd]. cbv zeta.
  rewrite take_app_length', drop_app_length' by (rewrite length_take; lia). done.
Qed.

Lemma chars_app a b : valid a = true -> chars (a ++ b) = chars a ++ chars b.
Proof.
  induction a as [[|x a] IH] using length_ind; [done|]. intros Ha.
  rewrite valid_cons in Ha. destruct (scan x a) as [g n] eqn:Hs.
  apply andb_true_iff in Ha as [-> Ha].
  rewrite chars_cons, Hs. cbn [snd]. cbv zeta.
  rewrite <- (take_drop n a) at 1. rewrite app_comm_cons, <- app_assoc.
  rewrite chars_good_app by done. cbn [app]. by rewrite IH by (done || cbn; rewrite length_drop; lia).
Qed.

(** What the characters of a string are. *)
Definition whole (c : Z) : Prop := valid (utf8_of c) = true /\ chars (utf8_of c) = [c].

Lemma chars_whole s : valid s = true -> Forall whole (chars s).
Proof.
  induction s as [[|b l] IH] using length_ind; [constructor|].
  rewrite valid_cons, chars_cons. destruct (scan b l) as [g n] eqn:Hs.
  intros [-> Hv]%andb_true_iff. cbn [snd]. cbv zeta. constructor.
  2:{ apply IH; [cbn; rewrite length_drop; lia|done]. }
  destruct (char_of_spec _ _ _ Hs) as (Hc & _). unfold whole. rewrite Hc. split.
  - pose proof (valid_good_app b l n [] Hs eq_refl) as H. by rewrite app_nil_r in H.
  - pose proof (chars_good_app b l n [] Hs) as H. by rewrite app_nil_r in H.
Qed.

Lemma of_chars_whole cs : Forall whole cs -> valid (of_chars cs) = true /\ chars (of_chars cs) = cs.
Proof.
  induction 1 as [|c cs [Hv Hc] _ [IHv IHc]]; [done|].
  change (of_chars (c :: cs)) with (utf8_of c ++ of_chars cs). split; [by apply valid_app|].
  by rewrite chars_app, Hc, IHc.
Qed.

Lemma trim_spec s : valid s = true -> valid (trim s) = true /\ chars (trim s) = trim_chars (chars s).
Proof.
  intros Hv. apply of_chars_whole. apply chars_whole in Hv.
  destruct (trim_chars_infix (chars s)) as (a & b & Hab). rewrite Hab in Hv.
  apply Forall_app in Hv as [_ Hv]. by apply Forall_app in Hv as [Hv _].
Qed.

Lemma valid_before a x b : u8 x < 0x80 -> valid (a ++ x :: b) = true -> valid a = true.
Proof.
  intros Hx. induction a as [[|c a] IH] using length_ind; [done|]. cbn [app]. rewrite !valid_cons.
  destruct (scan c (a ++ x :: b)) as [g n] eqn:Hs.
  intros [-> Hv]%andb_true_iff. destruct (scan_tail _ _ _ Hs) as [Hn Hc].
  destruct (decide (n <= length a)%nat) as [Hle|Hgt].
  - rewrite drop_app_le in Hv by done. destruct (scan_good _ _ _ Hs) as [_ Hk].
    specialize (Hk (drop n a)). rewrite take_app_le, take_drop in Hk by done. rewrite Hk. cbn [andb].
    apply (IH (drop n a)); [cbn; rewrite length_drop; lia|done].
  - exfalso. rewrite take_app_ge in Hc by lia. apply Forall_app in Hc as [_ Hc].
    destruct (n - length a)%nat as [|k] eqn:Hk; [lia|]. cbn [take] in Hc.
    apply Forall_cons in Hc as [Hc _]. lia.
Qed.

Lemma rsplit_once_Some c s x y : rsplit_once c s = Some (x, y) -> s = x ++ c :: y.
Proof.
  revert x. induction s as [|b s IH]; intros x; [done|]. cbn [rsplit_once].
  destruct (rsplit_once c s) as [[x' y']|].
  - intros [= <- <-]. cbn. f_equal. by apply IH.
  - case_bool_decide; [|done]. intros [= <- <-]. by subst b.
Qed.

(** ASCII text is its own characters. *)
Lemma ascii_chars s : Forall (fun b => u8 b < 0x80) s -> valid s = true /\ chars s = u8 <$> s.
Proof.
  induction 1 as [|b s Hb _ [IHv IHc]]; [done|]. rewrite valid_cons, chars_cons. unfold scan.
  rewrite (proj2 (Z.ltb_lt _ _)) by done. cbn [snd]. cbv zeta. rewrite drop_0, IHv, IHc, take_0. done.
Qed.

(** *** Numbers *)

Lemma digit_char_inv radix d :
  2 <= radix <= 16 -> 0 <= d < radix -> to_digit radix (digit_char d) = Some d.
Proof.
  intros Hr Hd. unfold to_digit, digit_char, between.
  destruct (Z.ltb_spec d 10); rewrite u8_to_u8_small by lia.
  - rewrite (proj2 (Z.leb_le 48 _)), (proj2 (Z.leb_le _ 57)) by lia. cbn [andb].
    replace (48 + d - 48) with d by lia. by rewrite (proj2 (Z.ltb_lt _ _)) by lia.
  - rewrite (proj2 (Z.leb_gt _ 57)), andb_false_r by lia.
    rewrite (proj2 (Z.leb_gt _ 90)), andb_false_r by lia.
    rewrite (proj2 (Z.leb_le 97 _)), (proj2 (Z.leb_le _ 122)) by lia. cbn [andb].
    replace (87 + d - 87) with d by lia. by rewrite (proj2 (Z.ltb_lt _ _)) by lia.
Qed.

(** The digits of a number below [radix ^ k] are at most [k], and read back as the number. *)
Lemma show_go_digits radix k n acc a max :
  2 <= radix <= 16 -> 0 <= n < radix ^ Z.of_nat k -> 0 <= a -> (0 < k)%nat ->
  exists j, 0 <= j /\ (n = 0 \/ 0 < n) /\
    (forall m, a * radix ^ j + n = m -> m <= max ->
       digits radix max a (show_go k radix n acc) = digits radix max m acc).
Proof.
  intros Hr. revert n acc a. induction k as [|k IH]; intros n acc a Hn Ha Hk; [lia|].
  pose proof (Z.mod_pos_bound n radix ltac:(lia)) as Hm.
  pose proof (Z.div_mod n radix ltac:(lia)) as Hdm.
  pose proof (Z.div_pos n radix ltac:(lia) ltac:(lia)) as Hq.
  cbn [show_go]. destruct (Z.eqb_spec (n / radix) 0) as [Hz|Hz].
  - exists 1. split_and!; [lia|lia|]. intros m Hm' Hmax. rewrite Z.pow_1_r in Hm'.
    cbn [digits]. rewrite digit_char_inv by done.
    rewrite (proj2 (Z.ltb_ge _ _)) by nia. f_equal. nia.
  - destruct k as [|k].
    { change (Z.of_nat 1) with 1 in Hn. rewrite Z.pow_1_r in Hn.
      exfalso. apply Hz. by apply Z.div_small. }
    destruct (IH (n / radix) (digit_char (n mod radix) :: acc) a) as (j & Hj & _ & Hdig).
    { split; [done|]. apply Z.div_lt_upper_bound; [lia|].
      rewrite Nat2Z.inj_succ, Z.pow_succ_r in Hn by lia. lia. }
    { done. } { lia. }
    exists (j + 1). split_and!; [lia|lia|]. intros m Hm' Hmax.
    rewrite Z.pow_add_r, Z.pow_1_r in Hm' by lia.
    assert (Hpow : 0 < radix ^ j) by (apply Z.pow_pos_nonneg; lia).
    rewrite (Hdig (a * radix ^ j + n / radix) eq_refl) by nia.
    cbn [digits]. rewrite digit_char_inv by done.
    rewrite (proj2 (Z.ltb_ge _ _)) by nia. f_equal. nia.
Qed.

Lemma show_go_head radix k n acc :
  2 <= radix <= 16 -> (0 < k)%nat ->
  exists d l, 0 <= d < radix /\ show_go k radix n acc = digit_char d :: l.
Proof.
  intros Hr. revert n acc. induction k as [|k IH]; intros n acc Hk; [lia|]. cbn [show_go].
  pose proof (Z.mod_pos_bound n radix ltac:(lia)).
  destruct (n / radix =? 0); [by eexists _, _|]. destruct k as [|k]; [by eexists _, _|].
  apply IH. lia.
Qed.

Lemma digit_char_range radix d :
  2 <= radix <= 16 -> 0 <= d < radix -> u8 (digit_char d) < 0x80 /\ 48 <= u8 (digit_char d) /\
  is_whitespace (u8 (digit_char d)) = false.
Proof.
  intros Hr Hd. unfold digit_char, is_whitespace, between.
  destruct (d <? 10) eqn:He; rewrite u8_to_u8_small by lia; split_and!; lia.
Qed.

(** A number reads back as it was written. *)
Lemma parse_show radix max n :
  2 <= radix <= 16 -> 0 <= n <= max -> n < 2 ^ 64 -> parse_radix radix max (show_radix radix n) = Some n.
Proof.
  intros Hr Hn Hb. unfold show_radix.
  destruct (show_go_head radix 64 n [] Hr ltac:(lia)) as (d & l & Hd & Hs).
  assert (Hp : 2 ^ 64 <= radix ^ Z.of_nat 64) by (apply Z.pow_le_mono_l; lia).
  destruct (show_go_digits radix 64 n [] 0 max Hr ltac:(lia) ltac:(lia) ltac:(lia)) as (j & _ & _ & Hdig).
  unfold parse_radix. rewrite Hs in *.
  destruct (digit_char_range radix d Hr Hd) as (_ & Hlo & _).
  rewrite (proj2 (Z.eqb_neq _ 43)) by lia. cbn [andb is_empty].
  by rewrite (Hdig n) by lia.
Qed.

Lemma show_go_ascii radix k n acc :
  2 <= radix <= 16 -> Forall (fun b => u8 b < 0x80 /\ is_whitespace (u8 b) = false) acc ->
  Forall (fun b => u8 b < 0x80 /\ is_whitespace (u8 b) = false) (show_go k radix n acc).
Proof.
  intros Hr. revert n acc. induction k as [|k IH]; intros n acc Hacc; [done|]. cbn [show_go].
  pose proof (Z.mod_pos_bound n radix ltac:(lia)) as Hm.
  assert (H : Forall (fun b => u8 b < 0x80 /\ is_whitespace (u8 b) = false)
                     (digit_char (n mod radix) :: acc)).
  { constructor; [|done]. by destruct (digit_char_range radix _ Hr Hm) as (? & _ & ?). }
  destruct (n / radix =? 0); [done|by apply IH].
Qed.

(** Text without white space is not trimmed. *)
Lemma drop_while_none {A} (p : A -> bool) l : Forall (fun x => p x = false) l -> drop_while p l = l.
Proof. destruct 1 as [|x l Hx _]; [done|]. cbn. by rewrite Hx. Qed.

Lemma trim_plain s :
  Forall (fun b => u8 b < 0x80 /\ is_whitespace (u8 b) = false) s -> trim s = s.
Proof.
  intros Hs.
  assert (Ha : Forall (fun b => u8 b < 0x80) s) by (eapply Forall_impl; [exact Hs|by intros ? [? _]]).
  destruct (ascii_chars s Ha) as [Hv Hc].
  unfold trim. rewrite <- (of_chars_chars s Hv) at 2. f_equal.
  assert (Hw : Forall (fun c => is_whitespace c = false) (chars s)).
  { rewrite Hc. apply Forall_fmap. eapply Forall_impl; [exact Hs|by intros ? [_ ?]]. }
  unfold trim_chars. rewrite (drop_while_none _ (chars s)) by done.
  rewrite (drop_while_none _ (rev (chars s))) by (by apply Forall_rev). apply rev_involutive.
Qed.

Lemma split_once_app c k v : Forall (fun b => b <> c) k -> split_once c (k ++ c :: v) = Some (k, v).
Proof.
  induction 1 as [|b k Hb _ IH]; cbn [app split_once].
  - by rewrite bool_decide_true.
  - by rewrite bool_decide_false, IH.
Qed.
