(* ===== verification/Protobuf.v ===== *)
(** * The protobuf wire codec ([protocol/src/protobuf.rs])

    [Writer] appends varint and length-delimited fields to a buffer; [Reader] walks a buffer
    field by field, skipping the fixed-width wire types; [first_bytes] and [first_varint] scan
    a message for the last occurrence of a field.  The parsers of every other component are
    loops over [Reader.next_field]; they are all instances of [for_each_field].

    The second half relates the cursor-based reader to a reference grammar on byte lists
    ([fields_of]) and shows that the grammar inverts the writer ([fields_of_encode]). *)

From S2P Require Import Prelude.

Definition WIRE_VARINT : Z := 0.
Definition WIRE_I64 : Z := 1.
Definition WIRE_BYTES : Z := 2.
Definition WIRE_I32 : Z := 5.

Inductive Error : Type :=
| Truncated
| VarintTooLong
| UnsupportedWireType (w : Z).

#[export] Instance Error_eq_dec : EqDecision Error.
Proof. solve_decision. Defined.

(** ** Writing *)

Module Writer.

Record t : Type := mk { buf : list byte }.

Definition new : t := mk [].

(** [while v >= 0x80 { push(v & 0x7f | 0x80); v >>= 7 } push(v)]; ten rounds empty a [u64]. *)
Fixpoint put_varint_loop (fuel : nat) (buf : list byte) (v : Z) : list byte :=
  match fuel with
  | O => buf
  | S fuel =>
      if 128 <=? v
      then put_varint_loop fuel
             (buf ++ [to_u8 (Z.lor (Z.land (u8 (to_u8 v)) 127) 128)]) (Z.shiftr v 7)
      else buf ++ [to_u8 v]
  end.

Definition put_varint (v : Z) (w : t) : t := mk (put_varint_loop 10 (buf w) v).

Definition put_tag (field wire : Z) (w : t) : t :=
  put_varint (Z.lor (Z.shiftl field 3) wire) w.

Definition varint (field v : Z) (w : t) : t :=
  w |> put_tag field WIRE_VARINT |> put_varint v.

Definition bytes (field : Z) (v : list byte) (w : t) : t :=
  let w := w |> put_tag field WIRE_BYTES |> put_varint (len v) in
  mk (buf w ++ v).

Definition finish (w : t) : list byte := buf w.

End Writer.

(** ** Reading *)

Inductive Field : Type :=
| Varint (n v : Z)
| Bytes (n : Z) (b : list byte).

Module Reader.

Record t : Type := mk { buf : list byte; pos : Z }.

Definition new (b : list byte) : t := mk b 0.

(** The [loop] of [Reader::varint]; the eleventh round at the latest returns. *)
Fixpoint varint_loop (fuel : nat) (r : t) (out shift : Z) : result Z Error * t :=
  match fuel with
  | O => (Err VarintTooLong, r)
  | S fuel =>
      match get (buf r) (pos r) with
      | None => (Err Truncated, r)
      | Some b =>
          if 63 <? shift then (Err VarintTooLong, r)
          else
            let r := mk (buf r) (pos r + 1) in
            let out := Z.lor out (as_u64 (Z.shiftl (Z.land (u8 b) 127) shift)) in
            if Z.land (u8 b) 128 =? 0 then (Ok out, r)
            else varint_loop fuel r out (shift + 7)
      end
  end.

Definition varint (r : t) : result Z Error * t := varint_loop 11 r 0 0.

Definition take (n : Z) (r : t) : result (list byte) Error * t :=
  match checked_add (pos r) n with
  | None => (Err Truncated, r)
  | Some stop =>
      if len (buf r) <? stop then (Err Truncated, r)
      else (Ok (sub_range (buf r) (pos r) stop), mk (buf r) stop)
  end.

(** [usize::try_from(u64)]: always succeeds on a 64-bit target. *)
Definition usize_try_from (v : Z) : option Z := if v <=? usize_max then Some v else None.

(** The recursion of [next_field] skips one fixed-width field per call. *)
Fixpoint next_field_loop (fuel : nat) (r : t) : option (result Field Error) * t :=
  match fuel with
  | O => (None, r)
  | S fuel =>
      if len (buf r) <=? pos r then (None, r)
      else
        match varint r with
        | (Err e, r) => (Some (Err e), r)
        | (Ok tag, r) =>
            let field := as_u32 (Z.shiftr tag 3) in
            let wire := as_u32 (Z.land tag 7) in
            if wire =? WIRE_VARINT then
              let (v, r) := varint r in (Some (map_ok (Varint field) v), r)
            else if wire =? WIRE_BYTES then
              match varint r with
              | (Err e, r) => (Some (Err e), r)
              | (Ok l, r) =>
                  match usize_try_from l with
                  | None => (Some (Err Truncated), r)
                  | Some l => let (b, r) := take l r in (Some (map_ok (Bytes field) b), r)
                  end
              end
            else if wire =? WIRE_I64 then
              match take 8 r with
              | (Ok _, r) => next_field_loop fuel r
              | (Err e, r) => (Some (Err e), r)
              end
            else if wire =? WIRE_I32 then
              match take 4 r with
              | (Ok _, r) => next_field_loop fuel r
              | (Err e, r) => (Some (Err e), r)
              end
            else (Some (Err (UnsupportedWireType wire)), r)
        end
  end.

Definition next_field (r : t) : option (result Field Error) * t :=
  next_field_loop (S (length (buf r))) r.

End Reader.

(** [while let Some(f) = r.next_field() { match f? { ... } }]: the loop every parser runs.
    Each round consumes at least one byte, so the length of the buffer bounds it. *)
Fixpoint fields_loop {S E : Type} `{From Error E}
    (fuel : nat) (step : S -> Field -> result S E) (r : Reader.t) (s : S) : result S E :=
  match fuel with
  | O => Ok s
  | Datatypes.S fuel =>
      match Reader.next_field r with
      | (None, _) => Ok s
      | (Some f, r) =>
          let? f := f in
          let? s := step s f in
          fields_loop fuel step r s
      end
  end.

Definition for_each_field {S E : Type} `{From Error E}
    (b : list byte) (step : S -> Field -> result S E) (s : S) : result S E :=
  fields_loop (Datatypes.S (length b)) step (Reader.new b) s.

(** Later occurrences win. *)
Definition first_bytes (b : list byte) (field : Z) : result (option (list byte)) Error :=
  for_each_field b
    (fun found f => Ok match f with
                       | Bytes n v => if n =? field then Some v else found
                       | Varint _ _ => found
                       end) None.

Definition first_varint (b : list byte) (field : Z) : result (option Z) Error :=
  for_each_field b
    (fun found f => Ok match f with
                       | Varint n v => if n =? field then Some v else found
                       | Bytes _ _ => found
                       end) None.

(** ** The reference grammar

    The same format, read off the front of a byte list. *)

Fixpoint varint_of (l : list byte) (out shift : Z) : result (Z * list byte) Error :=
  match l with
  | [] => Err Truncated
  | b :: l =>
      if 63 <? shift then Err VarintTooLong
      else
        let out := Z.lor out (as_u64 (Z.shiftl (Z.land (u8 b) 127) shift)) in
        if Z.land (u8 b) 128 =? 0 then Ok (out, l) else varint_of l out (shift + 7)
  end.

Definition take_of (n : Z) (l : list byte) : result (list byte * list byte) Error :=
  if len l <? n then Err Truncated else Ok (take (Z.to_nat n) l, drop (Z.to_nat n) l).

(** One tagged value; [None] is a fixed-width field, which is skipped. *)
Definition item_of (l : list byte) : result (option Field * list byte) Error :=
  let? (tag, l) := varint_of l 0 0 in
  let field := as_u32 (Z.shiftr tag 3) in
  let wire := as_u32 (Z.land tag 7) in
  if wire =? WIRE_VARINT then
    let? (v, l) := varint_of l 0 0 in Ok (Some (Varint field v), l)
  else if wire =? WIRE_BYTES then
    let? (n, l) := varint_of l 0 0 in
    let? (b, l) := take_of n l in Ok (Some (Bytes field b), l)
  else if wire =? WIRE_I64 then
    let? (_, l) := take_of 8 l in Ok (None, l)
  else if wire =? WIRE_I32 then
    let? (_, l) := take_of 4 l in Ok (None, l)
  else Err (UnsupportedWireType wire).

(** Every field of a message, and the error that ends it if there is one. *)
Fixpoint fields_go (fuel : nat) (l : list byte) : list Field * option Error :=
  match fuel, l with
  | _, [] => ([], None)
  | O, _ => ([], None)
  | S fuel, _ =>
      match item_of l with
      | Err e => ([], Some e)
      | Ok (None, l) => fields_go fuel l
      | Ok (Some f, l) => let (fs, e) := fields_go fuel l in (f :: fs, e)
      end
  end.

Definition fields_of (l : list byte) : list Field * option Error := fields_go (length l) l.

(** Running a parser's loop body over a list of fields. *)
Fixpoint fold_fields {S E : Type} `{From Error E}
    (step : S -> Field -> result S E) (fs : list Field) (s : S) : result S E :=
  match fs with
  | [] => Ok s
  | f :: fs => let? s := step s f in fold_fields step fs s
  end.

Definition run_fields {S E : Type} `{From Error E}
    (step : S -> Field -> result S E) (m : list Field * option Error) (s : S) : result S E :=
  let? s := fold_fields step (fst m) s in
  match snd m with None => Ok s | Some e => Err (from e) end.

(** *** Consumption *)

Lemma varint_of_length l out shift v rest :
  varint_of l out shift = Ok (v, rest) -> (length rest < length l)%nat.
Proof.
  revert out shift. induction l as [|b l IH]; intros out shift; cbn [varint_of]; [done|].
  destruct (63 <? shift); [done|]. destruct (_ =? 0).
  - intros [= <- <-]. cbn. lia.
  - intros Hl%IH. cbn. lia.
Qed.

Lemma take_of_length n l b rest :
  take_of n l = Ok (b, rest) -> (length rest <= length l)%nat.
Proof.
  unfold take_of. destruct (len l <? n); [done|]. intros [= <- <-].
  rewrite length_drop. lia.
Qed.

Lemma item_of_length l o rest :
  item_of l = Ok (o, rest) -> (length rest < length l)%nat.
Proof.
  unfold item_of. intros H. inv_ok; subst;
    repeat match goal with
    | H : varint_of _ _ _ = Ok _ |- _ => apply varint_of_length in H
    | H : take_of _ _ = Ok _ |- _ => apply take_of_length in H
    end; lia.
Qed.

Lemma fields_go_fuel n m l :
  (length l <= n)%nat -> (length l <= m)%nat -> fields_go n l = fields_go m l.
Proof.
  revert m l. induction n as [|n IH]; intros m [|b l] Hn Hm; cbn [length] in *;
    try (destruct m; done || lia).
  destruct m as [|m]; [lia|]. cbn [fields_go].
  destruct (item_of (b :: l)) as [[[f|] rest]|e] eqn:Hi; [| |done];
    apply item_of_length in Hi; cbn [length] in Hi; rewrite (IH m rest) by lia; done.
Qed.

Lemma fields_of_nil : fields_of [] = ([], None).
Proof. done. Qed.

(** The grammar, one field at a time. *)
Lemma fields_of_unfold l :
  l <> [] ->
  fields_of l =
  match item_of l with
  | Err e => ([], Some e)
  | Ok (None, l) => fields_of l
  | Ok (Some f, l) => let (fs, e) := fields_of l in (f :: fs, e)
  end.
Proof.
  destruct l as [|b l]; [done|]. intros _. unfold fields_of at 1. cbn [length fields_go].
  destruct (item_of (b :: l)) as [[[f|] rest]|e] eqn:Hi; [| |done];
    apply item_of_length in Hi; cbn [length] in Hi;
    rewrite (fields_go_fuel _ (length rest)) by lia; done.
Qed.

(** *** The cursor reads the grammar *)

(** [r] is a cursor over [b] with [l] still to read. *)
Definition at_rest (b : list byte) (r : Reader.t) (l : list byte) : Prop :=
  Reader.buf r = b /\ exists pre, b = pre ++ l /\ Reader.pos r = len pre.

Definition agrees {A : Type} (b : list byte) (x : result A Error * Reader.t)
    (y : result (A * list byte) Error) : Prop :=
  match y with
  | Ok (v, rest) => fst x = Ok v /\ at_rest b (snd x) rest
  | Err e => fst x = Err e
  end.

Lemma at_rest_new b : at_rest b (Reader.new b) b.
Proof. split; [done|]. exists []. done. Qed.

Lemma at_rest_step b x l r :
  at_rest b r (x :: l) -> at_rest b (Reader.mk (Reader.buf r) (Reader.pos r + 1)) l.
Proof.
  intros [-> (pre & -> & ->)]. split; [done|]. exists (pre ++ [x]).
  split; [by rewrite <- app_assoc|]. cbn. by simpl_len.
Qed.

Lemma varint_loop_agrees b fuel r l out shift :
  at_rest b r l -> 63 < shift + 7 * (Z.of_nat fuel - 1) -> (0 < fuel)%nat ->
  agrees b (Reader.varint_loop fuel r out shift) (varint_of l out shift).
Proof.
  revert r l out shift. induction fuel as [|fuel IH]; intros r l out shift Hr Hs Hf; [lia|].
  cbn [Reader.varint_loop].
  assert (Hg : get (Reader.buf r) (Reader.pos r) = head l).
  { destruct Hr as [-> (pre & -> & ->)]. by apply get_app_pos. }
  rewrite Hg. destruct l as [|x l]; cbn [head varint_of]; [done|].
  destruct (Z.ltb_spec 63 shift); [done|].
  apply at_rest_step in Hr. destruct (_ =? 0); [done|]. apply IH; [done|lia|lia].
Qed.

Lemma varint_agrees b r l :
  at_rest b r l -> agrees b (Reader.varint r) (varint_of l 0 0).
Proof. intros H. apply varint_loop_agrees; [done|lia|lia]. Qed.

Lemma take_agrees b r l n :
  fits b -> at_rest b r l -> 0 <= n -> agrees b (Reader.take n r) (take_of n l).
Proof.
  intros Hb [Hr (pre & -> & Hp)] Hn. unfold Reader.take, take_of, checked_add. rewrite Hr, Hp.
  unfold fits in Hb. simpl_len in Hb. pose proof (len_nonneg pre). pose proof (len_nonneg l).
  destruct (Z.leb_spec (len pre + n) usize_max) as [Hle|Hgt]; simpl_len.
  2:{ unfold_ints. rewrite (proj2 (Z.ltb_lt _ _)) by lia. done. }
  destruct (Z.ltb_spec (len l) n).
  - rewrite (proj2 (Z.ltb_lt _ _)) by lia. done.
  - rewrite (proj2 (Z.ltb_ge _ _)) by lia. split; cbn.
    + unfold sub_range. replace (len pre + n - len pre) with n by lia.
      rewrite len_nat, Nat2Z.id, drop_app_length. done.
    + split; [done|]. exists (pre ++ take (Z.to_nat n) l).
      rewrite <- app_assoc, take_drop. split; [done|]. cbn. rewrite len_app, len_take. lia.
Qed.

Lemma varint_of_range l out shift v rest :
  varint_of l out shift = Ok (v, rest) -> is_u64 out -> is_u64 v.
Proof.
  revert out shift. induction l as [|b l IH]; intros out shift; cbn [varint_of]; [done|].
  destruct (63 <? shift); [done|]. intros H Hout.
  assert (Ho : is_u64 (Z.lor out (as_u64 (Z.shiftl (Z.land (u8 b) 127) shift)))).
  { apply lor_range; [lia|done|apply as_u64_range]. }
  destruct (_ =? 0); [by injection H as <- <-|eauto].
Qed.

Lemma usize_try_from_u64 v : is_u64 v -> Reader.usize_try_from v = Some v.
Proof.
  intros Hv. unfold Reader.usize_try_from. unfold_ints.
  by rewrite (proj2 (Z.leb_le _ _)) by lia.
Qed.

(** One tagged value of the cursor-based reader; [None] when it was a skipped field. *)
Lemma item_agrees b r l fuel :
  fits b -> at_rest b r l -> l <> [] ->
  match item_of l with
  | Err e => fst (Reader.next_field_loop (S fuel) r) = Some (Err e)
  | Ok (Some f, rest) => exists r',
      Reader.next_field_loop (S fuel) r = (Some (Ok f), r') /\ at_rest b r' rest
  | Ok (None, rest) => exists r',
      Reader.next_field_loop (S fuel) r = Reader.next_field_loop fuel r' /\ at_rest b r' rest
  end.
Proof.
  intros Hb Hr Hl. cbn [Reader.next_field_loop].
  assert (Hlen : (len (Reader.buf r) <=? Reader.pos r) = false).
  { destruct Hr as [-> (pre & -> & ->)]. destruct l as [|x l]; [done|].
    apply Z.leb_gt. simpl_len. pose proof (len_nonneg l). lia. }
  rewrite Hlen. unfold item_of.
  pose proof (varint_agrees _ _ _ Hr) as H1. unfold agrees in H1.
  destruct (varint_of l 0 0) as [[tag l1]|e] eqn:Ht; destruct (Reader.varint r) as [v r1];
    cbn [try_bind fst snd] in *; [destruct H1 as [-> Hr1]|by subst v].
  destruct (_ =? WIRE_VARINT); [|destruct (_ =? WIRE_BYTES)].
  - pose proof (varint_agrees _ _ _ Hr1) as H2. unfold agrees in H2.
    destruct (varint_of l1 0 0) as [[v2 l2]|e] eqn:Hv; destruct (Reader.varint r1) as [v' r2];
      cbn [try_bind fst snd] in *; [destruct H2 as [-> Hr2]; eauto|by subst v'].
  - pose proof (varint_agrees _ _ _ Hr1) as H2. unfold agrees in H2.
    destruct (varint_of l1 0 0) as [[n l2]|e] eqn:Hv; destruct (Reader.varint r1) as [v' r2];
      cbn [try_bind fst snd] in *; [destruct H2 as [-> Hr2]|by subst v'].
    assert (Hn : is_u64 n) by (eapply varint_of_range; [done|unfold_ints; lia]).
    rewrite usize_try_from_u64 by done.
    pose proof (take_agrees _ _ _ n Hb Hr2 ltac:(unfold_ints; lia)) as H3. unfold agrees in H3.
    destruct (take_of n l2) as [[p l3]|e]; destruct (Reader.take n r2) as [v'' r3];
      cbn [try_bind fst snd] in *; [destruct H3 as [-> Hr3]; eauto|by subst v''].
  - destruct (_ =? WIRE_I64); [|destruct (_ =? WIRE_I32); [|done]].
    + pose proof (take_agrees _ _ _ 8 Hb Hr1 ltac:(lia)) as H3. unfold agrees in H3.
      destruct (take_of 8 l1) as [[p l3]|e]; destruct (Reader.take 8 r1) as [v'' r3];
        cbn [try_bind fst snd] in *; [destruct H3 as [-> Hr3]; eauto|by subst v''].
    + pose proof (take_agrees _ _ _ 4 Hb Hr1 ltac:(lia)) as H3. unfold agrees in H3.
      destruct (take_of 4 l1) as [[p l3]|e]; destruct (Reader.take 4 r1) as [v'' r3];
        cbn [try_bind fst snd] in *; [destruct H3 as [-> Hr3]; eauto|by subst v''].
Qed.

(** One call of [next_field], skipped fields included, is one or more grammar steps. *)
Lemma next_field_agrees b fuel r l :
  fits b -> at_rest b r l -> (length l < fuel)%nat ->
  match fields_of l with
  | ([], None) => fst (Reader.next_field_loop fuel r) = None
  | ([], Some e) => fst (Reader.next_field_loop fuel r) = Some (Err e)
  | (f :: fs, e) => exists r' rest,
      Reader.next_field_loop fuel r = (Some (Ok f), r') /\ at_rest b r' rest /\
      (length rest < length l)%nat /\ fields_of rest = (fs, e)
  end.
Proof.
  intros Hb. revert r l. induction fuel as [|fuel IH]; intros r l Hr Hl; [lia|].
  destruct (decide (l = [])) as [->|Hne].
  { rewrite fields_of_nil. cbn [Reader.next_field_loop].
    destruct Hr as [-> (pre & -> & ->)]. by rewrite app_nil_r, Z.leb_refl. }
  pose proof (item_agrees b r l fuel Hb Hr Hne) as Hi.
  rewrite (fields_of_unfold l Hne).
  destruct (item_of l) as [[[f|] rest]|e] eqn:Ht; [| |done].
  - destruct Hi as (r' & Hn & Hr'). apply item_of_length in Ht.
    destruct (fields_of rest) as [fs e] eqn:Hf. eauto 10.
  - destruct Hi as (r' & Hn & Hr'). rewrite Hn. apply item_of_length in Ht.
    specialize (IH r' rest Hr' ltac:(lia)).
    destruct (fields_of rest) as [[|f fs] e]; [done|].
    destruct IH as (r2 & rest2 & ? & ? & ? & ?). exists r2, rest2. auto with lia.
Qed.

Lemma run_fields_cons {S E} `{From Error E} (step : S -> Field -> result S E) f fs e s :
  run_fields step (f :: fs, e) s = let? s := step s f in run_fields step (fs, e) s.
Proof. unfold run_fields. cbn. by destruct (step s f). Qed.

Lemma fields_loop_agrees {S E} `{From Error E} b fuel (step : S -> Field -> result S E) r l s :
  fits b -> at_rest b r l -> (length l < fuel)%nat ->
  fields_loop fuel step r s = run_fields step (fields_of l) s.
Proof.
  intros Hb. revert r l s. induction fuel as [|fuel IH]; intros r l s Hr Hl; [lia|].
  cbn [fields_loop].
  assert (Hlen : (length l <= length (Reader.buf r))%nat).
  { destruct Hr as [-> (pre & -> & _)]. rewrite length_app. lia. }
  pose proof (next_field_agrees b (Datatypes.S (length (Reader.buf r))) r l Hb Hr
                ltac:(lia)) as Hn.
  unfold Reader.next_field.
  destruct (fields_of l) as [[|f fs] e].
  - destruct e; destruct (Reader.next_field_loop _ r) as [o r']; cbn in Hn; by subst o.
  - destruct Hn as (r' & rest & -> & Hr' & Hlt & Hf). rewrite run_fields_cons. cbn.
    destruct (step s f) as [s'|e']; [|done]. cbn.
    rewrite (IH r' rest s' Hr' ltac:(lia)), Hf. done.
Qed.

(** *** Encoding *)

Definition encode_varint (v : Z) : list byte := Writer.put_varint_loop 10 [] v.

Definition encode_field (f : Field) : list byte :=
  match f with
  | Varint n v => encode_varint (Z.lor (Z.shiftl n 3) WIRE_VARINT) ++ encode_varint v
  | Bytes n b =>
      encode_varint (Z.lor (Z.shiftl n 3) WIRE_BYTES) ++ encode_varint (len b) ++ b
  end.

Definition encode (fs : list Field) : list byte := mjoin (encode_field <$> fs).

(** Values a [u32] field number and a [u64] or a [Vec] can hold. *)
Definition wf_field (f : Field) : Prop :=
  match f with
  | Varint n v => is_u32 n /\ is_u64 v
  | Bytes n b => is_u32 n /\ fits b
  end.

Lemma put_varint_loop_app fuel b v :
  Writer.put_varint_loop fuel b v = b ++ Writer.put_varint_loop fuel [] v.
Proof.
  revert b v. induction fuel as [|fuel IH]; intros b v; cbn [Writer.put_varint_loop].
  - by rewrite app_nil_r.
  - destruct (128 <=? v); [|done]. rewrite IH, (IH ([] ++ _)). by rewrite app_assoc.
Qed.

Lemma varint_byte_low v : Z.land (u8 (to_u8 (Z.lor (Z.land (u8 (to_u8 v)) 127) 128))) 127 = v mod 128
  /\ Z.land (u8 (to_u8 (Z.lor (Z.land (u8 (to_u8 v)) 127) 128))) 128 <> 0.
Proof.
  assert (H : Z.lor (Z.land (u8 (to_u8 v)) 127) 128 = v mod 128 + 128).
  { rewrite land_127, u8_to_u8. change 128 with (Z.shiftl 1 7) at 2.
    rewrite lor_disjoint; [|lia|apply Z.mod_pos_bound; lia].
    change 256 with (128 * 2). rewrite Z.rem_mul_r by lia.
    rewrite Z.mul_comm, Z.mod_add, Z.mod_mod by lia. done. }
  pose proof (Z.mod_pos_bound v 128 ltac:(lia)).
  rewrite H. split.
  - rewrite land_127, u8_to_u8_small by lia.
    replace (v mod 128 + 128) with (v mod 128 + 1 * 128) by lia.
    by rewrite Z.mod_add, Z.mod_mod by lia.
  - apply Z.eqb_neq. rewrite land_128_byte, u8_to_u8_small by lia.
    apply Z.ltb_ge. lia.
Qed.

Lemma varint_of_put fuel v rest out shift :
  0 <= v < 128 ^ Z.of_nat fuel -> (0 < fuel)%nat ->
  0 <= shift <= 63 -> v * 2 ^ shift < 2 ^ 64 -> 0 <= out < 2 ^ shift ->
  varint_of (Writer.put_varint_loop fuel [] v ++ rest) out shift
  = Ok (out + v * 2 ^ shift, rest).
Proof.
  revert v out shift. induction fuel as [|fuel IH]; intros v out shift Hv Hf Hs Hm Ho; [lia|].
  assert (Hpow : 2 ^ (shift + 7) = 2 ^ shift * 128) by (rewrite Z.pow_add_r by lia; done).
  assert (Hpos : 0 < 2 ^ shift) by (apply Z.pow_pos_nonneg; lia).
  cbn [Writer.put_varint_loop]. destruct (Z.leb_spec 128 v) as [Hge|Hlt].
  - rewrite put_varint_loop_app, <- app_assoc. cbn [app varint_of].
    destruct (varint_byte_low v) as [Hl Hh]. rewrite Hl.
    rewrite (proj2 (Z.eqb_neq _ _) Hh).
    rewrite (proj2 (Z.ltb_ge _ _)) by lia.
    pose proof (Z.mod_pos_bound v 128 ltac:(lia)).
    pose proof (Z.div_mod v 128 ltac:(lia)) as Hdm.
    rewrite as_u64_small.
    2:{ unfold_ints. rewrite Z.shiftl_mul_pow2 by lia. nia. }
    rewrite lor_disjoint by lia. rewrite shiftr_7.
    assert (Hs57 : shift < 57).
    { apply Z.nle_gt. intros Hle.
      assert (2 ^ 57 <= 2 ^ shift) by (apply Z.pow_le_mono_r; lia). nia. }
    rewrite IH.
    + f_equal. f_equal. rewrite Hpow. nia.
    + rewrite Nat2Z.inj_succ, Z.pow_succ_r in Hv by lia.
      split; [apply Z.div_pos; lia|apply Z.div_lt_upper_bound; lia].
    + destruct fuel; [cbn in Hv; lia|lia].
    + lia.
    + rewrite Hpow. nia.
    + rewrite Hpow. nia.
  - cbn [app varint_of]. rewrite land_128_byte, u8_to_u8_small by lia.
    rewrite land_127, Z.mod_small by lia.
    rewrite (proj2 (Z.ltb_ge _ _)), (proj2 (Z.ltb_lt _ _)) by lia.
    rewrite as_u64_small.
    2:{ unfold_ints. rewrite Z.shiftl_mul_pow2 by lia. nia. }
    by rewrite lor_disjoint by lia.
Qed.

Lemma varint_of_encode v rest :
  is_u64 v -> varint_of (encode_varint v ++ rest) 0 0 = Ok (v, rest).
Proof.
  intros Hv. unfold encode_varint. unfold_ints. rewrite varint_of_put.
  - by rewrite Z.mul_1_r.
  - split; [lia|]. change (128 ^ Z.of_nat 10) with (2 ^ 70). lia.
  - lia.
  - lia.
  - lia.
  - lia.
Qed.

(** *** The grammar inverts the writer *)

Lemma tag_of_encode n w :
  is_u32 n -> 0 <= w < 8 ->
  is_u64 (Z.lor (Z.shiftl n 3) w) /\
  as_u32 (Z.shiftr (Z.lor (Z.shiftl n 3) w) 3) = n /\
  as_u32 (Z.land (Z.lor (Z.shiftl n 3) w) 7) = w.
Proof.
  intros Hn Hw. rewrite Z.lor_comm, lor_disjoint by (done || lia). change (2 ^ 3) with 8.
  rewrite Z.shiftr_div_pow2, Z.div_add by lia. change (2 ^ 3) with 8.
  rewrite Z.div_small by lia. change 7 with (Z.ones 3). rewrite Z.land_ones by lia.
  change (2 ^ 3) with 8. rewrite Z.mod_add, Z.mod_small by lia.
  unfold_ints. repeat split; try lia; apply Z.mod_small; lia.
Qed.

Lemma item_of_encode f rest :
  wf_field f -> item_of (encode_field f ++ rest) = Ok (Some f, rest).
Proof.
  unfold item_of. destruct f as [n v|n b]; intros [Hn Hv]; cbn [encode_field].
  - destruct (tag_of_encode n WIRE_VARINT Hn ltac:(done)) as (Ht & Hs & Hw).
    rewrite <- app_assoc, varint_of_encode by done. cbn [try_bind]. rewrite Hs, Hw.
    change (WIRE_VARINT =? WIRE_VARINT) with true. cbv iota. cbn [try_bind].
    by rewrite varint_of_encode.
  - destruct (tag_of_encode n WIRE_BYTES Hn ltac:(done)) as (Ht & Hs & Hw).
    rewrite <- !app_assoc, varint_of_encode by done. cbn [try_bind]. rewrite Hs, Hw.
    change (WIRE_BYTES =? WIRE_VARINT) with false.
    change (WIRE_BYTES =? WIRE_BYTES) with true. cbv iota.
    rewrite varint_of_encode by auto with rust. cbn [try_bind].
    unfold take_of. simpl_len. pose proof (len_nonneg rest).
    rewrite (proj2 (Z.ltb_ge _ _)) by lia. rewrite len_nat, Nat2Z.id.
    by rewrite take_app_length, drop_app_length.
Qed.

Lemma encode_field_nonnil f : encode_field f <> [].
Proof.
  assert (Hv : forall v, encode_varint v <> []).
  { intros v. unfold encode_varint.
    change (Writer.put_varint_loop 10 [] v) with
      (if 128 <=? v
       then Writer.put_varint_loop 9
              ([] ++ [to_u8 (Z.lor (Z.land (u8 (to_u8 v)) 127) 128)]) (Z.shiftr v 7)
       else [] ++ [to_u8 v]).
    destruct (128 <=? v); [by rewrite put_varint_loop_app|done]. }
  destruct f; cbn [encode_field]; intros [Hn _]%app_nil; by apply Hv in Hn.
Qed.

Lemma encode_cons f fs : encode (f :: fs) = encode_field f ++ encode fs.
Proof. done. Qed.

Lemma encode_app fs gs : encode (fs ++ gs) = encode fs ++ encode gs.
Proof. unfold encode. by rewrite fmap_app, join_app. Qed.

(** Decoding what was encoded, whatever follows it. *)
Lemma fields_of_encode_app fs rest :
  Forall wf_field fs ->
  fields_of (encode fs ++ rest) = (fs ++ fst (fields_of rest), snd (fields_of rest)).
Proof.
  induction 1 as [|f fs Hf _ IH].
  { change (encode [] ++ rest) with rest. by destruct (fields_of rest). }
  rewrite encode_cons, <- app_assoc, fields_of_unfold.
  2:{ intros [Hn _]%app_nil. by apply encode_field_nonnil in Hn. }
  by rewrite item_of_encode, IH.
Qed.

Lemma fields_of_encode fs : Forall wf_field fs -> fields_of (encode fs) = (fs, None).
Proof.
  intros H. rewrite <- (app_nil_r (encode fs)), fields_of_encode_app by done.
  by rewrite fields_of_nil, app_nil_r.
Qed.

Lemma for_each_field_grammar {S E} `{From Error E} b (step : S -> Field -> result S E) s :
  fits b -> for_each_field b step s = run_fields step (fields_of b) s.
Proof.
  intros Hb. apply (fields_loop_agrees b); [done|apply at_rest_new|lia].
Qed.

Lemma for_each_field_of_encode {S E} `{From Error E} fs (step : S -> Field -> result S E) s :
  Forall wf_field fs -> fits (encode fs) ->
  for_each_field (encode fs) step s = fold_fields step fs s.
Proof.
  intros Hfs Hb. rewrite for_each_field_grammar, fields_of_encode by done.
  unfold run_fields. cbn. by destruct (fold_fields step fs s).
Qed.

(** *** Builders

    A chain of [Writer] calls writes [encode] of the fields it names; the [writer] rewrite
    database turns a builder into that list. *)

Definition written (fs : list Field) : Writer.t := Writer.mk (encode fs).

Lemma written_new : Writer.new = written [].
Proof. done. Qed.

Lemma put_varint_buf v b : Writer.put_varint v (Writer.mk b) = Writer.mk (b ++ encode_varint v).
Proof. unfold Writer.put_varint, encode_varint. by rewrite put_varint_loop_app. Qed.

Lemma encode_varint_len v : len (encode_varint v) <= 10.
Proof.
  assert (H : forall n v, len (Writer.put_varint_loop n [] v) <= Z.of_nat n).
  { clear v. induction n as [|n IH]; intros v; [done|]. cbn [Writer.put_varint_loop].
    destruct (128 <=? v).
    - rewrite put_varint_loop_app. simpl_len. specialize (IH (Z.shiftr v 7)). lia.
    - cbn. simpl_len. lia. }
  apply (H 10%nat).
Qed.

#[global] Opaque encode_varint.

(** A field costs at most twenty bytes on top of its payload. *)
Lemma encode_field_len f :
  len (encode_field f) <= 20 + match f with Bytes _ b => len b | Varint _ _ => 0 end.
Proof.
  destruct f as [n v|n b]; cbn [encode_field]; simpl_len;
    [pose proof (encode_varint_len v)|pose proof (encode_varint_len (len b))];
    match goal with |- context [encode_varint (Z.lor ?a ?w)] =>
      pose proof (encode_varint_len (Z.lor a w)) end; lia.
Qed.

Fixpoint fields_cost (fs : list Field) : Z :=
  match fs with
  | [] => 0
  | f :: fs => 20 + match f with Bytes _ b => len b | Varint _ _ => 0 end + fields_cost fs
  end.

Lemma encode_len fs : len (encode fs) <= fields_cost fs.
Proof.
  induction fs as [|f fs IH]; [done|]. rewrite encode_cons, len_app. cbn [fields_cost].
  pose proof (encode_field_len f). lia.
Qed.

Lemma written_varint n v fs : Writer.varint n v (written fs) = written (fs ++ [Varint n v]).
Proof.
  unfold Writer.varint, Writer.put_tag, written. rewrite !put_varint_buf, encode_app.
  cbn [encode fmap list_fmap mjoin list_join encode_field]. by rewrite app_nil_r, app_assoc.
Qed.

Lemma written_bytes n b fs : Writer.bytes n b (written fs) = written (fs ++ [Bytes n b]).
Proof.
  unfold Writer.bytes, Writer.put_tag, written. rewrite !put_varint_buf, encode_app.
  cbn [Writer.buf encode fmap list_fmap mjoin list_join encode_field].
  by rewrite app_nil_r, !app_assoc.
Qed.

Lemma written_finish fs : Writer.finish (written fs) = encode fs.
Proof. done. Qed.

Lemma written_if (c : bool) fs gs :
  (if c then written fs else written gs) = written (if c then fs else gs).
Proof. by destruct c. Qed.

Lemma written_opt {A} (o : option A) (f : A -> list Field) gs :
  match o with Some a => written (f a) | None => written gs end
  = written (match o with Some a => f a | None => gs end).
Proof. by destruct o. Qed.

(** [for x in xs { w.f(x); }] where each round appends fields. *)
Lemma written_for {A} (g : A -> list Field) (step : Writer.t -> A -> Writer.t) xs fs :
  (forall fs x, step (written fs) x = written (fs ++ g x)) ->
  fold_left step xs (written fs) = written (fs ++ (xs ≫= g)).
Proof.
  intros Hs. revert fs. induction xs as [|x xs IH]; intros fs; cbn; [by rewrite app_nil_r|].
  by rewrite Hs, IH, app_assoc.
Qed.

(** Peel a builder into [encode [...]]. *)
Ltac to_fields :=
  repeat first
    [ rewrite written_new | rewrite written_varint | rewrite written_bytes
    | rewrite written_if | rewrite written_finish ];
  cbn [app].

(** A payload is no longer than the message it sits in. *)
Lemma fits_encode_field f fs : f ∈ fs -> fits (encode fs) -> fits (encode_field f).
Proof.
  intros (k & l & ->)%list_elem_of_split. rewrite encode_app, encode_cons.
  intros [_ [? _]%fits_app]%fits_app. done.
Qed.

Lemma fits_payload n b : fits (encode_field (Bytes n b)) -> fits b.
Proof. cbn [encode_field]. intros [_ [_ ?]%fits_app]%fits_app. done. Qed.

Lemma fits_inner n b fs : Bytes n b ∈ fs -> fits (encode fs) -> fits b.
Proof. intros H1 H2. eapply fits_payload, fits_encode_field; eauto. Qed.

(** [first_bytes] and [first_varint] on an encoded message. *)
Definition last_bytes (n : Z) (fs : list Field) : option (list byte) :=
  fold_left (fun o f => match f with
                        | Bytes m v => if m =? n then Some v else o
                        | Varint _ _ => o end) fs None.
Definition last_varint (n : Z) (fs : list Field) : option Z :=
  fold_left (fun o f => match f with
                        | Varint m v => if m =? n then Some v else o
                        | Bytes _ _ => o end) fs None.

Lemma fold_fields_Ok {S E} `{From Error E} (g : S -> Field -> S) fs s :
  fold_fields (fun s f => Ok (g s f)) fs s = (Ok (fold_left g fs s) : result S E).
Proof. revert s. induction fs as [|f fs IH]; intros s; [done|]. apply IH. Qed.

Lemma first_bytes_encode fs n :
  Forall wf_field fs -> fits (encode fs) -> first_bytes (encode fs) n = Ok (last_bytes n fs).
Proof.
  intros Hfs Hb. unfold first_bytes. rewrite for_each_field_of_encode by done.
  apply fold_fields_Ok.
Qed.

Lemma first_varint_encode fs n :
  Forall wf_field fs -> fits (encode fs) -> first_varint (encode fs) n = Ok (last_varint n fs).
Proof.
  intros Hfs Hb. unfold first_varint. rewrite for_each_field_of_encode by done.
  apply fold_fields_Ok.
Qed.

(** *** Reading an encoded message

    Field numbers and varints must fit their types; that payloads do follows from the size
    of the message. *)

Definition wf_num (f : Field) : Prop :=
  match f with
  | Varint n v => is_u32 n /\ is_u64 v
  | Bytes n _ => is_u32 n
  end.

Lemma wf_num_field fs : Forall wf_num fs -> fits (encode fs) -> Forall wf_field fs.
Proof.
  intros Hn Hf. rewrite Forall_forall in *. intros [n v|n b] Hin; [by apply (Hn _ Hin)|].
  split; [by apply (Hn _ Hin)|]. by eapply fits_inner.
Qed.

Lemma read_encoded {S E} `{From Error E} fs (step : S -> Field -> result S E) s :
  Forall wf_num fs -> fits (encode fs) ->
  for_each_field (encode fs) step s = fold_fields step fs s.
Proof. intros Hn Hf. apply for_each_field_of_encode; [by apply wf_num_field|done]. Qed.

Lemma first_bytes_read fs n :
  Forall wf_num fs -> fits (encode fs) -> first_bytes (encode fs) n = Ok (last_bytes n fs).
Proof. intros Hn Hf. apply first_bytes_encode; [by apply wf_num_field|done]. Qed.

Lemma first_varint_read fs n :
  Forall wf_num fs -> fits (encode fs) -> first_varint (encode fs) n = Ok (last_varint n fs).
Proof. intros Hn Hf. apply first_varint_encode; [by apply wf_num_field|done]. Qed.

Lemma fold_fields_app {S E} `{From Error E} (step : S -> Field -> result S E) fs gs s :
  fold_fields step (fs ++ gs) s = let? s := fold_fields step fs s in fold_fields step gs s.
Proof.
  revert s. induction fs as [|f fs IH]; intros s; [done|]. cbn.
  destruct (step s f); [apply IH|done].
Qed.

Lemma Forall_bind {A} (P : Field -> Prop) (g : A -> list Field) (xs : list A) :
  Forall (fun x => Forall P (g x)) xs -> Forall P (xs ≫= g).
Proof. induction 1; cbn; [done|]. by apply Forall_app. Qed.

(** Discharge [Forall wf_num [...]] and [fits] of a payload of a message that fits. *)
Ltac wf_nums :=
  repeat first
    [ apply Forall_nil_2
    | apply Forall_cons_2
    | apply Forall_app_2
    | match goal with |- wf_num _ => cbn [wf_num] end
    | match goal with |- _ /\ _ => split end ];
  try solve [ done | auto with rust | unfold_ints; lia ].

Ltac fits_in H :=
  eapply fits_inner; [|exact H];
  solve [ repeat first [ apply list_elem_of_here | apply list_elem_of_further ] ].

(** A field number that a message does not use. *)
Definition no_bytes (n : Z) (f : Field) : Prop :=
  match f with Bytes m _ => m <> n | Varint _ _ => True end.

Lemma last_bytes_skip n fs gs :
  Forall (no_bytes n) gs -> last_bytes n (fs ++ gs) = last_bytes n fs.
Proof.
  intros H. unfold last_bytes. rewrite fold_left_app.
  generalize (fold_left (fun o f => match f with
      | Bytes m v => if m =? n then Some v else o | Varint _ _ => o end) fs None) as o.
  induction H as [|f gs Hf _ IH]; intros o; [done|]. destruct f as [m v|m v]; cbn; [apply IH|].
  cbn in Hf. rewrite (proj2 (Z.eqb_neq _ _) Hf). apply IH.
Qed.

(** Optional fields, as the builders write them. *)

Definition opt_varint (n : Z) (o : option Z) : list Field :=
  match o with Some v => [Varint n v] | None => [] end.

Lemma written_opt_varint n o fs :
  match o with Some v => Writer.varint n v (written fs) | None => written fs end
  = written (fs ++ opt_varint n o).
Proof. destruct o; cbn; [by rewrite written_varint|by rewrite app_nil_r]. Qed.

Lemma wf_opt_varint n o :
  is_u32 n -> (forall v, o = Some v -> is_u64 v) -> Forall wf_num (opt_varint n o).
Proof. intros Hn Ho. destruct o; cbn; wf_nums. Qed.

Definition opt_name (n : Z) (s : list byte) : list Field :=
  if negb (is_empty s) then [Bytes n s] else [].

Lemma written_opt_name n s fs :
  (if negb (is_empty s) then Writer.bytes n s (written fs) else written fs)
  = written (fs ++ opt_name n s).
Proof. unfold opt_name. destruct s; cbn; [by rewrite app_nil_r|by rewrite written_bytes]. Qed.

Lemma wf_opt_name n s : is_u32 n -> Forall wf_num (opt_name n s).
Proof. intros Hn. unfold opt_name. destruct s; cbn; wf_nums. Qed.

Lemma last_bytes_snoc n fs f :
  last_bytes n (fs ++ [f]) =
  match f with Bytes m v => if m =? n then Some v else last_bytes n fs
             | Varint _ _ => last_bytes n fs end.
Proof. unfold last_bytes. rewrite fold_left_app. by destruct f. Qed.

Lemma last_varint_snoc n fs f :
  last_varint n (fs ++ [f]) =
  match f with Varint m v => if m =? n then Some v else last_varint n fs
             | Bytes _ _ => last_varint n fs end.
Proof. unfold last_varint. rewrite fold_left_app. by destruct f. Qed.


Lemma last_bytes_elem n fs b : last_bytes n fs = Some b -> Bytes n b ∈ fs.
Proof.
  induction fs as [|f fs IH] using rev_ind; [done|]. rewrite last_bytes_snoc, elem_of_app.
  destruct f as [m v|m v]; [by auto|]. destruct (Z.eqb_spec m n) as [->|]; [|by auto].
  intros [= ->]. right. apply list_elem_of_here.
Qed.

(** A payload read from a message is no longer than the message. *)
Lemma item_of_payload n b l rest :
  item_of l = Ok (Some (Bytes n b), rest) -> len b <= len l.
Proof.
  unfold item_of. intros H. inv_ok; simplify_eq/=.
  repeat match goal with H : varint_of _ _ _ = Ok _ |- _ => apply varint_of_length in H end.
  match goal with H : take_of _ _ = Ok _ |- _ => unfold take_of in H; destruct (_ <? _); [done|];
    apply Ok_inj in H; injection H as <- <- end.
  rewrite len_take, !len_nat in *. lia.
Qed.

Lemma fields_of_payload n b l : Bytes n b ∈ fst (fields_of l) -> len b <= len l.
Proof.
  assert (H : forall k l, (length l <= k)%nat -> Bytes n b ∈ fst (fields_of l) -> len b <= len l).
  2: by apply (H (length l)).
  clear l. induction k as [|k IH]; intros l Hk.
  { destruct l; [|cbn in Hk; lia]. cbn. by intros ?%not_elem_of_nil. }
  destruct (decide (l = [])) as [->|Hne]; [cbn; by intros ?%not_elem_of_nil|].
  rewrite fields_of_unfold by done.
  destruct (item_of l) as [[[f|] rest]|e] eqn:Hi; [| |cbn; by intros ?%not_elem_of_nil];
    pose proof (item_of_length _ _ _ Hi) as Hl.
  - specialize (IH rest ltac:(lia)). destruct (fields_of rest) as [fs e]. cbn.
    intros [<-|Hin]%elem_of_cons; [by eapply item_of_payload|].
    specialize (IH Hin). rewrite !len_nat in *. lia.
  - intros Hin. specialize (IH rest ltac:(lia) Hin). rewrite !len_nat in *. lia.
Qed.

Lemma last_bytes_len n l b : last_bytes n (fst (fields_of l)) = Some b -> len b <= len l.
Proof. intros H%last_bytes_elem. by eapply fields_of_payload. Qed.

(** Every field read is within its types, and its payload within the buffer. *)
Lemma item_of_wf l f rest : fits l -> item_of l = Ok (Some f, rest) -> wf_field f.
Proof.
  intros Hl H. destruct f as [n v|n b].
  - assert (Hn : is_u32 n /\ is_u64 v); [|done]. revert H. unfold item_of. intros H. inv_ok; simplify_eq/=.
    split; [apply Z.mod_pos_bound; lia|]. eapply varint_of_range; [eassumption|]. unfold_ints. lia.
  - split.
    + revert H. unfold item_of. intros H. inv_ok; simplify_eq/=. apply Z.mod_pos_bound. lia.
    + apply item_of_payload in H. by eapply fits_le.
Qed.

Lemma fields_of_wf l : fits l -> Forall wf_field (fst (fields_of l)) /\
  (length (fst (fields_of l)) <= length l)%nat.
Proof.
  assert (H : forall k l, (length l <= k)%nat -> fits l ->
    Forall wf_field (fst (fields_of l)) /\ (length (fst (fields_of l)) <= length l)%nat).
  2: by apply (H (length l)).
  clear l. induction k as [|k IH]; intros l Hk Hf.
  { destruct l; [|cbn in Hk; lia]. by split. }
  destruct (decide (l = [])) as [->|Hne]; [by split|].
  rewrite fields_of_unfold by done.
  destruct (item_of l) as [[[f|] rest]|e] eqn:Hi; [| |cbn; split; [done|lia]];
    pose proof (item_of_length _ _ _ Hi) as Hl;
    (assert (Hr : fits rest) by (eapply fits_le; [|exact Hf]; rewrite !len_nat; lia));
    destruct (IH rest ltac:(lia) Hr) as [H1 H2].
  - apply item_of_wf in Hi; [|done]. destruct (fields_of rest) as [fs e]. cbn in *.
    split; [by constructor|lia].
  - split; [done|lia].
Qed.

(** ** Properties *)

(** Writing a message field by field. *)
Definition write_field (w : Writer.t) (f : Field) : Writer.t :=
  match f with
  | Varint n v => Writer.varint n v w
  | Bytes n b => Writer.bytes n b w
  end.

Lemma write_fields fs gs : fold_left write_field fs (written gs) = written (gs ++ fs).
Proof.
  revert gs. induction fs as [|f fs IH]; intros gs; cbn; [by rewrite app_nil_r|].
  destruct f; cbn [write_field]; rewrite ?written_varint, ?written_bytes, IH, <- app_assoc; done.
Qed.

Lemma fold_left_snoc {A} (xs acc : list A) :
  fold_left (fun seen x => seen ++ [x]) xs acc = acc ++ xs.
Proof.
  revert acc. induction xs as [|x xs IH]; intros acc; cbn; [by rewrite app_nil_r|].
  by rewrite IH, <- app_assoc.
Qed.

(** The reader inverts the writer.  The loop over a message that was written field by field
    visits exactly those fields, values and order included, and reports no error, whatever
    32-bit numbers, 64-bit values and payloads they carry. *)
Theorem reader_inverts_writer (fs : list Field) :
  Forall wf_field fs ->
  fits (Writer.finish (fold_left write_field fs Writer.new)) ->
  for_each_field (Writer.finish (fold_left write_field fs Writer.new))
    (fun seen f => Ok (seen ++ [f])) [] = (Ok fs : result (list Field) Error).
Proof.
  intros Hfs. rewrite written_new, write_fields, written_finish. intros Hf.
  rewrite for_each_field_of_encode by done. rewrite (fold_fields_Ok (fun seen f => seen ++ [f])).
  f_equal. apply (fold_left_snoc fs []).
Qed.

Lemma reader_inverts_writer_witness :
  let fs := [Varint 1 (2 ^ 64 - 1); Bytes 536870911 (str "abc"); Varint 1 0] in
  for_each_field (Writer.finish (fold_left write_field fs Writer.new))
    (fun seen f => Ok (seen ++ [f])) [] = (Ok fs : result (list Field) Error).
Proof.
  intros fs. apply (reader_inverts_writer fs); [|vm_compute; discriminate].
  repeat constructor; cbn; unfold_ints; try lia. vm_compute. discriminate.
Defined.

(** C19: on arbitrary input the reader terminates and is the grammar: every parser's loop over a
    buffer is its body folded over the fields the reference grammar finds, ending in the
    grammar's error if there is one; there are at most as many fields as bytes, and every field
    number, value and payload length is within its Rust type. *)
Theorem reader_is_grammar (b : list byte) :
  fits b ->
  (forall (S E : Type) (HE : From Error E) (step : S -> Field -> result S E) (s : S),
     for_each_field b step s = run_fields step (fields_of b) s) /\
  Forall wf_field (fst (fields_of b)) /\ (length (fst (fields_of b)) <= length b)%nat.
Proof.
  intros Hb. split; [|by apply fields_of_wf]. intros S E Hfrom step s.
  by apply for_each_field_grammar.
Qed.

Lemma reader_is_grammar_witness :
  let b := to_u8 <$> [0x08; 0x96; 0x01; 0x0D; 1; 2; 3; 4; 0x12; 0x05; 0x61] in
  for_each_field b (fun n f => Ok (n + 1)) 0 = (Err Truncated : result Z Error) /\
  fields_of b = ([Varint 1 150], Some Truncated).
Proof.
  intros b. destruct (reader_is_grammar b) as [H _]; [vm_compute; discriminate|].
  rewrite H. split; vm_compute; reflexivity.
Defined.
