(* ===== verification/Framing.v ===== *)
(** * Length-prefixed framing ([protocol/src/framing.rs])

    [encode] prepends a four-byte big-endian length; [Decoder] accumulates whatever arrives
    and hands back whole frames.  [drain] is the loop every reader of a connection runs on
    it: [push] what was read, then [next_frame] until it has none. *)

From S2P Require Import Prelude.

Definition LENGTH_PREFIX : Z := 4.
Definition MAX_FRAME : Z := 5 * 1024 * 1024.

Inductive Error : Type :=
| Oversize (n : Z).

#[export] Instance Error_eq_dec : EqDecision Error.
Proof. solve_decision. Defined.

Definition encode (payload : list byte) : list byte :=
  to_be_bytes 4 (as_u32 (len payload)) ++ payload.

Module Decoder.

Record t : Type := mk { buf : list byte }.

Definition new : t := mk [].

Definition push (bytes : list byte) (d : t) : t := mk (buf d ++ bytes).

Definition next_frame (d : t) : result (option (list byte)) Error * t :=
  if len (buf d) <? LENGTH_PREFIX then (Ok None, d)
  else
    let n := from_be_bytes (sub_range (buf d) 0 4) in
    if MAX_FRAME <=? n then (Err (Oversize n), d)
    else if len (buf d) <? LENGTH_PREFIX + n then (Ok None, d)
    else
      let frame := sub_range (buf d) LENGTH_PREFIX (LENGTH_PREFIX + n) in
      (Ok (Some frame), mk (drop (Z.to_nat (LENGTH_PREFIX + n)) (buf d))).

Definition buffered (d : t) : Z := len (buf d).

End Decoder.

(** [while let Some(frame) = d.next_frame()? { out.push(frame) }]. *)
Fixpoint drain_loop (fuel : nat) (d : Decoder.t) : list (list byte) * option Error * Decoder.t :=
  match fuel with
  | O => ([], None, d)
  | S fuel =>
      match Decoder.next_frame d with
      | (Ok None, d) => ([], None, d)
      | (Err e, d) => ([], Some e, d)
      | (Ok (Some f), d) =>
          let '(fs, e, d) := drain_loop fuel d in (f :: fs, e, d)
      end
  end.

(** A frame takes at least its prefix off the buffer. *)
Definition drain (d : Decoder.t) : list (list byte) * option Error * Decoder.t :=
  drain_loop (S (length (Decoder.buf d))) d.

(** A connection: every chunk read is pushed and the frames it completes are taken. *)
Fixpoint receive (d : Decoder.t) (chunks : list (list byte))
    : list (list byte) * option Error * Decoder.t :=
  match chunks with
  | [] => ([], None, d)
  | c :: chunks =>
      match drain (Decoder.push c d) with
      | (fs, Some e, d) => (fs, Some e, d)
      | (fs, None, d) => let '(gs, e, d) := receive d chunks in (fs ++ gs, e, d)
      end
  end.

(** ** Lemmas *)

Lemma next_frame_shrinks d f d' :
  Decoder.next_frame d = (Ok (Some f), d') ->
  (length (Decoder.buf d') < length (Decoder.buf d))%nat.
Proof.
  unfold Decoder.next_frame. intros H. repeat case_match; try congruence.
  injection H as _ <-. cbn [Decoder.buf]. rewrite length_drop.
  pose proof (from_be_bytes_range (sub_range (Decoder.buf d) 0 4)).
  unfold LENGTH_PREFIX in *. rewrite len_nat in *. lia.
Qed.

Lemma drain_fuel n m d :
  (length (Decoder.buf d) < n)%nat -> (length (Decoder.buf d) < m)%nat ->
  drain_loop n d = drain_loop m d.
Proof.
  revert m d. induction n as [|n IH]; intros [|m] d Hn Hm; try lia.
  cbn [drain_loop]. destruct (Decoder.next_frame d) as [[[f|]|e] d'] eqn:Hd; try done.
  apply next_frame_shrinks in Hd. by rewrite (IH m d') by lia.
Qed.

Lemma drain_unfold d :
  drain d = match Decoder.next_frame d with
            | (Ok None, d) => ([], None, d)
            | (Err e, d) => ([], Some e, d)
            | (Ok (Some f), d) => let '(fs, e, d) := drain d in (f :: fs, e, d)
            end.
Proof.
  unfold drain at 1. cbn [drain_loop].
  destruct (Decoder.next_frame d) as [[[f|]|e] d'] eqn:Hd; try done.
  apply next_frame_shrinks in Hd. unfold drain.
  by rewrite (drain_fuel _ (S (length (Decoder.buf d')))) by lia.
Qed.

Lemma decoder_eta d : Decoder.mk (Decoder.buf d) = d.
Proof. by destruct d. Qed.

Lemma sub_range_app {A} (l k : list A) a b :
  0 <= a <= b -> b <= len l -> sub_range (l ++ k) a b = sub_range l a b.
Proof.
  intros Ha Hb. rewrite len_nat in Hb. unfold sub_range. rewrite drop_app_le by lia.
  rewrite take_app_le; [done|]. rewrite length_drop. lia.
Qed.

(** More input never changes a frame already complete, nor a refusal. *)
Lemma next_frame_push d k :
  match Decoder.next_frame d with
  | (Ok None, d') => d' = d
  | (Ok (Some f), d') =>
      Decoder.next_frame (Decoder.push k d) = (Ok (Some f), Decoder.push k d')
  | (Err e, d') => d' = d /\ Decoder.next_frame (Decoder.push k d) = (Err e, Decoder.push k d)
  end.
Proof.
  unfold Decoder.next_frame, Decoder.push. cbn [Decoder.buf].
  pose proof (len_nonneg k). unfold LENGTH_PREFIX.
  destruct (Z.ltb_spec (len (Decoder.buf d)) 4); [done|]. rewrite !len_app.
  rewrite (sub_range_app _ _ 0 4) by lia.
  pose proof (from_be_bytes_range (sub_range (Decoder.buf d) 0 4)) as Hr.
  set (n := from_be_bytes _) in *.
  rewrite (proj2 (Z.ltb_ge (len (Decoder.buf d) + len k) 4)) by lia.
  destruct (MAX_FRAME <=? n); [done|].
  destruct (Z.ltb_spec (len (Decoder.buf d)) (4 + n)); [done|].
  rewrite (proj2 (Z.ltb_ge (len (Decoder.buf d) + len k) (4 + n))), sub_range_app by lia.
  do 2 f_equal. rewrite drop_app_le; [done|]. rewrite len_nat in *. lia.
Qed.

Lemma push_push d a b : Decoder.push b (Decoder.push a d) = Decoder.push (a ++ b) d.
Proof. unfold Decoder.push. cbn. by rewrite app_assoc. Qed.

(** Draining twice is draining once. *)
Lemma drain_push d k :
  drain (Decoder.push k d) =
  match drain d with
  | (fs, Some e, d') => (fs, Some e, Decoder.push k d')
  | (fs, None, d') =>
      let '(gs, e, d'') := drain (Decoder.push k d') in (fs ++ gs, e, d'')
  end.
Proof.
  remember (length (Decoder.buf d)) as n eqn:Hn. revert d Hn.
  induction (lt_wf n) as [n _ IH]. intros d ->.
  pose proof (next_frame_push d k) as Hp. rewrite (drain_unfold d).
  destruct (Decoder.next_frame d) as [[[f|]|e] d'] eqn:Hd.
  - apply next_frame_shrinks in Hd.
    rewrite drain_unfold, Hp, (IH _ Hd) by done.
    destruct (drain d') as [[fs [e|]] d2]; [done|].
    by destruct (drain (Decoder.push k d2)) as [[gs e2] d3].
  - subst d'. by destruct (drain (Decoder.push k d)) as [[gs e2] d3].
  - destruct Hp as [-> Hp]. by rewrite drain_unfold, Hp.
Qed.

Lemma drain_new : drain Decoder.new = ([], None, Decoder.new).
Proof. done. Qed.

Lemma drain_stable d fs d' : drain d = (fs, None, d') -> drain d' = ([], None, d').
Proof.
  remember (length (Decoder.buf d)) as n eqn:Hn. revert d fs Hn.
  induction (lt_wf n) as [n _ IH]. intros d fs ->. rewrite drain_unfold.
  pose proof (next_frame_push d []) as Hp.
  destruct (Decoder.next_frame d) as [[[f|]|e] d2] eqn:Hd; [| |done].
  - apply next_frame_shrinks in Hd. destruct (drain d2) as [[fs2 e2] d3] eqn:Hr.
    intros [= <- -> <-]. eapply IH; eauto.
  - subst d2. intros [= <- <-]. by rewrite drain_unfold, Hd.
Qed.

(** A connection's frames depend on the bytes only, not on how they were split. *)
Lemma receive_drain d chunks :
  drain d = ([], None, d) ->
  fst (receive d chunks) = fst (drain (Decoder.push (mjoin chunks) d)).
Proof.
  revert d. induction chunks as [|c chunks IH]; intros d Hd.
  - change (mjoin []) with (@nil byte). unfold Decoder.push.
    by rewrite app_nil_r, decoder_eta, Hd.
  - change (mjoin (c :: chunks)) with (c ++ mjoin chunks). cbn [receive].
    rewrite <- push_push, (drain_push (Decoder.push c d)).
    destruct (drain (Decoder.push c d)) as [[fs [e|]] d'] eqn:Hc; [done|].
    specialize (IH d' (drain_stable _ _ _ Hc)).
    destruct (receive d' chunks) as [[gs e] d2].
    destruct (drain (Decoder.push (mjoin chunks) d')) as [[gs' e'] d3].
    cbn in *. by simplify_eq.
Qed.

Lemma next_frame_encode p rest :
  len p < MAX_FRAME ->
  Decoder.next_frame (Decoder.mk (encode p ++ rest)) = (Ok (Some p), Decoder.mk rest).
Proof.
  intros Hp. unfold Decoder.next_frame, encode, LENGTH_PREFIX. cbn [Decoder.buf].
  pose proof (len_nonneg p). pose proof (len_nonneg rest).
  assert (Hu : as_u32 (len p) = len p).
  { apply as_u32_small. unfold_ints. unfold MAX_FRAME in Hp. lia. }
  rewrite Hu, <- app_assoc. simpl_len. rewrite len_to_be_bytes.
  rewrite (proj2 (Z.ltb_ge _ _)) by lia.
  assert (Hpre : sub_range (to_be_bytes 4 (len p) ++ p ++ rest) 0 4 = to_be_bytes 4 (len p)).
  { unfold sub_range. cbn [Z.to_nat drop]. by apply take_app_length'. }
  rewrite Hpre, from_to_be_bytes_small.
  2:{ unfold MAX_FRAME in Hp. change (256 ^ Z.of_nat 4) with (2 ^ 32). lia. }
  rewrite (proj2 (Z.leb_gt _ _)), (proj2 (Z.ltb_ge _ _)) by lia.
  f_equal.
  - do 2 f_equal. unfold sub_range. rewrite (drop_app_length' (to_be_bytes 4 _)) by done.
    apply take_app_length'. rewrite len_nat. lia.
  - f_equal. rewrite app_assoc. apply drop_app_length'. rewrite length_app.
    rewrite len_nat. change (length (to_be_bytes 4 _)) with 4%nat. lia.
Qed.

Lemma drain_encode fs rest :
  Forall (fun p => len p < MAX_FRAME) fs ->
  drain (Decoder.mk (mjoin (encode <$> fs) ++ rest)) =
  let '(gs, e, d) := drain (Decoder.mk rest) in (fs ++ gs, e, d).
Proof.
  induction 1 as [|p fs Hp _ IH].
  - change (mjoin (encode <$> []) ++ rest) with rest.
    by destruct (drain (Decoder.mk rest)) as [[gs e] d].
  - change (mjoin (encode <$> p :: fs)) with (encode p ++ mjoin (encode <$> fs)).
    rewrite <- app_assoc, drain_unfold, next_frame_encode, IH by done.
    by destruct (drain (Decoder.mk rest)) as [[gs e] d].
Qed.

(** ** Properties *)

(** Whatever pieces the network delivers a sequence of frames in, the decoder yields
    exactly those frames, in order, with nothing left over and no error. *)
Theorem receive_any_chunking fs chunks :
  Forall (fun p => len p < MAX_FRAME) fs ->
  mjoin chunks = mjoin (encode <$> fs) ->
  fst (receive Decoder.new chunks) = (fs, None).
Proof.
  intros Hfs Hc. rewrite receive_drain, Hc by apply drain_new.
  unfold Decoder.push. cbn [Decoder.buf Decoder.new app].
  rewrite <- (app_nil_r (mjoin _)), drain_encode by done. change (Decoder.mk []) with Decoder.new.
  rewrite drain_new. cbn [fst]. by rewrite app_nil_r.
Qed.

Lemma receive_any_chunking_witness :
  fst (receive Decoder.new
         ([to_u8 0; to_u8 0] :: [to_u8 0] :: [to_u8 2; to_u8 7] :: [to_u8 8; to_u8 0]
          :: [to_u8 0; to_u8 0; to_u8 0] :: nil))
  = ([[to_u8 7; to_u8 8]; []], None).
Proof.
  apply (receive_any_chunking [[to_u8 7; to_u8 8]; []]);
    [repeat constructor|vm_compute; reflexivity].
Defined.

(** A refusal depends on the four prefix bytes alone: as soon as they have arrived a
    declared length of 5 MiB or more is an error, whatever follows; no other input is, and
    a drained decoder never holds more than one unfinished frame below the limit. *)
Theorem decoder_bounded d :
  let n := from_be_bytes (take 4 (Decoder.buf d)) in
  (fst (Decoder.next_frame d) = Err (Oversize n)
   <-> LENGTH_PREFIX <= Decoder.buffered d /\ MAX_FRAME <= n) /\
  (forall e, fst (Decoder.next_frame d) = Err e -> e = Oversize n) /\
  (forall fs d', drain d = (fs, None, d') -> Decoder.buffered d' < LENGTH_PREFIX + MAX_FRAME).
Proof.
  assert (Hd : sub_range (Decoder.buf d) 0 4 = take 4 (Decoder.buf d)) by done.
  cbn zeta. rewrite <- Hd. unfold Decoder.buffered. split; [|split].
  - unfold Decoder.next_frame. destruct (Z.ltb_spec (len (Decoder.buf d)) LENGTH_PREFIX).
    + split; [done|lia].
    + destruct (Z.leb_spec MAX_FRAME (from_be_bytes (sub_range (Decoder.buf d) 0 4))).
      * done.
      * split; [by destruct (_ <? _)|lia].
  - unfold Decoder.next_frame. intros e. repeat case_match; cbn; congruence.
  - intros fs d' H%drain_stable. rewrite drain_unfold in H.
    destruct (Decoder.next_frame d') as [[[f|]|e] d2] eqn:Hn; [|clear H|done].
    + by destruct (drain d2) as [[? ?] ?].
    + revert Hn. unfold Decoder.next_frame.
      pose proof (from_be_bytes_range (sub_range (Decoder.buf d') 0 4)).
      unfold LENGTH_PREFIX, MAX_FRAME in *. repeat case_match; intros; try congruence; lia.
Qed.
