(* ===== verification/Frames.v ===== *)
(** * Offline frames ([protocol/src/frames.rs])

    The Nearby Connections message layer: the enumerations and records of the frames, the
    builder of each frame the daemon sends, and the parser of what a peer sends.  The
    theorems relate the two: every builder's frame parses back to the value it was built
    from. *)

From S2P Require Import Prelude Utf8 Protobuf.

(** ** Field numbers *)

Definition OF_VERSION : Z := 1.
Definition OF_V1 : Z := 2.
Definition VERSION_V1 : Z := 1.

Definition V1_TYPE : Z := 1.
Definition V1_CONNECTION_REQUEST : Z := 2.
Definition V1_CONNECTION_RESPONSE : Z := 3.
Definition V1_PAYLOAD_TRANSFER : Z := 4.
Definition V1_BANDWIDTH_UPGRADE : Z := 5.
Definition V1_KEEP_ALIVE : Z := 6.
Definition V1_DISCONNECTION : Z := 7.

Definition T_CONNECTION_REQUEST : Z := 1.
Definition T_CONNECTION_RESPONSE : Z := 2.
Definition T_PAYLOAD_TRANSFER : Z := 3.
Definition T_BANDWIDTH_UPGRADE : Z := 4.
Definition T_KEEP_ALIVE : Z := 5.
Definition T_DISCONNECTION : Z := 6.

Definition CR_ENDPOINT_ID : Z := 1.
Definition CR_ENDPOINT_NAME : Z := 2.
Definition CR_HANDSHAKE_DATA : Z := 3.
Definition CR_NONCE : Z := 4.
Definition CR_MEDIUMS : Z := 5.
Definition CR_ENDPOINT_INFO : Z := 6.
Definition CR_MEDIUM_METADATA : Z := 7.
Definition CR_KEEPALIVE_INTERVAL : Z := 8.
Definition CR_KEEPALIVE_TIMEOUT : Z := 9.
Definition CR_CONNECTIONS_DEVICE : Z := 12.

Definition MM_SUPPORTS_5GHZ : Z := 1.
Definition MM_SUPPORTS_6GHZ : Z := 4.
Definition MM_MOBILE_RADIO : Z := 5.
Definition MM_AP_FREQUENCY : Z := 6.

(** [-1i32 as i64 as u64]. *)
Definition AP_FREQUENCY_NONE : Z := as_u64 (-1).

Definition CD_ENDPOINT_ID : Z := 1.
Definition CD_ENDPOINT_TYPE : Z := 2.
Definition CD_ENDPOINT_INFO : Z := 4.
Definition ENDPOINT_TYPE_CONNECTIONS : Z := 1.

Definition RSP_STATUS : Z := 1.
Definition RSP_HANDSHAKE_DATA : Z := 2.
Definition RSP_RESPONSE : Z := 3.
Definition RSP_OS_INFO : Z := 4.
Definition RSP_MULTIPLEX_BITMASK : Z := 5.
Definition RSP_SAFE_TO_DISCONNECT : Z := 7.
Definition RSP_KEEPALIVE_TIMEOUT : Z := 9.
Definition MULTIPLEX_SOCKET_BITMASK_NONE : Z := 0.
Definition SAFE_TO_DISCONNECT_VERSION : Z := 1.
Definition KEEP_ALIVE_TIMEOUT_MILLIS : Z := 600000.
Definition KEEP_ALIVE_INTERVAL_MILLIS : Z := 10000.

Definition OS_TYPE : Z := 1.

Definition PT_PACKET_TYPE : Z := 1.
Definition PT_PAYLOAD_HEADER : Z := 2.
Definition PT_PAYLOAD_CHUNK : Z := 3.
Definition PT_CONTROL_MESSAGE : Z := 4.

Definition PH_ID : Z := 1.
Definition PH_TYPE : Z := 2.
Definition PH_TOTAL_SIZE : Z := 3.
Definition PH_IS_SENSITIVE : Z := 4.
Definition PH_FILE_NAME : Z := 5.
Definition PH_PARENT_FOLDER : Z := 6.

Definition PC_FLAGS : Z := 1.
Definition PC_OFFSET : Z := 2.
Definition PC_BODY : Z := 3.

Definition CM_EVENT : Z := 1.
Definition CM_OFFSET : Z := 2.

Definition DC_REQUEST_SAFE : Z := 1.
Definition DC_ACK_SAFE : Z := 2.

Definition KA_ACK : Z := 1.
Definition KA_SEQ_NUM : Z := 2.

(** ** Data *)

Inductive Medium : Type :=
| MBluetooth | MWifiHotspot | MBle | MWifiLan | MWifiAware | MWifiDirect | MAwdl.

(** [#[repr(u64)]]. *)
Definition Medium_u64 (m : Medium) : Z :=
  match m with
  | MBluetooth => 2 | MWifiHotspot => 3 | MBle => 4 | MWifiLan => 5 | MWifiAware => 6
  | MWifiDirect => 8 | MAwdl => 13
  end.

Module Response.
Inductive t : Type := Unknown | Accept | Reject.
Definition as_u64 (r : t) : Z := match r with Unknown => 0 | Accept => 1 | Reject => 2 end.
Definition from (v : Z) : t :=
  if v =? 1 then Accept else if v =? 2 then Reject else Unknown.
#[global] Instance eq_dec : EqDecision t.
Proof. solve_decision. Defined.
End Response.

Module OsType.
Inductive t : Type := Unknown | Android | ChromeOs | Windows | Apple | Linux.
Definition as_u64 (o : t) : Z :=
  match o with
  | Unknown => 0 | Android => 1 | ChromeOs => 2 | Windows => 3 | Apple => 4 | Linux => 100
  end.
Definition from (v : Z) : t :=
  if v =? 1 then Android else if v =? 2 then ChromeOs else if v =? 3 then Windows
  else if v =? 4 then Apple else if v =? 100 then Linux else Unknown.
End OsType.

Module PayloadType.
Inductive t : Type := Unknown | Bytes | File | Stream.
Definition as_u64 (p : t) : Z :=
  match p with Unknown => 0 | Bytes => 1 | File => 2 | Stream => 3 end.
Definition from (v : Z) : t :=
  if v =? 1 then Bytes else if v =? 2 then File else if v =? 3 then Stream else Unknown.
#[global] Instance eq_dec : EqDecision t.
Proof. solve_decision. Defined.
End PayloadType.

Module PacketType.
Inductive t : Type := Unknown | Data | Control | PayloadAck.
Definition as_u64 (p : t) : Z :=
  match p with Unknown => 0 | Data => 1 | Control => 2 | PayloadAck => 3 end.
Definition from (v : Z) : t :=
  if v =? 1 then Data else if v =? 2 then Control else if v =? 3 then PayloadAck else Unknown.
#[global] Instance eq_dec : EqDecision t.
Proof. solve_decision. Defined.
End PacketType.

Definition FLAG_LAST_CHUNK : Z := 1.

Record ConnectionRequest : Type := mkConnectionRequest {
  cr_endpoint_id : list byte;
  cr_endpoint_name : list byte;
  cr_endpoint_info : list byte;
  cr_handshake_data : list byte;
  cr_nonce : Z;
  cr_mediums : list Z;
  cr_keep_alive_interval_millis : option Z;
  cr_keep_alive_timeout_millis : option Z
}.

Definition ConnectionRequest_default : ConnectionRequest :=
  mkConnectionRequest [] [] [] [] 0 [] None None.

Record ConnectionResponse : Type := mkConnectionResponse {
  rsp_response : Response.t;
  rsp_os_type : OsType.t;
  rsp_handshake_data : list byte;
  rsp_safe_to_disconnect_version : Z
}.

Record PayloadHeader : Type := mkPayloadHeader {
  ph_id : Z;
  ph_payload_type : PayloadType.t;
  ph_total_size : Z;
  ph_is_sensitive : bool;
  ph_file_name : list byte;
  ph_parent_folder : list byte
}.

Definition PayloadHeader_default : PayloadHeader :=
  mkPayloadHeader 0 PayloadType.Unknown 0 false [] [].

Record PayloadChunk : Type := mkPayloadChunk {
  pc_flags : Z;
  pc_offset : Z;
  pc_body : list byte
}.

Definition is_last (c : PayloadChunk) : bool :=
  negb (Z.land (pc_flags c) FLAG_LAST_CHUNK =? 0).

Record PayloadTransfer : Type := mkPayloadTransfer {
  pt_packet_type : PacketType.t;
  pt_header : PayloadHeader;
  pt_chunk : option PayloadChunk;
  pt_control : option (Z * Z)
}.

Inductive Frame : Type :=
| FConnectionRequest (r : ConnectionRequest)
| FConnectionResponse (r : ConnectionResponse)
| FPayloadTransfer (p : PayloadTransfer)
| FKeepAlive (ack : bool) (seq_num : Z)
| FDisconnection (request_safe ack_safe : bool)
| FBandwidthUpgrade (b : list byte)
| FUnknown (t : Z).

Inductive Error : Type :=
| EProtobuf (e : Protobuf.Error)
| EMalformed (why : string).

#[export] Instance Error_from_protobuf : From Protobuf.Error Error := EProtobuf.

(** ** Encoding *)

Definition offline (frame_type field : Z) (body : list byte) : list byte :=
  let v1 := Writer.finish (Writer.new |> Writer.varint V1_TYPE frame_type
                                      |> Writer.bytes field body) in
  Writer.finish (Writer.new |> Writer.varint OF_VERSION VERSION_V1 |> Writer.bytes OF_V1 v1).

Definition medium_metadata : list byte :=
  Writer.finish (Writer.new
    |> Writer.varint MM_SUPPORTS_5GHZ 0
    |> Writer.varint MM_SUPPORTS_6GHZ 0
    |> Writer.varint MM_MOBILE_RADIO 0
    |> Writer.varint MM_AP_FREQUENCY AP_FREQUENCY_NONE).

Definition connections_device (endpoint_id endpoint_info : list byte) : list byte :=
  Writer.finish (Writer.new
    |> Writer.bytes CD_ENDPOINT_ID endpoint_id
    |> Writer.varint CD_ENDPOINT_TYPE ENDPOINT_TYPE_CONNECTIONS
    |> Writer.bytes CD_ENDPOINT_INFO endpoint_info).

Definition connection_request (req : ConnectionRequest) : list byte :=
  let w := Writer.new
    |> Writer.bytes CR_ENDPOINT_ID (cr_endpoint_id req)
    |> Writer.bytes CR_ENDPOINT_NAME (cr_endpoint_name req)
    |> Writer.bytes CR_HANDSHAKE_DATA (cr_handshake_data req)
    |> Writer.varint CR_NONCE (as_u64 (cr_nonce req)) in
  let w := fold_left (fun w m => w |> Writer.varint CR_MEDIUMS m) (cr_mediums req) w in
  let w := w
    |> Writer.bytes CR_ENDPOINT_INFO (cr_endpoint_info req)
    |> Writer.bytes CR_MEDIUM_METADATA medium_metadata in
  let w := match cr_keep_alive_interval_millis req with
           | Some v => w |> Writer.varint CR_KEEPALIVE_INTERVAL v
           | None => w
           end in
  let w := match cr_keep_alive_timeout_millis req with
           | Some v => w |> Writer.varint CR_KEEPALIVE_TIMEOUT v
           | None => w
           end in
  let w := w |> Writer.bytes CR_CONNECTIONS_DEVICE
                  (connections_device (cr_endpoint_id req) (cr_endpoint_info req)) in
  offline T_CONNECTION_REQUEST V1_CONNECTION_REQUEST (Writer.finish w).

Definition connection_response (response : Response.t) (os : OsType.t) : list byte :=
  let os_info := Writer.new |> Writer.varint OS_TYPE (OsType.as_u64 os) in
  let w := Writer.new
    |> Writer.varint RSP_STATUS (if bool_decide (response = Response.Accept) then 0 else 1)
    |> Writer.varint RSP_RESPONSE (Response.as_u64 response)
    |> Writer.bytes RSP_OS_INFO (Writer.finish os_info)
    |> Writer.varint RSP_MULTIPLEX_BITMASK MULTIPLEX_SOCKET_BITMASK_NONE
    |> Writer.varint RSP_SAFE_TO_DISCONNECT SAFE_TO_DISCONNECT_VERSION
    |> Writer.varint RSP_KEEPALIVE_TIMEOUT KEEP_ALIVE_TIMEOUT_MILLIS in
  offline T_CONNECTION_RESPONSE V1_CONNECTION_RESPONSE (Writer.finish w).

Definition payload_data (header : PayloadHeader) (chunk : PayloadChunk) : list byte :=
  let h := Writer.new
    |> Writer.varint PH_ID (as_u64 (ph_id header))
    |> Writer.varint PH_TYPE (PayloadType.as_u64 (ph_payload_type header))
    |> Writer.varint PH_TOTAL_SIZE (as_u64 (ph_total_size header))
    |> Writer.varint PH_IS_SENSITIVE (bool_u64 (ph_is_sensitive header)) in
  let h := if negb (is_empty (ph_file_name header))
           then h |> Writer.bytes PH_FILE_NAME (ph_file_name header) else h in
  let h := if negb (is_empty (ph_parent_folder header))
           then h |> Writer.bytes PH_PARENT_FOLDER (ph_parent_folder header) else h in
  let c := Writer.new
    |> Writer.varint PC_FLAGS (pc_flags chunk)
    |> Writer.varint PC_OFFSET (as_u64 (pc_offset chunk))
    |> Writer.bytes PC_BODY (pc_body chunk) in
  let w := Writer.new
    |> Writer.varint PT_PACKET_TYPE (PacketType.as_u64 PacketType.Data)
    |> Writer.bytes PT_PAYLOAD_HEADER (Writer.finish h)
    |> Writer.bytes PT_PAYLOAD_CHUNK (Writer.finish c) in
  offline T_PAYLOAD_TRANSFER V1_PAYLOAD_TRANSFER (Writer.finish w).

Definition payload_control (header : PayloadHeader) (event offset : Z) : list byte :=
  let h := Writer.new
    |> Writer.varint PH_ID (as_u64 (ph_id header))
    |> Writer.varint PH_TYPE (PayloadType.as_u64 (ph_payload_type header))
    |> Writer.varint PH_TOTAL_SIZE (as_u64 (ph_total_size header)) in
  let cm := Writer.new |> Writer.varint CM_EVENT event
                       |> Writer.varint CM_OFFSET (as_u64 offset) in
  let w := Writer.new
    |> Writer.varint PT_PACKET_TYPE (PacketType.as_u64 PacketType.Control)
    |> Writer.bytes PT_PAYLOAD_HEADER (Writer.finish h)
    |> Writer.bytes PT_CONTROL_MESSAGE (Writer.finish cm) in
  offline T_PAYLOAD_TRANSFER V1_PAYLOAD_TRANSFER (Writer.finish w).

Definition bandwidth_upgrade (body : list byte) : list byte :=
  offline T_BANDWIDTH_UPGRADE V1_BANDWIDTH_UPGRADE body.

Definition keep_alive (ack : bool) (seq_num : Z) : list byte :=
  let w := Writer.new |> Writer.varint KA_ACK (bool_u64 ack)
                      |> Writer.varint KA_SEQ_NUM seq_num in
  offline T_KEEP_ALIVE V1_KEEP_ALIVE (Writer.finish w).

Definition disconnection (request_safe ack_safe : bool) : list byte :=
  let w := Writer.new in
  let w := if request_safe then w |> Writer.varint DC_REQUEST_SAFE 1 else w in
  let w := if ack_safe then w |> Writer.varint DC_ACK_SAFE 1 else w in
  offline T_DISCONNECTION V1_DISCONNECTION (Writer.finish w).

(** ** Decoding *)

(** [fn string]. *)
Definition string_of (b : list byte) : list byte := from_utf8_lossy b.

Definition connection_request_step (out : ConnectionRequest) (f : Field)
    : result ConnectionRequest Error :=
  let '(mkConnectionRequest id name info hs nonce mediums kai kat) := out in
  Ok match f with
     | Bytes n v =>
         if n =? CR_ENDPOINT_ID then
           mkConnectionRequest (string_of v) name info hs nonce mediums kai kat
         else if n =? CR_ENDPOINT_NAME then
           mkConnectionRequest id (string_of v) info hs nonce mediums kai kat
         else if n =? CR_ENDPOINT_INFO then
           mkConnectionRequest id name v hs nonce mediums kai kat
         else if n =? CR_HANDSHAKE_DATA then
           mkConnectionRequest id name info v nonce mediums kai kat
         else out
     | Varint n v =>
         if n =? CR_NONCE then
           mkConnectionRequest id name info hs (as_i64 v) mediums kai kat
         else if n =? CR_MEDIUMS then
           mkConnectionRequest id name info hs nonce (mediums ++ [v]) kai kat
         else if n =? CR_KEEPALIVE_INTERVAL then
           mkConnectionRequest id name info hs nonce mediums (Some v) kat
         else if n =? CR_KEEPALIVE_TIMEOUT then
           mkConnectionRequest id name info hs nonce mediums kai (Some v)
         else out
     end.

Definition parse_connection_request (b : list byte) : result ConnectionRequest Error :=
  for_each_field b connection_request_step ConnectionRequest_default.

Definition parse_connection_response (b : list byte) : result ConnectionResponse Error :=
  let? response := first_varint b RSP_RESPONSE in
  let? response :=
    match response with
    | Some v => Ok (Response.from v)
    | None =>
        let? status := first_varint b RSP_STATUS in
        Ok match status with
           | Some v => if v =? 0 then Response.Accept else Response.Reject
           | None => Response.Unknown
           end
    end : result Response.t Error in
  let? os_info := first_bytes b RSP_OS_INFO in
  let? os_type :=
    match os_info with
    | Some os => let? v := first_varint os OS_TYPE in Ok (OsType.from (unwrap_or v 0))
    | None => Ok OsType.Unknown
    end : result OsType.t Error in
  let? handshake_data := first_bytes b RSP_HANDSHAKE_DATA in
  let? safe := first_varint b RSP_SAFE_TO_DISCONNECT in
  Ok (mkConnectionResponse response os_type (unwrap_or handshake_data []) (unwrap_or safe 0)).

Definition parse_payload_transfer (b : list byte) : result PayloadTransfer Error :=
  let? packet_type := first_varint b PT_PACKET_TYPE in
  let packet_type := PacketType.from (unwrap_or packet_type 0) in
  let? header := first_bytes b PT_PAYLOAD_HEADER in
  let? header :=
    match header with
    | Some h =>
        let? id := first_varint h PH_ID in
        let? payload_type := first_varint h PH_TYPE in
        let? total_size := first_varint h PH_TOTAL_SIZE in
        let? is_sensitive := first_varint h PH_IS_SENSITIVE in
        let? file_name := first_bytes h PH_FILE_NAME in
        let? parent_folder := first_bytes h PH_PARENT_FOLDER in
        Ok (mkPayloadHeader
              (as_i64 (unwrap_or id 0))
              (PayloadType.from (unwrap_or payload_type 0))
              (as_i64 (unwrap_or total_size 0))
              (negb (unwrap_or is_sensitive 0 =? 0))
              (unwrap_or (map_opt string_of file_name) [])
              (unwrap_or (map_opt string_of parent_folder) []))
    | None => Ok PayloadHeader_default
    end : result PayloadHeader Error in
  let? chunk := first_bytes b PT_PAYLOAD_CHUNK in
  let? chunk :=
    match chunk with
    | Some c =>
        let? flags := first_varint c PC_FLAGS in
        let? offset := first_varint c PC_OFFSET in
        let? body := first_bytes c PC_BODY in
        Ok (Some (mkPayloadChunk (unwrap_or flags 0) (as_i64 (unwrap_or offset 0))
                    (unwrap_or body [])))
    | None => Ok None
    end : result (option PayloadChunk) Error in
  let? control := first_bytes b PT_CONTROL_MESSAGE in
  let? control :=
    match control with
    | Some c =>
        let? event := first_varint c CM_EVENT in
        let? offset := first_varint c CM_OFFSET in
        Ok (Some (unwrap_or event 0, as_i64 (unwrap_or offset 0)))
    | None => Ok None
    end : result (option (Z * Z)) Error in
  Ok (mkPayloadTransfer packet_type header chunk control).

(** The scan of the [V1Frame]: its type, and the last length-delimited field whatever its
    number. *)
Definition v1_step (s : option Z * option (Z * list byte)) (f : Field)
    : result (option Z * option (Z * list byte)) Error :=
  let (ty, body) := s in
  Ok match f with
     | Varint n v => if n =? V1_TYPE then (Some v, body) else s
     | Bytes n b => (ty, Some (n, b))
     end.

(** The [match ty] of [parse]. *)
Definition parse_body (ty : Z) (v1 body : list byte) : result Frame Error :=
  if ty =? T_CONNECTION_REQUEST then
    let? r := parse_connection_request body in Ok (FConnectionRequest r)
  else if ty =? T_CONNECTION_RESPONSE then
    let? r := parse_connection_response body in Ok (FConnectionResponse r)
  else if ty =? T_PAYLOAD_TRANSFER then
    let? p := parse_payload_transfer body in Ok (FPayloadTransfer p)
  else if ty =? T_KEEP_ALIVE then
    let? ack := first_varint body KA_ACK in
    let? seq_num := first_varint body KA_SEQ_NUM in
    Ok (FKeepAlive (negb (unwrap_or ack 0 =? 0)) (unwrap_or seq_num 0))
  else if ty =? T_DISCONNECTION then
    let? b := first_bytes v1 V1_DISCONNECTION in
    let b := unwrap_or b [] in
    let? request_safe := first_varint b DC_REQUEST_SAFE in
    let? ack_safe := first_varint b DC_ACK_SAFE in
    Ok (FDisconnection (negb (unwrap_or request_safe 0 =? 0))
          (negb (unwrap_or ack_safe 0 =? 0)))
  else if ty =? T_BANDWIDTH_UPGRADE then Ok (FBandwidthUpgrade body)
  else Ok (FUnknown ty).

Definition parse (bytes : list byte) : result Frame Error :=
  let? v1 := first_bytes bytes OF_V1 in
  let? v1 := ok_or v1 (EMalformed "no v1 frame") in
  let? (ty, body) := for_each_field v1 v1_step (None, None) in
  let? ty := ok_or ty (EMalformed "no frame type") in
  let body := unwrap_or (map_opt snd body) [] in
  parse_body ty v1 body.

Definition upgrade_body (bytes : list byte) : option (list byte) :=
  let^ f := ok (parse bytes) in
  match f with
  | FBandwidthUpgrade b => Some b
  | _ => None
  end.

(** ** Lemmas *)

Lemma response_from_u64 r : Response.from (Response.as_u64 r) = r.
Proof. by destruct r. Qed.

Lemma os_type_from_u64 o : OsType.from (OsType.as_u64 o) = o.
Proof. by destruct o. Qed.

Lemma payload_type_from_u64 p : PayloadType.from (PayloadType.as_u64 p) = p.
Proof. by destruct p. Qed.

Lemma is_u64_response r : is_u64 (Response.as_u64 r).
Proof. destruct r; unfold_ints; cbn; lia. Qed.
Lemma is_u64_os_type r : is_u64 (OsType.as_u64 r).
Proof. destruct r; unfold_ints; cbn; lia. Qed.
Lemma is_u64_payload_type r : is_u64 (PayloadType.as_u64 r).
Proof. destruct r; unfold_ints; cbn; lia. Qed.
#[export] Hint Resolve is_u64_response is_u64_os_type is_u64_payload_type : rust.

(** The envelope as a list of fields. *)
Lemma offline_fields ty field body :
  offline ty field body =
  encode [Varint OF_VERSION VERSION_V1;
          Bytes OF_V1 (encode [Varint V1_TYPE ty; Bytes field body])].
Proof. unfold offline. by to_fields. Qed.

Lemma offline_fits ty field body : fits (offline ty field body) -> fits body.
Proof.
  rewrite offline_fields. intros H.
  assert (H1 : fits (encode [Varint V1_TYPE ty; Bytes field body])) by fits_in H.
  fits_in H1.
Qed.

(** Parsing an envelope dispatches on its type and hands over its body. *)
Lemma parse_offline ty field body :
  is_u64 ty -> is_u32 field -> fits (offline ty field body) ->
  parse (offline ty field body)
  = parse_body ty (encode [Varint V1_TYPE ty; Bytes field body]) body.
Proof.
  rewrite offline_fields. intros Hty Hfield Hfit.
  assert (H1 : fits (encode [Varint V1_TYPE ty; Bytes field body])) by fits_in Hfit.
  unfold parse. rewrite first_bytes_read by (done || wf_nums). cbn [last_bytes fold_left].
  change (OF_V1 =? OF_V1) with true. cbn [try_bind ok_or].
  rewrite read_encoded by (done || wf_nums). done.
Qed.

(** *** Bodies *)

Definition wf_request (r : ConnectionRequest) : Prop :=
  valid (cr_endpoint_id r) = true /\ valid (cr_endpoint_name r) = true /\
  is_i64 (cr_nonce r) /\ Forall is_u64 (cr_mediums r) /\
  (forall v, cr_keep_alive_interval_millis r = Some v -> is_u64 v) /\
  (forall v, cr_keep_alive_timeout_millis r = Some v -> is_u64 v).

Definition connection_request_fields (req : ConnectionRequest) : list Field :=
  [Bytes CR_ENDPOINT_ID (cr_endpoint_id req);
   Bytes CR_ENDPOINT_NAME (cr_endpoint_name req);
   Bytes CR_HANDSHAKE_DATA (cr_handshake_data req);
   Varint CR_NONCE (as_u64 (cr_nonce req))]
  ++ (cr_mediums req ≫= fun m => [Varint CR_MEDIUMS m])
  ++ [Bytes CR_ENDPOINT_INFO (cr_endpoint_info req); Bytes CR_MEDIUM_METADATA medium_metadata]
  ++ opt_varint CR_KEEPALIVE_INTERVAL (cr_keep_alive_interval_millis req)
  ++ opt_varint CR_KEEPALIVE_TIMEOUT (cr_keep_alive_timeout_millis req)
  ++ [Bytes CR_CONNECTIONS_DEVICE
        (connections_device (cr_endpoint_id req) (cr_endpoint_info req))].

Lemma connection_request_offline req :
  connection_request req =
  offline T_CONNECTION_REQUEST V1_CONNECTION_REQUEST (encode (connection_request_fields req)).
Proof.
  unfold connection_request. f_equal. rewrite written_new, !written_bytes, written_varint.
  rewrite (written_for (fun m => [Varint CR_MEDIUMS m]))
    by (intros; apply written_varint).
  rewrite !written_bytes, !written_opt_varint, written_bytes, written_finish. f_equal.
  unfold connection_request_fields. by rewrite <- !app_assoc.
Qed.

Lemma mediums_fold id name info hs nonce ms xs kai kat :
  fold_fields connection_request_step (xs ≫= fun m => [Varint CR_MEDIUMS m])
    (mkConnectionRequest id name info hs nonce ms kai kat)
  = Ok (mkConnectionRequest id name info hs nonce (ms ++ xs) kai kat).
Proof.
  revert ms. induction xs as [|x xs IH]; intros ms; cbn; [by rewrite app_nil_r|].
  rewrite IH, <- app_assoc. done.
Qed.

Lemma parse_connection_request_fields req :
  wf_request req -> fits (encode (connection_request_fields req)) ->
  parse_connection_request (encode (connection_request_fields req)) = Ok req.
Proof.
  intros (Hid & Hname & Hnonce & Hm & Hi & Ht) Hf. unfold parse_connection_request.
  rewrite read_encoded; [|unfold connection_request_fields; wf_nums|done].
  - destruct req as [id name info hs nonce ms kai kat]. unfold connection_request_fields.
    cbn [cr_endpoint_id cr_endpoint_name cr_endpoint_info cr_handshake_data cr_nonce cr_mediums
         cr_keep_alive_interval_millis cr_keep_alive_timeout_millis] in *.
    rewrite fold_fields_app.
    change (fold_fields connection_request_step _ ConnectionRequest_default) with
      (Ok (mkConnectionRequest (string_of id) (string_of name) [] hs (as_i64 (as_u64 nonce)) []
             None None) : result ConnectionRequest Error).
    cbn [try_bind]. rewrite fold_fields_app, mediums_fold. cbn [try_bind app].
    unfold string_of. rewrite !lossy_valid, as_i64_u64 by done.
    by destruct kai, kat.
  - apply Forall_bind. eapply Forall_impl; [exact Hm|]. intros m Hm'. cbn in Hm'. wf_nums.
  - by apply wf_opt_varint.
  - by apply wf_opt_varint.
Qed.

Lemma parse_connection_response_fields r os :
  let os_info := encode [Varint OS_TYPE (OsType.as_u64 os)] in
  let fs := [Varint RSP_STATUS (if bool_decide (r = Response.Accept) then 0 else 1);
             Varint RSP_RESPONSE (Response.as_u64 r); Bytes RSP_OS_INFO os_info;
             Varint RSP_MULTIPLEX_BITMASK MULTIPLEX_SOCKET_BITMASK_NONE;
             Varint RSP_SAFE_TO_DISCONNECT SAFE_TO_DISCONNECT_VERSION;
             Varint RSP_KEEPALIVE_TIMEOUT KEEP_ALIVE_TIMEOUT_MILLIS] in
  fits (encode fs) ->
  parse_connection_response (encode fs)
  = Ok (mkConnectionResponse r os [] SAFE_TO_DISCONNECT_VERSION).
Proof.
  intros os_info fs Hf. assert (Ho : fits os_info) by fits_in Hf.
  assert (Hfs : Forall wf_num fs).
  { unfold fs. wf_nums. by case_bool_decide. }
  unfold parse_connection_response. rewrite !first_varint_read, !first_bytes_read by done.
  change (last_varint RSP_RESPONSE fs) with (Some (Response.as_u64 r)).
  change (last_bytes RSP_OS_INFO fs) with (Some os_info).
  change (last_bytes RSP_HANDSHAKE_DATA fs) with (@None (list byte)).
  change (last_varint RSP_SAFE_TO_DISCONNECT fs) with (Some SAFE_TO_DISCONNECT_VERSION).
  cbn [try_bind unwrap_or]. unfold os_info. rewrite first_varint_read by (done || wf_nums).
  change (last_varint OS_TYPE [Varint OS_TYPE (OsType.as_u64 os)])
    with (Some (OsType.as_u64 os)).
  cbn [try_bind unwrap_or]. by rewrite response_from_u64, os_type_from_u64.
Qed.

Definition header_fields (h : PayloadHeader) : list Field :=
  [Varint PH_ID (as_u64 (ph_id h));
   Varint PH_TYPE (PayloadType.as_u64 (ph_payload_type h));
   Varint PH_TOTAL_SIZE (as_u64 (ph_total_size h));
   Varint PH_IS_SENSITIVE (bool_u64 (ph_is_sensitive h))]
  ++ opt_name PH_FILE_NAME (ph_file_name h) ++ opt_name PH_PARENT_FOLDER (ph_parent_folder h).

Definition short_header_fields (h : PayloadHeader) : list Field :=
  [Varint PH_ID (as_u64 (ph_id h));
   Varint PH_TYPE (PayloadType.as_u64 (ph_payload_type h));
   Varint PH_TOTAL_SIZE (as_u64 (ph_total_size h))].

Definition chunk_fields (c : PayloadChunk) : list Field :=
  [Varint PC_FLAGS (pc_flags c); Varint PC_OFFSET (as_u64 (pc_offset c));
   Bytes PC_BODY (pc_body c)].

Definition payload_data_fields (h : PayloadHeader) (c : PayloadChunk) : list Field :=
  [Varint PT_PACKET_TYPE (PacketType.as_u64 PacketType.Data);
   Bytes PT_PAYLOAD_HEADER (encode (header_fields h));
   Bytes PT_PAYLOAD_CHUNK (encode (chunk_fields c))].

Definition payload_control_fields (h : PayloadHeader) (event offset : Z) : list Field :=
  [Varint PT_PACKET_TYPE (PacketType.as_u64 PacketType.Control);
   Bytes PT_PAYLOAD_HEADER (encode (short_header_fields h));
   Bytes PT_CONTROL_MESSAGE
     (encode [Varint CM_EVENT event; Varint CM_OFFSET (as_u64 offset)])].

Lemma payload_data_offline h c :
  payload_data h c =
  offline T_PAYLOAD_TRANSFER V1_PAYLOAD_TRANSFER (encode (payload_data_fields h c)).
Proof.
  unfold payload_data, payload_data_fields, header_fields, chunk_fields. f_equal.
  rewrite !written_new, !written_varint, !written_opt_name. by to_fields.
Qed.

Lemma payload_control_offline h event offset :
  payload_control h event offset =
  offline T_PAYLOAD_TRANSFER V1_PAYLOAD_TRANSFER
    (encode (payload_control_fields h event offset)).
Proof. unfold payload_control. by to_fields. Qed.

Definition wf_header (h : PayloadHeader) : Prop :=
  is_i64 (ph_id h) /\ is_i64 (ph_total_size h) /\
  valid (ph_file_name h) = true /\ valid (ph_parent_folder h) = true.

Definition wf_chunk (c : PayloadChunk) : Prop := is_u64 (pc_flags c) /\ is_i64 (pc_offset c).

Lemma parse_payload_data_fields h c :
  wf_header h -> wf_chunk c -> fits (encode (payload_data_fields h c)) ->
  parse_payload_transfer (encode (payload_data_fields h c))
  = Ok (mkPayloadTransfer PacketType.Data h (Some c) None).
Proof.
  intros (Hid & Hsz & Hn & Hp) (Hfl & Hoff) Hf.
  assert (Hh : fits (encode (header_fields h))) by fits_in Hf.
  assert (Hc : fits (encode (chunk_fields c))) by fits_in Hf.
  assert (W0 : Forall wf_num (payload_data_fields h c)) by wf_nums.
  assert (W1 : Forall wf_num (header_fields h)).
  { unfold header_fields. wf_nums; by apply wf_opt_name. }
  assert (W2 : Forall wf_num (chunk_fields c)) by wf_nums.
  unfold parse_payload_transfer. rewrite !first_varint_read, !first_bytes_read by done.
  change (last_bytes PT_PAYLOAD_HEADER _) with (Some (encode (header_fields h))).
  change (last_bytes PT_PAYLOAD_CHUNK _) with (Some (encode (chunk_fields c))).
  change (last_bytes PT_CONTROL_MESSAGE _) with (@None (list byte)).
  cbn [try_bind]. rewrite !first_varint_read, !first_bytes_read by done. cbn [try_bind].
  destruct h as [id ty sz sens name folder], c as [fl off body].
  cbn [ph_id ph_total_size ph_file_name ph_parent_folder pc_flags pc_offset] in *.
  destruct name as [|b0 name], folder as [|b1 folder];
    unfold header_fields, opt_name;
    cbn -[as_u64 as_i64 string_of PayloadType.from bool_u64];
    unfold string_of; rewrite ?lossy_valid, !as_i64_u64, payload_type_from_u64, bool_u64_nonzero
      by done; done.
Qed.

Lemma parse_payload_control_fields h event offset :
  is_i64 (ph_id h) -> is_i64 (ph_total_size h) -> is_u64 event -> is_i64 offset ->
  fits (encode (payload_control_fields h event offset)) ->
  parse_payload_transfer (encode (payload_control_fields h event offset))
  = Ok (mkPayloadTransfer PacketType.Control
          (mkPayloadHeader (ph_id h) (ph_payload_type h) (ph_total_size h) false [] [])
          None (Some (event, offset))).
Proof.
  intros Hid Hsz He Hoff Hf.
  assert (Hh : fits (encode (short_header_fields h))) by fits_in Hf.
  assert (Hc : fits (encode [Varint CM_EVENT event; Varint CM_OFFSET (as_u64 offset)]))
    by fits_in Hf.
  assert (W0 : Forall wf_num (payload_control_fields h event offset)) by wf_nums.
  assert (W1 : Forall wf_num (short_header_fields h)) by wf_nums.
  unfold parse_payload_transfer. rewrite !first_varint_read, !first_bytes_read by done.
  change (last_bytes PT_PAYLOAD_HEADER _) with (Some (encode (short_header_fields h))).
  change (last_bytes PT_PAYLOAD_CHUNK _) with (@None (list byte)).
  change (last_bytes PT_CONTROL_MESSAGE _) with
    (Some (encode [Varint CM_EVENT event; Varint CM_OFFSET (as_u64 offset)])).
  cbn [try_bind]. rewrite !first_varint_read, !first_bytes_read by (done || wf_nums).
  cbn -[as_u64 as_i64 PayloadType.from].
  by rewrite !as_i64_u64, payload_type_from_u64 by done.
Qed.

Lemma parse_keep_alive_body ack seq v1 :
  let fs := [Varint KA_ACK (bool_u64 ack); Varint KA_SEQ_NUM seq] in
  is_u64 seq -> fits (encode fs) ->
  parse_body T_KEEP_ALIVE v1 (encode fs) = Ok (FKeepAlive ack seq).
Proof.
  intros fs Hs Hf. cbv [parse_body].
  change (T_KEEP_ALIVE =? _) with false at 1 2 3. change (T_KEEP_ALIVE =? T_KEEP_ALIVE) with true.
  cbv iota. rewrite !first_varint_read by (done || (unfold fs; wf_nums)).
  cbn -[bool_u64]. by rewrite bool_u64_nonzero.
Qed.

Definition disconnection_fields (request_safe ack_safe : bool) : list Field :=
  (if request_safe then [Varint DC_REQUEST_SAFE 1] else [])
  ++ (if ack_safe then [Varint DC_ACK_SAFE 1] else []).

Lemma disconnection_offline request_safe ack_safe :
  disconnection request_safe ack_safe =
  offline T_DISCONNECTION V1_DISCONNECTION
    (encode (disconnection_fields request_safe ack_safe)).
Proof. by destruct request_safe, ack_safe. Qed.

Lemma parse_disconnection_body request_safe ack_safe :
  let b := encode (disconnection_fields request_safe ack_safe) in
  let fs := [Varint V1_TYPE T_DISCONNECTION; Bytes V1_DISCONNECTION b] in
  fits (encode fs) ->
  parse_body T_DISCONNECTION (encode fs) b = Ok (FDisconnection request_safe ack_safe).
Proof.
  intros b fs Hf. assert (Hb : fits b) by fits_in Hf. cbv [parse_body].
  change (T_DISCONNECTION =? _) with false at 1 2 3 4.
  change (T_DISCONNECTION =? T_DISCONNECTION) with true. cbv iota.
  rewrite first_bytes_read by (done || (unfold fs; wf_nums)).
  change (last_bytes V1_DISCONNECTION fs) with (Some b). cbn [try_bind unwrap_or].
  unfold b in *. rewrite !first_varint_read
    by (done || (unfold disconnection_fields; destruct request_safe, ack_safe; wf_nums)).
  by destruct request_safe, ack_safe.
Qed.

(** ** Properties *)

(** The frames the daemon can build, and what each parses to. *)
Inductive Message : Type :=
| MRequest (req : ConnectionRequest)
| MResponse (response : Response.t) (os : OsType.t)
| MData (header : PayloadHeader) (chunk : PayloadChunk)
| MControl (header : PayloadHeader) (event offset : Z)
| MUpgrade (body : list byte)
| MKeepAlive (ack : bool) (seq_num : Z)
| MDisconnection (request_safe ack_safe : bool).

Definition build (m : Message) : list byte :=
  match m with
  | MRequest req => connection_request req
  | MResponse response os => connection_response response os
  | MData header chunk => payload_data header chunk
  | MControl header event offset => payload_control header event offset
  | MUpgrade body => bandwidth_upgrade body
  | MKeepAlive ack seq_num => keep_alive ack seq_num
  | MDisconnection request_safe ack_safe => disconnection request_safe ack_safe
  end.

Definition frame_of (m : Message) : Frame :=
  match m with
  | MRequest req => FConnectionRequest req
  | MResponse response os => FConnectionResponse (mkConnectionResponse response os [] 1)
  | MData header chunk =>
      FPayloadTransfer (mkPayloadTransfer PacketType.Data header (Some chunk) None)
  | MControl h event offset =>
      FPayloadTransfer (mkPayloadTransfer PacketType.Control
        (mkPayloadHeader (ph_id h) (ph_payload_type h) (ph_total_size h) false [] [])
        None (Some (event, offset)))
  | MUpgrade body => FBandwidthUpgrade body
  | MKeepAlive ack seq_num => FKeepAlive ack seq_num
  | MDisconnection request_safe ack_safe => FDisconnection request_safe ack_safe
  end.

(** The types of the Rust arguments: machine integers in range, strings UTF-8. *)
Definition wf_message (m : Message) : Prop :=
  match m with
  | MRequest req => wf_request req
  | MData header chunk => wf_header header /\ wf_chunk chunk
  | MControl h event offset =>
      is_i64 (ph_id h) /\ is_i64 (ph_total_size h) /\ is_u64 event /\ is_i64 offset
  | MKeepAlive _ seq_num => is_u64 seq_num
  | _ => True
  end.

Lemma parse_build m : wf_message m -> fits (build m) -> parse (build m) = Ok (frame_of m).
Proof.
  intros Hm Hf. destruct m; cbn [build frame_of wf_message] in *.
  - rewrite connection_request_offline in *. rewrite parse_offline by (done || wf_nums).
    unfold parse_body. cbn [Z.eqb T_CONNECTION_REQUEST].
    by rewrite parse_connection_request_fields by (eauto using offline_fits).
  - revert Hf. unfold connection_response. to_fields. intros Hf.
    rewrite parse_offline by (done || wf_nums). unfold parse_body.
    rewrite parse_connection_response_fields by (eauto using offline_fits). done.
  - rewrite payload_data_offline in *. rewrite parse_offline by (done || wf_nums).
    unfold parse_body. destruct Hm.
    by rewrite parse_payload_data_fields by (eauto using offline_fits).
  - rewrite payload_control_offline in *. rewrite parse_offline by (done || wf_nums).
    unfold parse_body. destruct Hm as (? & ? & ? & ?).
    by rewrite parse_payload_control_fields by (eauto using offline_fits).
  - unfold bandwidth_upgrade in *. by rewrite parse_offline by (done || wf_nums).
  - revert Hf. unfold keep_alive. to_fields. intros Hf.
    rewrite parse_offline by (done || wf_nums).
    apply parse_keep_alive_body; [done|]. by eapply offline_fits.
  - rewrite disconnection_offline in *. rewrite parse_offline by (done || wf_nums).
    apply parse_disconnection_body. rewrite offline_fields in Hf. fits_in Hf.
Qed.

Lemma build_offline m : exists ty field body, build m = offline ty field body.
Proof.
  destruct m; cbn [build]; unfold bandwidth_upgrade, keep_alive, connection_response; eauto.
Qed.

Lemma v1_step_bodies ty fs o :
  Forall (fun f => exists k b, f = Bytes k b) fs ->
  exists o', fold_fields v1_step fs (ty, o) = Ok (ty, o').
Proof.
  intros H. revert o. induction H as [|f fs (k & b & ->) _ IH]; intros o; cbn; [eauto|].
  apply IH.
Qed.

Lemma first_bytes_prefix fs extra n :
  Forall wf_num fs -> Forall wf_num extra -> Forall (no_bytes n) extra ->
  fits (encode fs ++ encode extra) ->
  first_bytes (encode fs ++ encode extra) n = first_bytes (encode fs) n.
Proof.
  intros Hfs He Hn Hf. destruct (fits_app _ _ Hf) as [Hf1 _].
  rewrite <- encode_app in *. rewrite !first_bytes_read by (done || by apply Forall_app).
  by rewrite last_bytes_skip.
Qed.

(** Every frame the daemon builds parses back to the value it was built from, and still
    does when a newer peer's unknown fields follow the envelope's own. *)
Theorem parse_inverts_build m extra :
  wf_message m -> Forall wf_num extra -> Forall (no_bytes OF_V1) extra ->
  fits (build m ++ encode extra) ->
  parse (build m ++ encode extra) = Ok (frame_of m).
Proof.
  intros Hm He Hn Hf. destruct (fits_app _ _ Hf) as [Hf1 _].
  rewrite <- (parse_build m Hm Hf1).
  destruct (build_offline m) as (ty & field & body & Hb).
  rewrite Hb, offline_fields in *. unfold parse.
  rewrite first_bytes_prefix; [done|wf_nums|done..].
Qed.

Lemma parse_inverts_build_witness :
  parse (build (MDisconnection true false) ++ encode [Varint 9 300; Bytes 17 (str "x")])
  = Ok (FDisconnection true false).
Proof.
  apply (parse_inverts_build (MDisconnection true false) [Varint 9 300; Bytes 17 (str "x")]);
    [exact I|repeat constructor; done|repeat constructor; done|vm_compute; discriminate].
Defined.

(** The body handed to a frame's parser is the LAST length-delimited field of the
    [V1Frame], whatever its number: the number of the field is not compared with the type,
    so an unrelated trailing field replaces the body the type names. *)
Theorem parse_takes_last_body ty fs n body :
  let v1 := Varint V1_TYPE ty :: fs ++ [Bytes n body] in
  is_u64 ty -> Forall wf_num fs -> Forall (fun f => exists k b, f = Bytes k b) fs ->
  is_u32 n -> fits (encode [Varint OF_VERSION VERSION_V1; Bytes OF_V1 (encode v1)]) ->
  parse (encode [Varint OF_VERSION VERSION_V1; Bytes OF_V1 (encode v1)])
  = parse_body ty (encode v1) body.
Proof.
  intros v1 Hty Hfs Hb Hn Hf. assert (H1 : fits (encode v1)) by fits_in Hf.
  assert (Hw : Forall wf_num v1) by (unfold v1; wf_nums).
  unfold parse. rewrite first_bytes_read by (done || wf_nums).
  change (last_bytes OF_V1 _) with (Some (encode v1)). cbn [try_bind ok_or].
  rewrite read_encoded by done. unfold v1. cbn [fold_fields v1_step try_bind].
  change (V1_TYPE =? V1_TYPE) with true. cbn [try_bind].
  rewrite fold_fields_app.
  destruct (v1_step_bodies (Some ty) fs None Hb) as [o' ->]. done.
Qed.

Lemma parse_takes_last_body_witness :
  let v1 := [Varint V1_TYPE T_BANDWIDTH_UPGRADE; Bytes V1_BANDWIDTH_UPGRADE (str "upgrade");
             Bytes 15 (str "other")] in
  parse (encode [Varint OF_VERSION VERSION_V1; Bytes OF_V1 (encode v1)])
  = Ok (FBandwidthUpgrade (str "other")).
Proof.
  apply (parse_takes_last_body T_BANDWIDTH_UPGRADE
           [Bytes V1_BANDWIDTH_UPGRADE (str "upgrade")] 15 (str "other"));
    [done|repeat constructor; done|repeat constructor; eauto|done|vm_compute; discriminate].
Defined.
