(* ===== verification/Payload.v ===== *)
(** * Payload reassembly ([protocol/src/payload.rs])

    The [Assembler] keeps one [InFlight] entry per payload id.  [accept] is one
    [PayloadTransfer] frame.  The theorems bound the memory a peer can make it hold, show
    that it is a product of independent per-payload machines coupled only by the cap on
    their number, and that any interleaving of well-formed payloads is reassembled. *)

From stdpp Require Import gmap.
From S2P Require Import Prelude Frames.

Definition MAX_BYTES_PAYLOAD : Z := 1024 * 1024.
Definition MAX_IN_FLIGHT : Z := 32.

Inductive Event : Type :=
| EvBytes (id : Z) (data : list byte)
| EvFileChunk (id offset : Z) (data : list byte) (last : bool) (header : PayloadHeader)
| EvCancelled (id : Z)
| EvFailed (id : Z)
| EvPending.

Inductive Error : Type :=
| EOffset (id expected got : Z)
| EOverrun (id declared : Z)
| ETooLarge (id limit : Z)
| ENegative (id : Z)
| ETooManyInFlight (id limit : Z).

Record InFlight : Type := mkInFlight {
  if_header : PayloadHeader;
  if_received : Z;
  if_buffer : list byte
}.

Module Assembler.

Record t : Type := mk { in_flight_map : gmap Z InFlight }.

Definition new : t := mk ∅.

Definition contains (id : Z) (a : t) : bool := is_some (in_flight_map a !! id).
Definition remove (id : Z) (a : t) : t := mk (delete id (in_flight_map a)).
Definition insert (id : Z) (p : InFlight) (a : t) : t := mk (<[id := p]> (in_flight_map a)).

(** [HashMap::len]. *)
Definition in_flight (a : t) : Z := Z.of_nat (size (in_flight_map a)).

(** [i64::saturating_add]. *)
Definition saturating_add (a b : Z) : Z := Z.max (- 2 ^ 63) (Z.min i64_max (a + b)).

Definition accept (pt : PayloadTransfer) (a : t) : result Event Error * t :=
  let id := ph_id (pt_header pt) in
  match pt_packet_type pt with
  | PacketType.Control =>
      let event := unwrap_or (map_opt fst (pt_control pt)) 0 in
      let a := remove id a in
      (Ok (if event =? 2 then EvCancelled id else EvFailed id), a)
  | PacketType.Data =>
      match pt_chunk pt with
      | None => (Ok EvPending, a)
      | Some chunk =>
          if (pc_offset chunk <? 0) || (ph_total_size (pt_header pt) <? 0)
          then (Err (ENegative id), a)
          else if negb (contains id a) && (MAX_IN_FLIGHT <=? in_flight a)
          then (Err (ETooManyInFlight id MAX_IN_FLIGHT), a)
          else
            let entry := match in_flight_map a !! id with
                         | Some p => p
                         | None => mkInFlight (pt_header pt) 0 []
                         end in
            if negb (pc_offset chunk =? if_received entry)
            then (Err (EOffset id (if_received entry) (pc_offset chunk)), remove id a)
            else
              let n := as_i64 (len (pc_body chunk)) in
              let total := saturating_add (if_received entry) n in
              let declared := ph_total_size (if_header entry) in
              if (0 <? declared) && (declared <? total)
              then (Err (EOverrun id declared), remove id a)
              else
                let is_bytes :=
                  bool_decide (ph_payload_type (if_header entry) = PayloadType.Bytes) in
                if is_bytes && (MAX_BYTES_PAYLOAD <? as_u64 total)
                then (Err (ETooLarge id MAX_BYTES_PAYLOAD), remove id a)
                else
                  let last := is_last chunk in
                  if is_bytes then
                    let buffer := if_buffer entry ++ pc_body chunk in
                    if last then (Ok (EvBytes id buffer), remove id a)
                    else (Ok EvPending, insert id (mkInFlight (if_header entry) total buffer) a)
                  else
                    let a := if last then remove id a
                             else insert id
                                    (mkInFlight (if_header entry) total (if_buffer entry)) a in
                    (Ok (EvFileChunk id (pc_offset chunk) (pc_body chunk) last
                           (if_header entry)), a)
      end
  | _ => (Ok EvPending, a)
  end.

Definition cancel (id : Z) (a : t) : t := remove id a.

Definition received (id : Z) (a : t) : Z :=
  unwrap_or (map_opt if_received (in_flight_map a !! id)) 0.

End Assembler.

(** A sequence of frames, each with what the assembler answered. *)
Fixpoint accept_all (pts : list PayloadTransfer) (a : Assembler.t)
    : list (Z * result Event Error) * Assembler.t :=
  match pts with
  | [] => ([], a)
  | pt :: pts =>
      let (r, a) := Assembler.accept pt a in
      let (rs, a) := accept_all pts a in
      ((ph_id (pt_header pt), r) :: rs, a)
  end.

(** ** The invariant *)

Definition pt_body_len (pt : PayloadTransfer) : Z :=
  match pt_chunk pt with Some c => len (pc_body c) | None => 0 end.

(** A chunk body is a [Vec]. *)
Definition wf_transfer (pt : PayloadTransfer) : Prop := pt_body_len pt <= isize_max.

Definition wf_in_flight (p : InFlight) : Prop :=
  0 <= if_received p <= i64_max /\
  (ph_total_size (if_header p) > 0 -> if_received p <= ph_total_size (if_header p)) /\
  (if bool_decide (ph_payload_type (if_header p) = PayloadType.Bytes)
   then len (if_buffer p) = if_received p /\ if_received p <= MAX_BYTES_PAYLOAD
   else if_buffer p = []).

Definition Inv (a : Assembler.t) : Prop :=
  Assembler.in_flight a <= MAX_IN_FLIGHT /\
  map_Forall (fun _ => wf_in_flight) (Assembler.in_flight_map a).

(** Bytes held for payloads that are part-way through. *)
Definition buffered (a : Assembler.t) : Z :=
  map_fold (fun _ p n => len (if_buffer p) + n) 0 (Assembler.in_flight_map a).

Lemma Inv_new : Inv Assembler.new.
Proof. split; [done|apply map_Forall_empty]. Qed.

Lemma as_i64_len {A} (l : list A) : len l <= isize_max -> as_i64 (len l) = len l.
Proof.
  intros H. pose proof (len_nonneg l). unfold_ints. rewrite Z.mod_small; lia.
Qed.

(** ** One payload's machine

    What [accept] does to the entry of the frame's own id; [full] says whether a new id
    would be refused. *)

Definition accept1 (full : bool) (pt : PayloadTransfer) (o : option InFlight)
    : result Event Error * option InFlight :=
  let h := pt_header pt in
  let id := ph_id h in
  match pt_packet_type pt, pt_chunk pt with
  | PacketType.Control, _ =>
      (Ok (if unwrap_or (map_opt fst (pt_control pt)) 0 =? 2
           then EvCancelled id else EvFailed id), None)
  | PacketType.Data, Some c =>
      if (pc_offset c <? 0) || (ph_total_size h <? 0) then (Err (ENegative id), o)
      else if negb (is_some o) && full then (Err (ETooManyInFlight id MAX_IN_FLIGHT), o)
      else
        let '(mkInFlight h received buffer) := unwrap_or o (mkInFlight h 0 []) in
        let total := Assembler.saturating_add received (as_i64 (len (pc_body c))) in
        let is_bytes := bool_decide (ph_payload_type h = PayloadType.Bytes) in
        let buffer := if is_bytes then buffer ++ pc_body c else buffer in
        if negb (pc_offset c =? received)
        then (Err (EOffset id received (pc_offset c)), None)
        else if (0 <? ph_total_size h) && (ph_total_size h <? total)
        then (Err (EOverrun id (ph_total_size h)), None)
        else if is_bytes && (MAX_BYTES_PAYLOAD <? as_u64 total)
        then (Err (ETooLarge id MAX_BYTES_PAYLOAD), None)
        else
          (Ok (if is_bytes then if is_last c then EvBytes id buffer else EvPending
               else EvFileChunk id (pc_offset c) (pc_body c) (is_last c) h),
           if is_last c then None else Some (mkInFlight h total buffer))
  | _, _ => (Ok EvPending, o)
  end.

Definition full (a : Assembler.t) : bool := MAX_IN_FLIGHT <=? Assembler.in_flight a.

Definition update (id : Z) (o : option InFlight) (a : Assembler.t) : Assembler.t :=
  Assembler.mk (partial_alter (fun _ => o) id (Assembler.in_flight_map a)).

Lemma update_same id a : update id (Assembler.in_flight_map a !! id) a = a.
Proof. destruct a as [m]. unfold update. cbn. by rewrite partial_alter_self. Qed.

Lemma accept_accept1 pt a :
  let id := ph_id (pt_header pt) in
  let (r, o) := accept1 (full a) pt (Assembler.in_flight_map a !! id) in
  Assembler.accept pt a = (r, update id o a).
Proof.
  intros id. unfold accept1, Assembler.accept. fold id.
  assert (Hsame := update_same id a).
  destruct (pt_packet_type pt); try (by rewrite Hsame); [|done].
  destruct (pt_chunk pt) as [c|]; [|by rewrite Hsame].
  destruct ((pc_offset c <? 0) || _); [by rewrite Hsame|].
  unfold Assembler.contains. fold (full a).
  destruct (negb (is_some _) && full a); [by rewrite Hsame|].
  replace (match Assembler.in_flight_map a !! id with
           | Some p => p | None => mkInFlight (pt_header pt) 0 [] end)
    with (unwrap_or (Assembler.in_flight_map a !! id) (mkInFlight (pt_header pt) 0 []))
    by (by destruct (_ !! _)).
  destruct (unwrap_or _ _) as [h received buffer]. cbn [if_header if_received if_buffer].
  destruct (negb (_ =? received)); [done|]. destruct (_ && (_ <? _)); [done|].
  destruct (_ && _); [done|]. by case_bool_decide; destruct (is_last c).
Qed.

Lemma accept_eq pt a r o :
  accept1 (full a) pt (Assembler.in_flight_map a !! ph_id (pt_header pt)) = (r, o) ->
  Assembler.accept pt a = (r, update (ph_id (pt_header pt)) o a).
Proof. intros H. pose proof (accept_accept1 pt a) as H1. cbn zeta in H1. by rewrite H in H1. Qed.

(** A new entry appears only below the cap. *)
Lemma accept1_new f pt r o :
  accept1 f pt None = (r, Some o) -> f = false.
Proof. unfold accept1. intros H. repeat case_match; simplify_eq; by destruct f. Qed.

Lemma accept1_wf f pt o r p :
  wf_transfer pt -> (forall q, o = Some q -> wf_in_flight q) ->
  accept1 f pt o = (r, Some p) -> wf_in_flight p.
Proof.
  unfold accept1, wf_transfer, pt_body_len. intros Hlen Ho H.
  destruct (pt_packet_type pt); try (injection H as <- ->; by apply Ho); [|done].
  destruct (pt_chunk pt) as [c|]; [|injection H as <- ->; by apply Ho].
  destruct ((pc_offset c <? 0) || _); [injection H as <- ->; by apply Ho|].
  destruct (negb (is_some _) && f); [injection H as <- ->; by apply Ho|].
  assert (Hq : wf_in_flight (unwrap_or o (mkInFlight (pt_header pt) 0 []))).
  { destruct o as [q|]; [by apply Ho|]. unfold wf_in_flight. cbn. unfold_ints.
    split; [lia|]. split; [lia|]. by case_bool_decide. }
  destruct (unwrap_or _ _) as [h received buffer].
  destruct Hq as (Hr & Ht & Hb). cbn [if_header if_received if_buffer] in *.
  rewrite as_i64_len in H by done. pose proof (len_nonneg (pc_body c)).
  set (total := Assembler.saturating_add received (len (pc_body c))) in *.
  assert (Htot : total = Z.min i64_max (received + len (pc_body c)))
    by (unfold total, Assembler.saturating_add; unfold_ints; lia).
  clearbody total.
  destruct (negb (_ =? received)); [done|].
  destruct (_ && (_ <? total)) eqn:Hover; [done|].
  destruct (_ && (_ <? as_u64 total)) eqn:Hlarge; [done|].
  destruct (is_last c); [done|]. injection H as <- <-.
  unfold wf_in_flight. cbn [if_header if_received if_buffer].
  split; [unfold_ints; lia|]. split; [lia|].
  destruct (bool_decide (ph_payload_type h = PayloadType.Bytes)); [|done].
  simpl_len. cbn in Hlarge. rewrite as_u64_small in Hlarge by (unfold_ints; lia).
  unfold MAX_BYTES_PAYLOAD in *. unfold_ints. lia.
Qed.

Lemma accept_Inv pt a : Inv a -> wf_transfer pt -> Inv (snd (Assembler.accept pt a)).
Proof.
  intros [Hn Hw] Hpt. set (id := ph_id (pt_header pt)).
  destruct (accept1 (full a) pt (Assembler.in_flight_map a !! id)) as [r o] eqn:H1.
  rewrite (accept_eq _ _ _ _ H1). cbn [snd]. fold id.
  unfold Inv, Assembler.in_flight, update in *. cbn [Assembler.in_flight_map].
  destruct o as [p|].
  - assert (Hp : wf_in_flight p) by (eapply accept1_wf; [done| |exact H1]; by apply Hw).
    change (partial_alter (fun _ => Some p) id (Assembler.in_flight_map a))
      with (<[id := p]> (Assembler.in_flight_map a)).
    split; [|by apply map_Forall_insert_2].
    rewrite map_size_insert. destruct (_ !! id) eqn:Hl; cbn; [lia|].
    apply accept1_new in H1. unfold full, Assembler.in_flight in H1. lia.
  - change (partial_alter (fun _ => None) id (Assembler.in_flight_map a))
      with (delete id (Assembler.in_flight_map a)).
    split; [|by apply map_Forall_delete].
    rewrite map_size_delete. destruct (_ !! id); cbn; lia.
Qed.

Lemma accept_all_Inv pts a : Inv a -> Forall wf_transfer pts -> Inv (snd (accept_all pts a)).
Proof.
  intros HI Hp. revert a HI. induction Hp as [|pt pts Hpt _ IH]; intros a HI; [done|].
  cbn [accept_all]. pose proof (accept_Inv _ _ HI Hpt) as H1.
  destruct (Assembler.accept pt a) as [r a1]. specialize (IH a1 H1).
  by destruct (accept_all pts a1).
Qed.

Lemma buffered_le a :
  map_Forall (fun _ => wf_in_flight) (Assembler.in_flight_map a) ->
  buffered a <= MAX_BYTES_PAYLOAD * Assembler.in_flight a.
Proof.
  unfold buffered, Assembler.in_flight. destruct a as [m]. cbn [Assembler.in_flight_map].
  induction m as [|id p m Hid IH] using map_ind; [done|].
  intros [Hp Hm]%map_Forall_insert; [|done]. specialize (IH Hm).
  rewrite map_fold_insert_L; [|intros; lia|done]. rewrite map_size_insert_None by done.
  assert (len (if_buffer p) <= MAX_BYTES_PAYLOAD); [|unfold MAX_BYTES_PAYLOAD in *; lia].
  destruct Hp as (_ & _ & Hb). case_bool_decide; [lia|]. by rewrite Hb.
Qed.

(** *** Independence *)

Lemma accept_other pt a id :
  id <> ph_id (pt_header pt) ->
  Assembler.in_flight_map (snd (Assembler.accept pt a)) !! id
  = Assembler.in_flight_map a !! id.
Proof.
  intros Hid. destruct (accept1 (full a) pt
    (Assembler.in_flight_map a !! ph_id (pt_header pt))) as [r o] eqn:H1.
  rewrite (accept_eq _ _ _ _ H1). cbn. by rewrite lookup_partial_alter_ne.
Qed.

Lemma accept_own pt a r o :
  accept1 (full a) pt (Assembler.in_flight_map a !! ph_id (pt_header pt)) = (r, o) ->
  fst (Assembler.accept pt a) = r /\
  Assembler.in_flight_map (snd (Assembler.accept pt a)) !! ph_id (pt_header pt) = o.
Proof. intros H. rewrite (accept_eq _ _ _ _ H). cbn. by rewrite lookup_partial_alter_eq. Qed.

(** One payload on its own, never refused for want of room. *)
Fixpoint accept1_all (pts : list PayloadTransfer) (o : option InFlight)
    : list (result Event Error) * option InFlight :=
  match pts with
  | [] => ([], o)
  | pt :: pts =>
      let (r, o) := accept1 false pt o in
      let (rs, o) := accept1_all pts o in (r :: rs, o)
  end.

Definition for_id (id : Z) (pt : PayloadTransfer) : Prop := ph_id (pt_header pt) = id.
#[export] Instance for_id_dec id pt : Decision (for_id id pt).
Proof. unfold for_id. apply _. Defined.

(** The answers given to the frames of one payload. *)
Definition answers (id : Z) (rs : list (Z * result Event Error)) : list (result Event Error) :=
  snd <$> filter (fun r => fst r = id) rs.

Definition ids (pts : list PayloadTransfer) : gset Z :=
  list_to_set ((fun pt => ph_id (pt_header pt)) <$> pts).

Lemma not_full_new a pts id :
  id ∈ ids pts -> dom (Assembler.in_flight_map a) ⊆ ids pts ->
  Z.of_nat (size (ids pts)) <= MAX_IN_FLIGHT ->
  Assembler.in_flight_map a !! id = None -> full a = false.
Proof.
  intros Hid Hd Hn Hl. unfold full, Assembler.in_flight. apply Z.leb_gt.
  rewrite <- size_dom. apply not_elem_of_dom in Hl.
  assert (Hs : (size ({[id]} ∪ dom (Assembler.in_flight_map a)) <= size (ids pts))%nat)
    by (apply subseteq_size; set_solver).
  rewrite size_union, size_singleton in Hs by set_solver. lia.
Qed.

Lemma accept1_full f pt o :
  (o = None -> f = false) -> accept1 f pt o = accept1 false pt o.
Proof.
  intros Ho. destruct o as [p|]; [|by rewrite Ho]. unfold accept1. cbn [is_some negb andb].
  done.
Qed.

(** Below the cap, the answers to a payload's frames depend on those frames only. *)
Lemma answers_independent I pts a id :
  ids pts ⊆ I -> dom (Assembler.in_flight_map a) ⊆ I -> Z.of_nat (size I) <= MAX_IN_FLIGHT ->
  answers id (fst (accept_all pts a)) =
  fst (accept1_all (filter (for_id id) pts) (Assembler.in_flight_map a !! id)).
Proof.
  intros Hp Hd Hn. revert a Hp Hd. induction pts as [|pt pts IH]; intros a Hp Hd; [done|].
  cbn [accept_all]. set (i := ph_id (pt_header pt)).
  assert (Hi : i ∈ I) by (unfold ids in Hp; cbn in Hp; fold i in Hp; set_solver).
  assert (Hps : ids pts ⊆ I) by (unfold ids in *; cbn in Hp; set_solver).
  assert (Hfull : Assembler.in_flight_map a !! i = None -> full a = false).
  { intros Hl. unfold full, Assembler.in_flight. apply Z.leb_gt. rewrite <- size_dom.
    apply not_elem_of_dom in Hl.
    assert (Hs : (size ({[i]} ∪ dom (Assembler.in_flight_map a)) <= size I)%nat)
      by (apply subseteq_size; set_solver).
    rewrite size_union, size_singleton in Hs by set_solver. lia. }
  destruct (accept1 (full a) pt (Assembler.in_flight_map a !! i)) as [r o] eqn:H1.
  pose proof (accept_eq _ _ _ _ H1) as Ha. rewrite Ha. fold i.
  rewrite accept1_full in H1 by done.
  assert (Hd' : dom (Assembler.in_flight_map (update i o a)) ⊆ I).
  { unfold update. cbn. destruct o as [p|].
    - change (partial_alter _ i _) with (<[i := p]> (Assembler.in_flight_map a)).
      rewrite dom_insert. set_solver.
    - change (partial_alter _ i _) with (delete i (Assembler.in_flight_map a)).
      rewrite dom_delete. set_solver. }
  specialize (IH (update i o a) Hps Hd').
  destruct (accept_all pts (update i o a)) as [rs a2]. cbn [fst] in *.
  unfold answers in *. rewrite !filter_cons. cbn [fst]. unfold for_id at 1. fold i.
  destruct (decide (i = id)) as [<-|Hne].
  - cbn [accept1_all]. rewrite H1. cbn in IH. rewrite lookup_partial_alter_eq in IH.
    rewrite fmap_cons, IH. by destruct (accept1_all _ o).
  - cbn in IH. by rewrite lookup_partial_alter_ne in IH.
Qed.

(** ** A payload as its sender cuts it *)

Definition data_frame (h : PayloadHeader) (offset : Z) (body : list byte) (last : bool)
    : PayloadTransfer :=
  mkPayloadTransfer PacketType.Data h
    (Some (mkPayloadChunk (if last then FLAG_LAST_CHUNK else 0) offset body)) None.

Fixpoint data_frames (h : PayloadHeader) (offset : Z) (bodies : list (list byte))
    : list PayloadTransfer :=
  match bodies with
  | [] => []
  | b :: bodies =>
      data_frame h offset b (is_empty bodies) :: data_frames h (offset + len b) bodies
  end.

(** What the receiver should see of it. *)
Fixpoint file_chunks (h : PayloadHeader) (offset : Z) (bodies : list (list byte))
    : list (result Event Error) :=
  match bodies with
  | [] => []
  | b :: bodies =>
      Ok (EvFileChunk (ph_id h) offset b (is_empty bodies) h)
      :: file_chunks h (offset + len b) bodies
  end.

Definition delivered (h : PayloadHeader) (bodies : list (list byte))
    : list (result Event Error) :=
  if bool_decide (ph_payload_type h = PayloadType.Bytes)
  then replicate (length bodies - 1) (Ok EvPending)
       ++ [Ok (EvBytes (ph_id h) (mjoin bodies))]
  else file_chunks h 0 bodies.

(** The declared size is honest (0 when undeclared), and a BYTES payload is within its cap. *)
Definition honest (h : PayloadHeader) (size : Z) : Prop :=
  size <= i64_max /\ (ph_total_size h = 0 \/ size <= ph_total_size h) /\
  (ph_payload_type h = PayloadType.Bytes -> size <= MAX_BYTES_PAYLOAD).

(** One honest chunk in the state its predecessors left. *)
Lemma accept1_chunk h off b last o :
  0 <= off -> 0 <= ph_total_size h -> honest h (off + len b) ->
  (o = None /\ off = 0 \/ exists buffer, o = Some (mkInFlight h off buffer)) ->
  let buffer := match o with Some p => if_buffer p | None => [] end in
  let is_bytes := bool_decide (ph_payload_type h = PayloadType.Bytes) in
  let buffer := if is_bytes then buffer ++ b else buffer in
  accept1 false (data_frame h off b last) o =
  (Ok (if is_bytes then if last then EvBytes (ph_id h) buffer else EvPending
       else EvFileChunk (ph_id h) off b last h),
   if last then None else Some (mkInFlight h (off + len b) buffer)).
Proof.
  intros Hoff Hsz (Hmax & Hdecl & Hcap) Ho. cbn zeta. pose proof (len_nonneg b).
  unfold accept1, data_frame.
  cbn [pt_header pt_packet_type pt_chunk pc_offset pc_body].
  rewrite (proj2 (Z.ltb_ge off 0)), (proj2 (Z.ltb_ge (ph_total_size h) 0)) by lia.
  cbn [orb]. rewrite andb_false_r.
  assert (Hu : unwrap_or o (mkInFlight h 0 [])
               = mkInFlight h off (match o with Some p => if_buffer p | None => [] end)).
  { by destruct Ho as [[-> ->]|[buffer ->]]. }
  rewrite Hu, Z.eqb_refl. cbn [negb].
  rewrite as_i64_len by (unfold_ints; lia).
  assert (Ht : Assembler.saturating_add off (len b) = off + len b)
    by (unfold Assembler.saturating_add; unfold_ints; lia).
  rewrite Ht.
  assert (Hover : (0 <? ph_total_size h) && (ph_total_size h <? off + len b) = false) by lia.
  rewrite Hover.
  assert (Hl : is_last (mkPayloadChunk (if last then FLAG_LAST_CHUNK else 0) off b) = last)
    by (by destruct last).
  rewrite Hl.
  assert (Hlarge : bool_decide (ph_payload_type h = PayloadType.Bytes)
                   && (MAX_BYTES_PAYLOAD <? as_u64 (off + len b)) = false).
  { case_bool_decide as Hty; [|done]. rewrite as_u64_small by (unfold_ints; lia).
    specialize (Hcap Hty). cbn. lia. }
  rewrite Hlarge. done.
Qed.

Lemma accept1_payload h off bodies o :
  bodies <> [] -> 0 <= off -> 0 <= ph_total_size h ->
  honest h (off + len (mjoin bodies)) ->
  (o = None /\ off = 0 \/ exists buffer, o = Some (mkInFlight h off buffer)) ->
  let buffer := match o with Some p => if_buffer p | None => [] end in
  fst (accept1_all (data_frames h off bodies) o) =
  if bool_decide (ph_payload_type h = PayloadType.Bytes)
  then replicate (length bodies - 1) (Ok EvPending)
       ++ [Ok (EvBytes (ph_id h) (buffer ++ mjoin bodies))]
  else file_chunks h off bodies.
Proof.
  intros Hne Hoff Hsz. revert off o Hoff Hne.
  induction bodies as [|b bodies IH]; intros off o Hoff Hne Hh Ho buffer; [done|].
  rewrite len_mjoin_cons in Hh. pose proof (len_nonneg b). pose proof (len_nonneg (mjoin bodies)).
  cbn [data_frames accept1_all].
  rewrite accept1_chunk; [|done|done| |done].
  2:{ destruct Hh as (Hh1 & Hh2 & Hh3). split; [lia|]. split; [lia|].
      intros Hb%Hh3. lia. }
  destruct bodies as [|b2 bodies].
  - cbn [is_empty]. case_bool_decide; [|done]. cbn. fold buffer. by rewrite app_nil_r.
  - cbn [is_empty].
    specialize (IH (off + len b) (Some (mkInFlight h (off + len b)
      (if bool_decide (ph_payload_type h = PayloadType.Bytes)
       then buffer ++ b else buffer))) ltac:(lia) ltac:(done)).
    rewrite Z.add_assoc in Hh. specialize (IH Hh ltac:(right; eauto)). cbn zeta in IH.
    fold buffer. destruct (accept1_all (data_frames h _ _) _) as [rs o'].
    cbn [fst if_buffer] in *. rewrite IH.
    destruct (bool_decide _); [|done].
    change (mjoin (b :: b2 :: bodies)) with (b ++ mjoin (b2 :: bodies)).
    rewrite app_assoc. cbn [length]. rewrite Nat.sub_succ, !Nat.sub_0_r. done.
Qed.

(** ** Properties *)

(** Whatever a peer sends, at most 32 payloads are ever part-way through, a BYTES payload
    buffers exactly the bytes it received and never more than 1 MiB, nothing else is
    buffered, no payload exceeds its declared size, and so at most 32 MiB are held. *)
Theorem assembler_bounded pts :
  Forall wf_transfer pts ->
  let a := snd (accept_all pts Assembler.new) in
  Inv a /\ buffered a <= MAX_IN_FLIGHT * MAX_BYTES_PAYLOAD.
Proof.
  intros Hp a. pose proof (accept_all_Inv pts _ Inv_new Hp) as HI. split; [done|].
  destruct HI as [Hn Hw]. pose proof (buffered_le a Hw).
  unfold MAX_BYTES_PAYLOAD, MAX_IN_FLIGHT in *. fold a in Hn. lia.
Qed.

Lemma assembler_bounded_witness :
  let h := mkPayloadHeader 7 PayloadType.Bytes 0 false [] [] in
  buffered (snd (accept_all [data_frame h 0 (str "abc") false; data_frame h 9 (str "x") true]
                   Assembler.new)) <= MAX_IN_FLIGHT * MAX_BYTES_PAYLOAD.
Proof.
  intros h.
  refine (proj2 (assembler_bounded
    [data_frame h 0 (str "abc") false; data_frame h 9 (str "x") true] _)).
  repeat constructor; vm_compute; discriminate.
Defined.

(** Among at most 32 payloads, however their frames interleave, a payload whose sender
    cut it into consecutive chunks and declared its size honestly is delivered: a BYTES
    payload once, whole; any other chunk by chunk, each at the offset the previous ended. *)
Theorem reassembles_interleaved pts h bodies :
  filter (for_id (ph_id h)) pts = data_frames h 0 bodies ->
  bodies <> [] -> 0 <= ph_total_size h -> honest h (len (mjoin bodies)) ->
  Z.of_nat (size (ids pts)) <= MAX_IN_FLIGHT ->
  answers (ph_id h) (fst (accept_all pts Assembler.new)) = delivered h bodies.
Proof.
  intros Hf Hne Hsz Hh Hn.
  rewrite (answers_independent (ids pts)) by (done || set_solver). rewrite Hf.
  change (Assembler.in_flight_map Assembler.new) with (∅ : gmap Z InFlight).
  rewrite lookup_empty, accept1_payload by (done || auto). done.
Qed.

Lemma reassembles_interleaved_witness :
  let h := mkPayloadHeader 7 PayloadType.Bytes 0 false [] [] in
  let g := mkPayloadHeader 8 PayloadType.File 5 false (str "a.txt") [] in
  answers 7 (fst (accept_all
    [data_frame h 0 (str "ab") false; data_frame g 0 (str "hello") true;
     data_frame g 3 (str "?") false; data_frame h 2 (str "cd") true] Assembler.new))
  = [Ok EvPending; Ok (EvBytes 7 (str "abcd"))].
Proof.
  intros h g.
  apply (reassembles_interleaved
    [data_frame h 0 (str "ab") false; data_frame g 0 (str "hello") true;
     data_frame g 3 (str "?") false; data_frame h 2 (str "cd") true] h [str "ab"; str "cd"]);
    [vm_compute; reflexivity|done|done| |vm_compute; discriminate].
  split; [vm_compute; discriminate|]. split; [by left|]. intros _. vm_compute. discriminate.
Defined.

(** C21: a data chunk that does not start exactly where the payload's previous chunk ended,
    or that would take it past its declared size or a BYTES payload past its cap, is refused
    and the payload forgotten; every other payload is untouched. *)
Theorem accept_refuses h off body last a :
  let id := ph_id h in
  let pt := data_frame h off body last in
  let p := unwrap_or (Assembler.in_flight_map a !! id) (mkInFlight h 0 []) in
  let declared := ph_total_size (if_header p) in
  let total := if_received p + len body in
  Inv a -> fits body -> 0 <= off -> 0 <= ph_total_size h ->
  (Assembler.in_flight_map a !! id = None -> full a = false) ->
  off <> if_received p \/ (0 < declared < total /\ total <= i64_max)
  \/ (ph_payload_type (if_header p) = PayloadType.Bytes /\ MAX_BYTES_PAYLOAD < total) ->
  exists e, Assembler.accept pt a = (Err e, Assembler.remove id a).
Proof.
  intros id pt p declared total [Hn Hw] Hfit Hoff Hsz Hfull Hbad.
  assert (Hp : wf_in_flight p).
  { unfold p. destruct (_ !! id) as [q|] eqn:Hl; [by apply (Hw _ _ Hl)|].
    unfold wf_in_flight. cbn. unfold_ints. repeat split; try lia. by case_bool_decide. }
  destruct (accept1 (full a) pt (Assembler.in_flight_map a !! ph_id (pt_header pt)))
    as [r o] eqn:H1.
  rewrite (accept_eq _ _ _ _ H1). rewrite accept1_full in H1 by exact Hfull.
  assert (Ho : exists e, r = Err e /\ o = None); [|by destruct Ho as (e & -> & ->); exists e].
  unfold accept1, pt, data_frame in H1.
  cbn [pt_header pt_packet_type pt_chunk pc_offset pc_body] in H1. fold id p in H1.
  rewrite (proj2 (Z.ltb_ge off 0)), (proj2 (Z.ltb_ge (ph_total_size h) 0)) in H1 by lia.
  rewrite andb_false_r in H1. cbn [orb] in H1.
  unfold declared, total in *. destruct p as [h' received buffer].
  cbn [if_header if_received] in *. destruct Hp as (Hr & Ht & Hb).
  cbn [if_header if_received if_buffer] in *.
  rewrite as_i64_len in H1 by done. pose proof (len_nonneg body).
  destruct (Z.eqb_spec off received) as [->|]; cbn [negb] in H1; [|simplify_eq; eauto].
  destruct (_ && (_ <? Assembler.saturating_add _ _)) eqn:Hover in H1; [simplify_eq; eauto|].
  destruct (bool_decide _ && _) eqn:Hl in H1; [simplify_eq; eauto|].
  exfalso. unfold Assembler.saturating_add, MAX_BYTES_PAYLOAD, fits in *. unfold_ints.
  destruct Hbad as [?|[[? ?]|[Hty ?]]]; [lia|lia|].
  rewrite bool_decide_true in Hl by done. cbn in Hl. rewrite Z.mod_small in Hl; lia.
Qed.

Lemma accept_refuses_witness :
  let h := mkPayloadHeader 7 PayloadType.File 4 false [] [] in
  exists e, Assembler.accept (data_frame h 1 (str "x") false) Assembler.new
            = (Err e, Assembler.remove 7 Assembler.new).
Proof.
  intros h.
  apply (accept_refuses h 1 (str "x") false Assembler.new);
    [apply Inv_new|vm_compute; discriminate|done|done|done|left; done].
Defined.
