(* ===== verification/Crypto.v ===== *)
(** * The cryptographic library

    The daemon's protocol crate calls OpenSSL through AOSP's [openssl] crate, whose code is not
    part of the repository.  Each group of primitives is a class of operations the components
    take as a parameter, and the documented behaviour a theorem relies on is a class of laws
    next to it. *)

From S2P Require Import Prelude.

(** [openssl::rand::rand_bytes]: fills a buffer of the given length from the generator, or
    fails. *)
Class Rand : Type := {
  rng : Type;
  rand_bytes : Z -> rng -> option (list byte) * rng
}.

Class RandLaws `{Rand} : Prop := {
  rand_bytes_len n g b g' : 0 <= n -> rand_bytes n g = (Some b, g') -> len b = n
}.

(** [openssl::hmac::hmac(Md::sha256(), key, data, buf)]; [None] is an [ErrorStack]. *)
Class Hmac : Type := {
  openssl_hmac : list byte -> list byte -> option (list byte)
}.

Class HmacLaws `{Hmac} : Prop := {
  openssl_hmac_len k d t : openssl_hmac k d = Some t -> len t = 32
}.

(** [openssl::symm::{encrypt, decrypt}] with [Cipher::aes_256_cbc()]: key, IV, data. *)
Class Cipher : Type := {
  openssl_encrypt : list byte -> list byte -> list byte -> option (list byte);
  openssl_decrypt : list byte -> list byte -> list byte -> option (list byte)
}.

(** CBC with PKCS#7 padding: decryption under the same key and IV inverts encryption, and the
    padding makes the ciphertext the next multiple of the block size. *)
Class CipherLaws `{Cipher} : Prop := {
  openssl_decrypt_encrypt k iv p c :
    openssl_encrypt k iv p = Some c -> openssl_decrypt k iv c = Some p;
  openssl_encrypt_len k iv p c :
    openssl_encrypt k iv p = Some c -> len c = 16 * (len p / 16 + 1)
}.

(** [openssl::memcmp::eq], on slices of equal length. *)
Class Memcmp : Type := { memcmp_eq : list byte -> list byte -> bool }.

Class MemcmpLaws `{Memcmp} : Prop := {
  memcmp_eq_spec a b : len a = len b -> memcmp_eq a b = true <-> a = b
}.

(** [openssl::hash::hash] with SHA-256, SHA-512 and MD5. *)
Class Digest : Type := {
  openssl_sha256 : list byte -> option (list byte);
  openssl_sha512 : list byte -> option (list byte);
  openssl_md5 : list byte -> option (list byte)
}.

Class DigestLaws `{Digest} : Prop := {
  openssl_sha256_len d t : openssl_sha256 d = Some t -> len t = 32;
  openssl_sha512_len d t : openssl_sha512 d = Some t -> len t = 64;
  openssl_md5_len d t : openssl_md5 d = Some t -> len t = 16
}.

(** The elliptic-curve and big-number calls of the UKEY2 code.  A [bignum] is OpenSSL's
    non-negative [BigNum]; [ec_derive] is the chain [PKey::from_ec_key], [Deriver::new],
    [set_peer], [derive_to_vec], whose failures the caller does not tell apart. *)
Class Ec `{Rand} : Type := {
  bignum : Type;
  group : Type;
  context : Type;
  point : Type;
  private_key : Type;
  public_key : Type;
  bn_from_slice : list byte -> option bignum;
  bn_to_vec : bignum -> list byte;
  bn_new : option bignum;
  bn_context_new : option context;
  ec_group_p256 : option group;
  ec_key_generate : group -> rng -> option private_key * rng;
  ec_public_of : private_key -> public_key;
  ec_affine_coordinates : group -> private_key -> option (bignum * bignum);
  ec_point_new : group -> option point;
  ec_set_affine_coordinates : group -> point -> bignum -> bignum -> option point;
  ec_is_on_curve : group -> point -> option bool;
  ec_from_public_key : group -> point -> option public_key;
  ec_check_key : public_key -> bool;
  ec_derive : private_key -> public_key -> option (list byte)
}.

(** [BigNum]'s bytes are big-endian without leading zeros and read back; a generated key's
    own coordinates import to its public key and are elements of a 256-bit field; the
    Diffie-Hellman secret is the same from both ends. *)
Class EcLaws `{Ec} : Prop := {
  bn_to_vec_canonical n : forall b l, bn_to_vec n = b :: l -> u8 b <> 0;
  bn_from_to n : bn_from_slice (bn_to_vec n) = Some n;
  ec_import_export g k x y p :
    ec_affine_coordinates g k = Some (x, y) ->
    exists q, ec_set_affine_coordinates g p x y = Some q /\
      ec_is_on_curve g q = Some true /\ ec_from_public_key g q = Some (ec_public_of k) /\
      ec_check_key (ec_public_of k) = true;
  ec_coordinates_len g k x y :
    ec_affine_coordinates g k = Some (x, y) ->
    len (bn_to_vec x) <= 32 /\ len (bn_to_vec y) <= 32;
  ec_point_new_ok g : is_Some (ec_point_new g);
  ec_derive_symmetric a b : ec_derive a (ec_public_of b) = ec_derive b (ec_public_of a);
  ec_derive_ok a b : is_Some (ec_derive a (ec_public_of b))
}.

(** ** A concrete instance

    Functions that satisfy the laws, to evaluate the model on. *)

Module Toy.

(** The generator counts. *)
Definition rand : Rand := {|
  rng := Z;
  rand_bytes n g := (Some (replicate (Z.to_nat n) (to_u8 g)), g + 1)
|}.

Lemma rand_laws : @RandLaws rand.
Proof.
  constructor. intros n g b g' Hn [= <- <-]. rewrite len_replicate. lia.
Qed.

Definition checksum (k d : list byte) : Z :=
  fold_left (fun n b => n * 31 + u8 b) (k ++ d) (len k * 256 + len d).

Definition hmac : Hmac := {|
  openssl_hmac k d := Some (to_be_bytes 32 (checksum k d))
|}.

Lemma hmac_laws : @HmacLaws hmac.
Proof. constructor. intros k d t [= <-]. apply (len_to_be_bytes 32). Qed.

(** Padding alone. *)
Definition pad (p : list byte) : list byte :=
  let n := 16 - len p mod 16 in p ++ replicate (Z.to_nat n) (to_u8 n).

Definition unpad (c : list byte) : option (list byte) :=
  match last c with
  | Some n => Some (take (Z.to_nat (len c - u8 n)) c)
  | None => None
  end.

Definition cipher : Cipher := {|
  openssl_encrypt _ _ p := Some (pad p);
  openssl_decrypt _ _ c := unpad c
|}.

Lemma pad_len p : len (pad p) = 16 * (len p / 16 + 1).
Proof.
  unfold pad. pose proof (Z.mod_pos_bound (len p) 16 ltac:(lia)).
  pose proof (Z.div_mod (len p) 16 ltac:(lia)). simpl_len. lia.
Qed.

Lemma unpad_pad p : unpad (pad p) = Some p.
Proof.
  unfold unpad. pose proof (Z.mod_pos_bound (len p) 16 ltac:(lia)) as Hm.
  assert (Hl : last (pad p) = Some (to_u8 (16 - len p mod 16))).
  { unfold pad. destruct (Z.to_nat (16 - len p mod 16)) as [|n] eqn:En; [lia|].
    rewrite replicate_S_end, app_assoc. by rewrite last_snoc. }
  rewrite Hl. f_equal. unfold pad at 1. simpl_len.
  rewrite u8_to_u8_small by lia.
  replace (Z.to_nat _) with (length p) by (rewrite len_nat in *; lia).
  unfold pad. apply take_app_length.
Qed.

Lemma cipher_laws : @CipherLaws cipher.
Proof.
  constructor; intros k iv p c [= <-]; [apply unpad_pad|apply pad_len].
Qed.

Definition memcmp : Memcmp := {| memcmp_eq a b := bool_decide (a = b) |}.

Lemma memcmp_laws : @MemcmpLaws memcmp.
Proof. constructor. intros a b _. cbn. apply bool_decide_eq_true. Qed.

Definition digest : Digest := {|
  openssl_sha256 d := Some (to_be_bytes 32 (checksum [] d));
  openssl_sha512 d := Some (to_be_bytes 64 (checksum [] d));
  openssl_md5 d := Some (to_be_bytes 16 (checksum [] d))
|}.

Lemma digest_laws : @DigestLaws digest.
Proof.
  constructor; intros d t [= <-];
    [apply (len_to_be_bytes 32)|apply (len_to_be_bytes 64)|apply (len_to_be_bytes 16)].
Qed.

(** A group of order two stands in for the curve: the public key of [k] is its parity. *)
Definition bit_of (l : list byte) : bool := bool_decide (l = [to_u8 1]).

Definition generate (_ : unit) (g : @rng rand) : option Z * @rng rand :=
  (Some (g : Z), (g : Z) + 1).

Definition ec : @Ec rand := {|
  bignum := bool; group := unit; context := unit; point := bool;
  private_key := Z; public_key := bool;
  bn_from_slice l := Some (bit_of l);
  bn_to_vec (n : bool) := if n then [to_u8 1] else [];
  bn_new := Some false; bn_context_new := Some tt; ec_group_p256 := Some tt;
  ec_key_generate := generate;
  ec_public_of k := Z.odd k;
  ec_affine_coordinates _ k := Some (Z.odd k, true);
  ec_point_new _ := Some false;
  ec_set_affine_coordinates _ _ x y := if y then Some x else None;
  ec_is_on_curve _ _ := Some true;
  ec_from_public_key _ q := Some q;
  ec_check_key _ := true;
  ec_derive a b := Some (to_be_bytes 32 (bool_u64 (Z.odd a && b)))
|}.

Lemma ec_laws : @EcLaws rand ec.
Proof.
  constructor; cbn.
  - intros [|] b l; [|done]. intros [= <- <-]. done.
  - by intros [|].
  - intros g k x y p [= <- <-]. eauto 10.
  - intros g k x y [= <- <-]. destruct (Z.odd k); cbn; simpl_len; lia.
  - eauto.
  - intros a b. by rewrite andb_comm.
  - eauto.
Qed.

End Toy.
