(* ===== verification/Ukey2Crypto.v ===== *)
(** * The handshake's key exchange ([protocol/src/ukey2/crypto.rs])

    Ephemeral P-256 keys, the public-key codec with its two's-complement coordinates, and the
    shared secret, over the curve and digest operations of [Crypto].  Decoding a key a peer
    generated yields that key, both ends compute the same secret, and a point the curve check
    refuses is refused. *)

From S2P Require Import Prelude Protobuf Crypto.

Definition GPK_TYPE : Z := 1.
Definition GPK_EC_P256_PUBLIC_KEY : Z := 2.
Definition EC_X : Z := 1.
Definition EC_Y : Z := 2.
Definition PUBLIC_KEY_TYPE_EC_P256 : Z := 1.

Inductive Error : Type :=
| NotOnCurve
| EMalformed (why : string)
| EProtobuf (e : Protobuf.Error)
| ECrypto.

#[export] Instance Error_from_protobuf : From Protobuf.Error Error := EProtobuf.

(** [f()?] on an OpenSSL result. *)
Definition stack {A} (o : option A) : result A Error := ok_or o ECrypto.

(** Strip leading zero bytes. *)
Fixpoint magnitude (v : list byte) : list byte :=
  match v with
  | [] => []
  | b :: v' => if u8 b =? 0 then magnitude v' else v
  end.

Section Keys.
Context `{Ec} `{Digest}.

Definition p256 : option group := ec_group_p256.

Definition generate_keypair (g : rng) : result private_key Error * rng :=
  match stack p256 with
  | Err e => (Err e, g)
  | Ok group => let (key, g) := ec_key_generate group g in (stack key, g)
  end.

Definition shared_secret (ours : private_key) (peer : public_key) : result (list byte) Error :=
  let? x := stack (ec_derive ours peer) in
  stack (openssl_sha256 x).

Definition sha512 (data : list byte) : result (list byte) Error := stack (openssl_sha512 data).

Definition twos_complement (n : bignum) : list byte :=
  let v := bn_to_vec n in
  match v with
  | b :: _ => if negb (Z.land (u8 b) 128 =? 0) then to_u8 0 :: v else v
  | [] => v
  end.

Definition encode_public_key (key : private_key) : result (list byte) Error :=
  let? group := stack p256 in
  let? _ := stack bn_context_new in
  let? _ := stack bn_new in
  let? _ := stack bn_new in
  let? (x, y) := stack (ec_affine_coordinates group key) in
  let ec := Writer.finish (Writer.new
    |> Writer.bytes EC_X (twos_complement x)
    |> Writer.bytes EC_Y (twos_complement y)) in
  Ok (Writer.finish (Writer.new
    |> Writer.varint GPK_TYPE PUBLIC_KEY_TYPE_EC_P256
    |> Writer.bytes GPK_EC_P256_PUBLIC_KEY ec)).

Definition decode_public_key (bytes : list byte) : result public_key Error :=
  let? ec := first_bytes bytes GPK_EC_P256_PUBLIC_KEY in
  let? ec := ok_or ec (EMalformed "no ec_p256_public_key") in
  let? x := first_bytes ec EC_X in
  let? x := ok_or x (EMalformed "no x") in
  let? y := first_bytes ec EC_Y in
  let? y := ok_or y (EMalformed "no y") in
  let? x := stack (bn_from_slice (magnitude x)) in
  let? y := stack (bn_from_slice (magnitude y)) in
  let? group := stack p256 in
  let? _ := stack bn_context_new in
  let? point := stack (ec_point_new group) in
  let? point := ok_or (ec_set_affine_coordinates group point x y) NotOnCurve in
  if negb (unwrap_or (ec_is_on_curve group point) false) then Err NotOnCurve
  else
    let? key := ok_or (ec_from_public_key group point) NotOnCurve in
    if ec_check_key key then Ok key else Err NotOnCurve.

(** ** Lemmas *)

Lemma magnitude_twos_complement `{!EcLaws} n : magnitude (twos_complement n) = bn_to_vec n.
Proof using All.
  unfold twos_complement. destruct (bn_to_vec n) as [|b l] eqn:Hb; [done|].
  assert (Hm : magnitude (b :: l) = b :: l).
  { apply bn_to_vec_canonical, Z.eqb_neq in Hb. cbn [magnitude]. by rewrite Hb. }
  destruct (negb _); [|done]. change (magnitude (b :: l) = b :: l). done.
Qed.

(** What the encoder writes: the sign bit of each coordinate is clear. *)
Lemma twos_complement_positive n b l : twos_complement n = b :: l -> u8 b < 128.
Proof using All.
  unfold twos_complement. destruct (bn_to_vec n) as [|x k]; [done|].
  rewrite land_128_byte. destruct (Z.ltb_spec (u8 x) 128); cbn; intros [= <- _]; [done|].
  rewrite u8_to_u8_small; lia.
Qed.

Definition point_fields (x y : list byte) : list Field := [Bytes EC_X x; Bytes EC_Y y].
Definition gpk_fields (ec : list byte) : list Field :=
  [Varint GPK_TYPE PUBLIC_KEY_TYPE_EC_P256; Bytes GPK_EC_P256_PUBLIC_KEY ec].

Lemma encode_public_key_Ok k b :
  encode_public_key k = Ok b ->
  exists group ctx x y,
    p256 = Some group /\ bn_context_new = Some ctx /\
    ec_affine_coordinates group k = Some (x, y) /\
    b = encode (gpk_fields (encode (point_fields (twos_complement x) (twos_complement y)))).
Proof using All.
  unfold encode_public_key, stack.
  destruct p256 as [group|]; [|done]. destruct bn_context_new as [ctx|]; [|done].
  destruct bn_new; [|done]. cbn [ok_or try_bind].
  destruct (ec_affine_coordinates group k) as [[x y]|] eqn:Hxy; [|done]. cbn [ok_or try_bind].
  to_fields. intros <-%Ok_inj. by exists group, ctx, x, y.
Qed.

(** Reading any message the codec's shape, whatever the coordinates. *)
Lemma decode_fields x y :
  fits (encode (gpk_fields (encode (point_fields x y)))) ->
  decode_public_key (encode (gpk_fields (encode (point_fields x y)))) =
  (let? x := stack (bn_from_slice (magnitude x)) in
   let? y := stack (bn_from_slice (magnitude y)) in
   let? group := stack p256 in
   let? _ := stack bn_context_new in
   let? point := stack (ec_point_new group) in
   let? point := ok_or (ec_set_affine_coordinates group point x y) NotOnCurve in
   if negb (unwrap_or (ec_is_on_curve group point) false) then Err NotOnCurve
   else
     let? key := ok_or (ec_from_public_key group point) NotOnCurve in
     if ec_check_key key then Ok key else Err NotOnCurve).
Proof using All.
  intros Hf. assert (Hp : fits (encode (point_fields x y))) by fits_in Hf.
  unfold decode_public_key. rewrite first_bytes_read by (done || wf_nums).
  change (last_bytes GPK_EC_P256_PUBLIC_KEY _) with (Some (encode (point_fields x y))).
  cbn [try_bind ok_or]. rewrite !first_bytes_read by (done || wf_nums).
  change (last_bytes EC_X _) with (Some x). change (last_bytes EC_Y _) with (Some y).
  done.
Qed.

Lemma decode_encode `{!EcLaws} k b :
  encode_public_key k = Ok b -> fits b -> decode_public_key b = Ok (ec_public_of k).
Proof using All.
  intros (group & ctx & x & y & Hg & Hc & Hxy & ->)%encode_public_key_Ok Hf.
  rewrite decode_fields by done. rewrite !magnitude_twos_complement, !bn_from_to.
  unfold stack. cbn [ok_or try_bind]. rewrite Hg, Hc. cbn [ok_or try_bind].
  destruct (ec_point_new_ok group) as [p Hp]. rewrite Hp. cbn [ok_or try_bind].
  destruct (ec_import_export group k x y p Hxy) as (q & Hq & Hon & Hk & Hck).
  rewrite Hq. cbn [ok_or try_bind]. rewrite Hon. cbn [unwrap_or negb]. rewrite Hk.
  cbn [ok_or try_bind]. by rewrite Hck.
Qed.

Lemma shared_secret_symmetric `{!EcLaws} a b :
  shared_secret a (ec_public_of b) = shared_secret b (ec_public_of a).
Proof using All. unfold shared_secret. by rewrite ec_derive_symmetric. Qed.

Lemma shared_secret_len `{!DigestLaws} a p s : shared_secret a p = Ok s -> len s = 32.
Proof using All.
  unfold shared_secret, stack. destruct (ec_derive a p) as [x|]; [|done]. cbn [ok_or try_bind].
  destruct (openssl_sha256 x) as [t|] eqn:Ht; [|done]. intros <-%Ok_inj.
  by eapply openssl_sha256_len.
Qed.

Lemma encode_public_key_len `{!EcLaws} k b : encode_public_key k = Ok b -> len b <= 200.
Proof using All.
  intros (group & ctx & x & y & Hg & Hc & Hxy & ->)%encode_public_key_Ok.
  apply ec_coordinates_len in Hxy as [Hx Hy].
  assert (Ht : forall n, len (twos_complement n) <= len (bn_to_vec n) + 1).
  { intros n. unfold twos_complement. destruct (bn_to_vec n) as [|b l]; [simpl_len; lia|].
    destruct (negb _); simpl_len; lia. }
  pose proof (Ht x). pose proof (Ht y).
  pose proof (encode_len (point_fields (twos_complement x) (twos_complement y))) as Hs2.
  pose proof (encode_len (gpk_fields (encode
    (point_fields (twos_complement x) (twos_complement y))))) as Hs1.
  cbn -[encode twos_complement] in Hs1, Hs2. lia.
Qed.
End Keys.

(** ** Properties *)

(** The public-key codec.  What [encode_public_key] writes decodes to the key's own public
    half, whichever coordinates carry a two's-complement sign byte, and both ends that decode
    each other's encoding derive the same secret. *)
Theorem public_keys_agree `{Ec} `{!EcLaws} `{Digest} a b ba bb :
  encode_public_key a = Ok ba -> encode_public_key b = Ok bb ->
  decode_public_key ba = Ok (ec_public_of a) /\ decode_public_key bb = Ok (ec_public_of b) /\
  (forall pa pb, decode_public_key ba = Ok pa -> decode_public_key bb = Ok pb ->
     shared_secret a pb = shared_secret b pa).
Proof.
  intros Ha Hb.
  assert (Hda : decode_public_key ba = Ok (ec_public_of a)).
  { apply (decode_encode a ba Ha). pose proof (encode_public_key_len a ba Ha).
    unfold fits. unfold_ints. lia. }
  assert (Hdb : decode_public_key bb = Ok (ec_public_of b)).
  { apply (decode_encode b bb Hb). pose proof (encode_public_key_len b bb Hb).
    unfold fits. unfold_ints. lia. }
  split; [done|]. split; [done|]. intros pa pb. rewrite Hda, Hdb.
  intros <-%Ok_inj <-%Ok_inj. apply shared_secret_symmetric.
Qed.

Lemma public_keys_agree_witness :
  @decode_public_key Toy.rand Toy.ec (encode (gpk_fields (encode (point_fields [to_u8 1] [to_u8 1]))))
    = Ok true /\
  @shared_secret Toy.rand Toy.ec Toy.digest 7 false = @shared_secret Toy.rand Toy.ec Toy.digest 4 true.
Proof.
  pose proof (@public_keys_agree Toy.rand Toy.ec Toy.ec_laws Toy.digest 7 4
    (encode (gpk_fields (encode (point_fields [to_u8 1] [to_u8 1]))))
    (encode (gpk_fields (encode (point_fields [] [to_u8 1]))))
    ltac:(vm_compute; reflexivity) ltac:(vm_compute; reflexivity)) as (Ha & Hb & Hs).
  split; [exact Ha|]. exact (Hs true false Ha Hb).
Defined.

(** No key comes out of the decoder whose point was not accepted by every check: the
    coordinates that were read set a point, the point is on the curve, and the key built from
    it passes [check_key]. *)
Theorem decoded_key_was_checked `{Ec} bytes key :
  decode_public_key bytes = Ok key ->
  exists ec xs ys x y group p0 point,
    first_bytes bytes GPK_EC_P256_PUBLIC_KEY = Ok (Some ec) /\
    first_bytes ec EC_X = Ok (Some xs) /\ first_bytes ec EC_Y = Ok (Some ys) /\
    bn_from_slice (magnitude xs) = Some x /\ bn_from_slice (magnitude ys) = Some y /\
    p256 = Some group /\ ec_point_new group = Some p0  /\
    ec_set_affine_coordinates group p0 x y = Some point  /\
    ec_is_on_curve group point = Some true  /\
    ec_from_public_key group point = Some key /\ ec_check_key key = true.
Proof.
  unfold decode_public_key. intros Hd. inv_ok. subst.
  repeat match goal with
  | H : ok_or ?o _ = Ok _ |- _ => destruct o eqn:?; [apply Ok_inj in H as ->|discriminate H]
  | H : stack ?o = Ok _ |- _ => destruct o eqn:?; [apply Ok_inj in H as ->|discriminate H]
  | H : negb _ = false |- _ => apply negb_false_iff in H
  end. simplify_eq.
  match goal with H : unwrap_or ?o _ = true |- _ => destruct o as [[]|] eqn:?; try done end.
  by repeat eexists.
Qed.

Lemma decoded_key_was_checked_witness :
  let b := encode (gpk_fields (encode (point_fields [to_u8 0; to_u8 1] [to_u8 1]))) in
  exists ec, first_bytes b GPK_EC_P256_PUBLIC_KEY = Ok (Some ec).
Proof.
  intros b.
  destruct (@decoded_key_was_checked Toy.rand Toy.ec b true ltac:(vm_compute; reflexivity))
    as (ec & _ & _ & _ & _ & _ & _ & _ & Hec & _).
  exists ec. exact Hec.
Defined.
