(* ===== verification/Handshake.v ===== *)
(** * The UKEY2 handshake ([protocol/src/ukey2/handshake.rs])

    The messages and the two sides: [ClientHandshake] (start, then the ServerInit) and
    [ServerHandshake] (the ClientInit, then the ClientFinished).  A client and a server run
    against each other agree on the result; the server accepts only the final message the
    client committed to; each side accepts only the version, nonce length, cipher and protocol
    the exchange fixes. *)

From S2P Require Import Prelude Protobuf Crypto Ukey2Crypto.

Definition PROTOCOL_VERSION : Z := 1.
Definition RANDOM_SIZE : Z := 32.
Definition NEXT_PROTOCOL : list byte := str "AES_256_CBC-HMAC_SHA256".
Definition CIPHER_P256_SHA512 : Z := 100.

Definition TYPE_ALERT : Z := 1.
Definition TYPE_CLIENT_INIT : Z := 2.
Definition TYPE_SERVER_INIT : Z := 3.
Definition TYPE_CLIENT_FINISH : Z := 4.

Definition MSG_TYPE : Z := 1.
Definition MSG_DATA : Z := 2.
Definition CI_VERSION : Z := 1.
Definition CI_RANDOM : Z := 2.
Definition CI_COMMITMENTS : Z := 3.
Definition CI_NEXT_PROTOCOL : Z := 4.
Definition CC_CIPHER : Z := 1.
Definition CC_COMMITMENT : Z := 2.
Definition SI_VERSION : Z := 1.
Definition SI_RANDOM : Z := 2.
Definition SI_CIPHER : Z := 3.
Definition SI_PUBLIC_KEY : Z := 4.
Definition CF_PUBLIC_KEY : Z := 1.
Definition AL_TYPE : Z := 1.
Definition AL_MESSAGE : Z := 2.

Module Alert.
Inductive t : Type :=
| BadMessage | BadMessageType | IncorrectMessage | BadMessageData | BadVersion | BadRandom
| BadHandshakeCipher | BadNextProtocol | BadPublicKey | InternalError.
Definition as_u64 (a : t) : Z :=
  match a with
  | BadMessage => 1 | BadMessageType => 2 | IncorrectMessage => 3 | BadMessageData => 4
  | BadVersion => 100 | BadRandom => 101 | BadHandshakeCipher => 102 | BadNextProtocol => 103
  | BadPublicKey => 104 | InternalError => 200
  end.
End Alert.

Record HandshakeResult : Type := mkHandshakeResult {
  dhs : list byte;
  client_init_msg : list byte;
  server_init_msg : list byte
}.

(** ** Messages *)

Definition wrap (msg_type : Z) (data : list byte) : list byte :=
  Writer.finish (Writer.new |> Writer.varint MSG_TYPE msg_type |> Writer.bytes MSG_DATA data).

(** The envelope's loop body, over (type, data). *)
Definition envelope_step (o : option Z * option (list byte)) (f : Field)
    : option Z * option (list byte) :=
  let (ty, data) := o in
  match f with
  | Varint n v => if n =? MSG_TYPE then (Some v, data) else (ty, data)
  | Bytes n b => if n =? MSG_DATA then (ty, Some b) else (ty, data)
  end.

Definition unwrap (bytes : list byte) (expect : Z) : result (list byte) Error :=
  let? (ty, data) :=
    (for_each_field bytes (fun o f => Ok (envelope_step o f)) (None, None)
     : result (option Z * option (list byte)) Error) in
  match ty with
  | Some t =>
      if t =? expect then ok_or data (EMalformed "no message_data")
      else if t =? TYPE_ALERT then Err (EMalformed "peer sent an alert")
      else Err (EMalformed "unexpected message type")
  | None => Err (EMalformed "no message_type")
  end.

Definition alert (kind : Alert.t) (message : list byte) : list byte :=
  wrap TYPE_ALERT (Writer.finish (Writer.new
    |> Writer.varint AL_TYPE (Alert.as_u64 kind) |> Writer.bytes AL_MESSAGE message)).

Definition client_init (random commitment : list byte) : list byte :=
  let cc := Writer.finish (Writer.new
    |> Writer.varint CC_CIPHER CIPHER_P256_SHA512
    |> Writer.bytes CC_COMMITMENT commitment) in
  wrap TYPE_CLIENT_INIT (Writer.finish (Writer.new
    |> Writer.varint CI_VERSION PROTOCOL_VERSION
    |> Writer.bytes CI_RANDOM random
    |> Writer.bytes CI_COMMITMENTS cc
    |> Writer.bytes CI_NEXT_PROTOCOL NEXT_PROTOCOL)).

Definition server_init (random public_key : list byte) : list byte :=
  wrap TYPE_SERVER_INIT (Writer.finish (Writer.new
    |> Writer.varint SI_VERSION PROTOCOL_VERSION
    |> Writer.bytes SI_RANDOM random
    |> Writer.varint SI_CIPHER CIPHER_P256_SHA512
    |> Writer.bytes SI_PUBLIC_KEY public_key)).

Definition client_finished (public_key : list byte) : list byte :=
  wrap TYPE_CLIENT_FINISH (Writer.finish (Writer.new |> Writer.bytes CF_PUBLIC_KEY public_key)).

(** The commitment of one CipherCommitment, if it is the cipher we speak. *)
Definition cipher_commitment (bytes : list byte) : result (option (list byte)) Error :=
  let? (cipher, commitment) :=
    (for_each_field bytes (fun '(cipher, commitment) f => Ok
       match f with
       | Varint n v => if n =? CC_CIPHER then (Some v, commitment) else (cipher, commitment)
       | Bytes n b => if n =? CC_COMMITMENT then (cipher, Some b) else (cipher, commitment)
       end) (None, None) : result (option Z * option (list byte)) Error) in
  if bool_decide (cipher = Some CIPHER_P256_SHA512) then Ok commitment else Ok None.

(** [match random { Some(ref r) if r.len() == RANDOM_SIZE => ... }]. *)
Definition is_nonce (random : option (list byte)) : bool :=
  match random with Some r => len r =? RANDOM_SIZE | None => false end.

(** The fields the ServerInit loop collects. *)
Record ServerInit : Type := mkServerInit {
  si_version : option Z;
  si_random : option (list byte);
  si_cipher : option Z;
  si_public_key : option (list byte)
}.

Definition server_init_step (m : ServerInit) (f : Field) : ServerInit :=
  match f with
  | Varint n v =>
      if n =? SI_VERSION then mkServerInit (Some v) (si_random m) (si_cipher m) (si_public_key m)
      else if n =? SI_CIPHER
      then mkServerInit (si_version m) (si_random m) (Some v) (si_public_key m)
      else m
  | Bytes n b =>
      if n =? SI_RANDOM then mkServerInit (si_version m) (Some b) (si_cipher m) (si_public_key m)
      else if n =? SI_PUBLIC_KEY
      then mkServerInit (si_version m) (si_random m) (si_cipher m) (Some b)
      else m
  end.

(** The fields the ClientInit loop collects; the first usable commitment is kept. *)
Record ClientInit : Type := mkClientInit {
  ci_version : option Z;
  ci_random : option (list byte);
  ci_next_protocol : option (list byte);
  ci_commitment : option (list byte)
}.

Definition client_init_step (m : ClientInit) (f : Field) : result ClientInit Error :=
  match f with
  | Varint n v =>
      if n =? CI_VERSION
      then Ok (mkClientInit (Some v) (ci_random m) (ci_next_protocol m) (ci_commitment m))
      else Ok m
  | Bytes n b =>
      if n =? CI_RANDOM
      then Ok (mkClientInit (ci_version m) (Some b) (ci_next_protocol m) (ci_commitment m))
      else if n =? CI_NEXT_PROTOCOL
      then Ok (mkClientInit (ci_version m) (ci_random m) (Some b) (ci_commitment m))
      else if n =? CI_COMMITMENTS then
        match ci_commitment m with
        | Some _ => Ok m
        | None =>
            let? c := cipher_commitment b in
            match c with
            | Some c =>
                Ok (mkClientInit (ci_version m) (ci_random m) (ci_next_protocol m) (Some c))
            | None => Ok m
            end
        end
      else Ok m
  end.

Section Handshake.
Context `{Ec} `{Digest}.

Definition random_bytes (n : Z) (g : rng) : result (list byte) Error * rng :=
  let (buf, g) := rand_bytes n g in (stack buf, g).

(** ** Client *)

Record ClientHandshake : Type := mkClientHandshake {
  c_key : private_key;
  c_client_finished_msg : list byte;
  c_client_init_msg : list byte
}.

Definition start (g : rng) : result (ClientHandshake * list byte) Error * rng :=
  match generate_keypair g with
  | (Err e, g) => (Err e, g)
  | (Ok key, g) =>
      match (let? public_key := encode_public_key key in
             let client_finished_msg := client_finished public_key in
             let? commitment := sha512 client_finished_msg in
             Ok (client_finished_msg, commitment)) with
      | Err e => (Err e, g)
      | Ok (client_finished_msg, commitment) =>
          let (random, g) := random_bytes RANDOM_SIZE g in
          ((let? random := random in
            let client_init_msg := client_init random commitment in
            Ok (mkClientHandshake key client_finished_msg client_init_msg, client_init_msg)), g)
      end
  end.

Definition handle_server_init (self : ClientHandshake) (server_init_msg : list byte)
    : result (list byte * HandshakeResult) Error :=
  let? body := unwrap server_init_msg TYPE_SERVER_INIT in
  let? m := (for_each_field body (fun m f => Ok (server_init_step m f))
               (mkServerInit None None None None) : result ServerInit Error) in
  if negb (bool_decide (si_version m = Some PROTOCOL_VERSION))
  then Err (EMalformed "server version is not 1")
  else if negb (is_nonce (si_random m))
  then Err (EMalformed "server random is not 32 bytes")
  else if negb (bool_decide (si_cipher m = Some CIPHER_P256_SHA512))
  then Err (EMalformed "server chose a cipher we did not offer")
  else
    let? public_key := ok_or (si_public_key m) (EMalformed "no server public_key") in
    let? peer := decode_public_key public_key in
    let? dhs := shared_secret (c_key self) peer in
    Ok (c_client_finished_msg self,
        mkHandshakeResult dhs (c_client_init_msg self) server_init_msg).

(** ** Server *)

Record ServerHandshake : Type := mkServerHandshake {
  s_key : private_key;
  s_commitment : list byte;
  s_client_init_msg : list byte;
  s_server_init_msg : list byte
}.

(** The checks of [handle_client_init], before anything is generated. *)
Definition check_client_init (client_init_msg : list byte) : result (list byte) Error :=
  let? body := unwrap client_init_msg TYPE_CLIENT_INIT in
  let? m := (for_each_field body client_init_step
               (mkClientInit None None None None) : result ClientInit Error) in
  if negb (bool_decide (ci_version m = Some PROTOCOL_VERSION))
  then Err (EMalformed "client version is not 1")
  else if negb (is_nonce (ci_random m))
  then Err (EMalformed "client random is not 32 bytes")
  else if negb (bool_decide (ci_next_protocol m = Some NEXT_PROTOCOL))
  then Err (EMalformed "client asked for another next_protocol")
  else ok_or (ci_commitment m) (EMalformed "no P256_SHA512 commitment").

Definition handle_client_init (client_init_msg : list byte) (g : rng)
    : result (ServerHandshake * list byte) Error * rng :=
  match check_client_init client_init_msg with
  | Err e => (Err e, g)
  | Ok commitment =>
      match generate_keypair g with
      | (Err e, g) => (Err e, g)
      | (Ok key, g) =>
          match random_bytes RANDOM_SIZE g with
          | (Err e, g) => (Err e, g)
          | (Ok random, g) =>
              ((let? public_key := encode_public_key key in
                let server_init_msg := server_init random public_key in
                Ok (mkServerHandshake key commitment client_init_msg server_init_msg,
                    server_init_msg)), g)
          end
      end
  end.

Definition handle_client_finished (self : ServerHandshake) (client_finished_msg : list byte)
    : result HandshakeResult Error :=
  let? h := sha512 client_finished_msg in
  if negb (bool_decide (h = s_commitment self))
  then Err (EMalformed "client finished does not match its commitment")
  else
    let? body := unwrap client_finished_msg TYPE_CLIENT_FINISH in
    let? public_key := first_bytes body CF_PUBLIC_KEY in
    let? public_key := ok_or public_key (EMalformed "no client public_key") in
    let? peer := decode_public_key public_key in
    let? dhs := shared_secret (s_key self) peer in
    Ok (mkHandshakeResult dhs (s_client_init_msg self) (s_server_init_msg self)).
End Handshake.

(** ** Lemmas *)

Definition msg_fields (ty : Z) (data : list byte) : list Field :=
  [Varint MSG_TYPE ty; Bytes MSG_DATA data].
Definition cc_fields (commitment : list byte) : list Field :=
  [Varint CC_CIPHER CIPHER_P256_SHA512; Bytes CC_COMMITMENT commitment].
Definition ci_fields (random commitment : list byte) : list Field :=
  [Varint CI_VERSION PROTOCOL_VERSION; Bytes CI_RANDOM random;
   Bytes CI_COMMITMENTS (encode (cc_fields commitment)); Bytes CI_NEXT_PROTOCOL NEXT_PROTOCOL].
Definition si_fields (random public_key : list byte) : list Field :=
  [Varint SI_VERSION PROTOCOL_VERSION; Bytes SI_RANDOM random;
   Varint SI_CIPHER CIPHER_P256_SHA512; Bytes SI_PUBLIC_KEY public_key].
Definition cf_fields (public_key : list byte) : list Field := [Bytes CF_PUBLIC_KEY public_key].

Lemma envelope_fields ty data : wrap ty data = encode (msg_fields ty data).
Proof. unfold wrap. by to_fields. Qed.

Lemma client_init_fields r c :
  client_init r c = encode (msg_fields TYPE_CLIENT_INIT (encode (ci_fields r c))).
Proof. unfold client_init. rewrite envelope_fields. by to_fields. Qed.

Lemma server_init_fields r k :
  server_init r k = encode (msg_fields TYPE_SERVER_INIT (encode (si_fields r k))).
Proof. unfold server_init. rewrite envelope_fields. by to_fields. Qed.

Lemma client_finished_fields k :
  client_finished k = encode (msg_fields TYPE_CLIENT_FINISH (encode (cf_fields k))).
Proof. unfold client_finished. rewrite envelope_fields. by to_fields. Qed.

Lemma unwrap_fields ty data :
  is_u64 ty -> fits (encode (msg_fields ty data)) ->
  unwrap (encode (msg_fields ty data)) ty = Ok data.
Proof.
  intros Ht Hf. unfold unwrap. rewrite read_encoded by (done || wf_nums).
  cbn -[encode]. by rewrite Z.eqb_refl.
Qed.

(** A message of the wrong type is refused whatever it carries. *)
Lemma unwrap_wrong_type ty expect data :
  is_u64 ty -> ty <> expect -> fits (encode (msg_fields ty data)) ->
  unwrap (encode (msg_fields ty data)) expect =
  Err (EMalformed (if ty =? TYPE_ALERT then "peer sent an alert"
                   else "unexpected message type")).
Proof.
  intros Ht Hne Hf. unfold unwrap. rewrite read_encoded by (done || wf_nums).
  cbn -[encode]. rewrite (proj2 (Z.eqb_neq _ _) Hne). by destruct (ty =? TYPE_ALERT).
Qed.

Lemma cipher_commitment_fields c :
  fits (encode (cc_fields c)) -> cipher_commitment (encode (cc_fields c)) = Ok (Some c).
Proof.
  intros Hf. unfold cipher_commitment. rewrite read_encoded by (done || wf_nums).
  cbn -[encode]. by rewrite bool_decide_true.
Qed.

Lemma check_client_init_fields r c :
  len r = RANDOM_SIZE -> fits (client_init r c) ->
  check_client_init (client_init r c) = Ok c.
Proof.
  rewrite client_init_fields. intros Hr Hf.
  assert (Hb : fits (encode (ci_fields r c))) by fits_in Hf.
  assert (Hc : fits (encode (cc_fields c))) by fits_in Hb.
  unfold check_client_init. rewrite unwrap_fields by (done || wf_nums). cbn [try_bind].
  rewrite read_encoded by (done || wf_nums). cbn -[encode cc_fields cipher_commitment].
  rewrite cipher_commitment_fields by done. cbn -[encode cc_fields NEXT_PROTOCOL].
  rewrite Hr, Z.eqb_refl. by rewrite !bool_decide_true.
Qed.

Section Runs.
Context `{Ec} `{!EcLaws} `{Digest}.

(** What the server's checks leave to the client. *)
Lemma handle_server_init_fields c r k :
  len r = RANDOM_SIZE -> fits (server_init r k) ->
  handle_server_init c (server_init r k) =
  (let? peer := decode_public_key k in
   let? dhs := shared_secret (c_key c) peer in
   Ok (c_client_finished_msg c,
       mkHandshakeResult dhs (c_client_init_msg c) (server_init r k))).
Proof.
  intros Hr Hf. unfold handle_server_init. rewrite server_init_fields in *.
  assert (Hb : fits (encode (si_fields r k))) by fits_in Hf.
  rewrite unwrap_fields by (done || wf_nums). cbn [try_bind].
  rewrite read_encoded by (done || wf_nums). cbn -[encode msg_fields].
  rewrite Hr, Z.eqb_refl. by rewrite !bool_decide_true.
Qed.

Lemma handle_client_finished_fields s k :
  openssl_sha512 (client_finished k) = Some (s_commitment s) -> fits (client_finished k) ->
  handle_client_finished s (client_finished k) =
  (let? peer := decode_public_key k in
   let? dhs := shared_secret (s_key s) peer in
   Ok (mkHandshakeResult dhs (s_client_init_msg s) (s_server_init_msg s))).
Proof.
  intros Hh Hf. unfold handle_client_finished, sha512, stack. rewrite Hh. cbn [try_bind ok_or].
  rewrite bool_decide_true by done. cbn [negb]. rewrite client_finished_fields in *.
  assert (Hb : fits (encode (cf_fields k))) by fits_in Hf.
  rewrite unwrap_fields by (done || wf_nums). cbn [try_bind].
  rewrite first_bytes_read by (done || wf_nums). done.
Qed.

Lemma client_finished_len k : len k <= 200 -> fits (client_finished k).
Proof.
  intros Hk. rewrite client_finished_fields. unfold fits.
  pose proof (encode_len (msg_fields TYPE_CLIENT_FINISH (encode (cf_fields k)))) as E1.
  pose proof (encode_len (cf_fields k)) as E2.
  cbn -[encode] in E1, E2. unfold_ints. lia.
Qed.

Lemma client_init_len r c : len r <= 32 -> len c <= 64 -> fits (client_init r c).
Proof.
  intros Hr Hc. rewrite client_init_fields. unfold fits.
  pose proof (encode_len (msg_fields TYPE_CLIENT_INIT (encode (ci_fields r c)))) as E1.
  pose proof (encode_len (ci_fields r c)) as E2.
  pose proof (encode_len (cc_fields c)) as E3.
  assert (Hn : len NEXT_PROTOCOL = 23) by done.
  cbn -[encode cc_fields NEXT_PROTOCOL] in E1, E2, E3. cbn [cc_fields fields_cost] in E3.
  unfold_ints. lia.
Qed.

Lemma server_init_len r k : len r <= 32 -> len k <= 200 -> fits (server_init r k).
Proof.
  intros Hr Hc. rewrite server_init_fields. unfold fits.
  pose proof (encode_len (msg_fields TYPE_SERVER_INIT (encode (si_fields r k)))) as E1.
  pose proof (encode_len (si_fields r k)) as E2.
  cbn -[encode] in E1, E2. unfold_ints. lia.
Qed.

(** What a successful [start] holds. *)
Lemma start_Ok g c ci g' :
  start g = (Ok (c, ci), g') ->
  exists k h r,
    encode_public_key (c_key c) = Ok k /\
    c_client_finished_msg c = client_finished k /\
    openssl_sha512 (client_finished k) = Some h /\
    ci = client_init r h /\ c_client_init_msg c = ci /\
    exists g1, rand_bytes RANDOM_SIZE g1 = (Some r, g').
Proof.
  unfold start. destruct (generate_keypair g) as [[key|] g1]; [|done].
  destruct (encode_public_key key) as [k|] eqn:Hk; [|done]. cbn [try_bind].
  unfold sha512, stack. destruct (openssl_sha512 (client_finished k)) as [h|] eqn:Hh; [|done].
  cbn [try_bind ok_or]. unfold random_bytes, stack.
  destruct (rand_bytes RANDOM_SIZE g1) as [[r|] g2] eqn:Hr; cbn [try_bind ok_or]; [|done].
  intros [= <- <- <-]. exists k, h, r. eauto 10.
Qed.
End Runs.

Lemma is_nonce_true o : is_nonce o = true -> exists r, o = Some r /\ len r = 32.
Proof. destruct o as [r|]; [|done]. cbn. intros H%Z.eqb_eq. eauto. Qed.

(** *** What was read, on any message *)

(** The ServerInit loop keeps the last occurrence of each of its fields. *)
Lemma server_init_read fs :
  fold_left server_init_step fs (mkServerInit None None None None) =
  mkServerInit (last_varint SI_VERSION fs) (last_bytes SI_RANDOM fs)
    (last_varint SI_CIPHER fs) (last_bytes SI_PUBLIC_KEY fs).
Proof.
  induction fs as [|f fs IH] using rev_ind; [done|].
  rewrite fold_left_app, IH, !last_varint_snoc, !last_bytes_snoc. destruct f as [n v|n b]; cbn.
  - destruct (Z.eqb_spec n SI_VERSION) as [->|]; [done|]. by destruct (n =? SI_CIPHER).
  - destruct (Z.eqb_spec n SI_RANDOM) as [->|]; [done|]. by destruct (n =? SI_PUBLIC_KEY).
Qed.

Lemma run_pure {S} (g : S -> Field -> S) m s s' :
  run_fields (E := Error) (fun s f => Ok (g s f)) m s = Ok s' ->
  snd m = None /\ s' = fold_left g (fst m) s.
Proof.
  unfold run_fields. rewrite fold_fields_Ok. cbn. destruct (snd m); [done|].
  by intros <-%Ok_inj.
Qed.

Lemma envelope_read fs :
  fold_left envelope_step fs (None, None) = (last_varint MSG_TYPE fs, last_bytes MSG_DATA fs).
Proof.
  induction fs as [|f fs IH] using rev_ind; [done|].
  rewrite fold_left_app, IH, last_varint_snoc, last_bytes_snoc. destruct f as [n v|n b]; cbn.
  - by destruct (n =? MSG_TYPE).
  - by destruct (n =? MSG_DATA).
Qed.

(** A message [unwrap] accepts is well formed to its end and has the expected type. *)
Lemma unwrap_Ok bytes expect data :
  fits bytes -> unwrap bytes expect = Ok data ->
  snd (fields_of bytes) = None /\ last_varint MSG_TYPE (fst (fields_of bytes)) = Some expect /\
  last_bytes MSG_DATA (fst (fields_of bytes)) = Some data.
Proof.
  intros Hf. unfold unwrap. rewrite for_each_field_grammar by done.
  intros (o & Ho & H)%try_bind_Ok.
  apply run_pure in Ho as [He ->]. rewrite envelope_read in H. split; [done|].
  destruct (last_varint MSG_TYPE _) as [t|]; [|done].
  destruct (Z.eqb_spec t expect) as [Ht|]; [subst t|by destruct (t =? TYPE_ALERT)].
  split; [done|]. by destruct (last_bytes MSG_DATA _); [apply Ok_inj in H as ->|].
Qed.

(** ** Properties *)

(** C7: a client and a server that are run against each other agree.  From any successful
    [start], if the server can draw its own key and nonce, both of its steps and the client's
    succeed, and the two results are the same secret and the same two init messages. *)
Theorem handshake_agrees `{Ec} `{!EcLaws} `{!RandLaws} `{Digest} `{!DigestLaws}
    g c ci g' g0 g1 g2 sk sr spk :
  (forall d, is_Some (openssl_sha256 d)) ->
  start g = (Ok (c, ci), g') ->
  generate_keypair g0 = (Ok sk, g1) -> random_bytes RANDOM_SIZE g1 = (Ok sr, g2) ->
  encode_public_key sk = Ok spk ->
  exists s si cf r,
    handle_client_init ci g0 = (Ok (s, si), g2) /\
    handle_server_init c si = Ok (cf, r) /\
    handle_client_finished s cf = Ok r /\
    client_init_msg r = ci /\ server_init_msg r = si /\ len (dhs r) = 32.
Proof.
  intros Hsha Hst Hgen Hrand Henc.
  apply start_Ok in Hst as (ck & h & cr & Hck & Hcf & Hh & -> & Hci & gr & Hcr).
  apply rand_bytes_len in Hcr; [|done].
  assert (Hsr : len sr = RANDOM_SIZE).
  { unfold random_bytes, stack in Hrand. destruct (rand_bytes RANDOM_SIZE g1) as [[b|] gb] eqn:Hb;
      [|done]. cbn in Hrand. injection Hrand as -> <-. by apply rand_bytes_len in Hb. }
  pose proof (encode_public_key_len _ _ Hck) as Hckl.
  pose proof (encode_public_key_len _ _ Henc) as Hskl.
  pose proof (openssl_sha512_len _ _ Hh) as Hhl.
  assert (Hx : exists x, ec_derive (c_key c) (ec_public_of sk) = Some x) by apply ec_derive_ok.
  destruct Hx as [x Hx]. destruct (Hsha x) as [z Hz].
  assert (Hs1 : shared_secret (c_key c) (ec_public_of sk) = Ok z).
  { unfold shared_secret. rewrite Hx. cbn. by rewrite Hz. }
  eexists (mkServerHandshake sk h (client_init cr h) (server_init sr spk)), (server_init sr spk),
    (client_finished ck), (mkHandshakeResult z (client_init cr h) (server_init sr spk)).
  split.
  { unfold handle_client_init. rewrite check_client_init_fields;
      [|done|apply client_init_len; unfold RANDOM_SIZE in *; lia].
    rewrite Hgen, Hrand, Henc. done. }
  assert (Hfit : forall k : list byte, len k <= 200 -> fits k) by (intros k; unfold fits; unfold_ints; lia).
  split.
  { rewrite handle_server_init_fields; [|done|apply server_init_len; unfold RANDOM_SIZE in *; lia].
    rewrite (decode_encode sk spk Henc) by auto. cbn [try_bind]. rewrite Hs1. cbn [try_bind].
    by rewrite Hcf, Hci. }
  split.
  { rewrite handle_client_finished_fields; [|done|by apply client_finished_len].
    rewrite (decode_encode _ ck Hck) by auto. cbn [try_bind s_key].
    rewrite shared_secret_symmetric, Hs1. done. }
  split; [done|]. split; [done|]. by apply shared_secret_len in Hs1.
Qed.

Lemma handshake_agrees_witness :
  match @start Toy.rand Toy.ec Toy.digest 7 with
  | (Ok (c, ci), _) =>
      exists s si cf r g,
        @handle_client_init Toy.rand Toy.ec ci 4 = (Ok (s, si), g) /\
        @handle_server_init Toy.rand Toy.ec Toy.digest c si = Ok (cf, r) /\
        @handle_client_finished Toy.rand Toy.ec Toy.digest s cf = Ok r
  | _ => False
  end.
Proof.
  assert (Hok : is_ok (fst (@start Toy.rand Toy.ec Toy.digest 7)) = true)
    by (vm_compute; reflexivity).
  destruct (@start Toy.rand Toy.ec Toy.digest 7) as [[[c ci]|e] g'] eqn:Hst.
  - destruct (@handshake_agrees Toy.rand Toy.ec Toy.ec_laws Toy.rand_laws Toy.digest
      Toy.digest_laws 7 c ci g' 4 5 6 4 (replicate 32 (to_u8 5))
      (encode (gpk_fields (encode (point_fields [] [to_u8 1]))))
      ltac:(intros d; eexists; reflexivity) Hst eq_refl eq_refl ltac:(vm_compute; reflexivity))
      as (s & si & cf & r & H1 & H2 & H3 & _).
    exists s, si, cf, r, 6. auto.
  - discriminate Hok.
Defined.

(** The commitment binds.  A server that took a client's ClientInit finishes only with a
    message whose SHA-512 is that of the client's own ClientFinished, so, short of a collision,
    with that very message; anything else is refused before any of it is parsed. *)
Theorem commitment_binds `{Ec} `{!RandLaws} `{Digest} `{!DigestLaws} g c ci g' g0 s si g1 :
  start g = (Ok (c, ci), g') -> handle_client_init ci g0 = (Ok (s, si), g1) ->
  (forall cf r, handle_client_finished s cf = Ok r ->
     openssl_sha512 cf = openssl_sha512 (c_client_finished_msg c) /\
     is_Some (openssl_sha512 cf) /\ client_init_msg r = ci /\ server_init_msg r = si) /\
  (forall cf h, openssl_sha512 cf = Some h ->
     openssl_sha512 (c_client_finished_msg c) <> Some h ->
     handle_client_finished s cf
       = Err (EMalformed "client finished does not match its commitment")).
Proof.
  intros Hst Hsi.
  apply start_Ok in Hst as (ck & h & cr & Hck & Hcf & Hh & -> & Hci & gr & Hcr).
  apply rand_bytes_len in Hcr; [|done]. pose proof (openssl_sha512_len _ _ Hh) as Hhl.
  assert (Hs : s_commitment s = h /\ s_client_init_msg s = client_init cr h /\
               s_server_init_msg s = si).
  { revert Hsi. unfold handle_client_init. rewrite check_client_init_fields;
      [|done|apply client_init_len; unfold RANDOM_SIZE in *; lia].
    destruct (generate_keypair g0) as [[sk|] g2]; [|done].
    destruct (random_bytes RANDOM_SIZE g2) as [[sr|] g3]; [|done].
    destruct (encode_public_key sk) as [spk|]; [|done]. by intros [= <- <- <-]. }
  destruct Hs as (Hs1 & Hs2 & Hs3). rewrite Hcf, Hh. split.
  - intros cf r. unfold handle_client_finished, sha512, stack.
    destruct (openssl_sha512 cf) as [h'|]; [|done]. cbn [ok_or try_bind].
    destruct (bool_decide (h' = s_commitment s)) eqn:E; cbn [negb]; [|discriminate].
    apply bool_decide_eq_true in E. intros Hr. inv_ok. subst r h'.
    cbn [client_init_msg server_init_msg]. rewrite Hs1, Hs2, Hs3. by eauto.
  - intros cf h' Hh' Hne. unfold handle_client_finished, sha512, stack. rewrite Hh'.
    cbn [ok_or try_bind]. rewrite bool_decide_false by congruence. done.
Qed.

Lemma commitment_binds_witness :
  match @start Toy.rand Toy.ec Toy.digest 7 with
  | (Ok (c, ci), _) =>
      match @handle_client_init Toy.rand Toy.ec ci 4 with
      | (Ok (s, si), _) =>
          @handle_client_finished Toy.rand Toy.ec Toy.digest s (str "x")
          = Err (EMalformed "client finished does not match its commitment")
      | _ => False
      end
  | _ => False
  end.
Proof.
  assert (Hok : match fst (@start Toy.rand Toy.ec Toy.digest 7) with
    | Ok (c, ci) =>
        is_ok (fst (@handle_client_init Toy.rand Toy.ec ci 4)) &&
        negb (bool_decide (@openssl_sha512 Toy.digest (c_client_finished_msg c)
                           = @openssl_sha512 Toy.digest (str "x")))
    | Err _ => false
    end = true) by (vm_compute; reflexivity).
  destruct (@start Toy.rand Toy.ec Toy.digest 7) as [[[c ci]|e] g'] eqn:Hst; [|discriminate Hok].
  cbn [fst] in Hok. apply andb_true_iff in Hok as [Hok Hne].
  apply negb_true_iff, bool_decide_eq_false in Hne.
  destruct (@handle_client_init Toy.rand Toy.ec ci 4) as [[[s si]|e] g1] eqn:Hsi;
    [|discriminate Hok].
  destruct (@commitment_binds Toy.rand Toy.ec Toy.rand_laws Toy.digest Toy.digest_laws
    7 c ci g' 4 s si g1 Hst Hsi) as [_ H2].
  exact (H2 (str "x") _ eq_refl Hne).
Defined.

(** What a client accepts.  A ServerInit it finishes on is a well-formed envelope of type
    ServerInit around a well-formed body whose last version is 1, whose last nonce is 32 bytes,
    whose last cipher is the one offered and whose last public key passes the decoder; the
    result carries the secret with that key and the message as it was received. *)
Theorem server_init_accepted `{Ec} `{Digest} c m cf r :
  fits m -> handle_server_init c m = Ok (cf, r) ->
  exists body fs nonce pk peer,
    snd (fields_of m) = None /\
    last_varint MSG_TYPE (fst (fields_of m)) = Some TYPE_SERVER_INIT /\
    last_bytes MSG_DATA (fst (fields_of m)) = Some body /\
    fields_of body = (fs, None) /\
    last_varint SI_VERSION fs = Some 1 /\
    last_bytes SI_RANDOM fs = Some nonce /\ len nonce = 32 /\
    last_varint SI_CIPHER fs = Some 100 /\
    last_bytes SI_PUBLIC_KEY fs = Some pk /\ decode_public_key pk = Ok peer /\
    shared_secret (c_key c) peer = Ok (dhs r) /\
    cf = c_client_finished_msg c /\ client_init_msg r = c_client_init_msg c /\
    server_init_msg r = m.
Proof.
  intros Hf. unfold handle_server_init. intros (body & Hu & H3)%try_bind_Ok.
  apply unwrap_Ok in Hu as (Hm & Ht & Hd); [|done].
  assert (Hfb : fits body) by (eapply fits_le; [apply (last_bytes_len _ _ _ Hd)|done]).
  rewrite for_each_field_grammar in H3 by done. apply try_bind_Ok in H3 as (i & Hi & H3).
  apply run_pure in Hi as [Hn ->]. rewrite server_init_read in H3.
  cbn [si_version si_random si_cipher si_public_key] in H3.
  destruct (fields_of body) as [fs e] eqn:Hfs. cbn [fst snd] in Hn, H3. subst e.
  destruct (bool_decide (last_varint SI_VERSION fs = _)) eqn:Hv; [|discriminate H3].
  destruct (is_nonce _) eqn:Hr; [|discriminate H3].
  destruct (bool_decide (last_varint SI_CIPHER fs = _)) eqn:Hc; [|discriminate H3].
  cbn [negb] in H3. apply bool_decide_eq_true in Hv, Hc. apply is_nonce_true in Hr as (nonce & Hr & Hl).
  apply try_bind_Ok in H3 as (pk & Hpk & H3). apply try_bind_Ok in H3 as (peer & Hpeer & H3).
  apply try_bind_Ok in H3 as (z & Hz & H3). apply ok_or_Ok in Hpk.
  apply Ok_inj, pair_equal_spec in H3 as [<- <-].
  exists body, fs, nonce, pk, peer. by repeat split.
Qed.

Lemma server_init_accepted_witness :
  let k := encode (gpk_fields (encode (point_fields [] [to_u8 1]))) in
  let m := server_init (replicate 32 (to_u8 5)) k in
  last_varint MSG_TYPE (fst (fields_of m)) = Some TYPE_SERVER_INIT.
Proof.
  intros k m.
  destruct (@server_init_accepted Toy.rand Toy.ec Toy.digest
      (mkClientHandshake (7 : @private_key Toy.rand Toy.ec) (str "f") (str "i")) m (str "f")
      (mkHandshakeResult (to_be_bytes 32 (Toy.checksum [] (to_be_bytes 32 0))) (str "i") m))
    as (body & fs & nonce & pk & peer & _ & Ht & _);
    [vm_compute; discriminate|vm_compute; reflexivity|].
  exact Ht.
Defined.
