(* ===== verification/Hkdf.v ===== *)
(** * HKDF-SHA256 ([protocol/src/hkdf.rs])

    [extract], [expand] and [derive] over the HMAC of [Crypto].  The block counter is a [u8]
    incremented after every block; the crate is built with overflow checks, so an increment
    past 255 is a panic, which the model makes a value. *)

From S2P Require Import Prelude Crypto.

Definition HASH_LEN : Z := 32.
Definition MAX_OUTPUT_LEN : Z := 255 * HASH_LEN.

Inductive Fault : Type :=
| ErrorStack
| Panic (why : string).

Section Hkdf.
Context `{Hmac}.

Definition hmac_sha256 (key data : list byte) : result (list byte) Fault :=
  ok_or (openssl_hmac key data) ErrorStack.

Definition extract (salt ikm : list byte) : result (list byte) Fault :=
  let salt := if is_empty salt then replicate (Z.to_nat HASH_LEN) (to_u8 0) else salt in
  hmac_sha256 salt ikm.

(** [while out.len() < length]: 256 rounds exhaust the counter. *)
Fixpoint expand_loop (fuel : nat) (prk info : list byte) (length : Z)
    (out t : list byte) (counter : Z) : result (list byte) Fault :=
  match fuel with
  | O => Err (Panic "out of fuel")
  | S fuel =>
      if len out <? length then
        let input := t ++ info ++ [to_u8 counter] in
        let? t := hmac_sha256 prk input in
        let n := Z.min (length - len out) (len t) in
        let out := out ++ take (Z.to_nat n) t in
        if counter =? 255 then Err (Panic "attempt to add with overflow")
        else expand_loop fuel prk info length out t (counter + 1)
      else Ok out
  end.

Definition expand (prk info : list byte) (length : Z) : result (list byte) Fault :=
  if negb (length <=? MAX_OUTPUT_LEN)
  then Err (Panic "HKDF output exceeds RFC 5869 maximum")
  else expand_loop 256 prk info length [] [] 1.

Definition derive (ikm salt info : list byte) (length : Z) : result (list byte) Fault :=
  let? prk := extract salt ikm in
  expand prk info length.

(** ** RFC 5869

    [T(0) = ""], [T(i) = HMAC(prk, T(i-1) || info || i)], and the output is a prefix of
    [T(1) || T(2) || ...]. *)

Fixpoint T (prk info : list byte) (n : nat) : option (list byte) :=
  match n with
  | O => Some []
  | S m => let^ t := T prk info m in
           openssl_hmac prk (t ++ info ++ [to_u8 (Z.of_nat n)])
  end.

(** [T(i+1) || ... || T(i+n)]. *)
Fixpoint blocks (prk info : list byte) (i n : nat) : option (list byte) :=
  match n with
  | O => Some []
  | S n => let^ t := T prk info (S i) in
           let^ ts := blocks prk info (S i) n in Some (t ++ ts)
  end.

(** The RFC's output: [ceil(length / 32)] blocks, cut to [length]. *)
Definition rfc_expand (prk info : list byte) (length : Z) : option (list byte) :=
  let^ ts := blocks prk info 0 (Z.to_nat ((length + 31) / 32)) in
  Some (take (Z.to_nat length) ts).

Context `{!HmacLaws}.

Lemma T_len prk info n t : T prk info (S n) = Some t -> len t = 32.
Proof using All.
  cbn [T]. intros Ht. inv_ok. by eapply openssl_hmac_len.
Qed.

Lemma blocks_len prk info i n ts : blocks prk info i n = Some ts -> len ts = 32 * Z.of_nat n.
Proof using All.
  revert i ts. induction n as [|n IH]; intros i ts; cbn [blocks]; [by intros [= <-]|].
  intros Hb. inv_ok. injection Hb as <-. rewrite len_app.
  match goal with H : T _ _ _ = Some _ |- _ => apply T_len in H end.
  match goal with H : blocks _ _ _ _ = Some _ |- _ => apply IH in H end. lia.
Qed.

Lemma T_S prk info n t :
  T prk info n = Some t ->
  T prk info (S n) = openssl_hmac prk (t ++ info ++ [to_u8 (Z.of_nat (S n))]).
Proof. intros Ht. cbn [T]. by rewrite Ht. Qed.

Lemma blocks_S prk info i n ts :
  blocks prk info i (S n) = Some ts ->
  exists t rest, T prk info (S i) = Some t /\ blocks prk info (S i) n = Some rest /\
    ts = t ++ rest.
Proof.
  cbn [blocks]. destruct (T prk info (S i)) as [t|]; [|done]. cbn [opt_bind].
  destruct (blocks _ _ _ _) as [rest|]; [|done]. intros [= <-]. eauto.
Qed.

(** One round of the loop that has more to do. *)
Lemma expand_loop_round prk info length fuel i out t t' :
  T prk info i = Some t -> T prk info (S i) = Some t' -> len out < length ->
  expand_loop (S fuel) prk info length out t (Z.of_nat i + 1) =
  (let out := out ++ take (Z.to_nat (Z.min (length - len out) 32)) t' in
   if Z.of_nat i + 1 =? 255 then Err (Panic "attempt to add with overflow")
   else expand_loop fuel prk info length out t' (Z.of_nat (S i) + 1)).
Proof using All.
  intros Ht Ht' Hlt. pose proof (T_len _ _ _ _ Ht') as Hl.
  rewrite (T_S _ _ _ _ Ht) in Ht'. cbn [expand_loop].
  rewrite (proj2 (Z.ltb_lt _ _)) by done. unfold hmac_sha256.
  replace (Z.of_nat i + 1) with (Z.of_nat (S i)) by lia.
  rewrite Ht'. cbn [ok_or try_bind]. by rewrite Hl.
Qed.

(** With [m] blocks to go and counter values left for them, the loop appends them, the last
    one cut to the length asked for. *)
Lemma expand_loop_ok prk info length m fuel i out t ts :
  T prk info i = Some t -> len out = 32 * Z.of_nat i -> (i + m <= 254)%nat -> (m < fuel)%nat ->
  32 * Z.of_nat (i + m) - 32 < length <= 32 * Z.of_nat (i + m) ->
  blocks prk info i m = Some ts ->
  expand_loop fuel prk info length out t (Z.of_nat i + 1)
  = Ok (out ++ take (Z.to_nat (length - 32 * Z.of_nat i)) ts).
Proof using All.
  revert fuel i out t ts. induction m as [|m IH]; intros fuel i out t ts Ht Hout Hi Hf Hlen Hb.
  - destruct fuel as [|fuel]; [lia|]. cbn [expand_loop blocks] in *. injection Hb as <-.
    rewrite (proj2 (Z.ltb_ge _ _)) by lia. by rewrite take_nil, app_nil_r.
  - destruct fuel as [|fuel]; [lia|]. apply blocks_S in Hb as (t' & rest & Ht' & Hb & ->).
    rewrite (expand_loop_round _ _ _ _ _ _ _ _ Ht Ht') by lia. cbn zeta.
    rewrite (proj2 (Z.eqb_neq _ _)) by lia.
    pose proof (T_len _ _ _ _ Ht') as Hl. pose proof (len_nat t') as Hl'.
    destruct m as [|m].
    + cbn [blocks] in Hb. injection Hb as <-. destruct fuel as [|fuel]; [lia|].
      cbn [expand_loop]. rewrite (proj2 (Z.ltb_ge _ _)).
      2:{ rewrite len_app, len_take. lia. }
      do 2 f_equal. rewrite app_nil_r. f_equal. lia.
    + rewrite (IH fuel (S i) _ t' rest); try done; try lia.
      * rewrite <- app_assoc. do 2 f_equal.
        rewrite (take_ge t') by lia.
        rewrite take_app_ge by lia. do 2 f_equal. lia.
      * rewrite len_app, len_take. lia.
Qed.

(** When the 255th block is needed the counter overflows after it. *)
Lemma expand_loop_overflow prk info length m fuel i out t ts :
  T prk info i = Some t -> len out = 32 * Z.of_nat i -> (i + S m = 255)%nat ->
  (m < fuel)%nat -> 32 * 254 < length -> blocks prk info i (S m) = Some ts ->
  expand_loop fuel prk info length out t (Z.of_nat i + 1)
  = Err (Panic "attempt to add with overflow").
Proof using All.
  revert fuel i out t ts. induction m as [|m IH]; intros fuel i out t ts Ht Hout Hi Hf Hlen Hb;
    (destruct fuel as [|fuel]; [lia|]); apply blocks_S in Hb as (t' & rest & Ht' & Hb & ->);
    rewrite (expand_loop_round _ _ _ _ _ _ _ _ Ht Ht') by lia; cbn zeta.
  - by rewrite (proj2 (Z.eqb_eq _ _)) by lia.
  - rewrite (proj2 (Z.eqb_neq _ _)) by lia.
    pose proof (T_len _ _ _ _ Ht') as Hl.
    eapply (IH fuel (S i)); try done; try lia. rewrite len_app, len_take. lia.
Qed.

(** A failing HMAC is reported. *)
Lemma expand_loop_fails prk info length fuel :
  0 < length -> openssl_hmac prk (info ++ [to_u8 1]) = None ->
  expand_loop (S fuel) prk info length [] [] 1 = Err ErrorStack.
Proof.
  intros Hl Hn. cbn [expand_loop]. change (@len byte []) with 0.
  rewrite (proj2 (Z.ltb_lt _ _)) by done. unfold hmac_sha256. cbn [app]. by rewrite Hn.
Qed.

Lemma expand_rfc prk info length out :
  0 <= length <= 254 * 32 -> rfc_expand prk info length = Some out ->
  expand prk info length = Ok out.
Proof using All.
  intros Hl Hr. unfold rfc_expand in Hr. inv_ok. injection Hr as <-. unfold expand.
  rewrite (proj2 (Z.leb_le _ _)) by (unfold MAX_OUTPUT_LEN, HASH_LEN; lia). cbn [negb].
  pose proof (Z.div_mod (length + 31) 32 ltac:(lia)).
  pose proof (Z.mod_pos_bound (length + 31) 32 ltac:(lia)).
  change 1 with (Z.of_nat 0 + 1).
  erewrite (expand_loop_ok prk info length _ 256 0 [] []); try done; try lia.
  cbn [app]. do 3 f_equal. lia.
Qed.
End Hkdf.

(** ** Properties *)

(** Up to 254 blocks, [expand] is RFC 5869's function: exactly [length] bytes, the prefix
    of [T(1) || T(2) || ...] with the one-based single-byte counter.  A length that needs the
    255th block, which both RFC 5869 and the assertion before the loop allow, panics: the
    counter overflows after that block. *)
Theorem hkdf_expand `{Hmac} `{!HmacLaws} prk info length :
  (forall d, is_Some (openssl_hmac prk d)) ->
  (0 <= length <= 254 * HASH_LEN ->
   exists out, expand prk info length = Ok out /\ rfc_expand prk info length = Some out /\
               len out = length) /\
  (254 * HASH_LEN < length <= MAX_OUTPUT_LEN ->
   expand prk info length = Err (Panic "attempt to add with overflow")).
Proof.
  intros Htot.
  assert (HT : forall n, is_Some (T prk info n)).
  { induction n as [|n [t Ht]]; [by eexists|]. rewrite (T_S _ _ _ _ Ht). apply Htot. }
  assert (HB : forall n i, is_Some (blocks prk info i n)).
  { induction n as [|n IH]; intros i; [by eexists|]. cbn [blocks].
    destruct (HT (S i)) as [t ->]. destruct (IH (S i)) as [ts ->]. by eexists. }
  unfold MAX_OUTPUT_LEN, HASH_LEN. split; intros Hl.
  - destruct (HB (Z.to_nat ((length + 31) / 32)) 0%nat) as [ts Hts].
    assert (Hr : rfc_expand prk info length = Some (take (Z.to_nat length) ts))
      by (unfold rfc_expand; by rewrite Hts).
    eexists. split; [by apply expand_rfc|]. split; [done|].
    rewrite len_take. apply blocks_len in Hts. rewrite Hts.
    pose proof (Z.div_mod (length + 31) 32 ltac:(lia)).
    pose proof (Z.mod_pos_bound (length + 31) 32 ltac:(lia)). lia.
  - destruct (HB 255%nat 0%nat) as [ts Hts]. unfold expand, MAX_OUTPUT_LEN, HASH_LEN.
    rewrite (proj2 (Z.leb_le _ _)) by lia. cbn [negb].
    change 1 with (Z.of_nat 0 + 1).
    by eapply (expand_loop_overflow prk info length 254 256 0 [] []); try done; try lia.
Qed.

Lemma hkdf_expand_witness :
  exists out, @expand Toy.hmac (str "prk") (str "info") 42 = Ok out /\
    @rfc_expand Toy.hmac (str "prk") (str "info") 42 = Some out /\ len out = 42.
Proof.
  refine (proj1 (@hkdf_expand Toy.hmac Toy.hmac_laws (str "prk") (str "info") 42 _) _).
  - intros d. by eexists.
  - unfold HASH_LEN. lia.
Defined.
