(* ===== verification/D2d.v ===== *)
(** * Traffic keys ([protocol/src/d2d.rs])

    The three HKDF stages from the handshake's shared secret to the four keys, and which of
    them each end sends and receives with. *)

From S2P Require Import Prelude Crypto Hkdf.

Definition KEY_SIZE : Z := 32.

Definition UKEY2_AUTH_SALT : list byte := str "UKEY2 v1 auth".
Definition UKEY2_NEXT_SALT : list byte := str "UKEY2 v1 next".

Definition D2D_SALT : list byte := to_u8 <$>
  [0x82; 0xAA; 0x55; 0xA0; 0xD3; 0x97; 0xF8; 0x83; 0x46; 0xCA; 0x1C; 0xEE; 0x8D; 0x39; 0x09; 0xB9;
   0x5F; 0x13; 0xFA; 0x7D; 0xEB; 0x1D; 0x4A; 0xB3; 0x83; 0x76; 0xB8; 0x25; 0x6D; 0xA8; 0x55; 0x10].

Definition SM_SALT : list byte := to_u8 <$>
  [0xBF; 0x9D; 0x2A; 0x53; 0xC6; 0x36; 0x16; 0xD7; 0x5D; 0xB0; 0xA7; 0x16; 0x5B; 0x91; 0xC1; 0xEF;
   0x73; 0xE5; 0x37; 0xF2; 0x42; 0x74; 0x05; 0xFA; 0x23; 0x61; 0x0A; 0x4B; 0xE6; 0x57; 0x64; 0x2E].

Definition INFO_CLIENT : list byte := str "client".
Definition INFO_SERVER : list byte := str "server".
Definition INFO_ENCRYPT : list byte := str "ENC:2".
Definition INFO_HMAC : list byte := str "SIG:1".

Inductive Role : Type := Client | Server.

(** The other end. *)
Definition peer (r : Role) : Role := match r with Client => Server | Server => Client end.

Record SessionKeys : Type := mkSessionKeys {
  client_encrypt : list byte;
  client_hmac : list byte;
  server_encrypt : list byte;
  server_hmac : list byte
}.

(** Keys for frames WE send: [(encrypt, hmac)]. *)
Definition send (k : SessionKeys) (r : Role) : list byte * list byte :=
  match r with
  | Client => (client_encrypt k, client_hmac k)
  | Server => (server_encrypt k, server_hmac k)
  end.

(** Keys for frames the PEER sends. *)
Definition recv (k : SessionKeys) (r : Role) : list byte * list byte :=
  match r with
  | Client => (server_encrypt k, server_hmac k)
  | Server => (client_encrypt k, client_hmac k)
  end.

Record Ukey2Secrets : Type := mkUkey2Secrets {
  auth_string : list byte;
  next_secret : list byte
}.

Section Derivation.
Context `{Hmac}.

Definition ukey2_secrets (dhs client_init server_init : list byte)
    : result Ukey2Secrets Fault :=
  let info := client_init ++ server_init in
  let? auth_string := derive dhs UKEY2_AUTH_SALT info KEY_SIZE in
  let? next_secret := derive dhs UKEY2_NEXT_SALT info KEY_SIZE in
  Ok (mkUkey2Secrets auth_string next_secret).

Definition session_keys (next_secret : list byte) : result SessionKeys Fault :=
  let? d2d_client := derive next_secret D2D_SALT INFO_CLIENT KEY_SIZE in
  let? d2d_server := derive next_secret D2D_SALT INFO_SERVER KEY_SIZE in
  let? client_encrypt := derive d2d_client SM_SALT INFO_ENCRYPT KEY_SIZE in
  let? client_hmac := derive d2d_client SM_SALT INFO_HMAC KEY_SIZE in
  let? server_encrypt := derive d2d_server SM_SALT INFO_ENCRYPT KEY_SIZE in
  let? server_hmac := derive d2d_server SM_SALT INFO_HMAC KEY_SIZE in
  Ok (mkSessionKeys client_encrypt client_hmac server_encrypt server_hmac).

Definition derive_all (dhs client_init server_init : list byte)
    : result (Ukey2Secrets * SessionKeys) Fault :=
  let? secrets := ukey2_secrets dhs client_init server_init in
  let? keys := session_keys (next_secret secrets) in
  Ok (secrets, keys).

(** ** Lemmas *)

Context `{!HmacLaws}.

Lemma expand_key prk info :
  expand prk info KEY_SIZE = ok_or (openssl_hmac prk (info ++ [to_u8 1])) ErrorStack.
Proof using All.
  destruct (openssl_hmac prk (info ++ [to_u8 1])) as [t|] eqn:Ht.
  - apply expand_rfc; [done|].
    assert (H1 : T prk info 1 = Some t) by exact Ht.
    apply openssl_hmac_len in Ht. unfold rfc_expand.
    change (Z.to_nat ((KEY_SIZE + 31) / 32)) with 1%nat. cbn [blocks]. rewrite H1.
    cbn [opt_bind]. rewrite app_nil_r. f_equal. apply take_ge.
    rewrite len_nat in Ht. change (Z.to_nat KEY_SIZE) with 32%nat. lia.
  - unfold expand. change (negb (KEY_SIZE <=? MAX_OUTPUT_LEN)) with false. cbv iota.
    by apply expand_loop_fails.
Qed.

(** One block, in closed form: [HMAC(HMAC(salt, ikm), info || 0x01)]. *)
Lemma derive_block ikm salt info out :
  salt <> [] ->
  derive ikm salt info KEY_SIZE = Ok out <->
  exists prk, openssl_hmac salt ikm = Some prk /\
              openssl_hmac prk (info ++ [to_u8 1]) = Some out.
Proof using All.
  intros Hs. unfold derive, extract, Hkdf.hmac_sha256.
  destruct salt as [|b salt]; [done|]. cbn [is_empty].
  destruct (openssl_hmac (b :: salt) ikm) as [prk|] eqn:Hp; cbn [ok_or try_bind].
  2:{ split; [done|]. by intros (prk & ? & _). }
  rewrite expand_key. split.
  - destruct (openssl_hmac prk _) as [t|] eqn:Ht; [|done]. cbn. intros <-%Ok_inj. eauto.
  - intros (prk' & [= <-] & Ht). by rewrite Ht.
Qed.

Lemma derive_len ikm salt info out :
  salt <> [] -> derive ikm salt info KEY_SIZE = Ok out -> len out = KEY_SIZE.
Proof using All. intros Hs (prk & _ & Ht)%derive_block; [|done]. by apply openssl_hmac_len in Ht. Qed.

Definition wf_keys (k : SessionKeys) : Prop :=
  len (client_encrypt k) = KEY_SIZE /\ len (client_hmac k) = KEY_SIZE /\
  len (server_encrypt k) = KEY_SIZE /\ len (server_hmac k) = KEY_SIZE.

Lemma session_keys_wf s k : session_keys s = Ok k -> wf_keys k.
Proof using All.
  unfold session_keys. intros Hk. inv_ok. subst.
  repeat split; cbn; (eapply derive_len; [|eassumption]; done).
Qed.

Lemma derive_all_wf dhs ci si s k :
  derive_all dhs ci si = Ok (s, k) -> wf_keys k /\ len (auth_string s) = KEY_SIZE.
Proof using All.
  unfold derive_all. intros Hd. inv_ok. simplify_eq. split; [by eapply session_keys_wf|].
  unfold ukey2_secrets in *. inv_ok. subst. cbn. eapply derive_len; [|eassumption]. done.
Qed.
End Derivation.

(** What one end sends with is what the other receives with. *)
Lemma send_recv k r : send k r = recv k (peer r).
Proof. by destruct r. Qed.

Lemma send_wf k r : wf_keys k -> len (fst (send k r)) = KEY_SIZE.
Proof. intros (? & ? & ? & ?). by destruct r. Qed.
