(* ===== verification/SecureMessage.v ===== *)
(** * The SecureMessage envelope ([protocol/src/securemessage.rs])

    [encrypt_and_sign] and [verify_and_decrypt], over the HMAC, cipher and comparison of
    [Crypto].  The second inverts the first, and nothing about the ciphertext is looked at
    until the signature has matched. *)

From S2P Require Import Prelude Protobuf Crypto.

Definition AES_KEY_SIZE : Z := 32.
Definition HMAC_KEY_SIZE : Z := 32.
Definition IV_SIZE : Z := 16.
Definition HMAC_SIZE : Z := 32.

Definition SM_HEADER_AND_BODY : Z := 1.
Definition SM_SIGNATURE : Z := 2.
Definition HB_HEADER : Z := 1.
Definition HB_BODY : Z := 2.
Definition HDR_SIGNATURE_SCHEME : Z := 1.
Definition HDR_ENCRYPTION_SCHEME : Z := 2.
Definition HDR_IV : Z := 5.
Definition HDR_PUBLIC_METADATA : Z := 6.
Definition SIG_SCHEME_HMAC_SHA256 : Z := 1.
Definition ENC_SCHEME_AES_256_CBC : Z := 2.

Definition D2D_MESSAGE : Z := 1.
Definition D2D_SEQUENCE_NUMBER : Z := 2.

Definition GCM_TYPE : Z := 1.
Definition GCM_VERSION : Z := 2.
Definition GCM_TYPE_DEVICE_TO_DEVICE_MESSAGE : Z := 13.
Definition GCM_VERSION_VALUE : Z := 1.

Inductive Error : Type :=
| BadSignature
| EMalformed (why : string)
| EProtobuf (e : Protobuf.Error)
| ECrypto.

#[export] Instance Error_from_protobuf : From Protobuf.Error Error := EProtobuf.

Record Unwrapped : Type := mkUnwrapped { sequence_number : Z; payload : list byte }.

(** [f()?] on an OpenSSL result. *)
Definition stack {A} (o : option A) : result A Error := ok_or o ECrypto.

Definition random_iv `{Rand} (g : rng) : result (list byte) Error * rng :=
  let (iv, g) := rand_bytes IV_SIZE g in (stack iv, g).

Definition gcm_metadata : list byte :=
  Writer.finish (Writer.new
    |> Writer.varint GCM_TYPE GCM_TYPE_DEVICE_TO_DEVICE_MESSAGE
    |> Writer.varint GCM_VERSION GCM_VERSION_VALUE).

Section Envelope.
Context `{Hmac} `{Cipher} `{Memcmp}.

Definition hmac_sha256 (key data : list byte) : result (list byte) Error :=
  stack (openssl_hmac key data).

Definition encrypt_and_sign (encrypt_key hmac_key : list byte) (sequence_number : Z)
    (payload iv : list byte) : result (list byte) Error :=
  if negb (len encrypt_key =? AES_KEY_SIZE)
  then Err (EMalformed "encrypt key is not 32 bytes")
  else if negb (len iv =? IV_SIZE) then Err (EMalformed "iv is not 16 bytes")
  else
    let d2d := Writer.new
      |> Writer.bytes D2D_MESSAGE payload
      |> Writer.varint D2D_SEQUENCE_NUMBER (as_u64 sequence_number) in
    let? body := stack (openssl_encrypt encrypt_key iv (Writer.finish d2d)) in
    let header := Writer.new
      |> Writer.varint HDR_SIGNATURE_SCHEME SIG_SCHEME_HMAC_SHA256
      |> Writer.varint HDR_ENCRYPTION_SCHEME ENC_SCHEME_AES_256_CBC
      |> Writer.bytes HDR_IV iv
      |> Writer.bytes HDR_PUBLIC_METADATA gcm_metadata in
    let hb := Writer.finish (Writer.new
      |> Writer.bytes HB_HEADER (Writer.finish header)
      |> Writer.bytes HB_BODY body) in
    let? signature := hmac_sha256 hmac_key hb in
    Ok (Writer.finish (Writer.new
      |> Writer.bytes SM_HEADER_AND_BODY hb
      |> Writer.bytes SM_SIGNATURE signature)).

Definition verify_and_decrypt (encrypt_key hmac_key message : list byte)
    : result Unwrapped Error :=
  if negb (len encrypt_key =? AES_KEY_SIZE)
  then Err (EMalformed "encrypt key is not 32 bytes")
  else
    let? hb := first_bytes message SM_HEADER_AND_BODY in
    let? hb := ok_or hb (EMalformed "no header_and_body") in
    let? signature := first_bytes message SM_SIGNATURE in
    let? signature := ok_or signature (EMalformed "no signature") in
    let? expected := hmac_sha256 hmac_key hb in
    if negb (len signature =? len expected) || negb (memcmp_eq signature expected)
    then Err BadSignature
    else
      let? header := first_bytes hb HB_HEADER in
      let? header := ok_or header (EMalformed "no header") in
      let? body := first_bytes hb HB_BODY in
      let? body := ok_or body (EMalformed "no body") in
      let? sig_scheme := first_varint header HDR_SIGNATURE_SCHEME in
      if negb (bool_decide (sig_scheme = Some SIG_SCHEME_HMAC_SHA256))
      then Err (EMalformed "signature scheme is not HMAC_SHA256")
      else
        let? enc_scheme := first_varint header HDR_ENCRYPTION_SCHEME in
        if negb (bool_decide (enc_scheme = Some ENC_SCHEME_AES_256_CBC))
        then Err (EMalformed "encryption scheme is not AES_256_CBC")
        else
          let? iv := first_bytes header HDR_IV in
          let? iv := ok_or iv (EMalformed "no iv") in
          if negb (len iv =? IV_SIZE) then Err (EMalformed "iv is not 16 bytes")
          else
            let? plain := stack (openssl_decrypt encrypt_key iv body) in
            let? payload := first_bytes plain D2D_MESSAGE in
            let? payload := ok_or payload (EMalformed "no d2d message") in
            let? seq := first_varint plain D2D_SEQUENCE_NUMBER in
            let? seq := ok_or seq (EMalformed "no sequence number") in
            Ok (mkUnwrapped (as_i32 (as_i64 seq)) payload).

End Envelope.

(** ** Lemmas *)

Definition d2d_fields (seq : Z) (payload : list byte) : list Field :=
  [Bytes D2D_MESSAGE payload; Varint D2D_SEQUENCE_NUMBER (as_u64 seq)].

Definition header_fields (iv : list byte) : list Field :=
  [Varint HDR_SIGNATURE_SCHEME SIG_SCHEME_HMAC_SHA256;
   Varint HDR_ENCRYPTION_SCHEME ENC_SCHEME_AES_256_CBC;
   Bytes HDR_IV iv; Bytes HDR_PUBLIC_METADATA gcm_metadata].

Definition hb_fields (iv body : list byte) : list Field :=
  [Bytes HB_HEADER (encode (header_fields iv)); Bytes HB_BODY body].

Definition sm_fields (hb signature : list byte) : list Field :=
  [Bytes SM_HEADER_AND_BODY hb; Bytes SM_SIGNATURE signature].

Section Roundtrip.
Context `{Hmac} `{Cipher} `{Memcmp} `{!CipherLaws} `{!MemcmpLaws}.

(** What a successful [encrypt_and_sign] wrote. *)
Lemma encrypt_and_sign_Ok ek hk seq payload iv m :
  encrypt_and_sign ek hk seq payload iv = Ok m ->
  exists body signature,
    len ek = AES_KEY_SIZE /\ len iv = IV_SIZE /\
    openssl_encrypt ek iv (encode (d2d_fields seq payload)) = Some body /\
    openssl_hmac hk (encode (hb_fields iv body)) = Some signature /\
    m = encode (sm_fields (encode (hb_fields iv body)) signature).
Proof.
  unfold encrypt_and_sign, hmac_sha256, stack. to_fields.
  destruct (Z.eqb_spec (len ek) AES_KEY_SIZE); [|done].
  destruct (Z.eqb_spec (len iv) IV_SIZE); [|done]. cbn [negb].
  fold (d2d_fields seq payload) (header_fields iv).
  destruct (openssl_encrypt _ _ _) as [body|] eqn:He; [|done]. cbn [ok_or try_bind].
  to_fields. fold (hb_fields iv body).
  destruct (openssl_hmac _ _) as [signature|] eqn:Hs; [|done]. cbn [ok_or try_bind].
  to_fields. intros <-%Ok_inj. by exists body, signature.
Qed.

Lemma verify_signed ek hk seq payload iv m :
  encrypt_and_sign ek hk seq payload iv = Ok m -> fits m -> is_i32 seq ->
  verify_and_decrypt ek hk m = Ok (mkUnwrapped seq payload).
Proof using All.
  intros (body & signature & Hek & Hiv & He & Hs & ->)%encrypt_and_sign_Ok Hf Hseq.
  assert (Hhb : fits (encode (hb_fields iv body))) by fits_in Hf.
  assert (Hh : fits (encode (header_fields iv))) by fits_in Hhb.
  assert (Hb : fits body) by fits_in Hhb.
  assert (Hp : fits (encode (d2d_fields seq payload))).
  { apply openssl_encrypt_len in He. unfold fits in *.
    pose proof (Z.div_mod (len (encode (d2d_fields seq payload))) 16 ltac:(lia)).
    pose proof (Z.mod_pos_bound (len (encode (d2d_fields seq payload))) 16 ltac:(lia)). lia. }
  unfold verify_and_decrypt, hmac_sha256, stack. rewrite Hek, Z.eqb_refl. cbn [negb].
  rewrite !first_bytes_read by (done || wf_nums).
  change (last_bytes SM_HEADER_AND_BODY _) with (Some (encode (hb_fields iv body))).
  change (last_bytes SM_SIGNATURE _) with (Some signature).
  cbn [try_bind ok_or]. rewrite Hs. cbn [try_bind ok_or].
  rewrite Z.eqb_refl, (proj2 (memcmp_eq_spec signature signature eq_refl) eq_refl). cbn [negb orb].
  rewrite !first_bytes_read by (done || wf_nums).
  change (last_bytes HB_HEADER _) with (Some (encode (header_fields iv))).
  change (last_bytes HB_BODY _) with (Some body). cbn [try_bind ok_or].
  rewrite !first_varint_read by (done || wf_nums).
  change (last_varint HDR_SIGNATURE_SCHEME _) with (Some SIG_SCHEME_HMAC_SHA256).
  change (last_varint HDR_ENCRYPTION_SCHEME _) with (Some ENC_SCHEME_AES_256_CBC).
  cbn [try_bind]. rewrite !bool_decide_true by done. cbn [negb].
  rewrite first_bytes_read by (done || wf_nums).
  change (last_bytes HDR_IV _) with (Some iv). cbn [try_bind ok_or].
  rewrite Hiv, Z.eqb_refl. cbn [negb].
  rewrite (openssl_decrypt_encrypt _ _ _ _ He). cbn [try_bind ok_or].
  rewrite first_bytes_read, first_varint_read by (done || wf_nums).
  cbn -[as_u64 as_i64 as_i32]. by rewrite as_i32_i64_u64.
Qed.
End Roundtrip.

(** ** Properties *)

(** Verification inverts signing: the peer recovers exactly the payload and the signed
    32-bit sequence number that were protected. *)
Theorem verify_inverts_sign `{Hmac} `{Cipher} `{Memcmp} `{!CipherLaws}
    `{!MemcmpLaws} ek hk seq payload iv m :
  encrypt_and_sign ek hk seq payload iv = Ok m -> fits m -> is_i32 seq ->
  verify_and_decrypt ek hk m = Ok (mkUnwrapped seq payload).
Proof. apply verify_signed. Qed.

Lemma verify_inverts_sign_witness :
  let k := replicate 32 (to_u8 5) in
  let iv := replicate 16 (to_u8 1) in
  match @encrypt_and_sign Toy.hmac Toy.cipher k k (-3) (str "hello") iv with
  | Ok m => @verify_and_decrypt Toy.hmac Toy.cipher Toy.memcmp k k m
            = Ok (mkUnwrapped (-3) (str "hello"))
  | Err _ => False
  end.
Proof.
  intros k iv.
  destruct (@encrypt_and_sign Toy.hmac Toy.cipher k k (-3) (str "hello") iv) as [m|e] eqn:E.
  - apply (@verify_inverts_sign Toy.hmac Toy.cipher Toy.memcmp Toy.cipher_laws Toy.memcmp_laws
             k k (-3) (str "hello") iv m E); [|unfold_ints; lia].
    assert (Hm : Ok m = @encrypt_and_sign Toy.hmac Toy.cipher k k (-3) (str "hello") iv)
      by (symmetry; exact E).
    vm_compute in Hm. apply Ok_inj in Hm. subst m. vm_compute. discriminate.
  - vm_compute in E. discriminate E.
Defined.

(** HMAC before AES.  If the answer to a message depends in any way on what the cipher
    does with it, the message carries the MAC of the bytes it covers: an unauthentic
    ciphertext, its padding included, has no influence on the outcome. *)
Theorem hmac_gates_decryption `{Hmac} `{Memcmp} `{!MemcmpLaws} (c1 c2 : Cipher) ek hk m :
  @verify_and_decrypt _ c1 _ ek hk m <> @verify_and_decrypt _ c2 _ ek hk m ->
  exists hb signature,
    first_bytes m SM_HEADER_AND_BODY = Ok (Some hb) /\
    first_bytes m SM_SIGNATURE = Ok (Some signature) /\
    openssl_hmac hk hb = Some signature.
Proof.
  unfold verify_and_decrypt, hmac_sha256, stack.
  assert (Hsame : forall (r : result Unwrapped Error) (P : Prop), r <> r -> P)
    by (intros r P Hr; destruct (Hr eq_refl)).
  destruct (negb (len ek =? AES_KEY_SIZE)); [apply Hsame|].
  destruct (first_bytes m SM_HEADER_AND_BODY) as [[hb|]|]; cbn [try_bind ok_or];
    [|apply Hsame..].
  destruct (first_bytes m SM_SIGNATURE) as [[signature|]|]; cbn [try_bind ok_or];
    [|apply Hsame..].
  destruct (openssl_hmac hk hb) as [expected|] eqn:He; cbn [try_bind ok_or]; [|apply Hsame].
  destruct (Z.eqb_spec (len signature) (len expected)) as [Hl|]; cbn [negb orb];
    [|apply Hsame].
  destruct (memcmp_eq signature expected) eqn:Hm; cbn [negb]; [|apply Hsame].
  intros _. exists hb, signature. split; [done|]. split; [done|].
  apply memcmp_eq_spec in Hm; [|done]. by rewrite Hm, He.
Qed.

Lemma hmac_gates_decryption_witness :
  let k := replicate 32 (to_u8 5) in
  let hb := encode (hb_fields (replicate 16 (to_u8 1)) []) in
  let m := encode (sm_fields hb (to_be_bytes 32 (Toy.checksum k hb))) in
  exists hb signature,
    first_bytes m SM_HEADER_AND_BODY = Ok (Some hb) /\
    first_bytes m SM_SIGNATURE = Ok (Some signature) /\
    @openssl_hmac Toy.hmac k hb = Some signature.
Proof.
  intros k hb m.
  apply (@hmac_gates_decryption Toy.hmac Toy.memcmp Toy.memcmp_laws
           (Build_Cipher (fun _ _ _ => None) (fun _ _ _ => None))
           (Build_Cipher (fun _ _ _ => None) (fun _ _ _ => Some [])) k k m).
  vm_compute. discriminate.
Defined.
