(* ===== verification/Channel.v ===== *)
(** * The secure channel ([protocol/src/channel.rs])

    [SecureChannel] holds the keys, the role and the two sequence counters.  The theorems are
    about two ends: frames arrive as they were sent, and nothing the network does to them
    makes the receiver accept anything but a prefix of what was sent, in order. *)

From S2P Require Import Prelude Protobuf Crypto SecureMessage Hkdf D2d.

Inductive Error : Type :=
| NotAuthentic
| ESequence (expected got : Z)
| ECrypto.

(** [i32::wrapping_add]. *)
Definition wrapping_add (a b : Z) : Z := as_i32 (a + b).

Record SecureChannel : Type := mkChannel {
  keys : SessionKeys;
  role : Role;
  send_seq : Z;
  recv_seq : Z
}.

Definition new (k : SessionKeys) (r : Role) : SecureChannel := mkChannel k r 0 0.

Definition counters (c : SecureChannel) : Z * Z := (send_seq c, recv_seq c).

Section Channel.
Context `{Rand} `{Hmac} `{Cipher} `{Memcmp}.

Definition encrypt (payload : list byte) (c : SecureChannel) (g : rng)
    : result (list byte) Error * SecureChannel * rng :=
  let c := mkChannel (keys c) (role c) (wrapping_add (send_seq c) 1) (recv_seq c) in
  let (enc, mac) := send (keys c) (role c) in
  let (iv, g) := random_iv g in
  let r :=
    let? iv := map_err (fun _ => ECrypto) iv in
    map_err (fun _ => ECrypto) (encrypt_and_sign enc mac (send_seq c) payload iv) in
  (r, c, g).

Definition decrypt (wire : list byte) (c : SecureChannel)
    : result (list byte) Error * SecureChannel :=
  let (enc, mac) := recv (keys c) (role c) in
  match map_err (fun _ => NotAuthentic) (verify_and_decrypt enc mac wire) with
  | Err e => (Err e, c)
  | Ok out =>
      let expected := wrapping_add (recv_seq c) 1 in
      if negb (sequence_number out =? expected)
      then (Err (ESequence expected (sequence_number out)), c)
      else (Ok (payload out), mkChannel (keys c) (role c) (send_seq c) expected)
  end.

(** [encrypt] on each payload in turn; the whole run fails if one does. *)
Fixpoint encrypt_all (ps : list (list byte)) (c : SecureChannel) (g : rng)
    : result (list (list byte)) Error * SecureChannel * rng :=
  match ps with
  | [] => (Ok [], c, g)
  | p :: ps =>
      match encrypt p c g with
      | (Err e, c, g) => (Err e, c, g)
      | (Ok w, c, g) =>
          let '(ws, c, g) := encrypt_all ps c g in (map_ok (cons w) ws, c, g)
      end
  end.

(** [decrypt] on whatever arrives. *)
Fixpoint decrypt_all (ws : list (list byte)) (c : SecureChannel)
    : list (result (list byte) Error) * SecureChannel :=
  match ws with
  | [] => ([], c)
  | w :: ws =>
      let (r, c) := decrypt w c in
      let (rs, c) := decrypt_all ws c in (r :: rs, c)
  end.

Definition accepted (rs : list (result (list byte) Error)) : list (list byte) := omap ok rs.

(** ** Lemmas *)

Lemma as_i32_idem z : as_i32 (as_i32 z) = as_i32 z.
Proof.
  unfold_ints. rewrite Z.sub_add, Z.mod_mod by lia. done.
Qed.

Lemma wrapping_add_shift b n : wrapping_add (as_i32 (b + n)) 1 = as_i32 (b + (n + 1)).
Proof.
  unfold wrapping_add. unfold_ints.
  replace ((b + n + 2 ^ (32 - 1)) `mod` 2 ^ 32 - 2 ^ (32 - 1) + 1 + 2 ^ (32 - 1))
    with ((b + n + 2 ^ (32 - 1)) `mod` 2 ^ 32 + 1) by lia.
  rewrite Zplus_mod_idemp_l. do 2 f_equal. lia.
Qed.

Lemma as_i32_inj a b : as_i32 a = as_i32 b -> (a - b) mod 2 ^ 32 = 0.
Proof.
  unfold_ints. intros Heq. rewrite Zminus_mod.
  assert (Hm : (a + 2 ^ (32 - 1)) mod 2 ^ 32 = (b + 2 ^ (32 - 1)) mod 2 ^ 32) by lia.
  replace a with (a + 2 ^ (32 - 1) - 2 ^ (32 - 1)) by lia.
  replace b with (b + 2 ^ (32 - 1) - 2 ^ (32 - 1)) by lia.
  rewrite (Zminus_mod (a + _)), (Zminus_mod (b + _)), Hm, Z.sub_diag. done.
Qed.

Context `{!CipherLaws} `{!MemcmpLaws}.

(** A frame of the sender: what it verifies to at the other end. *)
Definition frame_for (k : SessionKeys) (r : Role) (seq : Z) (p w : list byte) : Prop :=
  let (enc, mac) := recv k (peer r) in
  verify_and_decrypt enc mac w = Ok (mkUnwrapped seq p).

Lemma encrypt_frame p c g w c' g' :
  encrypt p c g = (Ok w, c', g') -> fits w ->
  c' = mkChannel (keys c) (role c) (wrapping_add (send_seq c) 1) (recv_seq c) /\
  frame_for (keys c) (role c) (wrapping_add (send_seq c) 1) p w.
Proof using All.
  unfold encrypt, frame_for. cbn [keys role send_seq recv_seq].
  rewrite <- send_recv. destruct (send (keys c) (role c)) as [enc mac].
  destruct (random_iv g) as [[iv|e] g1]; cbn [map_err try_bind]; [|done].
  destruct (encrypt_and_sign _ _ _ _ _) as [w'|e] eqn:He; cbn [map_err]; [|done].
  intros [= <- <- <-] Hf. split; [done|].
  eapply verify_signed; [exact He|done|apply as_i32_range].
Qed.

(** The frames of a run carry consecutive sequence numbers from the counter on. *)
Lemma encrypt_all_frames ps c g ws c' g' b n :
  encrypt_all ps c g = (Ok ws, c', g') -> Forall fits ws -> send_seq c = as_i32 (b + n) ->
  keys c' = keys c /\ role c' = role c /\ recv_seq c' = recv_seq c /\
  send_seq c' = as_i32 (b + (n + len ps)) /\ length ws = length ps /\
  forall i p w, ps !! i = Some p -> ws !! i = Some w ->
    frame_for (keys c) (role c) (as_i32 (b + (n + Z.of_nat i + 1))) p w.
Proof using All.
  revert c g ws n. induction ps as [|p ps IH]; intros c g ws n; cbn [encrypt_all].
  - intros [= <- <- <-] _ Hs. simpl_len. rewrite Z.add_0_r. naive_solver.
  - destruct (encrypt p c g) as [[[w|e] c1] g1] eqn:He; [|done].
    destruct (encrypt_all ps c1 g1) as [[[ws1|e] c2] g2] eqn:Hes; cbn [map_ok]; [|done].
    intros [= <- <- <-] Hf Hs. inversion Hf; subst.
    destruct (encrypt_frame _ _ _ _ _ _ He) as [-> Hw]; [done|].
    cbn [keys role send_seq recv_seq] in *. rewrite Hs, wrapping_add_shift in *.
    destruct (IH _ _ _ (n + 1) Hes) as (-> & -> & -> & -> & Hlen & Hfr); [done|done|].
    simpl_len. split_and!; try done.
    + f_equal. lia.
    + cbn [length]. by rewrite Hlen.
    + intros [|i] q v; cbn [lookup list_lookup].
      * intros [= <-] [= <-]. cbn [keys role]. by replace (n + Z.of_nat 0 + 1) with (n + 1) by lia.
      * intros Hq Hv. specialize (Hfr _ _ _ Hq Hv). cbn [keys role] in Hfr.
        replace (n + Z.of_nat (S i) + 1) with (n + 1 + Z.of_nat i + 1) by lia. done.
Qed.

(** Ends in step stay so. *)
Lemma decrypt_next n p c g w c' g' :
  encrypt p c g = (Ok w, c', g') -> fits w ->
  decrypt w (mkChannel (keys c) (peer (role c)) n (send_seq c))
  = (Ok p, mkChannel (keys c') (peer (role c')) n (send_seq c')).
Proof using All.
  intros He Hf. destruct (encrypt_frame _ _ _ _ _ _ He Hf) as [-> Hw].
  unfold decrypt, frame_for in *. cbn [keys role send_seq recv_seq] in *.
  destruct (recv (keys c) (peer (role c))) as [enc mac]. rewrite Hw. cbn [map_err].
  cbn [sequence_number payload]. by rewrite Z.eqb_refl.
Qed.

(** A receiver that has accepted the first [k] frames accepts frame [j] only when [j = k];
    otherwise it reports the two sequence numbers and does not change. *)
Lemma decrypt_frame (c : SecureChannel) b j k p w :
  frame_for (keys c) (peer (role c)) (as_i32 (b + (Z.of_nat j + 1))) p w ->
  recv_seq c = as_i32 (b + Z.of_nat k) ->
  Z.of_nat j < 2 ^ 32 -> Z.of_nat k < 2 ^ 32 ->
  if decide (j = k)
  then decrypt w c = (Ok p, mkChannel (keys c) (role c) (send_seq c) (as_i32 (b + (Z.of_nat k + 1))))
  else exists expected got, decrypt w c = (Err (ESequence expected got), c).
Proof using All.
  unfold frame_for, decrypt. replace (peer (peer (role c))) with (role c) by (by destruct (role c)).
  destruct (recv (keys c) (role c)) as [enc mac]. intros -> Hr Hj Hk. cbn [map_err].
  rewrite Hr, wrapping_add_shift. cbn [sequence_number payload].
  destruct (Z.eqb_spec (as_i32 (b + (Z.of_nat j + 1))) (as_i32 (b + (Z.of_nat k + 1))))
    as [He|He]; cbn [negb].
  - apply as_i32_inj in He. rewrite decide_True; [done|].
    apply Z.mod_divide in He as [q Hq]; [|lia]. lia.
  - rewrite decide_False by congruence. eauto.
Qed.

(** An end to end pair: [c] receives what a channel with the same keys and the other role
    sends, and has accepted [k] frames of the run that started at [b]. *)
Lemma accepted_prefix ps ws b deliveries k c :
  (forall i p w, ps !! i = Some p -> ws !! i = Some w ->
     frame_for (keys c) (peer (role c)) (as_i32 (b + (Z.of_nat i + 1))) p w) ->
  length ws = length ps -> len ps < 2 ^ 32 -> (k <= length ps)%nat ->
  recv_seq c = as_i32 (b + Z.of_nat k) ->
  Forall (fun w => w ∈ ws) deliveries ->
  exists k', accepted (fst (decrypt_all deliveries c)) = take k' (drop k ps).
Proof using All.
  intros Hfr Hl Hn Hk Hr Hd. revert k c Hfr Hk Hr.
  induction Hd as [|w deliveries Hw _ IH]; intros k c Hfr Hk Hr; [by exists 0%nat|].
  apply list_elem_of_lookup in Hw as [j Hj].
  destruct (lookup_lt_is_Some_2 ps j) as [p Hp].
  { rewrite <- Hl. by eapply lookup_lt_Some. }
  pose proof (lookup_lt_Some _ _ _ Hp) as Hjl. rewrite len_nat in Hn.
  pose proof (decrypt_frame c b j k p w (Hfr _ _ _ Hp Hj) Hr ltac:(lia) ltac:(lia)) as Hdec.
  cbn [decrypt_all]. destruct (decide (j = k)) as [->|Hne].
  - rewrite Hdec. set (c1 := mkChannel _ _ _ _).
    destruct (IH (S k) c1 Hfr ltac:(lia)) as [k' Hk'].
    { cbn. do 2 f_equal. lia. }
    exists (S k'). destruct (decrypt_all deliveries c1) as [rs c'].
    cbn [fst] in *. unfold accepted in *.
    change (omap ok (Ok p :: rs)) with (p :: omap ok rs).
    by rewrite Hk', (drop_S _ _ _ Hp).
  - destruct Hdec as (expected & got & ->). destruct (IH k c Hfr Hk Hr) as [k' Hk'].
    exists k'. by destruct (decrypt_all deliveries c).
Qed.
End Channel.

(** ** Properties *)

(** The receiving end of [c]: same keys, other role, having accepted what [c] has sent. *)
Definition receiver_of (c : SecureChannel) : SecureChannel :=
  mkChannel (keys c) (peer (role c)) 0 (send_seq c).

(** A secure channel delivers: whatever the counters are, wrap-around of the 32-bit
    sequence number included, frames taken in the order they were written are all accepted
    and give back exactly the payloads, leaving the two ends in step. *)
Theorem channel_delivers `{Rand} `{Hmac} `{Cipher} `{Memcmp} `{!CipherLaws} `{!MemcmpLaws}
    ps c g ws c' g' :
  encrypt_all ps c g = (Ok ws, c', g') -> Forall fits ws ->
  decrypt_all ws (receiver_of c) = (Ok <$> ps, receiver_of c').
Proof.
  revert c g ws. induction ps as [|p ps IH]; intros c g ws; cbn [encrypt_all].
  - by intros [= <- <- <-] _.
  - destruct (encrypt p c g) as [[[w|e] c1] g1] eqn:He; [|done].
    destruct (encrypt_all ps c1 g1) as [[[ws1|e] c2] g2] eqn:Hes; cbn [map_ok]; [|done].
    intros [= <- <- <-] Hf. inversion Hf; subst.
    cbn [decrypt_all]. unfold receiver_of at 1. rewrite (decrypt_next 0 p c g w c1 g1 He) by done.
    fold (receiver_of c1). by rewrite (IH _ _ _ Hes).
Qed.

Definition toy_keys : SessionKeys :=
  mkSessionKeys (replicate 32 (to_u8 1)) (replicate 32 (to_u8 2))
    (replicate 32 (to_u8 3)) (replicate 32 (to_u8 4)).

(** The counter of this sender is about to wrap. *)
Definition toy_sender : SecureChannel := mkChannel toy_keys Server (2 ^ 31 - 1) 0.

Lemma channel_delivers_witness :
  match @encrypt_all Toy.rand Toy.hmac Toy.cipher [str "a"; str "bc"] toy_sender 1 with
  | (Ok ws, c', _) =>
      @decrypt_all Toy.hmac Toy.cipher Toy.memcmp ws (receiver_of toy_sender)
      = ([Ok (str "a"); Ok (str "bc")], receiver_of c')
  | _ => False
  end.
Proof.
  destruct (@encrypt_all Toy.rand Toy.hmac Toy.cipher [str "a"; str "bc"] toy_sender 1)
    as [[[ws|e] c'] g'] eqn:E.
  - apply (@channel_delivers Toy.rand Toy.hmac Toy.cipher Toy.memcmp Toy.cipher_laws
             Toy.memcmp_laws [str "a"; str "bc"] toy_sender 1 ws c' g' E).
    assert (Hws : fst (fst (@encrypt_all Toy.rand Toy.hmac Toy.cipher [str "a"; str "bc"]
                              toy_sender 1)) = Ok ws) by (rewrite E; reflexivity).
    vm_compute in Hws. apply Ok_inj in Hws. subst ws.
    repeat constructor; vm_compute; discriminate.
  - assert (He : fst (fst (@encrypt_all Toy.rand Toy.hmac Toy.cipher [str "a"; str "bc"]
                             toy_sender 1)) = Err e) by (rewrite E; reflexivity).
    vm_compute in He. discriminate He.
Defined.

(** C6: replay, loss and reordering.  However the network repeats, drops or shuffles the
    frames of a run (of fewer than 2^32), the receiver accepts only a prefix of the payloads
    that were sent, in the order they were sent, each once. *)
Theorem channel_accepts_prefix `{Rand} `{Hmac} `{Cipher} `{Memcmp} `{!CipherLaws}
    `{!MemcmpLaws} ps k r g ws c' g' deliveries :
  encrypt_all ps (new k r) g = (Ok ws, c', g') -> Forall fits ws -> len ps < 2 ^ 32 ->
  Forall (fun w => w ∈ ws) deliveries ->
  exists n, accepted (fst (decrypt_all deliveries (new k (peer r)))) = take n ps.
Proof.
  intros He Hf Hn Hd.
  destruct (encrypt_all_frames ps (new k r) g ws c' g' 0 0 He Hf eq_refl)
    as (_ & _ & _ & _ & Hl & Hfr).
  apply (accepted_prefix ps ws 0 deliveries 0 (new k (peer r))); try done; [|lia].
  intros i p w Hp Hw. cbn [keys role new].
  replace (peer (peer r)) with r by (by destruct r).
  specialize (Hfr i p w Hp Hw). by rewrite !Z.add_0_l in Hfr.
Qed.

Lemma channel_accepts_prefix_witness :
  match @encrypt_all Toy.rand Toy.hmac Toy.cipher [str "a"; str "bc"] (new toy_keys Client) 1 with
  | (Ok ws, _, _) =>
      exists n, accepted (fst (@decrypt_all Toy.hmac Toy.cipher Toy.memcmp (ws ++ rev ws)
                                 (new toy_keys Server))) = take n [str "a"; str "bc"]
  | _ => False
  end.
Proof.
  destruct (@encrypt_all Toy.rand Toy.hmac Toy.cipher [str "a"; str "bc"] (new toy_keys Client) 1)
    as [[[ws|e] c'] g'] eqn:E.
  - apply (@channel_accepts_prefix Toy.rand Toy.hmac Toy.cipher Toy.memcmp Toy.cipher_laws
             Toy.memcmp_laws [str "a"; str "bc"] toy_keys Client 1 ws c' g' (ws ++ rev ws) E).
    + assert (Hws : fst (fst (@encrypt_all Toy.rand Toy.hmac Toy.cipher [str "a"; str "bc"]
                                (new toy_keys Client) 1)) = Ok ws) by (rewrite E; reflexivity).
      vm_compute in Hws. apply Ok_inj in Hws. subst ws.
      repeat constructor; vm_compute; discriminate.
    + reflexivity.
    + apply Forall_forall. intros w Hw. apply elem_of_app in Hw as [Hw|Hw]; [exact Hw|].
      rewrite list_elem_of_In, <- in_rev, <- list_elem_of_In in Hw. exact Hw.
  - assert (He : fst (fst (@encrypt_all Toy.rand Toy.hmac Toy.cipher [str "a"; str "bc"]
                             (new toy_keys Client) 1)) = Err e) by (rewrite E; reflexivity).
    vm_compute in He. discriminate He.
Defined.
