(* ===== verification/Pin.v ===== *)
(** * The confirmation PIN ([protocol/src/pin.rs])

    [derive] folds the auth string into four digits with signed bytes and truncated
    remainders.  The sum [hash + ...] is an unchecked [i32] addition in the source, so the
    model makes an overflow a value and the theorem shows there is none. *)

From S2P Require Import Prelude.

Definition PIN_MODULUS : Z := 9973.
Definition MULTIPLIER_STEP : Z := 31.
Definition PIN_DIGITS : Z := 4.

(** [a + b] on [i32], with overflow checks. *)
Definition i32_add (a b : Z) : option Z :=
  if (- 2 ^ 31 <=? a + b) && (a + b <? 2 ^ 31) then Some (a + b) else None.

Definition wrapping_mul (a b : Z) : Z := as_i32 (a * b).

(** [b as i8 as i32]. *)
Definition signed (b : byte) : Z := as_i8 (u8 b).

Fixpoint derive_loop (l : list byte) (hash multiplier : Z) : option Z :=
  match l with
  | [] => Some hash
  | b :: l =>
      let^ sum := i32_add hash (wrapping_mul (signed b) multiplier) in
      derive_loop l (Z.rem sum PIN_MODULUS)
        (Z.rem (wrapping_mul multiplier MULTIPLIER_STEP) PIN_MODULUS)
  end.

(** [format!("{:04}", n)] of a value below 10000. *)
Definition digit (n : Z) : byte := to_u8 (48 + n).
Definition four_digits (n : Z) : list byte :=
  [digit (n / 1000 mod 10); digit (n / 100 mod 10); digit (n / 10 mod 10); digit (n mod 10)].

(** [None] is an arithmetic overflow, or more than four digits to print. *)
Definition derive (auth_string : list byte) : option (list byte) :=
  let^ hash := derive_loop auth_string 0 1 in
  if Z.abs hash <? 10000 then Some (four_digits (Z.abs hash)) else None.

(** ** Lemmas *)

Lemma signed_range b : -128 <= signed b < 128.
Proof. unfold signed. unfold_ints. pose proof (Z.mod_pos_bound (u8 b + 2 ^ (8 - 1)) (2 ^ 8)). lia. Qed.

Lemma wrapping_mul_small a b : is_i32 (a * b) -> wrapping_mul a b = a * b.
Proof. intros H. unfold wrapping_mul. unfold_ints. rewrite Z.mod_small; lia. Qed.

Lemma i32_add_small a b : is_i32 (a + b) -> i32_add a b = Some (a + b).
Proof.
  intros H. unfold i32_add. unfold_ints.
  by rewrite (proj2 (Z.leb_le _ _)), (proj2 (Z.ltb_lt _ _)) by lia.
Qed.

Lemma rem_range z : - PIN_MODULUS < Z.rem z PIN_MODULUS < PIN_MODULUS.
Proof. pose proof (Z.rem_bound_abs z PIN_MODULUS). unfold PIN_MODULUS in *. lia. Qed.

Lemma rem_cong z : (Z.rem z PIN_MODULUS - z) mod PIN_MODULUS = 0.
Proof.
  pose proof (Z.quot_rem z PIN_MODULUS ltac:(done)) as H.
  replace (Z.rem z PIN_MODULUS - z) with ((- (z ÷ PIN_MODULUS)) * PIN_MODULUS) by lia.
  by rewrite Z.mod_mul.
Qed.

(** [sum of b_i * m * 31^i], the polynomial the loop evaluates. *)
Fixpoint poly (l : list byte) (m : Z) : Z :=
  match l with
  | [] => 0
  | b :: l => signed b * m + poly l (m * MULTIPLIER_STEP)
  end.

Lemma poly_cong l m m' :
  (m - m') mod PIN_MODULUS = 0 -> (poly l m - poly l m') mod PIN_MODULUS = 0.
Proof.
  revert m m'. induction l as [|b l IH]; intros m m' H; [done|]. cbn [poly].
  apply Z.mod_divide in H as [q Hq]; [|done].
  assert (H2 : (m * MULTIPLIER_STEP - m' * MULTIPLIER_STEP) mod PIN_MODULUS = 0).
  { apply Z.mod_divide; [done|]. exists (q * MULTIPLIER_STEP). lia. }
  apply IH, Z.mod_divide in H2 as [r Hr]; [|done].
  apply Z.mod_divide; [done|]. exists (signed b * q + r). lia.
Qed.

Lemma derive_loop_spec l hash m :
  - PIN_MODULUS < hash < PIN_MODULUS -> - PIN_MODULUS < m < PIN_MODULUS ->
  exists h, derive_loop l hash m = Some h /\ - PIN_MODULUS < h < PIN_MODULUS /\
    (h - (hash + poly l m)) mod PIN_MODULUS = 0.
Proof.
  revert hash m. induction l as [|b l IH]; intros hash m Hh Hm; cbn [derive_loop poly].
  - exists hash. split; [done|]. split; [done|]. by replace (hash - (hash + 0)) with 0 by lia.
  - pose proof (signed_range b).
    rewrite wrapping_mul_small by (unfold PIN_MODULUS in *; unfold_ints; nia).
    rewrite i32_add_small by (unfold PIN_MODULUS in *; unfold_ints; nia). cbn [opt_bind].
    rewrite wrapping_mul_small by (unfold PIN_MODULUS, MULTIPLIER_STEP in *; unfold_ints; nia).
    destruct (IH (Z.rem (hash + signed b * m) PIN_MODULUS) (Z.rem (m * MULTIPLIER_STEP) PIN_MODULUS)
      (rem_range _) (rem_range _)) as (h & -> & Hr & Hc).
    exists h. split; [done|]. split; [done|].
    pose proof (rem_cong (hash + signed b * m)) as H1.
    pose proof (poly_cong l _ _ (rem_cong (m * MULTIPLIER_STEP))) as H2.
    apply Z.mod_divide in Hc as [q1 Hq1]; [|done]. apply Z.mod_divide in H1 as [q2 Hq2]; [|done].
    apply Z.mod_divide in H2 as [q3 Hq3]; [|done].
    apply Z.mod_divide; [done|]. exists (q1 + q2 + q3). lia.
Qed.

Definition is_digit (b : byte) : Prop := 48 <= u8 b <= 57.

(** The number four digits spell. *)
Definition value (ds : list byte) : Z := fold_left (fun n d => n * 10 + (u8 d - 48)) ds 0.

Lemma digit_value n : 0 <= n < 10 -> u8 (digit n) = 48 + n.
Proof. intros H. unfold digit. apply u8_to_u8_small. lia. Qed.

Lemma four_digits_spec n :
  0 <= n < 10000 -> Forall is_digit (four_digits n) /\ value (four_digits n) = n.
Proof.
  intros Hn. unfold four_digits, value, is_digit. cbn [fold_left].
  pose proof (Z.mod_pos_bound (n / 1000) 10). pose proof (Z.mod_pos_bound (n / 100) 10).
  pose proof (Z.mod_pos_bound (n / 10) 10). pose proof (Z.mod_pos_bound n 10).
  split; [repeat constructor; rewrite digit_value; lia|].
  rewrite !digit_value by lia. Z.to_euclidean_division_equations. lia.
Qed.

(** ** Properties *)

(** The PIN is total: for every auth string no 32-bit step overflows and the result is
    exactly four ASCII digits, spelling the absolute value of a number below 9973 congruent
    to the sum of the signed bytes times the powers of 31. *)
Theorem pin_four_digits auth_string :
  exists ds h, derive auth_string = Some ds /\ length ds = 4%nat /\ Forall is_digit ds /\
    value ds = Z.abs h /\ Z.abs h < PIN_MODULUS /\
    (h - poly auth_string 1) mod PIN_MODULUS = 0.
Proof.
  destruct (derive_loop_spec auth_string 0 1) as (h & Hd & Hr & Hc);
    [unfold PIN_MODULUS; lia..|].
  unfold derive. rewrite Hd. cbn [opt_bind]. unfold PIN_MODULUS in Hr.
  rewrite (proj2 (Z.ltb_lt _ _)) by lia.
  destruct (four_digits_spec (Z.abs h)) as [Hdig Hv]; [lia|].
  exists (four_digits (Z.abs h)), h. split_and!; try done. unfold PIN_MODULUS. lia.
Qed.
