(* ===== verification/Service.v ===== *)
(** * Service identity ([protocol/src/service.rs])

    The BLE service-id hash and the RFCOMM service UUID, both digests of one name. *)

From S2P Require Import Prelude Crypto.

Definition SERVICE_ID : list byte := str "NearbySharing".

(** Lower-case hexadecimal, two digits a byte: [{x:02x}]. *)
Definition hex_digit (n : Z) : byte := to_u8 (if n <? 10 then 48 + n else 87 + n).
Definition hex (b : byte) : list byte := [hex_digit (u8 b / 16); hex_digit (u8 b mod 16)].

Section Service.
Context `{Digest}.

(** [copy_from_slice(&d[..3])] of a digest that is at least three bytes. *)
Definition service_id_hash : list byte :=
  match openssl_sha256 SERVICE_ID with
  | Some d => sub_range d 0 3
  | None => replicate 3 (to_u8 0)
  end.

Definition bluetooth_service_uuid : list byte :=
  match openssl_md5 SERVICE_ID with
  | None => []
  | Some d =>
      let b := sub_range d 0 16 in
      let b := alter (fun x => to_u8 (Z.lor (Z.land (u8 x) 0x0F) 0x30)) 6%nat b in
      let b := alter (fun x => to_u8 (Z.lor (Z.land (u8 x) 0x3F) 0x80)) 8%nat b in
      let h := mjoin (hex <$> b) in
      sub_range h 0 8 ++ str "-" ++ sub_range h 8 12 ++ str "-" ++ sub_range h 12 16
        ++ str "-" ++ sub_range h 16 20 ++ str "-" ++ sub_range h 20 32
  end.
End Service.

(** ** Properties *)

(** The shape of a textual UUID of version 3: groups of 8-4-4-4-12 hexadecimal digits, the
    version digit [3] and a variant digit among [8 9 a b]. *)
Definition is_hex (b : byte) : bool :=
  ((48 <=? u8 b) && (u8 b <=? 57)) || ((97 <=? u8 b) && (u8 b <=? 102)).
Fixpoint matches (template : list (byte -> bool)) (u : list byte) : bool :=
  match template, u with
  | [], [] => true
  | p :: template, b :: u => p b && matches template u
  | _, _ => false
  end.
Definition is_dash (b : byte) : bool := u8 b =? 45.
Definition is_variant (b : byte) : bool := existsb (fun c => u8 b =? c) [56; 57; 97; 98].
Definition uuid_v3 (u : list byte) : bool :=
  matches (replicate 8 is_hex ++ [is_dash] ++ replicate 4 is_hex ++ [is_dash]
           ++ [fun b => u8 b =? 51] ++ replicate 3 is_hex ++ [is_dash]
           ++ [is_variant] ++ replicate 3 is_hex ++ [is_dash] ++ replicate 12 is_hex) u.

Lemma hex_high b : is_hex (hex_digit (u8 b / 16)) = true.
Proof. by destruct b. Qed.
Lemma hex_low b : is_hex (hex_digit (u8 b mod 16)) = true.
Proof. by destruct b. Qed.

Lemma version_digit b :
  u8 (hex_digit (u8 (to_u8 (Z.lor (Z.land (u8 b) 0x0F) 0x30)) / 16)) = 51.
Proof. by destruct b. Qed.

Lemma variant_digit b :
  is_variant (hex_digit (u8 (to_u8 (Z.lor (Z.land (u8 b) 0x3F) 0x80)) / 16)) = true.
Proof. by destruct b. Qed.

(** Dashes put into 32 hexadecimal digits. *)
Lemma uuid_shape h v w :
  length h = 32%nat -> forallb is_hex h = true ->
  h !! 12%nat = Some v -> u8 v = 51 ->
  h !! 16%nat = Some w -> is_variant w = true ->
  uuid_v3 (sub_range h 0 8 ++ str "-" ++ sub_range h 8 12 ++ str "-" ++ sub_range h 12 16
           ++ str "-" ++ sub_range h 16 20 ++ str "-" ++ sub_range h 20 32) = true.
Proof.
  intros Hl Hh Hv Hv51 Hw Hvar.
  do 32 (destruct h as [|? h]; [discriminate Hl|]). destruct h; [|discriminate Hl].
  cbn in Hv, Hw. injection Hv as ->. injection Hw as ->.
  cbn [forallb] in Hh. repeat (apply andb_true_iff in Hh as [? Hh]).
  match goal with |- uuid_v3 ?u = true => let l := eval cbv in u in change u with l end.
  unfold uuid_v3. cbn [replicate app matches].
  rewrite Hv51, Hvar.
  repeat match goal with Hx : is_hex _ = true |- _ => rewrite Hx; clear Hx end.
  reflexivity.
Qed.

Lemma hex_digits l : forallb is_hex (mjoin (hex <$> l)) = true.
Proof.
  induction l as [|b l IH]; [done|].
  change (mjoin (hex <$> b :: l)) with (hex b ++ mjoin (hex <$> l)).
  cbn [hex app forallb]. by rewrite hex_high, hex_low.
Qed.

(** The RFCOMM service UUID is always a well-formed textual version-3 UUID of the service
    name's MD5, never cut short or missing its version or variant. *)
Theorem bluetooth_uuid_well_formed `{Digest} `{!DigestLaws} d :
  openssl_md5 SERVICE_ID = Some d -> uuid_v3 bluetooth_service_uuid = true.
Proof.
  intros Hd. pose proof (openssl_md5_len _ _ Hd) as Hl. unfold bluetooth_service_uuid. rewrite Hd.
  rewrite len_nat in Hl. change 16 with (Z.of_nat 16) in Hl. apply Nat2Z.inj in Hl. clear Hd.
  do 16 (destruct d as [|? d]; [discriminate Hl|]). destruct d; [|discriminate Hl].
  eapply uuid_shape;
    [reflexivity|apply hex_digits|reflexivity|apply version_digit|reflexivity
    |apply variant_digit].
Qed.

Lemma bluetooth_uuid_well_formed_witness :
  uuid_v3 (@bluetooth_service_uuid Toy.digest) = true.
Proof.
  eapply (@bluetooth_uuid_well_formed Toy.digest Toy.digest_laws). reflexivity.
Defined.
