(* ===== verification/Sharing.v ===== *)
(** * Nearby Sharing frames ([protocol/src/sharing.rs])

    What is being sent and whether it is wanted: the frames that ride inside BYTES payloads.
    As in [Frames], each builder is related to the parser. *)

From S2P Require Import Prelude Utf8 Protobuf Crypto.

(** ** Field numbers *)

Definition F_VERSION : Z := 1.
Definition F_V1 : Z := 2.
Definition VERSION_V1 : Z := 1.

Definition V1_TYPE : Z := 1.
Definition V1_INTRODUCTION : Z := 2.
Definition V1_RESPONSE : Z := 3.
Definition V1_PAIRED_KEY_ENCRYPTION : Z := 4.
Definition V1_PAIRED_KEY_RESULT : Z := 5.

Definition T_INTRODUCTION : Z := 1.
Definition T_RESPONSE : Z := 2.
Definition T_PAIRED_KEY_ENCRYPTION : Z := 3.
Definition T_PAIRED_KEY_RESULT : Z := 4.
Definition T_CANCEL : Z := 6.

Definition FM_NAME : Z := 1.
Definition FM_TYPE : Z := 2.
Definition FM_PAYLOAD_ID : Z := 3.
Definition FM_SIZE : Z := 4.
Definition FM_MIME_TYPE : Z := 5.
Definition FM_ID : Z := 6.
Definition FM_PARENT_FOLDER : Z := 7.
Definition FM_ATTACHMENT_HASH : Z := 8.
Definition FM_IS_SENSITIVE : Z := 9.

Definition TM_TITLE : Z := 2.
Definition TM_TYPE : Z := 3.
Definition TM_PAYLOAD_ID : Z := 4.
Definition TM_SIZE : Z := 5.
Definition TM_ID : Z := 6.

Definition IN_FILE_METADATA : Z := 1.
Definition IN_TEXT_METADATA : Z := 2.
Definition IN_START_TRANSFER : Z := 6.
Definition IN_USE_CASE : Z := 8.
Definition USE_CASE_NEARBY_SHARE : Z := 1.

Definition RS_STATUS : Z := 1.
Definition PKE_SIGNED_DATA : Z := 1.
Definition PKE_SECRET_ID_HASH : Z := 2.
Definition PKR_STATUS : Z := 1.

Definition SECRET_ID_HASH_LEN : Z := 6.
Definition SIGNED_DATA_LEN : Z := 72.

(** ** Data *)

Module FileType.
Inductive t : Type :=
| Unknown | Image | Video | AndroidApp | Audio | Document | ContactCard.
Definition as_u64 (f : t) : Z :=
  match f with
  | Unknown => 0 | Image => 1 | Video => 2 | AndroidApp => 3 | Audio => 4 | Document => 5
  | ContactCard => 6
  end.
Definition from (v : Z) : t :=
  if v =? 1 then Image else if v =? 2 then Video else if v =? 3 then AndroidApp
  else if v =? 4 then Audio else if v =? 5 then Document else if v =? 6 then ContactCard
  else Unknown.

(** [mime.split('/').next()]. *)
Fixpoint before_slash (mime : list byte) : list byte :=
  match mime with
  | [] => []
  | b :: mime => if u8 b =? 47 then [] else b :: before_slash mime
  end.

Definition starts_with (prefix s : list byte) : bool :=
  bool_decide (take (length prefix) s = prefix).

Definition of_mime (mime : list byte) : t :=
  let kind := before_slash mime in
  if bool_decide (kind = str "image") then Image
  else if bool_decide (kind = str "video") then Video
  else if bool_decide (kind = str "audio") then Audio
  else if bool_decide (mime = str "application/vnd.android.package-archive") then AndroidApp
  else if starts_with (str "text/") mime || bool_decide (mime = str "application/pdf")
  then Document
  else Unknown.
End FileType.

Module Status.
Inductive t : Type :=
| Unknown | Accept | Reject | NotEnoughSpace | UnsupportedAttachmentType | TimedOut.
Definition as_u64 (s : t) : Z :=
  match s with
  | Unknown => 0 | Accept => 1 | Reject => 2 | NotEnoughSpace => 3
  | UnsupportedAttachmentType => 4 | TimedOut => 5
  end.
Definition from (v : Z) : t :=
  if v =? 1 then Accept else if v =? 2 then Reject else if v =? 3 then NotEnoughSpace
  else if v =? 4 then UnsupportedAttachmentType else if v =? 5 then TimedOut else Unknown.
End Status.

Module PairedKeyResult.
Inductive t : Type := Unknown | Success | Fail_ | Unable.
Definition as_u64 (r : t) : Z :=
  match r with Unknown => 0 | Success => 1 | Fail_ => 2 | Unable => 3 end.
Definition from (v : Z) : t :=
  if v =? 1 then Success else if v =? 2 then Fail_ else if v =? 3 then Unable else Unknown.
End PairedKeyResult.

Record FileMetadata : Type := mkFileMetadata {
  fm_name : list byte;
  fm_file_type : FileType.t;
  fm_payload_id : Z;
  fm_size : Z;
  fm_mime_type : list byte;
  fm_id : Z;
  fm_parent_folder : list byte;
  fm_attachment_hash : Z;
  fm_is_sensitive : bool
}.

Definition FileMetadata_default : FileMetadata :=
  mkFileMetadata [] FileType.Unknown 0 0 (str "application/octet-stream") 0 [] 0 false.

Record TextMetadata : Type := mkTextMetadata {
  tm_title : list byte;
  tm_text_type : Z;
  tm_payload_id : Z;
  tm_size : Z;
  tm_id : Z
}.

Record Introduction : Type := mkIntroduction {
  files : list FileMetadata;
  texts : list TextMetadata;
  start_transfer : bool
}.

Definition Introduction_default : Introduction := mkIntroduction [] [] false.

(** [i64::saturating_add]. *)
Definition saturating_add (a b : Z) : Z := Z.max (- 2 ^ 63) (Z.min i64_max (a + b)).

Definition total_size (i : Introduction) : Z :=
  fold_left saturating_add ((fm_size <$> files i) ++ (tm_size <$> texts i)) 0.

Inductive Frame : Type :=
| FIntroduction (i : Introduction)
| FResponse (s : Status.t)
| FPairedKeyEncryption (signed_data secret_id_hash : list byte)
| FPairedKeyResult (r : PairedKeyResult.t)
| FCancel
| FUnknown (t : Z).

Inductive Error : Type :=
| EProtobuf (e : Protobuf.Error)
| EMalformed (why : string)
| ECrypto.

#[export] Instance Error_from_protobuf : From Protobuf.Error Error := EProtobuf.

(** ** Encoding *)

Definition wrap (frame_type field : Z) (body : list byte) : list byte :=
  let v1 := Writer.new |> Writer.varint V1_TYPE frame_type in
  let v1 := if negb (is_empty body) || negb (field =? 0)
            then v1 |> Writer.bytes field body else v1 in
  Writer.finish (Writer.new |> Writer.varint F_VERSION VERSION_V1
                            |> Writer.bytes F_V1 (Writer.finish v1)).

Definition encode_file (f : FileMetadata) : list byte :=
  let w := Writer.new
    |> Writer.bytes FM_NAME (fm_name f)
    |> Writer.varint FM_TYPE (FileType.as_u64 (fm_file_type f))
    |> Writer.varint FM_PAYLOAD_ID (as_u64 (fm_payload_id f))
    |> Writer.varint FM_SIZE (as_u64 (fm_size f))
    |> Writer.bytes FM_MIME_TYPE (fm_mime_type f)
    |> Writer.varint FM_ID (as_u64 (fm_id f)) in
  let w := if negb (is_empty (fm_parent_folder f))
           then w |> Writer.bytes FM_PARENT_FOLDER (fm_parent_folder f) else w in
  let w := if negb (fm_attachment_hash f =? 0)
           then w |> Writer.varint FM_ATTACHMENT_HASH (as_u64 (fm_attachment_hash f)) else w in
  let w := if fm_is_sensitive f then w |> Writer.varint FM_IS_SENSITIVE 1 else w in
  Writer.finish w.

Definition encode_text (t : TextMetadata) : list byte :=
  Writer.finish (Writer.new
    |> Writer.bytes TM_TITLE (tm_title t)
    |> Writer.varint TM_TYPE (tm_text_type t)
    |> Writer.varint TM_PAYLOAD_ID (as_u64 (tm_payload_id t))
    |> Writer.varint TM_SIZE (as_u64 (tm_size t))
    |> Writer.varint TM_ID (as_u64 (tm_id t))).

Definition introduction (intro : Introduction) : list byte :=
  let w := fold_left (fun w f => w |> Writer.bytes IN_FILE_METADATA (encode_file f))
             (files intro) Writer.new in
  let w := fold_left (fun w t => w |> Writer.bytes IN_TEXT_METADATA (encode_text t))
             (texts intro) w in
  let w := if start_transfer intro then w |> Writer.varint IN_START_TRANSFER 1 else w in
  let w := w |> Writer.varint IN_USE_CASE USE_CASE_NEARBY_SHARE in
  wrap T_INTRODUCTION V1_INTRODUCTION (Writer.finish w).

Definition response (status : Status.t) : list byte :=
  let w := Writer.new |> Writer.varint RS_STATUS (Status.as_u64 status) in
  wrap T_RESPONSE V1_RESPONSE (Writer.finish w).

Definition paired_key_encryption `{Rand} (g : rng) : result (list byte) Error * rng :=
  match rand_bytes SIGNED_DATA_LEN g with
  | (None, g) => (Err ECrypto, g)
  | (Some signed, g) =>
      match rand_bytes SECRET_ID_HASH_LEN g with
      | (None, g) => (Err ECrypto, g)
      | (Some hash, g) =>
          let w := Writer.new |> Writer.bytes PKE_SIGNED_DATA signed
                              |> Writer.bytes PKE_SECRET_ID_HASH hash in
          (Ok (wrap T_PAIRED_KEY_ENCRYPTION V1_PAIRED_KEY_ENCRYPTION (Writer.finish w)), g)
      end
  end.

Definition paired_key_result (status : PairedKeyResult.t) : list byte :=
  let w := Writer.new |> Writer.varint PKR_STATUS (PairedKeyResult.as_u64 status) in
  wrap T_PAIRED_KEY_RESULT V1_PAIRED_KEY_RESULT (Writer.finish w).

Definition cancel : list byte :=
  let v1 := Writer.finish (Writer.new |> Writer.varint V1_TYPE T_CANCEL) in
  Writer.finish (Writer.new |> Writer.varint F_VERSION VERSION_V1 |> Writer.bytes F_V1 v1).

(** ** Decoding *)

Definition string_of (b : list byte) : list byte := from_utf8_lossy b.

Definition parse_file (b : list byte) : result FileMetadata Error :=
  let? name := first_bytes b FM_NAME in
  let? file_type := first_varint b FM_TYPE in
  let? payload_id := first_varint b FM_PAYLOAD_ID in
  let? size := first_varint b FM_SIZE in
  let? mime_type := first_bytes b FM_MIME_TYPE in
  let? id := first_varint b FM_ID in
  let? parent_folder := first_bytes b FM_PARENT_FOLDER in
  let? attachment_hash := first_varint b FM_ATTACHMENT_HASH in
  let? is_sensitive := first_varint b FM_IS_SENSITIVE in
  Ok (mkFileMetadata
        (unwrap_or (map_opt string_of name) [])
        (FileType.from (unwrap_or file_type 0))
        (as_i64 (unwrap_or payload_id 0))
        (as_i64 (unwrap_or size 0))
        (unwrap_or (map_opt string_of mime_type) (str "application/octet-stream"))
        (as_i64 (unwrap_or id 0))
        (unwrap_or (map_opt string_of parent_folder) [])
        (as_i64 (unwrap_or attachment_hash 0))
        (negb (unwrap_or is_sensitive 0 =? 0))).

Definition parse_text (b : list byte) : result TextMetadata Error :=
  let? title := first_bytes b TM_TITLE in
  let? text_type := first_varint b TM_TYPE in
  let? payload_id := first_varint b TM_PAYLOAD_ID in
  let? size := first_varint b TM_SIZE in
  let? id := first_varint b TM_ID in
  Ok (mkTextMetadata
        (unwrap_or (map_opt string_of title) [])
        (unwrap_or text_type 0)
        (as_i64 (unwrap_or payload_id 0))
        (as_i64 (unwrap_or size 0))
        (as_i64 (unwrap_or id 0))).

Definition introduction_step (out : Introduction) (f : Field) : result Introduction Error :=
  let '(mkIntroduction fs ts st) := out in
  match f with
  | Bytes n v =>
      if n =? IN_FILE_METADATA then
        let? x := parse_file v in Ok (mkIntroduction (fs ++ [x]) ts st)
      else if n =? IN_TEXT_METADATA then
        let? x := parse_text v in Ok (mkIntroduction fs (ts ++ [x]) st)
      else Ok out
  | Varint n v =>
      if n =? IN_START_TRANSFER then Ok (mkIntroduction fs ts (negb (v =? 0))) else Ok out
  end.

Definition parse_introduction (b : list byte) : result Introduction Error :=
  for_each_field b introduction_step Introduction_default.

Definition v1_step (s : option Z * option (list byte)) (f : Field)
    : result (option Z * option (list byte)) Error :=
  let (ty, body) := s in
  Ok match f with
     | Varint n v => if n =? V1_TYPE then (Some v, body) else s
     | Bytes _ b => (ty, Some b)
     end.

(** The [match ty] of [parse]. *)
Definition parse_body (ty : Z) (body : list byte) : result Frame Error :=
  if ty =? T_INTRODUCTION then
    let? i := parse_introduction body in Ok (FIntroduction i)
  else if ty =? T_RESPONSE then
    let? s := first_varint body RS_STATUS in Ok (FResponse (Status.from (unwrap_or s 0)))
  else if ty =? T_PAIRED_KEY_ENCRYPTION then
    let? signed_data := first_bytes body PKE_SIGNED_DATA in
    let? secret_id_hash := first_bytes body PKE_SECRET_ID_HASH in
    Ok (FPairedKeyEncryption (unwrap_or signed_data []) (unwrap_or secret_id_hash []))
  else if ty =? T_PAIRED_KEY_RESULT then
    let? s := first_varint body PKR_STATUS in
    Ok (FPairedKeyResult (PairedKeyResult.from (unwrap_or s 0)))
  else if ty =? T_CANCEL then Ok FCancel
  else Ok (FUnknown ty).

Definition parse (bytes : list byte) : result Frame Error :=
  let? v1 := first_bytes bytes F_V1 in
  let? v1 := ok_or v1 (EMalformed "no v1 frame") in
  let? (ty, body) := for_each_field v1 v1_step (None, None) in
  let? ty := ok_or ty (EMalformed "no frame type") in
  parse_body ty (unwrap_or body []).

(** ** Lemmas *)

Lemma file_type_from_u64 f : FileType.from (FileType.as_u64 f) = f.
Proof. by destruct f. Qed.
Lemma status_from_u64 s : Status.from (Status.as_u64 s) = s.
Proof. by destruct s. Qed.
Lemma paired_key_result_from_u64 r : PairedKeyResult.from (PairedKeyResult.as_u64 r) = r.
Proof. by destruct r. Qed.

Lemma is_u64_file_type f : is_u64 (FileType.as_u64 f).
Proof. destruct f; unfold_ints; cbn; lia. Qed.
Lemma is_u64_status f : is_u64 (Status.as_u64 f).
Proof. destruct f; unfold_ints; cbn; lia. Qed.
Lemma is_u64_paired_key_result f : is_u64 (PairedKeyResult.as_u64 f).
Proof. destruct f; unfold_ints; cbn; lia. Qed.
#[export] Hint Resolve is_u64_file_type is_u64_status is_u64_paired_key_result : rust.

Lemma wrap_fields ty field body :
  field <> 0 ->
  wrap ty field body =
  encode [Varint F_VERSION VERSION_V1;
          Bytes F_V1 (encode [Varint V1_TYPE ty; Bytes field body])].
Proof.
  intros Hf. unfold wrap. rewrite (proj2 (Z.eqb_neq _ _) Hf), orb_true_r. by to_fields.
Qed.

Lemma wrap_fits ty field body : field <> 0 -> fits (wrap ty field body) -> fits body.
Proof.
  intros Hf. rewrite wrap_fields by done. intros H.
  assert (H1 : fits (encode [Varint V1_TYPE ty; Bytes field body])) by fits_in H.
  fits_in H1.
Qed.

Lemma parse_wrap ty field body :
  is_u64 ty -> is_u32 field -> field <> 0 -> fits (wrap ty field body) ->
  parse (wrap ty field body) = parse_body ty body.
Proof.
  intros Hty Hfield Hf. rewrite wrap_fields by done. intros Hfit.
  assert (H1 : fits (encode [Varint V1_TYPE ty; Bytes field body])) by fits_in Hfit.
  unfold parse. rewrite first_bytes_read by (done || wf_nums). cbn [last_bytes fold_left].
  change (F_V1 =? F_V1) with true. cbn [try_bind ok_or].
  rewrite read_encoded by (done || wf_nums). done.
Qed.

Definition wf_file (f : FileMetadata) : Prop :=
  valid (fm_name f) = true /\ valid (fm_mime_type f) = true /\
  valid (fm_parent_folder f) = true /\ is_i64 (fm_payload_id f) /\ is_i64 (fm_size f) /\
  is_i64 (fm_id f) /\ is_i64 (fm_attachment_hash f).

Definition wf_text (t : TextMetadata) : Prop :=
  valid (tm_title t) = true /\ is_u64 (tm_text_type t) /\ is_i64 (tm_payload_id t) /\
  is_i64 (tm_size t) /\ is_i64 (tm_id t).

Definition wf_introduction (i : Introduction) : Prop :=
  Forall wf_file (files i) /\ Forall wf_text (texts i).

(** An optional varint, absent when zero. *)
Definition nz_varint (n v : Z) (present : bool) : list Field :=
  if present then [Varint n v] else [].

Lemma written_nz_varint n v (c : bool) fs :
  (if c then Writer.varint n v (written fs) else written fs)
  = written (fs ++ nz_varint n v c).
Proof. destruct c; cbn; [by rewrite written_varint|by rewrite app_nil_r]. Qed.

Definition file_fields (f : FileMetadata) : list Field :=
  [Bytes FM_NAME (fm_name f);
   Varint FM_TYPE (FileType.as_u64 (fm_file_type f));
   Varint FM_PAYLOAD_ID (as_u64 (fm_payload_id f));
   Varint FM_SIZE (as_u64 (fm_size f));
   Bytes FM_MIME_TYPE (fm_mime_type f);
   Varint FM_ID (as_u64 (fm_id f))]
  ++ opt_name FM_PARENT_FOLDER (fm_parent_folder f)
  ++ nz_varint FM_ATTACHMENT_HASH (as_u64 (fm_attachment_hash f))
       (negb (fm_attachment_hash f =? 0))
  ++ nz_varint FM_IS_SENSITIVE 1 (fm_is_sensitive f).

Definition text_fields (t : TextMetadata) : list Field :=
  [Bytes TM_TITLE (tm_title t);
   Varint TM_TYPE (tm_text_type t);
   Varint TM_PAYLOAD_ID (as_u64 (tm_payload_id t));
   Varint TM_SIZE (as_u64 (tm_size t));
   Varint TM_ID (as_u64 (tm_id t))].

Lemma encode_file_fields f : encode_file f = encode (file_fields f).
Proof.
  unfold encode_file, file_fields.
  rewrite !written_new, !written_bytes, !written_varint, !written_bytes, !written_varint.
  rewrite written_opt_name, !written_nz_varint, written_finish. f_equal.
  by rewrite <- !app_assoc.
Qed.

Lemma encode_text_fields t : encode_text t = encode (text_fields t).
Proof. unfold encode_text. by to_fields. Qed.

Lemma parse_file_fields f :
  wf_file f -> fits (encode (file_fields f)) -> parse_file (encode (file_fields f)) = Ok f.
Proof.
  intros (Hn & Hm & Hp & Hid & Hsz & Hi & Hh) Hf.
  assert (W : Forall wf_num (file_fields f)).
  { unfold file_fields. wf_nums; [by apply wf_opt_name| |].
    - unfold nz_varint. case_match; wf_nums.
    - unfold nz_varint. case_match; wf_nums. }
  unfold parse_file. rewrite !first_varint_read, !first_bytes_read by done. cbn [try_bind].
  destruct f as [name ft pid sz mime id folder hash sens].
  cbn [fm_name fm_mime_type fm_parent_folder fm_payload_id fm_size fm_id fm_attachment_hash] in *.
  destruct (Z.eqb_spec hash 0) as [->|Hh0]; destruct folder as [|b folder], sens;
    unfold file_fields, opt_name;
    cbn [fm_attachment_hash fm_is_sensitive fm_parent_folder fm_name fm_file_type fm_payload_id
         fm_size fm_mime_type fm_id is_empty negb];
    rewrite ?(proj2 (Z.eqb_neq hash 0) Hh0); change (0 =? 0) with true;
    cbn -[as_u64 as_i64 string_of FileType.from Z.eqb str];
    cbn -[as_u64 as_i64 string_of FileType.from str];
    unfold string_of; rewrite ?lossy_valid, !as_i64_u64, file_type_from_u64 by done; done.
Qed.

Lemma parse_text_fields t :
  wf_text t -> fits (encode (text_fields t)) -> parse_text (encode (text_fields t)) = Ok t.
Proof.
  intros (Hn & Hty & Hid & Hsz & Hi) Hf.
  assert (W : Forall wf_num (text_fields t)) by wf_nums.
  unfold parse_text. rewrite !first_varint_read, !first_bytes_read by done. cbn [try_bind].
  destruct t as [title ty pid sz id].
  cbn -[as_u64 as_i64 string_of]. unfold string_of.
  by rewrite lossy_valid, !as_i64_u64 by done.
Qed.

Definition introduction_fields (i : Introduction) : list Field :=
  (files i ≫= fun f => [Bytes IN_FILE_METADATA (encode (file_fields f))])
  ++ (texts i ≫= fun t => [Bytes IN_TEXT_METADATA (encode (text_fields t))])
  ++ nz_varint IN_START_TRANSFER 1 (start_transfer i)
  ++ [Varint IN_USE_CASE USE_CASE_NEARBY_SHARE].

Lemma introduction_wrap i :
  introduction i = wrap T_INTRODUCTION V1_INTRODUCTION (encode (introduction_fields i)).
Proof.
  unfold introduction. f_equal. rewrite written_new.
  rewrite (written_for (fun f => [Bytes IN_FILE_METADATA (encode (file_fields f))])).
  2:{ intros. by rewrite encode_file_fields, written_bytes. }
  rewrite (written_for (fun t => [Bytes IN_TEXT_METADATA (encode (text_fields t))])).
  2:{ intros. by rewrite encode_text_fields, written_bytes. }
  rewrite written_nz_varint, written_varint, written_finish. f_equal.
  unfold introduction_fields. by rewrite <- !app_assoc.
Qed.

Lemma files_fold xs fs ts st :
  Forall wf_file xs -> Forall (fun f => fits (encode (file_fields f))) xs ->
  fold_fields introduction_step (xs ≫= fun f => [Bytes IN_FILE_METADATA (encode (file_fields f))])
    (mkIntroduction fs ts st) = Ok (mkIntroduction (fs ++ xs) ts st).
Proof.
  intros Hw Hf. revert fs. induction xs as [|x xs IH]; intros fs; [by rewrite app_nil_r|].
  inversion Hw; inversion Hf; subst. cbn [mbind list_bind app fold_fields introduction_step].
  change (IN_FILE_METADATA =? IN_FILE_METADATA) with true. cbv iota.
  rewrite parse_file_fields by done. cbn [try_bind].
  rewrite (IH ltac:(done) ltac:(done)), <- app_assoc. done.
Qed.

Lemma texts_fold xs fs ts st :
  Forall wf_text xs -> Forall (fun t => fits (encode (text_fields t))) xs ->
  fold_fields introduction_step (xs ≫= fun t => [Bytes IN_TEXT_METADATA (encode (text_fields t))])
    (mkIntroduction fs ts st) = Ok (mkIntroduction fs (ts ++ xs) st).
Proof.
  intros Hw Hf. revert ts. induction xs as [|x xs IH]; intros ts; [by rewrite app_nil_r|].
  inversion Hw; inversion Hf; subst. cbn [mbind list_bind app fold_fields introduction_step].
  change (IN_TEXT_METADATA =? IN_FILE_METADATA) with false.
  change (IN_TEXT_METADATA =? IN_TEXT_METADATA) with true. cbv iota.
  rewrite parse_text_fields by done. cbn [try_bind].
  rewrite (IH ltac:(done) ltac:(done)), <- app_assoc. done.
Qed.

Lemma fits_bind {A} n (g : A -> list byte) xs ys zs :
  fits (encode (ys ++ (xs ≫= fun x => [Bytes n (g x)]) ++ zs)) ->
  Forall (fun x => fits (g x)) xs.
Proof.
  intros Hf. apply Forall_forall. intros x Hx. eapply fits_inner; [|exact Hf].
  apply elem_of_app. right. apply elem_of_app. left. apply list_elem_of_bind.
  exists x. split; [apply list_elem_of_here|done].
Qed.

Lemma parse_introduction_fields i :
  wf_introduction i -> fits (encode (introduction_fields i)) ->
  parse_introduction (encode (introduction_fields i)) = Ok i.
Proof.
  intros [Hfs Hts] Hf. unfold parse_introduction.
  pose proof (fits_bind _ _ _ [] _ Hf) as Hf1.
  pose proof (fits_bind IN_TEXT_METADATA (fun t => encode (text_fields t)) (texts i) _ _ Hf)
    as Hf2.
  rewrite read_encoded; [|unfold introduction_fields, nz_varint; wf_nums|done].
  - destruct i as [fs ts st]. cbn [files texts start_transfer] in *.
    unfold introduction_fields, Introduction_default. cbn [files texts start_transfer].
    rewrite fold_fields_app, files_fold by done. cbn [try_bind app].
    rewrite fold_fields_app, texts_fold by done. cbn [try_bind app].
    by destruct st.
  - apply Forall_bind, Forall_true. intros; wf_nums.
  - apply Forall_bind, Forall_true. intros; wf_nums.
  - case_match; wf_nums.
Qed.

Definition pke_fields (signed hash : list byte) : list Field :=
  [Bytes PKE_SIGNED_DATA signed; Bytes PKE_SECRET_ID_HASH hash].

(** The paired-key frame is a function of the random fill. *)
Lemma paired_key_encryption_Ok `{Rand} g f g' :
  paired_key_encryption g = (Ok f, g') ->
  exists signed hash g1,
    rand_bytes SIGNED_DATA_LEN g = (Some signed, g1) /\
    rand_bytes SECRET_ID_HASH_LEN g1 = (Some hash, g') /\
    f = wrap T_PAIRED_KEY_ENCRYPTION V1_PAIRED_KEY_ENCRYPTION (encode (pke_fields signed hash)).
Proof.
  unfold paired_key_encryption. intros Hf.
  destruct (rand_bytes _ g) as [[signed|] g1] eqn:H1; [|done].
  destruct (rand_bytes _ g1) as [[hash|] g2] eqn:H2; [|done].
  apply pair_equal_spec in Hf as [<-%Ok_inj ->]. exists signed, hash, g1. by to_fields.
Qed.

(** ** The frames a daemon can build, and what each parses to *)

Inductive Message : Type :=
| MIntroduction (i : Introduction)
| MResponse (s : Status.t)
| MPairedKeyResult (r : PairedKeyResult.t)
| MPairedKeyEncryption (signed hash : list byte)
| MCancel.

Definition build (m : Message) : list byte :=
  match m with
  | MIntroduction i => introduction i
  | MResponse s => response s
  | MPairedKeyResult r => paired_key_result r
  | MPairedKeyEncryption signed hash =>
      wrap T_PAIRED_KEY_ENCRYPTION V1_PAIRED_KEY_ENCRYPTION (encode (pke_fields signed hash))
  | MCancel => cancel
  end.

Definition frame_of (m : Message) : Frame :=
  match m with
  | MIntroduction i => FIntroduction i
  | MResponse s => FResponse s
  | MPairedKeyResult r => FPairedKeyResult r
  | MPairedKeyEncryption signed hash => FPairedKeyEncryption signed hash
  | MCancel => FCancel
  end.

Definition wf_message (m : Message) : Prop :=
  match m with
  | MIntroduction i => wf_introduction i
  | _ => True
  end.

Lemma sharing_parse_build m : wf_message m -> fits (build m) -> parse (build m) = Ok (frame_of m).
Proof.
  intros Hm Hf. destruct m as [i|s|r|signed hash|]; cbn [build frame_of wf_message] in *.
  - rewrite introduction_wrap in *. rewrite parse_wrap by (done || wf_nums). unfold parse_body.
    change (T_INTRODUCTION =? T_INTRODUCTION) with true. cbv iota.
    apply wrap_fits in Hf; [|done]. by rewrite parse_introduction_fields.
  - revert Hf. unfold response. to_fields. intros Hf.
    rewrite parse_wrap by (done || wf_nums). unfold parse_body. apply wrap_fits in Hf; [|done].
    rewrite first_varint_read by (done || wf_nums).
    by destruct s.
  - revert Hf. unfold paired_key_result. to_fields. intros Hf.
    rewrite parse_wrap by (done || wf_nums). unfold parse_body. apply wrap_fits in Hf; [|done].
    rewrite !first_varint_read by (done || wf_nums).
    by destruct r.
  - rewrite parse_wrap by (done || wf_nums). unfold parse_body. apply wrap_fits in Hf; [|done].
    by rewrite !first_bytes_read by (done || wf_nums).
  - reflexivity.
Qed.

(** Distinct messages have distinct encodings. *)
Lemma build_inj m1 m2 :
  wf_message m1 -> wf_message m2 -> fits (build m1) -> build m1 = build m2 ->
  frame_of m1 = frame_of m2.
Proof.
  intros H1 H2 Hf He. pose proof (sharing_parse_build m1 H1 Hf) as Hp1.
  rewrite He in *. rewrite (sharing_parse_build m2 H2 Hf) in Hp1. congruence.
Qed.

Lemma pke_fits `{Rand} `{!RandLaws} g f g' :
  paired_key_encryption g = (Ok f, g') ->
  exists signed hash, f = build (MPairedKeyEncryption signed hash) /\ fits f /\
    len signed = SIGNED_DATA_LEN /\ len hash = SECRET_ID_HASH_LEN.
Proof.
  intros (signed & hash & g1 & H1 & H2 & ->)%paired_key_encryption_Ok.
  apply rand_bytes_len in H1; [|done]. apply rand_bytes_len in H2; [|done].
  exists signed, hash. split; [done|]. split; [|done].
  cbn [build]. rewrite (wrap_fields T_PAIRED_KEY_ENCRYPTION V1_PAIRED_KEY_ENCRYPTION) by done.
  unfold fits. etransitivity; [apply encode_len|]. cbn [fields_cost].
  pose proof (encode_len [Varint V1_TYPE T_PAIRED_KEY_ENCRYPTION;
    Bytes V1_PAIRED_KEY_ENCRYPTION (encode (pke_fields signed hash))]) as L1.
  pose proof (encode_len (pke_fields signed hash)) as L2. cbn [fields_cost pke_fields] in *.
  unfold SIGNED_DATA_LEN, SECRET_ID_HASH_LEN in *. unfold_ints. lia.
Qed.

(** ** Properties *)

(** Every sharing frame the daemon builds parses back to what it was built from; an
    introduction keeps every attachment, in order, with every field. *)
Theorem sharing_roundtrip m :
  wf_message m -> fits (build m) -> parse (build m) = Ok (frame_of m).
Proof. apply sharing_parse_build. Qed.

Lemma sharing_roundtrip_witness :
  let i := mkIntroduction
    [mkFileMetadata (str "a.jpg") FileType.Image (-5) 12 (str "image/jpeg") 3 [] 0 true;
     FileMetadata_default]
    [mkTextMetadata (str "hi") 1 9 2 4] true in
  parse (introduction i) = Ok (FIntroduction i).
Proof.
  intros i. apply (sharing_roundtrip (MIntroduction i)).
  - repeat constructor; unfold_ints; cbn; lia.
  - vm_compute. discriminate.
Defined.
