(* ===== verification/Fsm.v ===== *)
(** * The sharing state machines ([protocol/src/fsm.rs])

    [Inbound] (the receiver) and [Outbound] (the sender): events in, effects out.  A run is a
    sequence of calls of [start] and [on] with the effects each returned; the theorems say
    what every run looks like. *)

From S2P Require Import Prelude Protobuf Crypto Sharing.

Inductive Event : Type :=
| EvFrame (f : Frame)
| UserAccepted
| UserRejected
| UserCancelled
| TransferComplete.

Inductive Effect : Type :=
| Send (f : list byte)
| AskUser (i : Introduction)
| BeginSending (i : Introduction)
| BeginReceiving (i : Introduction)
| EffDone
| EffFailed (why : string)
| EffCancelled.

Module State.
Inductive t : Type :=
| PairedKey | Introduction | AwaitingUser | Transferring | Done | Failed | Cancelled.
#[global] Instance eq_dec : EqDecision t.
Proof. solve_decision. Defined.
Definition is_over (s : t) : bool :=
  match s with Done | Failed | Cancelled => true | _ => false end.
End State.

(** ** The receiver *)

Module Inbound.

Record t : Type := mk {
  state : State.t;
  sent_paired_key : bool;
  seen_peer_result : bool;
  introduction : option Sharing.Introduction
}.

Definition new : t := mk State.PairedKey false false None.

Definition set_state (st : State.t) (s : t) : t :=
  mk st (sent_paired_key s) (seen_peer_result s) (introduction s).

Definition fail (why : string) (s : t) : list Effect * t :=
  ([EffFailed why], set_state State.Failed s).

Definition start `{Rand} (g : rng) (s : t) : list Effect * t * rng :=
  if sent_paired_key s then ([], s, g)
  else
    let s := mk (state s) true (seen_peer_result s) (introduction s) in
    match paired_key_encryption g with
    | (Ok f, g) => ([Send f], s, g)
    | (Err _, g) =>
        ([EffFailed "could not build the paired-key frame"], set_state State.Failed s, g)
    end.

Definition on_frame (frame : Frame) (s : t) : list Effect * t :=
  match state s, frame with
  | _, FCancel => ([EffCancelled], set_state State.Cancelled s)
  | State.PairedKey, FPairedKeyEncryption _ _ =>
      ([Send (paired_key_result PairedKeyResult.Unable)], s)
  | State.PairedKey, FPairedKeyResult _ =>
      ([], mk State.Introduction (sent_paired_key s) true (introduction s))
  | State.Introduction, FIntroduction intro =>
      if is_empty (files intro) && is_empty (texts intro)
      then fail "introduction announced no attachments" s
      else ([AskUser intro],
            mk State.AwaitingUser (sent_paired_key s) (seen_peer_result s) (Some intro))
  | State.AwaitingUser, FIntroduction _ | State.Transferring, FIntroduction _ =>
      fail "a second introduction arrived after the first" s
  | _, FPairedKeyEncryption _ _ | _, FPairedKeyResult _ => ([], s)
  | _, FUnknown _ => ([], s)
  | _, FResponse _ => ([], s)
  | _, _ => fail "frame arrived in a state that does not allow it" s
  end.

Definition on (event : Event) (s : t) : list Effect * t :=
  if State.is_over (state s) then ([], s)
  else
    match event with
    | UserCancelled => ([Send cancel; EffCancelled], set_state State.Cancelled s)
    | UserAccepted =>
        if bool_decide (state s = State.AwaitingUser)
        then ([Send (response Status.Accept);
               BeginReceiving (unwrap_or (introduction s) Introduction_default)],
              set_state State.Transferring s)
        else fail "acceptance arrived before an offer" s
    | UserRejected =>
        if bool_decide (state s = State.AwaitingUser)
        then ([Send (response Status.Reject); EffDone], set_state State.Done s)
        else fail "rejection arrived before an offer" s
    | TransferComplete =>
        if bool_decide (state s = State.Transferring)
        then ([EffDone], set_state State.Done s)
        else fail "transfer completed before it started" s
    | EvFrame frame => on_frame frame s
    end.

End Inbound.

(** ** The sender *)

Module Outbound.

Record t : Type := mk {
  state : State.t;
  introduction : Sharing.Introduction;
  sent_paired_key : bool
}.

Definition new (i : Sharing.Introduction) : t := mk State.PairedKey i false.

Definition set_state (st : State.t) (s : t) : t :=
  mk st (introduction s) (sent_paired_key s).

Definition fail (why : string) (s : t) : list Effect * t :=
  ([EffFailed why], set_state State.Failed s).

Definition start `{Rand} (g : rng) (s : t) : list Effect * t * rng :=
  if sent_paired_key s then ([], s, g)
  else
    let s := mk (state s) (introduction s) true in
    match paired_key_encryption g with
    | (Err _, g) =>
        ([EffFailed "could not build the paired-key frame"], set_state State.Failed s, g)
    | (Ok pke, g) =>
        ([Send pke; Send (paired_key_result PairedKeyResult.Unable);
          Send (Sharing.introduction (introduction s))],
         set_state State.Introduction s, g)
    end.

Definition on_frame (frame : Frame) (s : t) : list Effect * t :=
  match state s, frame with
  | _, FCancel => ([EffCancelled], set_state State.Cancelled s)
  | State.Introduction, FResponse Status.Accept =>
      ([BeginSending (introduction s)], set_state State.Transferring s)
  | State.Introduction, FResponse _ => ([EffDone], set_state State.Done s)
  | _, FPairedKeyEncryption _ _ | _, FPairedKeyResult _ => ([], s)
  | _, FUnknown _ => ([], s)
  | _, FIntroduction _ =>
      fail "the peer tried to introduce files on a connection we opened" s
  | _, _ => fail "frame arrived in a state that does not allow it" s
  end.

Definition on (event : Event) (s : t) : list Effect * t :=
  if State.is_over (state s) then ([], s)
  else
    match event with
    | UserCancelled => ([Send cancel; EffCancelled], set_state State.Cancelled s)
    | TransferComplete =>
        if bool_decide (state s = State.Transferring)
        then ([EffDone], set_state State.Done s)
        else fail "transfer completed before it started" s
    | UserAccepted | UserRejected => fail "a local decision arrived on the sending side" s
    | EvFrame frame => on_frame frame s
    end.

End Outbound.

(** ** Runs *)

(** A call of the machine. *)
Inductive Input : Type :=
| Start
| On (e : Event).

(** What one call was and what it returned. *)
Definition Entry : Type := Input * list Effect.

Section Runs.
Context `{Rand} {S : Type}
  (start : rng -> S -> list Effect * S * rng) (on : Event -> S -> list Effect * S).

Definition call (x : Input) (s : S) (g : rng) : list Effect * S * rng :=
  match x with
  | Start => start g s
  | On e => (on e s, g)
  end.

Fixpoint run (xs : list Input) (s : S) (g : rng) : list Entry * S * rng :=
  match xs with
  | [] => ([], s, g)
  | x :: xs =>
      let '(effs, s, g) := call x s g in
      let '(tr, s, g) := run xs s g in
      ((x, effs) :: tr, s, g)
  end.

(** An invariant of the trace so far and the state holds after every run. *)
Lemma run_invariant (I : list Entry -> S -> Prop) xs s g tr0 :
  I tr0 s ->
  (forall tr s g x effs s' g', I tr s -> call x s g = (effs, s', g') ->
     I (tr ++ [(x, effs)]) s') ->
  let '(tr, s', _) := run xs s g in I (tr0 ++ tr) s'.
Proof.
  intros HI Hstep. revert tr0 s g HI. induction xs as [|x xs IH]; intros tr0 s g HI; cbn [run].
  - by rewrite app_nil_r.
  - destruct (call x s g) as [[effs s1] g1] eqn:Hc.
    specialize (IH _ _ g1 (Hstep _ _ _ _ _ _ _ HI Hc)).
    destruct (run xs s1 g1) as [[tr s2] g2]. by rewrite <- app_assoc in IH.
Qed.
End Runs.

Definition inbound_run `{Rand} (xs : list Input) (g : rng) : list Entry * Inbound.t * rng :=
  run Inbound.start Inbound.on xs Inbound.new g.

Definition outbound_run `{Rand} (i : Introduction) (xs : list Input) (g : rng)
    : list Entry * Outbound.t * rng :=
  run Outbound.start Outbound.on xs (Outbound.new i) g.

(** *** The receiver's runs *)

(** Does the effect ask for consent, or act on it? *)
Definition decides (e : Effect) : bool :=
  match e with
  | AskUser _ | BeginReceiving _ => true
  | Send f => bool_decide (f = response Status.Accept)
  | _ => false
  end.

Definition quiet (x : Entry) : Prop := existsb decides (snd x) = false.

Definition has_attachment (i : Introduction) : Prop := files i <> [] \/ texts i <> [].

(** The user was asked about [i], once, because the peer introduced it. *)
Definition asked (i : Introduction) (tr : list Entry) : Prop :=
  has_attachment i /\
  exists pre post,
    tr = pre ++ (On (EvFrame (FIntroduction i)), [AskUser i]) :: post /\
    Forall quiet pre /\ Forall quiet post.

(** ... and then said yes, and only then was the transfer accepted: that very [i], once. *)
Definition accepted (i : Introduction) (tr : list Entry) : Prop :=
  exists tr1 tr2,
    tr = tr1 ++ (On UserAccepted, [Send (response Status.Accept); BeginReceiving i]) :: tr2 /\
    asked i tr1 /\ Forall quiet tr2.

Definition consent_shape (tr : list Entry) : Prop :=
  Forall quiet tr \/ (exists i, asked i tr) \/ (exists i, accepted i tr).

Lemma Forall_snoc_2 {A} (P : A -> Prop) l x : Forall P l -> P x -> Forall P (l ++ [x]).
Proof. intros Hl Hx. apply Forall_app_2; [done|by constructor]. Qed.

Lemma asked_snoc i tr x : asked i tr -> quiet x -> asked i (tr ++ [x]).
Proof.
  intros (Hi & pre & post & -> & Hpre & Hpost) Hx. split; [done|].
  exists pre, (post ++ [x]). rewrite <- app_assoc. split; [done|].
  split; [done|]. by apply Forall_snoc_2.
Qed.

Lemma accepted_snoc i tr x : accepted i tr -> quiet x -> accepted i (tr ++ [x]).
Proof.
  intros (tr1 & tr2 & -> & H1 & H2) Hx. exists tr1, (tr2 ++ [x]).
  rewrite <- app_assoc. split; [done|]. split; [done|]. by apply Forall_snoc_2.
Qed.

Lemma shape_snoc tr x : consent_shape tr -> quiet x -> consent_shape (tr ++ [x]).
Proof.
  intros [H|[[i H]|[i H]]] Hx; [left|right; left|right; right].
  - by apply Forall_snoc_2.
  - exists i. by apply asked_snoc.
  - exists i. by apply accepted_snoc.
Qed.

Definition inbound_inv (tr : list Entry) (s : Inbound.t) : Prop :=
  match Inbound.state s with
  | State.PairedKey | State.Introduction => Forall quiet tr
  | State.AwaitingUser => exists i, Inbound.introduction s = Some i /\ asked i tr
  | State.Transferring => exists i, accepted i tr
  | _ => consent_shape tr
  end.

Lemma inbound_inv_shape tr s : inbound_inv tr s -> consent_shape tr.
Proof.
  unfold inbound_inv, consent_shape. destruct (Inbound.state s); try tauto.
  intros (i & _ & H). eauto.
Qed.

(** A step that decides nothing and stays where it was, or ends the run. *)
Lemma inbound_quiet tr s x effs s' :
  inbound_inv tr s -> quiet (x, effs) ->
  (Inbound.state s' = Inbound.state s /\ Inbound.introduction s' = Inbound.introduction s)
  \/ State.is_over (Inbound.state s') = true ->
  inbound_inv (tr ++ [(x, effs)]) s'.
Proof.
  intros HI Hq [[Hs Hi]|Ho].
  - unfold inbound_inv in *. rewrite Hs, Hi.
    destruct (Inbound.state s); try (by apply shape_snoc); try (by apply Forall_snoc_2).
    + destruct HI as (i & Hi' & H). exists i. split; [done|]. by apply asked_snoc.
    + destruct HI as (i & H). exists i. by apply accepted_snoc.
  - assert (consent_shape (tr ++ [(x, effs)]))
      by (apply shape_snoc; [by eapply inbound_inv_shape|done]).
    unfold inbound_inv. by destruct (Inbound.state s').
Qed.

Lemma pke_not_accept `{Rand} `{!RandLaws} g f g' :
  paired_key_encryption g = (Ok f, g') -> f <> response Status.Accept.
Proof.
  intros Hp. destruct (pke_fits _ _ _ Hp) as (signed & hash & -> & Hf & _). intros He.
  pose proof (build_inj (MPairedKeyEncryption signed hash) (MResponse Status.Accept)
                I I Hf He). done.
Qed.

Lemma inbound_start_inv `{Rand} `{!RandLaws} tr s g effs s' g' :
  inbound_inv tr s -> Inbound.start g s = (effs, s', g') ->
  inbound_inv (tr ++ [(Start, effs)]) s'.
Proof.
  intros HI. unfold Inbound.start. destruct (Inbound.sent_paired_key s).
  - intros Hc. assert (effs = [] /\ s' = s) as [-> ->] by (split; congruence).
    apply (inbound_quiet tr s); [done|done|by left].
  - destruct (paired_key_encryption g) as [[f|e] g1] eqn:Hp; intros Hc.
    + assert (effs = [Send f] /\ s' = Inbound.mk (Inbound.state s) true
        (Inbound.seen_peer_result s) (Inbound.introduction s)) as [-> ->]
        by (split; congruence).
      apply (inbound_quiet tr s); [done| |by left].
      unfold quiet. cbn [snd existsb decides].
      by rewrite bool_decide_false by (by eapply pke_not_accept).
    + assert (effs = [EffFailed "could not build the paired-key frame"]
        /\ Inbound.state s' = State.Failed) as [-> Hs] by (split; injection Hc as <- <-; done).
      apply (inbound_quiet tr s); [done|done|right]. by rewrite Hs.
Qed.

Lemma inbound_on_frame_inv tr s f effs s' :
  inbound_inv tr s -> State.is_over (Inbound.state s) = false ->
  Inbound.on_frame f s = (effs, s') -> inbound_inv (tr ++ [(On (EvFrame f), effs)]) s'.
Proof.
  intros HI Ho. unfold Inbound.on_frame, Inbound.fail.
  assert (Hstop : forall effs s', quiet (On (EvFrame f), effs) ->
    State.is_over (Inbound.state s') = true -> inbound_inv (tr ++ [(On (EvFrame f), effs)]) s').
  { intros. apply (inbound_quiet tr s); auto. }
  assert (Hstay : forall effs, quiet (On (EvFrame f), effs) ->
    inbound_inv (tr ++ [(On (EvFrame f), effs)]) s).
  { intros. apply (inbound_quiet tr s); auto. }
  destruct (Inbound.state s) eqn:Hst, f; try done;
    try (by intros [= <- <-]; first [by apply Hstop|by apply Hstay]).
  - intros [= <- <-]. unfold inbound_inv in *. rewrite Hst in HI. by apply Forall_snoc_2.
  - destruct (is_empty (files i) && is_empty (texts i)) eqn:He; intros [= <- <-];
      [by apply Hstop|].
    unfold inbound_inv in *. rewrite Hst in HI. exists i. split; [done|]. split.
    + destruct i as [[|? ?] [|? ?] ?]; cbn in *; [done|by right|by left|by left].
    + exists tr, []. by repeat split.
Qed.

Lemma inbound_on_inv tr s e effs s' :
  inbound_inv tr s -> Inbound.on e s = (effs, s') -> inbound_inv (tr ++ [(On e, effs)]) s'.
Proof.
  intros HI. unfold Inbound.on. destruct (State.is_over (Inbound.state s)) eqn:Ho.
  { intros [= <- <-]. apply (inbound_quiet tr s); [done|done|by left]. }
  assert (Hstop : forall effs s', quiet (On e, effs) -> State.is_over (Inbound.state s') = true ->
    inbound_inv (tr ++ [(On e, effs)]) s').
  { intros. apply (inbound_quiet tr s); auto. }
  assert (Hstay : forall effs, quiet (On e, effs) -> inbound_inv (tr ++ [(On e, effs)]) s).
  { intros. apply (inbound_quiet tr s); auto. }
  destruct e as [f| | | |].
  - apply inbound_on_frame_inv; done.
  - case_bool_decide as Hst; intros [= <- <-]; [|by apply Hstop].
    unfold inbound_inv in *. cbn [Inbound.set_state Inbound.state]. rewrite Hst in HI.
    destruct HI as (i & -> & Ha). exists i, tr, [].
    split; [done|]. split; [done|constructor].
  - case_bool_decide; intros [= <- <-]; (apply Hstop; [by vm_compute|done]).
  - intros [= <- <-]. apply Hstop; [by vm_compute|done].
  - case_bool_decide; intros [= <- <-]; by apply Hstop.
Qed.

(** *** The sender's runs *)

Definition begins (e : Effect) : bool :=
  match e with BeginSending _ | BeginReceiving _ | AskUser _ => true | _ => false end.

(** The effects of the one successful [start]: identity claim, verdict and file list. *)
Definition opening (i : Introduction) (effs : list Effect) : Prop :=
  exists pke, effs = [Send pke; Send (paired_key_result PairedKeyResult.Unable);
                      Send (introduction i)].

Definition idle (x : Entry) : Prop := existsb begins (snd x) = false.

(** What was introduced is what is sent, and only once the peer has accepted it. *)
Definition sent_shape (i : Introduction) (tr : list Entry) : Prop :=
  exists pre effs mid post,
    tr = pre ++ (Start, effs) :: mid
         ++ (On (EvFrame (FResponse Status.Accept)), [BeginSending i]) :: post /\
    opening i effs /\ Forall idle pre /\ Forall idle mid /\ Forall idle post.

Definition opened (i : Introduction) (tr : list Entry) : Prop :=
  exists pre effs post, tr = pre ++ (Start, effs) :: post /\ opening i effs /\
    Forall idle pre /\ Forall idle post.

Definition outbound_inv (i : Introduction) (tr : list Entry) (s : Outbound.t) : Prop :=
  Outbound.introduction s = i /\
  match Outbound.state s with
  | State.PairedKey => Forall idle tr
  | State.Introduction => Outbound.sent_paired_key s = true /\ opened i tr
  | State.AwaitingUser => False
  | State.Transferring => Outbound.sent_paired_key s = true /\ sent_shape i tr
  | _ => (Forall idle tr \/ Outbound.sent_paired_key s = true /\ sent_shape i tr)
  end.

Lemma opened_idle i tr : opened i tr -> Forall idle tr.
Proof.
  intros (pre & effs & post & -> & (pke & ->) & H1 & H2).
  apply Forall_app_2; [done|]. by constructor.
Qed.

Lemma opened_snoc i tr x : opened i tr -> idle x -> opened i (tr ++ [x]).
Proof.
  intros (pre & effs & post & -> & Hp & H1 & H2) Hx.
  exists pre, effs, (post ++ [x]). rewrite <- app_assoc. split_and!; [done..|].
  by apply Forall_snoc_2.
Qed.

Lemma sent_snoc i tr x : sent_shape i tr -> idle x -> sent_shape i (tr ++ [x]).
Proof.
  intros (pre & effs & mid & post & -> & Hp & H1 & H2 & H3) Hx.
  exists pre, effs, mid, (post ++ [x]). split_and!; [|done..|by apply Forall_snoc_2].
  rewrite <- !app_assoc. cbn [app]. by rewrite <- app_assoc.
Qed.

(** An idle step that keeps the state, or ends the run. *)
Lemma outbound_idle i tr s x effs s' :
  outbound_inv i tr s -> idle (x, effs) ->
  s' = s \/ (State.is_over (Outbound.state s') = true
             /\ Outbound.introduction s' = Outbound.introduction s
             /\ (Outbound.sent_paired_key s = true -> Outbound.sent_paired_key s' = true)) ->
  outbound_inv i (tr ++ [(x, effs)]) s'.
Proof.
  intros [Hi HI] Hx [->|(Ho & Hi' & Hs)]; split; try congruence.
  - destruct (Outbound.state s); try done; intuition auto using sent_snoc, opened_snoc, Forall_snoc_2.
  - assert (Forall idle tr \/ Outbound.sent_paired_key s = true /\ sent_shape i tr) as H.
    { destruct (Outbound.state s); try tauto. destruct HI. left. by eapply opened_idle. }
    assert (Forall idle (tr ++ [(x, effs)])
            \/ Outbound.sent_paired_key s' = true /\ sent_shape i (tr ++ [(x, effs)])).
    { destruct H as [H|[H1 H2]]; [left; by apply Forall_snoc_2|right].
      auto using sent_snoc. }
    by destruct (Outbound.state s').
Qed.

Lemma outbound_start_inv `{Rand} i tr s g effs s' g' :
  outbound_inv i tr s -> Outbound.start g s = (effs, s', g') ->
  outbound_inv i (tr ++ [(Start, effs)]) s'.
Proof.
  intros HI. unfold Outbound.start. destruct (Outbound.sent_paired_key s) eqn:Hs.
  - intros Hc. assert (effs = [] /\ s' = s) as [-> ->] by (split; congruence).
    apply (outbound_idle i tr s); [done|done|by left].
  - assert (Hidle : Forall idle tr).
    { destruct HI as [_ HI]. rewrite Hs in HI. destruct (Outbound.state s); intuition congruence. }
    destruct (paired_key_encryption g) as [[f|e] g1];
      intros [[<- <-]%pair_equal_spec _]%pair_equal_spec.
    + destruct HI as [Hi _]. split; [done|]. split; [done|].
      eexists tr, _, []. split_and!; [done| |done|constructor]. exists f. by rewrite <- Hi.
    + apply (outbound_idle i tr s); [done|done|by right].
Qed.

Lemma outbound_on_inv i tr s e effs s' :
  outbound_inv i tr s -> Outbound.on e s = (effs, s') ->
  outbound_inv i (tr ++ [(On e, effs)]) s'.
Proof.
  intros HI. unfold Outbound.on.
  destruct (State.is_over (Outbound.state s)) eqn:Ho.
  { intros [= <- <-]. apply (outbound_idle i tr s); [done|done|by left]. }
  assert (Hstay : forall effs, idle (On e, effs) -> outbound_inv i (tr ++ [(On e, effs)]) s).
  { intros. apply (outbound_idle i tr s); auto. }
  assert (Hstop : forall effs st, idle (On e, effs) -> State.is_over st = true ->
    outbound_inv i (tr ++ [(On e, effs)]) (Outbound.set_state st s)).
  { intros. apply (outbound_idle i tr s); auto. }
  destruct e as [f| | | |]; unfold Outbound.on_frame, Outbound.fail;
    try (intros [= <- <-]; by apply Hstop);
    try (case_bool_decide; intros [= <- <-]; by apply Hstop).
  destruct (Outbound.state s) eqn:Hst, f as [j|[]|? ?|r| |t]; try done;
    try (intros [= <- <-]; first [by apply Hstop|by apply Hstay]).
  destruct HI as [Hi HI]. rewrite Hst in HI. intros [= <- <-]. split; [done|].
  destruct HI as [Hs (pre & eff0 & post & -> & Hop & H1 & H2)]. split; [done|].
  exists pre, eff0, post, []. rewrite <- app_assoc, Hi. split_and!; done || constructor.
Qed.

(** A finished receiver or sender stays finished: no later event has an effect. *)
Lemma over_is_absorbing e (s : Inbound.t) (s' : Outbound.t) :
  (State.is_over (Inbound.state s) = true -> Inbound.on e s = ([], s)) /\
  (State.is_over (Outbound.state s') = true -> Outbound.on e s' = ([], s')).
Proof. unfold Inbound.on, Outbound.on. split; by intros ->. Qed.

(** ** Properties *)

(** C1: consent.  Whatever the peer sends and whenever, in every run of the receiver the
    acceptance is sent, and the payloads begin to be received, at most once: in answer to
    the user's approval, after the user was asked about exactly that introduction, which
    the peer sent, which offers something, and which was the only one ever put to them. *)
Theorem inbound_consent `{Rand} `{!RandLaws} xs g :
  consent_shape (fst (fst (inbound_run xs g))).
Proof.
  pose proof (run_invariant Inbound.start Inbound.on inbound_inv xs Inbound.new g []) as HI.
  unfold inbound_run. destruct (run _ _ _ _ _) as [[tr s'] g']. cbn.
  eapply inbound_inv_shape, HI; [constructor|].
  intros tr1 s1 g1 [|e] effs s2 g2 H1; cbn [call].
  - by apply inbound_start_inv.
  - intros [= Hon _]. by apply (inbound_on_inv tr1 s1).
Qed.

Lemma inbound_consent_witness :
  consent_shape (fst (fst (@inbound_run Toy.rand
    [Start; On (EvFrame (FPairedKeyEncryption [] [])); On (EvFrame (FPairedKeyResult
      PairedKeyResult.Unable)); On (EvFrame (FIntroduction (mkIntroduction
      [FileMetadata_default] [] false))); On UserAccepted; On TransferComplete] 7))).
Proof.
  apply (@inbound_consent Toy.rand Toy.rand_laws
    [Start; On (EvFrame (FPairedKeyEncryption [] [])); On (EvFrame (FPairedKeyResult
      PairedKeyResult.Unable)); On (EvFrame (FIntroduction (mkIntroduction
      [FileMetadata_default] [] false))); On UserAccepted; On TransferComplete] 7).
Defined.

(** The sender begins sending at most once, exactly the introduction it opened the
    exchange with, and only on the peer's acceptance of it. *)
Theorem outbound_sends_what_was_accepted `{Rand} i xs g :
  let tr := fst (fst (outbound_run i xs g)) in
  Forall idle tr \/ sent_shape i tr.
Proof.
  pose proof (run_invariant Outbound.start Outbound.on (outbound_inv i) xs (Outbound.new i) g [])
    as HI.
  unfold outbound_run. destruct (run _ _ _ _ _) as [[tr s'] g']. cbn.
  destruct HI as [_ HI]; [split; [done|constructor]| |].
  - intros tr1 s1 g1 [|e] effs s2 g2 H1; cbn [call].
    + by apply outbound_start_inv.
    + intros [= Hon _]. by apply (outbound_on_inv i tr1 s1).
  - cbn in HI. destruct (Outbound.state s'); intuition. left. by eapply opened_idle.
Qed.
