(* ===== verification/Upgrade.v ===== *)
(** * Bandwidth upgrade frames ([protocol/src/upgrade.rs], encoding and parsing)

    The negotiation that moves a live connection onto a faster medium.  Every builder returns
    a complete offline frame; [parse] takes the body [Frames.parse] hands over.  The two state
    machines are in [UpgradeFsm]. *)

From stdpp Require Import sorting.
From S2P Require Import Prelude Utf8 Protobuf Frames.

(** ** Field numbers *)

Definition BW_EVENT_TYPE : Z := 1.
Definition BW_UPGRADE_PATH_INFO : Z := 2.
Definition BW_CLIENT_INTRODUCTION : Z := 3.
Definition BW_CLIENT_INTRODUCTION_ACK : Z := 4.
Definition BW_SAFE_TO_CLOSE : Z := 5.

Definition E_UPGRADE_PATH_AVAILABLE : Z := 1.
Definition E_LAST_WRITE_TO_PRIOR : Z := 2.
Definition E_SAFE_TO_CLOSE_PRIOR : Z := 3.
Definition E_CLIENT_INTRODUCTION : Z := 4.
Definition E_UPGRADE_FAILURE : Z := 5.
Definition E_CLIENT_INTRODUCTION_ACK : Z := 6.
Definition E_UPGRADE_PATH_REQUEST : Z := 7.

Definition UP_MEDIUM : Z := 1.
Definition UP_WIFI_HOTSPOT : Z := 2.
Definition UP_WIFI_LAN : Z := 3.
Definition UP_WIFI_DIRECT : Z := 6.
Definition UP_SUPPORTS_DISABLING_ENCRYPTION : Z := 7.
Definition UP_SUPPORTS_INTRODUCTION_ACK : Z := 9.
Definition UP_UPGRADE_PATH_REQUEST : Z := 10.

Definition UPR_MEDIUMS : Z := 1.
Definition UPR_MEDIUM_METADATA : Z := 2.

Definition MM_MEDIUM_ROLE : Z := 12.
Definition MM_SUPPORTED_WIFI_DIRECT_AUTH : Z := 13.
Definition MR_WIFI_DIRECT_GROUP_OWNER : Z := 1.
Definition MR_WIFI_DIRECT_GROUP_CLIENT : Z := 2.
Definition WIFI_DIRECT_WITH_PASSWORD : Z := 1.

Definition STA_FREQUENCY_NOT_SET : Z := -1.

Definition HS_SSID : Z := 1.
Definition HS_PASSWORD : Z := 2.
Definition HS_PORT : Z := 3.
Definition HS_GATEWAY : Z := 4.
Definition HS_FREQUENCY : Z := 5.

Definition WD_SSID : Z := 1.
Definition WD_PASSWORD : Z := 2.
Definition WD_PORT : Z := 3.
Definition WD_FREQUENCY : Z := 4.
Definition WD_GATEWAY : Z := 5.

Definition LAN_IP : Z := 1.
Definition LAN_PORT : Z := 2.

Definition CI_ENDPOINT_ID : Z := 1.
Definition CI_SUPPORTS_DISABLING_ENCRYPTION : Z := 2.

Definition SC_STA_FREQUENCY : Z := 1.

(** ** Data *)

Module Medium.
Inductive t : Type :=
| Unknown | Bluetooth | WifiHotspot | Ble | WifiLan | WifiAware | WifiDirect | Awdl.
Definition as_u64 (m : t) : Z :=
  match m with
  | Unknown => 0 | Bluetooth => 2 | WifiHotspot => 3 | Ble => 4 | WifiLan => 5
  | WifiAware => 6 | WifiDirect => 8 | Awdl => 13
  end.
Definition from (v : Z) : t :=
  if v =? 2 then Bluetooth else if v =? 3 then WifiHotspot else if v =? 4 then Ble
  else if v =? 5 then WifiLan else if v =? 6 then WifiAware else if v =? 8 then WifiDirect
  else if v =? 13 then Awdl else Unknown.
#[global] Instance eq_dec : EqDecision t.
Proof. solve_decision. Defined.
(** [sort_by_key(|m| *m as u64)]. *)
Definition le (a b : t) : Prop := as_u64 a <= as_u64 b.
#[global] Instance le_dec a b : Decision (le a b).
Proof. unfold le. apply _. Defined.
End Medium.

Record WifiCredentials : Type := mkWifiCredentials {
  wc_ssid : list byte;
  wc_password : list byte;
  wc_port : Z;
  wc_gateway : list byte;
  wc_frequency : Z
}.

Record LanSocket : Type := mkLanSocket { lan_ip : list byte; lan_port : Z }.

Record UpgradePath : Type := mkUpgradePath {
  up_medium : Medium.t;
  up_wifi : option WifiCredentials;
  up_lan : option LanSocket;
  up_supports_introduction_ack : bool;
  up_supports_disabling_encryption : bool
}.

Inductive Frame : Type :=
| PathRequest (mediums : list Medium.t)
| PathAvailable (path : UpgradePath)
| ClientIntroduction (endpoint_id : list byte)
| ClientIntroductionAck
| LastWriteToPrior
| SafeToClosePrior (sta_frequency : Z)
| Failure
| Unknown (event : Z).

Inductive Error : Type :=
| EProtobuf (e : Protobuf.Error)
| EMalformed (why : string).

#[export] Instance Error_from_protobuf : From Protobuf.Error Error := EProtobuf.

(** ** Encoding *)

Definition wrap (body : list byte) : list byte := bandwidth_upgrade body.

(** [v as i64 as u64] of an [i32]. *)
Definition i32_u64 (v : Z) : Z := as_u64 v.

Definition encode_wifi (c : WifiCredentials) (direct : bool) : list byte :=
  Writer.finish
    (if direct then
       Writer.new
         |> Writer.bytes WD_SSID (wc_ssid c)
         |> Writer.bytes WD_PASSWORD (wc_password c)
         |> Writer.varint WD_PORT (i32_u64 (wc_port c))
         |> Writer.varint WD_FREQUENCY (i32_u64 (wc_frequency c))
         |> Writer.bytes WD_GATEWAY (wc_gateway c)
     else
       Writer.new
         |> Writer.bytes HS_SSID (wc_ssid c)
         |> Writer.bytes HS_PASSWORD (wc_password c)
         |> Writer.varint HS_PORT (i32_u64 (wc_port c))
         |> Writer.bytes HS_GATEWAY (wc_gateway c)
         |> Writer.varint HS_FREQUENCY (i32_u64 (wc_frequency c))).

(** The packing [loop] of [path_request]; ten rounds empty a [u64]. *)
Fixpoint pack_varint (fuel : nat) (packed : list byte) (v : Z) : list byte :=
  match fuel with
  | O => packed
  | S fuel =>
      let b := to_u8 (Z.land v 127) in
      let v := Z.shiftr v 7 in
      if v =? 0 then packed ++ [b]
      else pack_varint fuel (packed ++ [to_u8 (Z.lor (u8 b) 128)]) v
  end.

Definition path_request (mediums : list Medium.t) : list byte :=
  let mediums := merge_sort Medium.le mediums in
  let packed :=
    fold_left (fun packed m => pack_varint 10 packed (Medium.as_u64 m)) mediums [] in
  let meta := Writer.new in
  let meta :=
    if bool_decide (Medium.WifiDirect ∈ mediums) then
      let role := Writer.new |> Writer.varint MR_WIFI_DIRECT_GROUP_OWNER 1
                             |> Writer.varint MR_WIFI_DIRECT_GROUP_CLIENT 1 in
      meta |> Writer.bytes MM_MEDIUM_ROLE (Writer.finish role)
           |> Writer.bytes MM_SUPPORTED_WIFI_DIRECT_AUTH [to_u8 WIFI_DIRECT_WITH_PASSWORD]
    else meta in
  let req := Writer.new |> Writer.bytes UPR_MEDIUMS packed
                        |> Writer.bytes UPR_MEDIUM_METADATA (Writer.finish meta) in
  let info := Writer.new |> Writer.bytes UP_UPGRADE_PATH_REQUEST (Writer.finish req) in
  let w := Writer.new |> Writer.varint BW_EVENT_TYPE E_UPGRADE_PATH_REQUEST
                      |> Writer.bytes BW_UPGRADE_PATH_INFO (Writer.finish info) in
  wrap (Writer.finish w).

Definition path_available (path : UpgradePath) : list byte :=
  let info := Writer.new |> Writer.varint UP_MEDIUM (Medium.as_u64 (up_medium path)) in
  let info :=
    match up_wifi path with
    | Some c =>
        let direct := bool_decide (up_medium path = Medium.WifiDirect) in
        let field := if direct then UP_WIFI_DIRECT else UP_WIFI_HOTSPOT in
        info |> Writer.bytes field (encode_wifi c direct)
    | None => info
    end in
  let info :=
    match up_lan path with
    | Some l =>
        let s := Writer.new |> Writer.bytes LAN_IP (lan_ip l)
                            |> Writer.varint LAN_PORT (i32_u64 (lan_port l)) in
        info |> Writer.bytes UP_WIFI_LAN (Writer.finish s)
    | None => info
    end in
  let info := info
    |> Writer.varint UP_SUPPORTS_DISABLING_ENCRYPTION
         (bool_u64 (up_supports_disabling_encryption path))
    |> Writer.varint UP_SUPPORTS_INTRODUCTION_ACK
         (bool_u64 (up_supports_introduction_ack path)) in
  let w := Writer.new |> Writer.varint BW_EVENT_TYPE E_UPGRADE_PATH_AVAILABLE
                      |> Writer.bytes BW_UPGRADE_PATH_INFO (Writer.finish info) in
  wrap (Writer.finish w).

Definition client_introduction (endpoint_id : list byte) : list byte :=
  let ci := Writer.new |> Writer.bytes CI_ENDPOINT_ID endpoint_id
                       |> Writer.varint CI_SUPPORTS_DISABLING_ENCRYPTION 0 in
  let w := Writer.new |> Writer.varint BW_EVENT_TYPE E_CLIENT_INTRODUCTION
                      |> Writer.bytes BW_CLIENT_INTRODUCTION (Writer.finish ci) in
  wrap (Writer.finish w).

Definition client_introduction_ack : list byte :=
  let w := Writer.new |> Writer.varint BW_EVENT_TYPE E_CLIENT_INTRODUCTION_ACK
                      |> Writer.bytes BW_CLIENT_INTRODUCTION_ACK [] in
  wrap (Writer.finish w).

Definition last_write_to_prior : list byte :=
  let w := Writer.new |> Writer.varint BW_EVENT_TYPE E_LAST_WRITE_TO_PRIOR in
  wrap (Writer.finish w).

Definition safe_to_close_prior (sta_frequency : Z) : list byte :=
  let sc := Writer.new |> Writer.varint SC_STA_FREQUENCY (i32_u64 sta_frequency) in
  let w := Writer.new |> Writer.varint BW_EVENT_TYPE E_SAFE_TO_CLOSE_PRIOR
                      |> Writer.bytes BW_SAFE_TO_CLOSE (Writer.finish sc) in
  wrap (Writer.finish w).

Definition failure : list byte :=
  let w := Writer.new |> Writer.varint BW_EVENT_TYPE E_UPGRADE_FAILURE in
  wrap (Writer.finish w).

(** ** Decoding *)

(** [v as i64 as i32]. *)
Definition u64_i32 (v : Z) : Z := as_i32 (as_i64 v).

(** The inner [loop] of [parse_packed_mediums]; [None] is its early [return out]. *)
Fixpoint packed_varint (l : list byte) (v shift : Z) : option (Z * list byte) :=
  match l with
  | [] => None
  | b :: l =>
      let v := Z.lor v (as_u64 (Z.shiftl (Z.land (u8 b) 127) shift)) in
      if Z.land (u8 b) 128 =? 0 then Some (v, l)
      else if 63 <? shift + 7 then None
      else packed_varint l v (shift + 7)
  end.

(** Each round takes at least one byte. *)
Fixpoint packed_loop (fuel : nat) (packed : list byte) (out : list Medium.t) : list Medium.t :=
  match fuel, packed with
  | S fuel, _ :: _ =>
      match packed_varint packed 0 0 with
      | None => out
      | Some (v, rest) =>
          packed_loop fuel rest
            (match Medium.from v with Medium.Unknown => out | m => out ++ [m] end)
      end
  | _, _ => out
  end.

Definition parse_packed_mediums (packed : list byte) : list Medium.t :=
  packed_loop (length packed) packed [].

Definition parse_wifi (b : list byte) (direct : bool) : result WifiCredentials Error :=
  let '(ssid, pw, port, gw, freq) :=
    if direct then (WD_SSID, WD_PASSWORD, WD_PORT, WD_GATEWAY, WD_FREQUENCY)
    else (HS_SSID, HS_PASSWORD, HS_PORT, HS_GATEWAY, HS_FREQUENCY) in
  let? ssid := first_bytes b ssid in
  let? password := first_bytes b pw in
  let? port := first_varint b port in
  let? gateway := first_bytes b gw in
  Ok (mkWifiCredentials
        (unwrap_or (map_opt from_utf8_lossy ssid) [])
        (unwrap_or (map_opt from_utf8_lossy password) [])
        (u64_i32 (unwrap_or port 0))
        (unwrap_or (map_opt from_utf8_lossy gateway) (str "0.0.0.0"))
        (unwrap_or (map_opt u64_i32 (flatten_opt (ok (first_varint b freq)))) (-1))).

Definition parse_path (info : list byte) : result UpgradePath Error :=
  let? medium := first_varint info UP_MEDIUM in
  let medium := Medium.from (unwrap_or medium 0) in
  let? direct := first_bytes info UP_WIFI_DIRECT in
  let? wifi :=
    match direct with
    | Some c => let? c := parse_wifi c true in Ok (Some c)
    | None =>
        let? hotspot := first_bytes info UP_WIFI_HOTSPOT in
        match hotspot with
        | Some c => let? c := parse_wifi c false in Ok (Some c)
        | None => Ok None
        end
    end : result (option WifiCredentials) Error in
  let? lan := first_bytes info UP_WIFI_LAN in
  let? lan :=
    match lan with
    | Some s =>
        let? ip := first_bytes s LAN_IP in
        let? port := first_varint s LAN_PORT in
        Ok (Some (mkLanSocket (unwrap_or ip []) (u64_i32 (unwrap_or port 0))))
    | None => Ok None
    end : result (option LanSocket) Error in
  let? ack := first_varint info UP_SUPPORTS_INTRODUCTION_ACK in
  let? disabling := first_varint info UP_SUPPORTS_DISABLING_ENCRYPTION in
  Ok (mkUpgradePath medium wifi lan (negb (unwrap_or ack 0 =? 0))
        (negb (unwrap_or disabling 0 =? 0))).

Definition parse (body : list byte) : result Frame Error :=
  let? event := first_varint body BW_EVENT_TYPE in
  let? event := ok_or event (EMalformed "no event type") in
  if event =? E_UPGRADE_PATH_AVAILABLE then
    let? info := first_bytes body BW_UPGRADE_PATH_INFO in
    let? info := ok_or info (EMalformed "no upgrade path info") in
    let? path := parse_path info in
    Ok (PathAvailable path)
  else if event =? E_CLIENT_INTRODUCTION then
    let? ci := first_bytes body BW_CLIENT_INTRODUCTION in
    let? id := first_bytes (unwrap_or ci []) CI_ENDPOINT_ID in
    Ok (ClientIntroduction (unwrap_or (map_opt from_utf8_lossy id) []))
  else if event =? E_CLIENT_INTRODUCTION_ACK then Ok ClientIntroductionAck
  else if event =? E_LAST_WRITE_TO_PRIOR then Ok LastWriteToPrior
  else if event =? E_SAFE_TO_CLOSE_PRIOR then
    let? sc := first_bytes body BW_SAFE_TO_CLOSE in
    let? f := first_varint (unwrap_or sc []) SC_STA_FREQUENCY in
    Ok (SafeToClosePrior (u64_i32 (unwrap_or f 0)))
  else if event =? E_UPGRADE_PATH_REQUEST then
    let? info := first_bytes body BW_UPGRADE_PATH_INFO in
    let? req := first_bytes (unwrap_or info []) UP_UPGRADE_PATH_REQUEST in
    let? mediums := first_bytes (unwrap_or req []) UPR_MEDIUMS in
    Ok (PathRequest (parse_packed_mediums (unwrap_or mediums [])))
  else if event =? E_UPGRADE_FAILURE then Ok Failure
  else Ok (Unknown event).

(** ** Lemmas *)

Lemma medium_from_u64 m : Medium.from (Medium.as_u64 m) = m.
Proof. by destruct m. Qed.

Lemma is_u64_medium m : is_u64 (Medium.as_u64 m).
Proof. destruct m; unfold_ints; cbn; lia. Qed.

Lemma u64_i32_u64 v : is_i32 v -> u64_i32 (i32_u64 v) = v.
Proof. apply as_i32_i64_u64. Qed.

Lemma is_u64_i32_u64 v : is_u64 (i32_u64 v).
Proof. apply as_u64_range. Qed.
#[export] Hint Resolve is_u64_medium is_u64_i32_u64 : rust.

(** Mediums are below 128: one byte each. *)
Lemma pack_medium packed m :
  pack_varint 10 packed (Medium.as_u64 m) = packed ++ [to_u8 (Medium.as_u64 m)].
Proof. by destruct m. Qed.

Lemma pack_mediums ms packed :
  fold_left (fun packed m => pack_varint 10 packed (Medium.as_u64 m)) ms packed
  = packed ++ ((fun m => to_u8 (Medium.as_u64 m)) <$> ms).
Proof.
  revert packed. induction ms as [|m ms IH]; intros packed; cbn [fold_left].
  - by rewrite app_nil_r.
  - by rewrite pack_medium, IH, <- app_assoc.
Qed.

Definition known (m : Medium.t) : Prop := m <> Medium.Unknown.
#[export] Instance known_dec m : Decision (known m).
Proof. unfold known. apply _. Defined.

Lemma packed_loop_mediums ms out fuel :
  (length ms <= fuel)%nat ->
  packed_loop fuel ((fun m => to_u8 (Medium.as_u64 m)) <$> ms) out = out ++ filter known ms.
Proof.
  revert out fuel. induction ms as [|m ms IH]; intros out [|fuel] Hf; cbn [length] in Hf;
    try lia; try (by rewrite app_nil_r).
  rewrite fmap_cons. cbn [packed_loop].
  assert (Hp : packed_varint (to_u8 (Medium.as_u64 m)
                 :: ((fun m => to_u8 (Medium.as_u64 m)) <$> ms)) 0 0
               = Some (Medium.as_u64 m, (fun m => to_u8 (Medium.as_u64 m)) <$> ms))
    by (by destruct m).
  rewrite Hp, medium_from_u64, IH by lia. rewrite filter_cons.
  destruct m; try (rewrite decide_True by done; by rewrite <- app_assoc).
  by rewrite decide_False by (unfold known; auto).
Qed.

Lemma parse_packed ms :
  parse_packed_mediums ((fun m => to_u8 (Medium.as_u64 m)) <$> ms) = filter known ms.
Proof. unfold parse_packed_mediums. apply packed_loop_mediums. by rewrite length_fmap. Qed.

(** *** Messages as fields *)

Definition meta_fields (mediums : list Medium.t) : list Field :=
  if bool_decide (Medium.WifiDirect ∈ mediums) then
    [Bytes MM_MEDIUM_ROLE (encode [Varint MR_WIFI_DIRECT_GROUP_OWNER 1;
                                   Varint MR_WIFI_DIRECT_GROUP_CLIENT 1]);
     Bytes MM_SUPPORTED_WIFI_DIRECT_AUTH [to_u8 WIFI_DIRECT_WITH_PASSWORD]]
  else [].

Definition path_request_fields (mediums : list Medium.t) : list Field :=
  let mediums := merge_sort Medium.le mediums in
  [Bytes UPR_MEDIUMS ((fun m => to_u8 (Medium.as_u64 m)) <$> mediums);
   Bytes UPR_MEDIUM_METADATA (encode (meta_fields mediums))].

Lemma path_request_wrap ms :
  path_request ms =
  wrap (encode [Varint BW_EVENT_TYPE E_UPGRADE_PATH_REQUEST;
    Bytes BW_UPGRADE_PATH_INFO (encode
      [Bytes UP_UPGRADE_PATH_REQUEST (encode (path_request_fields ms))])]).
Proof.
  unfold path_request, path_request_fields, meta_fields. rewrite pack_mediums.
  case_bool_decide; to_fields; done.
Qed.

Definition wifi_fields (c : WifiCredentials) (direct : bool) : list Field :=
  if direct then
    [Bytes WD_SSID (wc_ssid c); Bytes WD_PASSWORD (wc_password c);
     Varint WD_PORT (i32_u64 (wc_port c)); Varint WD_FREQUENCY (i32_u64 (wc_frequency c));
     Bytes WD_GATEWAY (wc_gateway c)]
  else
    [Bytes HS_SSID (wc_ssid c); Bytes HS_PASSWORD (wc_password c);
     Varint HS_PORT (i32_u64 (wc_port c)); Bytes HS_GATEWAY (wc_gateway c);
     Varint HS_FREQUENCY (i32_u64 (wc_frequency c))].

Definition lan_fields (l : LanSocket) : list Field :=
  [Bytes LAN_IP (lan_ip l); Varint LAN_PORT (i32_u64 (lan_port l))].

Definition path_fields (p : UpgradePath) : list Field :=
  let direct := bool_decide (up_medium p = Medium.WifiDirect) in
  [Varint UP_MEDIUM (Medium.as_u64 (up_medium p))]
  ++ (match up_wifi p with
      | Some c => [Bytes (if direct then UP_WIFI_DIRECT else UP_WIFI_HOTSPOT)
                     (encode (wifi_fields c direct))]
      | None => []
      end)
  ++ (match up_lan p with
      | Some l => [Bytes UP_WIFI_LAN (encode (lan_fields l))]
      | None => []
      end)
  ++ [Varint UP_SUPPORTS_DISABLING_ENCRYPTION (bool_u64 (up_supports_disabling_encryption p));
      Varint UP_SUPPORTS_INTRODUCTION_ACK (bool_u64 (up_supports_introduction_ack p))].

Lemma encode_wifi_fields c direct : encode_wifi c direct = encode (wifi_fields c direct).
Proof. destruct direct; unfold encode_wifi; by to_fields. Qed.

Lemma path_available_wrap p :
  path_available p =
  wrap (encode [Varint BW_EVENT_TYPE E_UPGRADE_PATH_AVAILABLE;
                Bytes BW_UPGRADE_PATH_INFO (encode (path_fields p))]).
Proof.
  unfold path_available, path_fields, lan_fields.
  destruct (up_wifi p) as [c|], (up_lan p) as [l|]; rewrite ?encode_wifi_fields; by to_fields.
Qed.

Definition wf_wifi (c : WifiCredentials) : Prop :=
  valid (wc_ssid c) = true /\ valid (wc_password c) = true /\ valid (wc_gateway c) = true /\
  is_i32 (wc_port c) /\ is_i32 (wc_frequency c).

Definition wf_path (p : UpgradePath) : Prop :=
  (forall c, up_wifi p = Some c -> wf_wifi c) /\
  (forall l, up_lan p = Some l -> is_i32 (lan_port l)).

Lemma parse_wifi_fields c direct :
  wf_wifi c -> fits (encode (wifi_fields c direct)) ->
  parse_wifi (encode (wifi_fields c direct)) direct = Ok c.
Proof.
  intros (Hs & Hp & Hg & Hport & Hf) Hfit.
  assert (W : Forall wf_num (wifi_fields c direct)) by (destruct direct; wf_nums).
  unfold parse_wifi. destruct c as [ssid pw port gw freq].
  destruct direct; rewrite !first_varint_read, !first_bytes_read by done;
    cbn -[i32_u64 u64_i32 from_utf8_lossy str];
    by rewrite !lossy_valid, !u64_i32_u64 by done.
Qed.

Lemma parse_path_fields p :
  wf_path p -> fits (encode (path_fields p)) -> parse_path (encode (path_fields p)) = Ok p.
Proof.
  intros [Hw Hl] Hf.
  assert (W : Forall wf_num (path_fields p)).
  { unfold path_fields. wf_nums; [destruct (up_wifi p)|destruct (up_lan p)]; wf_nums.
    by case_bool_decide. }
  destruct p as [medium wifi lan ack dis]. cbn [up_wifi up_lan] in *.
  assert (Hwf : forall c, wifi = Some c ->
    fits (encode (wifi_fields c (bool_decide (medium = Medium.WifiDirect))))).
  { intros c ->. eapply fits_inner; [|exact Hf]. unfold path_fields. cbn [up_wifi app].
    apply list_elem_of_further, list_elem_of_here. }
  assert (Hlf : forall l, lan = Some l -> fits (encode (lan_fields l))).
  { intros l ->. eapply fits_inner; [|exact Hf]. unfold path_fields. cbn [up_lan].
    apply elem_of_app; right. apply elem_of_app; right. apply list_elem_of_here. }
  assert (Lan : forall l, lan = Some l ->
    first_bytes (encode (lan_fields l)) LAN_IP = Ok (Some (lan_ip l)) /\
    first_varint (encode (lan_fields l)) LAN_PORT = Ok (Some (i32_u64 (lan_port l)))).
  { intros l El. specialize (Hlf l El).
    rewrite first_bytes_read, first_varint_read by (done || wf_nums). done. }
  unfold parse_path. rewrite !first_varint_read, !first_bytes_read by done.
  cbn [try_bind]. unfold path_fields.
  cbn [up_medium up_wifi up_lan up_supports_disabling_encryption up_supports_introduction_ack].
  destruct wifi as [c|].
  - specialize (Hw c eq_refl). specialize (Hwf c eq_refl).
    pose proof (parse_wifi_fields c _ Hw Hwf) as Hpw.
    destruct lan as [l|].
    + specialize (Hl l eq_refl). destruct (Lan l eq_refl) as [Li Lp].
      case_bool_decide as Hm; cbn -[i32_u64 u64_i32 bool_u64 Medium.from first_bytes first_varint
        parse_wifi encode wifi_fields lan_fields];
      rewrite Hpw, Li, Lp; cbn -[i32_u64 u64_i32 bool_u64 Medium.from];
      rewrite medium_from_u64, !bool_u64_nonzero, u64_i32_u64 by done; by destruct l.
    + case_bool_decide as Hm; cbn -[i32_u64 u64_i32 bool_u64 Medium.from parse_wifi encode wifi_fields lan_fields];
      rewrite Hpw; cbn -[bool_u64 Medium.from];
      by rewrite medium_from_u64, !bool_u64_nonzero.
  - destruct lan as [l|].
    + specialize (Hl l eq_refl). destruct (Lan l eq_refl) as [Li Lp].
      cbn -[i32_u64 u64_i32 bool_u64 Medium.from first_bytes first_varint encode lan_fields].
      rewrite Li, Lp. cbn -[i32_u64 u64_i32 bool_u64 Medium.from].
      rewrite medium_from_u64, !bool_u64_nonzero, u64_i32_u64 by done. by destruct l.
    + cbn -[bool_u64 Medium.from]. by rewrite medium_from_u64, !bool_u64_nonzero.
Qed.

(** ** The frames a daemon can build, and what each parses to *)

Inductive Message : Type :=
| MPathRequest (mediums : list Medium.t)
| MPathAvailable (path : UpgradePath)
| MClientIntroduction (endpoint_id : list byte)
| MClientIntroductionAck
| MLastWriteToPrior
| MSafeToClosePrior (sta_frequency : Z)
| MFailure.

Definition build (m : Message) : list byte :=
  match m with
  | MPathRequest ms => path_request ms
  | MPathAvailable p => path_available p
  | MClientIntroduction id => client_introduction id
  | MClientIntroductionAck => client_introduction_ack
  | MLastWriteToPrior => last_write_to_prior
  | MSafeToClosePrior f => safe_to_close_prior f
  | MFailure => failure
  end.

Definition frame_of (m : Message) : Frame :=
  match m with
  | MPathRequest ms => PathRequest (filter known (merge_sort Medium.le ms))
  | MPathAvailable p => PathAvailable p
  | MClientIntroduction id => ClientIntroduction id
  | MClientIntroductionAck => ClientIntroductionAck
  | MLastWriteToPrior => LastWriteToPrior
  | MSafeToClosePrior f => SafeToClosePrior f
  | MFailure => Failure
  end.

Definition wf_message (m : Message) : Prop :=
  match m with
  | MPathAvailable p => wf_path p
  | MClientIntroduction id => valid id = true
  | MSafeToClosePrior f => is_i32 f
  | _ => True
  end.

(** The negotiation body of each message. *)
Definition body_fields (m : Message) : list Field :=
  match m with
  | MPathRequest ms =>
      [Varint BW_EVENT_TYPE E_UPGRADE_PATH_REQUEST;
       Bytes BW_UPGRADE_PATH_INFO (encode
         [Bytes UP_UPGRADE_PATH_REQUEST (encode (path_request_fields ms))])]
  | MPathAvailable p =>
      [Varint BW_EVENT_TYPE E_UPGRADE_PATH_AVAILABLE;
       Bytes BW_UPGRADE_PATH_INFO (encode (path_fields p))]
  | MClientIntroduction id =>
      [Varint BW_EVENT_TYPE E_CLIENT_INTRODUCTION;
       Bytes BW_CLIENT_INTRODUCTION (encode
         [Bytes CI_ENDPOINT_ID id; Varint CI_SUPPORTS_DISABLING_ENCRYPTION 0])]
  | MClientIntroductionAck =>
      [Varint BW_EVENT_TYPE E_CLIENT_INTRODUCTION_ACK; Bytes BW_CLIENT_INTRODUCTION_ACK []]
  | MLastWriteToPrior => [Varint BW_EVENT_TYPE E_LAST_WRITE_TO_PRIOR]
  | MSafeToClosePrior f =>
      [Varint BW_EVENT_TYPE E_SAFE_TO_CLOSE_PRIOR;
       Bytes BW_SAFE_TO_CLOSE (encode [Varint SC_STA_FREQUENCY (i32_u64 f)])]
  | MFailure => [Varint BW_EVENT_TYPE E_UPGRADE_FAILURE]
  end.

Lemma build_wrap m : build m = wrap (encode (body_fields m)).
Proof.
  destruct m; cbn [build body_fields];
    [apply path_request_wrap|apply path_available_wrap|..];
    unfold client_introduction, client_introduction_ack, last_write_to_prior,
      safe_to_close_prior, failure; by to_fields.
Qed.

Lemma wf_body_fields m : Forall wf_num (body_fields m).
Proof. destruct m; cbn [body_fields]; wf_nums. Qed.

Lemma parse_body_fields m :
  wf_message m -> fits (encode (body_fields m)) ->
  parse (encode (body_fields m)) = Ok (frame_of m).
Proof.
  intros Hm Hf. pose proof (wf_body_fields m) as W.
  unfold parse. rewrite first_varint_read by done.
  assert (Hin : forall n b, Bytes n b ∈ body_fields m -> fits b)
    by (intros; by eapply fits_inner).
  destruct m as [ms|p|id| | |f|]; try done; rewrite !first_bytes_read by done;
    cbn [body_fields] in Hin.
  - specialize (Hin _ _ (list_elem_of_further _ _ _ (list_elem_of_here _ _))) as Hi1.
    assert (Hi2 : fits (encode (path_request_fields ms))) by fits_in Hi1.
    set (req := encode (path_request_fields ms)) in *.
    change (last_varint BW_EVENT_TYPE _) with (Some E_UPGRADE_PATH_REQUEST).
    change (last_bytes BW_UPGRADE_PATH_INFO _) with
      (Some (encode [Bytes UP_UPGRADE_PATH_REQUEST req])).
    cbn -[parse_packed_mediums first_bytes encode frame_of].
    rewrite first_bytes_read by (done || wf_nums).
    change (last_bytes UP_UPGRADE_PATH_REQUEST _) with (Some req).
    cbn -[parse_packed_mediums first_bytes encode frame_of].
    unfold req. rewrite first_bytes_read by (done || wf_nums).
    change (last_bytes UPR_MEDIUMS _) with
      (Some ((fun m => to_u8 (Medium.as_u64 m)) <$> merge_sort Medium.le ms)).
    cbn [try_bind unwrap_or frame_of]. by rewrite parse_packed.
  - specialize (Hin _ _ (list_elem_of_further _ _ _ (list_elem_of_here _ _))).
    change (last_varint BW_EVENT_TYPE _) with (Some E_UPGRADE_PATH_AVAILABLE).
    change (last_bytes BW_UPGRADE_PATH_INFO _) with (Some (encode (path_fields p))).
    cbn -[parse_path path_fields encode]. by rewrite parse_path_fields.
  - specialize (Hin _ _ (list_elem_of_further _ _ _ (list_elem_of_here _ _))).
    change (last_varint BW_EVENT_TYPE _) with (Some E_CLIENT_INTRODUCTION).
    change (last_bytes BW_CLIENT_INTRODUCTION _) with
      (Some (encode [Bytes CI_ENDPOINT_ID id; Varint CI_SUPPORTS_DISABLING_ENCRYPTION 0])).
    cbn -[encode first_bytes]. rewrite first_bytes_read by (done || wf_nums).
    cbn -[from_utf8_lossy]. by rewrite lossy_valid.
  - specialize (Hin _ _ (list_elem_of_further _ _ _ (list_elem_of_here _ _))).
    change (last_varint BW_EVENT_TYPE _) with (Some E_SAFE_TO_CLOSE_PRIOR).
    change (last_bytes BW_SAFE_TO_CLOSE _) with
      (Some (encode [Varint SC_STA_FREQUENCY (i32_u64 f)])).
    cbn -[encode first_varint i32_u64 u64_i32]. rewrite first_varint_read by (done || wf_nums).
    cbn -[i32_u64 u64_i32]. by rewrite u64_i32_u64.
Qed.

(** What the peer makes of a frame taken off the transport. *)
Definition receive (frame : list byte) : option (result Frame Error) :=
  map_opt parse (upgrade_body frame).

Lemma receive_build m :
  wf_message m -> fits (build m) -> receive (build m) = Some (Ok (frame_of m)).
Proof.
  rewrite build_wrap. intros Hm Hf. unfold receive, wrap in *.
  assert (Hu : upgrade_body (bandwidth_upgrade (encode (body_fields m)))
               = Some (encode (body_fields m))).
  { unfold upgrade_body. pose proof (parse_build (MUpgrade (encode (body_fields m))) I Hf) as Hp.
    cbn [Frames.build Frames.frame_of] in Hp. by rewrite Hp. }
  rewrite Hu. cbn [map_opt]. rewrite parse_body_fields; [done|done|].
  by eapply offline_fits.
Qed.

(** ** Properties *)

(** Every negotiation builder yields exactly one offline frame, ready for the transport:
    the receiver unwraps it once and reads back the message, credentials, ports, signed
    frequencies and flags included; a path request is read as the sorted known mediums. *)
Theorem upgrade_roundtrip m :
  wf_message m -> fits (build m) -> receive (build m) = Some (Ok (frame_of m)).
Proof. apply receive_build. Qed.

Lemma upgrade_roundtrip_witness :
  let p := mkUpgradePath Medium.WifiDirect
    (Some (mkWifiCredentials (str "DIRECT-x") (str "pw") 8080 (str "192.168.49.1") (-1)))
    None true false in
  receive (path_available p) = Some (Ok (PathAvailable p)).
Proof.
  intros p. apply (upgrade_roundtrip (MPathAvailable p)).
  - split; [|done]. intros c [= <-]. repeat split; unfold_ints; cbn; lia.
  - vm_compute. discriminate.
Defined.

(** Wrapping a negotiation frame a second time is not detected, and turns every message
    into the same one: the receiver reads an offer of a path over BLE that carries no
    way to reach the host. *)
Theorem double_wrap_reads_as_offer m :
  fits (wrap (build m)) ->
  receive (wrap (build m))
  = Some (Ok (PathAvailable (mkUpgradePath Medium.Ble None None false false))).
Proof.
  intros Hf. unfold receive.
  assert (Hu : upgrade_body (wrap (build m)) = Some (build m)).
  { unfold upgrade_body, wrap. pose proof (parse_build (MUpgrade (build m)) I Hf) as Hp.
    cbn [Frames.build Frames.frame_of] in Hp. by rewrite Hp. }
  rewrite Hu. cbn [map_opt]. f_equal.
  apply offline_fits in Hf. rewrite build_wrap in *. unfold wrap, bandwidth_upgrade in *.
  rewrite offline_fields in *. set (body := encode (body_fields m)) in *.
  set (v1 := [Varint Frames.V1_TYPE T_BANDWIDTH_UPGRADE; Bytes V1_BANDWIDTH_UPGRADE body]) in *.
  assert (H1 : fits (encode v1)) by fits_in Hf.
  assert (W1 : Forall wf_num v1) by wf_nums.
  unfold parse. rewrite first_varint_read, first_bytes_read by (done || wf_nums).
  change (last_varint BW_EVENT_TYPE _) with (Some E_UPGRADE_PATH_AVAILABLE).
  change (last_bytes BW_UPGRADE_PATH_INFO _) with (Some (encode v1)).
  cbn -[encode parse_path]. unfold parse_path.
  by rewrite !first_varint_read, !first_bytes_read by done.
Qed.

Lemma double_wrap_reads_as_offer_witness :
  receive (wrap last_write_to_prior)
  = Some (Ok (PathAvailable (mkUpgradePath Medium.Ble None None false false))).
Proof.
  apply (double_wrap_reads_as_offer MLastWriteToPrior). vm_compute. discriminate.
Defined.
