(* ===== verification/UpgradeFsm.v ===== *)
(** * The bandwidth-upgrade state machines ([protocol/src/upgrade.rs], [Host] and [Joiner])

    The two sides of the handover, and the system they form: two ordered channels (the old
    and the new one) carrying the encoded frames between them.  The theorem is that every
    schedule of that system completes the upgrade. *)

From S2P Require Import Prelude Utf8 Protobuf Frames Upgrade.

Inductive Channel : Type := Old | New.

Definition channel_eqb (a b : Channel) : bool :=
  match a, b with Old, Old | New, New => true | _, _ => false end.

Inductive Effect : Type :=
| Send (c : Channel) (f : list byte)
| Join (p : UpgradePath)
| CloseOld
| EffUpgraded
| EffAbandoned (why : string).

Module State.
Inductive t : Type :=
| Idle | Offered | Joining | Introduced | Draining | Upgraded | Abandoned.
Definition eqb (a b : t) : bool :=
  match a, b with
  | Idle, Idle | Offered, Offered | Joining, Joining | Introduced, Introduced
  | Draining, Draining | Upgraded, Upgraded | Abandoned, Abandoned => true
  | _, _ => false
  end.
(** [matches!(state, State::Upgraded | State::Abandoned)]. *)
Definition is_over (s : t) : bool :=
  match s with Upgraded | Abandoned => true | _ => false end.
End State.

Inductive Event : Type :=
| EvFrame (c : Channel) (f : Upgrade.Frame)
| Connected
| JoinFailed.

Module Host.

Record t : Type := mk { state : State.t; path : UpgradePath; sta_frequency : Z }.

Definition new (p : UpgradePath) (f : Z) : t := mk State.Idle p f.

Definition set_state (st : State.t) (s : t) : t := mk st (path s) (sta_frequency s).

Definition abandon (why : string) (s : t) : list Effect * t :=
  ([EffAbandoned why], set_state State.Abandoned s).

Definition start (s : t) : list Effect * t :=
  ([Send Old (path_available (path s))], set_state State.Offered s).

Definition on (event : Event) (s : t) : list Effect * t :=
  if State.is_over (state s) then ([], s)
  else
    match event with
    | EvFrame New (ClientIntroduction _) =>
        let out := if up_supports_introduction_ack (path s)
                   then [Send New client_introduction_ack] else [] in
        (out ++ [Send Old last_write_to_prior], set_state State.Draining s)
    | EvFrame Old LastWriteToPrior => ([], s)
    | EvFrame Old (SafeToClosePrior _) =>
        ([Send Old (safe_to_close_prior (sta_frequency s)); CloseOld; EffUpgraded],
         set_state State.Upgraded s)
    | EvFrame _ Failure => abandon "the peer reported an upgrade failure" s
    | JoinFailed => abandon "could not join" s
    | _ => ([], s)
    end.

End Host.

Module Joiner.

Record t : Type := mk {
  state : State.t;
  endpoint_id : list byte;
  path : option UpgradePath
}.

Definition new (endpoint_id : list byte) : t := mk State.Idle endpoint_id None.

Definition set_state (st : State.t) (s : t) : t := mk st (endpoint_id s) (path s).

Definition abandon (why : string) (s : t) : list Effect * t :=
  ([EffAbandoned why], set_state State.Abandoned s).

Definition on (event : Event) (s : t) : list Effect * t :=
  if State.is_over (state s) then ([], s)
  else
    match event with
    | EvFrame Old (PathAvailable p) =>
        if negb (is_some (up_wifi p)) && negb (is_some (up_lan p))
        then abandon "the offer carried no way to reach the host" s
        else ([Join p], mk State.Joining (endpoint_id s) (Some p))
    | Connected =>
        if negb (State.eqb (state s) State.Joining)
        then abandon "connected without an offer" s
        else
          let ack := unwrap_or (map_opt up_supports_introduction_ack (path s)) false in
          let out := [Send New (client_introduction (endpoint_id s))] in
          if ack then (out, set_state State.Introduced s)
          else (out ++ [Send Old last_write_to_prior], set_state State.Draining s)
    | EvFrame New ClientIntroductionAck =>
        if negb (State.eqb (state s) State.Introduced) then ([], s)
        else ([Send Old last_write_to_prior], set_state State.Draining s)
    | EvFrame Old LastWriteToPrior =>
        ([Send Old (safe_to_close_prior STA_FREQUENCY_NOT_SET)], s)
    | EvFrame Old (SafeToClosePrior _) => ([CloseOld; EffUpgraded], set_state State.Upgraded s)
    | JoinFailed =>
        ([Send Old failure; EffAbandoned "could not join the offered network"],
         set_state State.Abandoned s)
    | EvFrame _ Failure => abandon "the peer reported an upgrade failure" s
    | _ => ([], s)
    end.

End Joiner.

(** ** The two sides together

    Each channel is a FIFO in each direction.  The environment decides which queue delivers
    next, and whether the joiner's attempt to reach the new network succeeds. *)

Record sys : Type := mkSys {
  host : Host.t;
  joiner : Joiner.t;
  hj_old : list (list byte);
  hj_new : list (list byte);
  jh_old : list (list byte);
  jh_new : list (list byte);
  joining : bool
}.

(** The frames sent on a channel, in order. *)
Fixpoint sent_on (c : Channel) (effs : list Effect) : list (list byte) :=
  match effs with
  | [] => []
  | Send c' f :: effs =>
      if channel_eqb c' c then f :: sent_on c effs else sent_on c effs
  | _ :: effs => sent_on c effs
  end.

Definition joins (effs : list Effect) : bool :=
  existsb (fun e => match e with Join _ => true | _ => false end) effs.

(** The host's machine returned [r]: perform its effects. *)
Definition host_did (r : list Effect * Host.t) (s : sys) : sys :=
  let (effs, h) := r in
  mkSys h (joiner s) (hj_old s ++ sent_on Old effs) (hj_new s ++ sent_on New effs)
    (jh_old s) (jh_new s) (joining s).

Definition joiner_did (r : list Effect * Joiner.t) (s : sys) : sys :=
  let (effs, j) := r in
  mkSys (host s) j (hj_old s) (hj_new s)
    (jh_old s ++ sent_on Old effs) (jh_new s ++ sent_on New effs)
    (joining s || joins effs).

(** What a frame taken off channel [c] is to the machine; an undecodable one is dropped. *)
Definition event_of (c : Channel) (f : list byte) : option Event :=
  match receive f with
  | Some (Ok fr) => Some (EvFrame c fr)
  | _ => None
  end.

Definition host_gets (c : Channel) (f : list byte) (s : sys) : sys :=
  match event_of c f with Some e => host_did (Host.on e (host s)) s | None => s end.
Definition joiner_gets (c : Channel) (f : list byte) (s : sys) : sys :=
  match event_of c f with Some e => joiner_did (Joiner.on e (joiner s)) s | None => s end.

Inductive Move : Type := ToHost (c : Channel) | ToJoiner (c : Channel) | Network.

(** One move of the environment, if it is possible. *)
Definition move (net_ok : bool) (m : Move) (s : sys) : option sys :=
  let '(mkSys h j ho hn jo jn jg) := s in
  match m with
  | ToJoiner Old =>
      match ho with f :: q => Some (joiner_gets Old f (mkSys h j q hn jo jn jg)) | [] => None end
  | ToJoiner New =>
      match hn with f :: q => Some (joiner_gets New f (mkSys h j ho q jo jn jg)) | [] => None end
  | ToHost Old =>
      match jo with f :: q => Some (host_gets Old f (mkSys h j ho hn q jn jg)) | [] => None end
  | ToHost New =>
      match jn with f :: q => Some (host_gets New f (mkSys h j ho hn jo q jg)) | [] => None end
  | Network =>
      if jg
      then Some (joiner_did (Joiner.on (if net_ok then Connected else JoinFailed) j)
                   (mkSys h j ho hn jo jn false))
      else None
  end.

Definition start (p : UpgradePath) (sta_frequency : Z) (id : list byte) : sys :=
  host_did (Host.start (Host.new p sta_frequency))
    (mkSys (Host.new p sta_frequency) (Joiner.new id) [] [] [] [] false).

(** Every schedule reaches [P]: [P] holds now, or some move is possible and every possible
    move leads to a state from which it is inevitable. *)
Inductive inevitable (net_ok : bool) (P : sys -> Prop) : sys -> Prop :=
| inev_now s : P s -> inevitable net_ok P s
| inev_later s :
    (exists m s', move net_ok m s = Some s') ->
    (forall m s', move net_ok m s = Some s' -> inevitable net_ok P s') ->
    inevitable net_ok P s.

Definition settled (net_ok : bool) (s : sys) : Prop :=
  let st := if net_ok then State.Upgraded else State.Abandoned in
  Host.state (host s) = st /\ Joiner.state (joiner s) = st.

(** ** Lemmas *)

Lemma event_build c m :
  Upgrade.wf_message m -> fits (build m) -> event_of c (build m) = Some (EvFrame c (frame_of m)).
Proof. intros Hm Hf. unfold event_of. by rewrite receive_build. Qed.

Lemma None_Some {A} (x : A) : None = Some x -> False.
Proof. discriminate. Qed.

Section Handover.
Context (p : UpgradePath) (sta_frequency : Z) (id : list byte).
Hypothesis Hp : Upgrade.wf_message (MPathAvailable p).
Hypothesis Hroute : negb (is_some (up_wifi p)) && negb (is_some (up_lan p)) = false.
Hypothesis Hf : is_i32 sta_frequency.
Hypothesis Hid : valid id = true.
Hypothesis Hp_fits : fits (path_available p).
Hypothesis Hid_fits : fits (client_introduction id).

Lemma event_path c : event_of c (path_available p) = Some (EvFrame c (PathAvailable p)).
Proof using Hp Hp_fits. by apply (event_build c (MPathAvailable p)). Qed.

Lemma event_intro c :
  event_of c (client_introduction id) = Some (EvFrame c (ClientIntroduction id)).
Proof using Hid Hid_fits. by apply (event_build c (MClientIntroduction id)). Qed.

Lemma event_ack c : event_of c client_introduction_ack = Some (EvFrame c ClientIntroductionAck).
Proof. by destruct c; vm_compute. Qed.

Lemma event_last c : event_of c last_write_to_prior = Some (EvFrame c LastWriteToPrior).
Proof. by destruct c; vm_compute. Qed.

Lemma event_failure c : event_of c failure = Some (EvFrame c Failure).
Proof. by destruct c; vm_compute. Qed.

Lemma event_safe c f :
  is_i32 f -> event_of c (safe_to_close_prior f) = Some (EvFrame c (SafeToClosePrior f)).
Proof.
  intros H. apply (event_build c (MSafeToClosePrior f)); [done|]. rewrite (build_wrap (MSafeToClosePrior f)). unfold wrap, bandwidth_upgrade.
  rewrite offline_fields. unfold fits.
  etransitivity; [apply encode_len|]. cbn [fields_cost].
  pose proof (encode_len [Varint Frames.V1_TYPE T_BANDWIDTH_UPGRADE;
    Bytes V1_BANDWIDTH_UPGRADE (encode (body_fields (MSafeToClosePrior f)))]) as H1.
  pose proof (encode_len (body_fields (MSafeToClosePrior f))) as H2.
  pose proof (encode_len [Varint SC_STA_FREQUENCY (i32_u64 f)]) as H3.
  cbn [fields_cost body_fields] in *. unfold_ints. lia.
Qed.

Lemma event_safe_not_set c :
  event_of c (safe_to_close_prior STA_FREQUENCY_NOT_SET)
  = Some (EvFrame c (SafeToClosePrior STA_FREQUENCY_NOT_SET)).
Proof. apply event_safe. unfold_ints. unfold STA_FREQUENCY_NOT_SET. lia. Qed.

(** Take one step of every schedule. *)
Ltac explore_moves :=
  let m := fresh "m" in let s' := fresh "s'" in let H := fresh "H" in
  intros m s' H; destruct m as [[|]|[|]|]; cbn [move] in H; try (exfalso; exact (None_Some _ H));
  apply Some_inj in H; subst s'.

Ltac run_move :=
  unfold host_gets, joiner_gets;
  rewrite ?event_path, ?event_intro, ?event_ack, ?event_last, ?event_failure,
    ?event_safe_not_set, ?(event_safe _ sta_frequency Hf);
  unfold host_did, joiner_did, Joiner.on, Host.on, Host.abandon, Joiner.abandon,
    Host.set_state, Joiner.set_state;
  repeat (progress (cbn -[path_available client_introduction client_introduction_ack
    last_write_to_prior safe_to_close_prior failure]);
    rewrite ?Hroute;
    try match goal with H : up_supports_introduction_ack p = _ |- _ => rewrite H end).

Ltac some_move :=
  first [ by exists Network; eexists | by exists (ToJoiner Old); eexists
        | by exists (ToHost Old); eexists | by exists (ToJoiner New); eexists
        | by exists (ToHost New); eexists ].

(** Explore every schedule until both sides have settled. *)
Ltac every_schedule :=
  first
    [ by apply inev_now
    | apply inev_later; [some_move|explore_moves; run_move; every_schedule] ].

Lemma handover net_ok : inevitable net_ok (settled net_ok) (start p sta_frequency id).
Proof using All.
  unfold start, host_did, Host.start, Host.new, Joiner.new. cbn -[path_available].
  destruct net_ok, (up_supports_introduction_ack p) eqn:Hack; every_schedule.
Qed.
End Handover.

(** A joiner takes a SAFE_TO_CLOSE on the old channel as the end of the handover in every
    live state, even before it has been offered a path. *)
Lemma joiner_closes_on_any_release s f :
  State.is_over (Joiner.state s) = false ->
  Joiner.on (EvFrame Old (SafeToClosePrior f)) s
  = ([CloseOld; EffUpgraded], Joiner.set_state State.Upgraded s).
Proof. unfold Joiner.on. by intros ->. Qed.

(** ** Properties *)

(** C18: whatever order the four queues are delivered in, and whether or not the host answers
    introductions, an offer that names a way to reach the host ends with both sides upgraded
    when the joiner can reach the network, and with both sides abandoned, the connection left
    where it was, when it cannot.  Nothing waits for a frame that is never sent. *)
Theorem handover_settles p sta_frequency id net_ok :
  wf_path p -> up_wifi p <> None \/ up_lan p <> None ->
  is_i32 sta_frequency -> valid id = true ->
  fits (path_available p) -> fits (client_introduction id) ->
  inevitable net_ok (settled net_ok) (start p sta_frequency id).
Proof.
  intros Hp Hr Hf Hid Hpf Hif. apply handover; [done| |done..].
  destruct (up_wifi p), (up_lan p); naive_solver.
Qed.

Lemma handover_settles_witness :
  inevitable true (settled true)
    (start (mkUpgradePath Medium.WifiHotspot
       (Some (mkWifiCredentials (str "ap") (str "pw") 80 (str "0.0.0.0") (-1))) None true false)
       2412 (str "AB12")).
Proof.
  apply (handover_settles (mkUpgradePath Medium.WifiHotspot
    (Some (mkWifiCredentials (str "ap") (str "pw") 80 (str "0.0.0.0") (-1))) None true false)
    2412 (str "AB12") true).
  - split; [|done]. intros c [= <-]. repeat split; unfold_ints; cbn; lia.
  - by left.
  - unfold_ints. lia.
  - reflexivity.
  - vm_compute. discriminate.
  - vm_compute. discriminate.
Defined.
