(* ===== verification/Multiplex.v ===== *)
(** * The multiplex layer ([protocol/src/multiplex.rs])

    The virtual socket an L2CAP channel carries: building and decoding multiplex frames.  Every
    frame a peer running this code sends reads back as what was sent, whatever service the
    header names, and a data frame's payload is carried unchanged. *)

From S2P Require Import Prelude Protobuf Crypto Service.

Definition MF_HEADER : Z := 1.
Definition MF_FRAME_TYPE : Z := 2.
Definition MF_CONTROL_FRAME : Z := 3.
Definition MF_DATA_FRAME : Z := 4.
Definition FRAME_TYPE_CONTROL : Z := 1.
Definition FRAME_TYPE_DATA : Z := 2.
Definition HDR_SALTED_HASH : Z := 1.
Definition HDR_SALT : Z := 2.
Definition CF_TYPE : Z := 1.
Definition CF_CONNECTION_REQUEST : Z := 2.
Definition CF_CONNECTION_RESPONSE : Z := 3.
Definition CF_DISCONNECT : Z := 4.
Definition CONTROL_CONNECTION_REQUEST : Z := 1.
Definition CONTROL_CONNECTION_RESPONSE : Z := 2.
Definition CONTROL_DISCONNECTION : Z := 3.
Definition RSP_CODE : Z := 1.
Definition DF_DATA : Z := 1.
Definition SERVICE_ID_HASH_LEN : Z := 3.

Module ResponseCode.
Inductive t : Type := Unknown | Accepted | NotListening.
Definition as_u64 (c : t) : Z := match c with Unknown => 0 | Accepted => 1 | NotListening => 2 end.
Definition from (v : Z) : t :=
  if v =? 1 then Accepted else if v =? 2 then NotListening else Unknown.
End ResponseCode.

Inductive Frame : Type :=
| ConnectionRequest
| ConnectionResponse (code : ResponseCode.t)
| Disconnection
| Data (payload : list byte)
| Unknown.

Definition salted_service_id_hash `{Digest} (service_id salt : list byte) : list byte :=
  match openssl_sha256 (service_id ++ salt) with
  | Some d => take (Z.to_nat SERVICE_ID_HASH_LEN) d
  | None => replicate (Z.to_nat SERVICE_ID_HASH_LEN) (to_u8 0)
  end.

(** A failure of the generator leaves the buffer zero. *)
Definition random_salt `{Rand} (g : rng) : list byte * rng :=
  let (b, g) := rand_bytes 8 g in
  (mjoin (hex <$> unwrap_or b (replicate 8 (to_u8 0))), g).

Definition header (salted salt : list byte) : list byte :=
  Writer.finish (Writer.new
    |> Writer.bytes HDR_SALTED_HASH salted |> Writer.bytes HDR_SALT salt).

Definition connection_request (salted salt : list byte) : list byte :=
  let control := Writer.new
    |> Writer.varint CF_TYPE CONTROL_CONNECTION_REQUEST
    |> Writer.bytes CF_CONNECTION_REQUEST [] in
  Writer.finish (Writer.new
    |> Writer.bytes MF_HEADER (header salted salt)
    |> Writer.varint MF_FRAME_TYPE FRAME_TYPE_CONTROL
    |> Writer.bytes MF_CONTROL_FRAME (Writer.finish control)).

Definition connection_response (salted salt : list byte) (code : ResponseCode.t) : list byte :=
  let rsp := Writer.new |> Writer.varint RSP_CODE (ResponseCode.as_u64 code) in
  let control := Writer.new
    |> Writer.varint CF_TYPE CONTROL_CONNECTION_RESPONSE
    |> Writer.bytes CF_CONNECTION_RESPONSE (Writer.finish rsp) in
  Writer.finish (Writer.new
    |> Writer.bytes MF_HEADER (header salted salt)
    |> Writer.varint MF_FRAME_TYPE FRAME_TYPE_CONTROL
    |> Writer.bytes MF_CONTROL_FRAME (Writer.finish control)).

Definition disconnection (salted salt : list byte) : list byte :=
  let control := Writer.new
    |> Writer.varint CF_TYPE CONTROL_DISCONNECTION
    |> Writer.bytes CF_DISCONNECT [] in
  Writer.finish (Writer.new
    |> Writer.bytes MF_HEADER (header salted salt)
    |> Writer.varint MF_FRAME_TYPE FRAME_TYPE_CONTROL
    |> Writer.bytes MF_CONTROL_FRAME (Writer.finish control)).

Definition data (salted salt payload : list byte) : list byte :=
  let df := Writer.new |> Writer.bytes DF_DATA payload in
  Writer.finish (Writer.new
    |> Writer.bytes MF_HEADER (header salted salt)
    |> Writer.varint MF_FRAME_TYPE FRAME_TYPE_DATA
    |> Writer.bytes MF_DATA_FRAME (Writer.finish df)).

Definition parse (bytes : list byte) : Frame :=
  let frame_type := unwrap_or (flatten_opt (ok (first_varint bytes MF_FRAME_TYPE))) 0 in
  if frame_type =? FRAME_TYPE_DATA then
    match first_bytes bytes MF_DATA_FRAME with
    | Ok (Some df) =>
        match first_bytes df DF_DATA with
        | Ok (Some payload) => Data payload
        | _ => Unknown
        end
    | _ => Unknown
    end
  else
    match first_bytes bytes MF_CONTROL_FRAME with
    | Ok (Some control) =>
        match flatten_opt (ok (first_varint control CF_TYPE)) with
        | Some t =>
            if t =? CONTROL_CONNECTION_REQUEST then ConnectionRequest
            else if t =? CONTROL_CONNECTION_RESPONSE then
              let r := flatten_opt (ok (first_bytes control CF_CONNECTION_RESPONSE)) in
              let code := (let^ r := r in flatten_opt (ok (first_varint r RSP_CODE))) in
              ConnectionResponse (ResponseCode.from (unwrap_or code 0))
            else if t =? CONTROL_DISCONNECTION then Disconnection
            else Unknown
        | None => Unknown
        end
    | _ => Unknown
    end.

(** ** Lemmas *)

(** Every frame but [Unknown] has a builder. *)
Definition build (salted salt : list byte) (f : Frame) : option (list byte) :=
  match f with
  | ConnectionRequest => Some (connection_request salted salt)
  | ConnectionResponse code => Some (connection_response salted salt code)
  | Disconnection => Some (disconnection salted salt)
  | Data payload => Some (data salted salt payload)
  | Unknown => None
  end.

Definition frame_fields (h : list byte) (ty field : Z) (body : list Field) : list Field :=
  [Bytes MF_HEADER h; Varint MF_FRAME_TYPE ty; Bytes field (encode body)].

Lemma code_from_as_u64 c : ResponseCode.from (ResponseCode.as_u64 c) = c.
Proof. by destruct c. Qed.

(** Reading any control frame, by its inner fields. *)
Lemma parse_control h body :
  Forall wf_num body -> fits (encode (frame_fields h FRAME_TYPE_CONTROL MF_CONTROL_FRAME body)) ->
  parse (encode (frame_fields h FRAME_TYPE_CONTROL MF_CONTROL_FRAME body)) =
  match last_varint CF_TYPE body with
  | Some t =>
      if t =? CONTROL_CONNECTION_REQUEST then ConnectionRequest
      else if t =? CONTROL_CONNECTION_RESPONSE then
        let code := (let^ r := last_bytes CF_CONNECTION_RESPONSE body in
                     flatten_opt (ok (first_varint r RSP_CODE))) in
        ConnectionResponse (ResponseCode.from (unwrap_or code 0))
      else if t =? CONTROL_DISCONNECTION then Disconnection
      else Unknown
  | None => Unknown
  end.
Proof.
  intros Hb Hf. assert (Hfb : fits (encode body)) by fits_in Hf.
  unfold parse. rewrite first_varint_read, !first_bytes_read by (done || wf_nums).
  change (last_varint MF_FRAME_TYPE _) with (Some FRAME_TYPE_CONTROL).
  change (last_bytes MF_CONTROL_FRAME _) with (Some (encode body)).
  cbn [ok flatten_opt unwrap_or].
  change (FRAME_TYPE_CONTROL =? FRAME_TYPE_DATA) with false. cbv iota.
  by rewrite first_varint_read, first_bytes_read by done.
Qed.

Lemma multiplex_parse_build salted salt f b :
  build salted salt f = Some b -> fits b -> parse b = f.
Proof.
  destruct f as [|code| |payload|]; cbn [build]; intros [= <-];
    unfold connection_request, connection_response, disconnection, data; to_fields;
    generalize (header salted salt) as h; intros h Hf.
  - etransitivity; [apply (parse_control h [Varint CF_TYPE _; Bytes _ _]);
      [wf_nums|exact Hf]|done].
  - etransitivity; [apply (parse_control h [Varint CF_TYPE _; Bytes _ _]);
      [wf_nums|exact Hf]|].
    assert (Hb : fits (encode [Varint CF_TYPE CONTROL_CONNECTION_RESPONSE;
      Bytes CF_CONNECTION_RESPONSE (encode [Varint RSP_CODE (ResponseCode.as_u64 code)])]))
      by fits_in Hf.
    assert (Hr : fits (encode [Varint RSP_CODE (ResponseCode.as_u64 code)])) by fits_in Hb.
    cbn -[encode first_varint]. rewrite first_varint_read; [by destruct code|wf_nums|done].
    destruct code; done.
  - etransitivity; [apply (parse_control h [Varint CF_TYPE _; Bytes _ _]);
      [wf_nums|exact Hf]|done].
  - assert (Hd : fits (encode [Bytes DF_DATA payload])) by fits_in Hf.
    unfold parse. rewrite first_varint_read, first_bytes_read by (done || wf_nums).
    change (last_varint MF_FRAME_TYPE _) with (Some FRAME_TYPE_DATA).
    change (last_bytes MF_DATA_FRAME _) with (Some (encode [Bytes DF_DATA payload])).
    cbn [ok flatten_opt unwrap_or].
    change (FRAME_TYPE_DATA =? FRAME_TYPE_DATA) with true. cbv iota.
    by rewrite first_bytes_read by (done || wf_nums).
Qed.

(** ** Properties *)

(** Every multiplex frame this code builds decodes to what was built, response codes and
    payload included, whatever salted hash and salt its header carries. *)
Theorem multiplex_roundtrip salted salt f b :
  build salted salt f = Some b -> fits b -> parse b = f.
Proof. apply multiplex_parse_build. Qed.

Lemma multiplex_roundtrip_witness :
  parse (connection_response (str "abc") (str "00ff") ResponseCode.NotListening)
    = ConnectionResponse ResponseCode.NotListening.
Proof.
  apply (multiplex_roundtrip (str "abc") (str "00ff")
           (ConnectionResponse ResponseCode.NotListening)); [reflexivity|].
  vm_compute. discriminate.
Defined.
