(* ===== verification/Apple.v ===== *)
(** * Apple Continuity advertisements ([protocol/src/apple.rs])

    The messages of one manufacturer-data payload.  The input comes from a stranger's radio, so
    the indexing of the source is kept as a partial function and shown never to fail. *)

From S2P Require Import Prelude.

Definition COMPANY_ID : Z := 0x004C.
Definition TYPE_AIRDROP : Z := 0x05.
Definition TYPE_NEARBY_INFO : Z := 0x10.
Definition FLAG_RECEPTIVE : Z := 0x40.

Record NearbyInfo : Type := mkNearbyInfo { flags : byte; action : byte }.

Definition receptive (n : NearbyInfo) : bool :=
  negb (Z.land (u8 (flags n)) FLAG_RECEPTIVE =? 0).

Record AirDropBeacon : Type := mkAirDropBeacon {
  version : byte;
  hashes : list (list byte)
}.

Module Message.
Inductive t : Type :=
| NearbyInfo (n : Apple.NearbyInfo)
| AirDrop (b : AirDropBeacon)
| Other (ty : byte).
End Message.

(** [(0..4)] copies of [&body[9 + 2 * n..11 + 2 * n]]; [None] is an index out of range. *)
Fixpoint read_hashes (body : list byte) (ns : list Z) : option (list (list byte)) :=
  match ns with
  | [] => Some []
  | n :: ns =>
      let^ h := slice body (9 + 2 * n) (11 + 2 * n) in
      let^ hs := read_hashes body ns in
      Some (h :: hs)
  end.

(** The [match t] of the loop; [None] is a panic. *)
Definition message (t : byte) (body : list byte) : option Message.t :=
  if (u8 t =? TYPE_NEARBY_INFO) && (2 <=? len body) then
    let^ flags := get body 0 in
    let^ action := get body 1 in
    Some (Message.NearbyInfo (mkNearbyInfo flags action))
  else if (u8 t =? TYPE_AIRDROP) && (17 <=? len body) then
    let^ hashes := read_hashes body [0; 1; 2; 3] in
    let^ version := get body 8 in
    Some (Message.AirDrop (mkAirDropBeacon version hashes))
  else Some (Message.Other t).

(** [while i + 2 <= data.len()]; each round advances [i] by at least two. *)
Fixpoint parse_loop (fuel : nat) (data : list byte) (i : Z) (out : list Message.t)
    : option (list Message.t) :=
  match fuel with
  | O => Some out
  | S fuel =>
      if i + 2 <=? len data then
        let^ t := get data i in
        let^ n := get data (i + 1) in
        match slice data (i + 2) (i + 2 + u8 n) with
        | None => Some out
        | Some body =>
            let^ m := message t body in
            parse_loop fuel data (i + (2 + u8 n)) (out ++ [m])
        end
      else Some out
  end.

Definition parse (data : list byte) : option (list Message.t) :=
  parse_loop (S (length data)) data 0 [].

Fixpoint find_nearby (ms : list Message.t) : option NearbyInfo :=
  match ms with
  | [] => None
  | Message.NearbyInfo n :: _ => Some n
  | _ :: ms => find_nearby ms
  end.

Definition nearby_info (data : list byte) : option NearbyInfo :=
  let^ ms := parse data in find_nearby ms.

(** ** The format

    A payload is a run of whole structures [type, length, body] and a tail that holds no
    further whole one. *)

Definition structure (s : byte * list byte) : list byte :=
  fst s :: to_u8 (len (snd s)) :: snd s.
Definition payload (ss : list (byte * list byte)) : list byte := mjoin (structure <$> ss).
Definition wf_structure (s : byte * list byte) : Prop := len (snd s) < 256.

Definition truncated (tail : list byte) : Prop :=
  match tail with
  | _ :: n :: rest => len rest < u8 n
  | _ => True
  end.

(** What one structure means. *)
Definition meaning (s : byte * list byte) : Message.t :=
  let (t, body) := s in
  if (u8 t =? TYPE_NEARBY_INFO) && (2 <=? len body) then
    Message.NearbyInfo (mkNearbyInfo (nth 0 body Byte.x00) (nth 1 body Byte.x00))
  else if (u8 t =? TYPE_AIRDROP) && (17 <=? len body) then
    Message.AirDrop (mkAirDropBeacon (nth 8 body Byte.x00)
      [take 2 (drop 9 body); take 2 (drop 11 body); take 2 (drop 13 body); take 2 (drop 15 body)])
  else Message.Other t.

(** ** Lemmas *)

Lemma payload_cons s ss : payload (s :: ss) = structure s ++ payload ss.
Proof. done. Qed.

Lemma message_total t body : message t body = Some (meaning (t, body)).
Proof.
  unfold message, meaning. destruct (u8 t =? TYPE_NEARBY_INFO); cbn [andb].
  - destruct (Z.leb_spec 2 (len body)).
    + by rewrite !get_nth by lia.
    + destruct (u8 t =? TYPE_AIRDROP); cbn [andb]; [|done].
      by rewrite (proj2 (Z.leb_gt _ _)) by lia.
  - destruct (u8 t =? TYPE_AIRDROP); cbn [andb]; [|done].
    destruct (Z.leb_spec 17 (len body)); [|done].
    cbn [read_hashes]. rewrite !slice_take by lia. cbn [opt_bind].
    by rewrite get_nth by lia.
Qed.

Lemma parse_loop_spec ss tail fuel pre out :
  Forall wf_structure ss -> truncated tail -> (length (payload ss ++ tail) < fuel)%nat ->
  parse_loop fuel (pre ++ payload ss ++ tail) (len pre) out = Some (out ++ (meaning <$> ss)).
Proof.
  intros Hss Ht. revert fuel pre out. induction Hss as [|s ss Hs _ IH]; intros fuel pre out Hf.
  - change (payload [] ++ tail) with tail. rewrite app_nil_r. destruct fuel as [|fuel]; [done|].
    cbn [parse_loop]. simpl_len. destruct (Z.leb_spec (len pre + 2) (len pre + len tail)); [|done].
    destruct tail as [|t [|n rest]];
      [simpl_len in H; lia|simpl_len in H; lia|].
    rewrite (get_app_pos _ _ (len pre)) by done. cbn [head opt_bind].
    assert (Hn : get (pre ++ t :: n :: rest) (len pre + 1) = Some n).
    { change (pre ++ t :: n :: rest) with (pre ++ [t] ++ n :: rest).
      rewrite app_assoc. etransitivity; [apply get_app_pos; by simpl_len|done]. }
    rewrite Hn. cbn [opt_bind]. cbn in Ht.
    destruct (slice _ _ _) as [body|] eqn:Hsl; [|done].
    assert (Hs' : is_Some (slice (pre ++ t :: n :: rest) (len pre + 2) (len pre + 2 + u8 n))) by eauto.
    apply slice_Some_iff in Hs'. simpl_len in Hs'. lia.
  - destruct s as [t body]. unfold wf_structure in Hs. cbn [snd] in Hs.
    assert (Hp : payload ((t, body) :: ss) ++ tail = t :: to_u8 (len body) :: body ++ payload ss ++ tail).
    { unfold payload, structure. cbn. by rewrite <- app_assoc. }
    rewrite Hp in Hf |- *. destruct fuel as [|fuel]; [lia|]. cbn [parse_loop].
    simpl_len. pose proof (len_nonneg body). pose proof (len_nonneg (payload ss)).
    pose proof (len_nonneg tail). rewrite (proj2 (Z.leb_le _ _)) by lia.
    rewrite (get_app_pos _ _ (len pre)) by done. cbn [head opt_bind].
    set (n := to_u8 (len body)).
    assert (Hn : get (pre ++ t :: n :: body ++ payload ss ++ tail) (len pre + 1) = Some n).
    { change (pre ++ t :: ?x) with (pre ++ [t] ++ x). rewrite app_assoc.
      etransitivity; [apply get_app_pos; by simpl_len|done]. }
    rewrite Hn. cbn [opt_bind]. unfold n. rewrite u8_to_u8_small by lia.
    assert (Hsl : slice (pre ++ t :: to_u8 (len body) :: body ++ payload ss ++ tail)
                    (len pre + 2) (len pre + 2 + len body) = Some body).
    { change (pre ++ t :: ?x :: ?y) with (pre ++ [t; x] ++ y). rewrite app_assoc.
      apply slice_app; simpl_len; lia. }
    rewrite Hsl, message_total. cbn [opt_bind].
    replace (len pre + (2 + len body)) with (len (pre ++ [t; to_u8 (len body)] ++ body))
      by (simpl_len; lia).
    replace (pre ++ t :: to_u8 (len body) :: body ++ payload ss ++ tail)
      with ((pre ++ [t; to_u8 (len body)] ++ body) ++ payload ss ++ tail)
      by (by rewrite <- !app_assoc).
    rewrite IH; [by rewrite <- app_assoc|].
    cbn [length] in Hf. rewrite length_app in Hf. lia.
Qed.

Lemma decompose k (data : list byte) :
  (length data <= k)%nat ->
  exists ss tail, data = payload ss ++ tail /\ Forall wf_structure ss /\ truncated tail.
Proof.
  revert data. induction k as [|k IH]; intros data Hk.
  { destruct data; [|cbn in Hk; lia]. by exists [], []. }
  destruct data as [|t [|n rest]]; [by exists [], []|by exists [], [t]|].
  destruct (decide (len rest < u8 n)) as [Hlt|Hge]; [by exists [], (t :: n :: rest)|].
  pose proof (u8_range n). cbn in Hk.
  destruct (IH (drop (Z.to_nat (u8 n)) rest)) as (ss & tail & Hd & Hss & Ht).
  { rewrite length_drop. lia. }
  assert (Hl : len (take (Z.to_nat (u8 n)) rest) = u8 n) by (rewrite len_take; lia).
  exists ((t, take (Z.to_nat (u8 n)) rest) :: ss), tail. split; [|split; [|done]].
  - rewrite payload_cons, <- app_assoc, <- Hd. unfold structure. cbn [fst snd].
    rewrite Hl, to_u8_u8. cbn [app]. by rewrite take_drop.
  - constructor; [|done]. unfold wf_structure. cbn [snd]. lia.
Qed.

(** ** Properties *)

(** Decoding a stranger's advertisement never panics and reads exactly its whole
    structures: every payload is a run of structures and a tail with no further whole one, and
    [parse] returns the meaning of each structure of that run, in order. *)
Theorem continuity_decoded data :
  exists ss tail,
    data = payload ss ++ tail /\ Forall wf_structure ss /\ truncated tail /\
    parse data = Some (meaning <$> ss) /\ nearby_info data = find_nearby (meaning <$> ss).
Proof.
  destruct (decompose (length data) data) as (ss & tail & Hd & Hss & Ht); [done|].
  exists ss, tail. assert (Hp : parse data = Some (meaning <$> ss)).
  { rewrite Hd. apply (parse_loop_spec ss tail _ [] []); auto. }
  split; [done|]. split; [done|]. split; [done|]. split; [done|].
  unfold nearby_info. by rewrite Hp.
Qed.

(** Receptivity is the one bit measured for it: a payload that leads with a Nearby Info
    structure reports that structure's flags, and the device is receptive exactly when bit six
    of them is set. *)
Theorem receptive_bit t f a body rest :
  u8 t = TYPE_NEARBY_INFO -> len body < 254 ->
  nearby_info (structure (t, f :: a :: body) ++ rest) = Some (mkNearbyInfo f a) /\
  receptive (mkNearbyInfo f a) = Z.testbit (u8 f) 6.
Proof.
  intros Ht Hl. split; [|by destruct f].
  destruct (decompose (length rest) rest) as (ss & tail & -> & Hss & Htl); [done|].
  unfold nearby_info, parse.
  replace (structure (t, f :: a :: body) ++ payload ss ++ tail)
    with ([] ++ payload ((t, f :: a :: body) :: ss) ++ tail)
    by (rewrite payload_cons; symmetry; apply app_assoc).
  rewrite (parse_loop_spec _ tail _ [] []); [|constructor; [|done]|done|cbn; lia].
  2:{ unfold wf_structure. cbn [snd]. simpl_len. lia. }
  cbn -[u8]. rewrite Ht. simpl_len. pose proof (len_nonneg body).
  by rewrite (proj2 (Z.leb_le _ _)) by lia.
Qed.

Lemma receptive_bit_witness :
  nearby_info (structure (to_u8 0x10, [to_u8 0x61; to_u8 0x1e; to_u8 1]) ++ [to_u8 5])
  = Some (mkNearbyInfo (to_u8 0x61) (to_u8 0x1e)).
Proof.
  apply (receptive_bit (to_u8 0x10) (to_u8 0x61) (to_u8 0x1e) [to_u8 1] [to_u8 5]);
    vm_compute; reflexivity.
Defined.
