(* ===== verification/Ble.v ===== *)
(** * Quick Share over BLE ([protocol/src/ble.rs])

    The FastInitiation pulse ([FastInit]) and the endpoint advertisement: building them, finding
    an advertisement's body in a frame, and reading it.  Both parsers read strangers' radio
    data; ranges the source indexes only after checking them are [sub_range]s. *)

From S2P Require Import Prelude Utf8 Crypto Service.

(** ** The pulse *)

Module FastInit.

Definition MODEL_ID : list byte := to_u8 <$> [0xFC; 0x12; 0x8E].
Definition METADATA : byte := to_u8 0x00.
Definition TX_POWER : byte := to_u8 0x42.
Definition PREFIX_LEN : Z := 14.
Definition SALT_LEN : Z := 1.
Definition SECRET_ID_HASH_LEN : Z := 8.
Definition PAYLOAD_LEN : Z := PREFIX_LEN + SALT_LEN + SECRET_ID_HASH_LEN.

Record t : Type := mk { salt : byte; secret_id_hash : list byte }.

Definition hash_of `{Digest} (endpoint_id : list byte) : list byte :=
  match openssl_sha256 endpoint_id with
  | Some d => sub_range d 0 SECRET_ID_HASH_LEN
  | None => replicate 8 (to_u8 0)
  end.

Definition build `{Digest} (endpoint_id : list byte) (salt : byte) : option (list byte) :=
  if is_empty endpoint_id then None
  else Some (MODEL_ID ++ [METADATA] ++ [TX_POWER] ++ replicate 9 (to_u8 0) ++ [salt]
               ++ hash_of endpoint_id).

Definition build_random `{Digest} `{Rand} (endpoint_id : list byte) (g : rng)
    : option (list byte) * rng :=
  let (b, g) := rand_bytes 1 g in
  ((let^ b := b in let^ salt := get b 0 in build endpoint_id salt), g).

Definition is_fast_init (data : list byte) : bool :=
  (PAYLOAD_LEN <=? len data) && bool_decide (sub_range data 0 3 = MODEL_ID).

Definition parse (data : list byte) : option t :=
  if negb (is_fast_init data) then None
  else
    let hash := sub_range data (PREFIX_LEN + SALT_LEN) PAYLOAD_LEN in
    let^ salt := get data PREFIX_LEN in
    Some (mk salt hash).

End FastInit.

(** ** The endpoint advertisement *)

Definition SERVICE_ID_HASH : list byte := to_u8 <$> [0xFC; 0x9F; 0x5E].
Definition ENDPOINT_ID_LEN : Z := 4.
Definition MAC_LEN : Z := 6.
Definition DEVICE_TOKEN_LEN : Z := 2.
Definition EXTRA_FIELD_PSM : Z := 0x01.
Definition NAME_LEN_AT : Z := 17.

Record Advertisement : Type := mkAdvertisement {
  endpoint_id : list byte;
  endpoint_info : list byte;
  device_name : option (list byte);
  verified : bool;
  bluetooth_mac : option (list byte);
  psm : option Z
}.

(** [s.chars().any(|c| c.is_control())] on UTF-8 bytes: the controls are U+0000..1F, U+7F and
    U+0080..9F, the last ones encoded [C2 80] to [C2 9F]; in valid UTF-8 none of these bytes
    means anything else. *)
Fixpoint any_control (s : list byte) : bool :=
  match s with
  | [] => false
  | b :: s' =>
      (u8 b <? 0x20) || (u8 b =? 0x7F)
      || ((u8 b =? 0xC2) && match s' with b' :: _ => in_range 0x80 0x9F b' | [] => false end)
      || any_control s'
  end.

Definition name_from_info (info : list byte) : option (list byte) :=
  let^ n := get info NAME_LEN_AT in
  let n := u8 n in
  let start := NAME_LEN_AT + 1 in
  let^ stop := checked_add start n in
  if (n =? 0) || (len info <? stop) then None
  else
    let name := from_utf8_lossy (sub_range info start stop) in
    if any_control name then None else Some name.

Definition name_from_endpoint_info (info : list byte) : option (list byte) := name_from_info info.

(** [format!("{x:02X}")]. *)
Definition upper_digit (n : Z) : byte := to_u8 (if n <? 10 then 48 + n else 55 + n).
Definition upper_hex (b : byte) : list byte := [upper_digit (u8 b / 16); upper_digit (u8 b mod 16)].

(** [.join(":")]. *)
Fixpoint join_colon (ss : list (list byte)) : list byte :=
  match ss with
  | [] => []
  | [s] => s
  | s :: ss => s ++ str ":" ++ join_colon ss
  end.

Definition format_mac (b : list byte) : option (list byte) :=
  if negb (len b =? MAC_LEN) || forallb (fun x => u8 x =? 0) b then None
  else Some (join_colon (upper_hex <$> b)).

Definition is_ascii_graphic (b : byte) : bool := in_range 0x21 0x7E b.

Definition build_advertisement (endpoint_id endpoint_info : list byte)
    (bluetooth_mac : option (list byte)) (device_token : list byte) (psm : option Z)
    : option (list byte) :=
  if negb (len endpoint_id =? ENDPOINT_ID_LEN) || negb (forallb is_ascii_graphic endpoint_id)
     || is_empty endpoint_info || (255 <? len endpoint_info)
  then None
  else
    let body := [to_u8 0x23] ++ SERVICE_ID_HASH ++ endpoint_id ++ [to_u8 (len endpoint_info)]
                ++ endpoint_info in
    let body := match bluetooth_mac with
                | Some mac => body ++ mac ++ [to_u8 0; to_u8 0]
                | None => body
                end in
    let out := [to_u8 0x48] ++ SERVICE_ID_HASH ++ to_be_bytes 4 (as_u32 (len body)) ++ body
               ++ device_token in
    Some (match psm with
          | Some p => if negb (p =? 0) then out ++ [to_u8 EXTRA_FIELD_PSM] ++ to_be_bytes 2 p
                      else out
          | None => out
          end).

Definition body_at (data : list byte) (at_ : Z) (regular : bool) : option Advertisement :=
  let^ o := checked_add at_ 1 in
  let^ o := (if regular then checked_add o (len SERVICE_ID_HASH) else Some o) in
  let^ id_end := checked_add o ENDPOINT_ID_LEN in
  let^ id := slice data o id_end in
  if negb (forallb is_ascii_graphic id) then None
  else
    let^ info_len := get data id_end in
    let info_len := u8 info_len in
    let info_start := id_end + 1 in
    let^ info_end := checked_add info_start info_len in
    if (info_len =? 0) || (len data <? info_end) then None
    else
      let info := sub_range data info_start info_end in
      let bluetooth_mac :=
        if regular then opt_bind (slice data info_end (info_end + MAC_LEN)) format_mac
        else None in
      Some (mkAdvertisement (from_utf8_lossy id) info (name_from_info info) regular
              bluetooth_mac None).

(** [advert.psm = Some(psm)]. *)
Definition set_psm (a : Advertisement) (p : Z) : Advertisement :=
  mkAdvertisement (endpoint_id a) (endpoint_info a) (device_name a) (verified a)
    (bluetooth_mac a) (Some p).

(** The length of the body and where it starts. *)
Definition frame_body (data : list byte) (fast : bool) : option (Z * Z) :=
  if fast then
    let^ n := get data 1 in Some (u8 n, 2)
  else
    let^ h := slice data 1 (1 + len SERVICE_ID_HASH) in
    if negb (bool_decide (h = SERVICE_ID_HASH)) then None
    else
      let o := 1 + len SERVICE_ID_HASH in
      let^ n := slice data o (o + 4) in
      Some (from_be_bytes n, o + 4).

Definition framed (data : list byte) : option Advertisement :=
  let^ header := head data in
  let header := u8 header in
  let version := Z.shiftr (Z.land header 0xE0) 5 in
  let socket_version := Z.shiftr (Z.land header 0x1C) 2 in
  let fast := negb (Z.land header 0x02 =? 0) in
  if negb ((1 <=? version) && (version <=? 2))
     || negb ((1 <=? socket_version) && (socket_version <=? 2)) then None
  else
    let^ (body_len, body_start) := frame_body data fast in
    let^ body_end := checked_add body_start body_len in
    if len data <? body_end then None
    else
      let^ advert := body_at data body_start (negb fast) in
      let^ p := checked_add body_end DEVICE_TOKEN_LEN in
      match get data p with
      | None => Some advert
      | Some mask =>
          let p := p + 1 in
          if negb (Z.land (u8 mask) EXTRA_FIELD_PSM =? 0) then
            let^ raw := slice data p (p + 2) in
            let psm := from_be_bytes raw in
            Some (if negb (psm =? 0) then set_psm advert psm else advert)
          else Some advert
      end.

(** [for i in i..i + n]. *)
Fixpoint scan_for_body (n : nat) (data : list byte) (i : Z) : option Advertisement :=
  match n with
  | O => None
  | S n =>
      if negb (bool_decide (sub_range data i (i + len SERVICE_ID_HASH) = SERVICE_ID_HASH))
      then scan_for_body n data (i + 1)
      else
        match body_at data (i - 1) true with
        | Some a => Some a
        | None => scan_for_body n data (i + 1)
        end
  end.

Definition saturating_sub (a b : Z) : Z := Z.max 0 (a - b).

Definition parse_advertisement (data : list byte) : option Advertisement :=
  match framed data with
  | Some a => Some a
  | None =>
      match scan_for_body (Z.to_nat (saturating_sub (len data) (len SERVICE_ID_HASH) - 1)) data 1 with
      | Some a => Some a
      | None => body_at data 2 false
      end
  end.

(** ** Lemmas *)

(** Printable ASCII is valid UTF-8. *)
Lemma ascii_lossy l : forallb is_ascii_graphic l = true -> from_utf8_lossy l = l.
Proof.
  intros Hl. apply lossy_valid. induction l as [|b l IH]; [done|].
  cbn [forallb] in Hl. apply andb_true_iff in Hl as [Hb Hl]. rewrite valid_cons.
  unfold is_ascii_graphic, in_range in Hb. unfold scan.
  rewrite (proj2 (Z.ltb_lt _ _)) by lia. cbn. auto.
Qed.

Lemma len_service_id_hash : len SERVICE_ID_HASH = 3.
Proof. done. Qed.

(** Reading a regular body in place: its parts, and an address if six bytes follow. *)
Lemma body_at_regular pre v id info rest :
  len id = ENDPOINT_ID_LEN -> forallb is_ascii_graphic id = true ->
  0 < len info < 256 -> len pre + len rest <= 2 ^ 40 ->
  body_at (pre ++ [v] ++ SERVICE_ID_HASH ++ id ++ [to_u8 (len info)] ++ info ++ rest)
    (len pre) true
  = Some (mkAdvertisement id info (name_from_info info) true
            (opt_bind (slice rest 0 MAC_LEN) format_mac) None).
Proof.
  intros Hid Hg Hi Hsmall. pose proof (len_nonneg pre). pose proof (len_nonneg rest).
  pose proof len_service_id_hash as Hh. unfold ENDPOINT_ID_LEN in *.
  set (data := pre ++ _).
  assert (Hlen : len data = len pre + 9 + len info + len rest) by (unfold data; simpl_len; lia).
  assert (H1 : slice data (len pre + 4) (len pre + 8) = Some id).
  { unfold data. rewrite slice_skip by lia. rewrite app_assoc. apply slice_app; simpl_len; lia. }
  assert (H2 : get data (len pre + 8) = Some (to_u8 (len info))).
  { unfold data. rewrite !(app_assoc _ [v]), !(app_assoc _ SERVICE_ID_HASH), (app_assoc _ id).
    rewrite get_app_pos; [done|]. simpl_len. lia. }
  assert (H3 : sub_range data (len pre + 9) (len pre + 9 + len info) = info).
  { unfold data. rewrite !(app_assoc _ [v]), !(app_assoc _ SERVICE_ID_HASH), (app_assoc _ id),
      (app_assoc _ [to_u8 _]). apply sub_range_mid; simpl_len; lia. }
  assert (H4 : slice data (len pre + 9 + len info) (len pre + 9 + len info + MAC_LEN)
               = slice rest 0 MAC_LEN).
  { unfold data. rewrite !(app_assoc _ [v]), !(app_assoc _ SERVICE_ID_HASH), (app_assoc _ id),
      (app_assoc _ [to_u8 _]), (app_assoc _ info).
    rewrite <- (slice_skip ((((((pre ++ [v]) ++ SERVICE_ID_HASH) ++ id) ++ [to_u8 (len info)])
      ++ info)) rest 0 MAC_LEN) by lia.
    f_equal; simpl_len; lia. }
  clearbody data. unfold body_at. rewrite Hh.
  rewrite (checked_add_small (len pre)) by (unfold_ints; lia). cbn [opt_bind].
  rewrite (checked_add_small (len pre + 1)) by (unfold_ints; lia). cbn [opt_bind].
  replace (len pre + 1 + 3) with (len pre + 4) by lia. unfold ENDPOINT_ID_LEN.
  rewrite (checked_add_small (len pre + 4)) by (unfold_ints; lia). cbn [opt_bind].
  replace (len pre + 4 + 4) with (len pre + 8) by lia.
  rewrite H1. cbn [opt_bind]. rewrite Hg. cbn [negb]. rewrite H2. cbn [opt_bind].
  rewrite u8_to_u8_small by lia. replace (len pre + 8 + 1) with (len pre + 9) by lia.
  rewrite checked_add_small by (unfold_ints; lia). cbn [opt_bind].
  rewrite (proj2 (Z.eqb_neq _ _)), (proj2 (Z.ltb_ge _ _)) by lia. cbn [orb].
  by rewrite H3, H4, ascii_lossy.
Qed.

(** What the optional fields after the device token say. *)
Definition trailing (psm : option Z) : list byte :=
  match psm with
  | Some p => if negb (p =? 0) then [to_u8 EXTRA_FIELD_PSM] ++ to_be_bytes 2 p else []
  | None => []
  end.

(** A port of zero means no listener. *)
Definition published (psm : option Z) : option Z :=
  match psm with Some p => if p =? 0 then None else Some p | None => None end.

Definition mac_field (mac : option (list byte)) : list byte :=
  match mac with Some m => m ++ [to_u8 0; to_u8 0] | None => [] end.

Definition advert_body (id info : list byte) (mac : option (list byte)) : list byte :=
  [to_u8 0x23] ++ SERVICE_ID_HASH ++ id ++ [to_u8 (len info)] ++ info ++ mac_field mac.

Lemma build_advertisement_Some id info mac token psm out :
  build_advertisement id info mac token psm = Some out ->
  len id = ENDPOINT_ID_LEN /\ forallb is_ascii_graphic id = true /\ 0 < len info < 256 /\
  out = [to_u8 0x48] ++ SERVICE_ID_HASH
          ++ to_be_bytes 4 (as_u32 (len (advert_body id info mac)))
          ++ advert_body id info mac ++ token ++ trailing psm.
Proof.
  unfold build_advertisement.
  destruct (Z.eqb_spec (len id) ENDPOINT_ID_LEN); [|done].
  destruct (forallb is_ascii_graphic id); [|done].
  destruct info as [|b info]; [done|]. cbn [negb orb is_empty].
  destruct (Z.ltb_spec 255 (len (b :: info))); [done|].
  assert (Hb : match mac with
       | Some mac => ([to_u8 35] ++ SERVICE_ID_HASH ++ id ++ [to_u8 (len (b :: info))] ++ b :: info)
                       ++ mac ++ [to_u8 0; to_u8 0]
       | None => [to_u8 35] ++ SERVICE_ID_HASH ++ id ++ [to_u8 (len (b :: info))] ++ b :: info
       end = advert_body id (b :: info) mac).
  { unfold advert_body, mac_field. destruct mac; [by rewrite <- !app_assoc|by rewrite app_nil_r]. }
  rewrite Hb. intros <-%(inj Some). pose proof (len_nonneg info).
  split; [done|]. split; [done|]. split; [rewrite len_cons in *; lia|].
  generalize (advert_body id (b :: info) mac). intros body.
  unfold trailing. destruct psm as [p|]; [destruct (negb (p =? 0))|];
    rewrite ?app_nil_r, <- ?app_assoc; done.
Qed.

Lemma len_trailing psm : len (trailing psm) <= 3.
Proof. destruct psm as [p|]; cbn; [destruct (p =? 0); cbn|]; simpl_len; lia. Qed.

(** What [body_at] takes for an address: the mac when there is one, and nothing when only the
    token and the optional fields follow. *)
Lemma mac_slice mac token psm :
  len token = DEVICE_TOKEN_LEN -> (forall m, mac = Some m -> len m = MAC_LEN) ->
  slice (mac_field mac ++ token ++ trailing psm) 0 MAC_LEN = mac.
Proof.
  intros Ht Hm. destruct mac as [m|]; cbn [mac_field].
  - rewrite <- app_assoc. apply (slice_app [] m); [done|]. by rewrite (Hm m).
  - cbn [app]. destruct (slice _ _ _) as [m|] eqn:Hs; [exfalso|done].
    assert (His : is_Some (slice (token ++ trailing psm) 0 MAC_LEN)) by eauto.
    apply slice_Some_iff in His. pose proof (len_trailing psm). simpl_len in His.
    unfold MAC_LEN, DEVICE_TOKEN_LEN in *. lia.
Qed.

(** The optional fields, from the byte after the device token. *)
Lemma trailing_read pre psm a :
  (forall p, psm = Some p -> 0 <= p < 65536) ->
  Ble.psm a = None ->
  match get (pre ++ trailing psm) (len pre) with
  | None => Some a
  | Some mask =>
      if negb (Z.land (u8 mask) EXTRA_FIELD_PSM =? 0) then
        let^ raw := slice (pre ++ trailing psm) (len pre + 1) (len pre + 1 + 2) in
        let psm := from_be_bytes raw in
        Some (if negb (psm =? 0) then set_psm a psm else a)
      else Some a
  end
  = Some (mkAdvertisement (endpoint_id a) (endpoint_info a) (device_name a) (verified a)
            (bluetooth_mac a) (published psm)).
Proof.
  intros Hp Ha. rewrite get_app_pos by done.
  destruct a as [i f d v m q]. cbn in Ha. subst q.
  destruct psm as [p|]; [|done]. unfold trailing, published.
  destruct (Z.eqb_spec p 0) as [->|Hne]; cbn [negb head]; [done|].
  change (negb (Z.land (u8 (to_u8 EXTRA_FIELD_PSM)) EXTRA_FIELD_PSM =? 0)) with true. cbv iota.
  cbn [app head]. cbv iota.
  replace (len pre + 1 + 2) with (len pre + 3) by lia. rewrite slice_skip by lia.
  replace (slice (to_u8 EXTRA_FIELD_PSM :: to_be_bytes 2 p) 1 3) with (Some (to_be_bytes 2 p))
    by done.
  cbn [opt_bind]. rewrite from_to_be_bytes_small by (apply (Hp p); done).
  apply Z.eqb_neq in Hne. by rewrite Hne.
Qed.

Lemma framed_built id info mac token psm out :
  build_advertisement id info mac token psm = Some out ->
  len token = DEVICE_TOKEN_LEN -> (forall m, mac = Some m -> len m = MAC_LEN) ->
  (forall p, psm = Some p -> 0 <= p < 65536) ->
  framed out = Some (mkAdvertisement id info (name_from_info info) true
                       (opt_bind mac format_mac) (published psm)).
Proof.
  intros (Hid & Hg & Hi & Ho)%build_advertisement_Some Ht Hm Hp.
  pose proof len_service_id_hash as Hh. pose proof (len_trailing psm) as Htr.
  unfold DEVICE_TOKEN_LEN, ENDPOINT_ID_LEN, MAC_LEN in *.
  set (body := advert_body id info mac) in *.
  assert (Hbl : len body = 9 + len info + len (mac_field mac)).
  { unfold body, advert_body. simpl_len. lia. }
  assert (Hml : len (mac_field mac) <= 8).
  { destruct mac as [m|]; cbn; simpl_len; [rewrite (Hm m) by done|]; lia. }
  pose proof (len_nonneg (mac_field mac)). pose proof (len_nonneg (trailing psm)).
  set (pre := [to_u8 0x48] ++ SERVICE_ID_HASH ++ to_be_bytes 4 (as_u32 (len body))).
  assert (Hpre : len pre = 8) by done.
  assert (Hb : body_at out 8 true =
    Some (mkAdvertisement id info (name_from_info info) true (opt_bind mac format_mac) None)).
  { rewrite <- Hpre, <- (mac_slice mac token psm) at 1 by done.
    rewrite <- (body_at_regular pre (to_u8 0x23) id info (mac_field mac ++ token ++ trailing psm))
      by (done || simpl_len; lia).
    rewrite Ho. f_equal. unfold pre, body, advert_body. by rewrite <- !app_assoc. }
  assert (Hlen : len out = 8 + len body + 2 + len (trailing psm)).
  { rewrite Ho. simpl_len. rewrite len_to_be_bytes. lia. }
  unfold framed. rewrite Ho at 1. cbn [head app opt_bind].
  change (Z.land (u8 (to_u8 72)) 2 =? 0) with true.
  change (Z.shiftr (Z.land (u8 (to_u8 72)) 224) 5) with 2.
  change (Z.shiftr (Z.land (u8 (to_u8 72)) 28) 2) with 2.
  change (negb ((1 <=? 2) && (2 <=? 2))) with false. cbn [orb negb].
  assert (Hf : frame_body out false = Some (len body, 8)).
  { unfold frame_body. rewrite Hh, Ho.
    rewrite (slice_app [to_u8 0x48] SERVICE_ID_HASH) by done. cbn [opt_bind].
    rewrite bool_decide_true by done. cbn [negb].
    rewrite (app_assoc [to_u8 0x48]), (slice_app ([to_u8 0x48] ++ SERVICE_ID_HASH)) by done.
    cbn [opt_bind]. rewrite as_u32_small by (unfold_ints; lia).
    by rewrite from_to_be_bytes_small by (change (256 ^ Z.of_nat 4) with (2 ^ 32); lia). }
  rewrite Hf. cbn [opt_bind]. rewrite checked_add_small by (unfold_ints; lia). cbn [opt_bind].
  rewrite (proj2 (Z.ltb_ge _ _)) by lia. rewrite Hb. cbn [opt_bind]. unfold DEVICE_TOKEN_LEN.
  rewrite checked_add_small by (unfold_ints; lia). cbn [opt_bind].
  replace out with ((pre ++ body ++ token) ++ trailing psm)
    by (rewrite Ho; unfold pre; by rewrite <- !app_assoc).
  replace (8 + len body + 2) with (len (pre ++ body ++ token)) by (simpl_len; lia).
  etransitivity; [apply (trailing_read _ psm); done|done].
Qed.

(** What holds of every advertisement that was read. *)
Definition wf_advertisement (a : Advertisement) : Prop :=
  len (endpoint_id a) = ENDPOINT_ID_LEN /\ forallb is_ascii_graphic (endpoint_id a) = true /\
  0 < len (endpoint_info a) < 256 /\
  (forall n, device_name a = Some n -> valid n = true /\ any_control n = false) /\
  (forall m, bluetooth_mac a = Some m -> verified a = true /\ len m = 17) /\
  (forall p, psm a = Some p -> 0 < p < 65536).

Lemma name_wf info n : name_from_info info = Some n -> valid n = true /\ any_control n = false.
Proof.
  unfold name_from_info. intros (x & _ & H)%opt_bind_Some.
  apply opt_bind_Some in H as (stop & _ & H). destruct (_ || _); [discriminate H|].
  destruct (any_control _) eqn:Hc; [discriminate H|]. apply (inj Some) in H as <-.
  split; [apply lossy_is_valid|done].
Qed.

Lemma format_mac_len b m : format_mac b = Some m -> len m = 17.
Proof.
  unfold format_mac. destruct (Z.eqb_spec (len b) MAC_LEN) as [Hl|]; [|done]. cbn [negb orb].
  destruct (forallb _ _); [done|]. intros <-%(inj Some).
  unfold MAC_LEN in Hl. rewrite len_nat in Hl.
  do 6 (destruct b as [|? b]; [discriminate Hl|]). by destruct b; [|cbn in Hl; lia].
Qed.

Lemma body_at_wf data i regular a :
  0 <= i -> body_at data i regular = Some a -> wf_advertisement a /\ psm a = None.
Proof.
  intros Hi. unfold body_at. intros H.
  apply opt_bind_Some in H as (o & Ho & H). apply opt_bind_Some in H as (o' & Ho' & H).
  apply opt_bind_Some in H as (e & He & H). apply opt_bind_Some in H as (id & Hid & H).
  destruct (forallb is_ascii_graphic id) eqn:Hg; [|discriminate H]. cbn [negb] in H.
  apply opt_bind_Some in H as (n & Hn & H). apply opt_bind_Some in H as (e' & He' & H).
  destruct (Z.eqb_spec (u8 n) 0) as [|Hn0]; [discriminate H|].
  destruct (Z.ltb_spec (len data) e') as [|Hle]; [discriminate H|]. cbn [orb] in H.
  apply (inj Some) in H. subst a. unfold wf_advertisement.
  cbn [endpoint_id endpoint_info device_name verified bluetooth_mac psm].
  unfold checked_add in He, He'. destruct (_ <=? _); [injection He as <-|discriminate He].
  destruct (_ <=? _); [injection He' as <-|discriminate He'].
  pose proof (u8_range n). apply get_Some_lt in Hn. apply slice_len in Hid.
  rewrite ascii_lossy by done. split; [|done]. split; [lia|]. split; [done|]. split.
  { unfold sub_range. rewrite len_take, len_drop. lia. }
  split; [intros; by eapply name_wf|]. split; [|done].
  intros m. destruct regular; [|done].
  intros (b & _ & Hm)%opt_bind_Some. split; [done|]. by eapply format_mac_len.
Qed.

Lemma framed_wf data a : framed data = Some a -> wf_advertisement a.
Proof.
  unfold framed. intros H. apply opt_bind_Some in H as (h & _ & H).
  destruct (_ || _); [discriminate H|]. apply opt_bind_Some in H as ([n s] & Hs & H).
  apply opt_bind_Some in H as (e & _ & H). destruct (_ <? _); [discriminate H|].
  apply opt_bind_Some in H as (ad & Had & H). apply opt_bind_Some in H as (p & _ & H).
  assert (Hs0 : 0 <= s).
  { unfold frame_body in Hs. rewrite len_service_id_hash in Hs. destruct (negb _) in Hs;
      inv_ok; simplify_eq; lia. }
  apply body_at_wf in Had as [Hwf Hpsm]; [|done].
  destruct (get data p) as [mask|]; [|by apply (inj Some) in H as <-].
  destruct (negb _) in H; [|by apply (inj Some) in H as <-].
  apply opt_bind_Some in H as (raw & Hraw & H). apply slice_len in Hraw.
  destruct (Z.eqb_spec (from_be_bytes raw) 0) as [Hz|Hz]; apply (inj Some) in H as <-; [done|].
  destruct Hwf as (?&?&?&?&?&_). unfold wf_advertisement, set_psm. cbn.
  do 5 (split; [done|]). intros q [= <-]. pose proof (from_be_bytes_range raw) as Hr.
  rewrite Hraw in Hr. replace (p + 1 + 2 - (p + 1)) with 2 in Hr by lia. lia.
Qed.

Lemma scan_wf n data i a : 1 <= i -> scan_for_body n data i = Some a -> wf_advertisement a.
Proof.
  revert i. induction n as [|n IH]; intros i Hi; cbn [scan_for_body]; [done|].
  destruct (negb _); [apply IH; lia|].
  destruct (body_at data (i - 1) true) as [b|] eqn:Hb; [|apply IH; lia].
  intros [= <-]. apply body_at_wf in Hb as [? _]; [done|lia].
Qed.

(** ** Properties *)

(** An advertisement this device publishes is read back by a peer as what was published:
    the endpoint id and info, the name in the clear if the info carries one, the Bluetooth
    address unless it is all zero, the L2CAP port unless it is zero, and marked verified. *)
Theorem advertisement_roundtrip id info mac token psm out :
  build_advertisement id info mac token psm = Some out ->
  len token = 2 -> (forall m, mac = Some m -> len m = 6) ->
  (forall p, psm = Some p -> 0 <= p < 65536) ->
  parse_advertisement out =
    Some (mkAdvertisement id info (name_from_info info) true (opt_bind mac format_mac)
            (published psm)).
Proof.
  intros Hb Ht Hm Hp. unfold parse_advertisement. by rewrite (framed_built _ _ _ _ _ _ Hb).
Qed.

Lemma advertisement_roundtrip_witness :
  match build_advertisement (str "WXYZ") (replicate 17 (to_u8 9) ++ to_u8 2 :: str "Hi")
          (Some (to_u8 <$> [0xAA; 1; 2; 3; 4; 5])) [to_u8 7; to_u8 8] (Some 0x0101) with
  | Some out => parse_advertisement out =
      Some (mkAdvertisement (str "WXYZ") (replicate 17 (to_u8 9) ++ to_u8 2 :: str "Hi")
              (Some (str "Hi")) true (Some (str "AA:01:02:03:04:05")) (Some 0x0101))
  | None => False
  end.
Proof.
  destruct (build_advertisement _ _ _ _ _) as [out|] eqn:E.
  - rewrite (advertisement_roundtrip _ _ _ _ _ _ E);
      [vm_compute; reflexivity|reflexivity|by intros m [= <-]|intros p [= <-]; lia].
  - vm_compute in E. discriminate E.
Defined.

(** Whatever a stranger broadcasts, an advertisement that is reported has a printable
    four-character endpoint id, endpoint info of 1 to 255 bytes, a name that is valid UTF-8
    without control characters, an address only if the advertisement is verified, and never
    port zero. *)
Theorem advertisement_wf data a : parse_advertisement data = Some a -> wf_advertisement a.
Proof.
  unfold parse_advertisement. destruct (framed data) as [b|] eqn:Hf.
  { intros [= <-]. by eapply framed_wf. }
  destruct (scan_for_body _ data 1) as [b|] eqn:Hs.
  { intros [= <-]. eapply scan_wf; [|exact Hs]. lia. }
  intros [H _]%body_at_wf; [done|lia].
Qed.

Lemma advertisement_wf_witness :
  let d := [to_u8 0; to_u8 0; to_u8 0x23] ++ str "ABCD" ++ [to_u8 1; to_u8 9] in
  wf_advertisement (mkAdvertisement (str "ABCD") [to_u8 9] None false None None).
Proof.
  intros d. apply (advertisement_wf d). vm_compute. reflexivity.
Defined.

(** The pulse is 23 bytes, leaves the sender-certificate bit clear, and is read back by a
    peer as the salt and the endpoint's hash; an empty endpoint id gets none. *)
Theorem pulse_roundtrip `{Digest} `{!DigestLaws} id salt :
  match FastInit.build id salt with
  | Some p => len p = 23 /\ get p 3 = Some (to_u8 0) /\
      FastInit.parse p = Some (FastInit.mk salt (FastInit.hash_of id))
  | None => id = []
  end.
Proof.
  unfold FastInit.build. destruct id as [|b id]; [done|]. cbn [is_empty].
  assert (Hl : len (FastInit.hash_of (b :: id)) = 8).
  { unfold FastInit.hash_of. destruct (openssl_sha256 _) as [d|] eqn:Hd; [|done].
    apply openssl_sha256_len in Hd. unfold sub_range. rewrite len_take, len_drop, Hd. done. }
  revert Hl. generalize (FastInit.hash_of (b :: id)). intros h Hl.
  rewrite len_nat in Hl. do 8 (destruct h as [|? h]; [discriminate Hl|]).
  destruct h; [|cbn in Hl; lia]. split; [done|]. split; [done|]. done.
Qed.

Lemma pulse_roundtrip_witness :
  exists p, @FastInit.build Toy.digest (str "ABCD") (to_u8 0x5A) = Some p /\ len p = 23.
Proof.
  eexists. split; [reflexivity|].
  apply (@pulse_roundtrip Toy.digest Toy.digest_laws (str "ABCD") (to_u8 0x5A)).
Defined.

(** An address is looked for after the info whether or not the declared body still goes on: a
    frame whose six-byte tail follows a body with no address reads as having one. *)
Lemma address_past_the_body :
  let body := [to_u8 0x23] ++ SERVICE_ID_HASH ++ str "ABCD" ++ [to_u8 1; to_u8 9] in
  let data := [to_u8 0x48] ++ SERVICE_ID_HASH ++ to_be_bytes 4 (len body) ++ body
              ++ (to_u8 <$> [0x06; 0x4E; 0x01; 0x00; 0x80; 0x00]) in
  map_opt bluetooth_mac (parse_advertisement data) = Some (Some (str "06:4E:01:00:80:00")).
Proof. vm_compute. reflexivity. Qed.
