(* ===== verification/Dns.v ===== *)
(** * The mDNS wire format ([sharingd/src/dns.rs])

    Reading packets from any device on the link, and building our own.  Reading a name follows
    compression pointers, so its loop takes fuel, and a theorem shows that the caps on jumps
    and on the name's length end it on every packet. *)

From S2P Require Import Prelude Utf8 Utf16 Text.

Definition TYPE_A : Z := 1.
Definition TYPE_PTR : Z := 12.
Definition TYPE_TXT : Z := 16.
Definition TYPE_NSEC : Z := 47.
Definition TYPE_AAAA : Z := 28.
Definition TYPE_SRV : Z := 33.

Definition MAX_JUMPS : Z := 16.
Definition MAX_NAME : Z := 255.

(** ** Reading *)

Module Reader.

Record t : Type := mk { buf : list byte; pos : Z }.

Definition new (buf : list byte) : t := mk buf 0.

Definition u8 (r : t) : option (Z * t) :=
  let^ v := get (buf r) (pos r) in
  Some (Prelude.u8 v, mk (buf r) (pos r + 1)).

Definition u16 (r : t) : option (Z * t) :=
  let^ (hi, r) := u8 r in
  let^ (lo, r) := u8 r in
  Some (Z.lor (Z.shiftl hi 8) lo, r).

Definition u32 (r : t) : option (Z * t) :=
  let^ (a, r) := u16 r in
  let^ (b, r) := u16 r in
  Some (Z.lor (Z.shiftl a 16) b, r).

Definition bytes (n : Z) (r : t) : option (list byte * t) :=
  let^ stop := checked_add (pos r) n in
  let^ s := slice (buf r) (pos r) stop in
  Some (s, mk (buf r) stop).

(** The [loop] of [name].  [resume] is where [self.pos] has been left by the first pointer, if
    there was one.  The outer [None] is fuel running out; the inner one is a refusal. *)
Fixpoint name_loop (fuel : nat) (buf : list byte) (pos jumps : Z) (resume : option Z)
    (out : list byte) : option (option (list byte * Z)) :=
  match fuel with
  | O => None
  | S fuel =>
      match get buf pos with
      | None => Some None
      | Some b =>
          let n := Prelude.u8 b in
          if Z.land n 0xC0 =? 0xC0 then
            match get buf (pos + 1) with
            | None => Some None
            | Some lo =>
                let target := Z.lor (Z.shiftl (Z.land n 0x3F) 8) (Prelude.u8 lo) in
                let resume := match resume with None => Some (pos + 2) | Some p => Some p end in
                let jumps := jumps + 1 in
                if (MAX_JUMPS <? jumps) || (len buf <=? target) then Some None
                else name_loop fuel buf target jumps resume out
            end
          else if n =? 0 then
            Some (Some (out, match resume with None => pos + 1 | Some p => p end))
          else
            let pos := pos + 1 in
            match slice buf pos (pos + n) with
            | None => Some None
            | Some label =>
                if MAX_NAME <? len out + len label + 1 then Some None
                else
                  let out := if negb (is_empty out) then out ++ str "." else out in
                  match from_utf8 label with
                  | None => Some None
                  | Some s => name_loop fuel buf (pos + n) jumps resume (out ++ s)
                  end
            end
      end
  end.

(** Sixteen jumps and 255 bytes of labels, of at least one byte each, and the last round. *)
Definition name_fuel : nat := 272.

Definition name (r : t) : option (list byte * t) :=
  let^ (out, p) := flatten_opt (name_loop name_fuel (buf r) (pos r) 0 None []) in
  Some (out, mk (buf r) p).

End Reader.

Record Question : Type := mkQuestion { q_name : list byte; qtype : Z }.

Record Record_ : Type := mkRecord {
  r_name : list byte;
  rtype : Z;
  ttl : Z;
  rdata : list byte;
  rdata_at : Z
}.

Record Message : Type := mkMessage { questions : list Question; records : list Record_ }.

(** [for _ in 0..qd]. *)
Fixpoint read_questions (n : nat) (r : Reader.t) : option (list Question * Reader.t) :=
  match n with
  | O => Some ([], r)
  | S n =>
      let^ (name, r) := Reader.name r in
      let^ (qtype, r) := Reader.u16 r in
      let^ (_, r) := Reader.u16 r in
      let^ (qs, r) := read_questions n r in
      Some (mkQuestion name qtype :: qs, r)
  end.

(** [for _ in 0..total]. *)
Fixpoint read_records (n : nat) (r : Reader.t) : option (list Record_ * Reader.t) :=
  match n with
  | O => Some ([], r)
  | S n =>
      let^ (name, r) := Reader.name r in
      let^ (rtype, r) := Reader.u16 r in
      let^ (_, r) := Reader.u16 r in
      let^ (ttl, r) := Reader.u32 r in
      let^ (rdlen, r) := Reader.u16 r in
      let at_ := Reader.pos r in
      let^ (rdata, r) := Reader.bytes rdlen r in
      let^ (rs, r) := read_records n r in
      Some (mkRecord name rtype ttl rdata at_ :: rs, r)
  end.

Definition parse (buf : list byte) : option Message :=
  let r := Reader.new buf in
  let^ (_, r) := Reader.u16 r in
  let^ (_, r) := Reader.u16 r in
  let^ (qd, r) := Reader.u16 r in
  let^ (an, r) := Reader.u16 r in
  let^ (ns, r) := Reader.u16 r in
  let^ (ar, r) := Reader.u16 r in
  if 64 <? qd then None
  else
    let^ (questions, r) := read_questions (Z.to_nat qd) r in
    let total := an + ns + ar in
    if 128 <? total then None
    else
      let^ (out, _) := read_records (Z.to_nat total) r in
      Some (mkMessage questions out).

(** ** Building *)

(** [s.split('.')]. *)
Fixpoint split_dots (s : list byte) : list (list byte) :=
  match s with
  | [] => [[]]
  | b :: s =>
      if Prelude.u8 b =? 46 then [] :: split_dots s
      else match split_dots s with
           | l :: ls => (b :: l) :: ls
           | [] => [[b]]
           end
  end.

Definition put_label (l : list byte) : list byte := to_u8 (len l) :: l.

Definition encode_name (n : list byte) : list byte :=
  mjoin ((fun l => if is_empty l then [] else put_label l) <$> split_dots n) ++ [to_u8 0].

Definition record (name : list byte) (rtype ttl : Z) (rdata : list byte) (flush : bool)
    : list byte :=
  encode_name name ++ to_be_bytes 2 rtype ++ to_be_bytes 2 (if flush then 0x8001 else 0x0001)
  ++ to_be_bytes 4 ttl ++ to_be_bytes 2 (len rdata mod 2 ^ 16) ++ rdata.

Definition response (answers : list (list byte)) : list byte :=
  to_be_bytes 2 0 ++ to_be_bytes 2 0x8400 ++ to_be_bytes 2 0
  ++ to_be_bytes 2 (len answers mod 2 ^ 16) ++ to_be_bytes 2 0 ++ to_be_bytes 2 0
  ++ mjoin answers.

(** [bitmap[(t / 8) as usize] |= 0x80 >> (t % 8)]. *)
Definition set_bit (bitmap : list byte) (t : Z) : list byte :=
  alter (fun b => to_u8 (Z.lor (Prelude.u8 b) (Z.shiftr 0x80 (t mod 8)))) (Z.to_nat (t / 8)) bitmap.

Definition nsec_rdata (next_name : list byte) (types : list Z) : list byte :=
  let max := foldr Z.max 0 types in
  let n := max / 8 + 1 in
  let bitmap := fold_left set_bit types (replicate (Z.to_nat n) (to_u8 0)) in
  encode_name next_name ++ [to_u8 0; to_u8 n] ++ bitmap.

Definition txt_rdata (entries : list (list byte)) : list byte :=
  match entries with
  | [] => [to_u8 0]
  | _ => mjoin ((fun e => let n := Z.min (len e) 255 in
                          to_u8 n :: sub_range e 0 n) <$> entries)
  end.

Definition query_with (service : list byte) (unicast : bool) : list byte :=
  (to_u8 <$> [0; 0; 0; 0; 0; 1; 0; 0; 0; 0; 0; 0])
  ++ mjoin (put_label <$> split_dots service) ++ [to_u8 0]
  ++ to_be_bytes 2 TYPE_PTR ++ to_be_bytes 2 (if unicast then Z.lor 0x8000 1 else 1).

Definition query (service : list byte) : list byte := query_with service false.

(** ** Lemmas *)

(** The loop ends: every round uses up a jump or adds to the name. *)
Lemma name_loop_total fuel buf pos jumps resume out :
  0 <= pos -> jumps <= MAX_JUMPS -> len out <= MAX_NAME -> valid out = true ->
  (forall q, resume = Some q -> 0 < q <= len buf) ->
  (MAX_JUMPS - jumps) + (MAX_NAME - len out) < Z.of_nat fuel ->
  exists o, Reader.name_loop fuel buf pos jumps resume out = Some o /\
    forall s p, o = Some (s, p) -> len s <= MAX_NAME /\ valid s = true /\ 0 < p <= len buf.
Proof.
  revert pos jumps resume out. induction fuel as [|fuel IH];
    intros pos jumps resume out Hp Hj Ho Hv Hr Hf; [lia|].
  cbn [Reader.name_loop]. destruct (get buf pos) as [b|] eqn:Hg; [|by eexists].
  apply get_Some_lt in Hg. pose proof (u8_range b) as Hb.
  destruct (Z.land (u8 b) 0xC0 =? 0xC0).
  - destruct (get buf (pos + 1)) as [lo|] eqn:Hlo; [|by eexists]. apply get_Some_lt in Hlo.
    destruct (Z.ltb_spec MAX_JUMPS (jumps + 1)); [by eexists|].
    destruct (Z.leb_spec (len buf) (Z.lor (Z.shiftl (Z.land (u8 b) 0x3F) 8) (u8 lo)));
      [by eexists|]. cbn [orb]. apply IH; [|lia|done|done| |lia].
    + apply Z.lor_nonneg. pose proof (u8_range lo). split; [|lia].
      apply Z.shiftl_nonneg, Z.land_nonneg. lia.
    + intros q. destruct resume as [p|]; intros [= <-]; [by apply Hr|lia].
  - destruct (Z.eqb_spec (u8 b) 0) as [|Hn].
    { eexists. split; [done|]. intros s p [= <- <-]. split; [done|]. split; [done|].
      destruct resume as [q|]; [by apply Hr|lia]. }
    destruct (slice buf (pos + 1) (pos + 1 + u8 b)) as [label|] eqn:Hs; [|by eexists].
    apply slice_len in Hs. destruct (Z.ltb_spec MAX_NAME (len out + len label + 1));
      [by eexists|].
    destruct (from_utf8 label) as [s|] eqn:Hu; [|by eexists].
    apply from_utf8_Some in Hu as [-> Hvl]. pose proof (len_nonneg out).
    assert (Hl : len out < len ((if negb (is_empty out) then out ++ str "." else out) ++ label)
                 <= len out + len label + 1).
    { destruct out; cbn [is_empty negb]; simpl_len; [lia|].
      change (len (str ".")) with 1. lia. }
    apply IH; [lia|done|lia| |done|lia].
    apply valid_app; [|done]. destruct (negb _); [|done]. by apply valid_app.
Qed.

Lemma name_total r :
  0 <= Reader.pos r ->
  Reader.name_loop Reader.name_fuel (Reader.buf r) (Reader.pos r) 0 None [] <> None /\
  forall s r', Reader.name r = Some (s, r') ->
    len s <= MAX_NAME /\ valid s = true /\ 0 < Reader.pos r' <= len (Reader.buf r) /\
    Reader.buf r' = Reader.buf r.
Proof.
  intros Hp. destruct (name_loop_total Reader.name_fuel (Reader.buf r) (Reader.pos r) 0 None [])
    as (o & Ho & Hw); try done.
  unfold Reader.name. rewrite Ho. split; [done|]. intros s r'.
  destruct o as [[s' p]|]; [|done]. cbn. intros [= <- <-].
  destruct (Hw s' p eq_refl) as (? & ? & ?). done.
Qed.

(** *** Reading what was written *)

(** [r] has [l] still to read. *)
Definition rest_is (r : Reader.t) (l : list byte) : Prop :=
  exists pre, Reader.buf r = pre ++ l /\ Reader.pos r = len pre.

(** A step that reads [v] off the front of [x ++ l]. *)
Definition reads {A} (f : Reader.t -> option (A * Reader.t)) (x : list byte) (v : A) : Prop :=
  forall r l, fits (Reader.buf r) -> rest_is r (x ++ l) ->
  exists r', f r = Some (v, r') /\ rest_is r' l /\ Reader.buf r' = Reader.buf r /\
             Reader.pos r' = Reader.pos r + len x.

Lemma reads_u8 b : reads Reader.u8 [b] (u8 b).
Proof.
  intros [buf pos] l _ (pre & Hb & Hp). cbn in *. subst. unfold Reader.u8. cbn [Reader.buf Reader.pos].
  rewrite get_app_pos by done. cbn [head app opt_bind]. eexists. split; [done|]. cbn.
  split; [|done]. exists (pre ++ [b]). rewrite <- app_assoc. cbn. by simpl_len.
Qed.

Lemma be2 v : to_be_bytes 2 v = [to_u8 (v / 256); to_u8 v].
Proof. cbn. by rewrite Z.div_1_r. Qed.

Lemma reads_u16 v : 0 <= v < 65536 -> reads Reader.u16 (to_be_bytes 2 v) v.
Proof.
  intros Hv r l Hf Hr. rewrite be2 in *.
  destruct (reads_u8 (to_u8 (v / 256)) r (to_u8 v :: l) Hf Hr) as (r1 & H1 & Hr1 & Hb1 & Hp1).
  destruct (reads_u8 (to_u8 v) r1 l) as (r2 & H2 & Hr2 & Hb2 & Hp2); [by rewrite Hb1|done|].
  exists r2. unfold Reader.u16. rewrite H1. cbn [opt_bind]. rewrite H2. cbn [opt_bind].
  assert (0 <= v / 256 < 256).
  { split; [apply Z.div_pos; lia|apply Z.div_lt_upper_bound; lia]. }
  pose proof (Z.mod_pos_bound v 256 ltac:(lia)). pose proof (Z.div_mod v 256 ltac:(lia)).
  rewrite (u8_to_u8_small (v / 256)), (u8_to_u8 v), Z.lor_comm, lor_disjoint by lia.
  split; [do 2 f_equal; lia|]. split; [done|]. split; [congruence|].
  rewrite Hp2, Hp1. simpl_len. lia.
Qed.

Lemma be4 v : to_be_bytes 4 v = to_be_bytes 2 (v / 65536) ++ to_be_bytes 2 v.
Proof. cbn. rewrite !Z.div_div by lia. by rewrite !Z.div_1_r. Qed.

Lemma to_be_bytes_mod v : to_be_bytes 2 v = to_be_bytes 2 (v mod 65536).
Proof.
  rewrite !be2. assert (Hu : forall a b, a mod 256 = b mod 256 -> to_u8 a = to_u8 b)
    by (intros a b H; unfold to_u8; by rewrite H).
  f_equal; [|f_equal]; apply Hu.
  - change 65536 with (256 * 256). rewrite Z.rem_mul_r by lia.
    rewrite (Z.mul_comm 256 ((v / 256) mod 256)), Z.div_add by lia.
    rewrite (Z.div_small (v mod 256)) by (apply Z.mod_pos_bound; lia).
    by rewrite Z.add_0_l, Z.mod_mod by lia.
  - change 65536 with (256 * 256). rewrite Z.rem_mul_r by lia.
    by rewrite (Z.mul_comm 256 (_ mod _)), Z.mod_add, Z.mod_mod by lia.
Qed.

Lemma reads_u32 v : 0 <= v < 2 ^ 32 -> reads Reader.u32 (to_be_bytes 4 v) v.
Proof.
  intros Hv r l Hf Hr. rewrite be4 in *. rewrite (to_be_bytes_mod v) in *.
  pose proof (Z.mod_pos_bound v 65536 ltac:(lia)). pose proof (Z.div_mod v 65536 ltac:(lia)).
  rewrite <- app_assoc in Hr.
  destruct (reads_u16 (v / 65536) ltac:(lia) r _ Hf Hr) as (r1 & H1 & Hr1 & Hb1 & Hp1).
  destruct (reads_u16 (v mod 65536) ltac:(lia) r1 l) as (r2 & H2 & Hr2 & Hb2 & Hp2);
    [by rewrite Hb1|done|].
  exists r2. unfold Reader.u32. rewrite H1. cbn [opt_bind]. rewrite H2. cbn [opt_bind].
  rewrite Z.lor_comm, lor_disjoint by lia.
  split; [do 2 f_equal; lia|]. split; [done|]. split; [congruence|].
  rewrite Hp2, Hp1. simpl_len. lia.
Qed.

Lemma reads_bytes b : reads (Reader.bytes (len b)) b b.
Proof.
  intros [buf pos] l Hf (pre & Hb & Hp). cbn in *. subst. unfold Reader.bytes.
  cbn [Reader.buf Reader.pos]. unfold fits in Hf. simpl_len in Hf. pose proof (len_nonneg l).
  rewrite checked_add_small by (unfold_ints; lia). cbn [opt_bind].
  rewrite slice_app by done. cbn [opt_bind]. eexists. split; [done|]. cbn.
  split; [|done]. exists (pre ++ b). rewrite <- app_assoc. by simpl_len.
Qed.

(** *** Names *)

Definition no_dot (l : list byte) : Prop := Forall (fun b => u8 b <> 46) l.

(** A label DNS allows: 1 to 63 bytes of UTF-8 without a dot. *)
Definition wf_label (l : list byte) : Prop := 0 < len l < 64 /\ valid l = true /\ no_dot l.

Definition append (out l : list byte) : list byte :=
  (if negb (is_empty out) then out ++ str "." else out) ++ l.

(** [labels.join(".")]. *)
Definition dotted (ls : list (list byte)) : list byte := fold_left append ls [].

Lemma split_dots_cons l s : no_dot l -> split_dots (l ++ str "." ++ s) = l :: split_dots s.
Proof. induction 1 as [|b l Hb _ IH]; [done|]. cbn [app split_dots].
  rewrite (proj2 (Z.eqb_neq _ _) Hb). by rewrite IH. Qed.

Lemma split_dots_last l : no_dot l -> split_dots l = [l].
Proof. induction 1 as [|b l Hb _ IH]; [done|]. cbn [split_dots].
  rewrite (proj2 (Z.eqb_neq _ _) Hb). by rewrite IH. Qed.

Lemma fold_append ls out :
  out <> [] -> fold_left append ls out = out ++ mjoin ((fun l => str "." ++ l) <$> ls).
Proof.
  revert out. induction ls as [|l ls IH]; intros out Ho; cbn; [by rewrite app_nil_r|].
  destruct out as [|b out]; [done|]. rewrite IH by done. unfold append. cbn.
  by rewrite <- !app_assoc.
Qed.

Lemma dotted_cons l ls :
  l <> [] -> dotted (l :: ls) = l ++ mjoin ((fun l => str "." ++ l) <$> ls).
Proof. intros Hl. unfold dotted. cbn. by apply fold_append. Qed.

Lemma split_dotted l ls :
  Forall wf_label (l :: ls) -> split_dots (dotted (l :: ls)) = l :: ls.
Proof.
  intros H. inversion H as [|? ? [Hl [_ Hd]] Hls]; subst. rewrite dotted_cons.
  2:{ intros ->. change (len (@nil byte)) with 0 in Hl. lia. }
  clear H Hl. revert l Hd. induction Hls as [|k ks (_ & _ & Hk) _ IH]; intros l Hd.
  - cbn. rewrite app_nil_r. by apply split_dots_last.
  - cbn [fmap list_fmap mjoin list_join]. rewrite <- app_assoc, split_dots_cons by done.
    by rewrite IH.
Qed.

Lemma encode_dotted ls :
  Forall wf_label ls -> encode_name (dotted ls) = mjoin (put_label <$> ls) ++ [to_u8 0].
Proof.
  intros H. unfold encode_name. destruct ls as [|l ls]; [done|].
  rewrite split_dotted by done. do 2 f_equal. clear -H.
  induction H as [|k ks [Hk _] _ IH]; [done|]. cbn [fmap list_fmap]. f_equal; [|done].
  destruct k; [|done]. change (len (@nil byte)) with 0 in Hk. lia.
Qed.

Lemma small_label b : u8 b < 64 -> (Z.land (u8 b) 0xC0 =? 0xC0) = false.
Proof. destruct b; first [done|cbn; lia]. Qed.

Lemma len_append out l : len out <= len (append out l).
Proof. unfold append. pose proof (len_nonneg l). destruct (negb _); simpl_len;
  [pose proof (len_nonneg (str "."))|]; lia. Qed.

Lemma len_fold_append ls out : len out <= len (fold_left append ls out).
Proof.
  revert out. induction ls as [|l ls IH]; intros out; cbn; [lia|].
  pose proof (IH (append out l)). pose proof (len_append out l). lia.
Qed.

Lemma name_loop_labels ls fuel pre rest out :
  Forall wf_label ls -> (length ls < fuel)%nat -> len (fold_left append ls out) <= MAX_NAME ->
  Reader.name_loop fuel (pre ++ (mjoin (put_label <$> ls) ++ [to_u8 0]) ++ rest) (len pre) 0 None out
  = Some (Some (fold_left append ls out, len pre + len (mjoin (put_label <$> ls)) + 1)).
Proof.
  intros Hls. revert fuel pre out. induction Hls as [|l ls (Hl & Hv & _) _ IH];
    intros fuel pre out Hf Hlen; (destruct fuel as [|fuel]; [cbn in Hf; lia|]);
    cbn [Reader.name_loop].
  - cbn [fmap list_fmap mjoin list_join app]. rewrite get_app_pos by done. cbn [head].
    cbn [fold_left]. do 3 f_equal. simpl_len. lia.
  - set (tl := (mjoin (put_label <$> ls) ++ [to_u8 0]) ++ rest).
    assert (Hb : pre ++ (mjoin (put_label <$> l :: ls) ++ [to_u8 0]) ++ rest
                 = pre ++ [to_u8 (len l)] ++ l ++ tl).
    { unfold tl, put_label. cbn [fmap list_fmap mjoin list_join]. by rewrite <- !app_assoc. }
    rewrite Hb, get_app_pos by done. cbn [head app].
    rewrite small_label, u8_to_u8_small by (rewrite ?u8_to_u8_small; lia).
    rewrite (proj2 (Z.eqb_neq _ _)) by lia.
    change (pre ++ to_u8 (len l) :: l ++ tl) with (pre ++ [to_u8 (len l)] ++ l ++ tl).
    rewrite (app_assoc pre), slice_app by (simpl_len; lia).
    cbn [fold_left] in *. pose proof (len_fold_append ls (append out l)).
    assert (Hchk : len out + len l + 1 <= MAX_NAME).
    { unfold append in *. destruct out as [|b out]; cbn [is_empty negb] in *.
      - simpl_len. unfold MAX_NAME. lia.
      - rewrite !len_app in *. change (len (str ".")) with 1 in *. lia. }
    rewrite (proj2 (Z.ltb_ge _ _)) by done. unfold from_utf8. rewrite Hv.
    replace (len pre + 1 + len l) with (len ((pre ++ [to_u8 (len l)]) ++ l)) by (simpl_len; lia).
    rewrite app_assoc. unfold tl. change ((if negb (is_empty out) then out ++ str "." else out) ++ l)
      with (append out l).
    rewrite IH by (cbn in Hf; lia || done). do 3 f_equal.
    change (mjoin (put_label <$> l :: ls))
      with ((to_u8 (len l) :: l) ++ mjoin (put_label <$> ls)). simpl_len. lia.
Qed.

Lemma labels_short ls : Forall wf_label ls -> len (dotted ls) <= MAX_NAME -> (length ls < 272)%nat.
Proof.
  intros Hls. unfold dotted. assert (H : forall out, Z.of_nat (length ls) + len out <= len (fold_left append ls out)).
  { induction Hls as [|l ls (Hl & _) _ IH]; intros out; cbn [fold_left length]; [lia|].
    pose proof (IH (append out l)).
    assert (len out + 1 <= len (append out l)).
    { unfold append. destruct (negb _); simpl_len; [pose proof (len_nonneg (str "."))|]; lia. }
    lia. }
  intros Hm. pose proof (H []). change (len (@nil byte)) with 0 in *. unfold MAX_NAME in Hm. lia.
Qed.

Lemma reads_name ls :
  Forall wf_label ls -> len (dotted ls) <= MAX_NAME ->
  reads Reader.name (encode_name (dotted ls)) (dotted ls).
Proof.
  intros Hls Hlen [buf pos] l Hf (pre & Hb & Hp). cbn in *. subst. unfold Reader.name.
  cbn [Reader.buf Reader.pos]. rewrite encode_dotted by done.
  rewrite name_loop_labels; [|done|by apply labels_short|done]. cbn [flatten_opt opt_bind].
  eexists. split; [done|]. split; [|split; [done|]].
  - exists (pre ++ mjoin (put_label <$> ls) ++ [to_u8 0]). cbn. rewrite <- !app_assoc.
    split; [done|]. simpl_len. lia.
  - cbn. simpl_len. lia.
Qed.

(** *** Packets *)

(** What a caller of [record] asks for. *)
Record Answer : Type := mkAnswer {
  a_labels : list (list byte);
  a_type : Z;
  a_ttl : Z;
  a_rdata : list byte;
  a_flush : bool
}.

Definition write (a : Answer) : list byte :=
  record (dotted (a_labels a)) (a_type a) (a_ttl a) (a_rdata a) (a_flush a).

Definition wf_answer (a : Answer) : Prop :=
  Forall wf_label (a_labels a) /\ len (dotted (a_labels a)) <= MAX_NAME /\
  0 <= a_type a < 65536 /\ 0 <= a_ttl a < 2 ^ 32 /\ len (a_rdata a) < 65536.

(** [r] is the record [a], and names the place of its data in the packet. *)
Definition says (buf : list byte) (r : Record_) (a : Answer) : Prop :=
  r_name r = dotted (a_labels a) /\ rtype r = a_type a /\ ttl r = a_ttl a /\
  rdata r = a_rdata a /\ slice buf (rdata_at r) (rdata_at r + len (rdata r)) = Some (rdata r).

Lemma reads_step {A B} (f : Reader.t -> option (A * Reader.t)) x v
    (k : A * Reader.t -> option B) r l :
  reads f x v -> fits (Reader.buf r) -> rest_is r (x ++ l) ->
  exists r', opt_bind (f r) k = k (v, r') /\ rest_is r' l /\ Reader.buf r' = Reader.buf r /\
             Reader.pos r' = Reader.pos r + len x.
Proof.
  intros Hf Hfit Hr. destruct (Hf r l Hfit Hr) as (r' & H & ?). exists r'. by rewrite H.
Qed.

(** Take one read of the program off the input. *)
Ltac read_step H :=
  match goal with
  | Hr : rest_is ?r _, Hf : fits (Reader.buf ?r) |- context [opt_bind (?f ?r) ?k] =>
      let r' := fresh "r" in let Hb := fresh "Hb" in let E := fresh "E" in
      let Hp := fresh "Hp" in let Hr' := fresh "Hr" in
      destruct (reads_step f _ _ k r _ H Hf Hr) as (r' & E & Hr' & Hb & Hp);
      rewrite E; clear E;
      assert (fits (Reader.buf r')) by (rewrite Hb; exact Hf); cbv beta iota
  end.

Lemma read_records_written as_ r l :
  Forall wf_answer as_ -> fits (Reader.buf r) -> rest_is r (mjoin (write <$> as_) ++ l) ->
  exists rs r', read_records (length as_) r = Some (rs, r') /\
    Forall2 (says (Reader.buf r)) rs as_ /\ Reader.buf r' = Reader.buf r.
Proof.
  intros Has. revert r. induction Has as [|a as_ (Hls & Hlen & Hty & Httl & Hrd) _ IH];
    intros r Hf Hr; [by exists [], r|].
  cbn [length read_records].
  assert (Hw : rest_is r (encode_name (dotted (a_labels a)) ++ to_be_bytes 2 (a_type a)
    ++ to_be_bytes 2 (if a_flush a then 0x8001 else 1) ++ to_be_bytes 4 (a_ttl a)
    ++ to_be_bytes 2 (len (a_rdata a)) ++ a_rdata a ++ mjoin (write <$> as_) ++ l)).
  { unfold write, record in Hr. cbn [fmap list_fmap mjoin list_join] in Hr.
    rewrite Z.mod_small in Hr by (pose proof (len_nonneg (a_rdata a)); lia).
    by rewrite <- !app_assoc in Hr. }
  clear Hr. pose proof (len_nonneg (a_rdata a)).
  read_step (reads_name _ Hls Hlen). read_step (reads_u16 _ Hty).
  assert (Hcl : 0 <= (if a_flush a then 0x8001 else 1) < 65536) by (destruct (a_flush a); lia).
  read_step (reads_u16 _ Hcl). read_step (reads_u32 _ Httl).
  assert (Hrl : 0 <= len (a_rdata a) < 65536) by lia. read_step (reads_u16 _ Hrl).
  match goal with Hr : rest_is ?r (a_rdata a ++ _) |- _ => destruct Hr as (pre & Hbuf & Hpos);
    assert (Hr : rest_is r (a_rdata a ++ mjoin (write <$> as_) ++ l)) by (exists pre; done) end.
  read_step (reads_bytes (a_rdata a)).
  match goal with Hr : rest_is ?q (mjoin _ ++ l), Hq : fits (Reader.buf ?q) |- _ =>
    destruct (IH q Hq Hr) as (rs & r' & -> & Hrs & Hb') end.
  cbn [opt_bind]. eexists _, _. split; [done|].
  assert (Hsame : Reader.buf r5 = Reader.buf r) by congruence. rewrite Hsame in Hrs, Hb'.
  split; [|done]. constructor; [|done]. split_and!; try done. cbn [rdata_at rdata].
  replace (Reader.buf r) with (pre ++ a_rdata a ++ mjoin (write <$> as_) ++ l)
    by (rewrite <- Hbuf; congruence).
  apply slice_app; lia.
Qed.

Lemma rest_is_new buf : rest_is (Reader.new buf) buf.
Proof. by exists []. Qed.

Lemma parse_response as_ :
  Forall wf_answer as_ -> len as_ <= 128 -> fits (response (write <$> as_)) ->
  exists rs, parse (response (write <$> as_)) = Some (mkMessage [] rs) /\
             Forall2 (says (response (write <$> as_))) rs as_.
Proof.
  intros Has Hn Hf. pose proof (len_nonneg as_). unfold parse.
  assert (Hnew : rest_is (Reader.new (response (write <$> as_)))
    (to_be_bytes 2 0 ++ to_be_bytes 2 0x8400 ++ to_be_bytes 2 0 ++ to_be_bytes 2 (len as_)
     ++ to_be_bytes 2 0 ++ to_be_bytes 2 0 ++ mjoin (write <$> as_) ++ [])).
  { unfold response. rewrite len_map, Z.mod_small, app_nil_r by lia. apply rest_is_new. }
  set (buf := response _) in *.
  assert (Hfr : fits (Reader.buf (Reader.new buf))) by done.
  assert (H0 : 0 <= 0 < 65536) by lia. assert (H84 : 0 <= 0x8400 < 65536) by lia.
  assert (Han : 0 <= len as_ < 65536) by lia.
  read_step (reads_u16 0 H0). read_step (reads_u16 _ H84). read_step (reads_u16 0 H0).
  read_step (reads_u16 _ Han). read_step (reads_u16 0 H0). read_step (reads_u16 0 H0).
  change (64 <? 0) with false. change (Z.to_nat 0) with 0%nat. cbn [read_questions opt_bind].
  replace (len as_ + 0 + 0) with (len as_) by lia.
  rewrite (proj2 (Z.ltb_ge _ _)) by lia. rewrite len_nat, Nat2Z.id.
  match goal with Hr : rest_is ?q (mjoin _ ++ []), Hq : fits (Reader.buf ?q) |- _ =>
    destruct (read_records_written as_ q [] Has Hq Hr) as (rs & r' & -> & Hrs & _);
    assert (Hsame : Reader.buf q = buf)
      by (transitivity (Reader.buf (Reader.new buf)); [congruence|done]);
    rewrite Hsame in Hrs end.
  cbn [opt_bind]. by exists rs.
Qed.

Lemma query_labels l ls unicast :
  Forall wf_label (l :: ls) ->
  query_with (dotted (l :: ls)) unicast =
  to_be_bytes 2 0 ++ to_be_bytes 2 0 ++ to_be_bytes 2 1 ++ to_be_bytes 2 0 ++ to_be_bytes 2 0
  ++ to_be_bytes 2 0 ++ encode_name (dotted (l :: ls)) ++ to_be_bytes 2 TYPE_PTR
  ++ to_be_bytes 2 (if unicast then 0x8001 else 1).
Proof.
  intros Hls. unfold query_with. rewrite encode_dotted, split_dotted by done.
  rewrite <- !app_assoc. by destruct unicast.
Qed.

Lemma parse_query l ls unicast :
  Forall wf_label (l :: ls) -> len (dotted (l :: ls)) <= MAX_NAME ->
  fits (query_with (dotted (l :: ls)) unicast) ->
  parse (query_with (dotted (l :: ls)) unicast)
    = Some (mkMessage [mkQuestion (dotted (l :: ls)) TYPE_PTR] []).
Proof.
  intros Hls Hlen Hf. unfold parse.
  assert (Hnew : rest_is (Reader.new (query_with (dotted (l :: ls)) unicast))
    (to_be_bytes 2 0 ++ to_be_bytes 2 0 ++ to_be_bytes 2 1 ++ to_be_bytes 2 0 ++ to_be_bytes 2 0
     ++ to_be_bytes 2 0 ++ encode_name (dotted (l :: ls)) ++ to_be_bytes 2 TYPE_PTR
     ++ to_be_bytes 2 (if unicast then 0x8001 else 1) ++ [])).
  { rewrite app_nil_r, <- query_labels by done. apply rest_is_new. }
  set (buf := query_with _ _) in *.
  assert (Hfr : fits (Reader.buf (Reader.new buf))) by done.
  assert (H0 : 0 <= 0 < 65536) by lia. assert (H1 : 0 <= 1 < 65536) by lia.
  assert (Hptr : 0 <= TYPE_PTR < 65536) by done.
  assert (Hcl : 0 <= (if unicast then 0x8001 else 1) < 65536) by (destruct unicast; lia).
  read_step (reads_u16 0 H0). read_step (reads_u16 0 H0). read_step (reads_u16 1 H1).
  read_step (reads_u16 0 H0). read_step (reads_u16 0 H0). read_step (reads_u16 0 H0).
  change (64 <? 1) with false. cbv iota. change (Z.to_nat 1) with 1%nat. cbn [read_questions].
  unfold opt_bind at 1.
  destruct (reads_name _ Hls Hlen r4 _ ltac:(assumption) ltac:(eassumption))
    as (q1 & -> & Hq1 & Hb6 & _). cbn [opt_bind].
  assert (Hf1 : fits (Reader.buf q1)) by (rewrite Hb6; assumption).
  destruct (reads_u16 _ Hptr q1 _ Hf1 Hq1) as (q2 & -> & Hq2 & Hb7 & _). cbn [opt_bind].
  assert (Hf2 : fits (Reader.buf q2)) by (rewrite Hb7; assumption).
  destruct (reads_u16 _ Hcl q2 _ Hf2 Hq2) as (q3 & -> & _). cbn [opt_bind].
  change (128 <? 0 + 0 + 0) with false. cbv iota. change (Z.to_nat (0 + 0 + 0)) with 0%nat.
  done.
Qed.

(** *** Names and records by their parts *)

Lemma dotted_snoc ls l :
  Forall (fun k => k <> []) ls -> dotted (ls ++ [l]) = mjoin ((fun k => k ++ str ".") <$> ls) ++ l.
Proof.
  intros Hls. unfold dotted. rewrite fold_left_app. cbn [fold_left].
  assert (Hd : forall k ks, Forall (fun k => k <> []) (ks ++ [k]) ->
            fold_left append (ks ++ [k]) [] = mjoin ((fun k => k ++ str ".") <$> ks) ++ k).
  { clear. intros k ks. revert k. induction ks as [|j ks IH] using rev_ind; intros k Hk; [done|].
    apply Forall_app in Hk as [Hks _]. rewrite fold_left_app, IH by done. cbn [fold_left]. unfold append.
    apply Forall_app in Hks as [_ Hj]. apply Forall_cons in Hj as [Hj _].
    destruct (mjoin _ ++ j) eqn:He; [by apply app_eq_nil in He as [_ ?]|]. cbn [is_empty negb]. rewrite <- He.
    rewrite fmap_app, join_app. cbn [fmap list_fmap]. change (mjoin [?x]) with (x ++ []).
    by rewrite app_nil_r, <- !app_assoc. }
  destruct ls as [|k ks _] using rev_ind; [done|]. rewrite Hd by done. unfold append.
  apply Forall_app in Hls as [_ Hk]. apply Forall_cons in Hk as [Hk _].
  destruct (mjoin _ ++ k) eqn:He; [by apply app_eq_nil in He as [_ ?]|]. cbn [is_empty negb]. rewrite <- He.
  rewrite fmap_app, join_app. cbn [fmap list_fmap]. change (mjoin [?x]) with (x ++ []).
  by rewrite app_nil_r, <- !app_assoc.
Qed.

(** Text of a label: ASCII without dots. *)
Definition label_text (l : list byte) : bool := forallb (fun b => (u8 b <? 128) && negb (u8 b =? 46)) l.

Lemma label_wf l : 0 < len l < 64 -> label_text l = true -> wf_label l.
Proof.
  intros Hl Ht. unfold label_text in Ht. rewrite forallb_forall in Ht.
  assert (Hf : Forall (fun b => (u8 b <? 128) && negb (u8 b =? 46) = true) l).
  { apply Forall_forall. intros b Hb%list_elem_of_In. by apply Ht. }
  split_and!; [lia|lia| |].
  - apply ascii_chars. eapply Forall_impl; [exact Hf|]. cbv beta. lia.
  - eapply Forall_impl; [exact Hf|]. cbv beta. lia.
Qed.

Lemma len_encode ls : Forall wf_label ls -> ls <> [] -> len (encode_name (dotted ls)) = len (dotted ls) + 2.
Proof.
  intros Hls Hne. rewrite encode_dotted by done. destruct Hls as [|l ls ([Hl _] & _) Hls]; [done|].
  rewrite dotted_cons by (intros ->; by vm_compute in Hl).
  assert (Hs : len (mjoin (put_label <$> ls)) = len (mjoin ((fun l => str "." ++ l) <$> ls))).
  { clear. induction ls as [|l ls IH]; [done|]. cbn [fmap list_fmap]. change (mjoin (?x :: ?y)) with (x ++ mjoin y).
    rewrite !len_app, IH. unfold put_label. rewrite len_cons. change (len (str ".")) with 1. lia. }
  cbn [fmap list_fmap]. change (mjoin (put_label l :: ?y)) with (put_label l ++ mjoin y). rewrite !len_app, Hs.
  unfold put_label. rewrite len_cons. change (len [to_u8 0]) with 1. lia.
Qed.

Lemma len_record name rtype ttl rdata flush :
  len (record name rtype ttl rdata flush) = len (encode_name name) + 10 + len rdata.
Proof. unfold record. rewrite !len_app, !len_to_be_bytes. lia. Qed.

(** A name in the data of a record is read there. *)
Lemma name_at ls buf at_ pre rest :
  Forall wf_label ls -> len (dotted ls) <= MAX_NAME -> fits buf ->
  slice buf at_ (at_ + len (pre ++ encode_name (dotted ls) ++ rest)) = Some (pre ++ encode_name (dotted ls) ++ rest) ->
  exists r, Reader.name (Reader.mk buf (at_ + len pre)) = Some (dotted ls, r).
Proof.
  intros Hls Hl Hf Hs. destruct (slice_split _ _ _ _ Hs) as (x & y & -> & ->).
  destruct (reads_name ls Hls Hl (Reader.mk (x ++ (pre ++ encode_name (dotted ls) ++ rest) ++ y) (len x + len pre)) (rest ++ y))
    as (r & Hr & _); [exact Hf| |by exists r].
  exists (x ++ pre). cbn [Reader.buf Reader.pos]. by rewrite len_app, <- !app_assoc.
Qed.

(** *** Whatever arrives *)

Definition wf_name (n : list byte) : Prop := len n <= MAX_NAME /\ valid n = true.

Lemma u8_pos r v r' :
  0 <= Reader.pos r -> Reader.u8 r = Some (v, r') ->
  0 <= Reader.pos r' /\ Reader.buf r' = Reader.buf r /\ 0 <= v < 256.
Proof.
  intros Hp. unfold Reader.u8. intros (b & _ & H)%opt_bind_Some. injection H as <- <-. cbn.
  pose proof (u8_range b). split; [lia|]. split; [done|lia].
Qed.

Lemma u16_pos r v r' :
  0 <= Reader.pos r -> Reader.u16 r = Some (v, r') ->
  0 <= Reader.pos r' /\ Reader.buf r' = Reader.buf r /\ 0 <= v.
Proof.
  intros Hp. unfold Reader.u16. intros ([hi r1] & H1 & H)%opt_bind_Some.
  apply opt_bind_Some in H as ([lo r2] & H2 & H). injection H as <- <-.
  apply u8_pos in H1 as (Hp1 & Hb1 & Hv1); [|done]. apply u8_pos in H2 as (Hp2 & Hb2 & Hv2); [|done].
  split; [done|]. split; [congruence|]. apply Z.lor_nonneg. split; [apply Z.shiftl_nonneg|]; lia.
Qed.

Lemma u32_pos r v r' :
  0 <= Reader.pos r -> Reader.u32 r = Some (v, r') ->
  0 <= Reader.pos r' /\ Reader.buf r' = Reader.buf r.
Proof.
  intros Hp. unfold Reader.u32. intros ([hi r1] & H1 & H)%opt_bind_Some.
  apply opt_bind_Some in H as ([lo r2] & H2 & H). injection H as <- <-.
  apply u16_pos in H1 as (Hp1 & Hb1 & Hv1); [|done]. apply u16_pos in H2 as (Hp2 & Hb2 & Hv2); [|done].
  split; [done|congruence].
Qed.

Lemma name_pos r s r' :
  0 <= Reader.pos r -> Reader.name r = Some (s, r') ->
  0 <= Reader.pos r' /\ Reader.buf r' = Reader.buf r /\ wf_name s.
Proof.
  intros Hp H. apply (name_total r Hp) in H as (? & ? & ? & ?). split; [lia|]. by split.
Qed.

Lemma read_questions_wf n r qs r' :
  0 <= Reader.pos r -> read_questions n r = Some (qs, r') ->
  length qs = n /\ Forall (fun q => wf_name (q_name q)) qs /\ 0 <= Reader.pos r' /\
  Reader.buf r' = Reader.buf r.
Proof.
  revert r qs. induction n as [|n IH]; intros r qs Hp; cbn [read_questions].
  { intros [= <- <-]. done. }
  intros ([s r1] & H1 & H)%opt_bind_Some. apply opt_bind_Some in H as ([t r2] & H2 & H).
  apply opt_bind_Some in H as ([u r3] & H3 & H). apply opt_bind_Some in H as ([qs' r4] & H4 & H).
  injection H as <- <-. apply name_pos in H1 as (? & ? & ?); [|done].
  apply u16_pos in H2 as (? & ? & ?); [|done]. apply u16_pos in H3 as (? & ? & ?); [|done].
  apply IH in H4 as (<- & ? & ? & ?); [|done]. split; [done|]. split; [by constructor|].
  split; [done|congruence].
Qed.

Lemma read_records_wf n r rs r' :
  0 <= Reader.pos r -> read_records n r = Some (rs, r') ->
  length rs = n /\ Forall (fun x => wf_name (r_name x) /\
    slice (Reader.buf r) (rdata_at x) (rdata_at x + len (rdata x)) = Some (rdata x)) rs.
Proof.
  revert r rs. induction n as [|n IH]; intros r rs Hp; cbn [read_records].
  { intros [= <- <-]. done. }
  intros ([s r1] & H1 & H)%opt_bind_Some. apply opt_bind_Some in H as ([t r2] & H2 & H).
  apply opt_bind_Some in H as ([u r3] & H3 & H). apply opt_bind_Some in H as ([v r4] & H4 & H).
  apply opt_bind_Some in H as ([w r5] & H5 & H). apply opt_bind_Some in H as ([d r6] & H6 & H).
  apply opt_bind_Some in H as ([rs' r7] & H7 & H). injection H as <- <-.
  apply name_pos in H1 as (? & ? & ?); [|done]. apply u16_pos in H2 as (? & ? & ?); [|done].
  apply u16_pos in H3 as (? & ? & ?); [|done]. apply u32_pos in H4 as (? & ?); [|done].
  apply u16_pos in H5 as (? & ? & ?); [|done].
  assert (Hd : slice (Reader.buf r5) (Reader.pos r5) (Reader.pos r5 + len d) = Some d /\
               0 <= Reader.pos r6 /\ Reader.buf r6 = Reader.buf r5).
  { unfold Reader.bytes, checked_add in H6. destruct (_ <=? _); [|discriminate H6].
    cbn [opt_bind] in H6. apply opt_bind_Some in H6 as (d' & Hs & H6). injection H6 as <- <-.
    pose proof (slice_len _ _ _ _ Hs). cbn. split; [|split; [lia|done]].
    by replace (len d') with w by lia. }
  destruct Hd as (Hd & ? & ?). apply IH in H7 as (<- & Hrs); [|done]. split; [done|].
  assert (Hb5 : Reader.buf r5 = Reader.buf r) by congruence.
  assert (Hb6 : Reader.buf r6 = Reader.buf r) by congruence. rewrite Hb5 in Hd. rewrite Hb6 in Hrs.
  by constructor.
Qed.

(** *** Type bitmaps *)

(** Bit [t], most significant first. *)
Definition has_bit (bitmap : list byte) (t : Z) : bool :=
  match bitmap !! Z.to_nat (t / 8) with
  | Some b => Z.testbit (u8 b) (7 - t mod 8)
  | None => false
  end.

Lemma bit_position a b :
  0 <= a < 8 -> 0 <= b < 8 -> Z.testbit (Z.shiftr 0x80 a) (7 - b) = (a =? b).
Proof.
  intros Ha Hb. rewrite Z.shiftr_spec by lia. change 0x80 with (2 ^ 7).
  rewrite Z.pow2_bits_eqb by lia. destruct (Z.eqb_spec a b); [apply Z.eqb_eq|apply Z.eqb_neq]; lia.
Qed.

Lemma set_bit_spec bitmap t t' :
  0 <= t -> 0 <= t' -> t / 8 < len bitmap ->
  has_bit (set_bit bitmap t) t' = (t =? t') || has_bit bitmap t'.
Proof.
  intros Ht Ht' Hl. unfold has_bit, set_bit.
  pose proof (Z.mod_pos_bound t 8 ltac:(lia)). pose proof (Z.mod_pos_bound t' 8 ltac:(lia)).
  pose proof (Z.div_mod t 8 ltac:(lia)) as E. pose proof (Z.div_mod t' 8 ltac:(lia)) as E'.
  assert (0 <= t / 8) by (apply Z.div_pos; lia). assert (0 <= t' / 8) by (apply Z.div_pos; lia).
  destruct (decide (t / 8 = t' / 8)) as [Heq|Hne].
  - rewrite Heq, list_lookup_alter.
    destruct (lookup_lt_is_Some_2 bitmap (Z.to_nat (t' / 8))) as [b Hb].
    { rewrite len_nat in Hl. lia. }
    rewrite Hb. cbv [fmap option_fmap option_map].
    assert (Hr : 0 <= Z.lor (u8 b) (Z.shiftr 0x80 (t mod 8)) < 2 ^ 8).
    { apply lor_range; [lia|apply u8_range|].
      rewrite Z.shiftr_div_pow2 by lia. split; [apply Z.div_pos; [lia|apply Z.pow_pos_nonneg; lia]|].
      apply Z.div_lt_upper_bound; [apply Z.pow_pos_nonneg; lia|].
      assert (2 ^ 0 <= 2 ^ (t mod 8)) by (apply Z.pow_le_mono_r; lia). lia. }
    rewrite decide_True by done.     rewrite u8_to_u8_small by done. rewrite Z.lor_spec, bit_position by lia.
    rewrite orb_comm. f_equal.
    destruct (Z.eqb_spec (t mod 8) (t' mod 8)); symmetry; [apply Z.eqb_eq|apply Z.eqb_neq]; lia.
  - rewrite list_lookup_alter, decide_False by lia. rewrite (proj2 (Z.eqb_neq _ _)); [done|]. congruence.
Qed.

Lemma set_bits bitmap types t' :
  Forall (fun t => 0 <= t /\ t / 8 < len bitmap) types -> 0 <= t' ->
  has_bit (fold_left set_bit types bitmap) t' = bool_decide (t' ∈ types) || has_bit bitmap t' /\
  len (fold_left set_bit types bitmap) = len bitmap.
Proof.
  intros Hts Ht'. revert bitmap Hts. induction types as [|t types IH]; intros bitmap Hts; cbn.
  { split; [|done]. rewrite bool_decide_false; [done|apply not_elem_of_nil]. }
  inversion Hts as [|? ? [Ht Hl] Hts']; subst.
  assert (Hsl : len (set_bit bitmap t) = len bitmap)
    by (unfold set_bit; rewrite !len_nat; by rewrite length_alter).
  destruct (IH (set_bit bitmap t)) as [IH1 IH2]; [by rewrite Hsl|].
  rewrite IH1, IH2, set_bit_spec by done. split; [|done].
  rewrite orb_assoc. f_equal. rewrite (orb_comm _ (t =? t')).
  destruct (Z.eqb_spec t t') as [->|Hne]; cbn.
  - symmetry. apply bool_decide_true. apply list_elem_of_here.
  - apply bool_decide_ext. rewrite elem_of_cons. naive_solver.
Qed.

Lemma foldr_max_le types t : t ∈ types -> t <= foldr Z.max 0 types.
Proof. induction 1 as [t ts|t u ts _ IH]; cbn; lia. Qed.

Lemma foldr_max_bound types n : 0 <= n -> Forall (fun t => t <= n) types -> 0 <= foldr Z.max 0 types <= n.
Proof. intros Hn. induction 1; cbn; lia. Qed.

(** ** Properties *)

(** A packet from any device is read in bounded time and space.  The name loop ends within
    its fuel from every position of every packet, compression-pointer loops included; and a
    message that is accepted has at most 64 questions and 128 records, whose names are UTF-8 of
    at most 255 bytes and whose data is the packet's bytes at the recorded offset. *)
Theorem mdns_parse_bounded packet :
  (forall pos, 0 <= pos -> Reader.name_loop Reader.name_fuel packet pos 0 None [] <> None) /\
  (forall m, parse packet = Some m ->
     len (questions m) <= 64 /\ len (records m) <= 128 /\
     Forall (fun q => wf_name (q_name q)) (questions m) /\
     Forall (fun x => wf_name (r_name x) /\
       slice packet (rdata_at x) (rdata_at x + len (rdata x)) = Some (rdata x)) (records m)).
Proof.
  split; [intros pos Hp; by apply (name_total (Reader.mk packet pos))|].
  intros m. unfold parse. intros ([? r1] & Hr1 & H)%opt_bind_Some.
  apply opt_bind_Some in H as ([? r2] & Hr2 & H). apply opt_bind_Some in H as ([qd r3] & Hr3 & H).
  apply opt_bind_Some in H as ([an r4] & Hr4 & H). apply opt_bind_Some in H as ([ns r5] & Hr5 & H).
  apply opt_bind_Some in H as ([ar r6] & Hr6 & H).
  apply u16_pos in Hr1 as (? & ? & ?); [|done]. apply u16_pos in Hr2 as (? & ? & ?); [|done].
  apply u16_pos in Hr3 as (? & ? & ?); [|done]. apply u16_pos in Hr4 as (? & ? & ?); [|done].
  apply u16_pos in Hr5 as (? & ? & ?); [|done]. apply u16_pos in Hr6 as (? & ? & ?); [|done].
  destruct (Z.ltb_spec 64 qd); [discriminate H|].
  apply opt_bind_Some in H as ([qs r7] & Hr7 & H).
  destruct (Z.ltb_spec 128 (an + ns + ar)); [discriminate H|].
  apply opt_bind_Some in H as ([rs r8] & Hr8 & H). injection H as <-. cbn [questions records].
  apply read_questions_wf in Hr7 as (Hq & Hqs & ? & Hb); [|done].
  apply read_records_wf in Hr8 as (Hr & Hrs); [|done].
  rewrite !len_nat, Hq, Hr. split; [lia|]. split; [lia|]. split; [done|].
  assert (Hsame : Reader.buf r7 = packet).
  { transitivity (Reader.buf (Reader.new packet)); [congruence|done]. }
  by rewrite Hsame in Hrs.
Qed.

(** What we announce is what a peer reads.  A response of up to 128 records parses back to
    records with the names, types, lifetimes and data it was built from, in order; a query
    parses back to its one question. *)
Theorem mdns_roundtrip (answers : list Answer) service labels unicast :
  Forall wf_answer answers -> len answers <= 128 -> fits (response (write <$> answers)) ->
  Forall wf_label (service :: labels) -> len (dotted (service :: labels)) <= MAX_NAME ->
  fits (query_with (dotted (service :: labels)) unicast) ->
  (exists rs, parse (response (write <$> answers)) = Some (mkMessage [] rs) /\
     Forall2 (says (response (write <$> answers))) rs answers) /\
  parse (query_with (dotted (service :: labels)) unicast)
    = Some (mkMessage [mkQuestion (dotted (service :: labels)) TYPE_PTR] []).
Proof. intros. split; [by apply parse_response|by apply parse_query]. Qed.

Definition toy_answer : Answer :=
  mkAnswer [str "host"; str "local"] TYPE_AAAA 120 (replicate 16 (to_u8 1)) true.

Lemma mdns_roundtrip_witness :
  (exists rs, parse (response [write toy_answer]) = Some (mkMessage [] rs) /\
     Forall2 (says (response [write toy_answer])) rs [toy_answer]) /\
  parse (query_with (str "_airdrop._tcp.local") true)
    = Some (mkMessage [mkQuestion (str "_airdrop._tcp.local") TYPE_PTR] []).
Proof.
  apply (mdns_roundtrip [toy_answer] (str "_airdrop") [str "_tcp"; str "local"] true).
  - repeat constructor; cbn; try (vm_compute; congruence); discriminate.
  - vm_compute. discriminate.
  - vm_compute. discriminate.
  - repeat constructor; vm_compute; first [reflexivity|discriminate].
  - vm_compute. discriminate.
  - vm_compute. discriminate.
Defined.

(** An NSEC answer claims exactly the types it is given: for types below 256 the data is
    the next name, window 0, the bitmap's length and a bitmap in which bit [t], most significant
    first, is set if and only if [t] is one of the types; no index leaves the bitmap. *)
Theorem nsec_claims_exactly next_name types :
  Forall (fun t => 0 <= t < 256) types ->
  exists bitmap,
    nsec_rdata next_name types
      = encode_name next_name ++ [to_u8 0; to_u8 (len bitmap)] ++ bitmap /\
    1 <= len bitmap <= 32 /\
    forall t, 0 <= t -> has_bit bitmap t = bool_decide (t ∈ types).
Proof.
  intros Hts. unfold nsec_rdata. set (m := foldr Z.max 0 types).
  assert (Hm : 0 <= m <= 255).
  { apply foldr_max_bound; [lia|]. eapply Forall_impl; [exact Hts|]. cbn. lia. }
  assert (Hd : 0 <= m / 8 <= 31).
  { split; [apply Z.div_pos; lia|]. assert (m / 8 < 32) by (apply Z.div_lt_upper_bound; lia). lia. }
  set (zero := replicate (Z.to_nat (m / 8 + 1)) (to_u8 0)).
  assert (Hz : len zero = m / 8 + 1) by (unfold zero; rewrite len_replicate; lia).
  assert (Hok : Forall (fun t => 0 <= t /\ t / 8 < len zero) types).
  { rewrite Hz, Forall_forall in *. intros t Ht. pose proof (foldr_max_le types t Ht).
    split; [by apply Hts|]. assert (t / 8 <= m / 8) by (apply Z.div_le_mono; [lia|done]). lia. }
  exists (fold_left set_bit types zero).
  destruct (set_bits zero types 0 Hok ltac:(lia)) as [_ Hl]. rewrite Hl, Hz.
  split; [done|]. split; [lia|]. intros t Ht.
  destruct (set_bits zero types t Hok Ht) as [-> _].
  replace (has_bit zero t) with false; [by rewrite orb_false_r|].
  unfold has_bit, zero. destruct (replicate _ _ !! _) as [b|] eqn:Hb; [|done].
  apply lookup_replicate in Hb as [-> _]. symmetry. apply Z.bits_0.
Qed.

Lemma nsec_claims_exactly_witness :
  exists bitmap,
    nsec_rdata (str "host.local") [TYPE_AAAA; TYPE_NSEC]
      = encode_name (str "host.local") ++ [to_u8 0; to_u8 (len bitmap)] ++ bitmap.
Proof.
  destruct (nsec_claims_exactly (str "host.local") [TYPE_AAAA; TYPE_NSEC]) as (bm & H & _).
  - repeat constructor; discriminate.
  - by exists bm.
Defined.
