(* ===== verification/Endpoint.v ===== *)
(** * Quick Share endpoint info ([sharingd/src/quickshare/endpoint.rs])

    The payload that carries a device's name and type.  A name that does not fit its length
    byte is cut, and what is cut off never splits a character. *)

From S2P Require Import Prelude Utf8.

Definition SERVICE_ID : list byte := str "NearbySharing".
Definition SERVICE_TYPE : list byte := str "_FC9F5ED42C8A._tcp.local".
Definition HEADER_LEN : Z := 1.
Definition METADATA_LEN : Z := 16.
Definition VERSION_SHIFT : Z := 5.
Definition VISIBILITY_SHIFT : Z := 4.
Definition DEVICE_TYPE_SHIFT : Z := 1.
Definition THREE_BIT : Z := 7.

Module DeviceType.
Inductive t : Type := Unknown | Phone | Tablet | Laptop | Car | Foldable | Xr.
Definition from_raw (raw : Z) : t :=
  if raw =? 1 then Phone else if raw =? 2 then Tablet else if raw =? 3 then Laptop
  else if raw =? 4 then Car else if raw =? 5 then Foldable else if raw =? 6 then Xr
  else Unknown.
Definition raw (d : t) : Z :=
  match d with
  | Unknown => 0 | Phone => 1 | Tablet => 2 | Laptop => 3 | Car => 4 | Foldable => 5 | Xr => 6
  end.
End DeviceType.

Module EndpointInfo.

Record t : Type := mk {
  version : Z;
  hidden : bool;
  device_type : DeviceType.t;
  metadata : list byte;
  device_name : option (list byte)
}.

(** [while cut > 0 && (n[cut] & 0xC0) == 0x80 { cut -= 1 }]. *)
Fixpoint cut_back (cut : nat) (n : list byte) : nat :=
  match cut with
  | O => O
  | S cut' =>
      match n !! cut with
      | Some b => if Z.land (u8 b) 0xC0 =? 0x80 then cut_back cut' n else cut
      | None => cut
      end
  end.

(** The name as it fits the length byte. *)
Definition truncate (n : list byte) : list byte :=
  if 0xFF <? len n then take (cut_back 255 n) n else n.

Definition encode (self : t) : list byte :=
  let name := if hidden self then [] else unwrap_or (device_name self) [] in
  let header := Z.lor (Z.lor (Z.shiftl (Z.land (version self) THREE_BIT) VERSION_SHIFT)
                             (Z.shiftl (bool_u64 (hidden self)) VISIBILITY_SHIFT))
                      (Z.shiftl (Z.land (DeviceType.raw (device_type self)) THREE_BIT)
                                DEVICE_TYPE_SHIFT) in
  let out := [to_u8 header] ++ metadata self in
  if negb (hidden self) then
    let n := truncate name in out ++ [to_u8 (len n)] ++ n
  else out.

Definition parse (bytes : list byte) : option t :=
  if len bytes <? HEADER_LEN + METADATA_LEN then None
  else
    let^ header := head bytes in
    let header := u8 header in
    let hidden := Z.land (Z.shiftr header VISIBILITY_SHIFT) 1 =? 1 in
    let metadata := sub_range bytes HEADER_LEN (HEADER_LEN + METADATA_LEN) in
    let device_name :=
      if negb hidden then
        let off := HEADER_LEN + METADATA_LEN in
        let^ n := get bytes off in
        let start := off + 1 in
        let stop := start + u8 n in
        if stop <=? len bytes then Some (from_utf8_lossy (sub_range bytes start stop)) else None
      else None in
    Some (mk (Z.land (Z.shiftr header VERSION_SHIFT) THREE_BIT) hidden
            (DeviceType.from_raw (Z.land (Z.shiftr header DEVICE_TYPE_SHIFT) THREE_BIT))
            metadata device_name).

End EndpointInfo.

(** ** Lemmas *)

(** The bytes of a character after its first are continuation bytes. *)
Lemma scan_cont b l n i x :
  scan b l = (true, n) -> (i < n)%nat -> l !! i = Some x -> Z.land (u8 x) 0xC0 = 0x80.
Proof.
  intros Hs Hi Hx.
  assert (Hc : cont x = true).
  { unfold scan in Hs.
    assert (H3 : forall a c, second3 a c = true -> cont c = true).
    { intros a c. unfold second3, cont, in_range. lia. }
    assert (H4 : forall a c, second4 a c = true -> cont c = true).
    { intros a c. unfold second4, cont, in_range. lia. }
    repeat (case_match; try (exfalso; congruence)); injection Hs as <-; try lia;
      destruct i as [|[|[|i]]]; cbn in Hx; try lia; simplify_eq; eauto. }
  clear -Hc. unfold cont, in_range in Hc. destruct x; first [done|cbn in Hc; lia].
Qed.

Lemma take_split {A} (l : list A) k n :
  (k <= n)%nat -> take n l = take k l ++ take (n - k) (drop k l).
Proof.
  intros Hk. rewrite <- (take_drop k (take n l)), take_take, Nat.min_l by done.
  by rewrite skipn_firstn_comm.
Qed.

(** A prefix that ends where a character starts is a string. *)
Lemma valid_take l n :
  valid l = true ->
  (forall x, l !! n = Some x -> Z.land (u8 x) 0xC0 <> 0x80) -> valid (take n l) = true.
Proof.
  revert n. induction l as [[|b l] IH] using length_ind; intros n Hv Hn; [by rewrite take_nil|].
  destruct n as [|n]; [done|]. rewrite valid_cons in Hv.
  destruct (scan b l) as [g k] eqn:Hs. apply andb_true_iff in Hv as [-> Hv].
  destruct (scan_good _ _ _ Hs) as [Hk _]. cbn [lookup list_lookup] in Hn.
  destruct (decide (n < k)%nat) as [Hlt|Hge].
  { exfalso. destruct (lookup_lt_is_Some_2 l n) as [x Hx]; [lia|].
    apply (Hn x Hx). by eapply scan_cont. }
  cbn [take]. rewrite (take_split l k n) by lia.
  rewrite app_comm_cons. apply valid_good_app; [done|].
  apply IH; [cbn; rewrite length_drop; lia|done|].
  intros x. rewrite lookup_drop. replace (k + (n - k))%nat with n by lia. apply Hn.
Qed.

Lemma cut_back_le cut n : (EndpointInfo.cut_back cut n <= cut)%nat.
Proof.
  induction cut as [|cut IH]; cbn; [lia|]. destruct (n !! S cut); [|lia]. destruct (_ =? _); lia.
Qed.

Lemma cut_back_boundary cut n x :
  EndpointInfo.cut_back cut n <> 0%nat -> n !! EndpointInfo.cut_back cut n = Some x ->
  Z.land (u8 x) 0xC0 <> 0x80.
Proof.
  induction cut as [|cut IH]; cbn [EndpointInfo.cut_back]; [done|].
  destruct (n !! S cut) as [b|] eqn:Hb.
  - destruct (Z.eqb_spec (Z.land (u8 b) 0xC0) 0x80); [apply IH|]. intros _. rewrite Hb. naive_solver.
  - intros _. rewrite Hb. done.
Qed.

Lemma truncate_valid n : valid n = true -> valid (EndpointInfo.truncate n) = true.
Proof.
  intros Hv. unfold EndpointInfo.truncate. destruct (0xFF <? len n); [|done].
  destruct (decide (EndpointInfo.cut_back 255 n = 0%nat)) as [->|Hne]; [done|].
  apply valid_take; [done|]. intros x. by apply cut_back_boundary.
Qed.

Lemma truncate_len n : len (EndpointInfo.truncate n) <= 255.
Proof.
  unfold EndpointInfo.truncate. destruct (Z.ltb_spec 0xFF (len n)); [|lia].
  rewrite len_take. pose proof (cut_back_le 255 n). lia.
Qed.

(** The header's fields do not overlap. *)
Lemma header_fields v h d :
  0 <= v < 8 ->
  let b := u8 (to_u8 (Z.lor (Z.lor (Z.shiftl (Z.land v 7) 5) (Z.shiftl (bool_u64 h) 4))
                            (Z.shiftl (Z.land (DeviceType.raw d) 7) 1))) in
  (Z.land (Z.shiftr b 4) 1 =? 1) = h /\ Z.land (Z.shiftr b 5) 7 = v /\
  DeviceType.from_raw (Z.land (Z.shiftr b 1) 7) = d.
Proof.
  intros Hv. assert (Hc : v = 0 \/ v = 1 \/ v = 2 \/ v = 3 \/ v = 4 \/ v = 5 \/ v = 6 \/ v = 7) by lia.
  destruct Hc as [->|[->|[->|[->|[->|[->|[->| ->]]]]]]]; destruct h, d; vm_compute; done.
Qed.

(** ** Properties *)

(** What holds of an [EndpointInfo] the types allow: a three-bit version, 16 metadata bytes, a
    name that is a string. *)
Definition wf_info (i : EndpointInfo.t) : Prop :=
  0 <= EndpointInfo.version i < 8 /\ len (EndpointInfo.metadata i) = 16 /\
  (forall n, EndpointInfo.device_name i = Some n -> valid n = true).

(** Endpoint info round-trips, whatever TLV records follow it: version, visibility, type and
    metadata exactly; a hidden device has no name; a visible one has its name, cut to at most
    255 bytes and still valid UTF-8, and uncut if it fits. *)
Theorem endpoint_roundtrip (i : EndpointInfo.t) tlv :
  wf_info i ->
  let name := EndpointInfo.truncate (unwrap_or (EndpointInfo.device_name i) []) in
  EndpointInfo.parse (EndpointInfo.encode i ++ tlv) =
    Some (EndpointInfo.mk (EndpointInfo.version i) (EndpointInfo.hidden i)
            (EndpointInfo.device_type i) (EndpointInfo.metadata i)
            (if EndpointInfo.hidden i then None else Some name)) /\
  valid name = true /\ len name <= 255 /\
  (len (unwrap_or (EndpointInfo.device_name i) []) <= 255 ->
   name = unwrap_or (EndpointInfo.device_name i) []) /\
  name `prefix_of` unwrap_or (EndpointInfo.device_name i) [].
Proof.
  destruct i as [v h d md nm]. intros (Hv & Hm & Hn) name. cbn in *.
  assert (Hvn : valid (unwrap_or nm []) = true) by (destruct nm; [by apply Hn|done]).
  pose proof (truncate_len (unwrap_or nm [])) as Hl. pose proof (truncate_valid _ Hvn) as Hvt.
  fold name in Hl, Hvt. split; [|split; [done|split; [done|split]]].
  - destruct (header_fields v h d Hv) as (Hh & Hver & Hty).
    unfold EndpointInfo.encode, EndpointInfo.parse.
    cbn [EndpointInfo.version EndpointInfo.hidden EndpointInfo.device_type EndpointInfo.metadata
         EndpointInfo.device_name]. unfold THREE_BIT, VERSION_SHIFT, VISIBILITY_SHIFT,
      DEVICE_TYPE_SHIFT, HEADER_LEN, METADATA_LEN.
    set (b := to_u8 _) in *. pose proof (len_nonneg tlv). pose proof (len_nonneg name).
    destruct h; cbn [negb].
    + rewrite <- app_assoc.
      rewrite (proj2 (Z.ltb_ge (len ([b] ++ md ++ tlv)) _)) by (simpl_len; lia).
      rewrite (sub_range_mid [b] md tlv) by (simpl_len; lia).
      cbn [app head opt_bind]. by rewrite Hh, Hver, Hty.
    + fold name. rewrite <- !app_assoc.
      assert (Hlen : len ([b] ++ md ++ [to_u8 (len name)] ++ name ++ tlv)
                     = 18 + len name + len tlv) by (simpl_len; lia).
      rewrite Hlen, (proj2 (Z.ltb_ge _ _)) by lia. cbn [app head opt_bind].
      change (b :: md ++ to_u8 (len name) :: name ++ tlv)
        with ([b] ++ md ++ [to_u8 (len name)] ++ name ++ tlv).
      rewrite Hh, Hver, Hty. cbn [negb]. rewrite sub_range_mid by (simpl_len; lia).
      rewrite (app_assoc [b]), get_app_pos by (simpl_len; lia). cbn [head app opt_bind].
      rewrite u8_to_u8_small by lia. rewrite (proj2 (Z.leb_le _ _)).
      2:{ change (to_u8 (len name) :: name ++ tlv) with ([to_u8 (len name)] ++ name ++ tlv).
          simpl_len. lia. }
      replace (b :: md ++ to_u8 (len name) :: name ++ tlv)
        with (([b] ++ md ++ [to_u8 (len name)]) ++ name ++ tlv) by (by rewrite <- !app_assoc).
      rewrite sub_range_mid by (simpl_len; lia).
      by rewrite lossy_valid.
  - intros Hs. unfold name, EndpointInfo.truncate. by rewrite (proj2 (Z.ltb_ge _ _)).
  - unfold name, EndpointInfo.truncate. destruct (_ <? _); [apply prefix_take|done].
Qed.

Lemma endpoint_roundtrip_witness :
  EndpointInfo.parse (EndpointInfo.encode
    (EndpointInfo.mk 1 false DeviceType.Phone (replicate 16 (to_u8 7)) (Some (str "Pixel")))
    ++ [to_u8 1; to_u8 0])
  = Some (EndpointInfo.mk 1 false DeviceType.Phone (replicate 16 (to_u8 7)) (Some (str "Pixel"))).
Proof.
  apply (endpoint_roundtrip (EndpointInfo.mk 1 false DeviceType.Phone (replicate 16 (to_u8 7))
    (Some (str "Pixel"))) [to_u8 1; to_u8 0]).
  split; [cbn; lia|]. split; [reflexivity|]. intros n [= <-]. reflexivity.
Defined.
