(* ===== verification/Stream.v ===== *)
(** * Frames on a live connection ([sharingd/src/quickshare/connection.rs], its I/O half)

    What the daemon does with sockets, clocks and people is a [World]: a class of operations on
    an abstract state, one per call the session code makes.  The session code itself runs in a
    monad over its mutable state, which records every effect in a trace. *)

From S2P Require Import Prelude Utf8 Crypto Framing Frames Sharing Channel.

(** The kinds of [io::Error] the code makes or passes on; messages are not modelled. *)
Inductive IoError : Type := InvalidData | UnexpectedEof | OsError.

(** What one [read] of a socket returns; an exhausted list is a closed connection. *)
Inductive Read : Type :=
| Data (b : list byte)
| ReadError.

Record WifiGroup : Type := mkWifiGroup {
  ssid : list byte;
  passphrase : list byte;
  go_address : list byte;
  frequency : Z
}.

(** The one-way calls: to the registered clients ([onTransferOffered], [onTransferProgress]), to
    the transfer table, and the traits' [progress] and [discard]. *)
Inductive Notice (socket : Type) : Type :=
| Offered (id : Z) (peer : list byte) (names : list (list byte)) (total : Z)
| Progressed (done total : Z)
| Reported (id done total : Z)
| ArmAbort (id : Z) (s : socket)
| Finished (id : Z)
| Discarded.
Arguments Offered {_}. Arguments Progressed {_}. Arguments Reported {_}. Arguments ArmAbort {_}.
Arguments Finished {_}. Arguments Discarded {_}.

(** [TcpListener::accept] of a non-blocking listener. *)
Inductive AcceptResult (socket : Type) : Type :=
| Joined (s : socket)
| WouldBlock
| AcceptError.
Arguments Joined {_}. Arguments WouldBlock {_}. Arguments AcceptError {_}.

(** Sockets, the clock, and what both traits ([Host] and [Progress]) offer.  A deadline is the
    number of rounds of the waiting loop that fit before it. *)
Class World : Type := {
  world : Type;
  socket : Type;
  incoming : socket -> list Read;
  write_all : socket -> list byte -> world -> bool * world;
  ready_within : world -> option bool * world;
  rounds : world -> nat * world;
  try_clone : socket -> world -> bool * world;
  cancelled : world -> bool * world;
  notice : Notice socket -> world -> world
}.

(** The rest of the trait [Host] of the receiving side, and its listener. *)
Class Host `{World} : Type := {
  sink : Type;
  id : Z;
  ask : Z -> list byte -> list FileMetadata -> world -> bool * world;
  create : list byte -> world -> option sink * world;
  sink_write : sink -> list byte -> world -> bool * world;
  sink_flush : sink -> world -> bool * world;
  host_group : world -> option WifiGroup * world;
  worker_finished : world -> bool * world;
  bind : world -> bool * world;
  local_port : world -> option Z * world;
  accept : world -> AcceptResult socket * world
}.

(** What an observer of the daemon sees: bytes on a socket, one-way calls; of the receiving
    side the question put to the user and what happens to files; of the sending side the
    peer's frames, the PIN check, the addresses dialled and the chunks of files. *)
Inductive Obs `{World} : Type :=
| Wrote (s : socket) (b : list byte)
| Noticed (n : Notice socket)
| Asked (id : Z) (peer : list byte) (files : list FileMetadata) (answer : bool)
| Opened (id : Z) (name : list byte)
| Stored (id : Z) (b : list byte)
| PeerSaid (f : Sharing.Frame)
| PinChecked (answer : bool)
| Dialled (ip : list byte) (port : Z)
| SentChunk (id offset : Z) (b : list byte).

(** ** The monad *)

(** Mutable state [S], and [io::Result]. *)
Definition M (S A : Type) : Type := S -> result A IoError * S.

Definition ret {S A} (a : A) : M S A := fun s => (Ok a, s).
Definition throw {S A} (e : IoError) : M S A := fun s => (Err e, s).
Definition mbind {S A B} (m : M S A) (k : A -> M S B) : M S B :=
  fun s => match m s with
           | (Ok a, s) => k a s
           | (Err e, s) => (Err e, s)
           end.
(** The result as a value: the error is handled by the caller. *)
Definition attempt {S A} (m : M S A) : M S (result A IoError) :=
  fun s => let (r, s) := m s in (Ok r, s).
(** [r?]. *)
Definition lift {S A} (r : result A IoError) : M S A := fun s => (r, s).
(** [r.map_err(bad)?], [r.map_err(chan)?]. *)
Definition invalid {S A E} (r : result A E) : M S A :=
  match r with Ok a => ret a | Err _ => throw InvalidData end.

Notation "'let!' x ':=' m 'in' k" := (mbind m (fun x => k))
  (at level 10, x pattern, m at level 100, k at level 200,
   format "'[v' 'let!'  x  ':='  m  'in' '/' k ']'") : rust_scope.
Notation "'do!' m 'in' k" := (mbind m (fun _ => k))
  (at level 10, m at level 100, k at level 200,
   format "'[v' 'do!'  m  'in' '/' k ']'") : rust_scope.

Section Stream.
Context `{World} `{Rand}.

(** What every part of a session can reach: where it writes, the world, the generator. *)
Record Link : Type := mkLink {
  out : socket;
  wld : world;
  gen : rng;
  trace : list Obs
}.

Definition emit (o : Obs) (l : Link) : Link := mkLink (out l) (wld l) (gen l) (trace l ++ [o]).

(** A call of the world. *)
Definition ask_world {A} (f : world -> A * world) : M Link A :=
  fun l => let (a, w) := f (wld l) in (Ok a, mkLink (out l) w (gen l) (trace l)).

Definition log (o : Obs) : M Link unit := fun l => (Ok tt, emit o l).

Definition notify (n : Notice socket) : M Link unit :=
  do! ask_world (fun w => (tt, notice n w)) in log (Noticed n).

(** [write_frame], to a given socket. *)
Definition write_frame_to (s : socket) (payload : list byte) : M Link unit :=
  let! okay := ask_world (write_all s (Framing.encode payload)) in
  if okay then log (Wrote s (Framing.encode payload)) else throw OsError.

Definition write_frame (payload : list byte) : M Link unit :=
  fun l => write_frame_to (out l) payload l.

End Stream.

(** ** [Frames<S>]: reading *)

Module FrameStream.

Record t : Type := mk { stream : list Read; decoder : Decoder.t }.

Definition new (stream : list Read) : t := mk stream Decoder.new.

(** The [loop] of [next]. *)
Fixpoint next_loop (stream : list Read) (d : Decoder.t) : result (list byte) IoError * t :=
  match Decoder.next_frame d with
  | (Ok (Some f), d) => (Ok f, mk stream d)
  | (Err _, d) => (Err InvalidData, mk stream d)
  | (Ok None, d) =>
      match stream with
      | [] => (Err UnexpectedEof, mk [] d)
      | ReadError :: stream => (Err OsError, mk stream d)
      | Data b :: stream =>
          if is_empty b then (Err UnexpectedEof, mk stream d)
          else next_loop stream (Decoder.push b d)
      end
  end.

Definition next (f : t) : result (list byte) IoError * t := next_loop (stream f) (decoder f).

(** The [loop] of [next_within]; [n] rounds fit before the deadline. *)
Fixpoint next_within_loop `{World} (n : nat) (stream : list Read) (d : Decoder.t) (w : world)
    : result (option (list byte)) IoError * t * world :=
  match Decoder.next_frame d with
  | (Ok (Some f), d) => (Ok (Some f), mk stream d, w)
  | (Err _, d) => (Err InvalidData, mk stream d, w)
  | (Ok None, d) =>
      match n with
      | O => (Ok None, mk stream d, w)
      | S n =>
          match ready_within w with
          | (None, w) => (Err OsError, mk stream d, w)
          | (Some false, w) => (Ok None, mk stream d, w)
          | (Some true, w) =>
              match stream with
              | [] => (Err UnexpectedEof, mk [] d, w)
              | ReadError :: stream => (Err OsError, mk stream d, w)
              | Data b :: stream =>
                  if is_empty b then (Err UnexpectedEof, mk stream d, w)
                  else next_within_loop n stream (Decoder.push b d) w
              end
          end
      end
  end.

Definition next_within `{World} (f : t) (w : world)
    : result (option (list byte)) IoError * t * world :=
  let (n, w) := rounds w in next_within_loop n (stream f) (decoder f) w.

End FrameStream.

(** ** [wrap_bytes] *)

Definition wrap_bytes (next_id : Z) (frame : list byte) : Z * list (list byte) :=
  let next_id := as_i64 (next_id + 1) in
  let header := mkPayloadHeader next_id PayloadType.Bytes (as_i64 (len frame)) false [] [] in
  let data := mkPayloadChunk 0 0 frame in
  let terminator := mkPayloadChunk FLAG_LAST_CHUNK (as_i64 (len frame)) [] in
  (next_id, [payload_data header data; payload_data header terminator]).

(** ** A connection before it is encrypted *)

Section Plain.
Context `{World} `{Rand}.

Record Plain : Type := mkPlain { p_link : Link; p_input : FrameStream.t }.

Definition plain_link {A} (m : M Link A) : M Plain A :=
  fun p => let (r, l) := m (p_link p) in (r, mkPlain l (p_input p)).
Definition plain_next : M Plain (list byte) :=
  fun p => let (r, i) := FrameStream.next (p_input p) in (r, mkPlain (p_link p) i).
Definition with_gen {A E} (f : rng -> result A E * rng) : M Plain A :=
  fun p => let l := p_link p in
           let (r, g) := f (gen l) in
           invalid r (mkPlain (mkLink (out l) (wld l) g (trace l)) (p_input p)).

End Plain.

(** ** A session's channel *)

Section Conn.
Context `{World} `{Rand} `{Hmac} `{Cipher} `{Memcmp}.

(** The mutable state of the encrypted conversation. *)
Record Conn : Type := mkConn {
  link : Link;
  input : FrameStream.t;
  channel : SecureChannel;
  deferred : list (list byte)
}.

Definition on_link {A} (m : M Link A) : M Conn A :=
  fun c => let (r, l) := m (link c) in (r, mkConn l (input c) (channel c) (deferred c)).

(** [channel.encrypt(b).map_err(chan)?]. *)
Definition encrypt_ (b : list byte) : M Conn (list byte) :=
  fun c =>
    let l := link c in
    let '(r, ch, g) := Channel.encrypt b (channel c) (gen l) in
    invalid r (mkConn (mkLink (out l) (wld l) g (trace l)) (input c) ch (deferred c)).

(** [channel.decrypt(&wire).map_err(chan)?]. *)
Definition decrypt_ (wire : list byte) : M Conn (list byte) :=
  fun c =>
    let (r, ch) := Channel.decrypt wire (channel c) in
    invalid r (mkConn (link c) (input c) ch (deferred c)).

(** [write_frame(&mut out, &channel.encrypt(&b).map_err(chan)?)?]. *)
Definition send_frame (b : list byte) : M Conn unit :=
  let! wire := encrypt_ b in on_link (write_frame wire).

(** [input.next()?]. *)
Definition next_ : M Conn (list byte) :=
  fun c =>
    let (r, i) := FrameStream.next (input c) in
    (r, mkConn (link c) i (channel c) (deferred c)).

(** [input.next_within(d)?]. *)
Definition next_within_ : M Conn (option (list byte)) :=
  fun c =>
    let l := link c in
    let '(r, i, w) := FrameStream.next_within (input c) (wld l) in
    (r, mkConn (mkLink (out l) w (gen l) (trace l)) i (channel c) (deferred c)).

(** [deferred.push_back(plain)], [deferred.pop_front()]. *)
Definition push_deferred (plain : list byte) : M Conn unit :=
  fun c => (Ok tt, mkConn (link c) (input c) (channel c) (deferred c ++ [plain])).
Definition pop_deferred : M Conn (option (list byte)) :=
  fun c => match deferred c with
           | [] => (Ok None, c)
           | p :: ps => (Ok (Some p), mkConn (link c) (input c) (channel c) ps)
           end.

(** [*input = new_in; *out = new_out]. *)
Definition swap (i : FrameStream.t) (s : socket) : M Conn unit :=
  fun c => let l := link c in
           (Ok tt, mkConn (mkLink s (wld l) (gen l) (trace l)) i (channel c) (deferred c)).

(** The next frame off a new socket, if it comes in time. *)
Definition next_of (i : FrameStream.t) : M Conn (option (list byte) * FrameStream.t) :=
  on_link (let! (r, i) := ask_world (fun w => let '(r, i, w) := FrameStream.next_within i w in
                                              ((r, i), w)) in
           let! f := lift r in ret (f, i)).

(** [for wire in wrap_bytes(&mut next_payload_id, &frame) { send it }]. *)
Fixpoint send_each (bs : list (list byte)) : M Conn unit :=
  match bs with
  | [] => ret tt
  | b :: bs => do! send_frame b in send_each bs
  end.

End Conn.

(** ** Reasoning about effects

    What a computation does to the trace, whatever the rest of the state. *)

Class Traced `{World} (S : Type) : Type := trace_of : S -> list Obs.

#[export] Instance traced_link `{World} `{Rand} : Traced Link := trace.
#[export] Instance traced_plain `{World} `{Rand} : Traced Plain := fun p => trace (p_link p).
#[export] Instance traced_conn `{World} `{Rand} : Traced Conn := fun c => trace (link c).

Section Logic.
Context `{World}.

(** What may follow what: every observation is allowed after those before it. *)
Definition obeys (allowed : list Obs -> Obs -> Prop) (tr : list Obs) : Prop :=
  forall pre o post, tr = pre ++ o :: post -> allowed pre o.

Lemma obeys_nil allowed : obeys allowed [].
Proof. intros pre o post Heq. by destruct pre. Qed.

Lemma obeys_snoc allowed tr o : obeys allowed tr -> allowed tr o -> obeys allowed (tr ++ [o]).
Proof.
  intros Htr Ho pre o' post Heq. destruct post as [|x post _] using rev_ind.
  - apply app_inj_tail in Heq as [-> ->]. done.
  - rewrite app_comm_cons, app_assoc in Heq. apply app_inj_tail in Heq as [-> _]. by eapply Htr.
Qed.

Context {S : Type} `{!Traced S}.

(** Started where [P] holds of the trace, [m] ends where [Q a] does if it returns [a], and
    where [E] does if it fails. *)
Definition triple {A} (P : list Obs -> Prop) (m : M S A)
    (Q : A -> list Obs -> Prop) (E : list Obs -> Prop) : Prop :=
  forall s, P (trace_of s) ->
  match m s with
  | (Ok a, s') => Q a (trace_of s')
  | (Err _, s') => E (trace_of s')
  end.

(** Writing and one-way calls. *)
Definition quiet (o : Obs) : Prop :=
  match o with Wrote _ _ | Noticed _ => True | _ => False end.

(** Whatever [m] adds to the trace satisfies [Q]. *)
Definition emits (Q : Obs -> Prop) {A} (m : M S A) : Prop :=
  forall s, exists l, trace_of (snd (m s)) = trace_of s ++ l /\ Forall Q l.

Definition stable (Q : Obs -> Prop) (P : list Obs -> Prop) : Prop :=
  forall tr o, P tr -> Q o -> P (tr ++ [o]).

Lemma stable_app Q P tr l : stable Q P -> P tr -> Forall Q l -> P (tr ++ l).
Proof.
  intros HP Htr Hl. revert tr Htr. induction Hl as [|o l Ho _ IH]; intros tr Htr.
  - by rewrite app_nil_r.
  - change (o :: l) with ([o] ++ l). rewrite (app_assoc tr [o] l). apply IH. by apply HP.
Qed.

Lemma triple_ret {A} (a : A) P Q E : (forall tr, P tr -> Q a tr) -> triple P (ret a : M S A) Q E.
Proof. intros HQ s. apply HQ. Qed.

Lemma triple_throw {A} e P (Q : A -> _) E :
  (forall tr, P tr -> E tr) -> triple P (throw e : M S A) Q E.
Proof. intros HE s. apply HE. Qed.

Lemma triple_bind {A B} (m : M S A) (k : A -> M S B) P R Q E :
  triple P m R E -> (forall a, triple (R a) (k a) Q E) -> triple P (mbind m k) Q E.
Proof.
  intros Hm Hk s HP. unfold mbind. specialize (Hm s HP).
  destruct (m s) as [[a|e] s']; [|done]. apply (Hk a s' Hm).
Qed.

Lemma triple_pre {A} (m : M S A) P P' Q E :
  (forall tr, P tr -> P' tr) -> triple P' m Q E -> triple P m Q E.
Proof. intros HP Hm s Hs. apply Hm, HP, Hs. Qed.

(** A fact that is not about the trace. *)
Lemma triple_assume {A} (m : M S A) (F : Prop) P Q E :
  (F -> triple P m Q E) -> triple (fun tr => P tr /\ F) m Q E.
Proof. intros Hm s [HP HF]. by apply (Hm HF s). Qed.

Lemma triple_emits {A} (m : M S A) Q P E :
  emits Q m -> stable Q P -> (forall tr, P tr -> E tr) -> triple P m (fun _ => P) E.
Proof.
  intros Hm HP HE s Hs. destruct (Hm s) as (l & Hl & Hq).
  destruct (m s) as [[a|e] s']; cbn [snd] in Hl; rewrite Hl; [|apply HE];
    by apply (stable_app Q).
Qed.

(** A quiet step before the rest. *)
Lemma triple_skip {A B} (m : M S A) (k : A -> M S B) R P Q E :
  emits R m -> stable R P -> (forall tr, P tr -> E tr) -> (forall a, triple P (k a) Q E) ->
  triple P (mbind m k) Q E.
Proof. intros Hm HP HE Hk. by eapply triple_bind; [eapply triple_emits|]. Qed.

Lemma triple_invalid {A E'} (r : result A E') P Q E :
  (forall a, r = Ok a -> forall tr, P tr -> Q a tr) -> (forall tr, P tr -> E tr) ->
  triple P (invalid r : M S A) Q E.
Proof. intros HQ HE. destruct r; [by apply triple_ret, HQ|by apply triple_throw]. Qed.

Section Emits.
Context (Q : Obs -> Prop).

Lemma emits_lift {A} (r : result A IoError) : emits Q (lift r : M S A).
Proof. intros s. exists []. by rewrite app_nil_r. Qed.

Lemma emits_ret {A} (a : A) : emits Q (ret a : M S A).
Proof. intros s. exists []. by rewrite app_nil_r. Qed.

Lemma emits_throw {A} e : emits Q (throw e : M S A).
Proof. intros s. exists []. by rewrite app_nil_r. Qed.

Lemma emits_invalid {A E} (r : result A E) : emits Q (invalid r : M S A).
Proof. destruct r; [apply emits_ret|apply emits_throw]. Qed.

Lemma emits_bind {A B} (m : M S A) (k : A -> M S B) :
  emits Q m -> (forall a, emits Q (k a)) -> emits Q (mbind m k).
Proof.
  intros Hm Hk s. unfold mbind. destruct (Hm s) as (l & Hl & Hq).
  destruct (m s) as [[a|e] s']; cbn [snd] in Hl; [|by exists l].
  destruct (Hk a s') as (l' & Hl' & Hq'). exists (l ++ l').
  rewrite Hl', Hl, app_assoc. split; [done|by apply Forall_app_2].
Qed.

Lemma emits_attempt {A} (m : M S A) : emits Q m -> emits Q (attempt m).
Proof.
  intros Hm s. unfold attempt. destruct (Hm s) as (l & Hl & Hq).
  destruct (m s) as [r s']. by exists l.
Qed.

(** A step that leaves the trace alone. *)
Lemma emits_same {A} (m : M S A) :
  (forall s, trace_of (snd (m s)) = trace_of s) -> emits Q m.
Proof. intros Hm s. exists []. rewrite app_nil_r. by split; [apply Hm|]. Qed.

Lemma emits_weaken {A} (m : M S A) (R : Obs -> Prop) :
  (forall o, R o -> Q o) -> emits R m -> emits Q m.
Proof.
  intros HR Hm s. destruct (Hm s) as (l & Hl & HQ). exists l. split; [done|].
  by eapply Forall_impl.
Qed.

End Emits.

End Logic.

(** The effects every part of a session may have. *)
Notation quietly m := (emits quiet m).

Create HintDb quietly.
#[export] Hint Resolve emits_ret emits_lift emits_throw emits_invalid : quietly.

(** Walk through a computation all of whose steps emit what is allowed: by a hint, or because
    they are quiet and that is allowed. *)
Ltac quietly :=
  lazymatch goal with
  | |- emits _ (mbind _ _) => apply emits_bind; [quietly|intros; quietly]
  | |- emits _ (attempt _) => apply emits_attempt; quietly
  | |- emits _ (if ?b then _ else _) => destruct b; quietly
  | |- emits _ (match ?x with _ => _ end) => destruct x; quietly
  | |- _ => first
      [ solve [auto with quietly]
      | apply emits_weaken with (R := quiet); [solve [auto with quietly]|solve [auto with quietly]]
      | idtac ]
  end.

Section Quiet.
Context `{World} `{Rand} `{Hmac} `{Cipher} `{Memcmp}.

Lemma quietly_ask_world {A} (f : world -> A * world) : quietly (ask_world f : M Link A).
Proof. apply emits_same. intros l. unfold ask_world. by destruct (f (wld l)). Qed.

Lemma emits_log (Q : Obs -> Prop) o : Q o -> emits Q (log o : M Link unit).
Proof. intros Ho l. exists [o]. split; [done|by constructor]. Qed.

Lemma emits_on_link Q {A} (m : M Link A) : emits Q m -> emits Q (on_link m).
Proof.
  intros Hm c. destruct (Hm (link c)) as (l & Hl & Hq). exists l.
  unfold on_link. by destruct (m (link c)).
Qed.

#[local] Hint Resolve quietly_ask_world emits_log emits_on_link : quietly.

Lemma quietly_notify n : quietly (notify n).
Proof. unfold notify. quietly. by apply emits_log. Qed.

Lemma quietly_write_frame_to s b : quietly (write_frame_to s b).
Proof. unfold write_frame_to. quietly. by apply emits_log. Qed.

Lemma quietly_write_frame b : quietly (write_frame b).
Proof. intros l. apply quietly_write_frame_to. Qed.

#[local] Hint Resolve quietly_notify quietly_write_frame_to quietly_write_frame : quietly.

Lemma quietly_plain_link {A} (m : M Link A) : quietly m -> quietly (plain_link m).
Proof.
  intros Hm p. destruct (Hm (p_link p)) as (l & Hl & Hq). exists l.
  unfold plain_link. by destruct (m (p_link p)).
Qed.

Lemma quietly_plain_next : quietly plain_next.
Proof. apply emits_same. intros p. unfold plain_next. by destruct (FrameStream.next _). Qed.

Lemma quietly_with_gen {A E} (f : rng -> result A E * rng) : quietly (with_gen f).
Proof. apply emits_same. intros p. unfold with_gen. by destruct (f _) as [[a|e] g]. Qed.

Lemma quietly_encrypt b : quietly (encrypt_ b).
Proof.
  apply emits_same. intros c. unfold encrypt_.
  destruct (Channel.encrypt b _ _) as [[[w|e] ch] g]; done.
Qed.

Lemma quietly_decrypt b : quietly (decrypt_ b).
Proof.
  apply emits_same. intros c. unfold decrypt_. by destruct (Channel.decrypt b _) as [[w|e] ch].
Qed.

Lemma quietly_next : quietly next_.
Proof. apply emits_same. intros c. unfold next_. by destruct (FrameStream.next _). Qed.

Lemma quietly_next_within : quietly next_within_.
Proof.
  apply emits_same. intros c. unfold next_within_.
  by destruct (FrameStream.next_within _ _) as [[r i] w].
Qed.

Lemma quietly_push b : quietly (push_deferred b).
Proof. by apply emits_same. Qed.

Lemma quietly_pop : quietly pop_deferred.
Proof. apply emits_same. intros c. unfold pop_deferred. by destruct (deferred c). Qed.

#[local] Hint Resolve quietly_encrypt quietly_decrypt : quietly.

Lemma quietly_send_frame b : quietly (send_frame b).
Proof. unfold send_frame. quietly. Qed.

#[local] Hint Resolve quietly_send_frame : quietly.

Lemma quietly_send_each bs : quietly (send_each bs).
Proof. induction bs; cbn [send_each]; quietly. Qed.

Lemma quietly_swap i s : quietly (swap i s).
Proof. by apply emits_same. Qed.

Lemma quietly_next_of i : quietly (next_of i).
Proof. unfold next_of. apply emits_on_link. quietly. Qed.

End Quiet.

#[export] Hint Resolve quietly_ask_world emits_on_link quietly_notify quietly_write_frame_to
  quietly_write_frame quietly_encrypt quietly_decrypt quietly_next quietly_next_within
  quietly_push quietly_pop quietly_send_frame quietly_send_each quietly_plain_link
  quietly_plain_next quietly_with_gen quietly_swap quietly_next_of : quietly.

(** ** The frames come out of the stream *)

(** The bytes a stream still has to give, in reads of any length. *)
Definition holds (i : FrameStream.t) (bs : list byte) : Prop :=
  exists chunks, FrameStream.stream i = Data <$> chunks /\ Forall (fun b => b <> []) chunks /\
    Decoder.buf (FrameStream.decoder i) ++ mjoin chunks = bs.

Lemma next_loop_delivers chunks d p rest :
  Forall (fun b => b <> []) chunks -> len p < MAX_FRAME ->
  Decoder.buf d ++ mjoin chunks = Framing.encode p ++ rest ->
  exists i, FrameStream.next_loop (Data <$> chunks) d = (Ok p, i) /\ holds i rest.
Proof.
  intros Hc Hp. revert d. induction Hc as [|b chunks Hb Hc IH]; intros d Hd;
    pose proof (next_frame_encode p rest Hp) as Hn; rewrite <- Hd in Hn.
  - change (mjoin []) with (@nil byte) in *. rewrite app_nil_r, decoder_eta in Hn.
    cbn [FrameStream.next_loop fmap list_fmap]. rewrite Hn. eexists. split; [done|].
    exists []. split_and!; [done|constructor|]. by rewrite app_nil_r.
  - pose proof (next_frame_push d (mjoin (b :: chunks))) as Hpush. unfold Decoder.push in Hpush.
    cbn [FrameStream.next_loop fmap list_fmap].
    destruct (Decoder.next_frame d) as [[[f|]|e] d'].
    + rewrite Hn in Hpush. injection Hpush as <- Hpush. eexists. split; [done|].
      exists (b :: chunks). split_and!; [done|by constructor|]. cbn. by rewrite Hpush.
    + subst d'. destruct (is_empty b) eqn:He; [by destruct b|]. apply IH.
      unfold Decoder.push. cbn. by rewrite <- app_assoc.
    + destruct Hpush as [_ Hpush]. by rewrite Hn in Hpush.
Qed.

Lemma next_delivers i p rest :
  len p < MAX_FRAME -> holds i (Framing.encode p ++ rest) ->
  exists i', FrameStream.next i = (Ok p, i') /\ holds i' rest.
Proof.
  intros Hp (chunks & Hs & Hc & Hb). unfold FrameStream.next. rewrite Hs.
  by apply next_loop_delivers.
Qed.
