(* ===== verification/Mux.v ===== *)
(** * The L2CAP socket layer ([sharingd/src/quickshare/mux.rs])

    An L2CAP channel carries packets: a service hash and a payload behind a length.  A pump
    thread reads them, acknowledges data and sums the peer's acknowledgements; the writer cuts
    what it is given into packets and lets the peer's count lag only so far behind.  The two
    threads meet in a state under a lock: the system is a step function on labels, one per
    locked region or write. *)

From S2P Require Import Prelude Framing Protobuf Crypto Service Multiplex Stream.

Definition COMMAND_REQUEST_DATA_CONNECTION : Z := 3.
Definition COMMAND_RESPONSE_DATA_CONNECTION_READY : Z := 23.
Definition MAX_DATA_CONNECTION_RESPONSE : Z := 64.
Definition CONTROL_PREFIX : list byte := replicate 3 (to_u8 0).
Definition SCF_TYPE : Z := 1.
Definition SCF_INTRODUCTION : Z := 2.
Definition SCF_PACKET_ACKNOWLEDGEMENT : Z := 4.
Definition CONTROL_TYPE_INTRODUCTION : Z := 1.
Definition CONTROL_TYPE_PACKET_ACKNOWLEDGEMENT : Z := 3.
Definition INTRO_SERVICE_ID_HASH : Z := 1.
Definition INTRO_SOCKET_VERSION : Z := 2.
Definition ACK_SERVICE_ID_HASH : Z := 1.
Definition ACK_RECEIVED_SIZE : Z := 2.
Definition SOCKET_VERSION_V2 : Z := 2.
Definition MAX_PACKET_PAYLOAD : Z := 16 * 1024.
Definition MAX_BYTES_IN_FLIGHT : Z := 64 * 1024.

(** What the lock protects. *)
Record State : Type := mkState { acked : Z; inbox : list byte; closed : bool }.

Definition initial : State := mkState 0 [] false.
Definition close (st : State) : State := mkState (acked st) (inbox st) true.

(** [u64::saturating_add], [u64::saturating_sub]. *)
Definition saturating_add (a b : Z) : Z := Z.min (a + b) u64_max.
Definition saturating_sub (a b : Z) : Z := Z.max (a - b) 0.

Section Packets.
Context `{Digest}.

Definition packet_acknowledgement (received : Z) : list byte :=
  let ack := Writer.new
    |> Writer.bytes ACK_SERVICE_ID_HASH service_id_hash
    |> Writer.varint ACK_RECEIVED_SIZE received in
  let frame := Writer.new
    |> Writer.varint SCF_TYPE CONTROL_TYPE_PACKET_ACKNOWLEDGEMENT
    |> Writer.bytes SCF_PACKET_ACKNOWLEDGEMENT (Writer.finish ack) in
  CONTROL_PREFIX ++ Writer.finish frame.

Definition introduction_packet : list byte :=
  let intro := Writer.new
    |> Writer.bytes INTRO_SERVICE_ID_HASH service_id_hash
    |> Writer.varint INTRO_SOCKET_VERSION SOCKET_VERSION_V2 in
  let frame := Writer.new
    |> Writer.varint SCF_TYPE CONTROL_TYPE_INTRODUCTION
    |> Writer.bytes SCF_INTRODUCTION (Writer.finish intro) in
  CONTROL_PREFIX ++ Writer.finish frame.

Definition data_packet (payload : list byte) : list byte := service_id_hash ++ payload.

(** Opening the socket.  [write_all] is the writer's; [spawned] tells whether the pump's
    thread could be started. *)
Definition open {W} (write_all : list byte -> W -> bool * W) (spawned : bool)
    (frames : FrameStream.t) (w : W) : result FrameStream.t IoError * W :=
  let request := to_u8 COMMAND_REQUEST_DATA_CONNECTION :: service_id_hash in
  match write_all (Framing.encode request) w with
  | (false, w) => (Err OsError, w)
  | (true, w) =>
      let (ready, frames) := FrameStream.next frames in
      match ready with
      | Err e => (Err e, w)
      | Ok ready =>
          if MAX_DATA_CONNECTION_RESPONSE <? len ready then (Err InvalidData, w)
          else
            match ready with
            | b :: _ =>
                if u8 b =? COMMAND_RESPONSE_DATA_CONNECTION_READY then
                  match write_all (Framing.encode introduction_packet) w with
                  | (false, w) => (Err OsError, w)
                  | (true, w) => (if spawned then Ok frames else Err OsError, w)
                  end
                else (Err InvalidData, w)
            | [] => (Err InvalidData, w)
            end
      end
  end.

(** ** The pump *)

(** One packet: the acknowledgement to write, the state, and whether to go on. *)
Definition on_packet (packet : list byte) (st : State) : option (list byte) * State * bool :=
  if len packet <? SERVICE_ID_HASH_LEN then (None, st, true)
  else
    let prefix := take (Z.to_nat SERVICE_ID_HASH_LEN) packet in
    let payload := drop (Z.to_nat SERVICE_ID_HASH_LEN) packet in
    if bool_decide (prefix = CONTROL_PREFIX) then
      let kind := flatten_opt (ok (first_varint payload SCF_TYPE)) in
      if bool_decide (kind = Some CONTROL_TYPE_PACKET_ACKNOWLEDGEMENT) then
        match first_bytes payload SCF_PACKET_ACKNOWLEDGEMENT with
        | Ok (Some a) =>
            match first_varint a ACK_RECEIVED_SIZE with
            | Ok (Some size) =>
                (None, mkState (saturating_add (acked st) size) (inbox st) (closed st), true)
            | _ => (None, st, true)
            end
        | _ => (None, st, true)
        end
      else (None, st, negb (bool_decide (kind = Some 2)))
    else if negb (bool_decide (prefix = service_id_hash)) then (None, st, true)
    else
      (Some (packet_acknowledgement (len payload)),
       mkState (acked st) (inbox st ++ payload) (closed st), true).

(** The whole thread: the acknowledgements it writes and the state it leaves; [None] only if
    the fuel runs out.  A failure to write an acknowledgement is ignored. *)
Fixpoint pump (fuel : nat) (frames : FrameStream.t) (st : State)
    : option (list (list byte) * State) :=
  match fuel with
  | O => None
  | S fuel =>
      match FrameStream.next frames with
      | (Err _, _) => Some ([], close st)
      | (Ok packet, frames) =>
          let '(ack, st, more) := on_packet packet st in
          let acks := match ack with Some a => [a] | None => [] end in
          if more then
            match pump fuel frames st with
            | Some (rest, st) => Some (acks ++ rest, st)
            | None => None
            end
          else Some (acks, close st)
      end
  end.

(** ** The two halves *)

(** [data.chunks(MAX_PACKET_PAYLOAD)]. *)
Fixpoint chunks_loop (fuel : nat) (data : list byte) : list (list byte) :=
  match fuel with
  | O => []
  | S fuel =>
      if is_empty data then []
      else take (Z.to_nat MAX_PACKET_PAYLOAD) data
           :: chunks_loop fuel (drop (Z.to_nat MAX_PACKET_PAYLOAD) data)
  end.
Definition chunks (data : list byte) : list (list byte) := chunks_loop (length data) data.

(** The negations of the conditions the two waiting loops wait on. *)
Definition room (sent : Z) (st : State) : bool :=
  negb (negb (closed st) && (MAX_BYTES_IN_FLIGHT <? saturating_sub sent (acked st))).
Definition drained (sent : Z) (st : State) : bool :=
  negb (negb (closed st) && (acked st <? sent)).

(** What a waiting thread wakes to, with the state it finds. *)
Inductive Wake : Type := Changed (st : State) | TimedOut (st : State).

(** [while !ready { wait_timeout }]; [None] while it is still waiting. *)
Fixpoint wait_until (ready : State -> bool) (st : State) (wakes : list Wake)
    : option (result unit IoError) :=
  if ready st then Some (Ok tt)
  else
    match wakes with
    | [] => None
    | Changed st :: wakes => wait_until ready st wakes
    | TimedOut _ :: _ => Some (Err InvalidData)
    end.

Definition wait_for_room (sent : Z) : State -> list Wake -> option (result unit IoError) :=
  wait_until (room sent).
Definition drain (sent : Z) : State -> list Wake -> option (result unit IoError) :=
  wait_until (drained sent).

(** [MuxReader::read]; [None] while it waits. *)
Definition read (cap : Z) (st : State) : option (list byte * State) :=
  if negb (is_empty (inbox st)) then
    let n := Z.to_nat (Z.min cap (len (inbox st))) in
    Some (take n (inbox st), mkState (acked st) (drop n (inbox st)) (closed st))
  else if closed st then Some ([], st)
  else None.

(** [ready_within]: [None] is the deadline passing. *)
Definition ready (st : State) : bool := negb (is_empty (inbox st)) || closed st.
Fixpoint ready_within (st : State) (wakes : list State) : bool :=
  if ready st then true
  else match wakes with [] => false | st :: wakes => ready_within st wakes end.

End Packets.

(** ** The threads together *)

(** Where the writing thread is: what [write] has still to send, and whether the next piece has
    been cleared; [Failed] after an error has been returned. *)
Inductive Pc : Type :=
| Waiting (rest : list (list byte))
| Sending (piece : list byte) (rest : list (list byte))
| Failed (rest : list (list byte)).

Module Threads.
Section Threads.
Context `{Digest}.

Record t : Type := mk {
  frames : FrameStream.t;
  running : bool;
  shared : State;
  sent : Z;
  pc : Pc;
  wire : list (list byte);
  acks : list (list byte);
  given : list byte;
  got : list byte
}.

Definition start (frames : FrameStream.t) : t :=
  mk frames true initial 0 (Waiting []) [] [] [] [].

(** [Pump]: one packet, or the end.  [Write]: a call of [write] by its owner; [Room]: the wait
    before a piece is over; [TimeOut]: it failed; [Send]: the piece goes out, or the socket
    fails.  [Read]: a call of [read] that does not wait. *)
Inductive Label : Type :=
| Pump | Write (data : list byte) | Room | TimeOut | Send (okay : bool) | Read (cap : Z).

Definition pump_step (s : t) : t :=
  match FrameStream.next (frames s) with
  | (Err _, fr) =>
      mk fr false (close (shared s)) (sent s) (pc s) (wire s) (acks s) (given s) (got s)
  | (Ok packet, fr) =>
      let '(ack, st, more) := on_packet packet (shared s) in
      let out := match ack with Some a => [a] | None => [] end in
      mk fr more (if more then st else close st) (sent s) (pc s) (wire s) (acks s ++ out)
        (given s) (got s)
  end.

Definition set_pc (p : Pc) (s : t) : t :=
  mk (frames s) (running s) (shared s) (sent s) p (wire s) (acks s) (given s) (got s).

(** [None]: not possible in this state. *)
Definition step (l : Label) (s : t) : option t :=
  match l, pc s with
  | Pump, _ => if running s then Some (pump_step s) else None
  | Write data, Waiting [] =>
      Some (mk (frames s) (running s) (shared s) (sent s) (Waiting (chunks data)) (wire s)
              (acks s) (given s ++ data) (got s))
  | Room, Waiting (p :: rest) =>
      if room (sent s) (shared s) then Some (set_pc (Sending p rest) s) else None
  | TimeOut, Waiting (p :: rest) => Some (set_pc (Failed (p :: rest)) s)
  | Send false, Sending p rest => Some (set_pc (Failed (p :: rest)) s)
  | Send true, Sending p rest =>
      (* [self.sent += piece.len() as u64], which panics rather than wrap *)
      if sent s + len p <=? u64_max
      then Some (mk (frames s) (running s) (shared s) (sent s + len p) (Waiting rest)
                   (wire s ++ [data_packet p]) (acks s) (given s) (got s))
      else None
  | Read cap, _ =>
      match read cap (shared s) with
      | Some (b, st) =>
          Some (mk (frames s) (running s) st (sent s) (pc s) (wire s) (acks s) (given s)
                  (got s ++ b))
      | None => None
      end
  | _, _ => None
  end.

Fixpoint run (ls : list Label) (s : t) : option t :=
  match ls with
  | [] => Some s
  | l :: ls => match step l s with Some s => run ls s | None => None end
  end.

End Threads.
End Threads.

(** ** Lemmas *)

(** *** Numbers a peer sends *)

Lemma run_fields_Ok {S E} `{From Protobuf.Error E} (g : S -> Field -> S) p s r :
  run_fields (fun s f => Ok (g s f)) p s = (Ok r : result S E) -> r = fold_left g (fst p) s.
Proof.
  unfold run_fields. rewrite fold_fields_Ok. destruct p as [fs [e|]]; cbn; [done|].
  by intros [= <-].
Qed.

Lemma first_bytes_fits b n a : fits b -> first_bytes b n = Ok (Some a) -> fits a.
Proof.
  intros Hb. unfold first_bytes. rewrite for_each_field_grammar by done.
  intros Ha%run_fields_Ok. symmetry in Ha. apply (last_bytes_len n) in Ha. by eapply fits_le.
Qed.

Lemma last_varint_elem n fs v : last_varint n fs = Some v -> Varint n v ∈ fs.
Proof.
  induction fs as [|f fs IH] using rev_ind; [done|]. rewrite last_varint_snoc, elem_of_app.
  destruct f as [m w|m w]; [|by auto]. destruct (Z.eqb_spec m n) as [->|]; [|by auto].
  intros [= ->]. right. apply list_elem_of_here.
Qed.

Lemma first_varint_u64 b n v : fits b -> first_varint b n = Ok (Some v) -> is_u64 v.
Proof.
  intros Hb. unfold first_varint. rewrite for_each_field_grammar by done.
  intros Hv%run_fields_Ok. symmetry in Hv. apply (last_varint_elem n) in Hv.
  destruct (fields_of_wf b Hb) as [Hwf _]. rewrite Forall_forall in Hwf.
  by destruct (Hwf _ Hv).
Qed.

Lemma next_frame_len d f d' :
  Decoder.next_frame d = (Ok (Some f), d') -> len f < MAX_FRAME.
Proof.
  unfold Decoder.next_frame. pose proof (from_be_bytes_range (sub_range (Decoder.buf d) 0 4)).
  set (n := from_be_bytes _) in *. intros Hf. repeat case_match; try congruence.
  injection Hf as <- _. unfold sub_range. rewrite len_take. unfold LENGTH_PREFIX in *. lia.
Qed.

Lemma next_loop_len r d f i :
  FrameStream.next_loop r d = (Ok f, i) -> len f < MAX_FRAME.
Proof.
  revert d. induction r as [|[b|] r IH]; intros d; cbn [FrameStream.next_loop];
    destruct (Decoder.next_frame d) as [[[g|]|e] d'] eqn:Hd; try done;
    try (intros [= <- _]; by eapply next_frame_len).
  destruct (is_empty b); [done|]. apply IH.
Qed.

Lemma next_fits i f i' : FrameStream.next i = (Ok f, i') -> fits f.
Proof.
  intros H%next_loop_len. unfold fits, MAX_FRAME in *. unfold_ints. lia.
Qed.

(** *** Pieces *)

Definition packet_sized (p : list byte) : Prop := 0 < len p <= MAX_PACKET_PAYLOAD.

Lemma chunks_loop_spec fuel data :
  (length data <= fuel)%nat ->
  mjoin (chunks_loop fuel data) = data /\ Forall packet_sized (chunks_loop fuel data).
Proof.
  revert data. induction fuel as [|fuel IH]; intros data Hf.
  { destruct data; [|cbn in Hf; lia]. by split. }
  cbn [chunks_loop]. destruct (is_empty data) eqn:He; [by destruct data|].
  assert (Hd : 0 < len data).
  { destruct data; [done|]. rewrite len_cons. pose proof (len_nonneg data). lia. }
  assert (Hm : 1 <= MAX_PACKET_PAYLOAD) by (unfold MAX_PACKET_PAYLOAD; lia).
  destruct (IH (drop (Z.to_nat MAX_PACKET_PAYLOAD) data)) as [Hj Hs].
  { rewrite length_drop. rewrite len_nat in Hd. lia. }
  set (n := Z.to_nat MAX_PACKET_PAYLOAD) in *. split.
  - change (mjoin (?x :: ?l)) with (x ++ mjoin l).
    change (take n data ++ mjoin (chunks_loop fuel (drop n data)) = data).
    by rewrite Hj, take_drop.
  - constructor; [|done]. unfold packet_sized. rewrite len_take. lia.
Qed.

Lemma chunks_spec data : mjoin (chunks data) = data /\ Forall packet_sized (chunks data).
Proof. by apply chunks_loop_spec. Qed.

Section Invariant.
Context `{Digest}.

(** What one packet does: the peer's count does not go down, and what is queued is what is
    acknowledged. *)
Lemma on_packet_grows packet st ack st' more :
  fits packet -> 0 <= acked st <= u64_max -> on_packet packet st = (ack, st', more) ->
  closed st' = closed st /\ acked st <= acked st' <= u64_max /\
  exists ps, match ack with Some a => [a] | None => [] end
             = (fun p => packet_acknowledgement (len p)) <$> ps /\
             inbox st' = inbox st ++ mjoin ps.
Proof.
  intros Hfit Ha. unfold on_packet.
  assert (Hsame : forall more', (None, st, more') = (ack, st', more) ->
    closed st' = closed st /\ acked st <= acked st' <= u64_max /\
    exists ps, match ack with Some a => [a] | None => [] end
               = (fun p => packet_acknowledgement (len p)) <$> ps /\
               inbox st' = inbox st ++ mjoin ps).
  { intros more' [= <- <- _]. split_and!; [done|lia|lia|]. exists []. by rewrite app_nil_r. }
  destruct (len packet <? _); [by apply Hsame|].
  destruct (bool_decide (take _ packet = _)).
  - destruct (bool_decide (_ = Some _)); [|by apply Hsame].
    destruct (first_bytes _ _) as [[a|]|] eqn:Hb; try by apply Hsame.
    destruct (first_varint a _) as [[size|]|] eqn:Hv; try by apply Hsame.
    apply first_varint_u64 in Hv.
    2:{ eapply first_bytes_fits; [|exact Hb]. eapply fits_le; [|exact Hfit].
        rewrite !len_nat, length_drop. lia. }
    intros [= <- <- _]. cbn [acked inbox closed]. unfold saturating_add, u64_max in *.
    unfold is_u64 in Hv. split_and!; [done|lia|lia|]. exists []. by rewrite app_nil_r.
  - destruct (negb _); [by apply Hsame|]. intros [= <- <- _]. cbn [acked inbox closed]. split_and!; [done|lia|lia|].
    eexists [_]. split; [reflexivity|]. unfold mjoin. cbn. by rewrite app_nil_r.
Qed.

Import Threads.

(** The pieces [write] still has to send. *)
Definition todo (p : Pc) : list (list byte) :=
  match p with Waiting rest | Failed rest => rest | Sending p rest => p :: rest end.

(** The peer's count lags by [n] at most, or the channel is closed. *)
Definition within (n : Z) (s : t) : Prop :=
  closed (shared s) = true \/ sent s <= acked (shared s) + n.

Record inv (s : t) : Prop := mkInv {
  inv_acked : 0 <= acked (shared s) <= u64_max;
  inv_sent : sent s <= u64_max;
  inv_flight : within (MAX_BYTES_IN_FLIGHT + MAX_PACKET_PAYLOAD) s;
  inv_clear : match pc s with Sending _ _ => within MAX_BYTES_IN_FLIGHT s | _ => True end;
  inv_todo : Forall packet_sized (todo (pc s));
  inv_wire : exists ps, wire s = data_packet <$> ps /\ Forall packet_sized ps /\
    sent s = len (mjoin ps) /\ mjoin ps ++ mjoin (todo (pc s)) = given s;
  inv_stream : exists ps, acks s = (fun p => packet_acknowledgement (len p)) <$> ps /\
    got s ++ inbox (shared s) = mjoin ps
}.

Lemma room_within n st :
  room n st = true -> closed st = true \/ n <= acked st + MAX_BYTES_IN_FLIGHT.
Proof. unfold room, saturating_sub. destruct (closed st); [by left|]. cbn. lia. Qed.

Lemma inv_start fr : inv (start fr).
Proof.
  split; cbn [start shared sent pc wire acks given got initial acked closed inbox todo].
  - unfold u64_max. lia.
  - unfold u64_max. lia.
  - right. cbn [start shared sent initial acked]. unfold MAX_BYTES_IN_FLIGHT, MAX_PACKET_PAYLOAD. lia.
  - done.
  - constructor.
  - by exists [].
  - by exists [].
Qed.

Lemma inv_pump s : inv s -> inv (pump_step s).
Proof.
  intros [Hack Hsnt Hfl Hcl Htodo Hwire (ps & Hacks & Hin)]. unfold pump_step.
  destruct (FrameStream.next (frames s)) as [[packet|e] fr] eqn:Hn.
  2:{ split; cbn [shared sent pc wire acks given got set_pc todo close acked inbox closed]; try done; [by left| |by exists ps]. destruct (pc s); try done. by left. }
  apply next_fits in Hn. destruct (on_packet packet (shared s)) as [[ack st] more] eqn:Hp.
  apply on_packet_grows in Hp as (Hc & Ha & qs & Hq & Hi); [|done..].
  set (st' := if more then st else close st).
  assert (Hst : acked st' = acked st /\ inbox st' = inbox st /\
                (closed (shared s) = true -> closed st' = true)).
  { subst st'. destruct more; cbn; split_and!; try done. congruence. }
  destruct Hst as (Hst & Hst' & Hst'').
  assert (Hw : forall n, within n s -> within n (mk fr more st' (sent s) (pc s) (wire s)
                (acks s ++ match ack with Some a => [a] | None => [] end) (given s) (got s))).
  { intros n [Hcl'|Hle]; [left; by apply Hst''|right; cbn [shared sent]; lia]. }
  split; cbn [shared sent pc wire acks given got]; try done.
  - lia.
  - by apply Hw.
  - destruct (pc s); try done. by apply Hw.
  - exists (ps ++ qs). rewrite Hacks, Hq, Hst', Hi, fmap_app, join_app, app_assoc, Hin. done.
Qed.

Lemma inv_step l s s' : inv s -> step l s = Some s' -> inv s'.
Proof.
  intros Hs. pose proof Hs as [Hack Hsnt Hfl Hcl Htodo Hwire Hstream]. unfold step.
  destruct l as [|data| | |okay|cap].
  - destruct (running s); [|done]. intros [= <-]. by apply inv_pump.
  - destruct (pc s) as [[|]| |] eqn:Hpc; try done. intros [= <-].
    destruct (chunks_spec data) as [Hj Hf]. destruct Hwire as (ps & Hw & Hps & Hsent & Hgiven).
    split; cbn [shared sent pc wire acks given got set_pc todo close acked inbox closed]; try done. exists ps. split_and!; try done.
    change (mjoin []) with (@nil byte) in Hgiven. rewrite app_nil_r in Hgiven. by rewrite Hj, Hgiven.
  - destruct (pc s) as [[|p rest]| |] eqn:Hpc; try done.
    destruct (room _ _) eqn:Hr; [|done]. intros [= <-]. split; cbn [shared sent pc wire acks given got set_pc todo close acked inbox closed]; try done.
    by apply room_within in Hr.
  - destruct (pc s) as [[|p rest]| |] eqn:Hpc; try done. intros [= <-]. by split.
  - destruct okay, (pc s) as [|p rest|] eqn:Hpc; try done.
    2:{ intros [= <-]. by split. }
    destruct (_ <=? u64_max) eqn:Hle64; [|done]. intros [= <-]. cbn [todo] in *.
    apply Forall_cons in Htodo as [Hp Hrest].
    destruct Hwire as (ps & Hw & Hps & Hsent & Hgiven). split; cbn [shared sent pc wire acks given got set_pc todo close acked inbox closed]; try done.
    + lia.
    + destruct Hcl as [Hcl|Hle]; [by left|right; cbn [shared sent]]. unfold packet_sized in Hp. lia.
    + exists (ps ++ [p]). rewrite Hw, fmap_app, Hsent, join_app. split_and!; [done| |..].
      * apply Forall_app. split; [done|]. by constructor.
      * rewrite len_app. unfold mjoin at 3. cbn. by rewrite app_nil_r.
      * rewrite <- Hgiven, <- app_assoc. f_equal. cbn. by rewrite app_nil_r.
  - destruct (read cap (shared s)) as [[b st]|] eqn:Hr; [|done].
    assert (Hst : acked st = acked (shared s) /\ closed st = closed (shared s) /\
                  b ++ inbox st = inbox (shared s)).
    { revert Hr. unfold read. destruct (inbox (shared s)) as [|x i] eqn:Hi; cbn [is_empty negb].
      - destruct (closed (shared s)) eqn:Hcl'; [|done]. intros [= <- <-]. by rewrite Hi.
      - intros [= <- <-]. cbn [acked closed inbox]. split_and!; [done..|]. by rewrite take_drop. }
    destruct Hst as (Ha & Hc & Hb).
    assert (Hw : forall n, within n s -> within n (mk (frames s) (running s) st (sent s) (pc s)
                  (wire s) (acks s) (given s) (got s ++ b))).
    { intros n [Hcl'|Hle]; [left; cbn [shared]; congruence|right; cbn [shared sent]; lia]. }
    intros [= <-]. split; cbn [shared sent pc wire acks given got]; try done.
    + by rewrite Ha.
    + by apply Hw.
    + destruct (pc s); try done. by apply Hw.
    + destruct Hstream as (ps & Hps & Hin). exists ps. split; [done|].
      by rewrite <- app_assoc, Hb.
Qed.

Lemma inv_run ls s s' : inv s -> run ls s = Some s' -> inv s'.
Proof.
  revert s. induction ls as [|l ls IH]; intros s Hs; cbn [run]; [by intros [= <-]|].
  destruct (step l s) as [s1|] eqn:Hl; [|done]. apply IH. by eapply inv_step.
Qed.

End Invariant.

(** *** A packet at the other end *)

Section Delivery.
Context `{Digest} `{!DigestLaws}.
Context (Hnamed : service_id_hash <> CONTROL_PREFIX).

Lemma hash_len : length service_id_hash = 3%nat.
Proof using All.
  unfold service_id_hash. destruct (openssl_sha256 SERVICE_ID) as [d|] eqn:Hd; [|done].
  apply openssl_sha256_len in Hd. unfold sub_range. rewrite length_take, length_drop.
  rewrite len_nat in Hd. lia.
Qed.

Lemma take_hash l : take (Z.to_nat SERVICE_ID_HASH_LEN) (service_id_hash ++ l) = service_id_hash.
Proof using All. apply take_app_length'. by rewrite hash_len. Qed.

Lemma drop_hash l : drop (Z.to_nat SERVICE_ID_HASH_LEN) (service_id_hash ++ l) = l.
Proof using All. apply drop_app_length'. by rewrite hash_len. Qed.

Lemma on_data_packet p st :
  on_packet (data_packet p) st
  = (Some (packet_acknowledgement (len p)),
     mkState (acked st) (inbox st ++ p) (closed st), true).
Proof using All.
  unfold on_packet, data_packet. rewrite take_hash, drop_hash, len_app.
  assert (Hl : len service_id_hash = 3) by (by rewrite len_nat, hash_len).
  pose proof (len_nonneg p). rewrite Hl.
  rewrite (proj2 (Z.ltb_ge _ _)) by (unfold SERVICE_ID_HASH_LEN; lia).
  by rewrite bool_decide_eq_false_2, bool_decide_eq_true_2.
Qed.

Lemma ack_fields n :
  packet_acknowledgement n
  = CONTROL_PREFIX ++ encode [Varint SCF_TYPE CONTROL_TYPE_PACKET_ACKNOWLEDGEMENT;
      Bytes SCF_PACKET_ACKNOWLEDGEMENT
        (encode [Bytes ACK_SERVICE_ID_HASH service_id_hash; Varint ACK_RECEIVED_SIZE n])].
Proof. unfold packet_acknowledgement. by to_fields. Qed.

Lemma ack_len n : len (packet_acknowledgement n) <= 200.
Proof using All.
  rewrite ack_fields, len_app.
  match goal with |- context [encode [?a; Bytes ?f (encode ?l)]] =>
    pose proof (encode_len [a; Bytes f (encode l)]); pose proof (encode_len l) end.
  assert (len service_id_hash = 3) by (by rewrite len_nat, hash_len).
  change (len CONTROL_PREFIX) with 3. cbn [fields_cost] in *. lia.
Qed.

Lemma on_ack_packet n st :
  is_u64 n ->
  on_packet (packet_acknowledgement n) st
  = (None, mkState (saturating_add (acked st) n) (inbox st) (closed st), true).
Proof using All.
  intros Hn. pose proof (ack_len n) as Hl. rewrite ack_fields in *.
  set (inner := [Bytes ACK_SERVICE_ID_HASH _; _]) in *. set (outer := [_; Bytes _ (encode inner)]) in *.
  rewrite len_app in Hl. change (len CONTROL_PREFIX) with 3 in Hl.
  assert (Hf : fits (encode outer)) by (unfold fits; unfold_ints; lia).
  assert (Hfi : fits (encode inner)) by fits_in Hf.
  unfold on_packet. change (Z.to_nat SERVICE_ID_HASH_LEN) with 3%nat.
  change (take 3 (CONTROL_PREFIX ++ encode outer)) with CONTROL_PREFIX.
  change (drop 3 (CONTROL_PREFIX ++ encode outer)) with (encode outer).
  rewrite len_app. change (len CONTROL_PREFIX) with 3. pose proof (len_nonneg (encode outer)).
  rewrite (proj2 (Z.ltb_ge _ _)) by (unfold SERVICE_ID_HASH_LEN; lia).
  rewrite bool_decide_eq_true_2 by done.
  rewrite first_varint_read, first_bytes_read by (done || wf_nums).
  change (last_varint SCF_TYPE outer) with (Some CONTROL_TYPE_PACKET_ACKNOWLEDGEMENT).
  change (last_bytes SCF_PACKET_ACKNOWLEDGEMENT outer) with (Some (encode inner)).
  cbn [ok flatten_opt]. rewrite bool_decide_eq_true_2 by done.
  rewrite first_varint_read by (done || wf_nums).
  by change (last_varint ACK_RECEIVED_SIZE inner) with (Some n).
Qed.

(** *** A thread's worth of packets *)

Lemma next_end i : holds i [] -> exists i', FrameStream.next i = (Err UnexpectedEof, i').
Proof.
  intros (cs & Hs & Hc & Hb). apply app_nil in Hb as [Hb Hj].
  assert (cs = []) as -> by (destruct Hc as [|b cs Hne _]; [done|by apply app_nil in Hj as [? _]]).
  unfold FrameStream.next. rewrite Hs. cbn [FrameStream.next_loop fmap list_fmap].
  unfold Decoder.next_frame. rewrite Hb. eexists. reflexivity.
Qed.

(** The wire of packets [ps]. *)
Definition wired (ps : list (list byte)) : list byte := mjoin (Framing.encode <$> ps).

Lemma wired_cons p ps : wired (p :: ps) = Framing.encode p ++ wired ps.
Proof. done. Qed.

Lemma pump_data ps i st :
  Forall packet_sized ps -> holds i (wired (data_packet <$> ps)) ->
  pump (S (length ps)) i st
  = Some ((fun p => packet_acknowledgement (len p)) <$> ps,
          mkState (acked st) (inbox st ++ mjoin ps) true).
Proof using All.
  intros Hps. revert i st. induction Hps as [|p ps Hp _ IH]; intros i st Hi.
  - cbn [pump length]. destruct (next_end i Hi) as (i' & ->). unfold close.
    change (mjoin []) with (@nil byte). by rewrite app_nil_r.
  - rewrite fmap_cons, wired_cons in Hi.
    assert (Hl : len (data_packet p) < MAX_FRAME).
    { unfold data_packet. rewrite len_app. assert (len service_id_hash = 3) as ->
        by (by rewrite len_nat, hash_len).
      unfold packet_sized, MAX_PACKET_PAYLOAD, MAX_FRAME in *. lia. }
    destruct (next_delivers i _ _ Hl Hi) as (i' & Hn & Hi').
    change (length (p :: ps)) with (S (length ps)).
    remember (S (length ps)) as k. cbn [pump]. rewrite Hn, on_data_packet. subst k.
    rewrite (IH i' _ Hi'). cbn [acked inbox fmap list_fmap app].
    change (mjoin (p :: ps)) with (p ++ mjoin ps). by rewrite app_assoc.
Qed.

Lemma pump_acks ps i st :
  0 <= acked st -> Forall packet_sized ps -> acked st + len (mjoin ps) <= u64_max ->
  holds i (wired ((fun p => packet_acknowledgement (len p)) <$> ps)) ->
  pump (S (length ps)) i st = Some ([], mkState (acked st + len (mjoin ps)) (inbox st) true).
Proof using All.
  intros Ha Hps. revert i st Ha. induction Hps as [|p ps Hp _ IH]; intros i st Ha Hm Hi.
  - cbn [pump length]. destruct (next_end i Hi) as (i' & ->). unfold close.
    change (len (mjoin [])) with 0. by rewrite Z.add_0_r.
  - rewrite fmap_cons, wired_cons in Hi. pose proof (ack_len (len p)) as Hl.
    change (mjoin (p :: ps)) with (p ++ mjoin ps) in *. rewrite len_app in *.
    pose proof (len_nonneg (mjoin ps)). pose proof (len_nonneg p).
    destruct (next_delivers i (packet_acknowledgement (len p)) (wired ((fun p => packet_acknowledgement (len p)) <$> ps)))
      as (i' & Hn & Hi'); [unfold MAX_FRAME; lia|done|].
    change (length (p :: ps)) with (S (length ps)).
    remember (S (length ps)) as k. cbn [pump]. rewrite Hn, on_ack_packet. subst k.
    2:{ unfold u64_max in Hm. unfold is_u64. lia. }
    unfold saturating_add. rewrite Z.min_l by lia.
    rewrite (IH i' _) by (cbn [acked]; lia || done). cbn [acked inbox app].
    by rewrite Z.add_assoc.
Qed.

End Delivery.

(** *** The pump ends *)

Definition stream_bytes (i : FrameStream.t) : nat :=
  (length (Decoder.buf (FrameStream.decoder i))
   + foldr (fun x n => match x with Data b => length b + n | _ => n end)%nat 0%nat
       (FrameStream.stream i))%nat.

Lemma next_shrinks i f i' :
  FrameStream.next i = (Ok f, i') -> (stream_bytes i' < stream_bytes i)%nat.
Proof.
  unfold FrameStream.next, stream_bytes.
  generalize (FrameStream.decoder i) as d. generalize (FrameStream.stream i) as r. clear i.
  induction r as [|[b|] r IH]; intros d; cbn [FrameStream.next_loop];
    destruct (Decoder.next_frame d) as [[[g|]|e] d'] eqn:Hd; try done;
    try (intros [= _ <-]; apply next_frame_shrinks in Hd; cbn in *; lia).
  destruct (is_empty b); [done|]. intros Hn%IH. cbn [foldr].
  assert (d' = d) as ->.
  { revert Hd. unfold Decoder.next_frame. intros Hd. repeat case_match; congruence. }
  unfold Decoder.push in Hn. cbn [Decoder.buf] in Hn. rewrite length_app in Hn. lia.
Qed.

Lemma pump_total `{Digest} n i st :
  (stream_bytes i < n)%nat ->
  exists acks st', pump n i st = Some (acks, st') /\ closed st' = true.
Proof.
  revert i st. induction n as [|n IH]; intros i st Hn; [lia|]. cbn [pump].
  destruct (FrameStream.next i) as [[packet|e] i'] eqn:Hi; [|by do 2 eexists].
  apply next_shrinks in Hi. destruct (on_packet packet st) as [[ack st'] [|]]; [|by do 2 eexists].
  destruct (IH i' st') as (acks & st2 & -> & Hc); [lia|]. by do 2 eexists.
Qed.

(** ** Properties *)

(** Pacing and order, in every interleaving of the pump, the writer and the reader, against
    any peer.  Unless the channel has closed, the bytes sent never exceed the bytes the peer has
    confirmed by more than 80 KiB; what has gone out is a prefix of what was given, in packets
    of at most 16 KiB, counted exactly; what was read and what waits in the inbox is what was
    acknowledged, in order; and a write goes ahead only if 64 KiB at most were unconfirmed. *)
Theorem mux_paced `{Digest} ls frames s :
  Threads.run ls (Threads.start frames) = Some s ->
  (closed (Threads.shared s) = true \/
   Threads.sent s <= acked (Threads.shared s) + MAX_BYTES_IN_FLIGHT + MAX_PACKET_PAYLOAD) /\
  (exists ps, Threads.wire s = data_packet <$> ps /\ Forall packet_sized ps /\
     Threads.sent s = len (mjoin ps) /\
     mjoin ps ++ mjoin (todo (Threads.pc s)) = Threads.given s) /\
  (exists ps, Threads.acks s = (fun p => packet_acknowledgement (len p)) <$> ps /\
     Threads.got s ++ inbox (Threads.shared s) = mjoin ps).
Proof.
  intros Hrun. apply inv_run in Hrun as [_ _ Hfl _ _ Hw Hst]; [|apply inv_start].
  split_and!; [|done..]. destruct Hfl as [|Hfl]; [by left|right; lia].
Qed.

(** C20: what is written on one end is read on the other, and confirmed.  When every call of
    [write] has returned, a pump at the other end that is given the written packets, in reads
    of any length, ends with exactly the bytes given to [write] in its inbox; and this end's
    pump, given the acknowledgements that one wrote, counts exactly the bytes that were sent, so
    that [drain] returns without waiting even while the channel is open. *)
Theorem mux_delivers `{Digest} `{!DigestLaws} ls frames s there here :
  service_id_hash <> CONTROL_PREFIX ->
  Threads.run ls (Threads.start frames) = Some s -> todo (Threads.pc s) = [] ->
  holds there (wired (Threads.wire s)) ->
  exists acks, pump (S (length (Threads.wire s))) there initial
               = Some (acks, mkState 0 (Threads.given s) true) /\
    (holds here (wired acks) ->
     pump (S (length acks)) here initial = Some ([], mkState (Threads.sent s) [] true) /\
     drain (Threads.sent s) (mkState (Threads.sent s) [] false) [] = Some (Ok tt)).
Proof.
  intros Hnamed Hrun Htodo Hthere.
  apply inv_run in Hrun as [_ Hsent _ _ _ (ps & Hw & Hps & Hlen & Hgiven) _]; [|apply inv_start].
  rewrite Htodo in Hgiven. change (mjoin []) with (@nil byte) in Hgiven. rewrite app_nil_r in Hgiven.
  rewrite Hw in *. rewrite length_fmap. eexists. split.
  { rewrite (pump_data Hnamed ps) by done. by rewrite <- Hgiven. }
  rewrite length_fmap. intros Hhere. split.
  - rewrite (pump_acks Hnamed ps); cbn [initial acked]; try done; [|lia]. by rewrite Hlen.
  - unfold drain. cbn [wait_until]. unfold drained. cbn [closed acked negb andb].
    by rewrite Z.ltb_irrefl.
Qed.

(** ** Runs *)

Module ToyMux.

(** A digest under which the service hash is the documented [fc 9f 5e]. *)
#[export] Instance digest : Digest := {|
  openssl_sha256 d := Some ((to_u8 <$> [0xfc; 0x9f; 0x5e]) ++ replicate 29 (to_u8 (len d)));
  openssl_sha512 d := Some (replicate 64 (to_u8 (len d)));
  openssl_md5 d := Some (replicate 16 (to_u8 (len d)))
|}.

#[export] Instance laws : DigestLaws.
Proof. by constructor; intros d t [= <-]. Defined.

Definition labels : list Threads.Label :=
  [Threads.Write (str "hello"); Threads.Room; Threads.Send true;
   Threads.Write (str "world"); Threads.Room; Threads.Send true].

Definition sent_both : Threads.t :=
  default (Threads.start (FrameStream.new [])) (Threads.run labels (Threads.start (FrameStream.new []))).

Lemma mux_paced_witness :
  let s := sent_both in
  Threads.run labels (Threads.start (FrameStream.new [])) = Some s /\
  Threads.sent s <= acked (Threads.shared s) + MAX_BYTES_IN_FLIGHT + MAX_PACKET_PAYLOAD.
Proof.
  cbn zeta. split; [vm_compute; reflexivity|].
  destruct (mux_paced labels (FrameStream.new []) sent_both) as ([Hc|Hs] & _ & _);
    [vm_compute; reflexivity| |exact Hs].
  vm_compute in Hc. discriminate.
Defined.

(** The two words, read at the other end from one read each, and confirmed. *)
Lemma mux_delivers_witness :
  let there := FrameStream.new (Data <$> (Framing.encode <$> Threads.wire sent_both)) in
  let acks := [packet_acknowledgement 5; packet_acknowledgement 5] in
  let here := FrameStream.new (Data <$> (Framing.encode <$> acks)) in
  pump 3 there initial = Some (acks, mkState 0 (str "helloworld") true) /\
  pump 3 here initial = Some ([], mkState 10 [] true).
Proof.
  cbn zeta.
  assert (Hheld : forall ps, Forall (fun b => b <> []) (Framing.encode <$> ps) ->
    holds (FrameStream.new (Data <$> (Framing.encode <$> ps))) (wired ps)).
  { intros ps Hps. by exists (Framing.encode <$> ps). }
  destruct (mux_delivers labels (FrameStream.new []) sent_both
              (FrameStream.new (Data <$> (Framing.encode <$> Threads.wire sent_both)))
              (FrameStream.new (Data <$> (Framing.encode <$>
                 [packet_acknowledgement 5; packet_acknowledgement 5]))))
    as (acks & Hthere & Hhere).
  - vm_compute. discriminate.
  - vm_compute. reflexivity.
  - vm_compute. reflexivity.
  - apply Hheld. vm_compute. repeat constructor; discriminate.
  - assert (acks = [packet_acknowledgement 5; packet_acknowledgement 5]) as ->.
    { match type of Hthere with ?l = _ => assert (Hp : l = Some
        ([packet_acknowledgement 5; packet_acknowledgement 5], mkState 0 (str "helloworld") true))
        by (vm_compute; reflexivity) end.
      rewrite Hp in Hthere. apply (f_equal (option_map fst)) in Hthere.
      cbn [option_map fst] in Hthere. congruence. }
    split; [exact Hthere|]. apply Hhere. apply Hheld. vm_compute. repeat constructor; discriminate.
Defined.

(** With 64 KiB unconfirmed another packet still goes: 80 KiB can be. *)
Example window_is_checked_before_a_packet :
  room MAX_BYTES_IN_FLIGHT initial = true /\ room (MAX_BYTES_IN_FLIGHT + 1) initial = false.
Proof. split; reflexivity. Qed.

(** On a channel that has closed, [drain] succeeds whatever was confirmed. *)
Example drain_of_a_closed_channel : drain 1000000 (close initial) [] = Some (Ok tt).
Proof. reflexivity. Qed.

(** A packet of fewer than three bytes, and one for another service, are skipped. *)
Example other_packets :
  on_packet [to_u8 0; to_u8 0] initial = (None, initial, true) /\
  on_packet (str "abcdef") initial = (None, initial, true).
Proof. split; vm_compute; reflexivity. Qed.

End ToyMux.
