(* ===== verification/Connection.v ===== *)
(** * The receiving session ([sharingd/src/quickshare/connection.rs], [serve])

    From the connection request to the last byte on disk: the handshake in the clear, the
    session loop that performs the state machine's effects, and the handover to a faster
    medium.  One round of the loop is [iteration]; a run is any number of rounds.  The theorems
    are about the trace of a run, whatever the peer, the network and the people do. *)

From stdpp Require Import gmap.
From S2P Require Import Prelude Utf8 Crypto Framing Frames Sharing Upgrade Payload Handshake.
From S2P Require Import D2d Channel Ble Fsm Stream.

Definition MAX_UPGRADE_ATTEMPTS : Z := 2.
Definition HANDOVER_DEFER_CAP : Z := 8 * 1024 * 1024.

(** ** [str::trim] *)

(** A character of Unicode's White_Space, by its bytes. *)
Definition ws1 (a : byte) : bool := in_range 9 13 a || (u8 a =? 0x20).
Definition ws2 (a b : byte) : bool := (u8 a =? 0xC2) && ((u8 b =? 0x85) || (u8 b =? 0xA0)).
Definition ws3 (a b c : byte) : bool :=
  ((u8 a =? 0xE1) && (u8 b =? 0x9A) && (u8 c =? 0x80))
  || ((u8 a =? 0xE2) && (u8 b =? 0x80)
      && (in_range 0x80 0x8A c || (u8 c =? 0xA8) || (u8 c =? 0xA9) || (u8 c =? 0xAF)))
  || ((u8 a =? 0xE2) && (u8 b =? 0x81) && (u8 c =? 0x9F))
  || ((u8 a =? 0xE3) && (u8 b =? 0x80) && (u8 c =? 0x80)).

Fixpoint strip (p2 : byte -> byte -> bool) (p3 : byte -> byte -> byte -> bool) (l : list byte)
    : list byte :=
  match l with
  | [] => []
  | a :: l1 =>
      if ws1 a then strip p2 p3 l1
      else match l1 with
           | [] => l
           | b :: l2 =>
               if p2 a b then strip p2 p3 l2
               else match l2 with
                    | [] => l
                    | c :: l3 => if p3 a b c then strip p2 p3 l3 else l
                    end
           end
  end.

Definition trim (s : list byte) : list byte :=
  rev (strip (fun a b => ws2 b a) (fun a b c => ws3 c b a) (rev (strip ws2 ws3 s))).

Section Serve.
Context `{Host} `{Ec} `{Digest} `{Hmac} `{Cipher} `{Memcmp}.

(** ** The handover *)

(** The [loop] of [drain_old]; [a] is what the closure [ready] has captured. *)
Fixpoint drain_loop {A} (n : nat) (ready : A -> world -> bool * A * world) (a : A)
    (spent : bool) (held : Z) : M Conn (bool * A * Z) :=
  let! (r, a) := on_link (ask_world (fun w => let '(r, a, w) := ready a w in ((r, a), w))) in
  if r then ret (true, a, held)
  else
    match n with
    | O =>
        let! (r, a) := on_link (ask_world (fun w => let '(r, a, w) := ready a w in ((r, a), w))) in
        ret (r, a, held)
    | S n =>
        if spent || (HANDOVER_DEFER_CAP <=? held) then drain_loop n ready a spent held
        else
          let! r := attempt next_within_ in
          match r with
          | Ok (Some wire) =>
              let! plain := decrypt_ wire in
              do! push_deferred plain in
              drain_loop n ready a spent (held + len plain)
          | Ok None => drain_loop n ready a spent held
          | Err _ => drain_loop n ready a true held
          end
    end.

Definition drain_old {A} (ready : A -> world -> bool * A * world) (a : A) (held : Z)
    : M Conn (bool * A * Z) :=
  let! n := on_link (ask_world rounds) in drain_loop n ready a false held.

(** [|| worker.is_finished()]. *)
Definition worker_ready (_ : unit) (w : world) : bool * unit * world :=
  let (r, w) := worker_finished w in (r, tt, w).

(** [|| match listener.accept() { ... }], with the [joined] it fills. *)
Definition accept_ready (joined : option socket) (w : world) : bool * option socket * world :=
  match accept w with
  | (Joined s, w) => (true, Some s, w)
  | (WouldBlock, w) => (false, joined, w)
  | (AcceptError, w) => (true, joined, w)
  end.

(** [while !released]; [n] rounds fit before the deadline. *)
Fixpoint release_loop (n : nat) : M Conn bool :=
  match n with
  | O => ret false
  | S n =>
      let! wire := next_within_ in
      match wire with
      | None => ret false
      | Some wire =>
          let! plain := decrypt_ wire in
          match Frames.upgrade_body plain with
          | Some body =>
              match Upgrade.parse body with
              | Ok (SafeToClosePrior _) => ret true
              | Ok LastWriteToPrior => release_loop n
              | _ => do! push_deferred plain in release_loop n
              end
          | None => do! push_deferred plain in release_loop n
          end
      end
  end.

(** [write_frame(out, &channel.encrypt(&upgrade::failure())...)?; return Ok(false)]. *)
Definition decline : M Conn bool := do! send_frame Upgrade.failure in ret false.

Definition offered_path (group : WifiGroup) (port : Z) : UpgradePath :=
  mkUpgradePath Medium.WifiDirect
    (Some (mkWifiCredentials (ssid group) (passphrase group) (as_i32 port) (go_address group)
             (frequency group))) None true false.

(** From the introduction on the new socket to the swap. *)
Definition hand_over (sock : socket) (new_in : FrameStream.t) : M Conn bool :=
  do! on_link (write_frame_to sock client_introduction_ack) in
  do! send_frame last_write_to_prior in
  let! n := on_link (ask_world rounds) in
  let! _ := release_loop n in
  do! send_frame (safe_to_close_prior STA_FREQUENCY_NOT_SET) in
  do! swap new_in sock in
  ret true.

Definition offer_group : M Conn bool :=
  let! bound := on_link (ask_world bind) in
  if negb bound then decline
  else
    let! port := on_link (ask_world local_port) in
    let port := unwrap_or port 0 in
    let! (_, _, held) := drain_old worker_ready tt 0 in
    let! group := on_link (ask_world host_group) in
    match group with
    | None => decline
    | Some group =>
        do! send_frame (path_available (offered_path group port)) in
        let! (_, joined, held) := drain_old accept_ready None held in
        match joined with
        | None => decline
        | Some sock =>
            do! on_link (notify (ArmAbort id sock)) in
            let! cloned := on_link (ask_world (try_clone sock)) in
            if negb cloned then throw OsError
            else
              let! (intro, new_in) := next_of (FrameStream.new (incoming sock)) in
              match intro with
              | None => decline
              | Some intro =>
                  match map_opt Upgrade.parse (Frames.upgrade_body intro) with
                  | Some (Ok (ClientIntroduction _)) => hand_over sock new_in
                  | _ => decline
                  end
              end
        end
    end.

(** ** Steps 1 to 6: up to the encrypted channel *)

Definition peer_name (req : ConnectionRequest) : list byte :=
  match name_from_endpoint_info (cr_endpoint_info req) with
  | Some n => n
  | None =>
      let n := trim (cr_endpoint_name req) in
      if negb (is_empty n) then n else str "A nearby device"
  end.

Definition establish : M Plain (list byte * SecureChannel) :=
  let! first := plain_next in
  let! first := invalid (Frames.parse first) in
  let! peer_name := match first with
                    | FConnectionRequest req => ret (peer_name req)
                    | _ => throw InvalidData
                    end in
  let! client_init := plain_next in
  let! (server, server_init) := with_gen (handle_client_init client_init) in
  do! plain_link (write_frame server_init) in
  let! client_finished := plain_next in
  let! result := invalid (handle_client_finished server client_finished) in
  do! plain_link (write_frame (connection_response Response.Accept OsType.Android)) in
  let! their_response := plain_next in
  let! their_response := invalid (Frames.parse their_response) in
  do! match their_response with
      | FConnectionResponse r =>
          match rsp_response r with Response.Accept => ret tt | _ => throw InvalidData end
      | _ => throw InvalidData
      end in
  let! (_, keys) := invalid (derive_all (dhs result) (client_init_msg result)
                               (server_init_msg result)) in
  ret (peer_name, Channel.new keys Server).


(** ** Step 7: the session loop *)

Record Session : Type := mkSession {
  fsm : Inbound.t;
  assembler : Assembler.t;
  next_payload_id : Z;
  sinks : gmap Z sink;
  expected : gmap Z FileMetadata;
  written : list (list byte);
  done_bytes : Z;
  total_bytes : Z;
  reported_bytes : Z;
  transfer_id : Z;
  pending : list Effect;
  upgraded : bool;
  upgrade_attempts : Z
}.

Inductive ServeOutcome : Type :=
| Received (names : list (list byte))
| OutCancelled.

(** What a part of the loop leaves: the session, or the function's [return]. *)
Inductive Flow : Type :=
| Continue (s : Session)
| Return (o : ServeOutcome).

(** [pending.extend(fsm.on(event))]. *)
Definition feed (e : Event) (s : Session) : Session :=
  let (effs, f) := Inbound.on e (fsm s) in
  mkSession f (assembler s) (next_payload_id s) (sinks s) (expected s) (written s)
    (done_bytes s) (total_bytes s) (reported_bytes s) (transfer_id s) (pending s ++ effs)
    (upgraded s) (upgrade_attempts s).

(** Assignments to the session's locals. *)
Definition set_pending (es : list Effect) (s : Session) : Session :=
  mkSession (fsm s) (assembler s) (next_payload_id s) (sinks s) (expected s) (written s)
    (done_bytes s) (total_bytes s) (reported_bytes s) (transfer_id s) es
    (upgraded s) (upgrade_attempts s).
Definition set_assembler (a : Assembler.t) (s : Session) : Session :=
  mkSession (fsm s) a (next_payload_id s) (sinks s) (expected s) (written s)
    (done_bytes s) (total_bytes s) (reported_bytes s) (transfer_id s) (pending s)
    (upgraded s) (upgrade_attempts s).
Definition set_next_payload_id (i : Z) (s : Session) : Session :=
  mkSession (fsm s) (assembler s) i (sinks s) (expected s) (written s)
    (done_bytes s) (total_bytes s) (reported_bytes s) (transfer_id s) (pending s)
    (upgraded s) (upgrade_attempts s).
Definition set_files (k : gmap Z sink) (e : gmap Z FileMetadata) (w : list (list byte))
    (s : Session) : Session :=
  mkSession (fsm s) (assembler s) (next_payload_id s) k e w
    (done_bytes s) (total_bytes s) (reported_bytes s) (transfer_id s) (pending s)
    (upgraded s) (upgrade_attempts s).
Definition set_offer (total transfer : Z) (s : Session) : Session :=
  mkSession (fsm s) (assembler s) (next_payload_id s) (sinks s) (expected s) (written s)
    (done_bytes s) total (reported_bytes s) transfer (pending s)
    (upgraded s) (upgrade_attempts s).
Definition set_progress (done reported : Z) (s : Session) : Session :=
  mkSession (fsm s) (assembler s) (next_payload_id s) (sinks s) (expected s) (written s)
    done (total_bytes s) reported (transfer_id s) (pending s)
    (upgraded s) (upgrade_attempts s).
Definition set_upgrade (up : bool) (attempts : Z) (s : Session) : Session :=
  mkSession (fsm s) (assembler s) (next_payload_id s) (sinks s) (expected s) (written s)
    (done_bytes s) (total_bytes s) (reported_bytes s) (transfer_id s) (pending s)
    up attempts.

(** [if transfer_id != 0 { transfers.finish(transfer_id) }]. *)
Definition finish (s : Session) : M Conn unit :=
  if transfer_id s =? 0 then ret tt else on_link (notify (Finished (transfer_id s))).

(** [for f in &intro.files { expected.insert(f.payload_id, f.clone()) }]. *)
Definition expect_files (fs : list FileMetadata) (m : gmap Z FileMetadata)
    : gmap Z FileMetadata :=
  fold_left (fun m f => <[fm_payload_id f := f]> m) fs m.

(** The arms of [match effect]. *)
Definition perform (slow : bool) (peer : list byte) (effect : Effect) (s : Session)
    : M Conn Flow :=
  match effect with
  | Send frame =>
      let (next_id, wires) := wrap_bytes (next_payload_id s) frame in
      do! send_each wires in
      ret (Continue (set_next_payload_id next_id s))
  | AskUser intro =>
      let total := as_u64 (Z.max (total_size intro) 0) in
      let s := set_offer total id s in
      let names := fm_name <$> files intro in
      do! on_link (notify (Offered id peer names (as_i64 total))) in
      let! accepted := on_link (ask_world (ask id peer (files intro))) in
      do! on_link (log (Asked id peer (files intro) accepted)) in
      ret (Continue (feed (if accepted then UserAccepted else UserRejected) s))
  | BeginReceiving intro =>
      let s := set_files (sinks s) (expect_files (files intro) (expected s)) (written s) s in
      if negb (upgraded s) && slow then
        let attempts := upgrade_attempts s + 1 in
        let! r := attempt offer_group in
        ret (Continue (set_upgrade (match r with Ok true => true | _ => upgraded s end)
                         attempts s))
      else ret (Continue s)
  | BeginSending _ => ret (Continue s)
  | EffDone =>
      do! send_frame (disconnection true false) in
      do! finish s in
      ret (Return (Received (written s)))
  | EffCancelled =>
      do! on_link (notify Discarded) in
      do! finish s in
      ret (Return OutCancelled)
  | EffFailed _ => do! finish s in throw InvalidData
  end.

(** [for effect in batch]. *)
Fixpoint perform_all (slow : bool) (peer : list byte) (batch : list Effect) (s : Session)
    : M Conn Flow :=
  match batch with
  | [] => ret (Continue s)
  | e :: batch =>
      let! f := perform slow peer e s in
      match f with
      | Continue s => perform_all slow peer batch s
      | Return o => ret (Return o)
      end
  end.

(** The sink of an announced payload, opened on its first chunk. *)
Definition sink_for (pid : Z) (name : list byte) (s : Session) : M Conn (sink * Session) :=
  match sinks s !! pid with
  | Some k => ret (k, s)
  | None =>
      let! o := on_link (ask_world (create name)) in
      match o with
      | None => throw OsError
      | Some k =>
          do! on_link (log (Opened pid name)) in
          ret (k, set_files (<[pid := k]> (sinks s)) (expected s) (written s ++ [name]) s)
      end
  end.

(** [if last { ... }]. *)
Definition close_sink (pid : Z) (k : sink) (s : Session) : M Conn Session :=
  let! flushed := on_link (ask_world (sink_flush k)) in
  if negb flushed then throw OsError
  else
    let s := set_files (delete pid (sinks s)) (delete pid (expected s)) (written s) s in
    ret (if bool_decide (expected s = ∅) then feed TransferComplete s else s).

(** From [sink.write_all] on. *)
Definition write_chunk (pid : Z) (k : sink) (data : list byte) (last : bool) (s : Session)
    : M Conn Session :=
  let! okay := on_link (ask_world (sink_write k data)) in
  if negb okay then throw OsError
  else
    do! on_link (log (Stored pid data)) in
    let done := done_bytes s + len data in
    let step := Z.max (total_bytes s / 100) (512 * 1024) in
    let report := last || (reported_bytes s =? 0) || (step <=? done - reported_bytes s) in
    let s := set_progress done (if report then done else reported_bytes s) s in
    do! (if report
         then do! on_link (notify (Progressed done (total_bytes s))) in
              on_link (notify (Reported (transfer_id s) done (total_bytes s)))
         else ret tt) in
    if last then close_sink pid k s else ret s.

(** [PayloadEvent::FileChunk]. *)
Definition store (pid : Z) (data : list byte) (last : bool) (header : PayloadHeader)
    (s : Session) : M Conn Session :=
  match expected s !! pid with
  | None => throw InvalidData
  | Some meta =>
      let name := if is_empty (fm_name meta) then ph_file_name header else fm_name meta in
      let! (k, s) := sink_for pid name s in
      write_chunk pid k data last s
  end.

(** [OfflineFrame::PayloadTransfer]. *)
Definition on_payload (pt : PayloadTransfer) (s : Session) : M Conn Session :=
  let (r, a) := Assembler.accept pt (assembler s) in
  let s := set_assembler a s in
  let! ev := invalid r in
  match ev with
  | EvBytes _ data =>
      let! frame := invalid (Sharing.parse data) in ret (feed (EvFrame frame) s)
  | EvFileChunk pid _ data last header => store pid data last header s
  | EvCancelled pid =>
      ret (feed UserCancelled (set_files (delete pid (sinks s)) (expected s) (written s) s))
  | EvFailed _ => throw InvalidData
  | EvPending => ret s
  end.

(** [OfflineFrame::BandwidthUpgrade]. *)
Definition on_upgrade (slow : bool) (body : list byte) (s : Session) : M Conn Session :=
  match Upgrade.parse body with
  | Ok (PathRequest mediums) =>
      if upgraded s then ret s
      else if negb slow || (MAX_UPGRADE_ATTEMPTS <=? upgrade_attempts s)
              || negb (bool_decide (Medium.WifiDirect ∈ mediums))
      then do! send_frame Upgrade.failure in ret s
      else
        let! r := offer_group in
        ret (set_upgrade (if r then true else upgraded s) (upgrade_attempts s + 1) s)
  | _ => ret s
  end.

(** [match parsed]. *)
Definition on_offline (slow : bool) (f : Frames.Frame) (s : Session) : M Conn Flow :=
  match f with
  | FPayloadTransfer pt => let! s := on_payload pt s in ret (Continue s)
  | FBandwidthUpgrade body => let! s := on_upgrade slow body s in ret (Continue s)
  | FKeepAlive false seq_num =>
      do! send_frame (keep_alive true seq_num) in ret (Continue s)
  | FDisconnection request_safe _ =>
      do! (if request_safe
           then let! _ := attempt (send_frame (disconnection false true)) in ret tt
           else ret tt) in
      do! finish s in
      ret (Return (Received (written s)))
  | _ => ret (Continue s)
  end.

(** One round of the [loop]. *)
Definition iteration (slow : bool) (peer : list byte) (s : Session) : M Conn Flow :=
  let batch := pending s in
  let! f := perform_all slow peer batch (set_pending [] s) in
  match f with
  | Return o => ret (Return o)
  | Continue s =>
      let! stop := on_link (ask_world cancelled) in
      if stop then ret (Continue (feed UserCancelled s))
      else if negb (is_empty (pending s)) then ret (Continue s)
      else
        let! p := pop_deferred in
        let! plain := match p with
                      | Some p => ret p
                      | None => let! wire := next_ in decrypt_ wire
                      end in
        let! parsed := invalid (Frames.parse plain) in
        on_offline slow parsed s
  end.

(** [Inbound::new()], [fsm.start()] and the other locals. *)
Definition session (g : rng) : Session * rng :=
  let '(effs, f, g) := Inbound.start g Inbound.new in
  (mkSession f Assembler.new 1 ∅ ∅ [] 0 0 0 0 effs false 0, g).

(** Where a run is after some rounds. *)
Inductive Progress : Type :=
| Running (s : Session)
| Ended (r : result ServeOutcome IoError).

Fixpoint rounds_of (n : nat) (slow : bool) (peer : list byte) (s : Session) (c : Conn)
    : Progress * Conn :=
  match n with
  | O => (Running s, c)
  | S n =>
      match iteration slow peer s c with
      | (Ok (Continue s), c) => rounds_of n slow peer s c
      | (Ok (Return o), c) => (Ended (Ok o), c)
      | (Err e, c) => (Ended (Err e), c)
      end
  end.

(** [serve], stopped after [n] rounds of its loop. *)
Definition serve (n : nat) (stream : list Read) (s : socket) (bootstrap : Medium.t)
    (w : world) (g : rng) : Progress * Link :=
  let slow := bool_decide (bootstrap = Medium.Bluetooth) in
  match establish (mkPlain (mkLink s w g []) (FrameStream.new stream)) with
  | (Err e, p) => (Ended (Err e), p_link p)
  | (Ok (peer, channel), p) =>
      let l := p_link p in
      let (sess, g) := session (gen l) in
      let (r, c) := rounds_of n slow peer sess
                      (mkConn (mkLink (out l) (wld l) g (trace l)) (p_input p) channel []) in
      (r, link c)
  end.

End Serve.

(** ** What a trace may contain *)

Section Spec.
Context `{World}.

(** The user said yes to a question that listed [m]. *)
Definition consented (tr : list Obs) (m : FileMetadata) : Prop :=
  exists t peer fs, Asked t peer fs true ∈ tr /\ m ∈ fs.

(** What may follow [tr]: a file is opened only for an announced and approved payload, under
    the name the user was shown if there was one; bytes go only to such a file, once it is
    open. *)
Definition allowed (tr : list Obs) (o : Obs) : Prop :=
  match o with
  | Opened pid name =>
      exists m, consented tr m /\ fm_payload_id m = pid /\ (fm_name m <> [] -> name = fm_name m)
  | Stored pid _ =>
      (exists m, consented tr m /\ fm_payload_id m = pid) /\ exists name, Opened pid name ∈ tr
  | _ => True
  end.

Definition obedient : list Obs -> Prop := obeys allowed.

Definition is_question (o : Obs) : bool := match o with Asked _ _ _ _ => true | _ => false end.
Definition questions (tr : list Obs) : nat := length (List.filter is_question tr).

Definition good (tr : list Obs) : Prop := obedient tr /\ (questions tr <= 1)%nat.

Lemma questions_app a b : questions (a ++ b) = (questions a + questions b)%nat.
Proof. unfold questions. by rewrite List.filter_app, length_app. Qed.

Lemma consented_mono tr l m : consented tr m -> consented (tr ++ l) m.
Proof. intros (t & p & fs & Hin & Hm). exists t, p, fs. split; [set_solver|done]. Qed.

Lemma good_quiet : stable quiet good.
Proof.
  intros tr o [Ho Hq] Hquiet. split.
  - apply obeys_snoc; [done|]. by destruct o.
  - rewrite questions_app. destruct o; cbn in *; done || lia.
Qed.

End Spec.

(** ** Lemmas *)

(** *** The state machine, as the loop uses it *)

Definition is_ask (e : Effect) : bool := match e with AskUser _ => true | _ => false end.
Definition asks (es : list Effect) : nat := length (List.filter is_ask es).

Lemma asks_app a b : asks (a ++ b) = (asks a + asks b)%nat.
Proof. unfold asks. by rewrite List.filter_app, length_app. Qed.

(** Before the introduction there is none to act on. *)
Definition early (f : Inbound.t) : Prop :=
  match Inbound.state f with
  | State.PairedKey | State.Introduction => Inbound.introduction f = None
  | _ => True
  end.

(** Either the peer's introduction is put to the user, the first one, or nothing is asked, and
    receiving begins only on the user's yes, for what was introduced. *)
Definition fed (e : Event) (f : Inbound.t) (effs : list Effect) (f' : Inbound.t) : Prop :=
  early f' /\
  ((exists i, effs = [AskUser i] /\ Inbound.introduction f = None
              /\ Inbound.introduction f' = Some i)
   \/ (Inbound.introduction f' = Inbound.introduction f /\ asks effs = 0%nat
       /\ forall i, BeginReceiving i ∈ effs ->
            e = UserAccepted /\ i = unwrap_or (Inbound.introduction f) Introduction_default)).

Lemma inbound_fed e f effs f' : early f -> Inbound.on e f = (effs, f') -> fed e f effs f'.
Proof.
  intros He. unfold Inbound.on, fed.
  destruct (State.is_over (Inbound.state f)) eqn:Ho.
  { intros [= <- <-]. split; [done|]. right. split_and!; [done|done|set_solver]. }
  destruct e as [g| | | |]; unfold Inbound.on_frame, Inbound.fail;
    try (case_bool_decide); try (intros [= <- <-]; split; [done|]; right;
      split_and!; [done|done|set_solver]).
  - unfold early in He |- *.
    destruct (Inbound.state f) eqn:Hst, g; try done;
      try (intros [= <- <-]; cbn [Inbound.set_state Inbound.state Inbound.introduction];
           rewrite ?Hst; split; [done|]; right; split_and!; [done|done|set_solver]).
    destruct (is_empty _ && is_empty _); intros [= <- <-]; cbn [Inbound.set_state Inbound.state
      Inbound.introduction]; (split; [done|]).
    + right. split_and!; [done|done|set_solver].
    + left. eauto.
Qed.

(** *** The handover writes, and nothing else *)

Section Quietly.
Context `{Host} `{Ec} `{Digest} `{Hmac} `{Cipher} `{Memcmp}.

Lemma quietly_drain_loop {A} n (ready : A -> world -> bool * A * world) a spent held :
  quietly (drain_loop n ready a spent held).
Proof.
  revert a spent held. induction n as [|n IH]; intros a spent held; cbn [drain_loop]; quietly.
Qed.

Lemma quietly_drain_old {A} (ready : A -> world -> bool * A * world) a held :
  quietly (drain_old ready a held).
Proof. unfold drain_old. quietly. apply quietly_drain_loop. Qed.

Lemma quietly_release_loop n : quietly (release_loop n).
Proof. induction n; cbn [release_loop]; quietly. Qed.

Lemma quietly_decline : quietly decline.
Proof. unfold decline. quietly. Qed.

#[local] Hint Resolve quietly_drain_old quietly_release_loop quietly_decline : quietly.

Lemma quietly_hand_over s i : quietly (hand_over s i).
Proof. unfold hand_over. quietly. Qed.

#[local] Hint Resolve quietly_hand_over : quietly.

Lemma quietly_offer_group : quietly offer_group.
Proof. unfold offer_group. quietly. Qed.

Lemma quietly_finish s : quietly (finish s).
Proof. unfold finish. quietly. Qed.

End Quietly.

#[export] Hint Resolve quietly_offer_group quietly_finish : quietly.

(** *** The loop's invariant *)

Section Invariant.
Context `{Host} `{Ec} `{Digest} `{Hmac} `{Cipher} `{Memcmp}.

(** The user was asked about [i] and said yes. *)
Definition approved (tr : list Obs) (i : Introduction) : Prop :=
  exists t peer, Asked t peer (files i) true ∈ tr.

(** [batch] are the effects still to be performed before the session's [pending]. *)
Record inv (batch : list Effect) (s : Session) (tr : list Obs) : Prop := mkInv {
  inv_good : good tr;
  inv_early : early (fsm s);
  inv_sinks : forall pid, is_Some (sinks s !! pid) -> exists name, Opened pid name ∈ tr;
  inv_expected : forall pid m, expected s !! pid = Some m -> fm_payload_id m = pid /\ consented tr m;
  inv_receive : forall i, BeginReceiving i ∈ batch ++ pending s -> approved tr i;
  inv_ask : forall i, AskUser i ∈ batch ++ pending s -> Inbound.introduction (fsm s) = Some i;
  inv_once : (asks (batch ++ pending s) + questions tr
              <= if Inbound.introduction (fsm s) then 1 else 0)%nat
}.

Lemma stable_inv batch s : stable quiet (inv batch s).
Proof.
  intros tr o [Hg He Hk Hx Hr Ha Ho] Hq. constructor; try done.
  - by apply good_quiet.
  - intros pid Hs. destruct (Hk pid Hs) as [name Hn]. exists name. set_solver.
  - intros pid m Hm. destruct (Hx pid m Hm). split; [done|]. by apply consented_mono.
  - intros i Hi. destruct (Hr i Hi) as (t & p & Hin). exists t, p. set_solver.
  - rewrite questions_app. destruct o; cbn in *; done || lia.
Qed.

Lemma inv_is_good batch s tr : inv batch s tr -> good tr.
Proof. by intros []. Qed.

Lemma asks_0 es i : asks es = 0%nat -> AskUser i ∉ es.
Proof.
  intros Ha Hin. apply list_elem_of_split in Hin as (a & b & ->).
  rewrite asks_app in Ha. unfold asks in Ha. cbn in Ha. lia.
Qed.

(** An event other than the user's yes. *)
Lemma feed_inv e batch s tr :
  inv batch s tr ->
  (e = UserAccepted -> exists i, Inbound.introduction (fsm s) = Some i /\ approved tr i) ->
  inv batch (feed e s) tr.
Proof.
  intros [Hg He Hk Hx Hr Ha Ho] Hyes. unfold feed.
  destruct (Inbound.on e (fsm s)) as [effs f'] eqn:Hon.
  apply inbound_fed in Hon as [He' Hcase]; [|done].
  constructor; cbn [fsm sinks expected pending]; try done; rewrite ?app_assoc.
  - intros i [Hi|Hi]%elem_of_app; [by apply Hr|].
    destruct Hcase as [(j & -> & _)|(_ & _ & Hb)]; [set_solver|].
    destruct (Hb i Hi) as [-> ->]. destruct (Hyes eq_refl) as (j & -> & Hj). done.
  - intros i [Hi|Hi]%elem_of_app.
    + destruct Hcase as [(j & _ & Hn & _)|(-> & _)]; [|by apply Ha].
      rewrite (Ha i Hi) in Hn. done.
    + destruct Hcase as [(j & -> & _ & ->)|(_ & Hz & _)]; [set_solver|].
      by apply (asks_0 _ i) in Hz.
  - rewrite asks_app. destruct Hcase as [(j & -> & Hn & ->)|(-> & -> & _)]; [|lia].
    rewrite Hn in Ho. cbn. lia.
Qed.

(** Moving to the batch what is pending, and a session whose other fields do not matter. *)
Lemma take_pending_inv s tr : inv [] s tr -> inv (pending s) (set_pending [] s) tr.
Proof.
  intros [Hg He Hk Hx Hr Ha Ho]. constructor; cbn [fsm sinks expected pending set_pending] in *;
    rewrite ?app_nil_r; done.
Qed.

Lemma inv_upto batch s s' tr :
  fsm s' = fsm s -> sinks s' = sinks s -> expected s' = expected s -> pending s' = pending s ->
  inv batch s tr -> inv batch s' tr.
Proof.
  intros Hf Hk Hx Hp [Hg He Hk' Hx' Hr Ha Ho].
  constructor; rewrite ?Hf, ?Hk, ?Hx, ?Hp; done.
Qed.

(** The first effect of the batch has been performed. *)
Lemma inv_tail e batch s tr : inv (e :: batch) s tr -> inv batch s tr.
Proof.
  intros [Hg He Hk Hx Hr Ha Ho]. constructor; try done.
  - intros i Hi. apply Hr. set_solver.
  - intros i Hi. apply Ha. set_solver.
  - cbn [app] in Ho. change (e :: (batch ++ pending s)) with ([e] ++ (batch ++ pending s)) in Ho.
    rewrite (asks_app [e]) in Ho. lia.
Qed.

Lemma expect_files_lookup fs m pid f :
  expect_files fs m !! pid = Some f ->
  (f ∈ fs /\ fm_payload_id f = pid) \/ m !! pid = Some f.
Proof.
  revert m. unfold expect_files. induction fs as [|g fs IH]; intros m; cbn [fold_left]; [by right|].
  intros Hl. destruct (IH _ Hl) as [[Hin Hid]|Hin]; [left; split; [set_solver|done]|].
  apply lookup_insert_Some in Hin as [[<- <-]|[_ Hin]]; [left; split; [set_solver|done]|by right].
Qed.

Lemma expect_inv batch i s tr :
  approved tr i -> inv batch s tr ->
  inv batch (set_files (sinks s) (expect_files (files i) (expected s)) (written s) s) tr.
Proof.
  intros (t & p & Hin) [Hg He Hk Hx Hr Ha Ho].
  constructor; cbn [fsm sinks expected pending set_files]; try done.
  intros pid m [[Hm Hid]|Hm]%expect_files_lookup; [|by apply Hx].
  split; [done|]. by exists t, p, (files i).
Qed.

(** The user has answered the pending question. *)
Lemma answered_inv batch i s tr t peer (a : bool) :
  inv (AskUser i :: batch) s tr ->
  inv batch (feed (if a then UserAccepted else UserRejected) s)
      (tr ++ [Asked t peer (files i) a]).
Proof.
  intros Hinv. pose proof (inv_ask _ _ _ Hinv i ltac:(set_solver)) as Hi.
  apply feed_inv.
  - destruct Hinv as [[Hob Hq1] He Hk Hx Hr Ha Ho]. rewrite Hi in Ho.
    cbn [app] in Ho. change (AskUser i :: (batch ++ pending s))
      with ([AskUser i] ++ (batch ++ pending s)) in Ho. rewrite (asks_app [AskUser i]) in Ho.
    change (asks [AskUser i]) with 1%nat in Ho.
    constructor; try done.
    + split; [by apply obeys_snoc|]. rewrite questions_app. cbn. lia.
    + intros pid Hs. destruct (Hk pid Hs) as [name Hn]. exists name. set_solver.
    + intros pid m Hm. destruct (Hx pid m Hm). split; [done|]. by apply consented_mono.
    + intros j Hj. destruct (Hr j ltac:(set_solver)) as (t' & p' & Hin). exists t', p'. set_solver.
    + intros j Hj. apply Ha. set_solver.
    + rewrite Hi, questions_app. cbn. lia.
  - destruct a; [|done]. intros _. exists i. split; [done|]. exists t, peer. set_solver.
Qed.

(** *** The parts of the loop *)

Definition kept (batch : list Effect) (f : Flow) (tr : list Obs) : Prop :=
  match f with Continue s => inv batch s tr | Return _ => good tr end.

Ltac skip :=
  apply triple_skip with (R := quiet); [solve [quietly]|apply stable_inv|apply inv_is_good|intros ?].

Lemma perform_kept slow peer e batch s :
  triple (S := Conn) (inv (e :: batch) s) (perform slow peer e s) (kept batch) good.
Proof.
  destruct e as [f|i|i|i| |why|]; cbn [perform].
  - destruct (wrap_bytes _ f) as [next wires]. skip. apply triple_ret. intros tr Hi.
    by eapply inv_upto; [..|eapply inv_tail, Hi].
  - eapply triple_pre; [intros tr Hi; exact (inv_upto _ s (set_offer (as_u64 (Z.max (total_size i) 0)) id s) _ eq_refl
      eq_refl eq_refl eq_refl Hi)|].
    skip. skip. eapply triple_bind with (R := fun _ => inv batch (feed _ _)).
    2:{ intros _. by apply triple_ret. }
    intros c Hc. by apply answered_inv.
  - apply triple_ret. intros tr. apply inv_tail.
  - eapply triple_pre.
    { intros tr Hi. apply (expect_inv batch i); [|by eapply inv_tail].
      apply (inv_receive _ _ _ Hi). set_solver. }
    destruct (_ && _); [|by apply triple_ret]. skip. apply triple_ret.
    intros tr. by apply inv_upto.
  - skip. skip. apply triple_ret. apply inv_is_good.
  - skip. apply triple_throw. apply inv_is_good.
  - skip. skip. apply triple_ret. apply inv_is_good.
Qed.

Lemma perform_all_kept slow peer batch s :
  triple (S := Conn) (inv batch s) (perform_all slow peer batch s) (kept []) good.
Proof.
  revert s. induction batch as [|e batch IH]; intros s; cbn [perform_all]; [by apply triple_ret|].
  eapply triple_bind; [apply perform_kept|]. intros [s'|o]; [apply IH|by apply triple_ret].
Qed.

Lemma delete_inv batch pid s tr : inv batch s tr ->
  inv batch (set_files (delete pid (sinks s)) (delete pid (expected s)) (written s) s) tr /\
  inv batch (set_files (delete pid (sinks s)) (expected s) (written s) s) tr.
Proof.
  intros [Hg He Hk Hx Hr Ha Ho].
  assert (Hk' : forall q, is_Some (delete pid (sinks s) !! q) -> exists name, Opened q name ∈ tr).
  { intros q [k Hq]. apply lookup_delete_Some in Hq as [_ Hq]. apply Hk. by exists k. }
  split; constructor; cbn [fsm sinks expected pending set_files]; try done.
  intros q m Hq. apply lookup_delete_Some in Hq as [_ Hq]. by apply Hx.
Qed.

(** A file's sink, opened on the first chunk. *)
Lemma opened_inv pid name m k s tr :
  expected s !! pid = Some m -> (fm_name m <> [] -> name = fm_name m) -> inv [] s tr ->
  inv [] (set_files (<[pid := k]> (sinks s)) (expected s) (written s ++ [name]) s)
      (tr ++ [Opened pid name]).
Proof.
  intros Hm Hname [[Hob Hq] He Hk Hx Hr Ha Ho]. destruct (Hx _ _ Hm) as [Hid Hc].
  constructor; cbn [fsm sinks expected pending set_files]; try done.
  - split; [apply obeys_snoc; [done|by exists m]|]. rewrite questions_app. cbn. lia.
  - intros q [k' [[<- _]|[_ Hq']]%lookup_insert_Some]; [exists name; set_solver|].
    destruct (Hk q ltac:(by exists k')) as [n Hn]. exists n. set_solver.
  - intros q m' Hm'. destruct (Hx q m' Hm'). split; [done|]. by apply consented_mono.
  - intros i Hi. destruct (Hr i Hi) as (t & p & Hin). exists t, p. set_solver.
  - rewrite questions_app. cbn in *. lia.
Qed.

Lemma stored_inv pid m data s tr :
  expected s !! pid = Some m -> is_Some (sinks s !! pid) -> inv [] s tr ->
  inv [] s (tr ++ [Stored pid data]).
Proof.
  intros Hm Hs [[Hob Hq] He Hk Hx Hr Ha Ho]. destruct (Hx _ _ Hm) as [Hid Hc].
  constructor; try done.
  - split; [apply obeys_snoc; [done|]|rewrite questions_app; cbn; lia].
    split; [by exists m|by apply Hk].
  - intros q Hq'. destruct (Hk q Hq') as [n Hn]. exists n. set_solver.
  - intros q m' Hm'. destruct (Hx q m' Hm'). split; [done|]. by apply consented_mono.
  - intros i Hi. destruct (Hr i Hi) as (t & p & Hin). exists t, p. set_solver.
  - rewrite questions_app. cbn in *. lia.
Qed.

(** [s] is about to write to the sink of [pid], which was announced as [m]. *)
Definition inv_open (pid : Z) (m : FileMetadata) (s : Session) (tr : list Obs) : Prop :=
  inv [] s tr /\ expected s !! pid = Some m /\ is_Some (sinks s !! pid).

Lemma sink_for_kept pid name m s :
  expected s !! pid = Some m -> (fm_name m <> [] -> name = fm_name m) ->
  triple (S := Conn) (inv [] s) (sink_for pid name s) (fun '(_, s') => inv_open pid m s') good.
Proof.
  intros Hm Hname. unfold sink_for, inv_open. destruct (sinks s !! pid) as [k|] eqn:Hk.
  { apply triple_ret. intros tr Hi. by rewrite Hm, Hk. }
  skip. destruct a as [k|]; [|apply triple_throw, inv_is_good].
  eapply triple_bind with (R := fun _ => inv [] (set_files _ _ _ s)).
  2:{ intros _. apply triple_ret. intros tr Hi. split; [exact Hi|]. cbn.
      split; [done|]. by rewrite lookup_insert_eq. }
  intros c Hc. by eapply opened_inv.
Qed.

Lemma close_sink_kept pid k s :
  triple (S := Conn) (inv [] s) (close_sink pid k s) (inv []) good.
Proof.
  unfold close_sink. skip. destruct (negb a); [apply triple_throw, inv_is_good|].
  apply triple_ret. intros tr Hi. pose proof (proj1 (delete_inv _ pid _ _ Hi)) as Hd.
  case_bool_decide; [|done]. by apply feed_inv.
Qed.

Lemma write_chunk_kept pid k data last m s :
  triple (S := Conn) (inv_open pid m s) (write_chunk pid k data last s) (inv []) good.
Proof.
  unfold write_chunk. apply triple_assume. intros [Hm Hk].
  skip. destruct (negb a); [apply triple_throw, inv_is_good|].
  eapply triple_bind with (R := fun _ => inv [] s); [intros c Hi; by eapply stored_inv|].
  intros _. cbv zeta.
  match goal with |- context [set_progress ?d ?r s] =>
    apply triple_pre with (P' := inv [] (set_progress d r s)); [intros tr; by apply inv_upto|]
  end.
  skip. destruct last; [apply close_sink_kept|by apply triple_ret].
Qed.

Lemma store_kept pid data last header s :
  triple (S := Conn) (inv [] s) (store pid data last header s) (inv []) good.
Proof.
  unfold store. destruct (expected s !! pid) as [m|] eqn:Hm.
  2:{ apply triple_throw, inv_is_good. }
  eapply triple_bind; [apply (sink_for_kept _ _ m); [done|by destruct (fm_name m)]|].
  intros [k s']. apply write_chunk_kept.
Qed.

Lemma on_payload_kept pt s :
  triple (S := Conn) (inv [] s) (on_payload pt s) (inv []) good.
Proof.
  unfold on_payload. destruct (Assembler.accept pt (assembler s)) as [r a].
  eapply triple_pre; [intros tr Hi; exact (inv_upto _ s (set_assembler a s) _ eq_refl eq_refl
    eq_refl eq_refl Hi)|].
  skip. destruct a0 as [pid data|pid off data last header|pid|pid|].
  - skip. apply triple_ret. intros tr Hi. by apply feed_inv.
  - apply store_kept.
  - apply triple_ret. intros tr Hi. apply feed_inv; [|done]. by apply (delete_inv [] pid).
  - apply triple_throw, inv_is_good.
  - by apply triple_ret.
Qed.

Lemma on_upgrade_kept slow body s :
  triple (S := Conn) (inv [] s) (on_upgrade slow body s) (inv []) good.
Proof.
  unfold on_upgrade. destruct (Upgrade.parse body) as [[]|]; try (by apply triple_ret).
  destruct (upgraded s); [by apply triple_ret|]. destruct (_ || _).
  - skip. by apply triple_ret.
  - skip. apply triple_ret. intros tr. by apply inv_upto.
Qed.

Lemma iteration_kept slow peer s :
  triple (S := Conn) (inv [] s) (iteration slow peer s) (kept []) good.
Proof.
  unfold iteration. eapply triple_pre; [apply take_pending_inv|].
  eapply triple_bind; [apply perform_all_kept|]. intros [s'|o]; [|by apply triple_ret].
  cbn [kept]. skip. destruct a.
  { apply triple_ret. intros tr Hi. by apply feed_inv. }
  destruct (negb _); [by apply triple_ret|]. skip. skip. skip.
  destruct a1; cbn [on_offline]; try (by apply triple_ret).
  - eapply triple_bind; [apply on_payload_kept|]. intros s2. by apply triple_ret.
  - destruct ack; [by apply triple_ret|]. skip. by apply triple_ret.
  - skip. skip. apply triple_ret, inv_is_good.
  - eapply triple_bind; [apply on_upgrade_kept|]. intros s2. by apply triple_ret.
Qed.

Lemma rounds_good n slow peer s c :
  inv [] s (trace_of c) -> good (trace_of (snd (rounds_of n slow peer s c))).
Proof.
  revert s c. induction n as [|n IH]; intros s c Hi; cbn [rounds_of]; [by eapply inv_is_good|].
  pose proof (iteration_kept slow peer s c Hi) as Hk.
  destruct (iteration slow peer s c) as [[[s'|o]|e] c']; [by apply IH|done..].
Qed.

Lemma quietly_establish : quietly establish.
Proof. unfold establish. quietly. Qed.

Lemma session_inv g tr : good tr -> questions tr = 0%nat -> inv [] (fst (session g)) tr.
Proof.
  intros Hg Hq. unfold session, Inbound.start. cbn [Inbound.new Inbound.sent_paired_key].
  destruct (paired_key_encryption g) as [[f|e] g']; constructor; cbn; rewrite ?Hq; try done;
    try (intros pid Hs; rewrite lookup_empty in Hs; by destruct Hs);
    try (intros pid m Hs; by rewrite lookup_empty in Hs); set_solver.
Qed.

Lemma quiet_questions l : Forall quiet l -> questions l = 0%nat.
Proof. induction 1 as [|o l Ho _ IH]; [done|]. by destruct o. Qed.

Lemma serve_good n stream s bootstrap w g : good (trace (snd (serve n stream s bootstrap w g))).
Proof.
  unfold serve. set (p0 := mkPlain _ _). destruct (quietly_establish p0) as (l & Hl & Hq).
  assert (Hg : good l /\ questions l = 0%nat).
  { split; [|by apply quiet_questions]. apply (stable_app quiet good [] l); [apply good_quiet| |done].
    split; [apply obeys_nil|cbn; lia]. }
  destruct (establish p0) as [[[peer ch]|e] p]; change (trace (p_link p) = l) in Hl;
    [|cbn [snd]; rewrite Hl; apply Hg].
  destruct (session (gen (p_link p))) as [sess g'] eqn:Hs.
  pose proof (session_inv (gen (p_link p)) l (proj1 Hg) (proj2 Hg)) as Hi. rewrite Hs in Hi.
  set (c0 := mkConn _ _ _ _).
  pose proof (rounds_good n (bool_decide (bootstrap = Medium.Bluetooth)) peer sess c0) as Hr.
  assert (Hc : trace_of c0 = l) by exact Hl. rewrite Hc in Hr. specialize (Hr Hi).
  by destruct (rounds_of _ _ _ _ _).
Qed.

End Invariant.

(** ** Properties *)

(** C2: nothing lands that was not approved.  Whatever the peer sends, however the network
    delivers it, whatever the clients answer and however many rounds the loop runs, also
    across a handover: at most one question is put to the user; a file is opened only for a
    payload that an introduction announced and the user, asked about that very list, said yes
    to; if the name shown there is not empty, the file is opened under it; and bytes are written
    only to such a file.  Where the name shown is empty the theorem leaves the name open: the
    code takes it from the header of the payload, which the peer sends later and nobody is shown
    (the example [an_unnamed_file]). *)
Theorem stores_only_what_was_approved `{Host} `{Ec} `{Digest} `{Hmac} `{Cipher} `{Memcmp}
    n stream s bootstrap w g :
  let tr := trace (snd (serve n stream s bootstrap w g)) in
  (questions tr <= 1)%nat /\
  (forall pre pid name post, tr = pre ++ Opened pid name :: post ->
     exists m, consented pre m /\ fm_payload_id m = pid /\
               (fm_name m <> [] -> name = fm_name m)) /\
  (forall pre pid data post, tr = pre ++ Stored pid data :: post ->
     (exists m, consented pre m /\ fm_payload_id m = pid) /\
     exists name, Opened pid name ∈ pre).
Proof.
  intros tr. destruct (serve_good n stream s bootstrap w g) as [Ho Hq].
  split; [done|]. split; intros pre pid x post; apply Ho.
Qed.

(** *** A concrete run *)

Module ToyRun.

(** A network that works and a user who says yes. *)
#[local] Instance toy_world : World := {|
  Stream.world := unit; socket := list Read; incoming s := s;
  write_all _ _ w := (true, w);
  ready_within w := (Some true, w);
  Stream.rounds w := (0%nat, w);
  try_clone _ w := (true, w);
  cancelled w := (false, w);
  notice _ w := w
|}.

#[local] Instance toy_host : Host := {|
  sink := unit; Stream.id := 9;
  ask _ _ _ w := (true, w);
  create _ w := (Some tt, w);
  sink_write _ _ w := (true, w);
  sink_flush _ w := (true, w);
  host_group w := (None, w);
  worker_finished w := (true, w);
  bind w := (false, w);
  local_port w := (None, w);
  accept w := (WouldBlock, w)
|}.

#[local] Existing Instances Toy.rand Toy.hmac Toy.cipher Toy.memcmp Toy.digest Toy.ec.

Definition intro : Introduction :=
  mkIntroduction [mkFileMetadata (str "a.txt") FileType.Document 7 5 (str "text/plain") 7 [] 0
                    false] [] true.

Definition file_header : PayloadHeader := mkPayloadHeader 7 PayloadType.File 5 false [] [].

(** A sender's frames up to its files, and what follows. *)
Definition frames (rest : list (list byte)) : list (list byte) :=
  mjoin ((fun '(i, f) => snd (wrap_bytes i f)) <$>
    [(1, paired_key_result PairedKeyResult.Unable); (2, introduction intro)]) ++ rest.

Definition chunk (last : bool) (offset : Z) (b : list byte) : list byte :=
  payload_data file_header (mkPayloadChunk (if last then FLAG_LAST_CHUNK else 0) offset b).

(** The loop over frames that are already decrypted: how it ends, and what was asked and done
    with files. *)
Definition run (fs : list (list byte)) : option (list (list byte)) * list Obs :=
  let (sess, g) := session (1 : rng) in
  let (r, c) := rounds_of 20 false (str "peer") sess
    (mkConn (mkLink (@nil Read) tt g []) (FrameStream.new [])
       (Channel.new toy_keys Server) fs) in
  (match r with Ended (Ok (Received names)) => Some names | _ => None end,
   List.filter (fun o => match o with Wrote _ _ => false
                         | Noticed (Progressed _ _) | Noticed (Reported _ _ _) => false | _ => true end) (trace (link c))).

(** A share goes through. *)
Example a_share :
  run (frames [chunk false 0 (str "hel"); chunk true 3 (str "lo")]) =
  (Some [str "a.txt"],
   [Noticed (Offered 9 (str "peer") [str "a.txt"] 5);
    Asked 9 (str "peer") (files intro) true;
    Opened 7 (str "a.txt"); Stored 7 (str "hel"); Stored 7 (str "lo");
    Noticed (Finished 9)]).
Proof. vm_compute. reflexivity. Qed.

(** A file that is announced without a name is stored under the name its payload carries, which
    the user, asked about a nameless file, has not seen. *)
Definition unnamed : Introduction :=
  mkIntroduction [mkFileMetadata [] FileType.Document 7 5 (str "text/plain") 7 [] 0 false] [] true.
Definition named_later : PayloadHeader := mkPayloadHeader 7 PayloadType.File 5 false (str "later.apk") [].

Example an_unnamed_file :
  run ((mjoin ((fun '(i, f) => snd (wrap_bytes i f)) <$>
          [(1, paired_key_result PairedKeyResult.Unable); (2, introduction unnamed)]))
       ++ [payload_data named_later (mkPayloadChunk FLAG_LAST_CHUNK 0 (str "hello"))]) =
  (Some [str "later.apk"],
   [Noticed (Offered 9 (str "peer") [[]] 5);
    Asked 9 (str "peer") (files unnamed) true;
    Opened 7 (str "later.apk"); Stored 7 (str "hello"); Noticed (Finished 9)]).
Proof. vm_compute. reflexivity. Qed.

(** A peer that leaves in the middle of a file: the truncated file stays where it is, and the
    session reports it as received. *)
Example a_truncated_file_is_received :
  run (frames [chunk false 0 (str "hel"); disconnection false false]) =
  (Some [str "a.txt"],
   [Noticed (Offered 9 (str "peer") [str "a.txt"] 5);
    Asked 9 (str "peer") (files intro) true;
    Opened 7 (str "a.txt"); Stored 7 (str "hel"); Noticed (Finished 9)]).
Proof. vm_compute. reflexivity. Qed.

End ToyRun.
