(* ===== verification/Outbound.v ===== *)
(** * The sending session ([sharingd/src/quickshare/outbound.rs])

    [send] from the connection request to the end of the last file: the client half of the
    handshake, the session loop, the move to the medium a peer offers, and the streaming of
    files.  The theorems say which addresses a peer can make the daemon dial, when the first
    byte of a file leaves, and what leaves for a file. *)

From stdpp Require Import sets.
From S2P Require Import Prelude Utf8 Crypto Framing Frames Sharing Upgrade Payload Handshake.
From S2P Require Import D2d Channel Pin Fsm Endpoint Stream.

Definition CHUNK : Z := 512 * 1024.
Definition STA_FREQUENCY_UNKNOWN : Z := -1.

(** A file to send; its reader is what its [read] calls will return. *)
Record OutFile : Type := mkOutFile {
  of_name : list byte;
  of_mime : list byte;
  of_size : Z;
  of_reader : list Read
}.

Record WifiJoin : Type := mkWifiJoin {
  wj_medium : Medium.t;
  wj_ssid : list byte;
  wj_passphrase : list byte;
  wj_gateway : list byte;
  wj_port : Z;
  wj_frequency : Z
}.

(** [std::net::IpAddr], as octets. *)
Inductive IpAddr : Type :=
| V4 (o : list byte)
| V6 (o : list byte).

(** The rest of the trait [Progress], and the calls to the system. *)
Class Sender `{World} : Type := {
  getrandom : Z -> world -> list byte * world;
  confirm_pin : list byte -> world -> bool * world;
  join_wifi : WifiJoin -> world -> option socket * world;
  connect : IpAddr -> Z -> world -> option socket * world;
  unacked : socket -> world -> option Z * world
}.

(** ** Addresses *)

Definition octet (o : list byte) (i : nat) : Z := u8 (nth i o (to_u8 0)).

(** [std::net::Ipv4Addr]. *)
Definition v4_is_loopback (o : list byte) : bool := octet o 0 =? 127.
Definition v4_is_unspecified (o : list byte) : bool := forallb (fun b => u8 b =? 0) o.
Definition v4_is_multicast (o : list byte) : bool := (224 <=? octet o 0) && (octet o 0 <=? 239).
Definition v4_is_broadcast (o : list byte) : bool := forallb (fun b => u8 b =? 255) o.
Definition v4_is_link_local (o : list byte) : bool := (octet o 0 =? 169) && (octet o 1 =? 254).
Definition v4_is_documentation (o : list byte) : bool :=
  ((octet o 0 =? 192) && (octet o 1 =? 0) && (octet o 2 =? 2))
  || ((octet o 0 =? 198) && (octet o 1 =? 51) && (octet o 2 =? 100))
  || ((octet o 0 =? 203) && (octet o 1 =? 0) && (octet o 2 =? 113)).
Definition v4_is_private (o : list byte) : bool :=
  (octet o 0 =? 10)
  || ((octet o 0 =? 172) && (16 <=? octet o 1) && (octet o 1 <=? 31))
  || ((octet o 0 =? 192) && (octet o 1 =? 168)).

(** [std::net::Ipv6Addr]. *)
Definition v6_is_loopback (o : list byte) : bool :=
  forallb (fun b => u8 b =? 0) (take 15 o) && (octet o 15 =? 1).
Definition v6_is_unspecified (o : list byte) : bool := forallb (fun b => u8 b =? 0) o.
Definition v6_is_multicast (o : list byte) : bool := octet o 0 =? 0xFF.
Definition v6_to_ipv4_mapped (o : list byte) : option (list byte) :=
  if forallb (fun b => u8 b =? 0) (take 10 o) && (octet o 10 =? 0xFF) && (octet o 11 =? 0xFF)
  then Some (drop 12 o) else None.

Definition is_plausible_v4 (o : list byte) : bool :=
  if v4_is_loopback o || v4_is_unspecified o || v4_is_multicast o || v4_is_broadcast o
     || v4_is_link_local o || v4_is_documentation o
  then false else v4_is_private o.

Definition is_plausible_peer (ip : IpAddr) : bool :=
  match ip with
  | V4 o => is_plausible_v4 o
  | V6 o =>
      if v6_is_loopback o || v6_is_unspecified o || v6_is_multicast o then false
      else if (octet o 0 =? 0xFE) && (Z.land (octet o 1) 0xC0 =? 0x80) then false
      else match v6_to_ipv4_mapped o with
           | Some m => is_plausible_v4 m
           | None => Z.land (octet o 0) 0xFE =? 0xFC
           end
  end.

(** ** Reading a file *)

(** [while filled < buf.len() { match file.reader.read(&mut buf[filled..])? { ... } }]: a read
    returns at most the room left, and the rest of what was there stays. *)
Fixpoint fill (cap : Z) (filled : list byte) (r : list Read) : result (list byte) IoError * list Read :=
  if cap <=? len filled then (Ok filled, r)
  else
    match r with
    | [] => (Ok filled, [])
    | ReadError :: r => (Err OsError, r)
    | Data b :: r =>
        if is_empty b then (Ok filled, r)
        else
          let room := cap - len filled in
          if len b <=? room then fill cap (filled ++ b) r
          else (Ok (filled ++ take (Z.to_nat room) b), Data (drop (Z.to_nat room) b) :: r)
    end.

(** [u16::try_from]. *)
Definition u16_try_from (z : Z) : option Z := if (0 <=? z) && (z <? 65536) then Some z else None.

Section Send.
Context `{Sender} `{Ec} `{Digest} `{Hmac} `{Cipher} `{Memcmp}.

(** ** Moving to another medium *)

(** Inner [None]: a decline. *)
Definition acquire (path : UpgradePath) : M Link (option socket) :=
  match up_wifi path with
  | Some w =>
      match u16_try_from (wc_port w) with
      | None => ret None
      | Some port =>
          let gateway := if bool_decide (wc_gateway w = str "0.0.0.0") then [] else wc_gateway w in
          ask_world (join_wifi (mkWifiJoin (up_medium path) (wc_ssid w) (wc_password w) gateway
                                  port (wc_frequency w)))
      end
  | None =>
      match up_lan path with
      | None => ret None
      | Some lan =>
          let ip := if len (lan_ip lan) =? 4 then Some (V4 (lan_ip lan))
                    else if len (lan_ip lan) =? 16 then Some (V6 (lan_ip lan))
                    else None in
          match ip with
          | None => ret None
          | Some ip =>
              match u16_try_from (lan_port lan) with
              | None => ret None
              | Some port =>
                  if negb (is_plausible_peer ip) then ret None
                  else
                    do! log (Dialled (lan_ip lan) port) in
                    let! s := ask_world (connect ip port) in
                    match s with
                    | Some s => ret (Some s)
                    | None => throw OsError
                    end
              end
          end
      end
  end.

(** [while !peer_released]; [n] rounds fit before the deadline.  The result is
    [(we_released, peer_released)]. *)
Fixpoint adopt_loop (n : nat) (we_released : bool) : M Conn (bool * bool) :=
  match n with
  | O => ret (we_released, false)
  | S n =>
      let! wire := next_within_ in
      match wire with
      | None => ret (we_released, false)
      | Some wire =>
          let! plain := decrypt_ wire in
          match Frames.parse plain with
          | Ok (FBandwidthUpgrade b) =>
              match Upgrade.parse b with
              | Ok LastWriteToPrior =>
                  if we_released then adopt_loop n true
                  else
                    do! send_frame (safe_to_close_prior STA_FREQUENCY_UNKNOWN) in
                    adopt_loop n true
              | Ok (SafeToClosePrior _) => ret (we_released, true)
              | _ => do! push_deferred plain in adopt_loop n we_released
              end
          | _ => do! push_deferred plain in adopt_loop n we_released
          end
      end
  end.

(** [adopt] once a socket has been acquired. *)
Definition adopt_on (path : UpgradePath) (endpoint_id : list byte) (sock : socket) : M Conn bool :=
  let! cloned := on_link (ask_world (try_clone sock)) in
  if negb cloned then throw OsError
  else
    let new_in := FrameStream.new (incoming sock) in
    do! on_link (write_frame_to sock (client_introduction endpoint_id)) in
    let! new_in :=
      if up_supports_introduction_ack path then
        let! (reply, new_in) := next_of new_in in
        match reply with
        | None => throw InvalidData
        | Some reply =>
            match map_opt Upgrade.parse (Frames.upgrade_body reply) with
            | Some (Ok ClientIntroductionAck) => ret new_in
            | _ => throw InvalidData
            end
        end
      else ret new_in in
    do! send_frame last_write_to_prior in
    let! n := on_link (ask_world rounds) in
    let! (we_released, _) := adopt_loop n false in
    do! (if we_released then ret tt
         else send_frame (safe_to_close_prior STA_FREQUENCY_UNKNOWN)) in
    do! swap new_in sock in
    ret true.

(** With the socket [out_fd] is set to, if one was acquired; its failures are handled by the
    only caller and come back as a value. *)
Definition adopt (path : UpgradePath) (endpoint_id : list byte)
    : M Conn (result bool IoError * option socket) :=
  let! s := attempt (on_link (acquire path)) in
  match s with
  | Err e => ret (Err e, None)
  | Ok None =>
      let! r := attempt (do! send_frame Upgrade.failure in ret false) in ret (r, None)
  | Ok (Some sock) => let! r := attempt (adopt_on path endpoint_id sock) in ret (r, Some sock)
  end.

(** The new [out_fd], if it was set. *)
Definition on_upgrade_frame (body endpoint_id : list byte) : M Conn (option socket) :=
  match Upgrade.parse body with
  | Ok (PathAvailable path) =>
      let! (r, fd) := adopt path endpoint_id in
      do! match r with
          | Ok _ => ret tt
          | Err _ => send_frame Upgrade.failure
          end in
      ret fd
  | _ => ret None
  end.

Fixpoint wait_loop (n : nat) (endpoint_id : list byte) : M Conn (option socket) :=
  match n with
  | O => ret None
  | S n =>
      let! stop := on_link (ask_world cancelled) in
      if stop then ret None
      else
        let! wire := next_within_ in
        match wire with
        | None => wait_loop n endpoint_id
        | Some wire =>
            let! plain := decrypt_ wire in
            let! f := invalid (Frames.parse plain) in
            match f with
            | FBandwidthUpgrade body => on_upgrade_frame body endpoint_id
            | _ => do! push_deferred plain in wait_loop n endpoint_id
            end
        end
  end.

Definition wait_for_upgrade (endpoint_id : list byte) : M Conn (option socket) :=
  let! n := on_link (ask_world rounds) in wait_loop n endpoint_id.

(** ** Streaming *)

(** The [loop] of [send_one]: [Some] are the offset and [done] at the end of the file, [None]
    is a cancellation.  Every round but the last takes [CHUNK] bytes off the reader. *)
Fixpoint send_loop (fuel : nat) (header : PayloadHeader) (reader : list Read) (offset done total : Z)
    : M Conn (option (Z * Z) * list Read) :=
  match fuel with
  | O => throw OsError
  | S fuel =>
      let! stop := on_link (ask_world cancelled) in
      if stop then ret (None, reader)
      else
        let (body, reader) := fill CHUNK [] reader in
        let! body := lift body in
        let eof := len body <? CHUNK in
        if negb (is_empty body) then
          do! send_frame (payload_data header (mkPayloadChunk 0 offset body)) in
          do! on_link (log (SentChunk (ph_id header) offset body)) in
          let offset := offset + len body in
          let done := done + len body in
          do! on_link (notify (Progressed done total)) in
          if eof then ret (Some (offset, done), reader)
          else send_loop fuel header reader offset done total
        else ret (Some (offset, done), reader)
  end.

(** The bytes a reader can still give. *)
Definition reader_len (r : list Read) : Z :=
  foldr (fun x n => match x with Data b => len b + n | ReadError => n end) 0 r.

Definition file_header (f : OutFile) (pid : Z) : PayloadHeader :=
  mkPayloadHeader pid PayloadType.File (of_size f) false (of_name f) [].

(** [Ok(false)] is [(false, _)]; with the new [done] and the file as it is left. *)
Definition send_one (f : OutFile) (pid done total : Z) : M Conn (bool * Z * OutFile) :=
  let header := file_header f pid in
  let! (r, reader) := send_loop (S (Z.to_nat (reader_len (of_reader f)))) header (of_reader f)
                        0 done total in
  let f := mkOutFile (of_name f) (of_mime f) (of_size f) reader in
  match r with
  | None => ret (false, done, f)
  | Some (offset, done) =>
      do! send_frame (payload_data header (mkPayloadChunk FLAG_LAST_CHUNK offset [])) in
      ret (true, done, f)
  end.

(** [for (f, id) in files.iter_mut().zip(payload_ids.iter())]. *)
Fixpoint send_files (fs : list (OutFile * Z)) (done total : Z) : M Conn (bool * list (OutFile * Z)) :=
  match fs with
  | [] => ret (true, [])
  | (f, pid) :: fs =>
      let! (more, done, f) := send_one f pid done total in
      if more then
        let! (finished, fs) := send_files fs done total in ret (finished, (f, pid) :: fs)
      else ret (false, (f, pid) :: fs)
  end.

(** ** Steps 1 to 5, and the introduction *)

Definition random_i64 (g : rng) : result Z IoError * rng :=
  let (b, g) := rand_bytes 8 g in
  (match b with Some b => Ok (as_i64 (from_be_bytes b)) | None => Err InvalidData end, g).

Fixpoint payload_ids {A} (fs : list A) : M Plain (list Z) :=
  match fs with
  | [] => ret []
  | _ :: fs => let! i := with_gen random_i64 in let! ids := payload_ids fs in ret (i :: ids)
  end.

Definition file_metadata (f : OutFile) (pid : Z) : FileMetadata :=
  mkFileMetadata (of_name f) (FileType.of_mime (of_mime f)) pid (of_size f) (of_mime f) pid [] 0
    false.

(** What does not change during a session. *)
Record Plan : Type := mkPlan {
  endpoint_id : list byte;
  bootstrap : Medium.t;
  peer_safe_disconnect : bool;
  session_pin : list byte;
  total : Z
}.

Record Sending : Type := mkSending {
  fsm : Outbound.t;
  assembler : Assembler.t;
  next_payload_id : Z;
  files : list (OutFile * Z);
  pending : list Effect;
  pin_checked : bool;
  solicited : bool;
  upgrade_deadline : bool;
  out_fd : option socket
}.

Definition greet (device_name : list byte) (eid : list byte) (mediums : list Z)
    : M Plain (HandshakeResult * bool) :=
  let! metadata := plain_link (ask_world (getrandom METADATA_LEN)) in
  let endpoint_info :=
    EndpointInfo.encode (EndpointInfo.mk 1 false DeviceType.Phone metadata (Some device_name)) in
  let request := mkConnectionRequest eid device_name endpoint_info [] 0 mediums
                   (Some KEEP_ALIVE_INTERVAL_MILLIS) (Some KEEP_ALIVE_TIMEOUT_MILLIS) in
  do! plain_link (write_frame (connection_request request)) in
  let! (client, client_init) := with_gen Handshake.start in
  do! plain_link (write_frame client_init) in
  let! server_init := plain_next in
  let! (client_finished, hs) := invalid (handle_server_init client server_init) in
  do! plain_link (write_frame client_finished) in
  do! plain_link (write_frame (connection_response Response.Accept OsType.Android)) in
  let! their_response := plain_next in
  let! their_response := invalid (Frames.parse their_response) in
  match their_response with
  | FConnectionResponse r =>
      match rsp_response r with
      | Response.Accept => ret (hs, 1 <=? rsp_safe_to_disconnect_version r)
      | _ => throw InvalidData
      end
  | _ => throw InvalidData
  end.

(** Everything before the loop; a PIN that could not be derived would be a panic. *)
Definition open_session (device_name eid : list byte) (boot : Medium.t) (mediums : list Z)
    (fs : list OutFile) : M Plain (Plan * SecureChannel * Sending) :=
  let! (hs, safe) := greet device_name eid mediums in
  let! (secrets, keys) := invalid (derive_all (dhs hs) (client_init_msg hs)
                                     (server_init_msg hs)) in
  let! pin := invalid (ok_or (Pin.derive (auth_string secrets)) tt) in
  let! ids := payload_ids fs in
  let introduction := mkIntroduction (zip_with file_metadata fs ids) [] true in
  let! (effs, f) := with_gen (fun g => let '(effs, f, g) := Outbound.start g (Outbound.new introduction) in
                                       (@Ok _ IoError (effs, f), g)) in
  ret (mkPlan eid boot safe pin (as_u64 (Z.max (total_size introduction) 0)),
       Channel.new keys Client,
       mkSending f Assembler.new 1 (zip fs ids) effs false false false None).

(** ** The loop *)

Inductive Flow : Type :=
| Continue (s : Sending)
| Return (completed : bool).

(** [pending.extend(fsm.on(event))]. *)
Definition feed (e : Event) (s : Sending) : Sending :=
  let (effs, f) := Outbound.on e (fsm s) in
  mkSending f (assembler s) (next_payload_id s) (files s) (pending s ++ effs) (pin_checked s)
    (solicited s) (upgrade_deadline s) (out_fd s).

Definition set_pending (es : list Effect) (s : Sending) : Sending :=
  mkSending (fsm s) (assembler s) (next_payload_id s) (files s) es (pin_checked s)
    (solicited s) (upgrade_deadline s) (out_fd s).
Definition set_next_payload_id (i : Z) (s : Sending) : Sending :=
  mkSending (fsm s) (assembler s) i (files s) (pending s) (pin_checked s)
    (solicited s) (upgrade_deadline s) (out_fd s).
Definition set_assembler (a : Assembler.t) (s : Sending) : Sending :=
  mkSending (fsm s) a (next_payload_id s) (files s) (pending s) (pin_checked s)
    (solicited s) (upgrade_deadline s) (out_fd s).
Definition set_files (fs : list (OutFile * Z)) (s : Sending) : Sending :=
  mkSending (fsm s) (assembler s) (next_payload_id s) fs (pending s) (pin_checked s)
    (solicited s) (upgrade_deadline s) (out_fd s).
Definition set_checked (s : Sending) : Sending :=
  mkSending (fsm s) (assembler s) (next_payload_id s) (files s) (pending s) true
    (solicited s) (upgrade_deadline s) (out_fd s).
Definition set_solicited (deadline : bool) (s : Sending) : Sending :=
  mkSending (fsm s) (assembler s) (next_payload_id s) (files s) (pending s) (pin_checked s)
    true deadline (out_fd s).
(** [upgrade_deadline = None], and the [out_fd] a negotiation has set. *)
Definition settle (fd : option socket) (s : Sending) : Sending :=
  mkSending (fsm s) (assembler s) (next_payload_id s) (files s) (pending s) (pin_checked s)
    (solicited s) false (match fd with Some _ => fd | None => out_fd s end).

(** The polling [loop] of [finish_cleanly]. *)
Fixpoint unacked_loop (n : nat) (fd : socket) : M Conn unit :=
  match n with
  | O => ret tt
  | S n =>
      let! n_left := on_link (ask_world (unacked fd)) in
      match n_left with
      | None => ret tt
      | Some k => if k =? 0 then ret tt else unacked_loop n fd
      end
  end.

Definition finish_cleanly (p : Plan) (fd : option socket) : M Conn unit :=
  do! match fd with
      | None => ret tt
      | Some fd => let! n := on_link (ask_world rounds) in unacked_loop (S n) fd
      end in
  if peer_safe_disconnect p then send_frame (disconnection true false) else ret tt.

Definition perform (p : Plan) (effect : Effect) (s : Sending) : M Conn Flow :=
  match effect with
  | Send frame =>
      let (next_id, wires) := wrap_bytes (next_payload_id s) frame in
      do! send_each wires in
      ret (Continue (set_next_payload_id next_id s))
  | BeginSending _ =>
      let! s := if upgrade_deadline s
                then let! fd := wait_for_upgrade (endpoint_id p) in ret (settle fd s)
                else ret s in
      let! (finished, fs) := send_files (files s) 0 (total p) in
      ret (Continue (feed (if finished then TransferComplete else UserCancelled) (set_files fs s)))
  | EffDone =>
      do! finish_cleanly p (out_fd s) in
      ret (Return (bool_decide (Outbound.state (fsm s) = State.Done) && (0 <? total p)))
  | EffCancelled => ret (Return false)
  | EffFailed _ => throw InvalidData
  | AskUser _ | BeginReceiving _ => ret (Continue s)
  end.

Fixpoint perform_all (p : Plan) (batch : list Effect) (s : Sending) : M Conn Flow :=
  match batch with
  | [] => ret (Continue s)
  | e :: batch =>
      let! f := perform p e s in
      match f with
      | Continue s => perform_all p batch s
      | Return b => ret (Return b)
      end
  end.

(** [if !solicited]. *)
Definition solicit (p : Plan) (s : Sending) : M Conn Sending :=
  if solicited s then ret s
  else if bool_decide (bootstrap p = Medium.Bluetooth) then
    do! send_frame (path_request [Medium.WifiDirect]) in ret (set_solicited true s)
  else ret (set_solicited (upgrade_deadline s) s).

(** [if !pin_checked]: the session goes on if the PIN is confirmed. *)
Definition check_pin (p : Plan) (s : Sending) : M Conn Flow :=
  if pin_checked s then ret (Continue s)
  else
    let! okay := on_link (ask_world (confirm_pin (session_pin p))) in
    do! on_link (log (PinChecked okay)) in
    if okay then ret (Continue (set_checked s))
    else
      let! _ := attempt (send_frame (disconnection (peer_safe_disconnect p) false)) in
      ret (Return false).

(** [match frames::parse(&plain)...]. *)
Definition on_offline (p : Plan) (f : Frames.Frame) (s : Sending) : M Conn Flow :=
  match f with
  | FPayloadTransfer pt =>
      let (r, a) := Assembler.accept pt (assembler s) in
      let s := set_assembler a s in
      let! ev := invalid r in
      match ev with
      | EvBytes _ data =>
          let! frame := invalid (Sharing.parse data) in
          do! on_link (log (PeerSaid frame)) in
          ret (Continue (feed (EvFrame frame) s))
      | _ => ret (Continue s)
      end
  | FKeepAlive false seq_num =>
      do! send_frame (keep_alive true seq_num) in ret (Continue s)
  | FDisconnection request_safe _ =>
      do! (if request_safe
           then let! _ := attempt (send_frame (disconnection false true)) in ret tt
           else ret tt) in
      ret (Return false)
  | FBandwidthUpgrade body =>
      let! fd := on_upgrade_frame body (endpoint_id p) in ret (Continue (settle fd s))
  | _ => ret (Continue s)
  end.

(** The rest of a round, once nothing local is pending. *)
Definition listen (p : Plan) (s : Sending) : M Conn Flow :=
  let! d := pop_deferred in
  let! plain := match d with
                | Some d => ret d
                | None => let! wire := next_ in decrypt_ wire
                end in
  let! parsed := invalid (Frames.parse plain) in
  on_offline p parsed s.

(** One round of the [loop]. *)
Definition iteration (p : Plan) (s : Sending) : M Conn Flow :=
  let batch := pending s in
  let! f := perform_all p batch (set_pending [] s) in
  match f with
  | Return b => ret (Return b)
  | Continue s =>
      let! s := solicit p s in
      let! f := check_pin p s in
      match f with
      | Return b => ret (Return b)
      | Continue s =>
          let! stop := on_link (ask_world cancelled) in
          if stop then ret (Continue (feed UserCancelled s))
          else if negb (is_empty (pending s)) then ret (Continue s)
          else listen p s
      end
  end.

Inductive Outcome : Type :=
| Running (s : Sending)
| Ended (r : result bool IoError).

Fixpoint rounds_of (n : nat) (p : Plan) (s : Sending) (c : Conn) : Outcome * Conn :=
  match n with
  | O => (Running s, c)
  | S n =>
      match iteration p s c with
      | (Ok (Continue s), c) => rounds_of n p s c
      | (Ok (Return b), c) => (Ended (Ok b), c)
      | (Err e, c) => (Ended (Err e), c)
      end
  end.

(** [send], stopped after [n] rounds of its loop. *)
Definition send (n : nat) (stream : list Read) (s : socket) (device_name eid : list byte)
    (boot : Medium.t) (mediums : list Z) (fs : list OutFile) (w : world) (g : rng)
    : Outcome * Link :=
  match open_session device_name eid boot mediums fs
          (mkPlain (mkLink s w g []) (FrameStream.new stream)) with
  | (Err e, p) => (Ended (Err e), p_link p)
  | (Ok (plan, channel, sending), p) =>
      let (r, c) := rounds_of n plan sending (mkConn (p_link p) (p_input p) channel []) in
      (r, link c)
  end.

End Send.

(** ** Lemmas *)

(** *** Addresses *)

(** The number an address is, most significant octet first. *)
Definition v4_addr (a b c d : Z) : Z := ((a * 256 + b) * 256 + c) * 256 + d.

(** 10.0.0.0/8, 172.16.0.0/12, 192.168.0.0/16. *)
Definition rfc1918 (n : Z) : Prop :=
  v4_addr 10 0 0 0 <= n < v4_addr 11 0 0 0
  \/ v4_addr 172 16 0 0 <= n < v4_addr 172 32 0 0
  \/ v4_addr 192 168 0 0 <= n < v4_addr 192 169 0 0.

(** fc00::/7, and ::ffff:0:0/96 over those. *)
Definition local_address (ip : IpAddr) : Prop :=
  match ip with
  | V4 o => rfc1918 (from_be_bytes o)
  | V6 o => 0xFC * 2 ^ 120 <= from_be_bytes o < 0xFE * 2 ^ 120
            \/ exists n, from_be_bytes o = 0xFFFF * 2 ^ 32 + n /\ rfc1918 n
  end.

Definition wf_ip (ip : IpAddr) : Prop :=
  match ip with V4 o => length o = 4%nat | V6 o => length o = 16%nat end.

Lemma forallb_const (f : byte -> bool) l : (forallb f l = true) <-> Forall (fun b => f b = true) l.
Proof. rewrite forallb_forall, Forall_forall. setoid_rewrite list_elem_of_In. done. Qed.

Lemma unique_local b : (Z.land (u8 b) 0xFE =? 0xFC) = (0xFC <=? u8 b) && (u8 b <? 0xFE).
Proof. by destruct b. Qed.

(** A private address is none of the excluded ones. *)
Lemma private_not_excluded o :
  length o = 4%nat -> v4_is_private o = true ->
  v4_is_loopback o || v4_is_unspecified o || v4_is_multicast o || v4_is_broadcast o
  || v4_is_link_local o || v4_is_documentation o = false.
Proof.
  destruct o as [|a [|b [|c [|d [|]]]]]; try done. intros _.
  unfold v4_is_loopback, v4_is_unspecified, v4_is_multicast, v4_is_broadcast,
    v4_is_link_local, v4_is_documentation, v4_is_private, octet. cbn [nth forallb].
  generalize (u8 a) (u8 b) (u8 c) (u8 d). intros x y z w Hp.
  assert (Hx : x = 10 \/ (x = 172 /\ 16 <= y <= 31) \/ (x = 192 /\ y = 168)) by lia. clear Hp.
  rewrite !orb_false_iff. repeat split; lia.
Qed.

Lemma private_rfc1918 o :
  length o = 4%nat -> v4_is_private o = true <-> rfc1918 (from_be_bytes o).
Proof.
  destruct o as [|a [|b [|c [|d [|]]]]]; try done. intros _.
  pose proof (u8_range a). pose proof (u8_range b). pose proof (u8_range c). pose proof (u8_range d).
  unfold v4_is_private, rfc1918, v4_addr, octet, from_be_bytes. cbn [nth fold_left].
  revert H H0 H1 H2. generalize (u8 a) (u8 b) (u8 c) (u8 d). intros. lia.
Qed.

Lemma plausible_v4_spec o :
  length o = 4%nat -> is_plausible_v4 o = true <-> rfc1918 (from_be_bytes o).
Proof.
  intros Ho. rewrite <- private_rfc1918 by done. unfold is_plausible_v4.
  destruct (v4_is_private o) eqn:Hp; [by rewrite private_not_excluded|]. by case_match.
Qed.

Definition mapped_prefix : list byte := replicate 10 Byte.x00 ++ [Byte.xff; Byte.xff].

Lemma from_mapped_prefix : from_be_bytes mapped_prefix = 0xFFFF.
Proof. vm_compute. reflexivity. Qed.

Lemma mapped_spec o :
  length o = 16%nat ->
  v6_to_ipv4_mapped o = if decide (take 12 o = mapped_prefix) then Some (drop 12 o) else None.
Proof.
  intros Ho. unfold v6_to_ipv4_mapped.
  destruct o as [|b0 [|b1 [|b2 [|b3 [|b4 [|b5 [|b6 [|b7 [|b8 [|b9 [|b10 [|b11 o]]]]]]]]]]]];
    try done.
  unfold octet. cbn [nth take forallb].
  destruct (decide _) as [He|He].
  - injection He as -> -> -> -> -> -> -> -> -> -> -> ->. done.
  - match goal with |- (if ?b then _ else _) = _ => destruct b eqn:E end; [|done].
    exfalso. apply He. unfold mapped_prefix. cbn [replicate app].
    rewrite !andb_true_iff, !Z.eqb_eq in E. destruct_and!.
    repeat f_equal; apply u8_inj; assumption.
Qed.

Lemma plausible_mapped lo :
  length lo = 4%nat -> is_plausible_peer (V6 (mapped_prefix ++ lo)) = is_plausible_v4 lo.
Proof. by destruct lo as [|a [|b [|c [|d [|]]]]]. Qed.

(** The unique local addresses are none of the excluded ones. *)
Lemma plausible_unmapped o :
  length o = 16%nat -> take 12 o <> mapped_prefix ->
  is_plausible_peer (V6 o) = (0xFC <=? octet o 0) && (octet o 0 <? 0xFE).
Proof.
  intros Ho Hm. cbn [is_plausible_peer]. rewrite mapped_spec by done.
  rewrite decide_False by done. unfold octet at 3. rewrite unique_local. fold (octet o 0).
  destruct ((0xFC <=? octet o 0) && _) eqn:Hu; [|by repeat case_match].
  destruct o as [|a o]; [done|]. unfold v6_is_loopback, v6_is_unspecified, v6_is_multicast.
  change (octet (a :: o) 0) with (u8 a) in *.
  rewrite firstn_cons. cbn [forallb].
  replace (u8 a =? 0) with false by lia. replace (u8 a =? 0xFF) with false by lia.
  replace (u8 a =? 0xFE) with false by lia. done.
Qed.

Lemma plausible_peer_spec ip :
  wf_ip ip -> is_plausible_peer ip = true <-> local_address ip.
Proof.
  destruct ip as [o|o]; cbn [wf_ip local_address]; intros Ho; [by apply plausible_v4_spec|].
  assert (Hlen : len (drop 12 o) = 4) by (rewrite len_nat, length_drop; lia).
  assert (Hn : from_be_bytes o = from_be_bytes (take 12 o) * 2 ^ 32 + from_be_bytes (drop 12 o)).
  { rewrite <- (take_drop 12 o) at 1. by rewrite from_be_bytes_app, Hlen. }
  pose proof (from_be_bytes_range (drop 12 o)) as Hlo. rewrite Hlen in Hlo.
  change (256 ^ 4) with (2 ^ 32) in Hlo.
  destruct (decide (take 12 o = mapped_prefix)) as [Hm|Hm].
  - rewrite Hm in Hn. rewrite from_mapped_prefix in Hn.
    assert (He : is_plausible_peer (V6 o) = is_plausible_v4 (drop 12 o)).
    { rewrite <- plausible_mapped by (rewrite length_drop; lia). by rewrite <- Hm, take_drop. }
    rewrite He, plausible_v4_spec by (rewrite length_drop; lia). split.
    + intros Hr. right. by eexists.
    + intros [?|(n & Hn' & Hr)]; [lia|]. by replace (from_be_bytes (drop 12 o)) with n by lia.
  - rewrite plausible_unmapped by done.
    assert (Hor : ~ exists n, from_be_bytes o = 0xFFFF * 2 ^ 32 + n /\ rfc1918 n).
    { intros (n & Hn' & Hr). apply Hm, from_be_bytes_inj; [rewrite length_take, Ho; done|].
      rewrite from_mapped_prefix.
      unfold rfc1918, v4_addr in Hr. lia. }
    destruct o as [|a o]; [done|]. injection Ho as Ho.
    change (octet (a :: o) 0) with (u8 a). clear Hn.
    rewrite from_be_bytes_cons in *. pose proof (from_be_bytes_range o) as Hr.
    replace (len o) with 15 in * by (rewrite len_nat, Ho; done).
    change (256 ^ 15) with (2 ^ 120) in *. split; [lia|]. intros [?|?]; [lia|done].
Qed.

(** *** The state machine, as the loop uses it *)

(** The peer's consent. *)
Definition yes : Event := EvFrame (FResponse Status.Accept).

Lemma outbound_begins e f effs f' i :
  Outbound.on e f = (effs, f') -> BeginSending i ∈ effs -> e = yes.
Proof.
  unfold Outbound.on. destruct (State.is_over _); [intros [= <- <-]; set_solver|].
  destruct e as [g| | | |]; unfold Outbound.fail; try case_bool_decide;
    try (intros [= <- <-]; set_solver).
  unfold Outbound.on_frame, Outbound.fail.
  destruct (Outbound.state f), g as [?|[]|? ?|?| |?]; intros [= <- <-]; set_solver.
Qed.

(** *** What a trace may contain *)

Section Spec.
Context `{World}.

(** The user has compared the digits, and the peer has accepted. *)
Definition cleared (tr : list Obs) : Prop :=
  PinChecked true ∈ tr /\ PeerSaid (FResponse Status.Accept) ∈ tr.

Definition ip_octets (ip : IpAddr) : list byte := match ip with V4 o | V6 o => o end.

(** What may follow [tr]. *)
Definition allowed (tr : list Obs) (o : Obs) : Prop :=
  match o with
  | Dialled o _ => exists ip, ip_octets ip = o /\ wf_ip ip /\ local_address ip
  | SentChunk _ _ _ => cleared tr
  | _ => True
  end.

(** What the negotiation of a medium may do, and what the streaming of files may. *)
Definition calm (o : Obs) : Prop :=
  match o with
  | Dialled _ _ => allowed [] o
  | _ => quiet o
  end.

Definition streaming (o : Obs) : Prop :=
  match o with
  | SentChunk _ _ _ => True
  | _ => quiet o
  end.

Lemma quiet_calm o : quiet o -> calm o.
Proof. by destruct o. Qed.

Lemma quiet_streaming o : quiet o -> streaming o.
Proof. by destruct o. Qed.

Lemma allowed_calm tr o : calm o -> allowed tr o.
Proof. by destruct o. Qed.

Lemma cleared_app tr l : cleared tr -> cleared (tr ++ l).
Proof. unfold cleared. set_solver. Qed.

End Spec.

#[export] Hint Resolve quiet_calm quiet_streaming : quietly.

Section Invariant.
Context `{Sender} `{Ec} `{Digest} `{Hmac} `{Cipher} `{Memcmp}.

Lemma len_wf4 (o : list byte) : (len o =? 4) = true -> length o = 4%nat.
Proof. rewrite len_nat. lia. Qed.

Lemma len_wf16 (o : list byte) : (len o =? 16) = true -> length o = 16%nat.
Proof. rewrite len_nat. lia. Qed.

Lemma acquire_calm path : emits calm (acquire path).
Proof.
  unfold acquire. destruct (up_wifi path) as [w|]; [quietly|].
  destruct (up_lan path) as [lan|]; [|quietly].
  assert (Hd : forall ip port, ip_octets ip = lan_ip lan -> wf_ip ip ->
    emits calm (if negb (is_plausible_peer ip) then ret None
      else do! log (Dialled (lan_ip lan) port) in
           let! s := ask_world (connect ip port) in
           match s with Some s => ret (Some s) | None => throw OsError end)).
  { intros ip port Hip Hwf. destruct (is_plausible_peer ip) eqn:Hp; cbn [negb]; [|quietly].
    apply emits_bind; [|intros; quietly]. apply emits_log.
    exists ip. split_and!; [done|done|]. by apply plausible_peer_spec. }
  destruct (len (lan_ip lan) =? 4) eqn:Hv4; [|destruct (len (lan_ip lan) =? 16) eqn:Hv6; [|quietly]];
    (destruct (u16_try_from (lan_port lan)); [|quietly]); apply Hd; try done;
    [by apply len_wf4|by apply len_wf16].
Qed.

Lemma quietly_adopt_loop n b : quietly (adopt_loop n b).
Proof. revert b. induction n as [|n IH]; intros b; cbn [adopt_loop]; quietly. Qed.

#[local] Hint Resolve acquire_calm quietly_adopt_loop : quietly.

Lemma quietly_adopt_on path eid s : quietly (adopt_on path eid s).
Proof. unfold adopt_on. quietly. Qed.

#[local] Hint Resolve quietly_adopt_on : quietly.

Lemma adopt_calm path eid : emits calm (adopt path eid).
Proof.
  unfold adopt. apply emits_bind; [apply emits_attempt, emits_on_link, acquire_calm|].
  intros [[s|]|]; quietly.
Qed.

#[local] Hint Resolve adopt_calm : quietly.

Lemma on_upgrade_frame_calm body eid : emits calm (on_upgrade_frame body eid).
Proof. unfold on_upgrade_frame. quietly. Qed.

#[local] Hint Resolve on_upgrade_frame_calm : quietly.

Lemma wait_loop_calm n eid : emits calm (wait_loop n eid).
Proof. induction n as [|n IH]; cbn [wait_loop]; quietly. Qed.

Lemma wait_for_upgrade_calm eid : emits calm (wait_for_upgrade eid).
Proof. unfold wait_for_upgrade. quietly. apply wait_loop_calm. Qed.

Lemma send_loop_streaming fuel h r off done total :
  emits streaming (send_loop fuel h r off done total).
Proof.
  revert r off done. induction fuel as [|fuel IH]; intros r off dn; cbn [send_loop]; quietly.
  by apply emits_on_link, emits_log.
Qed.

#[local] Hint Resolve send_loop_streaming : quietly.

Lemma send_one_streaming f pid done total : emits streaming (send_one f pid done total).
Proof. unfold send_one. quietly. Qed.

#[local] Hint Resolve send_one_streaming : quietly.

Lemma send_files_streaming fs done total : emits streaming (send_files fs done total).
Proof. revert done. induction fs as [|[f pid] fs IH]; intros dn; cbn [send_files]; quietly. Qed.

Lemma quietly_unacked_loop n fd : quietly (unacked_loop n fd).
Proof. induction n; cbn [unacked_loop]; quietly. Qed.

#[local] Hint Resolve quietly_unacked_loop : quietly.

Lemma quietly_finish_cleanly p fd : quietly (finish_cleanly p fd).
Proof. unfold finish_cleanly. quietly. Qed.

#[local] Hint Resolve quietly_finish_cleanly : quietly.

(** *** The loop's invariant *)

Abbreviation obedient := (obeys allowed).

Record inv (batch : list Effect) (s : Sending) (tr : list Obs) : Prop := mkInv {
  inv_obedient : obedient tr;
  inv_pin : pin_checked s = true -> PinChecked true ∈ tr;
  inv_begin : forall i, BeginSending i ∈ batch ++ pending s -> cleared tr
}.

Definition kept (batch : list Effect) (f : Flow) (tr : list Obs) : Prop :=
  match f with Continue s => inv batch s tr | Return _ => obedient tr end.

Lemma stable_calm batch s : stable calm (inv batch s).
Proof.
  intros tr o [Ho Hp Hb] Hc. constructor.
  - apply obeys_snoc; [done|by apply allowed_calm].
  - intros Hs. specialize (Hp Hs). set_solver.
  - intros i Hi. by eapply cleared_app, Hb.
Qed.

Lemma stable_streaming batch s :
  stable streaming (fun tr => inv batch s tr /\ cleared tr).
Proof.
  intros tr o [[Ho Hp Hb] Hcl] Hs. split; [constructor|by apply cleared_app].
  - apply obeys_snoc; [done|]. destruct o; try done. 
  - intros Hc. specialize (Hp Hc). set_solver.
  - intros i Hi. by apply cleared_app.
Qed.

Lemma sending_inv_upto batch batch' s s' tr :
  (pin_checked s' = true -> pin_checked s = true) ->
  (forall i, BeginSending i ∈ batch' ++ pending s' -> BeginSending i ∈ batch ++ pending s) ->
  inv batch s tr -> inv batch' s' tr.
Proof. intros Hp Hb [Ho Hp' Hb']. constructor; eauto. Qed.

(** An event other than the peer's consent. *)
Lemma sending_feed_inv e batch s tr :
  inv batch s tr -> (e = yes -> cleared tr) -> inv batch (feed e s) tr.
Proof.
  intros [Ho Hp Hb] He. unfold feed. destruct (Outbound.on e (fsm s)) as [effs f] eqn:Hon.
  constructor; cbn [pin_checked pending]; [done|done|].
  intros i. rewrite app_assoc. intros [Hi|Hi]%elem_of_app; [by eapply Hb|].
  by eapply He, outbound_begins.
Qed.

(** What is logged of the peer and of the user is always allowed. *)
Lemma stable_logged f batch s tr : inv batch s tr -> inv batch s (tr ++ [PeerSaid f]).
Proof.
  intros [Ho Hp Hb]. constructor; [by apply obeys_snoc| |].
  - intros Hs. specialize (Hp Hs). set_solver.
  - intros i Hi. by eapply cleared_app, Hb.
Qed.

Ltac skip :=
  apply triple_skip with (R := calm); [solve [quietly]|apply stable_calm|apply inv_obedient|intros ?].

(** A state that agrees on what the invariant reads. *)
Ltac same := let Hi := fresh in intros ? Hi; eapply sending_inv_upto; [..|exact Hi]; cbn;
  [done|set_solver].

Lemma sending_perform_kept p e batch s :
  triple (S := Conn) (inv (e :: batch) s) (perform p e s) (kept batch) obedient.
Proof.
  destruct e as [f|i|i|i| |why|]; cbn [perform].
  - destruct (wrap_bytes _ f) as [next wires]. skip. apply triple_ret. same.
  - apply triple_ret. same.
  - apply triple_pre with (P' := fun tr => inv batch s tr /\ cleared tr).
    { intros tr Hi. split; [|apply (inv_begin _ _ _ Hi i); set_solver].
      revert tr Hi. same. }
    eapply triple_bind with (R := fun s' tr => inv batch s' tr /\ cleared tr).
    + destruct (upgrade_deadline s); [|by apply triple_ret].
      eapply triple_skip with (R := calm); [apply wait_for_upgrade_calm| | |].
      * intros tr o [Hi Hc] Ho. split; [by apply stable_calm|by apply cleared_app].
      * intros tr [Hi _]. by eapply inv_obedient.
      * intros fd. apply triple_ret. intros tr [Hi Hc]. split; [|done]. clear Hc. revert tr Hi. same.
    + intros s'. eapply triple_skip with (R := streaming);
        [apply send_files_streaming|apply stable_streaming| |].
      * intros tr [Hi _]. by eapply inv_obedient.
      * intros [finished fs]. apply triple_ret. intros tr [Hi Hc]. apply sending_feed_inv; [|by destruct finished].
        clear Hc. revert tr Hi. same.
  - apply triple_ret. same.
  - skip. apply triple_ret, inv_obedient.
  - apply triple_throw, inv_obedient.
  - apply triple_ret, inv_obedient.
Qed.

Lemma sending_perform_all_kept p batch s :
  triple (S := Conn) (inv batch s) (perform_all p batch s) (kept []) obedient.
Proof.
  revert s. induction batch as [|e batch IH]; intros s; cbn [perform_all]; [by apply triple_ret|].
  eapply triple_bind; [apply sending_perform_kept|]. intros [s'|o]; [apply IH|by apply triple_ret].
Qed.

(** After the PIN has been checked. *)
Definition checked (f : Flow) (tr : list Obs) : Prop :=
  match f with Continue s => inv [] s tr /\ pin_checked s = true | Return _ => obedient tr end.

Lemma check_pin_kept p s :
  triple (S := Conn) (inv [] s) (check_pin p s) checked obedient.
Proof.
  unfold check_pin. destruct (pin_checked s) eqn:Hs; [by apply triple_ret|].
  skip. eapply triple_bind with (R := fun _ tr => inv [] s tr /\ PinChecked a ∈ tr).
  - intros c Hi. split; [|set_solver]. destruct Hi as [Ho Hp Hb]. constructor.
    + by apply obeys_snoc.
    + by rewrite Hs.
    + intros i Hi. by eapply cleared_app, Hb.
  - intros _. destruct a.
    + apply triple_ret. intros tr [[Ho Hp Hb] Hin]. split; [by constructor|done].
    + apply triple_pre with (P' := inv [] s); [by intros tr []|]. skip.
      apply triple_ret, inv_obedient.
Qed.

Lemma on_offline_kept p f s :
  pin_checked s = true -> triple (S := Conn) (inv [] s) (on_offline p f s) (kept []) obedient.
Proof.
  intros Hs. destruct f as [| |pt|[]| | |]; cbn [on_offline]; try (by apply triple_ret).
  - destruct (Assembler.accept pt (assembler s)) as [r a].
    apply triple_pre with (P' := inv [] (set_assembler a s)); [same|]. skip.
    destruct a0 as [pid data| | | |]; try (by apply triple_ret). skip.
    eapply triple_bind with (R := fun _ tr => inv [] (set_assembler a s) tr /\ PeerSaid a0 ∈ tr).
    + intros c Hi. split; [|set_solver]. by apply stable_logged.
    + intros _. apply triple_ret. intros tr [Hi Hin]. apply sending_feed_inv; [done|].
      intros [= ->]. split; [by apply (inv_pin _ _ _ Hi)|done].
  - skip. by apply triple_ret.
  - skip. apply triple_ret, inv_obedient.
  - skip. apply triple_ret. same.
Qed.

Lemma sending_iteration_kept p s :
  triple (S := Conn) (inv [] s) (iteration p s) (kept []) obedient.
Proof.
  unfold iteration. apply triple_pre with (P' := inv (pending s) (set_pending [] s)).
  { intros tr Hi. eapply sending_inv_upto; [..|exact Hi]; cbn; [done|]. intros i. by rewrite app_nil_r. }
  eapply triple_bind; [apply sending_perform_all_kept|]. intros [s1|o]; [|by apply triple_ret].
  eapply triple_bind with (R := inv []).
  { unfold solicit. destruct (solicited s1); [by apply triple_ret|]. case_bool_decide.
    - skip. apply triple_ret. same.
    - apply triple_ret. same. }
  intros s2. eapply triple_bind; [apply check_pin_kept|].
  intros [s3|o]; [|by apply triple_ret]. apply triple_assume. intros Hs. skip.
  destruct a. { apply triple_ret. intros tr Hi. by apply sending_feed_inv. }
  destruct (negb _); [by apply triple_ret|]. unfold listen. skip. skip. skip.
  by apply on_offline_kept.
Qed.

Lemma rounds_obedient n p s c :
  inv [] s (trace_of c) -> obedient (trace_of (snd (rounds_of n p s c))).
Proof.
  revert s c. induction n as [|n IH]; intros s c Hi; cbn [rounds_of]; [by eapply inv_obedient|].
  pose proof (sending_iteration_kept p s c Hi) as Hk.
  destruct (iteration p s c) as [[[s'|o]|e] c']; [by apply IH|done..].
Qed.

Lemma start_begins g i effs f g' j :
  Outbound.start g (Outbound.new i) = (effs, f, g') -> BeginSending j ∉ effs.
Proof.
  unfold Outbound.start. cbn [Outbound.new Outbound.sent_paired_key]. destruct (paired_key_encryption g) as [[?|?] ?];
    intros [= <- <- <-]; set_solver.
Qed.

Lemma quietly_payload_ids {A} (fs : list A) : quietly (payload_ids fs).
Proof. induction fs; cbn [payload_ids]; quietly. Qed.

Lemma quietly_greet name eid mediums : quietly (greet name eid mediums).
Proof. unfold greet. quietly. Qed.

#[local] Hint Resolve quietly_payload_ids quietly_greet : quietly.

Lemma stable_obedient : stable quiet obedient.
Proof. intros tr o Ho Hq. apply obeys_snoc; [done|]. by apply allowed_calm, quiet_calm. Qed.

Ltac skip_plain :=
  apply triple_skip with (R := quiet);
    [solve [quietly]|apply stable_obedient|done|intros ?].

(** What holds when the loop is entered. *)
Lemma open_session_kept name eid boot mediums fs :
  triple (S := Plain) obedient (open_session name eid boot mediums fs)
    (fun '(_, _, s) => inv [] s) obedient.
Proof.
  unfold open_session. skip_plain. destruct a as [hs safe]. skip_plain.
  destruct a as [secrets keys]. skip_plain. skip_plain.
  intros q Hq. unfold mbind, with_gen.
  match goal with |- context [Outbound.start ?g (Outbound.new ?i)] =>
    destruct (Outbound.start g (Outbound.new i)) as [[effs f] g'] eqn:Hs end.
  constructor; [exact Hq|intros Hp; discriminate Hp|]. cbn [app pending].
  intros j Hj. exfalso. exact (start_begins _ _ _ _ _ j Hs Hj).
Qed.

Lemma send_obedient n stream s name eid boot mediums fs w g :
  obedient (trace (snd (send n stream s name eid boot mediums fs w g))).
Proof.
  unfold send. set (p0 := mkPlain _ _).
  pose proof (open_session_kept name eid boot mediums fs p0 (obeys_nil _)) as Hk.
  destruct (open_session _ _ _ _ _ p0) as [[[[plan ch] se]|e] p]; [|exact Hk].
  set (c0 := mkConn _ _ _ _). pose proof (rounds_obedient n plan se c0 Hk) as Hr.
  by destruct (rounds_of n plan se c0).
Qed.

End Invariant.

(** ** Properties *)

(** C5: the sending side of a share is safe against its peer.  Whatever the peer sends, however
    the network delivers it and however many rounds the loop runs: the daemon dials an address
    the peer offers only if it is private or unique local, and no byte of a file leaves before
    the session's PIN check has passed and the peer has accepted the offer on the encrypted
    channel.  The check is a call of the host, [confirm_pin]; that of this daemon says yes to
    every PIN without asking anybody ([Daemon.confirm_pin_]), as PIN verification is disabled on
    purpose (docs/PIN-DISABLED.md), so that what guards the files is the peer's acceptance. *)
Theorem sends_only_when_cleared `{Sender} `{Ec} `{Digest} `{Hmac} `{Cipher} `{Memcmp}
    n stream s name eid boot mediums fs w g :
  let tr := trace (snd (send n stream s name eid boot mediums fs w g)) in
  (forall pre o port post, tr = pre ++ Dialled o port :: post ->
     exists ip, ip_octets ip = o /\ wf_ip ip /\ local_address ip) /\
  (forall pre pid offset data post, tr = pre ++ SentChunk pid offset data :: post ->
     PinChecked true ∈ pre /\ PeerSaid (FResponse Status.Accept) ∈ pre).
Proof.
  intros tr. pose proof (send_obedient n stream s name eid boot mediums fs w g) as Ho.
  split; intros pre x y; [|intros z]; intros post; apply Ho.
Qed.

(** Which addresses a peer can make the daemon connect to.  The chain of tests in
    [is_plausible_peer] accepts exactly 10.0.0.0/8, 172.16.0.0/12, 192.168.0.0/16, fc00::/7 and
    the IPv4-mapped forms of the first three: no loopback, link-local, documentation,
    broadcast, multicast or public address is among them. *)
Theorem is_plausible_peer_is_local ip :
  wf_ip ip -> is_plausible_peer ip = true <-> local_address ip.
Proof. apply plausible_peer_spec. Qed.

Lemma is_plausible_peer_is_local_witness :
  wf_ip (V4 (to_u8 <$> [192; 168; 1; 7])) /\
  (is_plausible_peer (V4 (to_u8 <$> [192; 168; 1; 7])) = true <->
   local_address (V4 (to_u8 <$> [192; 168; 1; 7]))).
Proof. split; [reflexivity|]. apply is_plausible_peer_is_local. reflexivity. Defined.

(** *** Concrete runs *)

Module ToyRun.

(** A network that works, and a user who confirms the digits. *)
#[local] Instance toy_world : World := {|
  Stream.world := unit; socket := list Read; incoming s := s;
  write_all _ _ w := (true, w);
  ready_within w := (Some true, w);
  Stream.rounds w := (0%nat, w);
  try_clone _ w := (true, w);
  cancelled w := (false, w);
  notice _ w := w
|}.

#[local] Instance toy_sender : Sender := {|
  getrandom n w := (replicate (Z.to_nat n) (to_u8 0), w);
  confirm_pin _ w := (true, w);
  join_wifi _ w := (None, w);
  connect _ _ w := (None, w);
  unacked _ w := (None, w)
|}.

#[local] Existing Instances Toy.rand Toy.hmac Toy.cipher Toy.memcmp Toy.digest Toy.ec.

Definition file : OutFile := mkOutFile (str "a.txt") (str "text/plain") 2 [Data (str "hi")].

Definition offer : Introduction := mkIntroduction [file_metadata file 7] [] true.

Definition plan : Plan := mkPlan (str "abcd") Medium.WifiLan true (str "1234") 2.

(** The loop, over frames of the peer that are already decrypted: how it ends, and what was
    said, checked and sent. *)
Definition run (frames : list (list byte)) : option (result bool IoError) * list Obs :=
  let '(effs, f, g) := Outbound.start (1 : rng) (Outbound.new offer) in
  let s := mkSending f Assembler.new 1 [(file, 7)] [] false false false None in
  let (r, c) := rounds_of 20 plan s
    (mkConn (mkLink (@nil Read) tt g []) (FrameStream.new []) (Channel.new toy_keys Client)
       (mjoin ((fun '(i, f) => snd (wrap_bytes i f)) <$> imap (fun i f => (Z.of_nat i, f)) frames))) in
  (match r with Ended r => Some r | Running _ => None end,
   List.filter (fun o => match o with Wrote _ _ => false | _ => true end) (trace (link c))).

(** A share that is accepted. *)
Example a_send :
  run [response Status.Accept] =
  (Some (Ok true),
   [PinChecked true; PeerSaid (FResponse Status.Accept); SentChunk 7 0 (str "hi");
    Noticed (Progressed 2 2)]).
Proof. vm_compute. reflexivity. Qed.

(** A share that is refused: nothing is sent, and [send] returns [Ok(true)], the same as for
    one that arrived. *)
Example a_refusal_is_a_success :
  run [response Status.Reject] =
  (Some (Ok true), [PinChecked true; PeerSaid (FResponse Status.Reject)]).
Proof. vm_compute. reflexivity. Qed.

End ToyRun.
