(* ===== verification/Transfer.v ===== *)
(** * A file from one session to the other

    What [send_one] ([sharingd/src/quickshare/outbound.rs]) puts on the wire for a file, that
    its loop ends, and what the loop of [serve] ([sharingd/src/quickshare/connection.rs]) does
    with those bytes: the composition of the sender, the secure channel, the framing, the
    frames' parser, the assembler and the receiver. *)

From stdpp Require Import sets gmap.
From S2P Require Import Prelude Framing Protobuf Crypto Sharing Frames Payload D2d Channel Fsm Stream.
From S2P Require Connection.
From S2P Require Import Outbound.

(** ** Reading *)

Definition is_piece (x : Read) : Prop := exists b, x = Data b /\ b <> [].

(** A file that can be read to its end, and what is in it. *)
Definition readable (r : list Read) : Prop := Forall is_piece r.

Definition contents (r : list Read) : list byte :=
  mjoin ((fun x => match x with Data b => b | ReadError => [] end) <$> r).

Lemma contents_cons b r : contents (Data b :: r) = b ++ contents r.
Proof. done. Qed.

Lemma readable_nil r : readable r -> contents r = [] -> r = [].
Proof.
  intros [|x r' [b [-> Hb]] _]; [done|]. rewrite contents_cons. by destruct b.
Qed.

(** [while filled < buf.len()] fills the buffer, short reads and all, unless the file ends. *)
Lemma fill_spec cap filled r :
  readable r -> len filled <= cap ->
  exists r', fill cap filled r = (Ok (filled ++ take (Z.to_nat (cap - len filled)) (contents r)), r')
    /\ readable r' /\ contents r' = drop (Z.to_nat (cap - len filled)) (contents r).
Proof.
  intros Hr. revert filled. induction Hr as [|x r [b [-> Hb]] Hr IH]; intros filled Hf; cbn [fill].
  - exists []. change (contents []) with (@nil byte). rewrite take_nil, drop_nil, app_nil_r.
    split_and!; [by destruct (_ <=? _)|constructor|done].
  - destruct (Z.leb_spec cap (len filled)).
    { exists (Data b :: r). replace (cap - len filled) with 0 by lia.
      rewrite app_nil_r. split_and!; [done| |done]. constructor; [by exists b|done]. }
    destruct (is_empty b) eqn:He; [by destruct b|]. rewrite contents_cons.
    destruct (Z.leb_spec (len b) (cap - len filled)).
    + destruct (IH (filled ++ b)) as (r' & Heq & Hr' & Hc); [simpl_len; lia|].
      exists r'. rewrite Heq, take_len_app, drop_len_app, Hc by lia. simpl_len.
      rewrite <- app_assoc, !Z.sub_add_distr. done.
    + exists (Data (drop (Z.to_nat (cap - len filled)) b) :: r).
      rewrite !len_nat in *. rewrite contents_cons, take_app_le, drop_app_le by lia.
      split_and!; [done| |done]. constructor; [|done]. eexists. split; [done|].
      intros Hd%(f_equal length). rewrite length_drop in Hd. cbn in Hd. lia.
Qed.

(** The buffer of [send_one]: as much as fits, and less only at the end of the file. *)
Lemma fill_whole cap r :
  readable r -> 0 <= cap ->
  exists body r', fill cap [] r = (Ok body, r') /\ readable r' /\
    contents r = body ++ contents r' /\ len body <= cap /\ (len body < cap -> contents r' = []).
Proof.
  intros Hr Hcap. destruct (fill_spec cap [] r Hr) as (r' & Hf & Hr' & Hc); [by rewrite len_nil|].
  rewrite len_nil, Z.sub_0_r in *. cbn [app] in Hf.
  exists (take (Z.to_nat cap) (contents r)), r'. rewrite Hf, Hc, take_drop, len_take, len_nat.
  split_and!; [done..|lia|]. intros Hl. apply skipn_all2. lia.
Qed.

Lemma reader_len_nonneg r : 0 <= reader_len r.
Proof. induction r as [|[b|] r IH]; cbn; [done|pose proof (len_nonneg b)|]; unfold reader_len in *; lia. Qed.

Lemma fill_shrinks cap filled r b r' :
  fill cap filled r = (Ok b, r') -> reader_len r' + len b <= reader_len r + len filled.
Proof.
  revert filled. induction r as [|x r IH]; intros filled; cbn [fill].
  - destruct (_ <=? _); intros [= <- <-]; lia.
  - destruct (_ <=? _); [intros [= <- <-]; lia|]. pose proof (reader_len_nonneg r).
    destruct x as [p|]; [|done]. change (reader_len (Data p :: r)) with (len p + reader_len r).
    pose proof (len_nonneg p).
    destruct (is_empty p); [intros [= <- <-]; lia|].
    destruct (Z.leb_spec (len p) (cap - len filled)).
    + intros Hf%IH. simpl_len in Hf. lia.
    + intros [= <- <-]. change (reader_len (Data ?q :: r)) with (len q + reader_len r).
      rewrite len_app, len_take, len_drop. lia.
Qed.

(** ** The sender *)

Section Sender.
Context `{World} `{Rand} `{Hmac} `{Cipher} `{Memcmp}.

(** What a trace has put on the wire, and which chunks of files. *)
Definition written (l : list Obs) : list (list byte) :=
  omap (fun o => match o with Wrote _ b => Some b | _ => None end) l.

Definition chunks_of (l : list Obs) : list (Z * list byte) :=
  omap (fun o => match o with SentChunk _ offset b => Some (offset, b) | _ => None end) l.

(** From [c] to [c'] the payloads [ps] were encrypted and written, with [l] observed. *)
Definition transmits (ps : list (list byte)) (l : list Obs) (c c' : Conn) : Prop :=
  exists ws,
    encrypt_all ps (channel c) (gen (link c)) = (Ok ws, channel c', gen (link c')) /\
    trace (link c') = trace (link c) ++ l /\ written l = Framing.encode <$> ws.

Lemma encrypt_all_app ps qs c g ws c1 g1 vs c2 g2 :
  encrypt_all ps c g = (Ok ws, c1, g1) -> encrypt_all qs c1 g1 = (Ok vs, c2, g2) ->
  encrypt_all (ps ++ qs) c g = (Ok (ws ++ vs), c2, g2).
Proof.
  revert c g ws. induction ps as [|p ps IH]; intros c g ws; cbn [encrypt_all app].
  { by intros [= <- <- <-] ->. }
  destruct (Channel.encrypt p c g) as [[[w|e] c'] g'] eqn:He; [|done].
  destruct (encrypt_all ps c' g') as [[[ws'|e] c''] g''] eqn:Hes; cbn [map_ok]; [|done].
  intros [= <- -> ->] Hq. by rewrite (IH _ _ _ Hes Hq).
Qed.

Lemma transmits_trans ps qs l k c1 c2 c3 :
  transmits ps l c1 c2 -> transmits qs k c2 c3 -> transmits (ps ++ qs) (l ++ k) c1 c3.
Proof.
  intros (ws & He & Ht & Hw) (vs & He' & Ht' & Hw'). exists (ws ++ vs). split_and!.
  - by eapply encrypt_all_app.
  - by rewrite Ht', Ht, app_assoc.
  - unfold written in *. by rewrite omap_app, Hw, Hw', fmap_app.
Qed.

Lemma transmits_refl c : transmits [] [] c c.
Proof. exists []. by rewrite app_nil_r. Qed.

Lemma send_frame_transmits b c c' :
  send_frame b c = (Ok tt, c') -> exists w, transmits [b] [Wrote (out (link c)) w] c c'.
Proof.
  unfold send_frame, mbind, encrypt_. 
  destruct (Channel.encrypt b (channel c) (gen (link c))) as [[[w|e] ch] g] eqn:He; [|done].
  cbn [invalid]. unfold ret, on_link, write_frame, write_frame_to, ask_world, mbind.
  cbn [link out wld gen trace input channel deferred].
  destruct (write_all _ _ _) as [[] w'] eqn:Hw; [|done]. unfold log, emit.
  cbn [link out wld gen trace]. intros [= <-]. exists (Framing.encode w), [w].
  cbn [channel link gen trace encrypt_all]. by rewrite He.
Qed.

(** A call of the world, and what is logged of it. *)
Lemma ask_world_transmits {A} (f : world -> A * world) c :
  exists a c', on_link (ask_world f) c = (Ok a, c') /\ transmits [] [] c c'.
Proof.
  unfold on_link, ask_world. destruct (f (wld (link c))) as [a w] eqn:Hf.
  do 2 eexists. split; [done|]. exists []. cbn. by rewrite app_nil_r.
Qed.

Lemma log_transmits o c : 
  written [o] = [] -> exists c', on_link (log o) c = (Ok tt, c') /\ transmits [] [o] c c'.
Proof. intros Ho. eexists. split; [done|]. exists []. by rewrite Ho. Qed.

Lemma notify_transmits n c :
  exists c', on_link (notify n) c = (Ok tt, c') /\ transmits [] [Noticed n] c c'.
Proof. eexists. split; [done|]. by exists []. Qed.

(** *** The chunks of a file *)

(** Consecutive from [off] on, none empty, none longer than [CHUNK], only the last shorter. *)
Fixpoint chunked (off : Z) (cs : list (Z * list byte)) (bs : list byte) : Prop :=
  match cs with
  | [] => bs = []
  | (o, d) :: cs =>
      o = off /\ 0 < len d <= CHUNK /\ (len d < CHUNK -> cs = []) /\
      exists rest, bs = d ++ rest /\ chunked (off + len d) cs rest
  end.

Lemma chunked_join off cs bs : chunked off cs bs -> mjoin (snd <$> cs) = bs.
Proof.
  revert off bs. induction cs as [|[o d] cs IH]; intros off bs; cbn; [done|].
  intros (_ & _ & _ & rest & -> & Hch). f_equal. by eapply IH.
Qed.

Definition data_of (h : PayloadHeader) (c : Z * list byte) : list byte :=
  payload_data h (mkPayloadChunk 0 c.1 c.2).

Lemma send_loop_spec fuel h r off dn total c off' dn' r' c' :
  readable r ->
  send_loop fuel h r off dn total c = (Ok (Some (off', dn'), r'), c') ->
  exists cs l, transmits (data_of h <$> cs) l c c' /\ chunks_of l = cs /\
    chunked off cs (contents r) /\ off' = off + len (contents r) /\ dn' = dn + len (contents r).
Proof.
  revert r off dn c. induction fuel as [|fuel IH]; intros r off dn c Hr; cbn [send_loop]; [done|].
  unfold mbind at 1. destruct (ask_world_transmits cancelled c) as (stop & c0 & -> & Hask).
  destruct stop; [done|].
  destruct (fill_whole CHUNK r Hr ltac:(done)) as (body & r1 & -> & Hr1 & Hcont & Hlen & Hend).
  unfold mbind at 1, lift.
  destruct (is_empty body) eqn:Hemp; cbn [negb].
  - assert (Hb : body = []) by (by destruct body). unfold ret. intros [= <- <- <- <-].
    exists [], []. rewrite Hcont, Hb, Hend by (rewrite Hb; done). split_and!; try done; cbn.
    all: change (len []) with 0; lia.
  - assert (Hpos : 0 < len body) by (destruct body; [done|]; rewrite len_cons; pose proof (len_nonneg body); lia).
    unfold mbind at 1. destruct (send_frame _ c0) as [[[]|e] c1] eqn:Hs; [|done].
    apply send_frame_transmits in Hs as [w Hs].
    unfold mbind at 1. destruct (log_transmits (SentChunk (ph_id h) off body) c1) as (c2 & -> & Hl); [done|].
    unfold mbind at 1. destruct (notify_transmits (Progressed (dn + len body) total) c2) as (c3 & -> & Hnt).
    pose proof (transmits_trans _ _ _ _ _ _ _ Hask
      (transmits_trans _ _ _ _ _ _ _ Hs (transmits_trans _ _ _ _ _ _ _ Hl Hnt))) as Hall.
    cbn [app] in Hall.
    destruct (Z.ltb_spec (len body) CHUNK) as [Hlt|Hge].
    + unfold ret. intros [= <- <- <- <-]. exists [(off, body)]. eexists. split; [exact Hall|].
      rewrite Hcont, Hend, app_nil_r by done. split_and!; try done; try lia.
      cbn [chunked]. split_and!; [done|lia|lia|done|]. exists []. by rewrite app_nil_r.
    + intros Hrec. destruct (IH _ _ _ _ Hr1 Hrec) as (cs & l & Ht & Hcs & Hch & -> & ->).
      exists ((off, body) :: cs). eexists. split.
      * exact (transmits_trans _ _ _ _ _ _ _ Hall Ht).
      * rewrite Hcont. simpl_len. split_and!; try lia.
        -- cbn. by rewrite <- Hcs.
        -- cbn [chunked]. split_and!; [done|lia|lia|lia|]. by exists (contents r1).
Qed.
(** What [send_one] sends for a file. *)
Definition file_frames (h : PayloadHeader) (cs : list (Z * list byte)) (size : Z)
    : list (list byte) :=
  (data_of h <$> cs) ++ [payload_data h (mkPayloadChunk FLAG_LAST_CHUNK size [])].

Lemma send_one_transmits f pid dn total c dn' f' c' :
  readable (of_reader f) -> send_one f pid dn total c = (Ok (true, dn', f'), c') ->
  exists cs l, transmits (file_frames (file_header f pid) cs (len (contents (of_reader f)))) l c c' /\
    chunks_of l = cs /\ chunked 0 cs (contents (of_reader f)) /\
    dn' = dn + len (contents (of_reader f)).
Proof.
  intros Hr. unfold send_one. unfold mbind at 1.
  destruct (send_loop _ _ _ _ _ _ c) as [[[[[off d]|] r]|e] c1] eqn:Hl; [| done..].
  apply send_loop_spec in Hl as (cs & l & Ht & Hcs & Hch & -> & ->); [|done].
  unfold mbind. destruct (send_frame _ c1) as [[[]|e] c2] eqn:Hs; [|done].
  apply send_frame_transmits in Hs as [w Hs]. intros [= <- <- <-].
  exists cs, (l ++ [Wrote (out (link c1)) w]). split_and!; [|by unfold chunks_of; rewrite omap_app, app_nil_r|done|done].
  exact (transmits_trans _ _ _ _ _ _ _ Ht Hs).
Qed.

End Sender.

(** *** The loop ends *)

Section Termination.
Context `{World} `{Rand} `{Hmac} `{Cipher}.

Lemma send_loop_rounds n m h r off dn total (c : Conn) :
  reader_len r < Z.of_nat n -> reader_len r < Z.of_nat m ->
  send_loop n h r off dn total c = send_loop m h r off dn total c.
Proof.
  pose proof (reader_len_nonneg r) as Hr0.
  revert m r off dn c Hr0. induction n as [|n IH]; intros [|m] r off dn c Hr0 Hn Hm; try lia.
  cbn [send_loop]. unfold mbind at 1 6.
  destruct (on_link (ask_world cancelled) c) as [[[]|e] c0]; [done| |done].
  destruct (fill CHUNK [] r) as [[b|e] r1] eqn:Hf; [|done].
  apply fill_shrinks in Hf. rewrite len_nil in Hf. unfold lift at 1 2. unfold mbind at 1 5.
  destruct b as [|x b]; [done|]. cbn [is_empty negb].
  pose proof (reader_len_nonneg r1). rewrite len_cons in *. pose proof (len_nonneg b).
  unfold mbind at 1 4. destruct (send_frame _ c0) as [[u|e] c1]; [|done].
  unfold mbind at 1 3. destruct (on_link (log _) c1) as [[u'|e] c2]; [|done].
  unfold mbind. destruct (on_link (notify _) c2) as [[u''|e] c3]; [|done].
  destruct (_ <? _); [done|]. apply IH; lia.
Qed.

(** [send_one] without its bound. *)
Lemma send_one_rounds n f pid dn total (c : Conn) :
  reader_len (of_reader f) < Z.of_nat n ->
  send_one f pid dn total c =
  (let! (r, reader) := send_loop n (file_header f pid) (of_reader f) 0 dn total in
   let f := mkOutFile (of_name f) (of_mime f) (of_size f) reader in
   match r with
   | None => ret (false, dn, f)
   | Some (offset, dn) =>
       do! send_frame (payload_data (file_header f pid) (mkPayloadChunk FLAG_LAST_CHUNK offset [])) in
       ret (true, dn, f)
   end) c.
Proof.
  intros Hn. pose proof (reader_len_nonneg (of_reader f)). unfold send_one, mbind.
  rewrite (send_loop_rounds (S _) n) by lia. done.
Qed.

End Termination.

(** ** The receiver *)

Section Receiver.
Context `{Host} `{Ec} `{Digest} `{Hmac} `{Cipher} `{Memcmp}.

(** A user who does not cancel, and a disk that works. *)
Record obliging : Prop := mkObliging {
  creates : forall name w, exists k w', create name w = (Some k, w');
  stores : forall k b w, exists w', sink_write k b w = (true, w');
  flushes : forall k w, exists w', sink_flush k w = (true, w');
  waits : forall w, exists w', cancelled w = (false, w')
}.

(** The bytes stored for a payload. *)
Definition stored (pid : Z) (l : list Obs) : list byte :=
  mjoin (omap (fun o => match o with
                        | Stored p b => if bool_decide (p = pid) then Some b else None
                        | _ => None
                        end) l).

Lemma stored_app pid l k : stored pid (l ++ k) = stored pid l ++ stored pid k.
Proof. unfold stored. by rewrite omap_app, join_app. Qed.

(** [m] returns [a], and neither reads nor decrypts. *)
Record runs {A} (m : M Conn A) (c : Conn) (a : A) (l : list Obs) (c' : Conn) : Prop := mkRuns {
  runs_eq : m c = (Ok a, c');
  runs_trace : trace (link c') = trace (link c) ++ l;
  runs_input : input c' = input c;
  runs_channel : channel c' = channel c;
  runs_deferred : deferred c' = deferred c
}.

Lemma runs_ret {A} (a : A) c : runs (ret a) c a [] c.
Proof. constructor; try done. by rewrite app_nil_r. Qed.

Lemma runs_bind {A B} (m : M Conn A) (f : A -> M Conn B) c a l c1 b k c2 :
  runs m c a l c1 -> runs (f a) c1 b k c2 -> runs (mbind m f) c b (l ++ k) c2.
Proof.
  intros [He Ht Hi Hc Hd] [He' Ht' Hi' Hc' Hd']. constructor; try congruence.
  - unfold mbind. by rewrite He.
  - by rewrite Ht', Ht, app_assoc.
Qed.

Lemma runs_ask {A} (f : world -> A * world) c a w :
  f (wld (link c)) = (a, w) -> exists c', runs (on_link (ask_world f)) c a [] c'.
Proof.
  intros Hf. eexists. constructor; [unfold on_link, ask_world; by rewrite Hf|..]; try done.
  by rewrite app_nil_r.
Qed.

Lemma runs_log o c : exists c', runs (on_link (log o)) c tt [o] c'.
Proof. by eexists. Qed.

Lemma runs_notify n c : exists c', runs (on_link (notify n)) c tt [Noticed n] c'.
Proof. by eexists. Qed.

Lemma report_runs pid (b : bool) n1 n2 c :
  exists l c', runs (if b then do! on_link (notify n1) in on_link (notify n2) else ret tt) c tt l c'
    /\ stored pid l = [].
Proof.
  destruct b; [|by exists [], c; split; [apply runs_ret|]].
  destruct (runs_notify n1 c) as [c1 R1]. destruct (runs_notify n2 c1) as [c2 R2].
  do 2 eexists. split; [eapply runs_bind; [exact R1|exact R2]|done].
Qed.

Context (Hob : obliging).
Abbreviation Session := Connection.Session.

Lemma sink_for_runs pid name (s : Session) c :
  exists k s' l c', runs (Connection.sink_for pid name s) c (k, s') l c' /\ stored pid l = [] /\
    Connection.expected s' = Connection.expected s /\
    Connection.assembler s' = Connection.assembler s /\
    Connection.pending s' = Connection.pending s.
Proof using Hob.
  unfold Connection.sink_for. destruct (Connection.sinks s !! pid) as [k|].
  { exists k, s, [], c. by split; [apply runs_ret|]. }
  destruct (creates Hob name (wld (link c))) as (k & w & Hk).
  destruct (runs_ask _ c _ _ Hk) as [c1 R1]. destruct (runs_log (Opened pid name) c1) as [c2 R2].
  do 4 eexists. split.
  { eapply runs_bind; [exact R1|]. eapply runs_bind; [exact R2|apply runs_ret]. }
  done.
Qed.

(** What [feed] leaves alone. *)
Lemma feed_same e (s : Session) :
  Connection.expected (Connection.feed e s) = Connection.expected s /\
  Connection.sinks (Connection.feed e s) = Connection.sinks s.
Proof. unfold Connection.feed. by destruct (Inbound.on e _). Qed.

(** The file of a payload is closed, and the payload not expected any more. *)
Definition closed (pid : Z) (s : Session) : Prop :=
  Connection.sinks s !! pid = None /\ Connection.expected s !! pid = None.

Lemma close_sink_runs pid k (s : Session) c :
  exists s' c', runs (Connection.close_sink pid k s) c s' [] c' /\ closed pid s'.
Proof using Hob.
  unfold Connection.close_sink.
  destruct (flushes Hob k (wld (link c))) as (w & Hw). destruct (runs_ask _ c _ _ Hw) as [c1 R1].
  do 2 eexists. split.
  { change (@nil Obs) with (@nil Obs ++ []). eapply runs_bind; [exact R1|]. cbn [negb]. apply runs_ret. }
  unfold closed. case_bool_decide; [destruct (feed_same TransferComplete (Connection.set_files (delete pid (Connection.sinks s))
    (delete pid (Connection.expected s)) (Connection.written s) s)) as [-> ->]|]; cbn; by rewrite !lookup_delete_eq.
Qed.

Lemma write_chunk_runs pid k data last (s : Session) c :
  exists s' l c', runs (Connection.write_chunk pid k data last s) c s' l c' /\
    stored pid l = data /\
    if last then closed pid s'
    else Connection.expected s' = Connection.expected s /\
         Connection.assembler s' = Connection.assembler s /\
         Connection.pending s' = Connection.pending s.
Proof using Hob.
  unfold Connection.write_chunk.
  destruct (stores Hob k data (wld (link c))) as (w & Hw). destruct (runs_ask _ c _ _ Hw) as [c1 R1].
  destruct (runs_log (Stored pid data) c1) as [c2 R2].
  cbv zeta.
  lazymatch goal with
  | |- context [if ?b then mbind (on_link (notify ?n1)) (fun _ => on_link (notify ?n2)) else _] =>
      destruct (report_runs pid b n1 n2 c2) as (l & c3 & R3 & Hl)
  end.
  lazymatch goal with
  | |- context [if last then _ else ret ?s1] =>
      assert (Hlast : exists s' c4,
        runs (if last then Connection.close_sink pid k s1 else ret s1) c3 s' [] c4 /\
        if last then closed pid s' else s' = s1)
  end.
  { destruct last; [apply close_sink_runs|]. eexists _, c3. by split; [apply runs_ret|]. }
  destruct Hlast as (s' & c4 & R4 & Hs').
  exists s', ([] ++ [Stored pid data] ++ l ++ []), c4. split_and!.
  - eapply runs_bind; [exact R1|]. cbn [negb]. eapply runs_bind; [exact R2|].
    eapply runs_bind; [exact R3|exact R4].
  - rewrite !stored_app, Hl. unfold stored. cbn. rewrite bool_decide_eq_true_2 by done.
    cbn. by rewrite !app_nil_r.
  - destruct last; [done|]. by subst s'.
Qed.

Lemma store_runs pid data last h (s : Session) c m :
  Connection.expected s !! pid = Some m ->
  exists s' l c', runs (Connection.store pid data last h s) c s' l c' /\
    stored pid l = data /\
    if last then closed pid s'
    else Connection.expected s' = Connection.expected s /\
         Connection.assembler s' = Connection.assembler s /\
         Connection.pending s' = Connection.pending s.
Proof using Hob.
  intros Hm. unfold Connection.store. rewrite Hm.
  destruct (sink_for_runs pid (if is_empty (fm_name m) then ph_file_name h else fm_name m) s c)
    as (k & s1 & l1 & c1 & R1 & Hl1 & He & Ha & Hp).
  destruct (write_chunk_runs pid k data last s1 c1) as (s2 & l2 & c2 & R2 & Hl2 & Hs2).
  exists s2, (l1 ++ l2), c2. split_and!.
  - eapply runs_bind; [exact R1|exact R2].
  - by rewrite stored_app, Hl1, Hl2.
  - destruct last; [done|]. by rewrite <- He, <- Ha, <- Hp.
Qed.

(** One round of the receiver's loop, on a chunk of a file it expects. *)
Lemma iteration_stores slow peer (s : Session) c wire plain ch i pt pid off data last h a m :
  Connection.pending s = [] -> deferred c = [] ->
  FrameStream.next (input c) = (Ok wire, i) -> Channel.decrypt wire (channel c) = (Ok plain, ch) ->
  Frames.parse plain = Ok (FPayloadTransfer pt) ->
  Assembler.accept pt (Connection.assembler s) = (Ok (EvFileChunk pid off data last h), a) ->
  Connection.expected s !! pid = Some m ->
  exists s' l c', Connection.iteration slow peer s c = (Ok (Connection.Continue s'), c') /\
    trace (link c') = trace (link c) ++ l /\ stored pid l = data /\
    input c' = i /\ channel c' = ch /\ deferred c' = [] /\
    if last then closed pid s'
    else Connection.expected s' = Connection.expected s /\ Connection.assembler s' = a /\
         Connection.pending s' = [].
Proof using Hob.
  intros Hp Hd Hnext Hdec Hparse Hacc Hm. unfold Connection.iteration. rewrite Hp.
  cbn [Connection.perform_all]. unfold mbind at 1, ret at 1.
  destruct (waits Hob (wld (link c))) as (w & Hw). destruct (runs_ask _ c _ _ Hw) as [c1 [E1 T1 I1 C1 D1]].
  unfold mbind at 1. rewrite E1. cbn [Connection.pending Connection.set_pending is_empty negb].
  unfold mbind at 1. unfold pop_deferred at 1. rewrite D1, Hd.
  unfold mbind at 1 2. unfold next_ at 1. rewrite I1, Hnext.
  unfold decrypt_ at 1. cbn [channel]. rewrite C1, Hdec. cbn [invalid]. unfold ret at 1.
  unfold mbind at 1. rewrite Hparse. cbn [invalid]. unfold ret at 1. cbn [Connection.on_offline].
  unfold mbind at 1, Connection.on_payload. cbn [Connection.assembler Connection.set_pending].
  rewrite Hacc. unfold mbind at 1. cbn [invalid]. unfold ret at 1.
  set (s1 := Connection.set_assembler a _). set (c2 := mkConn _ _ _ _).
  destruct (store_runs pid data last h s1 c2 m Hm) as (s2 & l & c3 & [E3 T3 I3 C3 D3] & Hl & Hs).
  rewrite E3. exists s2, l, c3. split_and!; try done.
  - rewrite T3. cbn. by rewrite T1, app_nil_r.
  - rewrite D3. cbn. by rewrite D1.
Qed.

End Receiver.

(** ** From one end to the other *)

(** A data frame is little longer than its body and its names. *)
Lemma payload_data_len h c :
  len (payload_data h c)
  <= 400 + len (ph_file_name h) + len (ph_parent_folder h) + len (pc_body c).
Proof.
  pose proof (len_nonneg (ph_file_name h)). pose proof (len_nonneg (ph_parent_folder h)).
  rewrite payload_data_offline, offline_fields.
  pose proof (encode_len (header_fields h)) as Hh. pose proof (encode_len (chunk_fields c)) as Hc.
  pose proof (encode_len (payload_data_fields h c)) as Hp.
  set (body := encode (payload_data_fields h c)) in *.
  match goal with |- len (encode ?fs) <= _ => pose proof (encode_len fs) as Ho end.
  match type of Ho with context [encode [?a; Bytes ?n body]] =>
    pose proof (encode_len [a; Bytes n body]) as Hv end.
  assert (Hhc : fields_cost (header_fields h)
                <= 120 + len (ph_file_name h) + len (ph_parent_folder h)).
  { unfold header_fields, opt_name.
    destruct (is_empty (ph_file_name h)), (is_empty (ph_parent_folder h)); cbn; lia. }
  cbn [fields_cost payload_data_fields chunk_fields] in *. lia.
Qed.

Section EndToEnd.
Context `{Host} `{Ec} `{Digest} `{Hmac} `{Cipher} `{Memcmp} `{!CipherLaws} `{!MemcmpLaws}.
Context (Hob : obliging).

(** A file's header, and its size as it turned out. *)
Record sendable (h : PayloadHeader) (size : Z) : Prop := mkSendable {
  sb_header : wf_header h;
  sb_type : ph_payload_type h = PayloadType.File;
  sb_name : len (ph_file_name h) + len (ph_parent_folder h) <= MAX_FRAME;
  sb_declared : 0 <= ph_total_size h;
  sb_honest : honest h size
}.

Lemma parse_data_frame h off d (last : bool) size :
  sendable h size -> 0 <= off -> off + len d <= size -> len d <= CHUNK ->
  Frames.parse (payload_data h (mkPayloadChunk (if last then FLAG_LAST_CHUNK else 0) off d))
  = Ok (FPayloadTransfer (data_frame h off d last)).
Proof.
  intros [Hh Ht Hn Hd (Hs & _)] Ho Hl Hc. pose proof (len_nonneg d). unfold_ints.
  apply (parse_build (MData h _)).
  - split; [done|]. unfold wf_chunk. cbn. unfold_ints. destruct last; unfold FLAG_LAST_CHUNK; lia.
  - unfold fits. cbn [build]. pose proof (payload_data_len h (mkPayloadChunk (if last then FLAG_LAST_CHUNK else 0) off d)).
    cbn [pc_body] in *. unfold CHUNK, MAX_FRAME in *. unfold_ints. lia.
Qed.

(** Where the receiver is with a payload. *)
Definition at_offset (h : PayloadHeader) (off : Z) (a : Assembler.t) : Prop :=
  (Assembler.in_flight_map a !! ph_id h = None /\ off = 0 /\ full a = false) \/
  exists buffer, Assembler.in_flight_map a !! ph_id h = Some (mkInFlight h off buffer).

Lemma accept_at_offset h off d (last : bool) size a :
  sendable h size -> 0 <= off -> off + len d <= size -> at_offset h off a ->
  exists a', Assembler.accept (data_frame h off d last) a
             = (Ok (EvFileChunk (ph_id h) off d last h), a') /\
             (last = false -> at_offset h (off + len d) a').
Proof.
  intros [Hh Ht Hn Hd Hs] Ho Hl Ha.
  assert (Hhon : honest h (off + len d)).
  { destruct Hs as (? & ? & _). split_and!; [lia|lia|by rewrite Ht]. }
  pose proof (accept1_chunk h off d last (Assembler.in_flight_map a !! ph_id h) Ho Hd Hhon) as Hacc.
  cbn zeta in Hacc. rewrite bool_decide_eq_false_2 in Hacc by (by rewrite Ht).
  rewrite <- (accept1_full (full a)) in Hacc.
  2:{ destruct Ha as [(_ & _ & Hf)|[b Hb]]; [done|]. cbn. by rewrite Hb. }
  eexists. split.
  - apply accept_eq, Hacc. destruct Ha as [(-> & -> & _)|[b ->]]; [by left|right; by exists b].
  - intros ->. right. eexists. cbn. by rewrite lookup_partial_alter_eq.
Qed.

(** The receiving end of [sc]. *)
Definition receives (n : Z) (sc rc : SecureChannel) : Prop :=
  rc = mkChannel (keys sc) (peer (role sc)) n (send_seq sc).

(** The receiver is ready for the next frame of [h]. *)
Record ready (h : PayloadHeader) (m : FileMetadata) (n off : Z) (sc : SecureChannel)
    (s : Connection.Session) (c : Conn) : Prop := mkReady {
  rd_channel : receives n sc (channel c);
  rd_deferred : deferred c = [];
  rd_pending : Connection.pending s = [];
  rd_expected : Connection.expected s !! ph_id h = Some m;
  rd_offset : at_offset h off (Connection.assembler s)
}.

Lemma round_receives slow pname h m n off d (last : bool) size sc g w sc' g' rest s c :
  sendable h size -> 0 <= off -> off + len d <= size -> len d <= CHUNK ->
  Channel.encrypt (payload_data h (mkPayloadChunk (if last then FLAG_LAST_CHUNK else 0) off d)) sc g
    = (Ok w, sc', g') ->
  len w < MAX_FRAME -> holds (input c) (Framing.encode w ++ rest) -> ready h m n off sc s c ->
  exists s' l c', Connection.iteration slow pname s c = (Ok (Connection.Continue s'), c') /\
    trace (link c') = trace (link c) ++ l /\ stored (ph_id h) l = d /\ holds (input c') rest /\
    if last then closed (ph_id h) s'
    else ready h m n (off + len d) sc' s' c'.
Proof using All.
  intros Hsb Ho Hl Hd He Hw Hin [Hc Hdef Hp Hm Ha].
  destruct (next_delivers _ _ _ Hw Hin) as (i & Hnext & Hi).
  pose proof (decrypt_next n _ _ _ _ _ _ He) as Hdec. rewrite <- Hc in Hdec.
  destruct (accept_at_offset h off d last size _ Hsb Ho Hl Ha) as (a & Hacc & Ha').
  destruct (iteration_stores Hob slow pname s c w _ _ i _ _ _ _ last _ a m Hp Hdef Hnext
    (Hdec ltac:(unfold fits, MAX_FRAME in *; unfold_ints; lia))
    (parse_data_frame h off d last size Hsb Ho Hl Hd) Hacc Hm)
    as (s' & l & c' & Hit & Ht & Hst & Hi' & Hc' & Hdef' & Hlast).
  exists s', l, c'. rewrite Hi'. split_and!; try done. destruct last; [done|].
  destruct Hlast as (Hex & Has & Hpen). constructor; try done.
  - by rewrite Hex.
  - rewrite Has. by apply Ha'.
Qed.

Lemma encrypt_all_length ps : forall sc g ws sc' g',
  encrypt_all ps sc g = (Ok ws, sc', g') -> length ws = length ps.
Proof using.
  induction ps as [|p ps IH]; intros sc g ws sc' g'; cbn [encrypt_all]; [by intros [= <- _ _]|].
  destruct (Channel.encrypt p sc g) as [[[w|e] sc1] g1]; [|done].
  destruct (encrypt_all ps sc1 g1) as [[[ws'|e] sc2] g2] eqn:E; cbn [map_ok]; [|done].
  intros [= <- _ _]. cbn [length]. f_equal. by eapply IH.
Qed.

(** The receiver's loop, on what is left of a file. *)
Lemma rounds_receive slow pname h m n rest cs off bs sc g ws sc' g' s c :
  chunked off cs bs -> sendable h (off + len bs) -> 0 <= off ->
  encrypt_all (file_frames h cs (off + len bs)) sc g = (Ok ws, sc', g') ->
  Forall (fun w => len w < MAX_FRAME) ws ->
  holds (input c) (mjoin (Framing.encode <$> ws) ++ rest) -> ready h m n off sc s c ->
  exists s' l c',
    Connection.rounds_of (S (length cs)) slow pname s c = (Connection.Running s', c') /\
    trace (link c') = trace (link c) ++ l /\ stored (ph_id h) l = bs /\
    closed (ph_id h) s' /\ holds (input c') rest.
Proof using All.
  remember (off + len bs) as size eqn:Hsize. unfold file_frames.
  revert off bs Hsize sc g ws s c. induction cs as [|[o d] cs IH];
    intros off bs Hsize sc g ws s c Hch Hsb Ho He Hws Hin Hr;
    cbn [chunked fmap list_fmap app encrypt_all] in *;
    destruct (Channel.encrypt _ sc g) as [[[w|e] sc1] g1] eqn:Hew; try done.
  - injection He as <- <- <-. inversion Hws as [|? ? Hw _]; subst.
    change (mjoin (Framing.encode <$> [w])) with (Framing.encode w ++ []) in Hin.
    rewrite app_nil_r in Hin. rewrite len_nil, Z.add_0_r in *.
    destruct (round_receives slow pname h m n off [] true off _ _ _ _ _ _ _ _ Hsb Ho
      ltac:(rewrite len_nil; lia) ltac:(done) Hew Hw Hin Hr) as (s' & l & c' & Hit & Ht & Hl & Hi & Hs').
    exists s', l, c'. cbn [length Connection.rounds_of]. by rewrite Hit.
  - destruct Hch as (-> & Hd & _ & bs' & -> & Hch).
    destruct (encrypt_all _ sc1 g1) as [[[ws'|e] sc2] g2] eqn:Hes; cbn [map_ok] in He; [|done].
    injection He as <- <- <-. inversion Hws as [|? ? Hw Hws']; subst.
    pose proof (len_nonneg bs'). rewrite len_app in *.
    change (mjoin (Framing.encode <$> w :: ws'))
      with (Framing.encode w ++ mjoin (Framing.encode <$> ws')) in Hin.
    rewrite <- app_assoc in Hin.
    destruct (round_receives slow pname h m n off d false (off + (len d + len bs')) _ _ _ _ _ _ _ _
      Hsb Ho ltac:(lia) ltac:(lia) Hew Hw Hin Hr) as (s1 & l1 & c1 & Hit & Ht & Hl & Hi & Hs1).
    destruct (IH (off + len d) bs' ltac:(lia) _ _ _ _ _ Hch Hsb ltac:(lia) Hes Hws' Hi Hs1)
      as (s2 & l2 & c2 & Hit2 & Ht2 & Hl2 & Hs2 & Hi2).
    exists s2, (l1 ++ l2), c2. cbn [length Connection.rounds_of] in *. rewrite Hit.
    split_and!; [done| | |done|done].
    + by rewrite Ht2, Ht, app_assoc.
    + by rewrite stored_app, Hl, Hl2.
Qed.

End EndToEnd.

(** ** Properties *)

(** What leaves for a file, and that its loop ends.  Whatever lengths the reads of a file
    return, a [send_one] that reports success has written the file's header with consecutive
    chunks, none of them empty, all but the last of exactly 512 KiB, which joined are the
    file's bytes, then the terminator at the offset where the file ended; nothing else has
    been encrypted, and the running total has grown by the file's length. *)
Theorem send_one_sends_the_file `{World} `{Rand} `{Hmac} `{Cipher} f pid dn total c dn' f' c' :
  readable (of_reader f) -> send_one f pid dn total c = (Ok (true, dn', f'), c') ->
  let bs := contents (of_reader f) in
  exists cs l ws, trace (link c') = trace (link c) ++ l /\ chunks_of l = cs /\
    chunked 0 cs bs /\ mjoin (snd <$> cs) = bs /\ dn' = dn + len bs /\
    written l = Framing.encode <$> ws /\
    encrypt_all (file_frames (file_header f pid) cs (len bs)) (channel c) (gen (link c))
      = (Ok ws, channel c', gen (link c')).
Proof.
  intros Hr Hs bs.
  destruct (send_one_transmits _ _ _ _ _ _ _ _ Hr Hs) as (cs & l & (ws & He & Ht & Hw) & Hcs & Hch & Hd).
  exists cs, l, ws. split_and!; try done. by eapply chunked_join.
Qed.

(** The loop that sends a file ends, whatever its reads return: it takes at most one
    round more than the reader has bytes, so that a larger bound changes nothing. *)
Theorem send_loop_terminates `{World} `{Rand} `{Hmac} `{Cipher} n h r off dn total (c : Conn) :
  reader_len r < Z.of_nat n ->
  send_loop n h r off dn total c
  = send_loop (S (Z.to_nat (reader_len r))) h r off dn total c.
Proof. intros Hn. pose proof (reader_len_nonneg r). apply send_loop_rounds; lia. Qed.

(** C4: a file arrives.  Sender, channel, framing, parser, assembler and receiver composed: if
    [send_one] reports success for a file whose header is well formed, with names that fit a frame
    and a declared size that is zero or not less than the file's; and if a receiver that holds the
    other end of the channel, expects the payload and has nothing else in hand, whose disk works
    and whose user does not cancel ([obliging]), is given the frames that were written, each
    within the cap of the framing, cut into reads of any length: then its loop, after exactly as
    many rounds as frames were written, one for each chunk and one for the terminator, has stored
    exactly the file's bytes under that payload, has closed the file, does not expect the payload
    any more, and has consumed exactly the sender's bytes. *)
Theorem a_file_arrives `{Host} `{Ec} `{Digest} `{Hmac} `{Cipher} `{Memcmp} `{!CipherLaws}
    `{!MemcmpLaws} f pid dn total c dn' f' c' slow pname m n s rc rest :
  let h := file_header f pid in
  let bs := contents (of_reader f) in
  let wire := written (drop (length (trace (link c))) (trace (link c'))) in
  obliging -> readable (of_reader f) -> sendable h (len bs) ->
  send_one f pid dn total c = (Ok (true, dn', f'), c') ->
  Forall (fun b => len b < LENGTH_PREFIX + MAX_FRAME) wire ->
  holds (input rc) (mjoin wire ++ rest) -> ready h m n 0 (channel c) s rc ->
  exists s' l rc',
    Connection.rounds_of (length wire) slow pname s rc = (Connection.Running s', rc') /\
    trace (link rc') = trace (link rc) ++ l /\ stored pid l = bs /\
    Connection.sinks s' !! pid = None /\ Connection.expected s' !! pid = None /\ holds (input rc') rest.
Proof.
  intros h bs wire Hob Hr Hsb Hs Hlen Hin Hready.
  destruct (send_one_transmits _ _ _ _ _ _ _ _ Hr Hs) as (cs & l & (ws & He & Ht & Hw) & Hcs & Hch & _).
  assert (Hwire : wire = Framing.encode <$> ws).
  { unfold wire. by rewrite Ht, drop_app_length. }
  rewrite Hwire in *. clear Hwire. pose proof (encrypt_all_length _ _ _ _ _ _ He) as Hn.
  unfold file_frames in Hn. rewrite length_app, length_fmap, Nat.add_1_r in Hn. rewrite length_fmap, Hn.
  assert (Hframes : Forall (fun w => len w < MAX_FRAME) ws).
  { apply Forall_fmap in Hlen. eapply Forall_impl; [exact Hlen|]. intros w Hlw.
    unfold compose, Framing.encode in Hlw. rewrite len_app, len_to_be_bytes in Hlw.
    unfold LENGTH_PREFIX in Hlw. lia. }
  destruct (rounds_receive Hob slow pname h m n rest cs 0 bs _ _ _ _ _ s rc Hch Hsb ltac:(lia) He Hframes Hin Hready)
    as (s' & l' & rc' & Hrun & Htr & Hst & [Hk Hx] & Hi).
  by exists s', l', rc'.
Qed.

(** *** Concrete inputs *)

Module ToyFile.

#[local] Existing Instances Connection.ToyRun.toy_world Connection.ToyRun.toy_host.
#[local] Existing Instances Toy.rand Toy.hmac Toy.cipher Toy.memcmp Toy.digest Toy.ec
  Toy.cipher_laws Toy.memcmp_laws.

(** Two short reads, and the end of the file. *)
Definition file : OutFile :=
  mkOutFile (str "a.txt") (str "text/plain") 2 [Data (str "h"); Data (str "i")].

Definition sender : Conn :=
  mkConn (mkLink (@nil Read) tt (1 : rng) []) (FrameStream.new []) (Channel.new toy_keys Client) [].

Definition sent : Conn := snd (send_one file 7 0 2 sender).

Definition wire : list (list byte) := written (trace (link sent)).

Definition meta : FileMetadata :=
  mkFileMetadata (str "a.txt") FileType.Document 7 2 (str "text/plain") 7 [] 0 false.

Definition session : Connection.Session :=
  Connection.mkSession (Inbound.mk State.Transferring true true None) Assembler.new 1 ∅ {[7 := meta]} []
    0 2 0 9 [] false 0.

(** The other end, on a network that delivers frame by frame. *)
Definition receiver : Conn :=
  mkConn (mkLink (@nil Read) tt (1 : rng) []) (FrameStream.mk (Data <$> wire) Decoder.new)
    (Channel.new toy_keys Server) [].

Lemma file_readable : readable (of_reader file).
Proof. repeat constructor; eexists; split; reflexivity || discriminate. Qed.

Lemma sent_result : fst (send_one file 7 0 2 sender)
  = Ok (true, 2, mkOutFile (str "a.txt") (str "text/plain") 2 []).
Proof. vm_compute. reflexivity. Qed.

Lemma sent_eq : send_one file 7 0 2 sender
  = (Ok (true, 2, mkOutFile (str "a.txt") (str "text/plain") 2 []), sent).
Proof. unfold sent. rewrite <- sent_result. by destruct (send_one _ _ _ _ _). Qed.

Lemma wire_lengths : forallb (fun b => (0 <? len b) && (len b <? 1000)) wire = true.
Proof. vm_compute. reflexivity. Qed.

Lemma host_obliging : obliging.
Proof. by constructor; eauto. Qed.

Lemma file_sendable : sendable (file_header file 7) (len (contents (of_reader file))).
Proof.
  constructor; [repeat split; vm_compute; congruence|reflexivity|vm_compute; discriminate..|].
  split; [vm_compute; discriminate|]. split; [right; vm_compute; discriminate|discriminate].
Qed.

Lemma receiver_holds : holds (input receiver) (mjoin wire ++ []).
Proof.
  exists wire. split; [reflexivity|]. split; [|by rewrite app_nil_r].
  pose proof wire_lengths as Hw. rewrite forallb_forall in Hw. apply Forall_forall.
  intros b Hb -> . rewrite list_elem_of_In in Hb. specialize (Hw _ Hb). discriminate.
Qed.

Lemma receiver_ready : ready (file_header file 7) meta 0 0 (channel sender) session receiver.
Proof. constructor; try reflexivity. left. repeat split. Qed.

Lemma send_one_sends_the_file_witness :
  exists cs l ws, trace (link sent) = trace (link sender) ++ l /\ chunks_of l = cs /\
    chunked 0 cs (str "hi") /\ mjoin (snd <$> cs) = str "hi" /\ 2 = 0 + len (str "hi") /\
    written l = Framing.encode <$> ws /\
    encrypt_all (file_frames (file_header file 7) cs (len (str "hi"))) (channel sender)
      (gen (link sender)) = (Ok ws, channel sent, gen (link sent)).
Proof.
  exact (send_one_sends_the_file file 7 0 2 sender 2 _ sent file_readable sent_eq).
Defined.

Lemma send_loop_terminates_witness :
  send_loop 100 (file_header file 7) (of_reader file) 0 0 2 sender
  = send_loop 3 (file_header file 7) (of_reader file) 0 0 2 sender.
Proof. apply (send_loop_terminates 100). reflexivity. Defined.

Lemma a_file_arrives_witness :
  exists s' l rc',
    Connection.rounds_of (length wire) false (str "peer") session receiver = (Connection.Running s', rc') /\
    trace (link rc') = trace (link receiver) ++ l /\ stored 7 l = str "hi" /\
    Connection.sinks s' !! 7 = None /\ Connection.expected s' !! 7 = None /\ holds (input rc') [].
Proof.
  refine (a_file_arrives file 7 0 2 sender 2 _ sent false (str "peer") meta 0 session receiver []
    host_obliging file_readable file_sendable sent_eq _ receiver_holds receiver_ready).
  change (drop (length (trace (link sender))) (trace (link sent))) with (trace (link sent)).
  change (written (trace (link sent))) with wire.
  pose proof wire_lengths as Hw. rewrite forallb_forall in Hw. apply Forall_forall.
  intros b Hb. rewrite list_elem_of_In in Hb. specialize (Hw _ Hb).
  unfold LENGTH_PREFIX, MAX_FRAME. lia.
Defined.

End ToyFile.
