(* ===== verification/Transfers.v ===== *)
(** * The transfer table ([sharingd/src/main.rs], [TransferState])

    One slot for one transfer across both protocols, the answers people and clients give, and
    who holds the radio: atomics and small locks that every thread of the daemon uses.  Each
    operation is a function on the state; [try_begin] and [finish], which take several atomic
    steps, are also given step by step, so that threads can interleave between them. *)

From S2P Require Import Prelude.

(** Milliseconds. *)
Definition STALE_TRANSFER : Z := 180 * 1000.

(** One pass of a waiting loop: done with a result, or waiting on. *)
Inductive Pass (A : Type) : Type := Stop (a : A) | Wait.
Arguments Stop {A}. Arguments Wait {A}.

Section Transfers.
(** A socket that can be shut down, a client's descriptor, a Wi-Fi Direct group. *)
Context {Sock File Group : Type}.

Record St : Type := mkSt {
  decision : option (Z * bool);
  current : Z;
  cancelled : Z;
  abort : option (Z * Sock);
  next : Z;
  pin : option (Z * list byte);
  pin_ok : option Z;
  upgrade_socket : option (Z * option File);
  group : option (Z * option Group);
  group_wanted : Z;
  needs_awdl : bool;
  wifi_direct_active : bool;
  airdrop_pending : Z;
  last_activity : option Z
}.

(** [TransferState::default]. *)
Definition idle : St := mkSt None 0 0 None 0 None None None None 0 false false 0 None.

Definition set_decision x s := mkSt x (current s) (cancelled s) (abort s) (next s) (pin s) (pin_ok s)
  (upgrade_socket s) (group s) (group_wanted s) (needs_awdl s) (wifi_direct_active s)
  (airdrop_pending s) (last_activity s).
Definition set_current x s := mkSt (decision s) x (cancelled s) (abort s) (next s) (pin s) (pin_ok s)
  (upgrade_socket s) (group s) (group_wanted s) (needs_awdl s) (wifi_direct_active s)
  (airdrop_pending s) (last_activity s).
Definition set_cancelled x s := mkSt (decision s) (current s) x (abort s) (next s) (pin s) (pin_ok s)
  (upgrade_socket s) (group s) (group_wanted s) (needs_awdl s) (wifi_direct_active s)
  (airdrop_pending s) (last_activity s).
Definition set_abort x s := mkSt (decision s) (current s) (cancelled s) x (next s) (pin s) (pin_ok s)
  (upgrade_socket s) (group s) (group_wanted s) (needs_awdl s) (wifi_direct_active s)
  (airdrop_pending s) (last_activity s).
Definition set_next x s := mkSt (decision s) (current s) (cancelled s) (abort s) x (pin s) (pin_ok s)
  (upgrade_socket s) (group s) (group_wanted s) (needs_awdl s) (wifi_direct_active s)
  (airdrop_pending s) (last_activity s).
Definition set_pins x y s := mkSt (decision s) (current s) (cancelled s) (abort s) (next s) x y
  (upgrade_socket s) (group s) (group_wanted s) (needs_awdl s) (wifi_direct_active s)
  (airdrop_pending s) (last_activity s).
Definition set_upgrade x s := mkSt (decision s) (current s) (cancelled s) (abort s) (next s) (pin s)
  (pin_ok s) x (group s) (group_wanted s) (needs_awdl s) (wifi_direct_active s)
  (airdrop_pending s) (last_activity s).
Definition set_group x s := mkSt (decision s) (current s) (cancelled s) (abort s) (next s) (pin s)
  (pin_ok s) (upgrade_socket s) x (group_wanted s) (needs_awdl s) (wifi_direct_active s)
  (airdrop_pending s) (last_activity s).
Definition set_group_wanted x s := mkSt (decision s) (current s) (cancelled s) (abort s) (next s)
  (pin s) (pin_ok s) (upgrade_socket s) (group s) x (needs_awdl s) (wifi_direct_active s)
  (airdrop_pending s) (last_activity s).
Definition set_needs_awdl x s := mkSt (decision s) (current s) (cancelled s) (abort s) (next s)
  (pin s) (pin_ok s) (upgrade_socket s) (group s) (group_wanted s) x (wifi_direct_active s)
  (airdrop_pending s) (last_activity s).
Definition set_wifi_direct x s := mkSt (decision s) (current s) (cancelled s) (abort s) (next s)
  (pin s) (pin_ok s) (upgrade_socket s) (group s) (group_wanted s) (needs_awdl s) x
  (airdrop_pending s) (last_activity s).
Definition set_airdrop x s := mkSt (decision s) (current s) (cancelled s) (abort s) (next s) (pin s)
  (pin_ok s) (upgrade_socket s) (group s) (group_wanted s) (needs_awdl s) (wifi_direct_active s)
  x (last_activity s).
Definition set_activity x s := mkSt (decision s) (current s) (cancelled s) (abort s) (next s) (pin s)
  (pin_ok s) (upgrade_socket s) (group s) (group_wanted s) (needs_awdl s) (wifi_direct_active s)
  (airdrop_pending s) x.

(** [map(|(i, _)| *i == id).unwrap_or(false)]. *)
Definition mine {A} (id : Z) (o : option (Z * A)) : bool :=
  match o with Some (i, _) => i =? id | None => false end.

(** ** The slot *)

Definition touch (now : Z) (s : St) : St := set_activity (Some now) s.

Definition is_stale (now : Z) (s : St) : bool :=
  match last_activity s with Some t => STALE_TRANSFER <? now - t | None => false end.

(** [x.compare_exchange(old, new)]. *)
Definition compare_exchange (x old new : Z) : bool * Z := if x =? old then (true, new) else (false, x).

Definition clear_upgrade (id : Z) (s : St) : St :=
  if mine id (upgrade_socket s) then set_upgrade None s else s.

(** [arm_abort]; [sock] is what [try_clone] gave, [Some None] if it failed. *)
Definition arm_abort (id : Z) (sock : option (option Sock)) (s : St) : St :=
  match sock with
  | Some c => set_abort ((fun c => (id, c)) <$> c) s
  | None => if mine id (abort s) then set_abort None s else s
  end.

(** [drain_armed] changes nothing: it waits, at most [polls] readings, for the socket that is
    armed for [id] to have nothing unacknowledged; [unacked] are the readings. *)
Fixpoint drain_loop (polls : nat) (unacked : list (option Z)) : bool :=
  match unacked with
  | [] => true
  | None :: _ => true
  | Some remaining :: unacked =>
      if remaining =? 0 then true
      else match polls with O => false | S polls => drain_loop polls unacked end
  end.
Definition drain_armed (polls : nat) (id : Z) (unacked : list (option Z)) (s : St) : bool :=
  if mine id (abort s) then drain_loop polls unacked else true.

(** The steps of [finish] after the wait, one per atomic access. *)
Inductive Stage : Type := FCurrent | FAirdrop | FUpgrade | FWifi | FAbort | FClock.

Definition finish_step (g : Stage) (id : Z) (s : St) : St :=
  match g with
  | FCurrent => set_current (compare_exchange (current s) id 0).2 s
  | FAirdrop => set_airdrop (compare_exchange (airdrop_pending s) id 0).2 s
  | FUpgrade => clear_upgrade id s
  | FWifi => set_wifi_direct false s
  | FAbort => arm_abort id None s
  | FClock => set_activity None s
  end.

Definition following (g : Stage) : option Stage :=
  match g with
  | FCurrent => Some FAirdrop | FAirdrop => Some FUpgrade | FUpgrade => Some FWifi
  | FWifi => Some FAbort | FAbort => Some FClock | FClock => None
  end.

Definition finish (id : Z) (s : St) : St :=
  let s := set_current (compare_exchange (current s) id 0).2 s in
  let s := set_airdrop (compare_exchange (airdrop_pending s) id 0).2 s in
  let s := clear_upgrade id s in
  let s := set_wifi_direct false s in
  let s := arm_abort id None s in
  set_activity None s.

(** The claim itself: [fetch_add], then [compare_exchange], then what belongs to the claim. *)
Definition fetch_id (s : St) : Z * St := (next s + 1, set_next (as_i64 (next s + 1)) s).
Definition claim (id : Z) (s : St) : bool * St :=
  let (won, c) := compare_exchange (current s) 0 id in (won, set_current c s).

Definition try_begin (now : Z) (needs : bool) (s : St) : option Z * St :=
  let cur := current s in
  if negb (cur =? 0) && negb (is_stale now s) then (None, s)
  else
    let s := if negb (cur =? 0) then finish cur s else s in
    let (id, s) := fetch_id s in
    let (won, s) := claim id s in
    if negb won then (None, s)
    else
      let s := set_needs_awdl needs s in
      let s := if needs then set_airdrop id s else s in
      (Some id, touch now s).

Definition current_needs_awdl (s : St) : bool := negb (current s =? 0) && needs_awdl s.
Definition airdrop_busy (s : St) : bool := negb (airdrop_pending s =? 0).

(** ** Cancelling *)

(** The flag; the thread [cancel] starts runs [force_cancel] after the grace period and shuts
    down the socket it returns. *)
Definition cancel (id : Z) (s : St) : St := set_cancelled id s.
Definition force_cancel (id : Z) (s : St) : option Sock * St :=
  if negb (current s =? id) then (None, s)
  else if mine id (abort s) then (snd <$> abort s, set_abort None s)
  else (None, s).
Definition is_cancelled (id : Z) (s : St) : bool := negb (id =? 0) && (cancelled s =? id).

(** ** Answers *)

Definition answer (id : Z) (accept : bool) (s : St) : St := set_decision (Some (id, accept)) s.

Definition await_answer_pass (id : Z) (s : St) : Pass bool * St :=
  match decision s with
  | Some (answered, accept) =>
      let s := set_decision None s in
      if answered =? id then (Stop accept, s) else (Wait, s)
  | None => (Wait, s)
  end.

Definition set_pin (id : Z) (p : list byte) (s : St) : St := set_pins (Some (id, p)) (pin_ok s) s.

Definition confirm_pin (id : Z) (typed : list byte) (s : St) : bool * St :=
  let matched := match pin s with
                 | Some (parked, real) => (parked =? id) && bool_decide (real = typed)
                 | None => false
                 end in
  (matched, if matched then set_pins (pin s) (Some id) s else s).

Definition await_pin_pass (id : Z) (s : St) : Pass bool * St :=
  if bool_decide (pin_ok s = Some id) then (Stop true, set_pins (pin s) None s)
  else if is_cancelled id s then (Stop false, s)
  else (Wait, s).

Definition clear_pin (id : Z) (s : St) : St :=
  set_pins (if mine id (pin s) then None else pin s)
           (if bool_decide (pin_ok s = Some id) then None else pin_ok s) s.

Definition want_group (id : Z) (s : St) : St := set_group_wanted id s.
Definition stop_wanting_group (s : St) : St := set_group_wanted 0 s.
Definition provide_group (id : Z) (g : option Group) (s : St) : St :=
  if negb (group_wanted s =? id) then s else set_group (Some (id, g)) s.

Definition await_group_pass (id : Z) (s : St) : Pass (option Group) * St :=
  match group s with
  | Some (who, g) =>
      if who =? id then (Stop g, set_group None s)
      else if is_cancelled id s then (Stop None, s) else (Wait, s)
  | None => if is_cancelled id s then (Stop None, s) else (Wait, s)
  end.

Definition provide_upgrade (id : Z) (f : option File) (s : St) : St := set_upgrade (Some (id, f)) s.

Definition await_upgrade_pass (id : Z) (s : St) : Pass (option File) * St :=
  match upgrade_socket s with
  | Some (who, f) =>
      if who =? id then (Stop f, set_upgrade None s)
      else if is_cancelled id s then (Stop None, s) else (Wait, s)
  | None => if is_cancelled id s then (Stop None, s) else (Wait, s)
  end.

(** The waiting loop: what other threads do to the state each time the lock is given up;
    [dflt] when the time is out. *)
Fixpoint await {S A} (pass : S -> Pass A * S) (dflt : A) (others : list (S -> S)) (s : S) : A * S :=
  match pass s with
  | (Stop a, s) => (a, s)
  | (Wait, s) =>
      match others with
      | [] => (dflt, s)
      | o :: others => await pass dflt others (o s)
      end
  end.

Definition await_answer (id : Z) (others : list (St -> St)) (s : St) : option bool * St :=
  await (fun s => let (p, s) := await_answer_pass id s in
                  (match p with Stop b => Stop (Some b) | Wait => Wait end, s)) None others s.
Definition await_pin (id : Z) : list (St -> St) -> St -> bool * St := await (await_pin_pass id) false.
Definition await_group (id : Z) : list (St -> St) -> St -> option Group * St :=
  await (await_group_pass id) None.
Definition await_upgrade (id : Z) : list (St -> St) -> St -> option File * St :=
  await (await_upgrade_pass id) None.

(** ** The radio *)

(** [arm_wifi_direct], up to the waits for the radio to come down, which decide nothing, in any
    state [S] that has a table: [others] is what other threads do while this one sleeps, one
    entry for every poll of the fifteen seconds; [late] what they do between the swap and the
    check after it. *)
Fixpoint wait_while {S} (busy : S -> bool) (others : list (S -> S)) (s : S) : bool * S :=
  if busy s then
    match others with
    | [] => (false, s)
    | o :: others => wait_while busy others (o s)
    end
  else (true, s).

Definition arm_wifi_direct {S} (table : S -> St) (put : St -> S -> S) (others : list (S -> S)) (late : S -> S)
    (s : S) : bool * S :=
  if wifi_direct_active (table s) then (true, s)
  else
    let (free, s) := wait_while (fun s => airdrop_busy (table s)) others s in
    if negb free then (false, s)
    else
      let was := wifi_direct_active (table s) in
      let s := put (set_wifi_direct true (table s)) s in
      if was then (true, s)
      else
        let s := late s in
        if airdrop_busy (table s) then (false, put (set_wifi_direct false (table s)) s) else (true, s).

End Transfers.

(** ** Threads *)

(** Where a thread is: inside [try_begin], [finish], [await_answer] or [arm_wifi_direct], before
    the atomic access the constructor names; or back, with what was returned. *)
Inductive Pc : Type :=
| Load (needs : bool) | Stale (needs : bool) (cur : Z) | Reclaim (needs : bool) (g : Stage) (cur : Z)
| Fetch (needs : bool) | Claim (needs : bool) (id : Z) | SetNeeds (needs : bool) (id : Z)
| SetAirdrop (id : Z) | SetClock (id : Z) | Began (r : option Z)
| Finishing (g : Stage) (id : Z) | Finished
| Awaiting (id : Z) | Answered (id : Z) (r : option bool)
| ArmLook | ArmPoll | ArmSwap | ArmCheck | Armed (r : bool).

(** The other operations.  [ConfirmPin], [ClearPin], [ProvideGroup] and [ForceCancel] make two
    accesses in the code and are one step here: neither touches the slot or the answer. *)
Inductive Op {Sock File Group : Type} : Type :=
| Touch | Cancel (id : Z) | ForceCancel (id : Z) | ArmAbort (id : Z) (s : option (option Sock))
| Answer (id : Z) (accept : bool)
| SetPin (id : Z) (p : list byte) | ConfirmPin (id : Z) (p : list byte) | AwaitPin (id : Z) | ClearPin (id : Z)
| WantGroup (id : Z) | StopWantingGroup | ProvideGroup (id : Z) (g : option Group) | AwaitGroup (id : Z)
| ProvideUpgrade (id : Z) (f : option File) | AwaitUpgrade (id : Z) | ClearUpgrade (id : Z).
Arguments Op : clear implicits.

(** What the claims of the slot and the answers to offers have been. *)
Inductive Ev : Type := Claimed (id : Z) | Released (id : Z) | Said (id : Z) (accept : bool).

Module Threads.
Section Threads.
Context {Sock File Group : Type}.

(** One atomic access of a thread; [None] when it has returned. *)
Definition advance (now : Z) (pc : Pc) (s : @St Sock File Group) : option (Pc * St) :=
  match pc with
  | Load needs =>
      Some (if negb (current s =? 0) then Stale needs (current s) else Fetch needs, s)
  | Stale needs cur =>
      Some (if is_stale now s then Reclaim needs FCurrent cur else Began None, s)
  | Reclaim needs g cur =>
      Some (match following g with Some g => Reclaim needs g cur | None => Fetch needs end,
            finish_step g cur s)
  | Fetch needs => let (id, s) := fetch_id s in Some (Claim needs id, s)
  | Claim needs id =>
      let (won, s) := claim id s in Some (if won then SetNeeds needs id else Began None, s)
  | SetNeeds needs id =>
      Some (if needs then SetAirdrop id else SetClock id, set_needs_awdl needs s)
  | SetAirdrop id => Some (SetClock id, set_airdrop id s)
  | SetClock id => Some (Began (Some id), touch now s)
  | Finishing g id =>
      Some (match following g with Some g => Finishing g id | None => Finished end,
            finish_step g id s)
  | Awaiting id =>
      let (p, s) := await_answer_pass id s in
      Some (match p with Stop b => Answered id (Some b) | Wait => Awaiting id end, s)
  | ArmLook => Some (if wifi_direct_active s then Armed true else ArmPoll, s)
  | ArmPoll => Some (if airdrop_busy s then ArmPoll else ArmSwap, s)
  | ArmSwap => Some (if wifi_direct_active s then Armed true else ArmCheck, set_wifi_direct true s)
  | ArmCheck =>
      Some (if airdrop_busy s then (Armed false, set_wifi_direct false s) else (Armed true, s))
  | Began _ | Finished | Answered _ _ | Armed _ => None
  end.

(** A wait that has run out. *)
Definition expire (pc : Pc) : option Pc :=
  match pc with
  | Awaiting id => Some (Answered id None)
  | ArmPoll => Some (Armed false)
  | _ => None
  end.

Definition apply (now : Z) (o : Op Sock File Group) (s : @St Sock File Group) : St :=
  match o with
  | Touch => touch now s
  | Cancel id => cancel id s
  | ForceCancel id => (force_cancel id s).2
  | ArmAbort id c => arm_abort id c s
  | Answer id b => answer id b s
  | SetPin id p => set_pin id p s
  | ConfirmPin id p => (confirm_pin id p s).2
  | AwaitPin id => (await_pin_pass id s).2
  | ClearPin id => clear_pin id s
  | WantGroup id => want_group id s
  | StopWantingGroup => stop_wanting_group s
  | ProvideGroup id g => provide_group id g s
  | AwaitGroup id => (await_group_pass id s).2
  | ProvideUpgrade id f => provide_upgrade id f s
  | AwaitUpgrade id => (await_upgrade_pass id s).2
  | ClearUpgrade id => clear_upgrade id s
  end.

Record Sys : Type := mkSys { st : @St Sock File Group; now : Z; threads : list Pc; hist : list Ev }.

Definition start (now : Z) : Sys := mkSys idle now [] [].

(** A call of an operation with several steps; a step of the [i]-th such call; a wait of it that
    ends unanswered; an operation of one step; time. *)
Inductive Label : Type :=
| Begin (needs : bool) | Finish (id : Z) | Await (id : Z) | Arm
| Step (i : nat) | Expire (i : nat) | Do (o : Op Sock File Group) | Tick (d : Z).

Definition slot_event (before after : Z) : list Ev :=
  if before =? after then [] else if after =? 0 then [Released before] else [Claimed after].

Definition spawn (pc : Pc) (s : Sys) : Sys := mkSys (st s) (now s) (threads s ++ [pc]) (hist s).

Definition step (l : Label) (s : Sys) : option Sys :=
  match l with
  | Begin needs => Some (spawn (Load needs) s)
  | Finish id => Some (spawn (Finishing FCurrent id) s)
  | Await id => Some (spawn (Awaiting id) s)
  | Arm => Some (spawn ArmLook s)
  | Step i =>
      let^ pc := threads s !! i in
      let^ (pc, st') := advance (now s) pc (st s) in
      Some (mkSys st' (now s) (<[i := pc]> (threads s))
              (hist s ++ slot_event (current (st s)) (current st')))
  | Expire i =>
      let^ pc := threads s !! i in
      let^ pc := expire pc in
      Some (mkSys (st s) (now s) (<[i := pc]> (threads s)) (hist s))
  | Do o =>
      Some (mkSys (apply (now s) o (st s)) (now s) (threads s)
              (hist s ++ match o with Answer id b => [Said id b] | _ => [] end))
  | Tick d => if 0 <=? d then Some (mkSys (st s) (now s + d) (threads s) (hist s)) else None
  end.

Fixpoint run (ls : list Label) (s : Sys) : option Sys :=
  match ls with
  | [] => Some s
  | l :: ls => let^ s := step l s in run ls s
  end.

(** A thread that no other thread interrupts. *)
Fixpoint alone (fuel : nat) (now : Z) (pc : Pc) (s : @St Sock File Group) : Pc * St :=
  match fuel with
  | O => (pc, s)
  | S fuel => match advance now pc s with Some (pc, s) => alone fuel now pc s | None => (pc, s) end
  end.

End Threads.
End Threads.

(** ** Lemmas *)

(** *** The history of the slot *)

Definition claims (h : list Ev) : list Z :=
  omap (fun e => match e with Claimed id => Some id | _ => None end) h.

(** Who holds the slot after [h], if claims and releases alternate as they should: a claim only
    of a free slot, a release only by its holder. *)
Fixpoint holder (h : list Ev) (c : Z) : option Z :=
  match h with
  | [] => Some c
  | Claimed id :: h => if (c =? 0) && (0 <? id) then holder h id else None
  | Released id :: h => if (c =? id) && negb (c =? 0) then holder h 0 else None
  | Said _ _ :: h => holder h c
  end.

Lemma holder_app h k c : holder (h ++ k) c = let^ c := holder h c in holder k c.
Proof.
  revert c. induction h as [|[id|id|id b] h IH]; intros c; cbn [holder app]; [done| | |done];
    by destruct (_ && _).
Qed.

Lemma claims_app h k : claims (h ++ k) = claims h ++ claims k.
Proof. apply omap_app. Qed.

Section Invariant.
Context {Sock File Group : Type}.
Import Threads.

Definition ticket (pc : Pc) : option Z := match pc with Claim _ id => Some id | _ => None end.
Definition won (pc : Pc) : option Z :=
  match pc with
  | SetNeeds _ id | SetAirdrop id | SetClock id => Some id
  | Began r => r
  | _ => None
  end.
(** The id a thread was given, claimed or not. *)
Definition owns (pc : Pc) : option Z := match ticket pc with Some id => Some id | None => won pc end.

(** What one access can do to the slot, the counter and the answer. *)
Variant effect (pc pc' : Pc) (s s' : @St Sock File Group) : Prop :=
| eff_quiet :
    current s' = current s -> next s' = next s -> (owns pc' = None \/ owns pc' = won pc) ->
    ticket pc' = None -> (decision s' = decision s \/ decision s' = None) ->
    (forall id b, pc' <> Answered id (Some b)) -> effect pc pc' s s'
| eff_fetch needs :
    current s' = current s -> next s' = as_i64 (next s + 1) -> decision s' = decision s ->
    pc' = Claim needs (next s + 1) -> effect pc pc' s s'
| eff_claim needs id :
    current s = 0 -> current s' = id -> next s' = next s -> decision s' = decision s ->
    pc = Claim needs id -> pc' = SetNeeds needs id -> effect pc pc' s s'
| eff_release :
    current s <> 0 -> current s' = 0 -> next s' = next s -> decision s' = decision s ->
    owns pc' = None -> (forall id b, pc' <> Answered id (Some b)) -> effect pc pc' s s'
| eff_answer id b :
    current s' = current s -> next s' = next s -> decision s = Some (id, b) ->
    decision s' = None -> pc' = Answered id (Some b) -> effect pc pc' s s'.

Lemma finish_step_other g id (s : @St Sock File Group) :
  next (finish_step g id s) = next s /\ decision (finish_step g id s) = decision s /\
  (current (finish_step g id s) = current s \/
   (current s = id /\ current (finish_step g id s) = 0)).
Proof.
  destruct g; cbn [finish_step]; unfold clear_upgrade, arm_abort, compare_exchange;
    try (case_match; cbn; by auto); cbn; try by auto.
  destruct (Z.eqb_spec (current s) id); cbn; by auto.
Qed.

Lemma finish_effect g id pc pc' (s : @St Sock File Group) :
  owns pc' = None -> (forall id b, pc' <> Answered id (Some b)) ->
  effect pc pc' s (finish_step g id s).
Proof.
  intros Ho Ha. destruct (finish_step_other g id s) as (Hn & Hd & [Hc|[Hid Hc]]).
  - apply eff_quiet; try done; [by left| |by left].
    unfold owns in Ho. by destruct (ticket pc').
  - destruct (Z.eq_dec (current s) 0).
    + apply eff_quiet; try done; [lia|by left| |by left]. unfold owns in Ho. by destruct (ticket pc').
    + by apply eff_release.
Qed.

Lemma advance_effect now pc (s : @St Sock File Group) pc' s' :
  advance now pc s = Some (pc', s') -> effect pc pc' s s'.
Proof.
  destruct pc as [needs|needs cur|needs g cur|needs|needs id|needs id|id|id|r|g id| |id|id r| | | | |r];
    cbn [advance]; intros H.
  all: try discriminate H.
  all: try (injection H as <- <-; apply eff_quiet; cbn; try case_match; by auto).
  - injection H as <- <-. apply finish_effect; by destruct g.
  - injection H as <- <-. by eapply eff_fetch.
  - unfold claim, compare_exchange in H. destruct (Z.eqb_spec (current s) 0) as [Hc|Hc]; injection H as <- <-.
    + by eapply eff_claim.
    + apply eff_quiet; cbn; by auto.
  - injection H as <- <-. apply finish_effect; by destruct g.
  - unfold await_answer_pass in H. destruct (decision s) as [[who b]|] eqn:Hd.
    + destruct (Z.eqb_spec who id) as [->|]; injection H as <- <-.
      * by eapply eff_answer.
      * apply eff_quiet; cbn; by auto.
    + injection H as <- <-. apply eff_quiet; cbn; by auto.
  - destruct (airdrop_busy s); injection H as <- <-; apply eff_quiet; cbn; by auto.
Qed.

(** An access changes the slot only to claim it free with the number the thread has taken, or to
    free it for the transfer that holds it. *)
Lemma advance_slot now pc (s : @St Sock File Group) pc' s' :
  advance now pc s = Some (pc', s') -> current s' <> current s ->
  (current s = 0 /\ exists needs, pc = Claim needs (current s')) \/
  (current s <> 0 /\ current s' = 0 /\
   (pc = Finishing FCurrent (current s) \/ exists needs, pc = Reclaim needs FCurrent (current s))).
Proof.
  intros H Hne. assert (Hstage : forall g id, s' = finish_step g id s ->
    current s <> 0 /\ current s' = 0 /\ g = FCurrent /\ id = current s).
  { intros g id ->. destruct g; cbn [finish_step] in *; unfold clear_upgrade, arm_abort, compare_exchange in *;
      try (exfalso; apply Hne; case_match; reflexivity); try (exfalso; apply Hne; reflexivity).
    destruct (Z.eqb_spec (current s) id) as [E|E]; cbn in Hne |- *; [|done]. split_and!; congruence. }
  destruct pc; cbn [advance] in H; try discriminate H;
    try (injection H as <- <-; exfalso; apply Hne; reflexivity).
  - injection H as _ H. symmetry in H. destruct (Hstage _ _ H) as (? & ? & -> & ->). right. eauto.
  - unfold claim, compare_exchange in H. destruct (Z.eqb_spec (current s) 0) as [E|]; injection H as <- <-; [|done].
    left. split; [done|]. by exists needs.
  - injection H as _ H. symmetry in H. destruct (Hstage _ _ H) as (? & ? & -> & ->). right. eauto.
  - unfold await_answer_pass in H. exfalso. apply Hne.
    destruct (decision s) as [[who b]|]; [destruct (who =? id)|]; by injection H as <- <-.
  - destruct (airdrop_busy s); injection H as <- <-; by destruct Hne.
Qed.

Lemma apply_effect now o (s : @St Sock File Group) :
  current (apply now o s) = current s /\ next (apply now o s) = next s /\
  (decision (apply now o s) = decision s \/
   exists id b, o = Answer id b /\ decision (apply now o s) = Some (id, b)).
Proof.
  destruct o; cbn [apply];
    unfold touch, cancel, force_cancel, arm_abort, answer, set_pin, confirm_pin, await_pin_pass,
      clear_pin, want_group, stop_wanting_group, provide_group, await_group_pass, provide_upgrade,
      await_upgrade_pass, clear_upgrade;
    repeat case_match; cbn; split_and!; eauto.
Qed.

(** *** The invariant *)

Record inv (k : Z) (s : @Sys Sock File Group) : Prop := mkInv {
  inv_next : 0 <= next (st s) <= k;
  inv_slot : holder (hist s) 0 = Some (current (st s));
  inv_claims : Forall (fun id => 0 < id <= next (st s)) (claims (hist s)) /\ NoDup (claims (hist s));
  inv_held : forall i pc id, threads s !! i = Some pc ->
    (ticket pc = Some id -> 0 < id <= next (st s) /\ id ∉ claims (hist s)) /\
    (won pc = Some id -> id ∈ claims (hist s));
  inv_unique : forall i j pc pc' id, threads s !! i = Some pc -> threads s !! j = Some pc' ->
    owns pc = Some id -> owns pc' = Some id -> i = j;
  inv_decision : forall id b, decision (st s) = Some (id, b) -> Said id b ∈ hist s;
  inv_answered : forall i id b, threads s !! i = Some (Answered id (Some b)) -> Said id b ∈ hist s
}.

Lemma table_inv_start now k : 0 <= k -> inv k (start now).
Proof.
  intros Hk. split; cbn; try done; try lia. split; constructor.
Qed.

(** A step that leaves the slot, the counter and the histories of claims as they are, and gives
    thread [i] no id it did not have. *)
Lemma inv_quiet k s st' n th h :
  inv k s -> current st' = current (st s) -> next st' = next (st s) ->
  claims h = claims (hist s) -> holder h 0 = holder (hist s) 0 ->
  (forall e, e ∈ hist s -> e ∈ h) ->
  (forall id b, decision st' = Some (id, b) -> Said id b ∈ h) ->
  (forall i pc, th !! i = Some pc ->
     threads s !! i = Some pc \/
     (ticket pc = None /\ (owns pc = None \/ exists pc0, threads s !! i = Some pc0 /\ owns pc = won pc0)) /\
     (forall id b, pc = Answered id (Some b) -> Said id b ∈ h)) ->
  inv k (mkSys st' n th h).
Proof.
  intros [Hnext Hslot Hcl Hheld Huniq Hdec Hans] Hc Hn Hh Hho Hin Hd Hth.
  assert (Hown : forall i pc id, th !! i = Some pc -> owns pc = Some id ->
            exists pc0, threads s !! i = Some pc0 /\ owns pc0 = Some id).
  { intros i pc id Hi Ho. destruct (Hth i pc Hi) as [?|((Ht & [Hno|(pc0 & Hi0 & Ho0)]) & _)]; [eauto|congruence|].
    exists pc0. split; [done|]. unfold owns at 1. rewrite <- Ho0, Ho.
    destruct (ticket pc0) as [id'|] eqn:Ht0; [|done].
    exfalso. assert (Hw : won pc0 = None) by (by destruct pc0). congruence. }
  split; cbn [st threads hist]; rewrite ?Hh, ?Hho, ?Hn, ?Hc; try done.
  - intros i pc id Hi. destruct (Hth i pc Hi) as [Hi0|((Ht & Ho) & _)]; [by apply (Hheld i)|].
    split; [congruence|]. intros Hw. unfold owns in Ho. rewrite Ht in Ho.
    destruct Ho as [|(pc0 & Hi0 & Ho)]; [congruence|]. apply (Hheld i pc0 id Hi0). congruence.
  - intros i j pc pc' id Hi Hj Hoi Hoj.
    destruct (Hown i pc id Hi Hoi) as (p1 & H1 & O1). destruct (Hown j pc' id Hj Hoj) as (p2 & H2 & O2).
    by apply (Huniq i j p1 p2 id).
  - intros i id b Hi. destruct (Hth i _ Hi) as [Hi0|(_ & Ha)]; [by eapply Hin, Hans|by apply Ha].
Qed.

Lemma insert_lookup (th : list Pc) i pc' j pc :
  <[i := pc']> th !! j = Some pc -> (i = j /\ pc = pc') \/ th !! j = Some pc.
Proof.
  rewrite list_lookup_insert_Some. intros [(-> & -> & _)|[_ ?]]; [by left|by right].
Qed.

Lemma slot_event_same c : slot_event c c = [].
Proof. unfold slot_event. by rewrite Z.eqb_refl. Qed.

(** A thread takes a new number. *)
Lemma inv_fetch k s i pc needs st' n :
  inv k s -> k < i64_max -> threads s !! i = Some pc ->
  current st' = current (st s) -> next st' = as_i64 (next (st s) + 1) ->
  decision st' = decision (st s) ->
  inv (k + 1) (mkSys st' n (<[i := Claim needs (next (st s) + 1)]> (threads s)) (hist s)).
Proof.
  intros [Hnext Hslot [Hcl Hnd] Hheld Huniq Hdec Hans] Hk Hi Hc Hn Hd.
  assert (Hn' : next st' = next (st s) + 1).
  { rewrite Hn. unfold_ints. rewrite Z.mod_small; lia. }
  assert (Hold : forall j pc id, threads s !! j = Some pc -> owns pc = Some id -> id <= next (st s)).
  { intros j p id Hj Ho. unfold owns in Ho. destruct (ticket p) as [t|] eqn:Ht.
    - apply (Hheld j p id Hj). congruence.
    - apply (Hheld j p id Hj) in Ho. rewrite Forall_forall in Hcl. apply Hcl in Ho. lia. }
  split; cbn [st threads hist]; rewrite ?Hn', ?Hc; try done; [lia| | | | |].
  - split; [|done]. eapply Forall_impl; [exact Hcl|]. cbn. lia.
  - intros j p id [[-> ->]|Hj]%insert_lookup.
    + cbn. split; [|done]. intros [= <-]. split; [lia|]. intros Hin. rewrite Forall_forall in Hcl.
      apply Hcl in Hin. lia.
    + destruct (Hheld j p id Hj) as [Ht Hw]. split; [|done]. intros Hid%Ht. split; [lia|by apply Hid].
  - intros j l p q id [[<- ->]|Hj]%insert_lookup [[<- ->]|Hl]%insert_lookup Ho Ho'; [done| | |].
    + cbn in Ho. injection Ho as <-. apply (Hold l q) in Ho'; [lia|done].
    + cbn in Ho'. injection Ho' as <-. apply (Hold j p) in Ho; [lia|done].
    + by apply (Huniq j l p q id).
  - intros id b. rewrite Hd. apply Hdec.
  - intros j id b [[_ ?]|Hj]%insert_lookup; [done|by apply (Hans j)].
Qed.

(** A thread claims the slot with the number it holds. *)
Lemma inv_claim k s i needs id st' n :
  inv k s -> threads s !! i = Some (Claim needs id) -> current (st s) = 0 ->
  current st' = id -> next st' = next (st s) -> decision st' = decision (st s) ->
  inv k (mkSys st' n (<[i := SetNeeds needs id]> (threads s)) (hist s ++ [Claimed id])).
Proof.
  intros [Hnext Hslot [Hcl Hnd] Hheld Huniq Hdec Hans] Hi Hc Hc' Hn Hd.
  destruct (proj1 (Hheld i _ id Hi) eq_refl) as [Hid Hfresh].
  assert (Hclaims : claims (hist s ++ [Claimed id]) = claims (hist s) ++ [id]) by (by rewrite claims_app).
  assert (Hkeep : forall j p, <[i := SetNeeds needs id]> (threads s) !! j = Some p ->
            exists p0, threads s !! j = Some p0 /\ owns p0 = owns p /\ (ticket p = ticket p0 \/ i = j)).
  { intros j p Hj. destruct (decide (i = j)) as [<-|Hne].
    - rewrite list_lookup_insert_eq in Hj by (by eapply lookup_lt_Some). injection Hj as <-.
      exists (Claim needs id). split_and!; [done|done|by right].
    - rewrite list_lookup_insert_ne in Hj by done. exists p. split_and!; [done|done|by left]. }
  split; cbn [st threads hist]; rewrite ?Hn, ?Hclaims; try done.
  - rewrite holder_app, Hslot, Hc, Hc'. cbn [opt_bind holder].
    by rewrite (proj2 (Z.ltb_lt 0 id)) by lia.
  - split.
    + apply Forall_app. split; [done|]. constructor; [lia|constructor].
    + apply NoDup_app. split_and!; [done| |apply NoDup_singleton].
      intros x Hx ->%list_elem_of_singleton. done.
  - intros j p id' Hj. destruct (decide (i = j)) as [<-|Hne].
    + rewrite list_lookup_insert_eq in Hj by (by eapply lookup_lt_Some). injection Hj as <-.
      cbn. split; [done|]. intros [= <-]. apply elem_of_app. right. apply list_elem_of_here.
    + rewrite list_lookup_insert_ne in Hj by done. destruct (Hheld j p id' Hj) as [Ht Hw].
      split; [|intros ?%Hw; apply elem_of_app; by left].
      intros Htk. destruct (Ht Htk) as [Hr Hnew]. split; [done|]. rewrite elem_of_app.
      intros [?| ->%list_elem_of_singleton]; [done|]. apply Hne.
      apply (Huniq i j _ p id Hi Hj); [done|]. unfold owns. by rewrite Htk.
  - intros j l p q id' Hj Hl Ho Ho'. destruct (Hkeep j p Hj) as (p0 & Hj0 & Hp0 & _).
    destruct (Hkeep l q Hl) as (q0 & Hl0 & Hq0 & _). apply (Huniq j l p0 q0 id'); congruence.
  - intros id' b. rewrite Hd. intros Hs%Hdec. apply elem_of_app. by left.
  - intros j id' b [[_ ?]|Hj]%insert_lookup; [done|]. apply elem_of_app. left. by eapply Hans.
Qed.

Lemma inv_mono k k' s : inv k s -> k <= k' -> inv k' s.
Proof. intros [Hn ? ? ? ? ? ?] Hk. split; try done. lia. Qed.

(** What is left of a release, once its history is accounted for. *)
Lemma inv_release k s st' n i pc :
  inv k s -> current (st s) <> 0 -> current st' = 0 -> next st' = next (st s) ->
  decision st' = decision (st s) -> owns pc = None -> (forall id b, pc <> Answered id (Some b)) ->
  inv k (mkSys st' n (<[i := pc]> (threads s)) (hist s ++ [Released (current (st s))])).
Proof.
  intros [Hnext Hslot [Hcl Hnd] Hheld Huniq Hdec Hans] Hc Hc' Hn Hd Ho Ha.
  assert (Hclaims : claims (hist s ++ [Released (current (st s))]) = claims (hist s)).
  { rewrite claims_app. cbn. by rewrite app_nil_r. }
  assert (Htk : ticket pc = None /\ won pc = None).
  { unfold owns in Ho. by destruct (ticket pc). }
  split; cbn [st threads hist]; rewrite ?Hn, ?Hclaims; try done.
  - rewrite holder_app, Hslot, Hc'. cbn [opt_bind holder].
    rewrite Z.eqb_refl. by rewrite (proj2 (Z.eqb_neq _ 0)).
  - intros j p id [[-> ->]|Hj]%insert_lookup; [|by apply (Hheld j)].
    destruct Htk as [-> ->]. done.
  - intros j l p q id [[<- ->]|Hj]%insert_lookup [[<- ->]|Hl]%insert_lookup Hp Hq; try congruence.
    by apply (Huniq j l p q id).
  - intros id b. rewrite Hd. intros Hs%Hdec. apply elem_of_app. by left.
  - intros j id b [[_ Hp]|Hj]%insert_lookup; [by edestruct Ha|]. apply elem_of_app. left. by eapply Hans.
Qed.

Lemma inv_spawn k s pc :
  inv k s -> owns pc = None -> ticket pc = None -> (forall id b, pc <> Answered id (Some b)) ->
  inv k (spawn pc s).
Proof.
  intros Hs Ho Ht Ha. apply (inv_quiet k s); try done; [by destruct Hs|].
  intros i p Hi. apply lookup_app_Some in Hi as [Hi|[_ Hi]]; [by left|].
  apply list_lookup_singleton_Some in Hi as [_ <-]. right. split; [by split; [|left]|].
  intros id b ->. by edestruct Ha.
Qed.

Lemma table_inv_step k l s s' : inv k s -> 0 <= k < i64_max -> step l s = Some s' -> inv (k + 1) s'.
Proof.
  intros Hs Hk.
  destruct l as [needs|id|id| |i|i|o|d]; cbn [step].
  1-4: intros [= <-]; eapply inv_mono; [by apply inv_spawn|lia].
  - destruct (threads s !! i) as [pc|] eqn:Hi; [|done]. cbn [opt_bind].
    destruct (advance (now s) pc (st s)) as [[pc' st']|] eqn:Ha; [|done]. cbn [opt_bind].
    intros [= <-]. apply advance_effect in Ha.
    destruct Ha as [Hc Hn Ho Ht Hd Hna|needs Hc Hn Hd ->|needs id Hc Hc' Hn Hd -> ->
                   |Hc Hc' Hn Hd Ho Hna|id b Hc Hn Hd Hd' ->].
    + rewrite Hc, slot_event_same, app_nil_r. eapply inv_mono; [|instantiate (1 := k); lia].
      apply (inv_quiet k s); try done.
      * intros id b Hs'. destruct Hd as [Hd|Hd]; rewrite Hd in Hs'; [|done]. by apply Hs.
      * intros j p [[-> ->]|Hj]%insert_lookup; [|by left]. right. split; [|intros id b ->; by edestruct Hna].
        split; [done|]. destruct Ho as [|Ho]; [by left|]. right. by exists pc.
    + rewrite Hc, slot_event_same, app_nil_r. by eapply inv_fetch; [| lia|..].
    + assert (Hev : slot_event (current (st s)) (current st') = [Claimed id]).
      { destruct (proj1 (inv_held _ _ Hs i _ id Hi) eq_refl) as [Hid _]. rewrite Hc, Hc'.
        unfold slot_event. by rewrite !(proj2 (Z.eqb_neq _ _)) by lia. }
      rewrite Hev. eapply inv_mono; [by eapply inv_claim|lia].
    + assert (Hev : slot_event (current (st s)) (current st') = [Released (current (st s))]).
      { rewrite Hc'. unfold slot_event. by rewrite (proj2 (Z.eqb_neq _ _)). }
      rewrite Hev. eapply inv_mono; [by eapply inv_release|lia].
    + rewrite Hc, slot_event_same, app_nil_r. eapply inv_mono; [|instantiate (1 := k); lia].
      apply (inv_quiet k s); try done; [by rewrite Hd'|].
      intros j p [[-> ->]|Hj]%insert_lookup; [|by left]. right. split; [by split; [|left]|].
      intros id' b' [= -> ->]. by apply Hs.
  - destruct (threads s !! i) as [pc|] eqn:Hi; [|done]. cbn [opt_bind].
    destruct (expire pc) as [pc'|] eqn:He; [|done]. cbn [opt_bind]. intros [= <-].
    eapply inv_mono; [|instantiate (1 := k); lia]. apply (inv_quiet k s); try done; [by destruct Hs|].
    intros j p [[-> ->]|Hj]%insert_lookup; [|by left]. right.
    by destruct pc; try done; injection He as <-; (split; [by split; [|left]|]).
  - intros [= <-]. destruct (apply_effect (now s) o (st s)) as (Hc & Hn & Hd).
    eapply inv_mono; [|instantiate (1 := k); lia].
    apply (inv_quiet k s); try done.
    + rewrite claims_app. destruct o; cbn; by rewrite app_nil_r.
    + rewrite holder_app. destruct (holder (hist s) 0); [|done]. by destruct o.
    + intros e He. apply elem_of_app. by left.
    + intros id b Hs'. rewrite elem_of_app. destruct Hd as [Hd|(id' & b' & -> & Hd)]; rewrite Hd in Hs'.
      * left. by apply Hs.
      * injection Hs' as -> ->. right. apply list_elem_of_here.
    + intros j p Hj. by left.
  - destruct (0 <=? d); [|done]. intros [= <-]. eapply inv_mono; [|instantiate (1 := k); lia].
    apply (inv_quiet k s); try done; [by destruct Hs|]. intros j p Hj. by left.
Qed.

Lemma table_inv_run ls k s s' :
  inv k s -> 0 <= k -> k + len ls <= i64_max -> run ls s = Some s' -> inv (k + len ls) s'.
Proof.
  revert k s. induction ls as [|l ls IH]; intros k s Hs Hk Hl; cbn [run].
  - intros [= <-]. by rewrite len_nil, Z.add_0_r.
  - rewrite len_cons in *. pose proof (len_nonneg ls). destruct (step l s) as [s1|] eqn:Hst; [|done].
    cbn [opt_bind]. intros Hr. replace (k + (len ls + 1)) with (k + 1 + len ls) by lia.
    apply (IH _ s1); [|lia..|done]. eapply table_inv_step; [done|lia|done].
Qed.

End Invariant.

(** What a wait returns is what a pass of it has found. *)
Lemma await_some {S A} (pass : S -> Pass (option A) * S) ts s a :
  (await pass None ts s).1 = Some a -> exists s0, (pass s0).1 = Stop (Some a).
Proof.
  revert s. induction ts as [|o ts IH]; intros s; cbn [await]; destruct (pass s) as [[r|] s'] eqn:Hp; cbn; try done.
  - intros ->. exists s. by rewrite Hp.
  - intros ->. exists s. by rewrite Hp.
  - apply IH.
Qed.

(** *** One thread alone *)

Section Alone.
Context {Sock File Group : Type}.
Implicit Types s : @St Sock File Group.

Lemma finish_stages id s :
  finish id s = finish_step FClock id (finish_step FAbort id (finish_step FWifi id
    (finish_step FUpgrade id (finish_step FAirdrop id (finish_step FCurrent id s))))).
Proof. done. Qed.

Lemma finish_alone now id s :
  Threads.alone 6 now (Finishing FCurrent id) s = (Finished, finish id s).
Proof. by rewrite finish_stages. Qed.

Lemma reclaim_alone n now needs cur s :
  Threads.alone (6 + n) now (Reclaim needs FCurrent cur) s
  = Threads.alone n now (Fetch needs) (finish cur s).
Proof. by rewrite finish_stages. Qed.

Lemma finish_fields id s :
  current (finish id s) = (if current s =? id then 0 else current s) /\
  airdrop_pending (finish id s) = (if airdrop_pending s =? id then 0 else airdrop_pending s) /\
  next (finish id s) = next s /\ decision (finish id s) = decision s /\
  wifi_direct_active (finish id s) = false /\ last_activity (finish id s) = None /\
  abort (finish id s) = (if mine id (abort s) then None else abort s) /\
  upgrade_socket (finish id s) = (if mine id (upgrade_socket s) then None else upgrade_socket s).
Proof.
  unfold finish, arm_abort, clear_upgrade, compare_exchange.
  destruct s as [d c cn ab nx pn po us gr gw na wd ap la].
  cbn [current airdrop_pending abort upgrade_socket set_current set_airdrop].
  destruct (c =? id); destruct (ap =? id); cbn; destruct (mine id us); cbn; destruct (mine id ab); cbn; done.
Qed.

(** From a free slot the claim succeeds. *)
Definition begun (now : Z) (needs : bool) (s : @St Sock File Group) : St :=
  let s' := set_needs_awdl needs (set_current (next s + 1) (set_next (as_i64 (next s + 1)) s)) in
  touch now (if needs then set_airdrop (next s + 1) s' else s').

Lemma claim_free now (needs : bool) s :
  current s = 0 ->
  (let (id, s) := fetch_id s in
   let (won, s) := claim id s in
   if negb won then (None, s)
   else (Some id, touch now (if needs then set_airdrop id (set_needs_awdl needs s) else set_needs_awdl needs s)))
  = (Some (next s + 1), begun now needs s) /\
  Threads.alone 5 now (Fetch needs) s = (Began (Some (next s + 1)), begun now needs s).
Proof.
  intros Hc. destruct s as [d c cn ab nx pn po us gr gw na wd ap la]. cbn in Hc. subst c.
  destruct needs; split; reflexivity.
Qed.

Lemma try_begin_cases now (needs : bool) s :
  try_begin now needs s =
  if negb (current s =? 0) && negb (is_stale now s) then (None, s)
  else
    let s := if negb (current s =? 0) then finish (current s) s else s in
    (Some (next s + 1), begun now needs s).
Proof.
  unfold try_begin. destruct (negb (current s =? 0)) eqn:Hc; cbn [andb].
  - destruct (negb (is_stale now s)); [done|]. apply (claim_free now needs).
    destruct (finish_fields (current s) s) as (Hf & _). by rewrite Hf, Z.eqb_refl.
  - apply (claim_free now needs). destruct (Z.eqb_spec (current s) 0); done.
Qed.

End Alone.

(** ** Properties *)


(** C9: an offer is accepted or refused only by its own answer.  Whatever the threads do and
    however the waits overlap, a call of [await_answer] for an offer that returns an answer
    returns one that somebody gave for that offer; with none it returns nothing. *)
Theorem offers_get_their_own_answers {Sock File Group} ls t (s : @Threads.Sys Sock File Group) i id b :
  len ls <= i64_max -> Threads.run ls (Threads.start t) = Some s ->
  Threads.threads s !! i = Some (Answered id (Some b)) -> Said id b ∈ Threads.hist s.
Proof.
  intros Hl Hr Hi. apply (table_inv_run ls 0) in Hr as [_ _ _ _ _ _ Ha]; [|by apply table_inv_start|lia..].
  by eapply Ha.
Qed.

(** What the two calls are for, field by field. *)
Definition finished_as {Sock File Group} (id : Z) (s : @St Sock File Group) : St := {|
  decision := decision s;
  current := if decide (current s = id) then 0 else current s;
  cancelled := cancelled s;
  abort := match abort s with Some (i, c) => if decide (i = id) then None else Some (i, c) | None => None end;
  next := next s;
  pin := pin s;
  pin_ok := pin_ok s;
  upgrade_socket := match upgrade_socket s with Some (i, f) => if decide (i = id) then None else Some (i, f) | None => None end;
  group := group s;
  group_wanted := group_wanted s;
  needs_awdl := needs_awdl s;
  wifi_direct_active := false;
  airdrop_pending := if decide (airdrop_pending s = id) then 0 else airdrop_pending s;
  last_activity := None
|}.
Definition begun_as {Sock File Group} (now : Z) (needs : bool) (s : @St Sock File Group) : St := {|
  decision := decision s;
  current := next s + 1;
  cancelled := cancelled s;
  abort := abort s;
  next := as_i64 (next s + 1);
  pin := pin s;
  pin_ok := pin_ok s;
  upgrade_socket := upgrade_socket s;
  group := group s;
  group_wanted := group_wanted s;
  needs_awdl := needs;
  wifi_direct_active := wifi_direct_active s;
  airdrop_pending := if needs then next s + 1 else airdrop_pending s;
  last_activity := Some now
|}.
(** Refused, the slot being held by a transfer that has not been silent for three minutes; begun,
    the slot being free; or begun after the silent holder was finished. *)
Definition outcome_of_begin {Sock File Group} (now : Z) (needs : bool) (s : @St Sock File Group) : option Z * St :=
  if decide (current s = 0) then (Some (next s + 1), begun_as now needs s)
  else
    match last_activity s with
    | Some t =>
        if decide (now - t <= 3 * 60 * 1000) then (None, s)
        else (Some (next s + 1), begun_as now needs (finished_as (current s) s))
    | None => (None, s)
    end.

Lemma exchanged (x id : Z) : (compare_exchange x id 0).2 = if decide (x = id) then 0 else x.
Proof. unfold compare_exchange. destruct (Z.eqb_spec x id), (decide (x = id)); done. Qed.

Lemma mine_decide {A B} id (o : option (Z * A)) (x y : B) :
  (if mine id o then x else y) = match o with Some (i, _) => if decide (i = id) then x else y | None => y end.
Proof. destruct o as [[i a]|]; [|done]. cbn. destruct (Z.eqb_spec i id), (decide (i = id)); done. Qed.

Lemma clear_upgrade_as {Sock File Group} id (s : @St Sock File Group) :
  clear_upgrade id s
  = set_upgrade (match upgrade_socket s with Some (i, f) => if decide (i = id) then None else Some (i, f) | None => None end) s.
Proof.
  unfold clear_upgrade. rewrite mine_decide. destruct s as [d c cn ab nx pn po us gr gw na wd ap la]. cbn [upgrade_socket].
  destruct us as [[i f]|]; [|done]. by destruct (decide (i = id)).
Qed.

Lemma disarm_as {Sock File Group} id (s : @St Sock File Group) :
  arm_abort id None s
  = set_abort (match abort s with Some (i, c) => if decide (i = id) then None else Some (i, c) | None => None end) s.
Proof.
  unfold arm_abort. rewrite mine_decide. destruct s as [d c cn ab nx pn po us gr gw na wd ap la]. cbn [abort].
  destruct ab as [[i f]|]; [|done]. by destruct (decide (i = id)).
Qed.

Lemma finish_as_specified {Sock File Group} id (s : @St Sock File Group) : finish id s = finished_as id s.
Proof. unfold finish. by rewrite clear_upgrade_as, disarm_as, !exchanged. Qed.

Lemma try_begin_as_specified {Sock File Group} now needs (s : @St Sock File Group) :
  try_begin now needs s = outcome_of_begin now needs s.
Proof.
  assert (Hb : forall s : @St Sock File Group, begun now needs s = begun_as now needs s) by (intros; unfold begun; by destruct needs).
  rewrite try_begin_cases. unfold outcome_of_begin, is_stale. rewrite !Hb.
  destruct (decide (current s = 0)) as [->|Hc]; [done|]. rewrite (proj2 (Z.eqb_neq _ _) Hc). cbn [negb andb].
  destruct (last_activity s) as [t|]; [|done]. unfold STALE_TRANSFER.
  destruct (Z.ltb_spec (180 * 1000) (now - t)), (decide (now - t <= 3 * 60 * 1000)); try lia; cbn [negb]; [|done].
  by rewrite finish_as_specified.
Qed.


(** What a request gets.  [try_begin] refuses, changing nothing, exactly when the slot is
    held and its holder has been active within three minutes; otherwise it frees the slot if it
    was held, and claims it with a new number, the clock running from now and the AirDrop claim
    on the radio set if and only if it is an AirDrop transfer that begins. *)
Theorem try_begin_outcome {Sock File Group} now needs (s : @St Sock File Group) :
  let busy := negb (current s =? 0) && negb (is_stale now s) in
  let (r, s') := try_begin now needs s in
  (busy = true -> r = None /\ s' = s) /\
  (busy = false ->
   r = Some (next s + 1) /\ current s' = next s + 1 /\ last_activity s' = Some now /\
   needs_awdl s' = needs /\
   airdrop_pending s' = (if needs then next s + 1
     else if negb (current s =? 0) && (airdrop_pending s =? current s) then 0
     else airdrop_pending s) /\
   wifi_direct_active s' = (wifi_direct_active s && (current s =? 0))).
Proof.
  cbn zeta. rewrite try_begin_cases. destruct (negb (current s =? 0) && negb (is_stale now s)) eqn:Hb.
  - by split.
  - cbn zeta. split; [done|]. intros _.
    destruct (finish_fields (current s) s) as (_ & Ha & Hn & _ & Hw & _).
    unfold begun. destruct (current s =? 0), needs; cbn [negb andb];
      cbn [current last_activity needs_awdl airdrop_pending wifi_direct_active touch set_activity
           set_airdrop set_needs_awdl set_current set_next];
      rewrite ?Hn, ?Ha, ?Hw, ?andb_true_r, ?andb_false_r; done.
Qed.

(** ** Runs *)

Module ToyTransfers.
Import Threads.

Definition sys : Type := @Sys unit unit unit.
Definition run' : list Label -> sys -> option sys := run.

(** Two requests load a free slot at the same moment; the second wins the claim. *)
Definition race : list (@Label unit unit unit) :=
  [Begin true; Begin false; Step 0; Step 1; Step 0; Step 1; Step 1; Step 0; Step 1; Step 1].

Definition raced : sys := default (start 0) (run race (start 0)).


(** An answer to offer 1 comes too late, and does not stand for offer 2. *)
Definition asked : list (@Label unit unit unit) :=
  [Await 1; Step 0; Expire 0; Do (Answer 1 true); Await 2; Step 1; Do (Answer 2 false); Step 1].

Definition told : sys := default (start 0) (run asked (start 0)).

Lemma offers_get_their_own_answers_witness :
  threads told = [Answered 1 None; Answered 2 (Some false)] /\ Said 2 false ∈ hist told.
Proof.
  split; [vm_compute; reflexivity|].
  apply (offers_get_their_own_answers asked 0 told 1 2 false);
    [vm_compute; discriminate|vm_compute; reflexivity|vm_compute; reflexivity].
Defined.

(** Transfer 1 is finished; transfer 2 begins and takes the radio; then transfer 1 is finished
    again, by the guard of its thread.  Transfer 2 keeps the slot and loses the radio and its
    clock: from then on it is never stale, and no request gets the slot, whenever it comes. *)
Definition twice : list (@Label unit unit unit) :=
  [Begin false] ++ replicate 5 (Step 0) ++ [Finish 1] ++ replicate 6 (Step 1)
  ++ [Begin false] ++ replicate 5 (Step 2) ++ [Arm] ++ replicate 4 (Step 3)
  ++ [Finish 1] ++ replicate 6 (Step 4).

Definition after : sys := default (start 0) (run twice (start 0)).

Example a_second_finish_is_not_a_no_op :
  threads after = [Began (Some 1); Finished; Began (Some 2); Armed true; Finished] /\
  current (st after) = 2 /\ wifi_direct_active (st after) = false /\
  forall later needs, try_begin later needs (st after) = (None, st after).
Proof.
  assert (Hc : current (st after) = 2 /\ last_activity (st after) = None)
    by (split; vm_compute; reflexivity).
  split; [vm_compute; reflexivity|]. split; [apply Hc|]. split; [vm_compute; reflexivity|].
  intros later needs. rewrite try_begin_cases. unfold is_stale. by rewrite (proj1 Hc), (proj2 Hc).
Qed.

(** A stale tap on cancel takes back the cancel of the transfer that runs. *)
Example a_cancel_forgotten (s : @St unit unit unit) :
  is_cancelled 2 (cancel 2 s) = true /\ is_cancelled 2 (cancel 1 (cancel 2 s)) = false.
Proof. by split. Qed.

End ToyTransfers.
