(* ===== verification/Plist.v ===== *)
(** * Binary property lists ([sharingd/src/plist.rs])

    The writer and the reader of the bodies of AirDrop requests.  The reader's input is a
    stranger's: an object may be referred to any number of times, also from inside itself, so
    that what is materialised is bounded by budgets and not by the input's structure. *)

From S2P Require Import Prelude Utf8 Utf16.

(** ** Writing *)

Inductive Value : Type :=
| VStr (s : list byte)
| VData (d : list byte)
| VBool (b : bool)
| VArray (items : list Value)
| VDict (entries : list (list byte * Value)).

(** An object with its children resolved to indices. *)
Inductive Node : Type :=
| NBool (b : bool)
| NStr (s : list byte)
| NData (d : list byte)
| NArray (children : list Z)
| NDict (keys values : list Z).

(** [l.iter().map(|x| flatten(x, out)).collect()]: the nodes are threaded through. *)
Definition traverse {A} (f : A -> list Node -> Z * list Node) :=
  fix go (l : list A) (out : list Node) : list Z * list Node :=
    match l with
    | [] => ([], out)
    | x :: l =>
        let (k, out) := f x out in
        let (ks, out) := go l out in
        (k :: ks, out)
    end.

Fixpoint flatten (v : Value) (out : list Node) : Z * list Node :=
  let index := len out in
  match v with
  | VBool b => (index, out ++ [NBool b])
  | VStr s => (index, out ++ [NStr s])
  | VData d => (index, out ++ [NData d])
  | VArray items =>
      let (kids, out) := traverse flatten items (out ++ [NArray []]) in
      (index, <[Z.to_nat index := NArray kids]> out)
  | VDict entries =>
      let (keys, out) :=
        traverse (fun kv out => (len out, out ++ [NStr (fst kv)])) entries
          (out ++ [NDict [] []]) in
      let (values, out) :=
        traverse (fun kv out => match kv with (_, v) => flatten v out end) entries out in
      (index, <[Z.to_nat index := NDict keys values]> out)
  end.

(** [b[8 - width as usize..]] of the eight big-endian bytes. *)
Definition write_uint (v width : Z) : list byte := drop (Z.to_nat (8 - width)) (to_be_bytes 8 v).

Definition byte_width (max : Z) : Z :=
  if max <=? 255 then 1 else if max <=? 65535 then 2 else if max <=? 2 ^ 32 - 1 then 4 else 8.

Definition write_int_object (v : Z) : list byte :=
  let (marker, width) :=
    if v <=? 255 then (0x10, 1) else if v <=? 65535 then (0x11, 2) else (0x12, 4) in
  to_u8 marker :: write_uint v width.

Definition write_marker (kind n : Z) : list byte :=
  if n <? 0x0F then [to_u8 (Z.lor kind n)]
  else to_u8 (Z.lor kind 0x0F) :: write_int_object n.

Definition is_ascii (s : list byte) : bool := forallb (fun b => u8 b <? 128) s.

Definition write_string (s : list byte) : list byte :=
  if is_ascii s then write_marker 0x50 (len s) ++ s
  else
    let units := encode_utf16 s in
    write_marker 0x60 (len units) ++ mjoin (to_be_bytes 2 <$> units).

(** The arms of [match node]. *)
Definition write_node (ref_size : Z) (n : Node) : list byte :=
  match n with
  | NBool b => [to_u8 (if b then 0x09 else 0x08)]
  | NStr s => write_string s
  | NData d => write_marker 0x40 (len d) ++ d
  | NArray children =>
      write_marker 0xA0 (len children) ++ mjoin ((fun c => write_uint c ref_size) <$> children)
  | NDict keys values =>
      write_marker 0xD0 (len keys) ++ mjoin ((fun k => write_uint k ref_size) <$> keys)
      ++ mjoin ((fun v => write_uint v ref_size) <$> values)
  end.

(** [for node in &objects]. *)
Fixpoint write_nodes (ref_size : Z) (objects : list Node) (out : list byte)
    : list Z * list byte :=
  match objects with
  | [] => ([], out)
  | node :: objects =>
      let (offsets, out') := write_nodes ref_size objects (out ++ write_node ref_size node) in
      (len out :: offsets, out')
  end.

Definition encode (root : Value) : list byte :=
  let objects := snd (flatten root []) in
  let ref_size := byte_width (len objects) in
  let (offsets, out) := write_nodes ref_size objects (str "bplist00") in
  let table_start := len out in
  let offset_size := byte_width table_start in
  out ++ mjoin ((fun off => write_uint off offset_size) <$> offsets)
  ++ replicate 5 (to_u8 0) ++ [to_u8 0; to_u8 offset_size; to_u8 ref_size]
  ++ to_be_bytes 8 (len objects) ++ to_be_bytes 8 0 ++ to_be_bytes 8 table_start.

Definition dict (pairs : list (list byte * Value)) : list byte := encode (VDict pairs).

(** ** Reading *)

Inductive Val : Type :=
| Str (s : list byte)
| Data (d : list byte)
| Int (z : Z)
| Bool (b : bool)
| Array (items : list Val)
| Dict (entries : list (list byte * Val))
| Other.

Definition val_get (key : list byte) (v : Val) : option Val :=
  match v with
  | Dict entries => snd <$> find (fun kv => bool_decide (fst kv = key)) entries
  | _ => None
  end.

Definition as_str (v : Val) : option (list byte) :=
  match v with Str s => Some s | _ => None end.

Definition MAX_DEPTH : Z := 16.
Definition MAX_ELEMENTS : Z := 4096.
Definition MAX_TOTAL_OBJECTS : Z := 100000.
Definition BYTE_AMPLIFICATION : Z := 8.
Definition MIN_BYTE_BUDGET : Z := 256 * 1024.

Record Parser : Type := mkParser {
  buf : list byte;
  table_start : Z;
  offset_size : Z;
  ref_size : Z;
  num_objects : Z
}.

(** The two cells: objects and leaf bytes that may still be materialised. *)
Record Budget : Type := mkBudget { budget : Z; bytes : Z }.

(** [Refused] is the code's [None]; [Overflowed] is an addition of [usize] that overflows. *)
Inductive Stop : Type := Refused | Overflowed.

Definition P (A : Type) : Type := Budget -> result A Stop * Budget.

Definition pret {A} (a : A) : P A := fun b => (Ok a, b).
Definition pfail {A} (e : Stop) : P A := fun b => (Err e, b).
Definition pbind {A B} (m : P A) (k : A -> P B) : P B :=
  fun b => match m b with (Ok a, b) => k a b | (Err e, b) => (Err e, b) end.
(** [o?]. *)
Definition popt {A} (o : option A) : P A :=
  match o with Some a => pret a | None => pfail Refused end.
(** [a + b] on [usize]. *)
Definition padd (a b : Z) : P Z := if a + b <=? usize_max then pret (a + b) else pfail Overflowed.

Notation "'let*' x ':=' m 'in' k" := (pbind m (fun x => k))
  (at level 10, x pattern, m at level 100, k at level 200,
   format "'[v' 'let*'  x  ':='  m  'in' '/' k ']'") : rust_scope.
#[local] Open Scope rust_scope.

(** [acc << 8 | x]: the high bits of more than eight bytes are lost. *)
Definition be (b : list byte) : Z :=
  fold_left (fun acc x => as_u64 (acc * 256) + u8 x) b 0.

Definition checked_mul (a b : Z) : option Z := if a * b <=? usize_max then Some (a * b) else None.

Definition spend_bytes (n : Z) : P unit :=
  fun b => if bytes b <? n then (Err Refused, b) else (Ok tt, mkBudget (budget b) (bytes b - n)).

Definition spend_object : P unit :=
  fun b => if budget b =? 0 then (Err Refused, b) else (Ok tt, mkBudget (budget b - 1) (bytes b)).

Section Parser.
Context (p : Parser).

(** The sums here are within the buffer, or a little past its end. *)
Definition offset_of (index : Z) : option Z :=
  if num_objects p <=? index then None
  else
    let at_ := table_start p + index * offset_size p in
    match slice (buf p) at_ (at_ + offset_size p) with
    | None => None
    | Some b => let raw := be b in if raw <? len (buf p) then Some raw else None
    end.

Definition sized (at_ low : Z) : option (Z * Z) :=
  if negb (low =? 0x0F) then Some (low, at_ + 1)
  else
    match get (buf p) (at_ + 1) with
    | None => None
    | Some m =>
        if negb (Z.shiftr (u8 m) 4 =? 1) then None
        else
          let width := Z.shiftl 1 (Z.land (u8 m) 0x0F) in
          match slice (buf p) (at_ + 2) (at_ + 2 + width) with
          | None => None
          | Some b => Some (be b, at_ + 2 + width)
          end
    end.

(** [self.buf.get(a..a + n)?]. *)
Definition body_at (a n : Z) : P (list byte) :=
  let* e := padd a n in popt (slice (buf p) a e).

Definition reference (body i : Z) : P Z :=
  let* m := popt (checked_mul i (ref_size p)) in
  let* a := popt (checked_add body m) in
  let* b := body_at a (ref_size p) in
  pret (be b).

(** [for i in 0..count { ... }]. *)
Fixpoint collect {A} (n : nat) (i : Z) (f : Z -> P (option A)) : P (list A) :=
  match n with
  | O => pret []
  | S n =>
      let* x := f i in
      let* xs := collect n (i + 1) f in
      pret (match x with Some x => x :: xs | None => xs end)
  end.

(** [chunks_exact(2)] and [u16::from_be_bytes]. *)
Fixpoint units (b : list byte) : list Z :=
  match b with
  | x :: y :: b => from_be_bytes [x; y] :: units b
  | _ => []
  end.

(** [match kind]: the object at [at_], whose first byte is [marker]; [item] reads the objects
    it refers to. *)
Definition decode (item : Z -> P Val) (at_ marker : Z) : P Val :=
  let low := Z.land marker 0x0F in
  match Z.shiftr marker 4 with
  | 0x0 => pret (if marker =? 0x08 then Bool false
                 else if marker =? 0x09 then Bool true else Other)
  | 0x1 =>
      let* b := popt (slice (buf p) (at_ + 1) (at_ + 1 + Z.shiftl 1 low)) in
      pret (Int (as_i64 (be b)))
  | 0x4 =>
      let* (n, body) := popt (sized at_ low) in
      let* v := body_at body n in
      let* _ := spend_bytes (len v) in
      pret (Data v)
  | 0x5 =>
      let* (n, body) := popt (sized at_ low) in
      let* raw := body_at body n in
      let s := from_utf8_lossy raw in
      let* _ := spend_bytes (len s) in
      pret (Str s)
  | 0x6 =>
      let* (n, body) := popt (sized at_ low) in
      let* n := popt (checked_mul n 2) in
      let* raw := body_at body n in
      let s := from_utf16_lossy (units raw) in
      let* _ := spend_bytes (len s) in
      pret (Str s)
  | 0xA =>
      let* (count, body) := popt (sized at_ low) in
      if MAX_ELEMENTS <? count then pfail Refused
      else
        let* out := collect (Z.to_nat count) 0 (fun i =>
          let* r := reference body i in
          let* v := item r in
          pret (Some v)) in
        pret (Array out)
  | 0xD =>
      let* (count, body) := popt (sized at_ low) in
      if MAX_ELEMENTS <? count then pfail Refused
      else
        let* out := collect (Z.to_nat count) 0 (fun i =>
          let* kr := reference body i in
          let* vr := reference body (count + i) in
          let* key := item kr in
          match key with
          | Str k => let* v := item vr in pret (Some (k, v))
          | _ => pret None
          end) in
        pret (Dict out)
  | _ => pret Other
  end.

(** [depths] is [MAX_DEPTH + 1 - depth]. *)
Fixpoint object (depths : nat) (index : Z) : P Val :=
  match depths with
  | O => pfail Refused
  | S depths =>
      let* _ := spend_object in
      let* at_ := popt (offset_of index) in
      let* marker := popt (get (buf p) at_) in
      decode (object depths) at_ (u8 marker)
  end.

End Parser.

Definition parse (b : list byte) : result Val Stop :=
  if (len b <? 40) || negb (bool_decide (take 8 b = str "bplist00")) then Err Refused
  else
    let trailer := drop (Z.to_nat (len b - 32)) b in
    let offset_size := u8 (nth 6 trailer (to_u8 0)) in
    let ref_size := u8 (nth 7 trailer (to_u8 0)) in
    let num_objects := be (sub_range trailer 8 16) in
    let root := be (sub_range trailer 16 24) in
    let table_start := be (sub_range trailer 24 32) in
    if (offset_size =? 0) || (8 <? offset_size) || (ref_size =? 0) || (8 <? ref_size)
    then Err Refused
    else if (num_objects =? 0) || (MAX_ELEMENTS <? num_objects) || (num_objects <=? root)
    then Err Refused
    else
      match checked_mul num_objects offset_size with
      | None => Err Refused
      | Some table_len =>
          match checked_add table_start table_len with
          | None => Err Refused
          | Some e =>
              if len b <? e then Err Refused
              else
                fst (object (mkParser b table_start offset_size ref_size num_objects)
                       (Z.to_nat (MAX_DEPTH + 1)) root
                       (mkBudget MAX_TOTAL_OBJECTS
                          (Z.max (Z.min (len b * BYTE_AMPLIFICATION) usize_max) MIN_BYTE_BUDGET)))
          end
      end.

(** ** What is materialised *)

(** The objects of a value, keys included, and the bytes of its strings and data. *)
Fixpoint objects_of (v : Val) : Z :=
  match v with
  | Array l => 1 + foldr (fun v n => objects_of v + n) 0 l
  | Dict l => 1 + foldr (fun kv n => match kv with (_, v) => 1 + objects_of v + n end) 0 l
  | _ => 1
  end.

Fixpoint leaf_bytes (v : Val) : Z :=
  match v with
  | Str s => len s
  | Data d => len d
  | Array l => foldr (fun v n => leaf_bytes v + n) 0 l
  | Dict l => foldr (fun kv n => match kv with (k, v) => len k + leaf_bytes v + n end) 0 l
  | _ => 0
  end.

(** Containers within containers. *)
Fixpoint nesting (v : Val) : nat :=
  match v with
  | Array l => S (foldr (fun v n => nesting v `max` n) 0 l)
  | Dict l => S (foldr (fun kv n => match kv with (_, v) => nesting v `max` n end) 0 l)
  | _ => 0
  end%nat.

(** [m] pays [n] objects and [l] bytes for what it returns, which satisfies [Q]. *)
Definition costs {A} (m : P A) (n l : A -> Z) (Q : A -> Prop) : Prop :=
  forall b, 0 <= budget b -> 0 <= bytes b ->
  match m b with
  | (Ok a, b') => Q a /\ 0 <= budget b' /\ 0 <= bytes b' /\
                  budget b' + n a <= budget b /\ bytes b' + l a <= bytes b
  | (Err _, _) => True
  end.

Definition free {A} (m : P A) : Prop := costs m (fun _ => 0) (fun _ => 0) (fun _ => True).

Lemma costs_ret {A} (a : A) n l (Q : A -> Prop) : n a <= 0 -> l a <= 0 -> Q a -> costs (pret a) n l Q.
Proof. intros Hn Hl HQ b Hb Hy. cbn. split_and!; done || lia. Qed.

Lemma costs_fail {A} e n l (Q : A -> Prop) : costs (pfail e) n l Q.
Proof. done. Qed.

Lemma costs_bind {A B} (m : P A) (k : A -> P B) n l Q n' l' Q' :
  costs m n l Q ->
  (forall a, Q a -> costs (k a) (fun x => n' x - n a) (fun x => l' x - l a) Q') ->
  costs (pbind m k) n' l' Q'.
Proof.
  intros Hm Hk b Hb Hy. specialize (Hm b Hb Hy). unfold pbind.
  destruct (m b) as [[a|e] b1]; [|done]. destruct Hm as (HQ & Hb1 & Hy1 & Hn & Hl).
  specialize (Hk a HQ b1 Hb1 Hy1). destruct (k a b1) as [[c|e] b2]; [|done].
  destruct Hk as (? & ? & ? & ? & ?). split_and!; done || lia.
Qed.

Lemma costs_free {A B} (m : P A) (k : A -> P B) n l Q :
  free m -> (forall a, costs (k a) n l Q) -> costs (pbind m k) n l Q.
Proof.
  intros Hm Hk. eapply costs_bind; [exact Hm|]. intros a _ b Hb Hy.
  specialize (Hk a b Hb Hy). destruct (k a b) as [[c|e] b2]; [|done].
  destruct Hk as (? & ? & ? & ? & ?). split_and!; done || lia.
Qed.

Lemma free_opt {A} (o : option A) : free (popt o).
Proof. destruct o; [apply costs_ret|apply costs_fail]; done. Qed.

Lemma free_add a b : free (padd a b).
Proof. unfold padd. case_match; [apply costs_ret|apply costs_fail]; done. Qed.

Lemma free_body_at p a n : free (body_at p a n).
Proof. apply costs_free; [apply free_add|]. intros e. apply free_opt. Qed.

Lemma free_reference p body i : free (reference p body i).
Proof.
  unfold reference. apply costs_free; [apply free_opt|]. intros m.
  apply costs_free; [apply free_opt|]. intros a.
  apply costs_free; [apply free_body_at|]. intros b. by apply costs_ret.
Qed.

Lemma costs_spend_object : costs spend_object (fun _ => 1) (fun _ => 0) (fun _ => True).
Proof. intros b Hb Hy. unfold spend_object. destruct (Z.eqb_spec (budget b) 0); [done|]. cbn. lia. Qed.

Lemma costs_spend_bytes n : 0 <= n -> costs (spend_bytes n) (fun _ => 0) (fun _ => n) (fun _ => True).
Proof. intros Hn b Hb Hy. unfold spend_bytes. destruct (Z.ltb_spec (bytes b) n); [done|]. cbn. lia. Qed.

(** What comes out of a parser with [d] levels to go. *)
Definition shallow (d : nat) (v : Val) : Prop :=
  (nesting v <= d)%nat /\ 1 <= objects_of v /\ 0 <= leaf_bytes v.

(** A leaf pays for its bytes, having paid for its object. *)
Lemma costs_leaf d (v : Val) :
  objects_of v = 1 -> nesting v = 0%nat -> 0 <= leaf_bytes v ->
  costs (pbind (spend_bytes (leaf_bytes v)) (fun _ => pret v)) (fun v => objects_of v - 1)
    (fun v => leaf_bytes v - 0) (shallow (S d)).
Proof.
  intros Ho Hd Hb. eapply costs_bind; [by apply costs_spend_bytes|].
  intros ? _. apply costs_ret; [lia..|]. unfold shallow. lia.
Qed.

Definition opt_cost {A} (n : A -> Z) (o : option A) : Z := match o with Some a => n a | None => 0 end.
Definition sum_of {A} (n : A -> Z) (l : list A) : Z := foldr (fun a z => n a + z) 0 l.

Lemma costs_collect {A} k i (f : Z -> P (option A)) n l Q :
  (forall i, costs (f i) (opt_cost n) (opt_cost l) (fun o => forall a, o = Some a -> Q a)) ->
  costs (collect k i f) (sum_of n) (sum_of l) (Forall Q).
Proof.
  intros Hf. revert i. induction k as [|k IH]; intros i; cbn [collect]; [by apply costs_ret|].
  eapply costs_bind; [apply Hf|]. intros o Ho.
  eapply costs_bind; [apply IH|]. intros xs Hxs.
  destruct o as [a|]; (apply costs_ret; [unfold sum_of; cbn; lia..|]); [|done].
  constructor; [by apply Ho|done].
Qed.

Lemma foldr_max {A} (f : A -> nat) l n :
  Forall (fun a => (f a <= n)%nat) l -> (foldr (fun a m => f a `max` m) 0 l <= n)%nat.
Proof. induction 1; cbn; lia. Qed.

(** One item of an array, and one entry of a dictionary. *)
Lemma costs_item p item body depths i :
  (forall r, costs (item r) objects_of leaf_bytes (shallow depths)) ->
  costs (let* r := reference p body i in let* v := item r in pret (Some v))
    (opt_cost objects_of) (opt_cost leaf_bytes) (fun o => forall v, o = Some v -> shallow depths v).
Proof.
  intros IH. apply costs_free; [apply free_reference|]. intros r.
  eapply costs_bind; [apply IH|]. intros v Hv. apply costs_ret; cbn; [lia..|]. by intros ? [= <-].
Qed.

Definition entry_objects (kv : list byte * Val) : Z := 1 + objects_of kv.2.
Definition entry_bytes (kv : list byte * Val) : Z := len kv.1 + leaf_bytes kv.2.

Lemma costs_entry p item body count depths i :
  (forall r, costs (item r) objects_of leaf_bytes (shallow depths)) ->
  costs (let* kr := reference p body i in
         let* vr := reference p body (count + i) in
         let* key := item kr in
         match key with
         | Str k => let* v := item vr in pret (Some (k, v))
         | _ => pret None
         end)
    (opt_cost entry_objects) (opt_cost entry_bytes)
    (fun o => forall kv, o = Some kv -> shallow depths kv.2).
Proof.
  intros IH. apply costs_free; [apply free_reference|]. intros kr.
  apply costs_free; [apply free_reference|]. intros vr.
  eapply costs_bind; [apply IH|]. intros key (_ & Hn & Hl).
  destruct key; try (apply costs_ret; cbn in *; [lia..|done]).
  eapply costs_bind; [apply IH|]. intros v Hv.
  apply costs_ret; cbn; unfold entry_objects, entry_bytes; cbn; [lia..|]. by intros ? [= <-].
Qed.

Lemma sum_nonneg {A} (n : A -> Z) l : Forall (fun a => 0 <= n a) l -> 0 <= sum_of n l.
Proof. induction 1; cbn; [done|]. unfold sum_of in *. lia. Qed.

Lemma shallow_array d l : Forall (shallow d) l -> shallow (S d) (Array l).
Proof.
  intros Hl. unfold shallow. split_and!.
  - apply le_n_S, (foldr_max nesting). eapply Forall_impl; [exact Hl|]. by intros v [? _].
  - change (objects_of (Array l)) with (1 + sum_of objects_of l).
    enough (0 <= sum_of objects_of l) by lia. apply sum_nonneg.
    eapply Forall_impl; [exact Hl|]. intros v (_ & ? & _). lia.
  - apply (sum_nonneg leaf_bytes). eapply Forall_impl; [exact Hl|]. by intros v (_ & _ & ?).
Qed.

Lemma dict_objects l : objects_of (Dict l) = 1 + sum_of entry_objects l.
Proof. cbn [objects_of]. f_equal. induction l as [|[k v] l IH]; [done|]. cbn in *. by rewrite IH. Qed.

Lemma dict_bytes l : leaf_bytes (Dict l) = sum_of entry_bytes l.
Proof. cbn [leaf_bytes]. induction l as [|[k v] l IH]; [done|]. cbn in *. by rewrite IH. Qed.

Lemma dict_nesting l : nesting (Dict l) = S (foldr (fun kv n => nesting kv.2 `max` n)%nat 0%nat l).
Proof. cbn [nesting]. f_equal. induction l as [|[k v] l IH]; [done|]. cbn in *. by rewrite IH. Qed.

Lemma shallow_dict d l : Forall (fun kv => shallow d kv.2) l -> shallow (S d) (Dict l).
Proof.
  intros Hl. unfold shallow. rewrite dict_nesting, dict_objects, dict_bytes. split_and!.
  - apply le_n_S, (foldr_max (fun kv => nesting kv.2)). eapply Forall_impl; [exact Hl|].
    by intros kv [? _].
  - enough (0 <= sum_of entry_objects l) by lia. apply sum_nonneg.
    eapply Forall_impl; [exact Hl|]. unfold entry_objects. intros kv (_ & ? & _). lia.
  - apply sum_nonneg. eapply Forall_impl; [exact Hl|]. unfold entry_bytes.
    intros kv (_ & _ & ?). pose proof (len_nonneg kv.1). lia.
Qed.

(** The budgets bound the tree, whatever the references are. *)
Lemma object_costs p depths index :
  costs (object p depths index) objects_of leaf_bytes (shallow depths).
Proof.
  revert index. induction depths as [|d IH]; intros index; cbn [object]; [apply costs_fail|].
  eapply costs_bind; [apply costs_spend_object|]. intros ? _.
  apply costs_free; [apply free_opt|]. intros at_.
  apply costs_free; [apply free_opt|]. intros marker. unfold decode. cbv zeta.
  assert (Hflat : forall v, objects_of v = 1 -> leaf_bytes v = 0 -> nesting v = 0%nat ->
    costs (pret v) (fun x => objects_of x - 1) (fun x => leaf_bytes x - 0) (shallow (S d))).
  { intros v Ho Hb Hn. apply costs_ret; [lia..|]. unfold shallow. lia. }
  destruct (Z.shiftr (u8 marker) 4) as [|k|k]; [|..];
    [by apply Hflat; repeat case_match| |by apply Hflat].
  repeat (match goal with |- costs (match ?k with _ => _ end) _ _ _ => is_var k; destruct k end);
    try (by apply Hflat).
  all: apply costs_free; [apply free_opt|].
  - intros [count body]. destruct (_ <? _); [apply costs_fail|].
    eapply costs_bind; [eapply costs_collect; intros i; by apply costs_entry|].
    intros l Hl. apply costs_ret; [rewrite dict_objects|rewrite dict_bytes|by apply shallow_dict]; lia.
  - intros [n body]. apply costs_free; [apply free_body_at|]. intros raw. cbv zeta.
    apply (costs_leaf d (Str _)); [done..|apply len_nonneg].
  - intros [count body]. destruct (_ <? _); [apply costs_fail|].
    eapply costs_bind; [eapply costs_collect; intros i; by apply costs_item|].
    intros l Hl. apply costs_ret; [| |by apply shallow_array].
    + change (objects_of (Array l)) with (1 + sum_of objects_of l). lia.
    + change (leaf_bytes (Array l)) with (sum_of leaf_bytes l). lia.
  - intros [n body]. apply costs_free; [apply free_opt|]. intros m.
    apply costs_free; [apply free_body_at|]. intros raw. cbv zeta.
    apply (costs_leaf d (Str _)); [done..|apply len_nonneg].
  - intros [n body]. apply costs_free; [apply free_body_at|]. intros raw. cbv zeta.
    apply (costs_leaf d (Data _)); [done..|apply len_nonneg].
  - intros b. by apply Hflat.
Qed.


(** ** Properties *)

(** A property list cannot be a memory bomb.  Whatever a stranger sends, and however often
    its objects refer to each other or to themselves, a document that is accepted has at most
    100000 objects, strings and data of at most eight bytes for each byte of the input (or
    256 KiB), and no more than seventeen containers within one another. *)
Theorem plist_bounded b v :
  parse b = Ok v ->
  objects_of v <= MAX_TOTAL_OBJECTS /\
  leaf_bytes v <= Z.max (len b * BYTE_AMPLIFICATION) MIN_BYTE_BUDGET /\
  (nesting v <= 17)%nat.
Proof.
  unfold parse. do 3 (case_match; [done|]). do 2 (case_match; [|done]). case_match; [done|].
  match goal with |- fst (object ?p ?d ?r ?bu) = _ -> _ =>
    pose proof (object_costs p d r bu) as Hc; destruct (object p d r bu) as [[x|e] b'] end;
    [|done].
  cbn [fst]. intros [= <-]. cbn [budget bytes] in Hc. pose proof (len_nonneg b).
  destruct Hc as ((Hd & _ & _) & Hb & Hy & Hn & Hl); [done|unfold MIN_BYTE_BUDGET; lia|].
  change (Z.to_nat (MAX_DEPTH + 1)) with 17%nat in Hd. lia.
Qed.

(** ** Concrete documents *)

Definition ask : Value :=
  VDict [(str "Files", VArray [VDict [(str "Name", VStr (str "a"))]]); (str "Flag", VBool true);
         (str "Icon", VData (replicate 20 (to_u8 7)))].

Example ask_read : parse (encode ask) = Ok (Dict
  [(str "Files", Array [Dict [(str "Name", Str (str "a"))]]); (str "Flag", Bool true);
   (str "Icon", Data (replicate 20 (to_u8 7)))]).
Proof. vm_compute. reflexivity. Qed.

(** Forty-eight bytes that make [body + len] overflow: one data object whose length is
    [u64::MAX]. *)
Definition overflowing : list byte :=
  str "bplist00" ++ (to_u8 <$> [0x4F; 0x13]) ++ replicate 8 (to_u8 255)
  ++ [to_u8 8] ++ replicate 6 (to_u8 0) ++ [to_u8 1; to_u8 1]
  ++ to_be_bytes 8 1 ++ to_be_bytes 8 0 ++ to_be_bytes 8 18.

Example a_length_overflows : parse overflowing = Err Overflowed.
Proof. vm_compute. reflexivity. Qed.

Lemma plist_bounded_witness :
  let v := Dict [(str "Files", Array [Dict [(str "Name", Str (str "a"))]]); (str "Flag", Bool true);
                 (str "Icon", Data (replicate 20 (to_u8 7)))] in
  objects_of v <= MAX_TOTAL_OBJECTS /\
  leaf_bytes v <= Z.max (len (encode ask) * BYTE_AMPLIFICATION) MIN_BYTE_BUDGET /\
  (nesting v <= 17)%nat.
Proof. exact (plist_bounded (encode ask) _ ask_read). Defined.
