(* ===== verification/PlistRound.v ===== *)
(** * Property lists, there and back

    The writer of [Plist] numbers the objects of a tree and writes them behind one another;
    the reader follows the numbers through the offset table.  What is written reads back as
    the tree it was written from. *)

From S2P Require Import Prelude Utf8 Utf16 Plist.
#[local] Open Scope rust_scope.

(** ** Values *)

Section ValueInd.
Context (Q : Value -> Prop).
Context (HStr : forall s, Q (VStr s)) (HData : forall d, Q (VData d)) (HBool : forall b, Q (VBool b)).
Context (HArray : forall l, Forall Q l -> Q (VArray l)).
Context (HDict : forall l, Forall (fun kv => Q kv.2) l -> Q (VDict l)).

Fixpoint value_ind (v : Value) : Q v :=
  match v with
  | VStr s => HStr s
  | VData d => HData d
  | VBool b => HBool b
  | VArray l => HArray l ((fix go l : Forall Q l := match l with
                           | [] => Forall_nil_2 _
                           | v :: l => Forall_cons_2 _ _ _ (value_ind v) (go l) end) l)
  | VDict l => HDict l ((fix go l : Forall (fun kv => Q kv.2) l := match l with
                         | [] => Forall_nil_2 _
                         | kv :: l => Forall_cons_2 _ kv _
                             (match kv return Q kv.2 with (_, v) => value_ind v end) (go l) end) l)
  end.
End ValueInd.

(** What a reader makes of a value. *)
Fixpoint val_of (v : Value) : Val :=
  match v with
  | VStr s => Str s
  | VData d => Data d
  | VBool b => Bool b
  | VArray l => Array (val_of <$> l)
  | VDict l => Dict ((fun kv => match kv with (k, v) => (k, val_of v) end) <$> l)
  end.

(** Every [String] in it is one. *)
Fixpoint wf_value (v : Value) : Prop :=
  match v with
  | VStr s => valid s = true
  | VData _ | VBool _ => True
  | VArray l => foldr (fun v P => wf_value v /\ P) True l
  | VDict l => foldr (fun kv P => match kv with (k, v) => valid k = true /\ wf_value v /\ P end) True l
  end.

Lemma wf_array l : wf_value (VArray l) <-> Forall wf_value l.
Proof. cbn. induction l as [|v l IH]; cbn; [done|]. by rewrite Forall_cons, IH. Qed.

Lemma wf_dict l : wf_value (VDict l) <-> Forall (fun kv => valid kv.1 = true /\ wf_value kv.2) l.
Proof. cbn. induction l as [|[k v] l IH]; cbn; [done|]. rewrite Forall_cons, IH. naive_solver. Qed.

Definition objects (v : Value) : Z := objects_of (val_of v).

Lemma sum_of_map {A B} (f : A -> B) n l : sum_of n (f <$> l) = sum_of (fun a => n (f a)) l.
Proof. unfold sum_of. induction l as [|a l IH]; [done|]. cbn. by rewrite <- IH. Qed.

Lemma sum_of_ext {A} (f g : A -> Z) l : (forall a, f a = g a) -> sum_of f l = sum_of g l.
Proof. intros Hfg. unfold sum_of. induction l as [|a l IH]; [done|]. cbn. by rewrite Hfg, IH. Qed.

Lemma objects_array l : objects (VArray l) = 1 + sum_of objects l.
Proof.
  unfold objects. cbn [val_of]. change (objects_of (Array ?l)) with (1 + sum_of objects_of l).
  by rewrite sum_of_map.
Qed.

Lemma objects_dict l : objects (VDict l) = 1 + sum_of (fun kv => 1 + objects kv.2) l.
Proof.
  unfold objects. cbn [val_of]. rewrite dict_objects, sum_of_map. f_equal.
  by apply sum_of_ext; intros [k v].
Qed.

Definition value_bytes (v : Value) : Z := leaf_bytes (val_of v).

Lemma bytes_array l : value_bytes (VArray l) = sum_of value_bytes l.
Proof.
  change (value_bytes (VArray l)) with (sum_of leaf_bytes (val_of <$> l)).
  by rewrite sum_of_map.
Qed.

Lemma sum_of_plus {A} (f g : A -> Z) l : sum_of (fun a => f a + g a) l = sum_of f l + sum_of g l.
Proof. unfold sum_of. induction l as [|a l IH]; [done|]. cbn. rewrite IH. lia. Qed.

Lemma bytes_dict l : value_bytes (VDict l) = sum_of (fun kv => len kv.1 + value_bytes kv.2) l.
Proof.
  unfold value_bytes at 1. cbn [val_of]. rewrite dict_bytes, sum_of_map.
  by apply sum_of_ext; intros [k v].
Qed.

(** ** The numbering *)

Inductive represents (ns : list Node) : Z -> Value -> Prop :=
| rep_bool i b : get ns i = Some (NBool b) -> represents ns i (VBool b)
| rep_str i s : get ns i = Some (NStr s) -> represents ns i (VStr s)
| rep_data i d : get ns i = Some (NData d) -> represents ns i (VData d)
| rep_array i kids items :
    get ns i = Some (NArray kids) -> Forall2 (represents ns) kids items ->
    represents ns i (VArray items)
| rep_dict i keys values entries :
    get ns i = Some (NDict keys values) ->
    Forall2 (fun k kv => get ns k = Some (NStr (kv.1 : list byte))) keys entries ->
    Forall2 (fun j kv => represents ns j kv.2) values entries ->
    represents ns i (VDict entries).

Definition node_bytes (n : Node) : Z :=
  match n with NStr s => len s | NData d => len d | _ => 0 end.

(** [f] appends [size x] nodes with [bytes x] bytes of text and data, the first of which
    stands for [x] in the sense of [R], wherever the list of nodes has got to. *)
Definition lays {A} (f : A -> list Node -> Z * list Node) (R : list Node -> Z -> A -> Prop)
    (size bytes : A -> Z) (x : A) : Prop :=
  forall n, exists k, len k = size x /\ sum_of node_bytes k = bytes x /\
    (forall out, len out = n -> f x out = (n, out ++ k)) /\
    (forall out l, len out = n -> R (out ++ k ++ l) n x).

Lemma sum_of_app {A} (f : A -> Z) l k : sum_of f (l ++ k) = sum_of f l + sum_of f k.
Proof. unfold sum_of. induction l as [|a l IH]; [done|]. cbn. rewrite IH. lia. Qed.

Lemma traverse_lays {A} f R (size bytes : A -> Z) l :
  Forall (lays f R size bytes) l ->
  forall n, exists ks k, len k = sum_of size l /\ sum_of node_bytes k = sum_of bytes l /\
    (forall out, len out = n -> traverse f l out = (ks, out ++ k)) /\
    (forall out l', len out = n -> Forall2 (R (out ++ k ++ l')) ks l).
Proof.
  induction 1 as [|x l Hx _ IH]; intros n.
  - exists [], []. split_and!; [done|done|intros out _; by rewrite app_nil_r|constructor].
  - destruct (Hx n) as (k & Hk & Hb & Hf & HR).
    destruct (IH (n + len k)) as (ks & k' & Hk' & Hb' & Hf' & HR').
    exists (n :: ks), (k ++ k'). split_and!.
    + rewrite len_app, Hk, Hk'. done.
    + rewrite sum_of_app, Hb, Hb'. done.
    + intros out Ho. cbn. rewrite Hf by done. rewrite Hf' by (rewrite len_app; lia).
      by rewrite <- app_assoc.
    + intros out l' Ho. constructor.
      * rewrite <- (app_assoc k). by apply HR.
      * rewrite <- (app_assoc k), (app_assoc out). apply HR'. rewrite len_app. lia.
Qed.

Lemma insert_at {A} (out l : list A) x y n :
  len out = n -> <[Z.to_nat n := y]> (out ++ x :: l) = out ++ y :: l.
Proof.
  intros Hn. rewrite len_nat in Hn. rewrite insert_app_r_alt by lia.
  by replace (Z.to_nat n - length out)%nat with 0%nat by lia.
Qed.

Lemma get_at {A} (out l : list A) x n : len out = n -> get (out ++ x :: l) n = Some x.
Proof. intros Hn. by rewrite get_app_pos. Qed.

(** Every value is laid out as its objects, itself first. *)
Lemma flatten_lays v : lays flatten represents objects value_bytes v.
Proof.
  induction v as [s|d|b|l IH|l IH] using value_ind; intros n.
  - exists [NStr s]. split_and!; [done|cbn; lia|by intros out <-|intros out l Ho; by constructor; apply get_at].
  - exists [NData d]. split_and!; [done|cbn; lia|by intros out <-|intros out l Ho; by constructor; apply get_at].
  - exists [NBool b]. split_and!; [done|cbn; lia|by intros out <-|intros out l Ho; by constructor; apply get_at].
  - destruct (traverse_lays _ _ _ _ l IH (n + 1)) as (ks & k & Hk & Hb & Hf & HR).
    exists (NArray ks :: k). split_and!.
    + rewrite len_cons, objects_array. lia.
    + rewrite bytes_array, <- Hb. done.
    + intros out Ho. cbn [flatten]. rewrite Hf by (rewrite len_app, len_cons, len_nil; lia).
      rewrite <- app_assoc, Ho. f_equal. by apply insert_at.
    + intros out l' Ho. econstructor; [by apply get_at|].
      change (out ++ (NArray ks :: k) ++ l') with (out ++ [NArray ks] ++ k ++ l').
      rewrite app_assoc. apply HR. rewrite len_app, len_cons, len_nil. lia.
  - set (fk := fun (kv : list byte * Value) (out : list Node) => (len out, out ++ [NStr (fst kv)])).
    assert (Hkeys : Forall (lays fk (fun ns k kv => get ns k = Some (NStr kv.1)) (fun _ => 1)
      (fun kv => len kv.1)) l).
    { apply Forall_true. intros kv m. exists [NStr kv.1].
      split_and!; [done|cbn; lia|by intros out <-|intros out l' Ho; by apply get_at]. }
    destruct (traverse_lays _ _ _ _ l Hkeys (n + 1)) as (ks & k & Hk & Hb & Hf & HR).
    set (fv := fun (kv : list byte * Value) out => match kv with (_, v) => flatten v out end).
    assert (Hvals : Forall (lays fv (fun ns j kv => represents ns j kv.2) (fun kv => objects kv.2)
      (fun kv => value_bytes kv.2)) l).
    { eapply Forall_impl; [exact IH|]. intros [key v]. cbn. auto. }
    destruct (traverse_lays _ _ _ _ l Hvals (n + 1 + len k)) as (vs & k' & Hk' & Hb' & Hf' & HR').
    exists (NDict ks vs :: k ++ k'). split_and!.
    + rewrite len_cons, len_app, Hk, Hk', objects_dict. clear. unfold sum_of.
      induction l as [|kv l IH]; [done|]. cbn [foldr] in *. lia.
    + change (sum_of node_bytes (k ++ k') = value_bytes (VDict l)).
      rewrite sum_of_app, Hb, Hb', bytes_dict, sum_of_plus. done.
    + intros out Ho. cbn [flatten]. fold fk fv.
      rewrite Hf by (rewrite len_app, len_cons, len_nil; lia).
      rewrite Hf' by (rewrite !len_app, len_cons, len_nil; lia).
      rewrite <- !app_assoc, Ho. f_equal. by apply insert_at.
    + intros out l' Ho.
      assert (Heq : out ++ (NDict ks vs :: k ++ k') ++ l' = (out ++ [NDict ks vs]) ++ k ++ (k' ++ l'))
        by (cbn [app]; rewrite <- !app_assoc; done).
      assert (Ho1 : len (out ++ [NDict ks vs]) = n + 1)
        by (rewrite len_app, len_cons, len_nil; lia).
      econstructor; [by apply get_at|rewrite Heq; by apply HR|].
      rewrite Heq, (app_assoc _ k). apply HR'. rewrite len_app. lia.
Qed.

(** ** The bytes *)

Lemma drop_to_be k n v : drop k (to_be_bytes (k + n) v) = to_be_bytes n v.
Proof. induction k as [|k IH]; [done|]. cbn. apply IH. Qed.

Lemma write_uint_be v w : 0 <= w <= 8 -> write_uint v w = to_be_bytes (Z.to_nat w) v.
Proof.
  intros Hw. unfold write_uint.
  replace 8%nat with (Z.to_nat (8 - w) + Z.to_nat w)%nat by lia. apply drop_to_be.
Qed.

Lemma write_uint_len v w : 0 <= w <= 8 -> len (write_uint v w) = w.
Proof. intros Hw. rewrite write_uint_be, len_to_be_bytes by done. lia. Qed.

Lemma be_small b : len b <= 8 -> be b = from_be_bytes b.
Proof.
  induction b as [|x b IH] using rev_ind; [done|]. rewrite len_app, len_cons, len_nil. intros Hl.
  unfold be. rewrite fold_left_app. cbn [fold_left]. fold (be b). rewrite IH by lia.
  rewrite from_be_bytes_app. change (len [x]) with 1. change (256 ^ 1) with 256.
  replace (from_be_bytes [x]) with (u8 x) by done.
  pose proof (from_be_bytes_range b) as Hr.
  assert (256 ^ len b <= 256 ^ 7) by (apply Z.pow_le_mono_r; lia).
  rewrite as_u64_small; [done|]. unfold is_u64. change (256 ^ 7) with (2 ^ 56) in *. unfold_ints. lia.
Qed.

Lemma be_write_uint v w : 0 <= w <= 8 -> 0 <= v < 256 ^ w -> be (write_uint v w) = v.
Proof.
  intros Hw Hv. rewrite be_small by (rewrite write_uint_len; lia).
  rewrite write_uint_be, from_to_be_bytes_small by (rewrite ?Z2Nat.id; lia). done.
Qed.

Lemma byte_width_spec v :
  0 <= v < 2 ^ 64 -> 1 <= byte_width v <= 8 /\ v < 256 ^ byte_width v.
Proof.
  intros Hv. unfold byte_width. repeat case_match; lia.
Qed.

Lemma len_table {A} w (f : A -> list byte) l :
  (forall a, len (f a) = w) -> len (mjoin (f <$> l)) = len l * w.
Proof.
  intros Hw. induction l as [|a l IH]; [done|].
  change (mjoin (f <$> a :: l)) with (f a ++ mjoin (f <$> l)).
  rewrite len_app, len_cons, Hw, IH. lia.
Qed.

(** The elements of a table of fixed width. *)
Lemma slice_table {A} (f : A -> list byte) w l pre post i x :
  (forall a, len (f a) = w) -> get l i = Some x ->
  slice (pre ++ mjoin (f <$> l) ++ post) (len pre + i * w) (len pre + i * w + w) = Some (f x).
Proof.
  intros Hw Hx. pose proof (get_Some_lt _ _ _ Hx) as Hi.
  unfold get in Hx. destruct (_ && _); [|done].
  apply list_elem_of_split_length in Hx as (l1 & l2 & -> & Hl1).
  rewrite fmap_app, fmap_cons, join_app. cbn [mjoin list_join].
  assert (Hil : i = len l1) by (rewrite len_nat; lia). subst i.
  rewrite <- !app_assoc, app_assoc. apply slice_app; rewrite len_app.
  - by rewrite (len_table w) by done.
  - by rewrite Hw, (len_table w) by done.
Qed.

(** *** Markers *)

Definition kinds : list Z := [0x40; 0x50; 0x60; 0xA0; 0xD0].

Lemma marker_byte kind n :
  kind ∈ kinds -> 0 <= n < 16 ->
  let m := u8 (to_u8 (Z.lor kind n)) in Z.shiftr m 4 = kind / 16 /\ Z.land m 0x0F = n.
Proof.
  intros Hk Hn. assert (Hl : Z.lor kind n = n + kind / 16 * 2 ^ 4 /\ 0 <= kind / 16 < 16).
  { rewrite Z.lor_comm, <- (lor_disjoint n _ 4), Z.shiftl_mul_pow2 by (lia || done).
    unfold kinds in Hk. rewrite !elem_of_cons, elem_of_nil in Hk.
    destruct Hk as [->|[->|[->|[->|[->|[]]]]]]; done. }
  destruct Hl as [-> Hr]. cbn zeta. change (2 ^ 4) with 16. rewrite u8_to_u8_small by lia.
  rewrite Z.shiftr_div_pow2 by lia. change 0x0F with (Z.ones 4). rewrite Z.land_ones by lia.
  change (2 ^ 4) with 16. rewrite Z.div_add, Z.mod_add by lia.
  rewrite Z.div_small, Z.mod_small by lia. lia.
Qed.

(** The count a marker carries is found, and where the body starts. *)
Lemma marker_read p kind n pre rest :
  kind ∈ kinds -> 0 <= n < 2 ^ 32 -> buf p = pre ++ write_marker kind n ++ rest ->
  exists m, get (buf p) (len pre) = Some m /\ Z.shiftr (u8 m) 4 = kind / 16 /\
    sized p (len pre) (Z.land (u8 m) 0x0F) = Some (n, len pre + len (write_marker kind n)).
Proof.
  intros Hk Hn Hb. unfold write_marker in *. destruct (Z.ltb_spec n 0x0F).
  - exists (to_u8 (Z.lor kind n)). destruct (marker_byte kind n Hk ltac:(lia)) as [Hs Hl].
    rewrite Hb. cbn [app]. rewrite get_at by done. split_and!; [done..|]. unfold sized. rewrite Hl.
    by destruct (Z.eqb_spec n 0x0F); [lia|].
  - exists (to_u8 (Z.lor kind 0x0F)). destruct (marker_byte kind 0x0F Hk ltac:(lia)) as [Hs Hl].
    set (m := to_u8 (Z.lor kind 0x0F)) in *.
    rewrite Hb. cbn [app]. rewrite get_at by done. split_and!; [done..|]. unfold sized. rewrite Hl.
    cbn [Z.eqb Pos.eqb negb]. rewrite Hb.
    assert (Hw : exists k w, write_int_object n = to_u8 k :: write_uint n w /\
      Z.shiftr (u8 (to_u8 k)) 4 = 1 /\ Z.shiftl 1 (Z.land (u8 (to_u8 k)) 0x0F) = w /\
      0 <= w <= 8 /\ n < 256 ^ w).
    { unfold write_int_object. destruct (Z.leb_spec n 255); [exists 0x10, 1|
        destruct (Z.leb_spec n 65535); [exists 0x11, 2|exists 0x12, 4]];
        (split_and!; [done|reflexivity|reflexivity|lia|lia|]).
      - change (256 ^ 1) with 256. lia.
      - change (256 ^ 2) with 65536. lia.
      - change (256 ^ 4) with (2 ^ 32). lia. }
    destruct Hw as (k & w & -> & Hsh & <- & Hw & Hlt).
    set (w := Z.shiftl _ _) in *.
    change (pre ++ (m :: to_u8 k :: write_uint n w) ++ rest)
      with (pre ++ [m] ++ to_u8 k :: (write_uint n w ++ rest)).
    rewrite (app_assoc pre [m]).
    rewrite get_at by (rewrite len_app, len_cons, len_nil; lia).
    rewrite Hsh. cbn [Z.eqb Pos.eqb negb]. fold w.
    change ((pre ++ [m]) ++ to_u8 k :: (write_uint n w ++ rest))
      with ((pre ++ [m]) ++ [to_u8 k] ++ (write_uint n w ++ rest)).
    rewrite (app_assoc (pre ++ [m])).
    erewrite (slice_app _ (write_uint n w));
      [|rewrite !len_app, !len_cons, len_nil; lia
       |rewrite write_uint_len, !len_app, !len_cons, len_nil by lia; lia].
    rewrite be_write_uint, !len_cons, write_uint_len by lia. do 2 f_equal. lia.
Qed.

(** ** Reading what was written *)

Definition spend (n l : Z) (b : Budget) : Budget := mkBudget (budget b - n) (bytes b - l).

Lemma spend_spend n l n' l' b : spend n' l' (spend n l b) = spend (n + n') (l + l') b.
Proof. unfold spend. cbn. f_equal; lia. Qed.

Lemma spend_0 b : spend 0 0 b = b.
Proof. destruct b. unfold spend. cbn. f_equal; lia. Qed.

Lemma sum_of_nonneg {A} (n : A -> Z) l : (forall a, 0 <= n a) -> 0 <= sum_of n l.
Proof. intros Hn. apply sum_nonneg. by apply Forall_true. Qed.

(** A loop over the items of a container, each of which is read as it should be. *)
Lemma collect_ok {A B} (f : Z -> P (option A)) (g : B -> A) (n l : B -> Z) xs i :
  (forall x, 0 <= n x) -> (forall x, 0 <= l x) ->
  (forall j x b, get xs j = Some x -> n x <= budget b -> l x <= bytes b ->
     f (i + j) b = (Ok (Some (g x)), spend (n x) (l x) b)) ->
  forall b, sum_of n xs <= budget b -> sum_of l xs <= bytes b ->
  collect (length xs) i f b = (Ok (g <$> xs), spend (sum_of n xs) (sum_of l xs) b).
Proof.
  intros Hn Hl. revert i. induction xs as [|x xs IH]; intros i Hf b Hb Hy; cbn [length collect].
  - unfold pret. by rewrite spend_0.
  - pose proof (sum_of_nonneg n xs Hn). pose proof (sum_of_nonneg l xs Hl).
    change (sum_of n (x :: xs)) with (n x + sum_of n xs) in *.
    change (sum_of l (x :: xs)) with (l x + sum_of l xs) in *.
    unfold pbind at 1. rewrite <- (Z.add_0_r i) at 1. rewrite (Hf 0 x) by (done || lia).
    unfold pbind. rewrite IH; [unfold pret; by rewrite spend_spend| |cbn; lia..].
    intros j y c Hj. replace (i + 1 + j) with (i + (j + 1)) by lia. apply Hf.
    pose proof (get_Some_lt _ _ _ Hj). unfold get in *. rewrite len_cons.
    destruct (_ && _); [|done]. rewrite (proj2 (Z.leb_le _ _)), (proj2 (Z.ltb_lt _ _)) by lia.
    cbn [andb]. by replace (Z.to_nat (j + 1)) with (S (Z.to_nat j)) by lia.
Qed.

Section Reading.
Context (p : Parser) (ns : list Node).

(** The parser's table leads to the objects. *)
Record reads : Prop := mkReads {
  rd_node : forall i nd, get ns i = Some nd ->
    exists pre post, buf p = pre ++ write_node (ref_size p) nd ++ post /\
                     offset_of p i = Some (len pre);
  rd_width : 1 <= ref_size p <= 8;
  rd_refs : len ns <= 256 ^ ref_size p;
  rd_size : len (buf p) < 2 ^ 32
}.

Context (Hreads : reads).

Lemma body_ok pre m post a n b :
  buf p = pre ++ m ++ post -> a = len pre -> n = len m -> body_at p a n b = (Ok m, b).
Proof using Hreads.
  intros Hb -> ->. pose proof (rd_size Hreads) as Hs. pose proof (len_nonneg post).
  unfold body_at, pbind, padd. rewrite Hb, !len_app in Hs.
  rewrite (proj2 (Z.leb_le _ _)) by (unfold_ints; lia).
  unfold pret. by rewrite Hb, slice_app.
Qed.

Lemma reference_ok pre kids post body i k b :
  buf p = pre ++ mjoin ((fun c => write_uint c (ref_size p)) <$> kids) ++ post ->
  body = len pre -> get kids i = Some k -> 0 <= k < len ns -> reference p body i b = (Ok k, b).
Proof using Hreads.
  intros Hb -> Hk Hr. pose proof (rd_size Hreads) as Hs. pose proof (rd_width Hreads) as Hw.
  pose proof (rd_refs Hreads) as Href. pose proof (get_Some_lt _ _ _ Hk) as Hi.
  pose proof (len_nonneg post). pose proof (len_nonneg pre).
  set (f := fun c => write_uint c (ref_size p)) in *.
  assert (Hf : forall c, len (f c) = ref_size p) by (intros c; apply write_uint_len; lia).
  assert (Htab : i * ref_size p + ref_size p <= len (mjoin (f <$> kids))).
  { rewrite (len_table (ref_size p)) by done. nia. }
  rewrite Hb, !len_app in Hs.
  assert (Hslice := slice_table f (ref_size p) kids pre post i k Hf Hk).
  unfold reference, pbind, checked_mul, checked_add, body_at, padd, popt.
  rewrite (proj2 (Z.leb_le (i * _) _)) by (unfold_ints; lia). unfold pret at 1.
  rewrite (proj2 (Z.leb_le (len pre + _) _)) by (unfold_ints; lia). unfold pret at 1.
  unfold pbind. rewrite (proj2 (Z.leb_le _ _)) by (unfold_ints; lia). unfold pret at 1.
  rewrite Hb, Hslice. unfold pret. unfold f. by rewrite be_write_uint by lia.
Qed.

Lemma represents_range i v : represents ns i v -> 0 <= i < len ns.
Proof. intros Hv. inversion Hv; subst; by eapply get_Some_lt. Qed.

(** [object] on an object that starts with a count, of no more than the bytes behind it. *)
Lemma object_counted d i kind n body pre post b :
  kind ∈ kinds -> 0 <= n <= len body -> 1 <= budget b ->
  buf p = pre ++ (write_marker kind n ++ body) ++ post -> offset_of p i = Some (len pre) ->
  exists m, object p (S d) i b = decode p (object p d) (len pre) m (spend 1 0 b) /\
    Z.shiftr m 4 = kind / 16 /\
    sized p (len pre) (Z.land m 0x0F) = Some (n, len pre + len (write_marker kind n)).
Proof using Hreads.
  intros Hk Hn Hb Hbuf Hoff.
  assert (Hn' : n < 2 ^ 32).
  { pose proof (rd_size Hreads) as Hs. rewrite Hbuf, !len_app in Hs.
    pose proof (len_nonneg pre). pose proof (len_nonneg post).
    pose proof (len_nonneg (write_marker kind n)). lia. }
  destruct (marker_read p kind n pre (body ++ post) Hk ltac:(lia)) as (m & Hm & Hs & Hz).
  { by rewrite Hbuf, <- app_assoc. }
  exists (u8 m). split_and!; [|done..]. cbn [object]. unfold pbind, spend_object.
  rewrite (proj2 (Z.eqb_neq _ _)) by lia. rewrite Hoff. cbn [popt]. unfold pret. rewrite Hm.
  cbn [popt]. unfold pret, spend. by rewrite Z.sub_0_r.
Qed.

(** The body behind the count. *)
Lemma counted_body w body pre post b :
  buf p = pre ++ (w ++ body) ++ post ->
  body_at p (len pre + len w) (len body) b = (Ok body, b).
Proof using Hreads.
  intros Hbuf. eapply (body_ok (pre ++ w)); [by rewrite Hbuf, <- !app_assoc|by rewrite len_app|done].
Qed.

Lemma spend_bytes_ok n b : n <= bytes b -> spend_bytes n b = (Ok tt, spend 0 n b).
Proof.
  intros Hn. unfold spend_bytes. rewrite (proj2 (Z.ltb_ge _ _)) by done.
  unfold spend. by rewrite Z.sub_0_r.
Qed.

Lemma units_be us :
  Forall (fun u => 0 <= u < 65536) us -> units (mjoin (to_be_bytes 2 <$> us)) = us.
Proof.
  induction 1 as [|u us Hu _ IH]; [done|].
  change (units (mjoin (to_be_bytes 2 <$> u :: us)))
    with (from_be_bytes (to_be_bytes 2 u) :: units (mjoin (to_be_bytes 2 <$> us))).
  by rewrite IH, from_to_be_bytes_small.
Qed.

(** *** Leaves *)

Ltac kind := unfold kinds; rewrite !elem_of_cons; tauto.

Lemma string_ok d i s b :
  get ns i = Some (NStr s) -> valid s = true -> 1 <= budget b -> len s <= bytes b ->
  object p (S d) i b = (Ok (Str s), spend 1 (len s) b).
Proof using Hreads.
  intros Hi Hv Hb Hy. destruct (rd_node Hreads _ _ Hi) as (pre & post & Hbuf & Hoff).
  cbn [write_node] in Hbuf. unfold write_string in Hbuf. pose proof (len_nonneg s).
  destruct (is_ascii s).
  - destruct (object_counted d i 0x50 (len s) s pre post b) as (m & -> & Hk & Hz);
      [kind|lia|done..|].
    unfold decode. rewrite Hk, Hz. change (0x50 / 16) with 5. cbn [popt]. unfold pbind, pret.
    rewrite (counted_body _ _ _ _ _ Hbuf), lossy_valid, spend_bytes_ok by (done || cbn; lia).
    by rewrite spend_spend.
  - set (us := encode_utf16 s) in *.
    assert (Hl : len (mjoin (to_be_bytes 2 <$> us)) = len us * 2)
      by (apply len_table; intros; apply len_to_be_bytes).
    pose proof (len_nonneg us).
    destruct (object_counted d i 0x60 (len us) (mjoin (to_be_bytes 2 <$> us)) pre post b)
      as (m & -> & Hk & Hz); [kind|lia|done..|].
    pose proof (rd_size Hreads) as Hsz. rewrite Hbuf, !len_app in Hsz.
    pose proof (len_nonneg pre). pose proof (len_nonneg post).
    pose proof (len_nonneg (write_marker 0x60 (len us))).
    unfold decode. rewrite Hk, Hz. change (0x60 / 16) with 6. cbn [popt]. unfold pbind, pret, checked_mul.
    rewrite (proj2 (Z.leb_le _ _)) by (unfold_ints; lia). cbn [popt]. unfold pret.
    rewrite <- Hl, (counted_body _ _ _ _ _ Hbuf), units_be by (by apply utf16_range).
    unfold us. rewrite utf16_roundtrip, spend_bytes_ok by (done || cbn; lia). by rewrite spend_spend.
Qed.

Lemma data_ok d i s b :
  get ns i = Some (NData s) -> 1 <= budget b -> len s <= bytes b ->
  object p (S d) i b = (Ok (Data s), spend 1 (len s) b).
Proof using Hreads.
  intros Hi Hb Hy. destruct (rd_node Hreads _ _ Hi) as (pre & post & Hbuf & Hoff).
  cbn [write_node] in Hbuf. pose proof (len_nonneg s).
  destruct (object_counted d i 0x40 (len s) s pre post b) as (m & -> & Hk & Hz); [kind|lia|done..|].
  unfold decode. rewrite Hk, Hz. change (0x40 / 16) with 4. cbn [popt]. unfold pbind, pret.
  rewrite (counted_body _ _ _ _ _ Hbuf), spend_bytes_ok by (cbn; lia). by rewrite spend_spend.
Qed.

Lemma bool_ok d i x b :
  get ns i = Some (NBool x) -> 1 <= budget b ->
  object p (S d) i b = (Ok (Bool x), spend 1 0 b).
Proof using Hreads.
  intros Hi Hb. destruct (rd_node Hreads _ _ Hi) as (pre & post & Hbuf & Hoff).
  cbn [write_node app] in Hbuf. cbn [object]. unfold pbind, spend_object.
  rewrite (proj2 (Z.eqb_neq _ _)) by lia. rewrite Hoff. cbn [popt]. unfold pret.
  rewrite Hbuf, get_at by done. cbn [popt]. unfold pret, spend. rewrite Z.sub_0_r.
  by destruct x.
Qed.

(** *** Containers *)

Lemma get_lookup {A} (l : list A) i x : get l i = Some x <-> 0 <= i /\ l !! Z.to_nat i = Some x.
Proof.
  unfold get. rewrite len_nat. split.
  - destruct (_ && _) eqn:E; [|done]. intros Hx. split; [lia|done].
  - intros [Hi Hx]. pose proof (lookup_lt_Some _ _ _ Hx).
    rewrite (proj2 (Z.leb_le _ _)), (proj2 (Z.ltb_lt _ _)) by lia. done.
Qed.

Lemma Forall2_get {A B} (R : A -> B -> Prop) ks xs j x :
  Forall2 R ks xs -> get xs j = Some x -> exists k, get ks j = Some k /\ R k x.
Proof.
  intros HR [Hj Hx]%get_lookup.
  destruct (Forall2_lookup_r _ _ _ _ _ HR Hx) as (k & Hk & HRk).
  exists k. split; [by apply get_lookup|done].
Qed.

Lemma Forall_get {A} (Q : A -> Prop) xs j x : Forall Q xs -> get xs j = Some x -> Q x.
Proof. intros HQ [_ Hx]%get_lookup. by eapply Forall_lookup_1. Qed.

Lemma Forall2_len {A B} (R : A -> B -> Prop) ks xs : Forall2 R ks xs -> len ks = len xs.
Proof. intros HR%Forall2_length. by rewrite !len_nat, HR. Qed.

Lemma sum_ge {A} (f : A -> Z) l : (forall a, 1 <= f a) -> len l <= sum_of f l.
Proof.
  intros Hf. induction l as [|a l IH]; [done|]. rewrite len_cons.
  change (sum_of f (a :: l)) with (f a + sum_of f l). specialize (Hf a). lia.
Qed.

Lemma sum_elem {A} (f : A -> Z) l m :
  (forall a, 0 <= f a) -> sum_of f l <= m -> Forall (fun a => f a <= m) l.
Proof.
  intros Hf. revert m. induction l as [|a l IH]; intros m Hm; [constructor|].
  change (sum_of f (a :: l)) with (f a + sum_of f l) in Hm.
  pose proof (sum_of_nonneg f l Hf). specialize (Hf a).
  constructor; [lia|]. apply IH. lia.
Qed.

Lemma max_elem {A} (f : A -> nat) l m :
  (foldr (fun a n => f a `max` n)%nat 0%nat l <= m)%nat -> Forall (fun a => (f a <= m)%nat) l.
Proof. induction l as [|a l IH]; cbn; intros Hm; constructor; [lia|]. apply IH. lia. Qed.

Lemma val_pos v : 1 <= objects v /\ 0 <= leaf_bytes (val_of v).
Proof.
  induction v as [s|d|b|l IH|l IH] using value_ind.
  - split; [done|apply len_nonneg].
  - split; [done|apply len_nonneg].
  - done.
  - split.
    + rewrite objects_array. enough (0 <= sum_of objects l) by lia. apply sum_nonneg.
      eapply Forall_impl; [exact IH|]. intros v [? _]. lia.
    + change (0 <= sum_of leaf_bytes (val_of <$> l)). rewrite sum_of_map. apply sum_nonneg.
      eapply Forall_impl; [exact IH|]. by intros v [_ ?].
  - split.
    + rewrite objects_dict. enough (0 <= sum_of (fun kv => 1 + objects kv.2) l) by lia.
      apply sum_nonneg. eapply Forall_impl; [exact IH|]. intros kv [? _]. lia.
    + cbn [val_of]. rewrite dict_bytes, sum_of_map. apply sum_nonneg.
      eapply Forall_impl; [exact IH|]. intros [k v] [_ ?]. unfold entry_bytes. cbn in *.
      pose proof (len_nonneg k). lia.
Qed.

Lemma nesting_array l : nesting (val_of (VArray l)) = S (foldr (fun v n => nesting (val_of v) `max` n)%nat 0%nat l).
Proof. cbn. f_equal. induction l as [|v l IH]; [done|]. cbn. by rewrite IH. Qed.

Lemma nesting_dict l :
  nesting (val_of (VDict l)) = S (foldr (fun kv n => nesting (val_of kv.2) `max` n)%nat 0%nat l).
Proof. cbn. f_equal. induction l as [|[k v] l IH]; [done|]. cbn. by rewrite IH. Qed.

(** Reading object [i] gives the value it represents, and pays for it. *)
Definition object_reads (d : nat) : Prop := forall i v b,
  represents ns i v -> wf_value v -> (nesting (val_of v) <= d)%nat -> objects v <= MAX_ELEMENTS ->
  objects v <= budget b -> leaf_bytes (val_of v) <= bytes b ->
  object p (S d) i b = (Ok (val_of v), spend (objects v) (leaf_bytes (val_of v)) b).

Lemma array_ok d i items b :
  object_reads d -> represents ns i (VArray items) -> wf_value (VArray items) ->
  (nesting (val_of (VArray items)) <= S d)%nat -> objects (VArray items) <= MAX_ELEMENTS ->
  objects (VArray items) <= budget b -> leaf_bytes (val_of (VArray items)) <= bytes b ->
  object p (S (S d)) i b
  = (Ok (val_of (VArray items)), spend (objects (VArray items)) (leaf_bytes (val_of (VArray items))) b).
Proof using Hreads.
  intros IH Hrep Hwf%wf_array Hd Hmax Hb Hy.
  inversion Hrep as [| | |? kids ? Hi HR|]; subst.
  destruct (rd_node Hreads _ _ Hi) as (pre & post & Hbuf & Hoff). cbn [write_node] in Hbuf.
  pose proof (rd_width Hreads) as Hw. pose proof (Forall2_len _ _ _ HR) as Hlen.
  rewrite nesting_array in Hd. apply le_S_n, max_elem in Hd.
  rewrite objects_array in *. change (leaf_bytes (val_of (VArray items)))
    with (sum_of leaf_bytes (val_of <$> items)) in *. rewrite sum_of_map in *.
  assert (Hpos : forall v, 0 <= objects v) by (intros v; pose proof (val_pos v); lia).
  pose proof (sum_ge objects items (fun v => proj1 (val_pos v))) as Hn.
  pose proof (sum_elem objects items MAX_ELEMENTS Hpos ltac:(lia)) as Hel.
  pose proof (len_nonneg items).
  assert (Hbody : len (mjoin ((fun c => write_uint c (ref_size p)) <$> kids)) = len kids * ref_size p)
    by (apply len_table; intros; apply write_uint_len; lia).
  destruct (object_counted (S d) i 0xA0 (len kids)
    (mjoin ((fun c => write_uint c (ref_size p)) <$> kids)) pre post b ltac:(kind)
    ltac:(rewrite Hbody; nia) ltac:(lia) Hbuf Hoff)
    as (m & -> & Hk & Hz).
  unfold decode. rewrite Hk, Hz. change (0xA0 / 16) with 0xA. cbn [popt]. unfold pbind at 1. unfold pret at 1.
  rewrite (proj2 (Z.ltb_ge _ _)) by lia. unfold pbind at 1.
  replace (Z.to_nat (len kids)) with (length items) by (rewrite Hlen, len_nat; lia).
  rewrite (collect_ok _ val_of objects (fun v => leaf_bytes (val_of v))); [..|unfold spend; cbn [budget]; lia|unfold spend; cbn [bytes]; lia].
  - unfold pret. rewrite spend_spend. done.
  - done.
  - intros v. apply val_pos.
  - intros j x c Hj Hob Hle. destruct (Forall2_get _ _ _ _ _ HR Hj) as (k & Hkj & Hrx).
    unfold pbind at 1. rewrite (reference_ok (pre ++ write_marker 0xA0 (len kids)) kids post _ _ k);
      [|by rewrite Hbuf, <- !app_assoc|by rewrite len_app|done|by eapply represents_range].
    unfold pbind. rewrite (IH k x c); [done|done|by eapply Forall_get|..|done|done].
    + by apply (Forall_get _ _ _ _ Hd Hj).
    + by apply (Forall_get _ _ _ _ Hel Hj).
Qed.

Definition entry_of (kv : list byte * Value) : list byte * Val := (kv.1, val_of kv.2).

Lemma val_of_dict l : val_of (VDict l) = Dict (entry_of <$> l).
Proof. cbn [val_of]. f_equal. apply list_fmap_ext. by intros _ [k v] _. Qed.

Lemma get_app_l {A} (l k : list A) j x : get l j = Some x -> get (l ++ k) j = Some x.
Proof.
  rewrite !get_lookup. intros [? Hx]. split; [done|]. by apply lookup_app_l_Some.
Qed.

Lemma get_app_r {A} (l k : list A) j x : get k j = Some x -> get (l ++ k) (len l + j) = Some x.
Proof.
  rewrite !get_lookup, len_nat. intros [? Hx]. split; [lia|].
  rewrite lookup_app_r by lia. by replace (Z.to_nat (Z.of_nat (length l) + j) - length l)%nat with (Z.to_nat j) by lia.
Qed.

Lemma dict_ok d i l b :
  object_reads d -> represents ns i (VDict l) -> wf_value (VDict l) ->
  (nesting (val_of (VDict l)) <= S d)%nat -> objects (VDict l) <= MAX_ELEMENTS ->
  objects (VDict l) <= budget b -> leaf_bytes (val_of (VDict l)) <= bytes b ->
  object p (S (S d)) i b
  = (Ok (val_of (VDict l)), spend (objects (VDict l)) (leaf_bytes (val_of (VDict l))) b).
Proof using Hreads.
  intros IH Hrep Hwf%wf_dict Hd Hmax Hb Hy.
  inversion Hrep as [| | | |? keys vals ? Hi HRk HRv]; subst.
  destruct (rd_node Hreads _ _ Hi) as (pre & post & Hbuf & Hoff). cbn [write_node] in Hbuf.
  rewrite <- join_app, <- fmap_app in Hbuf.
  pose proof (rd_width Hreads) as Hw. pose proof (Forall2_len _ _ _ HRk) as Hlk.
  rewrite nesting_dict in Hd. apply le_S_n, max_elem in Hd.
  rewrite val_of_dict, dict_bytes, sum_of_map, objects_dict in *.
  set (n := fun kv : list byte * Value => 1 + objects kv.2) in *.
  set (y := fun kv : list byte * Value => entry_bytes (entry_of kv)) in *.
  assert (Hpos : forall kv, 1 <= n kv) by (intros kv; unfold n; pose proof (val_pos kv.2); lia).
  pose proof (sum_ge n l Hpos) as Hn.
  pose proof (sum_elem n l MAX_ELEMENTS (fun kv => ltac:(specialize (Hpos kv); lia)) ltac:(lia)) as Hel.
  pose proof (len_nonneg l). pose proof (len_nonneg vals).
  assert (Hbody : len (mjoin ((fun c => write_uint c (ref_size p)) <$> (keys ++ vals)))
                  = len (keys ++ vals) * ref_size p)
    by (apply len_table; intros; apply write_uint_len; lia).
  destruct (object_counted (S d) i 0xD0 (len keys)
    (mjoin ((fun c => write_uint c (ref_size p)) <$> (keys ++ vals))) pre post b ltac:(kind)
    ltac:(rewrite Hbody, len_app; nia) ltac:(lia) Hbuf Hoff) as (m & -> & Hk & Hz).
  unfold decode. rewrite Hk, Hz. change (0xD0 / 16) with 0xD. cbn [popt]. unfold pbind at 1. unfold pret at 1.
  rewrite (proj2 (Z.ltb_ge _ _)) by lia. unfold pbind at 1.
  replace (Z.to_nat (len keys)) with (length l) by (rewrite Hlk, len_nat; lia).
  rewrite (collect_ok _ entry_of n y);
    [..|unfold spend; cbn [budget]; lia|unfold spend; cbn [bytes]; lia].
  - unfold pret. by rewrite spend_spend.
  - intros kv. specialize (Hpos kv). lia.
  - intros kv. unfold y, entry_bytes. cbn. pose proof (val_pos kv.2). pose proof (len_nonneg kv.1). lia.
  - intros j kv c Hj Hob Hle.
    destruct (Forall2_get _ _ _ _ _ HRk Hj) as (k & Hkj & Hrk).
    destruct (Forall2_get _ _ _ _ _ HRv Hj) as (v & Hvj & Hrv).
    destruct (Forall_get _ _ _ _ Hwf Hj) as [Hvk Hwv].
    assert (Href : forall i k c, get (keys ++ vals) i = Some k -> 0 <= k < len ns ->
      reference p (len pre + len (write_marker 0xD0 (len keys))) i c = (Ok k, c)).
    { intros i' k' c' Hi' Hr. eapply (reference_ok (pre ++ write_marker 0xD0 (len keys)));
        [by rewrite Hbuf, <- !app_assoc|by rewrite len_app|exact Hi'|done]. }
    unfold n, y, entry_bytes in Hob, Hle. cbn in Hle.
    pose proof (val_pos kv.2). pose proof (len_nonneg kv.1).
    unfold pbind at 1. rewrite (Href _ k); [|by apply get_app_l|by eapply get_Some_lt].
    unfold pbind at 1. rewrite (Href _ v); [|by apply get_app_r|by eapply represents_range].
    unfold pbind at 1. rewrite (string_ok d k kv.1 c) by (done || lia).
    unfold pbind. rewrite (IH v kv.2); [|done|done|by apply (Forall_get _ _ _ _ Hd Hj)| |cbn; lia..].
    + unfold pret. by rewrite spend_spend.
    + pose proof (Forall_get _ _ _ _ Hel Hj) as Hm. unfold n in Hm. cbn in Hm. lia.
Qed.

Lemma object_ok d : object_reads d.
Proof using Hreads.
  induction d as [|d IH]; intros i v b Hrep Hwf Hd Hmax Hb Hy;
    destruct v as [s|s|x|l|l]; try (inversion Hrep; subst).
  - by apply string_ok.
  - by apply data_ok.
  - by apply bool_ok.
  - exfalso. rewrite nesting_array in Hd. lia.
  - exfalso. rewrite nesting_dict in Hd. lia.
  - by apply string_ok.
  - by apply data_ok.
  - by apply bool_ok.
  - by apply array_ok.
  - by apply dict_ok.
Qed.

End Reading.

(** ** The whole document *)

Lemma write_nodes_out rs ns out :
  snd (write_nodes rs ns out) = out ++ mjoin (write_node rs <$> ns).
Proof.
  revert out. induction ns as [|nd ns IH]; intros out; cbn [write_nodes].
  - change (mjoin (write_node rs <$> [])) with (@nil byte). by rewrite app_nil_r.
  - specialize (IH (out ++ write_node rs nd)). destruct (write_nodes _ _ _) as [offs o].
    cbn [snd] in *. rewrite IH, <- app_assoc. done.
Qed.

Lemma write_nodes_at rs ns out i nd :
  get ns i = Some nd ->
  exists pre post, get (fst (write_nodes rs ns out)) i = Some (len (out ++ pre)) /\
    mjoin (write_node rs <$> ns) = pre ++ write_node rs nd ++ post.
Proof.
  revert out i. induction ns as [|n ns IH]; intros out i Hi; [by apply get_Some_lt in Hi; change (len (@nil Node)) with 0 in Hi; lia|].
  cbn [write_nodes]. specialize (IH (out ++ write_node rs n)).
  destruct (write_nodes rs ns _) as [offs o]. cbn [fst] in *.
  pose proof (get_Some_lt _ _ _ Hi) as Hr. apply get_lookup in Hi as [_ Hi].
  destruct (Z.to_nat i) as [|j] eqn:Hj; cbn in Hi.
  - injection Hi as ->. exists [], (mjoin (write_node rs <$> ns)). rewrite app_nil_r.
    split; [|done]. apply get_lookup. rewrite Hj. split; [lia|done].
  - destruct (IH (Z.of_nat j)) as (pre & post & Hg & Hm).
    { apply get_lookup. rewrite Nat2Z.id. split; [lia|done]. }
    exists (write_node rs n ++ pre), post. split.
    + apply get_lookup. rewrite Hj. apply get_lookup in Hg as [_ Hg]. rewrite Nat2Z.id in Hg.
      split; [lia|]. etransitivity; [exact Hg|]. by rewrite app_assoc.
    + change (mjoin (write_node rs <$> n :: ns)) with (write_node rs n ++ mjoin (write_node rs <$> ns)).
      by rewrite Hm, <- app_assoc.
Qed.

Lemma write_nodes_len rs ns out : len (fst (write_nodes rs ns out)) = len ns.
Proof.
  revert out. induction ns as [|nd ns IH]; intros out; cbn [write_nodes]; [done|].
  specialize (IH (out ++ write_node rs nd)). destruct (write_nodes _ _ _). cbn [fst] in *.
  by rewrite !len_cons, IH.
Qed.

(** What is materialised is at most twice what was written. *)
Lemma node_bytes_le rs nd : node_bytes nd <= 2 * len (write_node rs nd) /\ 1 <= len (write_node rs nd).
Proof.
  assert (Hm : forall k n, 1 <= len (write_marker k n)).
  { intros k n. unfold write_marker.
    case_match; rewrite len_cons;
      match goal with |- _ <= len ?l + 1 => pose proof (len_nonneg l) end; lia. }
  destruct nd as [b|s|d|c|k v]; cbn [write_node node_bytes].
  - change (len [to_u8 (if b then 9 else 8)]) with 1. lia.
  - unfold write_string. destruct (is_ascii s); rewrite len_app.
    + specialize (Hm 0x50 (len s)). pose proof (len_nonneg s). lia.
    + specialize (Hm 0x60 (len (encode_utf16 s))). pose proof (utf16_len s). pose proof (len_nonneg (encode_utf16 s)).
      rewrite (len_table 2) by (intros; apply len_to_be_bytes). lia.
  - rewrite len_app. specialize (Hm 0x40 (len d)). pose proof (len_nonneg d). lia.
  - rewrite len_app. specialize (Hm 0xA0 (len c)). 
    pose proof (len_nonneg (mjoin ((fun c => write_uint c rs) <$> c))). lia.
  - rewrite !len_app. specialize (Hm 0xD0 (len k)).
    pose proof (len_nonneg (mjoin ((fun c => write_uint c rs) <$> k))).
    pose proof (len_nonneg (mjoin ((fun c => write_uint c rs) <$> v))). lia.
Qed.

Lemma nodes_bytes_le rs ns :
  sum_of node_bytes ns <= 2 * len (mjoin (write_node rs <$> ns)) /\
  len ns <= len (mjoin (write_node rs <$> ns)).
Proof.
  induction ns as [|nd ns IH]; [done|].
  change (mjoin (write_node rs <$> nd :: ns)) with (write_node rs nd ++ mjoin (write_node rs <$> ns)).
  rewrite len_app, len_cons. change (sum_of node_bytes (nd :: ns)) with (node_bytes nd + sum_of node_bytes ns).
  pose proof (node_bytes_le rs nd). lia.
Qed.

Section Document.
Context (v : Value).

Definition nodes : list Node := snd (flatten v []).
Definition rs : Z := byte_width (len nodes).
Definition written : list byte := str "bplist00" ++ mjoin (write_node rs <$> nodes).
Definition os : Z := byte_width (len written).
Definition offsets : list Z := fst (write_nodes rs nodes (str "bplist00")).
Definition table : list byte := mjoin ((fun off => write_uint off os) <$> offsets).
Definition trailer : list byte :=
  replicate 5 (to_u8 0) ++ [to_u8 0; to_u8 os; to_u8 rs]
  ++ to_be_bytes 8 (len nodes) ++ to_be_bytes 8 0 ++ to_be_bytes 8 (len written).

Lemma encode_parts : encode v = written ++ table ++ trailer.
Proof.
  unfold encode, written, table, trailer, os, offsets.
  fold nodes. fold rs. pose proof (write_nodes_out rs nodes (str "bplist00")) as Ho.
  destruct (write_nodes rs nodes (str "bplist00")) as [offs out]. cbn [fst snd] in *. subst out.
  unfold written. rewrite <- !app_assoc. done.
Qed.

Lemma nodes_spec :
  represents nodes 0 v /\ len nodes = objects v /\ sum_of node_bytes nodes = value_bytes v.
Proof.
  destruct (flatten_lays v 0) as (k & Hk & Hb & Hf & HR). unfold nodes.
  rewrite (Hf []) by done. cbn [snd app]. split_and!; [|done|done].
  specialize (HR [] [] eq_refl). by rewrite app_nil_r in HR.
Qed.

Context (Hsmall : len (encode v) < 2 ^ 32).

Lemma sizes : 1 <= len nodes /\ 9 <= len written /\ len written < 2 ^ 32 /\
  value_bytes v <= 2 * len written /\ len nodes <= len written /\
  1 <= rs <= 8 /\ len nodes < 256 ^ rs /\ 1 <= os <= 8 /\ len written < 256 ^ os /\
  len table = len nodes * os /\ len trailer = 32.
Proof using Hsmall.
  destruct nodes_spec as (_ & Hn & Hb). pose proof (val_pos v) as [Hp _].
  pose proof (nodes_bytes_le rs nodes) as [Hw Hw'].
  assert (Hwr : len written = 8 + len (mjoin (write_node rs <$> nodes))) by (unfold written; by rewrite len_app).
  assert (Hlw : len written < 2 ^ 32).
  { rewrite encode_parts, len_app in Hsmall. pose proof (len_nonneg (table ++ trailer)). lia. }
  pose proof (byte_width_spec (len nodes) ltac:(lia)). pose proof (byte_width_spec (len written) ltac:(lia)).
  fold rs in *. fold os in *.
  assert (Htab : len table = len nodes * os).
  { unfold table. rewrite (len_table os) by (intros; apply write_uint_len; lia).
    unfold offsets. by rewrite write_nodes_len. }
  split_and!; try lia. unfold trailer.
  by rewrite !len_app, len_replicate, !len_to_be_bytes.
Qed.

Definition parser : Parser := mkParser (encode v) (len written) os rs (len nodes).

Lemma parser_reads : reads parser nodes.
Proof using Hsmall.
  destruct sizes as (Hn & Hw9 & Hw & _ & Hnw & Hrs & Hrs' & Hos & Hos' & Htab & Htr).
  constructor; cbn [parser buf ref_size]; [|done|lia|done].
  intros i nd Hi. destruct (write_nodes_at rs nodes (str "bplist00") i nd Hi) as (pre & post & Hg & Hm).
  fold offsets in Hg. exists (str "bplist00" ++ pre), (post ++ table ++ trailer). split.
  { rewrite encode_parts. unfold written. rewrite Hm, <- !app_assoc. done. }
  unfold offset_of. cbn [parser num_objects table_start offset_size buf].
  pose proof (get_Some_lt _ _ _ Hi). rewrite (proj2 (Z.leb_gt _ _)) by lia.
  rewrite encode_parts at 1. unfold table.
  rewrite (slice_table (fun off => write_uint off os) os offsets written trailer i
    (len (str "bplist00" ++ pre))); [|intros; apply write_uint_len; lia|done].
  assert (Hoff : len (str "bplist00" ++ pre) < len written).
  { unfold written. rewrite Hm, !len_app. pose proof (node_bytes_le rs nd). pose proof (len_nonneg post). lia. }
  pose proof (len_nonneg (str "bplist00" ++ pre)).
  rewrite be_write_uint by lia. rewrite (proj2 (Z.ltb_lt _ _)); [done|].
  rewrite encode_parts, (len_app written). pose proof (len_nonneg (table ++ trailer)). lia.
Qed.

Lemma be_u64 x : 0 <= x < 2 ^ 64 -> be (to_be_bytes 8 x) = x.
Proof.
  intros Hx. rewrite be_small by (by rewrite len_to_be_bytes). by apply from_to_be_bytes_small.
Qed.

(** The header and the trailer lead to [parser]. *)
Lemma parse_encode :
  objects v <= MAX_ELEMENTS ->
  parse (encode v) = fst (object parser 17 0
    (mkBudget MAX_TOTAL_OBJECTS (Z.max (len (encode v) * BYTE_AMPLIFICATION) MIN_BYTE_BUDGET))).
Proof using Hsmall.
  intros Hmax.
  destruct sizes as (Hn & Hw9 & Hw & _ & Hnw & Hrs & Hrs' & Hos & Hos' & Htab & Htr).
  destruct nodes_spec as (_ & Hno & _).
  assert (Hlen : len (encode v) = len written + len table + 32).
  { rewrite encode_parts, !len_app. lia. }
  unfold parse. rewrite (proj2 (Z.ltb_ge _ _)) by nia.
  assert (Hmagic : take 8 (encode v) = str "bplist00") by (rewrite encode_parts; done).
  rewrite (bool_decide_eq_true_2 _ Hmagic). cbn [negb orb].
  assert (Htrl : drop (Z.to_nat (len (encode v) - 32)) (encode v) = trailer).
  { rewrite encode_parts at 2. rewrite app_assoc. apply drop_app_length'.
    rewrite length_app. rewrite Hlen, !len_nat. lia. }
  rewrite Htrl.
  change (nth 6 trailer (to_u8 0)) with (to_u8 os). change (nth 7 trailer (to_u8 0)) with (to_u8 rs).
  change (sub_range trailer 8 16) with (to_be_bytes 8 (len nodes)).
  change (sub_range trailer 16 24) with (to_be_bytes 8 0).
  change (sub_range trailer 24 32) with (to_be_bytes 8 (len written)).
  rewrite !be_u64, !u8_to_u8_small by lia.
  assert (Hw8 : (os =? 0) || (8 <? os) || (rs =? 0) || (8 <? rs) = false) by lia. rewrite Hw8.
  assert (Hnn : (len nodes =? 0) || (MAX_ELEMENTS <? len nodes) || (len nodes <=? 0) = false) by lia.
  rewrite Hnn. unfold checked_mul, checked_add.
  rewrite (proj2 (Z.leb_le (len nodes * os) _)) by (unfold_ints; nia).
  rewrite (proj2 (Z.leb_le (len written + _) _)) by (unfold_ints; nia).
  rewrite (proj2 (Z.ltb_ge _ _)) by lia.
  rewrite (Z.min_l (len (encode v) * _)) by (unfold BYTE_AMPLIFICATION; unfold_ints; lia). done.
Qed.

End Document.

Lemma parse_document v :
  wf_value v -> objects v <= MAX_ELEMENTS -> (nesting (val_of v) <= 16)%nat ->
  len (encode v) < 2 ^ 32 -> parse (encode v) = Ok (val_of v).
Proof.
  intros Hwf Hmax Hd Hsmall. rewrite parse_encode by done.
  destruct (nodes_spec v) as (Hrep & _ & _).
  destruct (sizes v Hsmall) as (_ & _ & _ & Hle & _).
  rewrite (object_ok _ _ (parser_reads v Hsmall) 16); try done; cbn [budget bytes].
  - unfold MAX_ELEMENTS, MAX_TOTAL_OBJECTS in *. lia.
  - fold (value_bytes v). rewrite encode_parts, len_app. unfold BYTE_AMPLIFICATION.
    pose proof (len_nonneg (table v ++ trailer v)). pose proof (len_nonneg (written v)). lia.
Qed.

(** ** Properties *)

(** C22: a property list reads back as the tree it was written from: nested arrays and
    dictionaries, data, and strings, ASCII or not, with the widths of references and offsets
    the writer chose, whenever the tree has at most 4096 objects in at most sixteen containers
    within one another and the document is shorter than 4 GiB.  The budgets that stop hostile
    documents are never in the way. *)
Theorem plist_roundtrip v :
  wf_value v -> objects v <= MAX_ELEMENTS -> (nesting (val_of v) <= 16)%nat ->
  len (encode v) < 2 ^ 32 -> parse (encode v) = Ok (val_of v).
Proof. apply parse_document. Qed.

(** A name that is not ASCII: e-acute, and a musical symbol outside the basic plane. *)
Definition note : Value := VStr (to_u8 <$> [0xC3; 0xA9; 0xF0; 0x9D; 0x84; 0x9E]).

Definition offer : Value :=
  VDict [(str "Files", VArray [VDict [(str "Name", note); (str "Dir", VBool false)]]);
         (str "Icon", VData (replicate 20 (to_u8 7)))].

Lemma plist_roundtrip_witness : parse (encode offer) = Ok (val_of offer).
Proof.
  apply plist_roundtrip;
    [repeat split; reflexivity|vm_compute; discriminate|cbn; lia|vm_compute; reflexivity].
Defined.
