(* ===== verification/Framed.v ===== *)
(** * Apple's block framing of an upload ([sharingd/src/framed.rs])

    An upload is a sequence of blocks, each a 32-bit header (the top bit says stored, the rest
    is a length) and its data, raw or deflated.  The zlib library is a parameter. *)

From S2P Require Import Prelude.
#[local] Open Scope rust_scope.

Definition MAX_BLOCK : Z := 8 * 1024 * 1024.
Definition STORED : Z := 0x80000000.
Definition LEN_MASK : Z := 0x7FFFFFFF.
Definition BLOCK : Z := 128 * 1024.

Inductive IoError : Type := InvalidData | OsError.

(** What the calls of a source's [read] return, in order; after the last it has ended. *)
Inductive Read : Type :=
| Data (b : list byte)
| Interrupted
| Failed.

(** [flate2]: [ZlibDecoder::read_to_end] and [ZlibEncoder], and what they promise. *)
Class Zlib : Type := {
  inflate : list byte -> option (list byte);
  deflate : list byte -> option (list byte)
}.

Class ZlibLaws `{Zlib} : Prop := {
  deflate_some : forall b, exists z, deflate b = Some z;
  inflate_deflate : forall b z, deflate b = Some z -> inflate z = Some b;
  deflate_nonempty : forall b z, deflate b = Some z -> z <> [];
  (** [compressBound]: a block grows by at most a five-thousandth and a few bytes. *)
  deflate_bound : forall b z, deflate b = Some z -> len z <= len b + len b / 5000 + 64
}.

(** ** Reading *)

(** The loop of [read_full]; [got] has been read. *)
Fixpoint read_full (cap : Z) (got : list byte) (r : list Read)
    : result (list byte) IoError * list Read :=
  if cap <=? len got then (Ok got, r)
  else
    match r with
    | [] => (Ok got, [])
    | Failed :: r => (Err OsError, r)
    | Interrupted :: r => read_full cap got r
    | Data b :: r =>
        if is_empty b then (Ok got, r)
        else
          let room := cap - len got in
          if len b <=? room then read_full cap (got ++ b) r
          else (Ok (got ++ take (Z.to_nat room) b), Data (drop (Z.to_nat room) b) :: r)
    end.

Module FramedReader.

Record t : Type := mk {
  inner : list Read;
  buf : list byte;
  pos : Z;
  ended : bool
}.

Definition new (inner : list Read) : t := mk inner [] 0 false.

Definition next_block `{Zlib} (f : t) : result bool IoError * t :=
  let (hdr, inner) := read_full 4 [] (inner f) in
  let f := mk inner (buf f) (pos f) (ended f) in
  match hdr with
  | Err e => (Err e, f)
  | Ok hdr =>
      if negb (len hdr =? 4) then (Ok false, f)
      else
        let hdr := from_be_bytes hdr in
        let stored := negb (Z.land hdr STORED =? 0) in
        let n := Z.land hdr LEN_MASK in
        if n =? 0 then (Ok false, f)
        else if MAX_BLOCK <? n then (Err InvalidData, f)
        else
          let (block, inner) := read_full n [] inner in
          let f := mk inner (buf f) (pos f) (ended f) in
          match block with
          | Err e => (Err e, f)
          | Ok block =>
              if negb (len block =? n) then (Ok false, f)
              else
                match (if stored then Some block else inflate block) with
                | None => (Err OsError, f)
                | Some out => (Ok true, mk inner out 0 (ended f))
                end
          end
  end.

(** [while self.pos >= self.buf.len()]: every round but the last takes a block off the
    source. *)
Fixpoint refill `{Zlib} (fuel : nat) (f : t) : result bool IoError * t :=
  if pos f <? len (buf f) then (Ok true, f)
  else if ended f then (Ok false, f)
  else
    match fuel with
    | O => (Err OsError, f)
    | S fuel =>
        match next_block f with
        | (Err e, f) => (Err e, f)
        | (Ok false, f) => (Ok false, mk (inner f) (buf f) (pos f) true)
        | (Ok true, f) => refill fuel f
        end
    end.

(** The bytes a source can still give. *)
Definition source_len (r : list Read) : nat :=
  foldr (fun x n => match x with Data b => length b + n | _ => n end)%nat 0%nat r.

Definition read `{Zlib} (cap : Z) (f : t) : result (list byte) IoError * t :=
  match refill (S (source_len (inner f))) f with
  | (Err e, f) => (Err e, f)
  | (Ok false, f) => (Ok [], f)
  | (Ok true, f) =>
      let n := Z.min (len (buf f) - pos f) cap in
      (Ok (sub_range (buf f) (pos f) (pos f + n)), mk (inner f) (buf f) (pos f + n) (ended f))
  end.

End FramedReader.

(** ** Writing *)

Module FramedWriter.
Section Writer.

(** The writer below: [write_all] and [flush]. *)
Context {W : Type} (write_all : list byte -> W -> bool * W) (flush_inner : W -> bool * W).

Record t : Type := mk { inner : W; buf : list byte }.

Definition new (inner : W) : t := mk inner [].

Definition emit `{Zlib} (f : t) : result unit IoError * t :=
  if is_empty (buf f) then (Ok tt, f)
  else
    match deflate (buf f) with
    | None => (Err OsError, f)
    | Some block =>
        if LEN_MASK <? len block then (Err InvalidData, f)
        else
          match write_all (to_be_bytes 4 (as_u32 (len block))) (inner f) with
          | (false, w) => (Err OsError, mk w (buf f))
          | (true, w) =>
              match write_all block w with
              | (false, w) => (Err OsError, mk w (buf f))
              | (true, w) => (Ok tt, mk w [])
              end
          end
    end.

(** [while !rest.is_empty()]: a round takes a byte at least. *)
Fixpoint write_loop `{Zlib} (fuel : nat) (rest : list byte) (f : t) : result unit IoError * t :=
  if is_empty rest then (Ok tt, f)
  else
    match fuel with
    | O => (Err OsError, f)
    | S fuel =>
        let take_ := Z.to_nat (Z.min (BLOCK - len (buf f)) (len rest)) in
        let f := mk (inner f) (buf f ++ take take_ rest) in
        let rest := drop take_ rest in
        if len (buf f) =? BLOCK then
          match emit f with
          | (Err e, f) => (Err e, f)
          | (Ok _, f) => write_loop fuel rest f
          end
        else write_loop fuel rest f
    end.

Definition write `{Zlib} (data : list byte) (f : t) : result Z IoError * t :=
  let (r, f) := write_loop (length data) data f in (map_ok (fun _ => len data) r, f).

Definition flush (f : t) : bool * t := let (b, w) := flush_inner (inner f) in (b, mk w (buf f)).

Definition finish `{Zlib} (f : t) : result W IoError :=
  match emit f with
  | (Err e, _) => Err e
  | (Ok _, f) =>
      match flush_inner (inner f) with
      | (true, w) => Ok w
      | (false, _) => Err OsError
      end
  end.

End Writer.
End FramedWriter.

(** ** Lemmas *)

(** *** Sources *)

(** A source that works, and what it gives. *)
Fixpoint gives (r : list Read) (bs : list byte) : Prop :=
  match r with
  | [] => bs = []
  | Data b :: r => b <> [] /\ exists rest, bs = b ++ rest /\ gives r rest
  | Interrupted :: r => gives r bs
  | Failed :: _ => False
  end.

Lemma read_full_spec cap got r bs :
  gives r bs -> len got <= cap ->
  exists r', read_full cap got r = (Ok (got ++ take (Z.to_nat (cap - len got)) bs), r') /\
    gives r' (drop (Z.to_nat (cap - len got)) bs).
Proof.
  revert got bs. induction r as [|[b| |] r IH]; intros got bs; cbn [gives read_full].
  - intros -> Hg. rewrite take_nil, drop_nil, app_nil_r. exists []. by destruct (_ <=? _).
  - intros (Hb & rest & -> & Hr) Hg. destruct (Z.leb_spec cap (len got)).
    { exists (Data b :: r). replace (cap - len got) with 0 by lia.
      rewrite app_nil_r. split; [done|]. by split; [|exists rest]. }
    destruct (is_empty b) eqn:He; [by destruct b|].
    destruct (Z.leb_spec (len b) (cap - len got)).
    + destruct (IH (got ++ b) rest Hr ltac:(rewrite len_app; lia)) as (r' & -> & Hr').
      exists r'. rewrite take_len_app, drop_len_app, len_app, !Z.sub_add_distr, <- app_assoc in * by lia.
      done.
    + eexists. rewrite !len_nat in *. rewrite take_app_le, drop_app_le by lia. split; [done|].
      cbn [gives]. split; [|by exists rest].
      intros Hd%(f_equal length). rewrite length_drop in Hd. cbn in Hd. lia.
  - intros Hr Hg. destruct (Z.leb_spec cap (len got)).
    { exists (Interrupted :: r). replace (cap - len got) with 0 by lia. by rewrite app_nil_r. }
    by apply IH.
  - done.
Qed.

(** Reading exactly what comes next. *)
Lemma read_full_exact r x rest :
  gives r (x ++ rest) -> exists r', read_full (len x) [] r = (Ok x, r') /\ gives r' rest.
Proof.
  intros Hr. destruct (read_full_spec (len x) [] r _ Hr) as (r' & Hf & Hr').
  { rewrite len_nil. apply len_nonneg. }
  rewrite len_nil, Z.sub_0_r in *. rewrite len_nat, Nat2Z.id in *.
  rewrite take_app_length in Hf. rewrite drop_app_length in Hr'. by exists r'.
Qed.

(** *** The container *)

Section Container.
Context `{Zlib} `{!ZlibLaws}.

(** [bs] in blocks, each deflated behind its length. *)
Inductive packed : list byte -> list byte -> Prop :=
| packed_nil : packed [] []
| packed_block b z bs w :
    b <> [] -> len b <= BLOCK -> deflate b = Some z -> packed bs w ->
    packed (b ++ bs) (to_be_bytes 4 (len z) ++ z ++ w).

Lemma packed_snoc bs w b z :
  packed bs w -> b <> [] -> len b <= BLOCK -> deflate b = Some z ->
  packed (bs ++ b) (w ++ to_be_bytes 4 (len z) ++ z).
Proof.
  intros Hp Hb Hl Hz. induction Hp as [|b' z' bs w Hb' Hl' Hz' Hp IH].
  - rewrite <- (app_nil_r b). cbn [app]. rewrite <- (app_nil_r z) at 2.
    apply packed_block; [done..|constructor].
  - rewrite <- !app_assoc. by apply packed_block.
Qed.

(** A compressed block is within every limit. *)
Lemma block_len b z :
  len b <= BLOCK -> deflate b = Some z -> 0 < len z <= MAX_BLOCK.
Proof using All.
  intros Hl Hz. pose proof (deflate_bound _ _ Hz). pose proof (deflate_nonempty _ _ Hz).
  pose proof (len_nonneg b). pose proof (len_nonneg z).
  assert (len b / 5000 <= 27) by (apply Z.div_le_upper_bound; unfold BLOCK in *; lia).
  unfold BLOCK, MAX_BLOCK in *. split; [|lia]. destruct z; [done|]. rewrite len_cons. pose proof (len_nonneg z). lia.
Qed.

(** *** The reader *)

(** What a reader still has to give. *)
Definition serves (f : FramedReader.t) (bs : list byte) : Prop :=
  exists now later w,
    0 <= FramedReader.pos f /\ drop (Z.to_nat (FramedReader.pos f)) (FramedReader.buf f) = now /\
    (FramedReader.ended f = true -> later = []) /\
    packed later w /\ gives (FramedReader.inner f) w /\ bs = now ++ later.

Lemma next_block_spec b z w f :
  b <> [] -> len b <= BLOCK -> deflate b = Some z ->
  gives (FramedReader.inner f) (to_be_bytes 4 (len z) ++ z ++ w) ->
  exists i, FramedReader.next_block f = (Ok true, FramedReader.mk i b 0 (FramedReader.ended f)) /\
            gives i w.
Proof using All.
  intros Hb Hl Hz Hg. pose proof (block_len _ _ Hl Hz) as Hlz.
  destruct (read_full_exact _ _ _ Hg) as (i & Hh & Hi).
  destruct (read_full_exact _ _ _ Hi) as (i' & Hz' & Hi').
  unfold FramedReader.next_block. rewrite len_to_be_bytes in Hh. change (Z.of_nat 4) with 4 in Hh.
  rewrite Hh, len_to_be_bytes. cbn [Z.eqb Pos.eqb Z.of_nat Pos.of_succ_nat Pos.succ negb].
  rewrite from_to_be_bytes_small by (change (256 ^ Z.of_nat 4) with (2 ^ 32); unfold MAX_BLOCK in *; lia).
  assert (Hst : Z.land (len z) STORED = 0).
  { change STORED with (Z.shiftl 1 31). apply Z.bits_inj'. intros k Hk.
    rewrite Z.land_spec, Z.bits_0, Z.shiftl_spec by lia.
    destruct (Z.ltb_spec k 31); [by rewrite (Z.testbit_neg_r _ (k - 31)), andb_false_r by lia|].
    rewrite (Z.bits_above_log2 (len z)); [done|lia|].
    apply Z.le_lt_trans with (Z.log2 MAX_BLOCK); [apply Z.log2_le_mono; lia|].
    change (Z.log2 MAX_BLOCK) with 23. lia. }
  assert (Hmask : Z.land (len z) LEN_MASK = len z).
  { change LEN_MASK with (Z.ones 31). rewrite Z.land_ones by lia. apply Z.mod_small.
    unfold MAX_BLOCK in *. lia. }
  rewrite Hst, Hmask. cbn [Z.eqb negb FramedReader.inner FramedReader.buf FramedReader.pos FramedReader.ended].
  rewrite (proj2 (Z.eqb_neq (len z) 0)) by lia. rewrite (proj2 (Z.ltb_ge MAX_BLOCK (len z))) by lia.
  rewrite Hz'. cbn beta iota zeta. rewrite (inflate_deflate _ _ Hz), (Z.eqb_refl (len z)). by exists i'.
Qed.

Lemma next_block_end f :
  gives (FramedReader.inner f) [] ->
  exists i, FramedReader.next_block f
            = (Ok false, FramedReader.mk i (FramedReader.buf f) (FramedReader.pos f) (FramedReader.ended f))
            /\ gives i [].
Proof.
  intros Hg. destruct (read_full_spec 4 [] _ _ Hg) as (i & Hf & Hi); [by rewrite len_nil|].
  rewrite take_nil, drop_nil in *. unfold FramedReader.next_block. rewrite Hf.
  exists i. by split.
Qed.

(** Blocks are fetched until there is something to give, or the end. *)
Lemma refill_spec fuel f bs :
  serves f bs ->
  exists (more : bool) f', FramedReader.refill (S fuel) f = (Ok more, f') /\ serves f' bs /\
    if more then FramedReader.pos f' < len (FramedReader.buf f') else bs = [].
Proof using All.
  intros (now & later & w & Hpos & Hnow & Hend & Hp & Hg & ->). cbn [FramedReader.refill].
  destruct (Z.ltb_spec (FramedReader.pos f) (len (FramedReader.buf f))) as [Hlt|Hge].
  { exists true, f. split_and!; [done| |done]. by exists now, later, w. }
  assert (Hn : now = []) by (subst now; rewrite len_nat in Hge; apply skipn_all2; lia).
  rewrite Hn in Hnow |- *. cbn [app]. clear Hn.
  destruct (FramedReader.ended f) eqn:He.
  { exists false, f. rewrite (Hend eq_refl) in *. split_and!; [done| |done].
    exists [], [], w. split_and!; done. }
  destruct Hp as [|b z bs w Hb Hl Hz Hp].
  - destruct (next_block_end f Hg) as (i & -> & Hi). exists false. eexists.
    split_and!; [done| |done]. exists [], [], []. by split_and!; [| | |constructor| |].
  - destruct (next_block_spec b z w f Hb Hl Hz Hg) as (i & -> & Hi). rewrite He.
    assert (Hlb : 0 < len b).
    { destruct b; [done|]. rewrite len_cons. pose proof (len_nonneg b0). lia. }
    exists true, (FramedReader.mk i b 0 false). split_and!.
    + destruct fuel; cbn [FramedReader.refill FramedReader.pos FramedReader.buf];
        by rewrite (proj2 (Z.ltb_lt _ _)).
    + exists b, bs, w. cbn. by split_and!; [| | |exact Hp| |].
    + done.
Qed.

Lemma read_spec cap f bs :
  1 <= cap -> serves f bs ->
  exists out rest f', FramedReader.read cap f = (Ok out, f') /\ bs = out ++ rest /\
    serves f' rest /\ (out = [] -> bs = []).
Proof using All.
  intros Hcap Hs. unfold FramedReader.read.
  destruct (refill_spec (FramedReader.source_len (FramedReader.inner f)) f bs Hs)
    as (more & f' & -> & (now & later & w & Hpos & Hnow & Hend & Hp & Hg & Hbs) & Hmore).
  destruct more.
  - set (n := Z.min _ _). assert (Hn : 1 <= n) by lia.
    set (pos := FramedReader.pos f') in *. set (buf := FramedReader.buf f') in *.
    assert (Hout : sub_range buf pos (pos + n) = take (Z.to_nat n) now).
    { unfold sub_range. rewrite Hnow. do 2 f_equal. lia. }
    eexists _, (drop (Z.to_nat n) now ++ later), _. split; [done|]. rewrite Hout. split_and!.
    + by rewrite Hbs, app_assoc, take_drop.
    + exists (drop (Z.to_nat n) now), later, w. cbn. split_and!; try done; [lia|].
      rewrite <- Hnow, drop_drop. f_equal. lia.
    + intros Ht%(f_equal length). exfalso. rewrite <- Hnow, length_take, length_drop in Ht.
      rewrite !len_nat in *. cbn in Ht. lia.
  - eexists [], bs, _. split_and!; [done|done| |done]. by exists now, later, w.
Qed.

(** [read_to_end], by reads of [cap] bytes. *)
Fixpoint read_to_end (fuel : nat) (cap : Z) (f : FramedReader.t) : result (list byte) IoError :=
  match fuel with
  | O => Err OsError
  | S fuel =>
      match FramedReader.read cap f with
      | (Err e, _) => Err e
      | (Ok out, f) => if is_empty out then Ok [] else map_ok (app out) (read_to_end fuel cap f)
      end
  end.

Lemma read_to_end_spec fuel cap f bs :
  1 <= cap -> serves f bs -> (length bs < fuel)%nat -> read_to_end fuel cap f = Ok bs.
Proof using All.
  intros Hcap. revert f bs. induction fuel as [|fuel IH]; intros f bs Hs Hf; [lia|].
  cbn [read_to_end]. destruct (read_spec cap f bs Hcap Hs) as (out & rest & f' & -> & -> & Hs' & Hout).
  destruct out as [|x out]; cbn [is_empty]; [by rewrite (Hout eq_refl)|].
  rewrite (IH f' rest Hs'); [done|]. rewrite length_app in Hf. cbn in Hf. lia.
Qed.

(** *** The writer *)

(** Into memory. *)
Definition push (b w : list byte) : bool * list byte := (true, w ++ b).
Definition keep (w : list byte) : bool * list byte := (true, w).

(** What has been written so far is [bs]. *)
Definition holds (f : FramedWriter.t (W := list byte)) (bs : list byte) : Prop :=
  exists done_, packed done_ (FramedWriter.inner f) /\ bs = done_ ++ FramedWriter.buf f /\
    len (FramedWriter.buf f) < BLOCK.

Lemma emit_spec f done_ :
  packed done_ (FramedWriter.inner f) -> len (FramedWriter.buf f) <= BLOCK ->
  exists w, FramedWriter.emit push f = (Ok tt, FramedWriter.mk w []) /\
            packed (done_ ++ FramedWriter.buf f) w.
Proof using All.
  intros Hp Hl. unfold FramedWriter.emit. destruct f as [w [|x b]]; cbn [is_empty FramedWriter.inner FramedWriter.buf] in *.
  { exists w. by rewrite app_nil_r. }
  destruct (deflate_some (x :: b)) as [z Hz]. pose proof (block_len _ _ Hl Hz) as Hlz.
  rewrite Hz. unfold MAX_BLOCK in *. rewrite (proj2 (Z.ltb_ge _ _)) by (unfold LEN_MASK; lia).
  rewrite as_u32_small by (unfold_ints; lia). eexists. split; [done|].
  rewrite <- app_assoc. by apply packed_snoc.
Qed.

Lemma write_loop_spec fuel rest f bs :
  (length rest <= fuel)%nat -> holds f bs ->
  exists f', FramedWriter.write_loop push fuel rest f = (Ok tt, f') /\ holds f' (bs ++ rest).
Proof using All.
  revert rest f bs. induction fuel as [|fuel IH]; intros rest f bs Hf (d & Hp & -> & Hl);
    cbn [FramedWriter.write_loop].
  - destruct rest; [|cbn in Hf; lia]. exists f. rewrite app_nil_r. split; [done|]. by exists d.
  - destruct (is_empty rest) eqn:He.
    { destruct rest; [|done]. exists f. rewrite app_nil_r. split; [done|]. by exists d. }
    assert (Hr : 0 < len rest).
    { destruct rest; [done|]. rewrite len_cons. pose proof (len_nonneg rest). lia. }
    set (n := Z.min (BLOCK - len (FramedWriter.buf f)) (len rest)).
    assert (Hn : 1 <= n) by lia.
    set (buf := FramedWriter.buf f ++ take (Z.to_nat n) rest). cbn [FramedWriter.buf FramedWriter.inner].
    assert (Hlb : len buf = len (FramedWriter.buf f) + n) by (unfold buf; rewrite len_app, len_take; lia).
    assert (Hdrop : (length (drop (Z.to_nat n) rest) <= fuel)%nat).
    { rewrite length_drop. rewrite len_nat in *. lia. }
    assert (Hsplit : (d ++ FramedWriter.buf f) ++ rest = (d ++ buf) ++ drop (Z.to_nat n) rest).
    { unfold buf. rewrite <- !app_assoc. by rewrite take_drop. }
    rewrite Hsplit. destruct (Z.eqb_spec (len buf) BLOCK).
    + destruct (emit_spec (FramedWriter.mk (FramedWriter.inner f) buf) d Hp) as (w & -> & Hw); [cbn; lia|].
      apply IH; [done|]. exists (d ++ buf). cbn. rewrite app_nil_r. by rewrite len_nil.
    + apply IH; [done|]. exists d. cbn. split_and!; [done|done|lia].
Qed.

(** [write_all] on each piece, then [finish]. *)
Fixpoint pack_loop (pieces : list (list byte)) (f : FramedWriter.t (W := list byte))
    : result (list byte) IoError :=
  match pieces with
  | [] => FramedWriter.finish push keep f
  | b :: pieces =>
      match FramedWriter.write push b f with
      | (Ok _, f) => pack_loop pieces f
      | (Err e, _) => Err e
      end
  end.

Definition pack (pieces : list (list byte)) : result (list byte) IoError :=
  pack_loop pieces (FramedWriter.new []).

Lemma pack_loop_spec pieces f bs :
  holds f bs -> exists w, pack_loop pieces f = Ok w /\ packed (bs ++ mjoin pieces) w.
Proof using All.
  revert f bs. induction pieces as [|b pieces IH]; intros f bs Hf; cbn [pack_loop].
  - destruct Hf as (d & Hp & -> & Hl). unfold FramedWriter.finish.
    destruct (emit_spec f d Hp ltac:(lia)) as (w & -> & Hw). exists w.
    change (mjoin []) with (@nil byte). by rewrite app_nil_r.
  - unfold FramedWriter.write.
    destruct (write_loop_spec (length b) b f bs ltac:(lia) Hf) as (f' & -> & Hf'). cbn [map_ok].
    destruct (IH f' _ Hf') as (w & -> & Hw). exists w. split; [done|].
    change (mjoin (b :: pieces)) with (b ++ mjoin pieces). by rewrite app_assoc.
Qed.

End Container.

(** ** Properties *)

(** The block container is transparent.  Whatever pieces a stream is written in, packing it
    succeeds, and a reader over what was packed, given in reads of any length and with
    interruptions, returns exactly the stream and then the end, whatever the lengths of its own
    reads are. *)
Theorem framed_roundtrip `{Zlib} `{!ZlibLaws} pieces :
  exists w, pack pieces = Ok w /\
    forall src cap, gives src w -> 1 <= cap ->
      read_to_end (S (length (mjoin pieces))) cap (FramedReader.new src) = Ok (mjoin pieces).
Proof.
  destruct (pack_loop_spec pieces (FramedWriter.new []) []) as (w & Hw & Hp).
  { exists []. cbn. split_and!; [constructor|done|]. by rewrite len_nil. }
  exists w. split; [done|]. intros src cap Hg Hcap. apply read_to_end_spec; [done| |lia].
  exists [], (mjoin pieces), w. by split_and!.
Qed.


(** ** A concrete library *)

Module ToyZlib.

(** Storing behind a one-byte header. *)
#[export] Instance zlib : Zlib := {|
  inflate z := match z with [] => None | _ :: b => Some b end;
  deflate b := Some (Byte.x78 :: b)
|}.

#[export] Instance laws : ZlibLaws.
Proof.
  split; cbn.
  - intros b. by exists (Byte.x78 :: b).
  - by intros b z [= <-].
  - by intros b z [= <-].
  - intros b z [= <-]. rewrite len_cons. pose proof (len_nonneg b).
    pose proof (Z.div_pos (len b) 5000). lia.
Defined.

(** Three bytes written in two pieces, read back one byte at a time over a source that is
    interrupted in the middle of the header. *)
Lemma framed_roundtrip_witness :
  let pieces := [[Byte.x01; Byte.x02]; []; [Byte.x03]] in
  let w := [Byte.x00; Byte.x00; Byte.x00; Byte.x04; Byte.x78; Byte.x01; Byte.x02; Byte.x03] in
  let src := [Data (take 3 w); Interrupted; Data (drop 3 w)] in
  pack pieces = Ok w /\ gives src w /\
  read_to_end 4 1 (FramedReader.new src) = Ok [Byte.x01; Byte.x02; Byte.x03].
Proof.
  cbn zeta. destruct (framed_roundtrip [[Byte.x01; Byte.x02]; []; [Byte.x03]]) as (w & Hw & Hr).
  assert (Hw' : pack [[Byte.x01; Byte.x02]; []; [Byte.x03]] = Ok [Byte.x00; Byte.x00; Byte.x00; Byte.x04; Byte.x78; Byte.x01; Byte.x02; Byte.x03])
    by reflexivity.
  rewrite Hw' in Hw. injection Hw as <-.
  match goal with |- _ /\ ?G /\ _ => assert (Hg : G) end.
  { cbn. split; [discriminate|]. eexists. split; [reflexivity|]. split; [discriminate|].
    by exists []. }
  split; [exact Hw'|]. split; [exact Hg|]. by apply Hr.
Defined.

(** A stored block is taken as it is; one over the limit is refused unread; a stream cut inside
    a block ends as if it were complete. *)
Example a_stored_block :
  read_to_end 4 9 (FramedReader.new [Data [Byte.x80; Byte.x00; Byte.x00; Byte.x02; Byte.x41; Byte.x42]]) = Ok [Byte.x41; Byte.x42].
Proof. reflexivity. Qed.

Example a_block_too_large :
  read_to_end 4 9 (FramedReader.new [Data [Byte.x80; Byte.x80; Byte.x00; Byte.x01; Byte.x41; Byte.x42]]) = Err InvalidData.
Proof. reflexivity. Qed.

Example a_cut_block :
  read_to_end 9 9 (FramedReader.new [Data [Byte.x80; Byte.x00; Byte.x00; Byte.x01; Byte.x41; Byte.x80; Byte.x00; Byte.x00; Byte.x02; Byte.x42]])
  = Ok [Byte.x41].
Proof. reflexivity. Qed.

End ToyZlib.
