(* ===== verification/Inbox.v ===== *)
(** * Where received files land ([sharingd/src/httpd.rs])

    Names from an archive are a stranger's: what becomes of them before they reach the file
    system, and what unpacking an archive does to the directory.  The archive reader (the cpio
    crate over a gzip or block-framed stream) is a sequence of what it returns. *)

From stdpp Require Import gmap sorting.
From S2P Require Import Prelude Utf8 Utf16 Text.
#[local] Open Scope rust_scope.

Definition MAX_EXTRACTED_BYTES : Z := 8 * 1024 * 1024 * 1024.
Definition MAX_MEMBERS : Z := 1024.
Definition INBOX : list byte := str "/data/misc/tarish/inbox".

Definition slash (b : byte) : bool := u8 b =? 47.
Definition slash_or_backslash (b : byte) : bool := slash b || (u8 b =? 92).

(** ** Names *)

(** The characters that change how a name is shown. *)
Definition directional (c : Z) : bool :=
  between 0x202A 0x202E c || between 0x2066 0x2069 c || (c =? 0x200E) || (c =? 0x200F) || (c =? 0x061C).

Definition display_safe (s : list byte) : bool :=
  negb (existsb (fun c => (c =? 0) || is_control c || directional c) (chars s)).

Definition safe_leaf (entry_name : list byte) : option (list byte) :=
  let leaf := trim (last_part slash_or_backslash entry_name) in
  if is_empty leaf || bool_decide (leaf = str ".") || bool_decide (leaf = str "..") then None
  else if negb (display_safe leaf) then None
  else Some leaf.

Definition inbox_path (name : list byte) : option (list byte) :=
  match safe_leaf name with
  | Some leaf => if ends_with leaf (str ".cpio") then None else Some (INBOX ++ str "/" ++ leaf)
  | None => None
  end.

(** ** The directory *)

(** Paths and contents. *)
Abbreviation Fs := (gmap (list byte) (list byte)).

Definition path_in (dir leaf : list byte) : list byte := dir ++ str "/" ++ leaf.

(** [photo (2).jpg]. *)
Definition numbered (stem ext : list byte) (n : Z) : list byte :=
  stem ++ str " (" ++ show n ++ str ")" ++ ext.

Definition stem_ext (leaf : list byte) : list byte * list byte :=
  match rsplit_once (to_u8 46) leaf with
  | Some (s, e) => if is_empty s then (leaf, []) else (s, str "." ++ e)
  | None => (leaf, [])
  end.

(** [while Path::new(&candidate).exists()], from [n] on; it gives up after 9999. *)
Fixpoint disambiguate (fuel : nat) (exists_ : list byte -> bool) (dir stem ext candidate : list byte)
    (n : Z) : list byte :=
  match fuel with
  | O => candidate
  | S fuel =>
      if exists_ candidate then
        let candidate := path_in dir (numbered stem ext n) in
        if 9999 <? n + 1 then candidate
        else disambiguate fuel exists_ dir stem ext candidate (n + 1)
      else candidate
  end.

Definition non_clobbering (exists_ : list byte -> bool) (dir leaf : list byte) : list byte :=
  let (stem, ext) := stem_ext leaf in
  disambiguate 10000 exists_ dir stem ext (path_in dir leaf) 1.

(** [create_unique]: the names a generator gives, tried eight times; [denied] are the paths
    the system refuses to create. *)
Fixpoint create_unique (tries : nat) (denied : list byte -> bool) (fs : Fs) (dir ext : list byte)
    (random_hex : nat -> list byte) : option (list byte * Fs) :=
  match tries with
  | O => None
  | S k =>
      let path := dir ++ str "/" ++ random_hex k ++ str "." ++ ext in
      match fs !! path with
      | Some _ => create_unique k denied fs dir ext random_hex
      | None => if denied path then None else Some (path, <[path := []]> fs)
      end
  end.

(** Leaf names waiting to be collected: [read_dir] gives what is directly in the directory. *)
Definition leaf_of (path : list byte) : list byte := last_part slash path.
Fixpoint le_bytes (s t : list byte) : bool :=
  match s, t with
  | [], _ => true
  | _ :: _, [] => false
  | a :: s, b :: t => if u8 a =? u8 b then le_bytes s t else u8 a <? u8 b
  end.
Definition in_order (s t : list byte) : Prop := le_bytes s t = true.
#[export] Instance in_order_dec s t : Decision (in_order s t).
Proof. unfold in_order. apply _. Defined.
Definition received_files (fs : Fs) : list (list byte) :=
  let here := filter (fun p => p = path_in INBOX (leaf_of p)) (map_to_list fs).*1 in
  merge_sort in_order
    (filter (fun n => ends_with n (str ".cpio") = false) (from_utf8_lossy ∘ leaf_of <$> here)).

(** [open_received] and [delete_received]. *)
Definition open_received (fs : Fs) (name : list byte) : option (list byte) :=
  let^ p := inbox_path name in fs !! p.
Definition delete_received (fs : Fs) (name : list byte) : option Fs :=
  let^ p := inbox_path name in let^ _ := fs !! p in Some (delete p fs).

(** ** Unpacking *)

(** What the archive reader returns for a member: its header, the bytes its data gives before
    it ends or fails, whether reading them fails, and whether skipping to the next one does. *)
Record Member : Type := mkMember {
  m_name : list byte;
  m_size : Z;
  m_dir : bool;
  m_data : list byte;
  m_read_fails : bool;
  m_finish_fails : bool
}.

(** [None]: the next header could not be read. *)
Definition Archive : Type := list (option Member).

Inductive ExtractError : Type := EArchive | ETooMany | ETooLarge | ECreate | ERead | ETruncated.

(** [io::copy] of at most [size] bytes: what is written, and whether it failed. *)
Definition copied (m : Member) : list byte * bool :=
  let data := take (Z.to_nat (m_size m)) (m_data m) in
  (data, m_read_fails m && (len (m_data m) <? m_size m)).

(** The loop of [extract]; [denied] are the paths the system refuses to create. *)
Fixpoint extract_loop (denied : list byte -> bool) (a : Archive) (fs : Fs) (total members : Z)
    (names : list (list byte)) : result (list (list byte)) ExtractError * Fs :=
  match a with
  | [] => (Ok names, fs)
  | None :: _ => (Err EArchive, fs)
  | Some m :: a =>
      match safe_leaf (m_name m) with
      | Some leaf =>
          if starts_with leaf (str "._") || m_dir m || (m_size m =? 0) then
            if m_finish_fails m then (Err EArchive, fs) else extract_loop denied a fs total members names
          else
            let members := members + 1 in
            if MAX_MEMBERS <? members then (Err ETooMany, fs)
            else if Z.max 0 (MAX_EXTRACTED_BYTES - total) <? m_size m then (Err ETooLarge, fs)
            else
              let dest := non_clobbering (fun p => bool_decide (is_Some (fs !! p))) INBOX leaf in
              if bool_decide (is_Some (fs !! dest)) || denied dest then (Err ECreate, fs)
              else
                let (data, failed) := copied m in
                let fs' := <[dest := data]> fs in
                if failed then (Err ERead, fs')
                else if negb (len data =? m_size m) then (Err ETruncated, delete dest fs')
                else if m_finish_fails m then (Err EArchive, fs')
                else extract_loop denied a fs' (total + len data) members (names ++ [leaf_of dest])
      | None =>
          if m_finish_fails m then (Err EArchive, fs) else extract_loop denied a fs total members names
      end
  end.

Definition extract (denied : list byte -> bool) (a : Archive) (fs : Fs)
    : result (list (list byte)) ExtractError * Fs :=
  extract_loop denied a fs 0 0 [].

(** ** Lemmas *)

(** *** Safe names *)

Record good_leaf (leaf : list byte) : Prop := mkGood {
  gl_not_empty : leaf <> [];
  gl_not_dot : leaf <> str ".";
  gl_not_dots : leaf <> str "..";
  gl_no_separator : Forall (fun b => slash_or_backslash b = false) leaf;
  gl_shown : display_safe leaf = true;
  gl_text : valid leaf = true
}.

Lemma separators_ascii b : slash_or_backslash b = true -> u8 b < 0x80.
Proof. unfold slash_or_backslash, slash. lia. Qed.

Lemma safe_leaf_good name leaf : valid name = true -> safe_leaf name = Some leaf -> good_leaf leaf.
Proof.
  intros Hv. unfold safe_leaf. set (l := last_part _ _).
  assert (Hl : valid l = true) by (by apply last_part_valid; [apply separators_ascii|]).
  destruct (is_empty (trim l)) eqn:He; [done|]. do 2 (case_bool_decide; [done|]). cbn [orb].
  destruct (display_safe (trim l)) eqn:Hd; [|done]. intros [= <-]. split; try done.
  - by intros Hn; rewrite Hn in He.
  - apply Forall_forall. intros b Hb. apply trim_elem in Hb; [|done].
    pose proof (last_part_clean slash_or_backslash name) as Hc. rewrite forallb_forall in Hc.
    specialize (Hc b). rewrite <- list_elem_of_In in Hc. specialize (Hc Hb).
    by destruct (slash_or_backslash b).
  - by apply trim_spec.
Qed.

Lemma display_safe_app a b :
  valid a = true -> display_safe (a ++ b) = display_safe a && display_safe b.
Proof.
  intros Hv. unfold display_safe. by rewrite chars_app, existsb_app, negb_orb by done.
Qed.

(** Printable ASCII. *)
Definition plain (b : byte) : Prop := 0x20 <= u8 b < 0x7F /\ slash_or_backslash b = false.

Lemma plain_text s : Forall plain s ->
  valid s = true /\ display_safe s = true /\ Forall (fun b => slash_or_backslash b = false) s.
Proof.
  intros Hs. destruct (ascii_chars s) as [Hv Hc].
  { eapply Forall_impl; [exact Hs|]. intros b [? _]. lia. }
  split_and!; [done| |by eapply Forall_impl; [exact Hs|intros b [_ ?]]].
  unfold display_safe. rewrite Hc. clear Hv Hc. induction Hs as [|b s [Hb _] _ IH]; [done|].
  cbn [fmap list_fmap existsb]. apply negb_true_iff in IH. rewrite IH, orb_false_r.
  unfold is_control, directional, between. apply negb_true_iff. lia.
Qed.

Lemma show_plain n : Forall plain (show n).
Proof.
  unfold show, show_radix. assert (H : forall k n acc, Forall plain acc -> Forall plain (show_go k 10 n acc)).
  2: by apply H.
  clear n. induction k as [|k IH]; intros n acc Hacc; [done|]. cbn [show_go].
  assert (Hd : Forall plain (digit_char (n mod 10) :: acc)).
  { constructor; [|done]. pose proof (Z.mod_pos_bound n 10 ltac:(lia)).
    unfold plain, slash_or_backslash, slash, digit_char. rewrite (proj2 (Z.ltb_lt _ 10)) by lia.
    rewrite u8_to_u8_small by lia. lia. }
  destruct (n / 10 =? 0); [done|by apply IH].
Qed.

Lemma stem_ext_spec leaf :
  valid leaf = true ->
  leaf = (stem_ext leaf).1 ++ (stem_ext leaf).2 /\
  valid (stem_ext leaf).1 = true /\ valid (stem_ext leaf).2 = true.
Proof.
  intros Hv. unfold stem_ext. destruct (rsplit_once _ leaf) as [[s e]|] eqn:Hs.
  2:{ cbn. by rewrite app_nil_r. }
  apply rsplit_once_Some in Hs. destruct (is_empty s); cbn [fst snd]; [by rewrite app_nil_r|].
  split; [done|]. rewrite Hs in Hv. assert (Hdot : u8 (to_u8 46) < 0x80) by done. split.
  - by eapply valid_before.
  - apply valid_app; [done|]. by eapply valid_after.
Qed.

Lemma numbered_good leaf n :
  good_leaf leaf -> good_leaf (numbered (stem_ext leaf).1 (stem_ext leaf).2 n).
Proof.
  intros [_ _ _ Hsep Hshown Hv]. destruct (stem_ext_spec leaf Hv) as (Hl & Hvs & Hve).
  set (stem := (stem_ext leaf).1) in *. set (ext := (stem_ext leaf).2) in *.
  rewrite Hl in Hsep, Hshown. apply Forall_app in Hsep as [Hss Hse].
  rewrite display_safe_app in Hshown by done. apply andb_true_iff in Hshown as [Hds Hde].
  assert (Hmid : Forall plain (str " (" ++ show n ++ str ")")).
  { apply Forall_app. split; [by repeat constructor|]. apply Forall_app. split; [apply show_plain|].
    by repeat constructor. }
  destruct (plain_text _ Hmid) as (Hvm & Hdm & Hsm).
  assert (Heq : numbered stem ext n = stem ++ (str " (" ++ show n ++ str ")") ++ ext).
  { unfold numbered. by rewrite <- !app_assoc. }
  assert (Hpar : to_u8 40 ∈ numbered stem ext n).
  { rewrite Heq. apply elem_of_app. right. apply elem_of_app. left. apply elem_of_app. left.
    right. left. }
  split.
  - intros Hn. rewrite Hn, list_elem_of_In in Hpar. by destruct Hpar.
  - intros Hn. rewrite Hn, list_elem_of_In in Hpar. vm_compute in Hpar. by intuition discriminate.
  - intros Hn. rewrite Hn, list_elem_of_In in Hpar. vm_compute in Hpar. by intuition discriminate.
  - rewrite Heq. apply Forall_app; split; [done|]. by apply Forall_app.
  - rewrite Heq, display_safe_app, (display_safe_app (str " (" ++ _)) by done.
    by rewrite Hds, Hdm, Hde.
  - rewrite Heq. apply valid_app; [done|]. by apply valid_app.
Qed.

(** *** Choosing a name *)

Lemma disambiguate_spec fuel ex dir leaf candidate n :
  good_leaf leaf -> (exists l, candidate = path_in dir l /\ good_leaf l) ->
  exists l, disambiguate fuel ex dir (stem_ext leaf).1 (stem_ext leaf).2 candidate n = path_in dir l /\
            good_leaf l.
Proof.
  intros Hg. revert candidate n. induction fuel as [|fuel IH]; intros c n Hc; cbn [disambiguate]; [done|].
  destruct (ex c); [|done].
  assert (Hn : exists l, path_in dir (numbered (stem_ext leaf).1 (stem_ext leaf).2 n) = path_in dir l /\
                         good_leaf l).
  { eexists. split; [done|]. by apply numbered_good. }
  destruct (9999 <? n + 1); [done|by apply IH].
Qed.

Lemma non_clobbering_good ex dir leaf :
  good_leaf leaf -> exists l, non_clobbering ex dir leaf = path_in dir l /\ good_leaf l.
Proof.
  intros Hg. unfold non_clobbering. pose proof (disambiguate_spec 10000 ex dir leaf) as H.
  destruct (stem_ext leaf) as [stem ext]. apply H; [done|]. by exists leaf.
Qed.

(** *** Unpacking *)

Definition add_all (new : list (list byte * list byte)) (fs : Fs) : Fs :=
  foldl (fun fs pd => <[pd.1 := pd.2]> fs) fs new.

Definition sizes (new : list (list byte * list byte)) : Z :=
  foldr (fun pd n => len pd.2 + n) 0 new.

Lemma add_all_snoc new p d fs : add_all (new ++ [(p, d)]) fs = <[p := d]> (add_all new fs).
Proof. unfold add_all. by rewrite foldl_app. Qed.

Lemma sizes_snoc new p d : sizes (new ++ [(p, d)]) = sizes new + len d.
Proof. unfold sizes. induction new as [|x new IH]; cbn in *; lia. Qed.

Lemma sizes_nonneg new : 0 <= sizes new.
Proof. induction new as [|x new IH]; cbn; [lia|]. pose proof (len_nonneg x.2). unfold sizes in IH. lia. Qed.

Lemma add_all_lookup new fs p :
  p ∉ new.*1 -> add_all new fs !! p = fs !! p.
Proof.
  induction new as [|[q d] new IH] using rev_ind; [done|].
  rewrite fmap_app, not_elem_of_app, add_all_snoc. intros [Hn Hq].
  rewrite lookup_insert_ne; [by apply IH|]. intros ->. apply Hq. left.
Qed.

Lemma add_all_none new fs p : add_all new fs !! p = None -> p ∉ new.*1 /\ fs !! p = None.
Proof.
  induction new as [|[q d] new IH] using rev_ind; [by split; [apply not_elem_of_nil|]|].
  rewrite add_all_snoc. intros Hp. destruct (decide (q = p)) as [->|Hne].
  - by rewrite lookup_insert_eq in Hp.
  - rewrite lookup_insert_ne in Hp by done. destruct (IH Hp) as [Hn Hf]. split; [|done].
    rewrite fmap_app, not_elem_of_app. split; [done|]. by intros ->%list_elem_of_singleton.
Qed.

(** The files [new] are all that was added: new names in the directory, within the limits. *)
Record added (fs : Fs) (new : list (list byte * list byte)) : Prop := mkAdded {
  ad_names : Forall (fun pd => (exists leaf, pd.1 = path_in INBOX leaf /\ good_leaf leaf) /\
                               fs !! pd.1 = None) new;
  ad_distinct : NoDup new.*1;
  ad_members : len new <= MAX_MEMBERS;
  ad_sizes : sizes new <= MAX_EXTRACTED_BYTES
}.

Lemma added_snoc fs new leaf p d :
  added fs new -> p = path_in INBOX leaf -> good_leaf leaf -> add_all new fs !! p = None ->
  len new + 1 <= MAX_MEMBERS -> sizes new + len d <= MAX_EXTRACTED_BYTES ->
  added fs (new ++ [(p, d)]).
Proof.
  intros [Hn Hd Hm Hs] Hp Hg Hnone Hm' Hs'. apply add_all_none in Hnone as [Hin Hfs]. split.
  - apply Forall_app. split; [done|]. constructor; [|constructor]. split; [by exists leaf|done].
  - rewrite fmap_app. apply NoDup_app. split_and!; [done| |apply NoDup_singleton].
    by intros x Hx ->%list_elem_of_singleton.
  - rewrite len_app. by change (len [(p, d)]) with 1.
  - by rewrite sizes_snoc.
Qed.

(** What a member's header can be: the crate gives its name as text and its size unsigned. *)
Definition header_ok (m : option Member) : Prop :=
  match m with Some m => valid (m_name m) = true /\ 0 <= m_size m | None => True end.

(** What is true of the directory and the names when unpacking stops. *)
Definition unpacked (fs : Fs) (r : result (list (list byte)) ExtractError * Fs) : Prop :=
  exists new, r.2 = add_all new fs /\ added fs new /\
    (forall ns, r.1 = Ok ns -> ns = leaf_of <$> new.*1).

Lemma unpacked_err fs new e : added fs new -> unpacked fs (Err e, add_all new fs).
Proof. intros Had. exists new. by split_and!. Qed.

Lemma extract_loop_spec denied a fs new names :
  Forall header_ok a -> added fs new -> names = leaf_of <$> new.*1 ->
  unpacked fs (extract_loop denied a (add_all new fs) (sizes new) (len new) names).
Proof.
  intros Ha. revert new names. induction Ha as [|m a Hm _ IH]; intros new names Had Hnames; cbn [extract_loop].
  { exists new. split_and!; [done|done|]. by intros ns [= <-]. }
  assert (Hsame : forall e, unpacked fs (Err e, add_all new fs)) by (by intros; apply unpacked_err).
  destruct m as [m|]; [|by apply Hsame]. destruct Hm as [Hv Hsz].
  destruct (safe_leaf (m_name m)) as [leaf|] eqn:Hl.
  2:{ destruct (m_finish_fails m); [by apply Hsame|by apply IH]. }
  apply safe_leaf_good in Hl; [|done].
  destruct (_ || (m_size m =? 0)); [destruct (m_finish_fails m); [by apply Hsame|by apply IH]|].
  destruct (Z.ltb_spec MAX_MEMBERS (len new + 1)); [by apply Hsame|].
  destruct (Z.ltb_spec (Z.max 0 (MAX_EXTRACTED_BYTES - sizes new)) (m_size m)); [by apply Hsame|].
  set (dest := non_clobbering _ _ _).
  destruct (non_clobbering_good (fun p => bool_decide (is_Some (add_all new fs !! p))) INBOX leaf Hl)
    as (l & Hdest & Hg). fold dest in Hdest.
  case_bool_decide as Hex; [by apply Hsame|]. cbn [orb].
  destruct (denied dest); [by apply Hsame|].
  assert (Hnone : add_all new fs !! dest = None).
  { destruct (add_all new fs !! dest) eqn:Hd; [|done]. exfalso. apply Hex. by eexists. }
  unfold copied. set (data := take _ _). pose proof (ad_sizes _ _ Had).
  assert (Hdata : len data <= m_size m) by (unfold data; rewrite len_take; lia).
  assert (Hnew : added fs (new ++ [(dest, data)])).
  { eapply added_snoc; try done. lia. }
  destruct (_ && _).
  { rewrite <- add_all_snoc. by apply unpacked_err. }
  destruct (negb _).
  { rewrite delete_insert_id by done. by apply Hsame. }
  destruct (m_finish_fails m).
  { rewrite <- add_all_snoc. by apply unpacked_err. }
  specialize (IH (new ++ [(dest, data)]) (names ++ [leaf_of dest]) Hnew).
  rewrite add_all_snoc, sizes_snoc, len_app in IH. change (len [(dest, data)]) with 1 in IH.
  apply IH. rewrite Hnames, !fmap_app. done.
Qed.

(** *** Files that are stored under their own names *)

Lemma disambiguate_free fuel ex dir stem ext candidate n :
  ex candidate = false -> disambiguate fuel ex dir stem ext candidate n = candidate.
Proof. intros He. destruct fuel as [|fuel]; [done|]. cbn [disambiguate]. by rewrite He. Qed.

Lemma non_clobbering_free ex dir leaf : ex (path_in dir leaf) = false -> non_clobbering ex dir leaf = path_in dir leaf.
Proof. intros He. unfold non_clobbering. destruct (stem_ext leaf). by apply disambiguate_free. Qed.

Lemma last_part_none p s : Forall (fun b => p b = false) s -> last_part p s = s.
Proof.
  induction 1 as [|b s Hb Hs _]; [done|]. cbn [last_part]. rewrite Hb.
  replace (existsb p s) with false; [done|]. symmetry. induction Hs as [|c s Hc _ IH]; [done|]. cbn. by rewrite Hc, IH.
Qed.

Lemma last_part_app p a x b : p x = true -> last_part p (a ++ x :: b) = last_part p (x :: b).
Proof.
  intros Hx. induction a as [|c a IH]; [done|]. cbn [app]. cbn [last_part].
  replace (existsb p (a ++ x :: b)) with true; [exact IH|]. symmetry. apply existsb_exists.
  exists x. split; [|done]. apply in_or_app. right. by left.
Qed.

Lemma last_part_sep p x b : p x = true -> Forall (fun c => p c = false) b -> last_part p (x :: b) = b.
Proof.
  intros Hx Hb. cbn [last_part]. rewrite Hx. replace (existsb p b) with false; [done|].
  symmetry. induction Hb as [|c b Hc _ IH]; [done|]. cbn. by rewrite Hc, IH.
Qed.

(** A name that unpacking keeps: [./name] in the archive is [name] in the directory. *)
Record storable (n : list byte) : Prop := mkStorable {
  sb_safe : safe_leaf (str "./" ++ n) = Some n;
  sb_shown : starts_with n (str "._") = false;
  sb_leaf : Forall (fun b => slash b = false) n
}.

Lemma leaf_of_path dir n : Forall (fun b => slash b = false) n -> leaf_of (path_in dir n) = n.
Proof.
  intros Hn. unfold leaf_of, path_in. change (str "/" ++ n) with (to_u8 47 :: n).
  rewrite last_part_app by done. by apply last_part_sep.
Qed.

(** The member an archive has for a file. *)
Definition member_of (f : list byte * list byte) : option Member :=
  Some (mkMember (str "./" ++ f.1) (len f.2) false f.2 false false).
Definition placed (f : list byte * list byte) : list byte * list byte := (path_in INBOX f.1, f.2).

Definition new_file (denied : list byte -> bool) (fs : Fs) (f : list byte * list byte) : Prop :=
  storable f.1 /\ f.2 <> [] /\ denied (path_in INBOX f.1) = false /\ fs !! path_in INBOX f.1 = None.

Lemma path_in_inj dir a b : path_in dir a = path_in dir b -> a = b.
Proof. unfold path_in. by intros ?%app_inv_head%app_inv_head. Qed.

Lemma extract_loop_new denied files fs total members names :
  Forall (new_file denied fs) files -> NoDup files.*1 -> 0 <= total ->
  members + len files <= MAX_MEMBERS -> total + sizes files <= MAX_EXTRACTED_BYTES ->
  extract_loop denied (member_of <$> files) fs total members names
  = (Ok (names ++ files.*1), add_all (placed <$> files) fs).
Proof.
  revert fs total members names. induction files as [|f files IH]; intros fs total members names Hf Hd Ht Hm Hs.
  { cbn. by rewrite app_nil_r. }
  apply Forall_cons in Hf as [([Hsafe Hsh Hleaf] & Hne & Hden & Hfree) Hf]. rewrite fmap_cons in Hd.
  apply NoDup_cons in Hd as [Hnin Hd]. rewrite fmap_cons. cbn [extract_loop member_of m_name m_dir m_size m_finish_fails].
  rewrite Hsafe, Hsh. cbn [orb]. pose proof (len_nonneg f.2). pose proof (len_nonneg files). pose proof (sizes_nonneg files).
  change (sizes (f :: files)) with (len f.2 + sizes files) in Hs. rewrite len_cons in Hm.
  assert (len f.2 <> 0) by (by intros ?%len_0_nil).
  rewrite (proj2 (Z.eqb_neq (len f.2) 0)) by done.
  rewrite (proj2 (Z.ltb_ge MAX_MEMBERS (members + 1))), (proj2 (Z.ltb_ge (Z.max 0 (MAX_EXTRACTED_BYTES - total)) _)) by lia.
  assert (Hno : bool_decide (is_Some (fs !! path_in INBOX f.1)) = false).
  { apply bool_decide_eq_false. rewrite Hfree. by intros [? ?]. }
  rewrite non_clobbering_free by done. rewrite Hno, Hden. cbn [orb].
  assert (Hall : take (Z.to_nat (len f.2)) f.2 = f.2) by (rewrite len_nat, Nat2Z.id; apply firstn_all).
  unfold copied. cbn [m_data m_size m_read_fails andb]. rewrite Hall, Z.eqb_refl. cbn [negb]. rewrite leaf_of_path by done.
  rewrite IH; [|..|done|lia|lia|lia].
  - rewrite <- app_assoc. done.
  - rewrite Forall_forall in Hf |- *. intros g Hg. destruct (Hf g Hg) as (Hsg & Hneg & Hdg & Hfg).
    split_and!; [done|done|done|].
    rewrite lookup_insert_ne; [done|]. intros Heq%path_in_inj. apply Hnin. rewrite Heq. by apply list_elem_of_fmap_2.
Qed.

(** ** Properties *)

(** C12: an archive cannot reach out of the inbox.  Whatever names, sizes and data an archive
    has and whatever is in the directory before, unpacking it changes and removes no file; every
    file it adds is directly in the inbox, under a name without separators that is not a
    directory's and displays as what it is; there are at most 1024 of them and at most 8 GiB in
    all, also when it fails; and on success the names reported are exactly those added. *)
Theorem extract_stays_in_the_inbox denied a fs :
  Forall header_ok a ->
  exists new, (extract denied a fs).2 = add_all new fs /\ added fs new /\
    (forall p, is_Some (fs !! p) -> (extract denied a fs).2 !! p = fs !! p) /\
    (forall names, (extract denied a fs).1 = Ok names -> names = leaf_of <$> new.*1).
Proof.
  intros Ha. destruct (extract_loop_spec denied a fs [] [] Ha) as (new & Hfs & Had & Hok); [|done|].
  { split; [constructor|constructor|done|done]. }
  exists new. unfold extract. change (sizes []) with 0 in *. change (len (@nil (list byte * list byte))) with 0 in *.
  split_and!; [done|done| |done]. intros p Hp. change (add_all [] fs) with fs in Hfs. rewrite Hfs.
  apply add_all_lookup. intros Hin. apply list_elem_of_fmap in Hin as ([q d] & -> & Hin).
  destruct Had as [Hn _ _ _]. rewrite Forall_forall in Hn. destruct (Hn _ Hin) as [_ Hnone].
  rewrite Hnone in Hp. by apply is_Some_None in Hp.
Qed.

Lemma extract_stays_in_the_inbox_witness :
  exists new, (extract (fun _ => false)
                 [Some (mkMember (str "../../evil/a.txt") 2 false (str "hi") false false)] ∅).2
              = add_all new ∅ /\ added ∅ new.
Proof.
  destruct (extract_stays_in_the_inbox (fun _ => false)
              [Some (mkMember (str "../../evil/a.txt") 2 false (str "hi") false false)] ∅)
    as (new & Hfs & Had & _).
  - constructor; [|constructor]. split; [vm_compute; reflexivity|vm_compute; congruence].
  - exists new. split; [exact Hfs|exact Had].
Defined.

(** An archive whose data fails part-way leaves the part that was read behind: the error is
    returned before the length is compared, and the part is listed as a received file. *)
Example partial_file_is_kept :
  let (r, fs) := extract (fun _ => false)
                   [Some (mkMember (str "photo.jpg") 100 false (str "half") true false)] ∅ in
  r = Err ERead /\ received_files fs = [str "photo.jpg"] /\
  open_received fs (str "photo.jpg") = Some (str "half").
Proof. vm_compute. by split_and!. Qed.

(** A file that arrives under a name ending in [.cpio] is stored and announced, but never
    listed and never handed out. *)
Example cpio_file_cannot_be_collected :
  let (r, fs) := extract (fun _ => false)
                   [Some (mkMember (str "backup.cpio") 2 false (str "ok") false false)] ∅ in
  r = Ok [str "backup.cpio"] /\ fs !! path_in INBOX (str "backup.cpio") = Some (str "ok") /\
  received_files fs = [] /\ open_received fs (str "backup.cpio") = None.
Proof. vm_compute. by split_and!. Qed.
