(* ===== verification/Http.v ===== *)
(** * HTTP on the wire ([sharingd/src/httpd.rs])

    Heads, bodies and chunks as the AirDrop server reads them, over a source that gives its
    bytes in pieces of any length, and the responses it writes.  The theorem here bounds what a
    peer can make it buffer; [Send] shows that it reads what the sender writes. *)

From S2P Require Import Prelude Utf8 Utf16 Text.
#[local] Open Scope rust_scope.

Definition MAX_HEAD : Z := 16 * 1024.
Definition MAX_BODY : Z := 8 * 1024 * 1024.
Definition MAX_UPLOAD_BYTES : Z := 8 * 1024 * 1024 * 1024.

(** ** Sources *)

(** What the reads of a connection give, in order; after the last it has ended. *)
Inductive Read : Type :=
| Data (b : list byte)
| Failed.

(** [s.read(&mut buf)] with a buffer of [cap] bytes: [None] is an error, no bytes the end. *)
Definition read (cap : Z) (r : list Read) : option (list byte) * list Read :=
  match r with
  | [] => (Some [], [])
  | Failed :: r => (None, r)
  | Data b :: r =>
      if len b <=? cap then (Some b, r)
      else (Some (take (Z.to_nat cap) b), Data (drop (Z.to_nat cap) b) :: r)
  end.

(** A bound on the reads a source answers; the fuel of the loops that have no other bound. *)
Definition source_len (r : list Read) : nat :=
  foldr (fun x n => match x with Data b => S (length b) + n | Failed => S n end)%nat 0%nat r.

(** ** Heads *)

Definition CRLF : list byte := [CR; LF].

Inductive IoError : Type := InvalidData | ConnectionAborted | Interrupted | OsError.

Fixpoint read_head_loop (n : nat) (buf : list byte) (r : list Read)
    : result (list byte) IoError * list Read :=
  match n with
  | O => (Err InvalidData, r)
  | S n =>
      match read 1 r with
      | (None, r) => (Err OsError, r)
      | (Some [], r) => (Err InvalidData, r)
      | (Some (b :: _), r) =>
          let buf := buf ++ [b] in
          if ends_with buf (CRLF ++ CRLF) then (Ok (from_utf8_lossy buf), r)
          else read_head_loop n buf r
      end
  end.
Definition read_head (r : list Read) : result (list byte) IoError * list Read :=
  read_head_loop (Z.to_nat MAX_HEAD) [] r.

Definition COLON : byte := to_u8 58.

(** What the closure of [find_map] gives for a line. *)
Definition header_line (name line : list byte) : option (list byte) :=
  let^ (k, v) := split_once COLON line in
  if eq_ignore_ascii_case (trim k) name then Some (trim v) else None.

Fixpoint find_map {A B} (f : A -> option B) (l : list A) : option B :=
  match l with
  | [] => None
  | x :: l => match f x with Some y => Some y | None => find_map f l end
  end.

Definition header (head name : list byte) : option (list byte) :=
  find_map (header_line name) (lines head).

(** [v.parse::<u64>()], and [usize], which is as wide. *)
Definition parse_u64 (v : list byte) : option Z := parse_radix 10 u64_max v.

Definition is_chunked (head : list byte) : bool :=
  match header head (str "transfer-encoding") with
  | Some v => contains (to_ascii_lowercase v) (str "chunked")
  | None => false
  end.

Definition content_length (head : list byte) : option Z :=
  let^ v := header head (str "content-length") in parse_u64 v.

(** ** Bodies *)

Fixpoint read_exact_loop (fuel : nat) (want : Z) (got : list byte) (r : list Read)
    : list byte * list Read :=
  match fuel with
  | O => (got, r)
  | S fuel =>
      if want <=? len got then (got, r)
      else
        match read (want - len got) r with
        | (None, r) => (got, r)
        | (Some b, r) => if is_empty b then (got, r) else read_exact_loop fuel want (got ++ b) r
        end
  end.

Definition read_exact_bounded (want : Z) (r : list Read) : list byte * list Read :=
  if want =? 0 then ([], r) else read_exact_loop (S (source_len r)) want [] r.

Fixpoint pop_crs (l : list byte) : list byte :=
  match l with
  | [] => []
  | b :: l => if bool_decide (b = CR) then pop_crs l else b :: l
  end.

Fixpoint read_line_loop (n : nat) (buf : list byte) (r : list Read)
    : option (list byte) * list Read :=
  match n with
  | O => (None, r)
  | S n =>
      match read 1 r with
      | (None, r) | (Some [], r) => (None, r)
      | (Some (b :: _), r) =>
          if bool_decide (b = LF) then (Some (from_utf8_lossy (rev (pop_crs (rev buf)))), r)
          else read_line_loop n (buf ++ [b]) r
      end
  end.
Definition read_line (r : list Read) : option (list byte) * list Read := read_line_loop 256 [] r.

(** [while let Some(l) = read_line(s)]: trailers, until a blank line. *)
Fixpoint skip_trailers (fuel : nat) (r : list Read) : list Read :=
  match fuel with
  | O => r
  | S fuel =>
      match read_line r with
      | (None, r) => r
      | (Some l, r) => if is_empty l then r else skip_trailers fuel r
      end
  end.

Definition semicolon (b : byte) : bool := u8 b =? 59.

(** [usize::from_str_radix(line.split(';').next().unwrap_or("").trim(), 16)]. *)
Definition chunk_size (line : list byte) : option Z :=
  parse_radix 16 usize_max (trim (first_part semicolon line)).

(** The arithmetic of a chunk's size overflows: in a build with overflow checks the sum, and in
    one without them the buffer of more than [isize::MAX] bytes, which is allocated because the
    sum wraps to a small number. *)
Inductive Panic : Type := Overflow.

(** [read_chunked]: the body, and whether it was refused for its size. *)
Fixpoint read_chunked_loop (fuel : nat) (out : list byte) (r : list Read)
    : result (list byte * bool) Panic * list Read :=
  match fuel with
  | O => (Ok (out, false), r)
  | S fuel =>
      match read_line r with
      | (None, r) => (Ok (out, false), r)
      | (Some line, r) =>
          match chunk_size line with
          | None => (Ok (out, false), r)
          | Some size =>
              if size =? 0 then (Ok (out, false), skip_trailers (S (source_len r)) r)
              else if usize_max <? len out + size then (Err Overflow, r)
              else if MAX_BODY <? len out + size then (Ok (out, true), r)
              else
                let (chunk, r) := read_exact_bounded size r in
                let out := out ++ chunk in
                if len chunk <? size then (Ok (out, false), r)
                else let (_, r) := read_line r in read_chunked_loop fuel out r
          end
      end
  end.
Definition read_chunked (r : list Read) : result (list byte * bool) Panic * list Read :=
  read_chunked_loop (S (source_len r)) [] r.

Definition read_body (r : list Read) (head : list byte) : result (list byte * bool) Panic * list Read :=
  if is_chunked head then read_chunked r
  else
    let declared := unwrap_or (content_length head) 0 in
    if MAX_BODY <? declared then (Ok ([], true), r)
    else let (b, r) := read_exact_bounded declared r in (Ok (b, false), r).

(** [drain]: at most eight reads. *)
Fixpoint drain_loop (n : nat) (r : list Read) : list Read :=
  match n with
  | O => r
  | S n =>
      match read 2048 r with
      | (None, r) | (Some [], r) => r
      | (Some _, r) => drain_loop n r
      end
  end.
Definition drain (r : list Read) : list Read := drain_loop 8 r.

(** ** Responses *)

Definition reason (status : Z) : list byte :=
  if status =? 200 then str "OK" else if status =? 413 then str "Payload Too Large" else str "Unauthorized".

(** What [respond] writes: the head, and a body that is not empty. *)
Definition response_head (status : Z) (body : list byte) (keep_alive : bool) : list byte :=
  str "HTTP/1.1 " ++ show status ++ str " " ++ reason status ++ CRLF
  ++ str "Connection: " ++ (if keep_alive then str "keep-alive" else str "close") ++ CRLF
  ++ str "Content-Length: " ++ show (len body) ++ CRLF
  ++ (if negb (is_empty body) then str "Content-Type: application/octet-stream" ++ CRLF else [])
  ++ CRLF.
Definition response (status : Z) (body : option (list byte)) (keep_alive : bool) : list byte :=
  let body := unwrap_or body [] in response_head status body keep_alive ++ body.

(** ** Streaming an upload *)

Section Upload.
(** The archive being written, the clients told of the progress and the flag of a cancel. *)
Context {W : Type} (write_all : list byte -> W -> bool * W) (flush : W -> bool * W)
  (on_progress : Z -> W -> W) (cancelled : W -> bool * W).

Record Upload : Type := mkUpload { up : W; sniff : list byte; total : Z }.

(** How a loop ends: the value of the function, an error of it, or its last statement. *)
Inductive Streamed : Type := Finished | Stopped | Failure (e : IoError).

(** A read's bytes go to the archive; [room] is what the loop may still take. *)
Definition store (b : list byte) (u : Upload) : bool * Upload :=
  let s := if len (sniff u) <? 16 then sniff u ++ take (16 - length (sniff u)) b else sniff u in
  let (ok, w) := write_all b (up u) in
  (ok, mkUpload w s (if ok then total u + len b else total u)).

Definition told (u : Upload) : bool * Upload :=
  let w := on_progress (total u) (up u) in
  let (c, w) := cancelled w in (c, mkUpload w (sniff u) (total u)).

(** [while left > 0], the data of one chunk. *)
Fixpoint stream_chunk (fuel : nat) (left_ : Z) (u : Upload) (r : list Read)
    : Streamed * Upload * list Read :=
  match fuel with
  | O => (Finished, u, r)
  | S fuel =>
      if left_ <=? 0 then (Finished, u, r)
      else
        match read (Z.min left_ 8192) r with
        | (None, r) => (Failure OsError, u, r)
        | (Some b, r) =>
            if is_empty b then (Failure ConnectionAborted, u, r)
            else
              let (ok, u) := store b u in
              if negb ok then (Failure OsError, u, r)
              else if MAX_UPLOAD_BYTES <? total u then (Failure InvalidData, u, r)
              else
                let (c, u) := told u in
                if c then (Stopped, u, r) else stream_chunk fuel (left_ - len b) u r
        end
  end.

Definition flushed (u : Upload) (r : list Read) : result Z IoError * Upload * list Read :=
  let (ok, w) := flush (up u) in
  let u := mkUpload w (sniff u) (total u) in
  (if ok then Ok (total u) else Err OsError, u, r).

Fixpoint stream_chunked_loop (fuel : nat) (u : Upload) (r : list Read)
    : result Z IoError * Upload * list Read :=
  match fuel with
  | O => flushed u r
  | S fuel =>
      match read_line r with
      | (None, r) => flushed u r
      | (Some line, r) =>
          match chunk_size line with
          | None => flushed u r
          | Some size =>
              if size =? 0 then flushed u (skip_trailers (S (source_len r)) r)
              else
                match stream_chunk (S (source_len r)) size u r with
                | (Failure e, u, r) => (Err e, u, r)
                | (Stopped, u, r) => (Ok (total u), u, r)
                | (Finished, u, r) => let (_, r) := read_line r in stream_chunked_loop fuel u r
                end
          end
      end
  end.
Definition stream_chunked (w : W) (r : list Read) : result Z IoError * Upload * list Read :=
  stream_chunked_loop (S (source_len r)) (mkUpload w [] 0) r.

(** [while total < len]. *)
Fixpoint stream_exact_loop (fuel : nat) (want : Z) (u : Upload) (r : list Read)
    : result Z IoError * Upload * list Read :=
  match fuel with
  | O => flushed u r
  | S fuel =>
      if want <=? total u then flushed u r
      else
        match read (Z.min (want - total u) 8192) r with
        | (None, r) => (Err OsError, u, r)
        | (Some b, r) =>
            if is_empty b then (Err ConnectionAborted, u, r)
            else
              let (ok, u) := store b u in
              if negb ok then (Err OsError, u, r)
              else
                let (c, u) := told u in
                if c then (Ok (total u), u, r) else stream_exact_loop fuel want u r
        end
  end.
Definition stream_exact (want : Z) (w : W) (r : list Read) : result Z IoError * Upload * list Read :=
  stream_exact_loop (S (source_len r)) want (mkUpload w [] 0) r.

End Upload.
Arguments Upload : clear implicits.

(** ** Lemmas *)

(** *** Sources *)

(** [r] gives the bytes [s], in pieces of any length, and then whatever [tail] gives. *)
Definition delivers (s : list byte) (tail r : list Read) : Prop :=
  exists ps, r = (Data <$> ps) ++ tail /\ mjoin ps = s /\ Forall (fun p => p <> []) ps.

Lemma source_len_data b r : source_len (Data b :: r) = (S (length b) + source_len r)%nat.
Proof. done. Qed.

Lemma delivers_len s tail r : delivers s tail r -> (length s <= source_len r)%nat.
Proof.
  intros (ps & -> & <- & _). induction ps as [|p ps IH]; [cbn; lia|].
  change (mjoin (p :: ps)) with (p ++ mjoin ps).
  change ((Data <$> p :: ps) ++ tail) with (Data p :: (Data <$> ps) ++ tail).
  rewrite length_app, source_len_data. lia.
Qed.

Lemma read_delivers cap s tail r :
  0 < cap -> s <> [] -> delivers s tail r ->
  exists a b r', read cap r = (Some a, r') /\ s = a ++ b /\ a <> [] /\ len a <= cap /\
                 delivers b tail r' /\ (source_len r' < source_len r)%nat.
Proof.
  intros Hcap Hs ([|p ps] & -> & <- & Hps); [done|]. apply Forall_cons in Hps as [Hp Hps].
  cbn [fmap list_fmap app mjoin list_join read]. destruct (Z.leb_spec (len p) cap) as [Hle|Hgt].
  - exists p, (mjoin ps), ((Data <$> ps) ++ tail). split_and!; [done|done|done|done|by exists ps|rewrite source_len_data; lia].
  - exists (take (Z.to_nat cap) p), (drop (Z.to_nat cap) p ++ mjoin ps),
      (Data (drop (Z.to_nat cap) p) :: (Data <$> ps) ++ tail).
    rewrite len_nat in Hgt. split_and!; [done| | | | |].
    + by rewrite app_assoc, take_drop.
    + intros H0. apply (f_equal length) in H0. rewrite length_take in H0. cbn in H0. lia.
    + rewrite len_take. lia.
    + exists (drop (Z.to_nat cap) p :: ps). split_and!; [done|done|]. constructor; [|done].
      intros H0. apply (f_equal length) in H0. rewrite length_drop in H0. cbn in H0. lia.
    + rewrite !source_len_data, length_drop. lia.
Qed.

Lemma read_shorter cap r : 0 < cap -> r <> [] -> (source_len (read cap r).2 < source_len r)%nat.
Proof.
  intros Hcap Hr. destruct r as [|[b|] r]; [done| |cbn; lia]. cbn [read].
  destruct (Z.leb_spec (len b) cap) as [|Hgt]; cbn [snd]; rewrite ?source_len_data; [lia|].
  rewrite len_nat in Hgt. rewrite length_drop. lia.
Qed.

(** A read for no more than [x] takes a part of it. *)
Lemma read_part cap x s tail r :
  0 < cap -> cap <= len x -> delivers (x ++ s) tail r ->
  exists a y r', read cap r = (Some a, r') /\ x = a ++ y /\ is_empty a = false /\ len a <= cap /\
                 delivers (y ++ s) tail r' /\ (source_len r' < source_len r)%nat.
Proof.
  intros Hcap Hx Hd. assert (Hxs : x ++ s <> []) by (destruct x; [rewrite len_nil in Hx; lia|done]).
  destruct (read_delivers cap _ _ _ Hcap Hxs Hd) as (a & b & r1 & Hr & Hab & Ha & Hla & Hd' & Hlt).
  assert (Hl : (length a <= length x)%nat) by (rewrite !len_nat in *; lia).
  assert (Htake : take (length a) x = a).
  { rewrite <- (take_app_le x s) by lia. by rewrite Hab, take_app_length. }
  exists a, (drop (length a) x), r1. split_and!; [done| |by destruct a|done| |done].
  - rewrite <- Htake at 1. by rewrite take_drop.
  - rewrite <- drop_app_le by lia. by rewrite Hab, drop_app_length.
Qed.

Lemma read_byte b s tail r :
  delivers (b :: s) tail r -> exists r', read 1 r = (Some [b], r') /\ delivers s tail r'.
Proof.
  intros Hd. destruct (read_delivers 1 (b :: s) tail r ltac:(lia) ltac:(done) Hd) as (x & y & r' & Hr & Hs & Hx & Hl & Hd' & _).
  destruct x as [|x [|? ?]]; [done| |rewrite len_nat in Hl; cbn [length] in Hl; lia].
  injection Hs as <- <-. by exists r'.
Qed.

(** *** Lines and bodies *)

Definition no_lf (l : list byte) : Prop := Forall (fun b => b <> LF) l.

Lemma read_line_loop_spec n buf l s tail r :
  no_lf l -> (length l < n)%nat -> delivers (l ++ LF :: s) tail r ->
  exists r', read_line_loop n buf r = (Some (from_utf8_lossy (rev (pop_crs (rev (buf ++ l))))), r') /\
             delivers s tail r'.
Proof.
  revert n buf r. induction l as [|b l IH]; intros [|n] buf r Hl Hn Hd; cbn [length] in Hn; try lia.
  - destruct (read_byte _ _ _ _ Hd) as (r' & Hr & Hd'). exists r'. cbn [read_line_loop].
    rewrite Hr, bool_decide_true by done. by rewrite app_nil_r.
  - destruct (read_byte _ _ _ _ Hd) as (r1 & Hr & Hd'). cbn [read_line_loop]. rewrite Hr.
    apply Forall_cons in Hl as [Hb Hl]. rewrite bool_decide_false by done.
    destruct (IH n (buf ++ [b]) r1 Hl ltac:(lia) Hd') as (r' & Hr' & Hd''). exists r'.
    rewrite Hr', <- app_assoc. done.
Qed.

(** A line of printable text. *)
Definition clean (l : list byte) : Prop := Forall (fun b => 0x20 <= u8 b < 0x7F) l.

Lemma clean_ne b : 0x20 <= u8 b < 0x7F -> b <> LF /\ b <> CR.
Proof. intros H. split; intros ->; vm_compute in H; intuition discriminate. Qed.

Lemma clean_text l : clean l -> from_utf8_lossy l = l /\ no_lf l /\ valid l = true.
Proof.
  intros Hl. assert (Hv : valid l = true).
  { apply ascii_chars. eapply Forall_impl; [exact Hl|]. cbv beta. intros b ?. lia. }
  split_and!; [by apply lossy_valid| |done]. eapply Forall_impl; [exact Hl|]. by intros b [? _]%clean_ne.
Qed.

Lemma pop_crs_clean l : clean l -> rev (pop_crs (rev (l ++ [CR]))) = l.
Proof.
  intros Hl. rewrite rev_app_distr. cbn [rev app pop_crs]. rewrite bool_decide_true by done.
  replace (pop_crs (rev l)) with (rev l); [apply rev_involutive|].
  apply Forall_rev in Hl. destruct Hl as [|b k Hb _]; [done|]. cbn [pop_crs].
  rewrite bool_decide_false; [done|]. by apply clean_ne.
Qed.

Lemma read_line_spec l s tail r :
  clean l -> (length l < 255)%nat -> delivers (l ++ CRLF ++ s) tail r ->
  exists r', read_line r = (Some l, r') /\ delivers s tail r'.
Proof.
  intros Hl Hn Hd. destruct (clean_text l Hl) as (Hlossy & Hlf & _).
  destruct (read_line_loop_spec 256 [] (l ++ [CR]) s tail r) as (r' & Hr & Hd').
  - apply Forall_app. split; [done|by repeat constructor].
  - rewrite length_app. cbn. lia.
  - unfold CRLF in Hd. rewrite <- app_assoc. exact Hd.
  - exists r'. unfold read_line. cbn [app] in Hr. rewrite Hr, pop_crs_clean by done. by rewrite Hlossy.
Qed.

Lemma read_exact_loop_spec fuel got x s tail r :
  (source_len r < fuel)%nat -> delivers (x ++ s) tail r ->
  exists r', read_exact_loop fuel (len got + len x) got r = (got ++ x, r') /\ delivers s tail r'.
Proof.
  revert got x r. induction fuel as [|fuel IH]; intros got x r Hf Hd; [lia|]. cbn [read_exact_loop].
  destruct (decide (x = [])) as [->|Hx].
  { exists r. rewrite len_nil, (proj2 (Z.leb_le _ _)), app_nil_r by lia. done. }
  pose proof (len_nonneg x). assert (0 < len x) by (destruct x; [done|]; rewrite len_cons in *; pose proof (len_nonneg x); lia).
  rewrite (proj2 (Z.leb_gt (len got + len x) _)) by lia. replace (len got + len x - len got) with (len x) by lia.
  destruct (read_part (len x) x s tail r) as (a & y & r1 & -> & -> & -> & _ & Hd' & Hlt); [done|done|done|].
  destruct (IH (got ++ a) y r1 ltac:(lia) Hd') as (r' & Hr' & Hd''). exists r'.
  rewrite !len_app in *. replace (len got + (len a + len y)) with (len got + len a + len y) by lia.
  by rewrite Hr', <- app_assoc.
Qed.

Lemma read_exact_spec x s tail r :
  delivers (x ++ s) tail r ->
  exists r', read_exact_bounded (len x) r = (x, r') /\ delivers s tail r'.
Proof.
  intros Hd. unfold read_exact_bounded. destruct (Z.eqb_spec (len x) 0) as [Hx|Hx].
  { apply len_0_nil in Hx as ->. by exists r. }
  destruct (read_exact_loop_spec (S (source_len r)) [] x s tail r ltac:(lia) Hd) as (r' & Hr & Hd').
  exists r'. by rewrite len_nil in Hr.
Qed.

Lemma read_exact_loop_len fuel want got r :
  len got <= want -> len (read_exact_loop fuel want got r).1 <= want.
Proof.
  revert got r. induction fuel as [|fuel IH]; intros got r Hg; cbn [read_exact_loop]; [done|].
  destruct (Z.leb_spec want (len got)); [done|]. destruct (read _ r) as [[b|] r'] eqn:Hr; [|done].
  destruct (is_empty b); [done|]. apply IH. rewrite len_app.
  assert (len b <= want - len got); [|lia]. unfold read in Hr.
  destruct r as [|[d|] r]; [|destruct (Z.leb_spec (len d) (want - len got))|done]; injection Hr as <- _;
    [rewrite len_nil; lia|done|rewrite len_take; lia].
Qed.

Lemma read_exact_bounded_len want r : 0 <= want -> len (read_exact_bounded want r).1 <= want.
Proof.
  intros Hw. unfold read_exact_bounded. destruct (want =? 0); [done|].
  by apply read_exact_loop_len.
Qed.

(** *** Chunks *)

Lemma parse_radix_nonneg radix max s n : 0 <= radix -> parse_radix radix max s = Some n -> 0 <= n.
Proof.
  intros Hr. unfold parse_radix. set (t := match s with [] => _ | _ => _ end). clearbody t. clear s.
  destruct (is_empty t); [done|]. assert (H : 0 <= 0) by done. revert H. generalize 0 at 2 3 as acc.
  induction t as [|b t IH]; intros acc Ha; cbn [digits]; [by intros [= <-]|].
  destruct (to_digit radix b) as [d|] eqn:Hd; [|done]. destruct (max <? _); [done|]. apply IH.
  assert (0 <= d); [|nia]. unfold to_digit, between in Hd. pose proof (u8_range b).
  destruct (_ <? radix); [|done]. injection Hd as <-.
  destruct ((48 <=? u8 b) && (u8 b <=? 57)) eqn:?; [lia|].
  destruct ((65 <=? u8 b) && (u8 b <=? 90)) eqn:?; [lia|].
  destruct ((97 <=? u8 b) && (u8 b <=? 122)) eqn:?; lia.
Qed.

Lemma read_chunked_loop_bounded fuel out r :
  len out <= MAX_BODY ->
  match (read_chunked_loop fuel out r).1 with
  | Ok (b, _) => len b <= MAX_BODY
  | Err Overflow => exists line size, chunk_size line = Some size /\ usize_max - MAX_BODY < size
  end.
Proof.
  revert out r. induction fuel as [|fuel IH]; intros out r Ho; cbn [read_chunked_loop]; [done|].
  destruct (read_line r) as [[line|] r1]; [|done]. destruct (chunk_size line) as [size|] eqn:Hs; [|done].
  destruct (size =? 0); [done|].
  destruct (Z.ltb_spec usize_max (len out + size)); [exists line, size; split; [done|lia]|].
  destruct (Z.ltb_spec MAX_BODY (len out + size)); [done|].
  assert (0 <= size) by (unfold chunk_size in Hs; by apply parse_radix_nonneg in Hs).
  destruct (read_exact_bounded size r1) as [c r2] eqn:Hc.
  pose proof (read_exact_bounded_len size r1 ltac:(done)) as Hlen. rewrite Hc in Hlen. cbn [fst] in Hlen.
  assert (len (out ++ c) <= MAX_BODY) by (rewrite len_app; lia).
  destruct (len c <? size); [done|]. destruct (read_line r2) as [_ r3]. by apply IH.
Qed.

(** What a chunk, and the end of the chunks, are on the wire. *)
Definition chunk (data : list byte) : list byte := show_radix 16 (len data) ++ CRLF ++ data ++ CRLF.
Definition last_chunk : list byte := str "0" ++ CRLF ++ CRLF.

Lemma show_go_Forall (P : byte -> Prop) radix k n acc :
  0 < radix -> (forall d, 0 <= d < radix -> P (digit_char d)) -> Forall P acc ->
  Forall P (show_go k radix n acc) /\ (length (show_go k radix n acc) <= k + length acc)%nat.
Proof.
  intros Hr Hd. revert n acc. induction k as [|k IH]; intros n acc Hacc; cbn [show_go]; [split; [done|lia]|].
  pose proof (Z.mod_pos_bound n radix Hr) as Hm.
  assert (H : Forall P (digit_char (n mod radix) :: acc)) by (constructor; [by apply Hd|done]).
  destruct (n / radix =? 0); [split; [done|cbn; lia]|].
  destruct (IH (n / radix) _ H) as [Hf Hl]. split; [done|]. cbn [length] in Hl. lia.
Qed.

(** A digit is printable, no separator and no white space. *)
Lemma digit_char_clean d : 0 <= d < 16 ->
  0x30 <= u8 (digit_char d) < 0x67 /\ u8 (digit_char d) <> 59 /\ u8 (digit_char d) <> 58.
Proof. intros Hd. unfold digit_char. destruct (d <? 10) eqn:?; rewrite u8_to_u8_small by lia; lia. Qed.

Lemma show_radix_text radix n : 2 <= radix <= 16 ->
  Forall (fun b => 0x30 <= u8 b < 0x67 /\ u8 b <> 59 /\ u8 b <> 58) (show_radix radix n) /\
  (length (show_radix radix n) <= 64)%nat.
Proof.
  intros Hr. unfold show_radix.
  destruct (show_go_Forall (fun b => 0x30 <= u8 b < 0x67 /\ u8 b <> 59 /\ u8 b <> 58) radix 64 n [])
    as [Hf Hl]; [lia| |done|].
  - intros d Hd. apply digit_char_clean. lia.
  - split; [exact Hf|]. cbn [length] in Hl. lia.
Qed.

Lemma show_radix_clean radix n : 2 <= radix <= 16 -> clean (show_radix radix n).
Proof.
  intros Hr. eapply Forall_impl; [by apply show_radix_text|]. cbv beta. lia.
Qed.

(** Text without white space is not trimmed; a number is such text. *)
Lemma trim_number radix n : 2 <= radix <= 16 -> trim (show_radix radix n) = show_radix radix n.
Proof.
  intros Hr. apply trim_plain. eapply Forall_impl; [by apply show_radix_text|]. cbv beta.
  intros b ?. unfold is_whitespace, between. lia.
Qed.

Lemma first_part_none p l : Forall (fun b => p b = false) l -> first_part p l = l.
Proof. induction 1 as [|b l Hb _ IH]; [done|]. cbn. by rewrite Hb, IH. Qed.

Lemma chunk_size_show n : 0 <= n <= usize_max -> chunk_size (show_radix 16 n) = Some n.
Proof.
  intros Hn. unfold chunk_size. rewrite first_part_none, trim_number by
    (lia || (eapply Forall_impl; [by apply show_radix_text|]; cbv beta; unfold semicolon; lia)).
  apply parse_show; [lia|done|]. unfold usize_max, u64_max in Hn. lia.
Qed.

Lemma skip_last_line fuel s tail r :
  delivers (CRLF ++ s) tail r -> delivers s tail (skip_trailers (S fuel) r).
Proof.
  intros Hd. destruct (read_line_spec [] s tail r) as (r' & Hr & Hd'); [constructor|cbn; lia|done|].
  cbn [skip_trailers]. by rewrite Hr.
Qed.

(** The line with a chunk's size. *)
Lemma read_size_line n s tail r :
  0 <= n <= usize_max -> delivers (show_radix 16 n ++ CRLF ++ s) tail r ->
  exists line r', read_line r = (Some line, r') /\ chunk_size line = Some n /\ delivers s tail r'.
Proof.
  intros Hn Hd. destruct (show_radix_text 16 n ltac:(lia)) as [_ Hl].
  destruct (read_line_spec (show_radix 16 n) s tail r) as (r' & Hr & Hd'); [by apply show_radix_clean|lia|done|].
  exists (show_radix 16 n), r'. by rewrite chunk_size_show.
Qed.

Lemma read_last_chunk s tail r :
  delivers (last_chunk ++ s) tail r ->
  exists line r', read_line r = (Some line, r') /\ chunk_size line = Some 0 /\
                  forall fuel, delivers s tail (skip_trailers (S fuel) r').
Proof.
  intros Hd. destruct (read_size_line 0 (CRLF ++ s) tail r) as (line & r' & Hr & Hs & Hd').
  { by vm_compute. }
  { unfold last_chunk in Hd. rewrite <- !app_assoc in Hd. exact Hd. }
  exists line, r'. split_and!; [done|done|]. intros fuel. by apply skip_last_line.
Qed.

Lemma chunk_split c k s : (chunk c ++ k) ++ s = show_radix 16 (len c) ++ CRLF ++ c ++ CRLF ++ k ++ s.
Proof. unfold chunk. by rewrite <- !app_assoc. Qed.

Lemma skip_crlf s tail r : delivers (CRLF ++ s) tail r -> delivers s tail (read_line r).2.
Proof.
  intros Hd. destruct (read_line_spec [] s tail r) as (r' & Hr & Hd'); [constructor|cbn; lia|done|].
  by rewrite Hr.
Qed.

Lemma read_chunked_loop_spec fuel out cs s tail r :
  (length cs < fuel)%nat -> Forall (fun c => c <> []) cs -> len out + len (mjoin cs) <= MAX_BODY ->
  delivers (mjoin (chunk <$> cs) ++ last_chunk ++ s) tail r ->
  exists r', read_chunked_loop fuel out r = (Ok (out ++ mjoin cs, false), r') /\ delivers s tail r'.
Proof.
  intros Hf Hcs. revert fuel out r Hf. induction Hcs as [|c cs Hc _ IH]; intros [|fuel] out r Hf Hlen Hd;
    cbn [length] in Hf; try lia; cbn [read_chunked_loop].
  - destruct (read_last_chunk s tail r Hd) as (line & r' & -> & -> & Hd'). rewrite Z.eqb_refl.
    eexists. split; [by rewrite app_nil_r|apply Hd'].
  - change (mjoin (c :: cs)) with (c ++ mjoin cs) in *.
    change (mjoin (chunk <$> c :: cs)) with (chunk c ++ mjoin (chunk <$> cs)) in Hd.
    rewrite chunk_split in Hd. rewrite len_app in Hlen.
    pose proof (len_nonneg (mjoin cs)). pose proof (len_nonneg out). pose proof (len_nonneg c).
    assert (Hc0 : len c <> 0) by (by intros ?%len_0_nil).
    assert (Hcu : len out + len c <= usize_max) by (unfold usize_max, u64_max, MAX_BODY in *; lia).
    destruct (read_size_line (len c) _ tail r ltac:(lia) Hd) as (line & r1 & -> & -> & Hd1).
    rewrite (proj2 (Z.eqb_neq (len c) 0)), (proj2 (Z.ltb_ge usize_max _)), (proj2 (Z.ltb_ge MAX_BODY _)) by lia.
    destruct (read_exact_spec c _ tail r1 Hd1) as (r2 & -> & Hd2). rewrite Z.ltb_irrefl.
    apply skip_crlf in Hd2. destruct (read_line r2) as [x r3]. cbn [snd] in Hd2.
    destruct (IH fuel (out ++ c) r3) as (r' & Hr' & Hd'); [lia|rewrite len_app; lia|done|].
    exists r'. by rewrite Hr', <- app_assoc.
Qed.

Lemma length_chunks cs : (length cs <= length (mjoin (chunk <$> cs)))%nat.
Proof.
  induction cs as [|c cs IH]; [done|]. change (mjoin (chunk <$> c :: cs)) with (chunk c ++ mjoin (chunk <$> cs)).
  unfold chunk at 1. rewrite !length_app. cbn [length CRLF]. lia.
Qed.

Lemma read_chunked_spec cs s tail r :
  Forall (fun c => c <> []) cs -> len (mjoin cs) <= MAX_BODY ->
  delivers (mjoin (chunk <$> cs) ++ last_chunk ++ s) tail r ->
  exists r', read_chunked r = (Ok (mjoin cs, false), r') /\ delivers s tail r'.
Proof.
  intros Hcs Hlen Hd. apply (read_chunked_loop_spec _ [] cs s tail r); [|done|done|done].
  pose proof (delivers_len _ _ _ Hd) as Hl. rewrite length_app in Hl. pose proof (length_chunks cs). lia.
Qed.

(** *** Streaming *)

(** Nothing goes wrong at this end while [ok] holds: the archive takes what is written and
    nobody cancels. *)
Record steady {W} (write_all : list byte -> W -> bool * W) (flush : W -> bool * W)
    (on_progress : Z -> W -> W) (cancelled : W -> bool * W) (ok : W -> Prop) (content : W -> list byte) : Prop := mkSteady {
  st_write : forall b w, ok w -> exists w', write_all b w = (true, w') /\ ok w' /\ content w' = content w ++ b;
  st_flush : forall w, ok w -> exists w', flush w = (true, w') /\ ok w' /\ content w' = content w;
  st_progress : forall n w, ok w -> ok (on_progress n w) /\ content (on_progress n w) = content w;
  st_cancelled : forall w, ok w -> exists w', cancelled w = (false, w') /\ ok w' /\ content w' = content w
}.

Section Steady.
Context {W : Type} (write_all : list byte -> W -> bool * W) (flush : W -> bool * W)
  (on_progress : Z -> W -> W) (cancelled : W -> bool * W) (ok : W -> Prop) (content : W -> list byte).
Hypothesis Hsteady : steady write_all flush on_progress cancelled ok content.

(** What has been stored: so many bytes more, and they are the archive's. *)
Definition grown (x : list byte) (u u' : Upload W) : Prop :=
  ok (up u') /\ content (up u') = content (up u) ++ x /\ total u' = total u + len x.

Lemma grown_trans x y u v w : grown x u v -> grown y v w -> grown (x ++ y) u w.
Proof using.
  intros (_ & Hc & Ht) (Ho & Hc' & Ht'). split_and!; [done|by rewrite Hc', Hc, app_assoc|rewrite len_app; lia].
Qed.

Lemma store_told b u :
  ok (up u) ->
  exists u1 u2, store write_all b u = (true, u1) /\ total u1 = total u + len b /\
    told on_progress cancelled u1 = (false, u2) /\ grown b u u2.
Proof using Hsteady.
  intros Ho. destruct Hsteady as [Hw _ Hp Hc]. unfold store. destruct (Hw b (up u) Ho) as (w' & -> & Ho' & Hcw).
  destruct (Hp (total u + len b) w' Ho') as [Hop Hcp].
  destruct (Hc _ Hop) as (w2 & Hw2 & Ho2 & Hc2).
  do 2 eexists. split; [done|]. split; [done|]. unfold told. cbn [up total sniff]. rewrite Hw2.
  split; [done|]. split_and!; [done| |done]. cbn [up]. by rewrite Hc2, Hcp.
Qed.

Lemma stream_chunk_spec fuel x s tail u r :
  (source_len r < fuel)%nat -> total u + len x <= MAX_UPLOAD_BYTES -> ok (up u) -> delivers (x ++ s) tail r ->
  exists u' r', stream_chunk write_all on_progress cancelled fuel (len x) u r = (Finished, u', r') /\
                delivers s tail r' /\ grown x u u'.
Proof using Hsteady.
  revert x u r. induction fuel as [|fuel IH]; intros x u r Hf Ht Ho Hd; [lia|]. cbn [stream_chunk].
  destruct (decide (x = [])) as [->|Hx].
  { exists u, r. split_and!; [done|done|]. split_and!; [done|by rewrite app_nil_r|rewrite len_nil; lia]. }
  assert (0 < len x) by (destruct x; [done|]; rewrite len_cons; pose proof (len_nonneg x); lia).
  rewrite (proj2 (Z.leb_gt (len x) 0)) by done.
  destruct (read_part (Z.min (len x) 8192) x s tail r) as (a & y & r1 & -> & -> & -> & _ & Hd' & Hlt); [lia|lia|done|].
  rewrite len_app in *. pose proof (len_nonneg y).
  destruct (store_told a u Ho) as (u1 & u2 & -> & Ht1 & -> & Hg). cbn [negb].
  rewrite (proj2 (Z.ltb_ge MAX_UPLOAD_BYTES _)) by lia.
  replace (len a + len y - len a) with (len y) by lia.
  destruct (IH y u2 r1 ltac:(lia)) as (u' & r' & -> & Hd'' & Hg'); [destruct Hg as (_ & _ & ?); lia|by destruct Hg|done|].
  exists u', r'. split_and!; [done|done|by eapply grown_trans].
Qed.

Lemma flushed_spec u r : ok (up u) -> exists u', flushed flush u r = (Ok (total u), u', r) /\ grown [] u u'.
Proof using Hsteady.
  intros Ho. unfold flushed. destruct (st_flush _ _ _ _ _ _ Hsteady (up u) Ho) as (w' & -> & Ho' & Hc). eexists.
  split; [done|]. split_and!; cbn [up total]; [done|by rewrite app_nil_r|rewrite len_nil; lia].
Qed.

Lemma stream_chunked_loop_spec fuel cs s tail u r :
  (length cs < fuel)%nat -> Forall (fun c => c <> []) cs -> total u + len (mjoin cs) <= MAX_UPLOAD_BYTES ->
  0 <= total u -> ok (up u) -> delivers (mjoin (chunk <$> cs) ++ last_chunk ++ s) tail r ->
  exists u' r', stream_chunked_loop write_all flush on_progress cancelled fuel u r
                = (Ok (total u + len (mjoin cs)), u', r') /\
                delivers s tail r' /\ grown (mjoin cs) u u'.
Proof using Hsteady.
  intros Hf Hcs. revert fuel u r Hf. induction Hcs as [|c cs Hc _ IH]; intros [|fuel] u r Hf Hlen Hu Ho Hd;
    cbn [length] in Hf; try lia; cbn [stream_chunked_loop].
  - destruct (read_last_chunk s tail r Hd) as (line & r' & -> & -> & Hd'). rewrite Z.eqb_refl.
    destruct (flushed_spec u (skip_trailers (S (source_len r')) r') Ho) as (u' & -> & Hg).
    exists u', (skip_trailers (S (source_len r')) r'). split_and!; [|apply Hd'|done].
    change (mjoin (@nil (list byte))) with (@nil byte). by rewrite len_nil, Z.add_0_r.
  - change (mjoin (c :: cs)) with (c ++ mjoin cs) in *.
    change (mjoin (chunk <$> c :: cs)) with (chunk c ++ mjoin (chunk <$> cs)) in Hd.
    rewrite chunk_split in Hd. rewrite len_app in *.
    pose proof (len_nonneg (mjoin cs)). pose proof (len_nonneg c).
    assert (Hc0 : len c <> 0) by (by intros ?%len_0_nil).
    assert (Hcu : len c <= usize_max) by (unfold usize_max, u64_max, MAX_UPLOAD_BYTES in *; lia).
    destruct (read_size_line (len c) _ tail r ltac:(lia) Hd) as (line & r1 & -> & -> & Hd1).
    rewrite (proj2 (Z.eqb_neq (len c) 0)) by done.
    destruct (stream_chunk_spec (S (source_len r1)) c (CRLF ++ mjoin (chunk <$> cs) ++ last_chunk ++ s) tail u r1)
      as (u2 & r2 & -> & Hd2 & Hg); [lia|lia|done|exact Hd1|].
    apply skip_crlf in Hd2. destruct (read_line r2) as [l r3]. cbn [snd] in Hd2.
    pose proof Hg as (Ho2 & _ & Ht2).
    destruct (IH fuel u2 r3) as (u' & r' & -> & Hd' & Hg'); [lia|lia|lia|done|done|].
    exists u', r'. split_and!; [|done|by eapply grown_trans]. rewrite Ht2. do 3 f_equal. lia.
Qed.

Lemma stream_chunked_spec cs s tail w r :
  Forall (fun c => c <> []) cs -> len (mjoin cs) <= MAX_UPLOAD_BYTES -> ok w ->
  delivers (mjoin (chunk <$> cs) ++ last_chunk ++ s) tail r ->
  exists u r', stream_chunked write_all flush on_progress cancelled w r = (Ok (len (mjoin cs)), u, r') /\
               delivers s tail r' /\ ok (up u) /\ content (up u) = content w ++ mjoin cs.
Proof using Hsteady.
  intros Hcs Hlen Ho Hd.
  destruct (stream_chunked_loop_spec (S (source_len r)) cs s tail (mkUpload w [] 0) r)
    as (u & r' & Hr & Hd' & (Hok & Hg & _)); [|done|done|done|done|done|].
  - pose proof (delivers_len _ _ _ Hd) as Hl. rewrite length_app in Hl. pose proof (length_chunks cs). lia.
  - exists u, r'. unfold stream_chunked. by rewrite Hr.
Qed.
End Steady.

(** *** Heads *)

Lemma ends_with_app s p : ends_with (s ++ p) p = true.
Proof.
  unfold ends_with. rewrite length_app. apply andb_true_iff. split; [apply Nat.leb_le; lia|].
  rewrite bool_decide_true; [done|]. replace (length s + length p - length p)%nat with (length s) by lia.
  by rewrite drop_app_length.
Qed.

Lemma ends_with_split s p : ends_with s p = true -> exists x, s = x ++ p.
Proof.
  unfold ends_with. intros [_ Hd%bool_decide_eq_true]%andb_true_iff.
  exists (take (length s - length p) s). rewrite <- Hd at 2. by rewrite take_drop.
Qed.

Lemma not_ended buf b : b <> LF -> ends_with (buf ++ [b]) (CRLF ++ CRLF) = false.
Proof.
  intros Hb. destruct (ends_with _ _) eqn:He; [|done]. exfalso. apply ends_with_split in He as [x Hx].
  change (CRLF ++ CRLF) with ([CR; LF; CR] ++ [LF]) in Hx. rewrite app_assoc in Hx.
  apply app_inj_tail in Hx as [_ ?]. done.
Qed.

Lemma not_ended_line buf b : b <> LF -> ends_with (buf ++ [b] ++ CRLF) (CRLF ++ CRLF) = false.
Proof.
  intros Hb. destruct (ends_with _ _) eqn:He; [|done]. exfalso. apply ends_with_split in He as [x Hx].
  change (CRLF ++ CRLF) with ([CR; LF] ++ CRLF) in Hx. rewrite !app_assoc in Hx.
  apply app_inv_tail in Hx. change [CR; LF] with ([CR] ++ [LF]) in Hx. rewrite app_assoc in Hx.
  apply app_inj_tail in Hx as [_ ?]. done.
Qed.

(** One byte of a head that does not end it. *)
Lemma read_head_step n buf b s tail r :
  ends_with (buf ++ [b]) (CRLF ++ CRLF) = false -> delivers (b :: s) tail r ->
  exists r', read_head_loop (S n) buf r = read_head_loop n (buf ++ [b]) r' /\ delivers s tail r'.
Proof.
  intros He Hd. destruct (read_byte _ _ _ _ Hd) as (r' & Hr & Hd'). exists r'. cbn [read_head_loop].
  by rewrite Hr, He.
Qed.

Lemma read_head_text n buf l s tail r :
  no_lf l -> delivers (l ++ s) tail r ->
  exists r', read_head_loop (length l + n) buf r = read_head_loop n (buf ++ l) r' /\ delivers s tail r'.
Proof.
  intros Hl. revert buf r. induction Hl as [|b l Hb _ IH]; intros buf r Hd.
  { exists r. by rewrite app_nil_r. }
  destruct (read_head_step (length l + n) buf b (l ++ s) tail r) as (r1 & Hr & Hd1); [by apply not_ended|done|].
  destruct (IH (buf ++ [b]) r1 Hd1) as (r' & Hr' & Hd'). exists r'. cbn [length Nat.add].
  rewrite Hr, Hr', <- app_assoc. done.
Qed.

(** A head: its lines, each ended, and a blank one. *)
Definition head_of (ls : list (list byte)) : list byte := mjoin ((fun l => l ++ CRLF) <$> ls) ++ CRLF.

Lemma head_of_cons l ls : head_of (l :: ls) = l ++ CRLF ++ head_of ls.
Proof. unfold head_of. cbn [fmap list_fmap]. change (mjoin (?x :: ?y)) with (x ++ mjoin y). by rewrite <- !app_assoc. Qed.

Definition full_line (l : list byte) : Prop := l <> [] /\ clean l.

Lemma read_head_loop_spec n buf ls s tail r :
  Forall full_line ls -> (length (head_of ls) <= n)%nat -> (ls = [] -> ends_with buf CRLF = true) ->
  delivers (head_of ls ++ s) tail r ->
  exists r', read_head_loop n buf r = (Ok (from_utf8_lossy (buf ++ head_of ls)), r') /\ delivers s tail r'.
Proof.
  intros Hls. revert n buf r. induction Hls as [|l ls [Hne Hl] _ IH]; intros n buf r Hn Hb Hd.
  - destruct n as [|[|n]]; [cbn in Hn; lia|cbn in Hn; lia|]. change (head_of [] ++ s) with (CR :: LF :: s) in Hd.
    destruct (read_head_step (S n) buf CR (LF :: s) tail r) as (r1 & -> & Hd1); [by apply not_ended|done|].
    destruct (read_byte _ _ _ _ Hd1) as (r2 & Hr & Hd2). exists r2. cbn [read_head_loop]. rewrite Hr.
    destruct (ends_with_split buf CRLF (Hb eq_refl)) as [x ->]. rewrite <- !app_assoc.
    change (CRLF ++ [CR] ++ [LF]) with (CRLF ++ CRLF). rewrite ends_with_app. done.
  - rewrite head_of_cons in *. rewrite !length_app in Hn. cbn [length CRLF] in Hn.
    rewrite <- !app_assoc in Hd. destruct (clean_text l Hl) as (_ & Hlf & _).
    replace n with (length l + S (S (n - length l - 2)))%nat by lia.
    destruct (read_head_text (S (S (n - length l - 2))) buf l (CRLF ++ head_of ls ++ s) tail r Hlf Hd) as (r1 & -> & Hd1).
    destruct (read_head_step (S (n - length l - 2)) (buf ++ l) CR (LF :: head_of ls ++ s) tail r1)
      as (r2 & -> & Hd2); [by apply not_ended|done|].
    destruct (read_head_step (n - length l - 2) ((buf ++ l) ++ [CR]) LF (head_of ls ++ s) tail r2)
      as (r3 & -> & Hd3); [|done|].
    { destruct (exists_last Hne) as (k & b & ->). apply Forall_app in Hl as [_ Hl].
      apply Forall_cons in Hl as [Hbl _]. rewrite <- !app_assoc.
      replace (buf ++ k ++ [b] ++ [CR] ++ [LF]) with ((buf ++ k) ++ [b] ++ CRLF) by (by rewrite <- !app_assoc).
      apply not_ended_line. by apply clean_ne. }
    destruct (IH (n - length l - 2)%nat (((buf ++ l) ++ [CR]) ++ [LF]) r3) as (r' & -> & Hd'); [lia| |done|].
    { intros _. rewrite <- (app_assoc _ [CR] [LF]). change ([CR] ++ [LF]) with CRLF. apply ends_with_app. }
    exists r'. split; [|done]. do 3 f_equal. unfold CRLF. by rewrite <- !app_assoc.
Qed.

Lemma head_of_valid ls : Forall full_line ls -> valid (head_of ls) = true.
Proof.
  induction 1 as [|l ls [_ Hl] _ IH]; [done|]. rewrite head_of_cons.
  apply valid_app; [by apply clean_text|]. by apply valid_app.
Qed.

Lemma read_head_spec ls s tail r :
  ls <> [] -> Forall full_line ls -> len (head_of ls) <= MAX_HEAD -> delivers (head_of ls ++ s) tail r ->
  exists r', read_head r = (Ok (head_of ls), r') /\ delivers s tail r'.
Proof.
  intros Hne Hls Hlen Hd. rewrite len_nat in Hlen.
  destruct (read_head_loop_spec (Z.to_nat MAX_HEAD) [] ls s tail r Hls) as (r' & Hr & Hd'); [lia|done|done|].
  exists r'. unfold read_head. rewrite Hr. cbn [app]. by rewrite lossy_valid by (by apply head_of_valid).
Qed.

(** The lines of a head are the lines it was made of. *)
Lemma lines_go_line acc l s :
  no_lf l -> clean (acc ++ l) -> lines_go acc (l ++ CRLF ++ s) = (acc ++ l) :: lines_go [] s.
Proof.
  intros Hl. revert acc. induction Hl as [|b l Hb _ IH]; intros acc Hc.
  - cbn [app CRLF lines_go]. rewrite bool_decide_false by (by vm_compute). cbn [lines_go].
    rewrite bool_decide_true by done. rewrite last_snoc, bool_decide_true by done.
    by rewrite removelast_last, app_nil_r.
  - cbn [app lines_go]. rewrite bool_decide_false by done.
    assert (Hassoc : acc ++ b :: l = (acc ++ [b]) ++ l) by (by rewrite <- app_assoc).
    rewrite Hassoc in *. by apply IH.
Qed.

Lemma lines_head_of ls : Forall full_line ls -> lines (head_of ls) = ls ++ [[]].
Proof.
  induction 1 as [|l ls [_ Hl] _ IH]; [done|]. unfold lines in *. rewrite head_of_cons.
  destruct (clean_text l Hl) as (_ & Hlf & _). rewrite lines_go_line by done. cbn [app]. by rewrite IH.
Qed.

Lemma header_head_of ls name :
  Forall full_line ls -> header (head_of ls) name = find_map (header_line name) (ls ++ [[]]).
Proof. intros Hls. unfold header. by rewrite lines_head_of. Qed.

(** ** Properties *)

(** C17: a request's body cannot exhaust memory.  Whatever the head declares and whatever the
    peer sends, in whatever pieces, the body that is buffered has at most 8 MiB.  The one way
    not to get a body at all is an overflow of the sum that compares a chunk's size with the
    cap, which takes a declared size within 8 MiB of the largest [usize]. *)
Theorem read_body_bounded r head :
  match (read_body r head).1 with
  | Ok (body, _) => len body <= MAX_BODY
  | Err Overflow => is_chunked head = true /\
      exists line size, chunk_size line = Some size /\ usize_max - MAX_BODY < size
  end.
Proof.
  unfold read_body. destruct (is_chunked head).
  - pose proof (read_chunked_loop_bounded (S (source_len r)) [] r ltac:(by vm_compute)) as H.
    unfold read_chunked. destruct (read_chunked_loop _ _ _) as [[[b d]|[]] r']; [done|by split].
  - destruct (Z.ltb_spec MAX_BODY (unwrap_or (content_length head) 0)) as [|Hle]; [by vm_compute|].
    destruct (read_exact_bounded _ r) as [b r'] eqn:Hr.
    cbn [fst]. pose proof (read_exact_bounded_len (unwrap_or (content_length head) 0) r) as H.
    rewrite Hr in H. cbn [fst] in H. etransitivity; [apply H|done].
    unfold content_length. destruct (header head _) as [v|]; [|done]. cbn.
    destruct (parse_u64 v) eqn:Hv; [|done]. by apply parse_radix_nonneg in Hv.
Qed.

(** One byte in a chunk, then a chunk of [2^64 - 1]: the sum overflows. *)
Example chunk_size_overflows :
  (read_body [Data (str "1" ++ CRLF ++ str "x" ++ CRLF ++ str "ffffffffffffffff" ++ CRLF)]
     (head_of [str "POST /Discover HTTP/1.1"; str "Transfer-Encoding: chunked"])).1 = Err Overflow.
Proof. by vm_compute. Qed.

(** The end of the stream between two chunks, or a size that is no number, ends an upload as
    its last chunk does. *)
Example upload_cut_between_chunks :
  let write_all b w := (true, w ++ b) in
  (stream_chunked write_all (pair true) (fun _ w => w) (pair false) []
     [Data (str "4" ++ CRLF ++ str "half" ++ CRLF)]).1.1 = Ok 4.
Proof. by vm_compute. Qed.
