(* ===== verification/Send.v ===== *)
(** * Sending to an Apple device ([sharingd/src/send.rs])

    One connection: the offer, the wait for the peer's answer, the archive in chunks, the
    peer's verdict.  The network, the clock and the flag of a cancel are a class; the archive
    and gzip libraries are classes of what they write.  The theorems are about every byte that
    leaves, and about the reader at the other end. *)

From S2P Require Import Prelude Utf8 Utf16 Text Plist Http.
#[local] Open Scope rust_scope.

Definition MAX_RESPONSE : Z := 256 * 1024.
Definition ASK_POLLS : Z := 180 * 4.

Record Item : Type := mkItem { file : list Read; name : list byte; size : Z }.

Inductive SendError : Type :=
| InvalidInput | InvalidData | Interrupted | TimedOut | ConnectionAborted | PermissionDenied | Other
| OsError
(** [TimedOut], saying that the peer would not complete the handshake. *)
| Unfinished
(** The fuel of a loop ran out: the call has not returned. *)
| Running.

(** ** What is around the code *)

(** [ready] is [pending() != 0] or [ready_within]; the deadline of the wait for an answer is a
    number of polls. *)
Class Network : Type := {
  world : Type;
  connected : world -> result unit SendError * world;
  write_all : list byte -> world -> bool * world;
  flush : world -> bool * world;
  ready : world -> option bool * world;
  cancelled : world -> bool * world;
  progress : Z -> Z -> world -> world
}.

(** The pieces in which [GzEncoder] writes what it is given, and what it writes at the end. *)
Class Gzip : Type := {
  gz : Type;
  gz_new : gz;
  gz_write : list byte -> gz -> list (list byte) * gz;
  gz_finish : gz -> list (list byte)
}.

(** [OdcBuilder]: the writes of the [n]-th header, [None] if it does not fit the format; those
    of the trailer. *)
Class Odc : Type := {
  odc_header : Z -> list byte -> Z -> option (list (list byte));
  odc_trailer : Z -> list (list byte)
}.

(** ** Requests and responses *)

Definition line (l : list byte) : list byte := l ++ CRLF.

Definition request_head (path body : list byte) (keep_alive : bool) : list byte :=
  line (str "POST " ++ path ++ str " HTTP/1.1")
  ++ line (str "Connection: " ++ (if keep_alive then str "keep-alive" else str "close"))
  ++ line (str "Content-Type: application/octet-stream")
  ++ line (str "Accept: */*")
  ++ line (str "User-Agent: AirDrop/1.0")
  ++ line (str "Accept-Language: en-us")
  ++ line (str "Accept-Encoding: br, gzip, deflate")
  ++ line (str "Content-Length: " ++ show (len body)) ++ CRLF.

Definition upload_head (total : Z) : list byte :=
  line (str "POST /Upload HTTP/1.1")
  ++ line (str "Connection: close")
  ++ line (str "Content-Type: application/x-cpio")
  ++ line (str "Accept: */*")
  ++ line (str "User-Agent: AirDrop/1.0")
  ++ line (str "Accept-Language: en-us")
  ++ line (str "TotalBytes: " ++ show total)
  ++ line (str "Transfer-Encoding: chunked") ++ CRLF.

(** The head of a response: an early end of it is not an error. *)
Fixpoint response_head_loop (n : nat) (head : list byte) (r : list Read) : option (list byte) * list Read :=
  match n with
  | O => (Some head, r)
  | S n =>
      match read 1 r with
      | (None, r) => (None, r)
      | (Some [], r) => (Some head, r)
      | (Some (b :: _), r) =>
          let head := head ++ [b] in
          if ends_with head (CRLF ++ CRLF) then (Some head, r) else response_head_loop n head r
      end
  end.

(** [text.split_whitespace().nth(1)], as a [u16]; 0 if there is none. *)
Definition status_of (text : list byte) : Z :=
  unwrap_or (let^ w := split_whitespace text !! 1%nat in parse_radix 10 65535 w) 0.

Definition says_chunked (text : list byte) : bool :=
  existsb (fun l => match split_once COLON l with
                    | Some (k, v) => eq_ignore_ascii_case (trim k) (str "transfer-encoding")
                                     && contains (to_ascii_lowercase v) (str "chunked")
                    | None => false
                    end) (lines text).

Definition read_crlf_line : list Read -> option (list byte) * list Read := read_line.

Fixpoint read_chunked_body_loop (fuel : nat) (max : Z) (out : list byte) (r : list Read)
    : result (list byte) (option Panic) * list Read :=
  match fuel with
  | O => (Ok out, r)
  | S fuel =>
      match read_crlf_line r with
      | (None, r) => (Ok out, r)
      | (Some l, r) =>
          match chunk_size l with
          | None => (Ok out, r)
          | Some size =>
              if size =? 0 then (Ok out, skip_trailers (S (source_len r)) r)
              else if usize_max <? len out + size then (Err (Some Overflow), r)
              else if max <? len out + size then (Err None, r)
              else
                let (chunk, r) := read_exact_bounded size r in
                let out := out ++ chunk in
                if len chunk <? size then (Ok out, r)
                else let (_, r) := read_crlf_line r in read_chunked_body_loop fuel max out r
          end
      end
  end.

(** [Err (Some _)] is a panic, [Err None] an error. *)
Definition read_chunked_body (max : Z) (r : list Read) : result (list byte) (option Panic) * list Read :=
  read_chunked_body_loop (S (source_len r)) max [] r.

Definition read_response (r : list Read) : result (Z * list byte) (option Panic) * list Read :=
  match response_head_loop (Z.to_nat MAX_HEAD) [] r with
  | (None, r) => (Err None, r)
  | (Some head, r) =>
      let text := from_utf8_lossy head in
      let status := status_of text in
      if says_chunked text then
        match read_chunked_body MAX_RESPONSE r with
        | (Ok body, r) => (Ok (status, body), r)
        | (Err e, r) => (Err e, r)
        end
      else
        let n := Z.min (unwrap_or (let^ v := header text (str "content-length") in parse_radix 10 usize_max v) 0)
                       MAX_RESPONSE in
        let (body, r) := read_exact_bounded n r in (Ok (status, body), r)
  end.

(** ** The offer *)

Definition types : list (list (list byte) * list byte) :=
  [([str "jpg"; str "jpeg"], str "public.jpeg"); ([str "png"], str "public.png");
   ([str "gif"], str "com.compuserve.gif"); ([str "heic"], str "public.heic");
   ([str "heif"], str "public.heif"); ([str "webp"], str "org.webmproject.webp");
   ([str "tiff"; str "tif"], str "public.tiff"); ([str "mov"], str "com.apple.quicktime-movie");
   ([str "mp4"; str "m4v"], str "public.mpeg-4"); ([str "pdf"], str "com.adobe.pdf");
   ([str "txt"], str "public.plain-text"); ([str "zip"], str "public.zip-archive");
   ([str "mp3"], str "public.mp3"); ([str "m4a"], str "com.apple.m4a-audio")].

Definition uti_for (name : list byte) : list byte :=
  let ext := match rsplit_once (to_u8 46) name with Some (_, e) => to_ascii_lowercase e | None => [] end in
  unwrap_or (find_map (fun row => if bool_decide (ext ∈ row.1) then Some row.2 else None) types)
            (str "public.data").

Definition ask_file (i : Item) : Value :=
  VDict [(str "FileName", VStr (name i)); (str "FileType", VStr (uti_for (name i)));
         (str "FileBomPath", VStr (str "./" ++ name i)); (str "FileIsDirectory", VBool false);
         (str "ConvertMediaFormats", VBool false)].

(** [sender_id] is drawn once by the process. *)
Definition ask_value (sender_id : list byte) (items : list Item) (sender_name sender_model : list byte) : Value :=
  VDict [(str "SenderComputerName", VStr sender_name); (str "SenderID", VStr sender_id);
         (str "SenderModelName", VStr sender_model); (str "BundleID", VStr (str "com.apple.finder"));
         (str "ConvertMediaFormats", VBool false); (str "Files", VArray (ask_file <$> items))].
Definition ask_body (sender_id : list byte) (items : list Item) (sender_name sender_model : list byte) : list byte :=
  encode (ask_value sender_id items sender_name sender_model).

(** ** Sending *)

Section Send.
Context `{Network} `{Gzip} `{Odc}.

(** What has left is kept, for the theorems. *)
Record St : Type := mkSt { wld : world; input : list Read; sent : list byte }.

Definition M (A : Type) : Type := St -> result A SendError * St.
Definition ret {A} (a : A) : M A := fun s => (Ok a, s).
Definition throw {A} (e : SendError) : M A := fun s => (Err e, s).
Definition bind {A B} (m : M A) (k : A -> M B) : M B :=
  fun s => match m s with (Ok a, s) => k a s | (Err e, s) => (Err e, s) end.

#[local] Notation "'let!' x ':=' m 'in' k" := (bind m (fun x => k))
  (at level 10, x pattern, m at level 100, k at level 200).
#[local] Notation "'do!' m 'in' k" := (bind m (fun _ => k))
  (at level 10, m at level 100, k at level 200).

Definition asking {A} (f : world -> A * world) : M A :=
  fun s => let (a, w) := f (wld s) in (Ok a, mkSt w (input s) (sent s)).
Definition write (b : list byte) : M unit :=
  fun s => let (ok, w) := write_all b (wld s) in
           if ok then (Ok tt, mkSt w (input s) (sent s ++ b)) else (Err OsError, mkSt w (input s) (sent s)).
Definition flush_ : M unit := let! ok := asking flush in if ok then ret tt else throw OsError.
Definition report (done total : Z) : M unit := asking (fun w => (tt, progress done total w)).

Definition request (path body : list byte) (keep_alive : bool) : M unit :=
  do! write (request_head path body keep_alive) in
  do! write body in
  flush_.

(** A panic ends the thread: [Running] stands for a call that does not return. *)
Definition response_ : M (Z * list byte) :=
  fun s => match read_response (input s) with
           | (Ok a, r) => (Ok a, mkSt (wld s) r (sent s))
           | (Err (Some _), r) => (Err Running, mkSt (wld s) r (sent s))
           | (Err None, r) => (Err OsError, mkSt (wld s) r (sent s))
           end.

Definition connect : M unit := let! r := asking connected in match r with Ok _ => ret tt | Err e => throw e end.

(** [while tls.ssl().pending() == 0 && !tls.get_ref().ready_within(ASK_POLL)?]. *)
Fixpoint wait_answer (polls : nat) : M unit :=
  let! r := asking ready in
  match r with
  | None => throw OsError
  | Some true => ret tt
  | Some false =>
      let! c := asking cancelled in
      if c then throw Interrupted
      else match polls with O => throw TimedOut | S polls => wait_answer polls end
  end.

(** *** The archive *)

(** [ChunkedWriter::write] and [end]. *)
Definition write_chunk (data : list byte) : M unit :=
  if is_empty data then ret tt
  else
    do! write (show_radix 16 (len data) ++ CRLF) in
    do! write data in
    write CRLF.
Definition end_chunks : M unit := do! write (str "0" ++ CRLF ++ CRLF) in flush_.

Fixpoint write_chunks (pieces : list (list byte)) : M unit :=
  match pieces with
  | [] => ret tt
  | p :: pieces => do! write_chunk p in write_chunks pieces
  end.

(** A write of the archive goes through the compressor to the chunks. *)
Definition gz_write_ (b : list byte) (g : gz) : M gz :=
  let (pieces, g) := gz_write b g in do! write_chunks pieces in ret g.
Fixpoint gz_writes (bs : list (list byte)) (g : gz) : M gz :=
  match bs with
  | [] => ret g
  | b :: bs => let! g := gz_write_ b g in gz_writes bs g
  end.

Record Counting : Type := mkCounting { inner : list Read; seen : Z; base : Z; total : Z; last_ : Z; step : Z }.

(** [Counting::read]; the buffer is [io::copy]'s. *)
Definition counting_read (c : Counting) : M (list byte * Counting) :=
  let! stop := asking cancelled in
  if stop then throw Interrupted
  else
    match read 8192 (inner c) with
    | (None, _) => throw OsError
    | (Some b, r) =>
        let seen := seen c + len b in
        let done := base c + seen in
        if last_ c + step c <=? done then
          do! report done (total c) in ret (b, mkCounting r seen (base c) (total c) done (step c))
        else ret (b, mkCounting r seen (base c) (total c) (last_ c) (step c))
    end.

(** [std::io::copy], which tries an interrupted read again. *)
Fixpoint copy (fuel : nat) (copied : Z) (c : Counting) (g : gz) : M (Z * Counting * gz) :=
  match fuel with
  | O => throw Running
  | S fuel => fun s =>
      match counting_read c s with
      | (Err Interrupted, s) => copy fuel copied c g s
      | (Err e, s) => (Err e, s)
      | (Ok (b, c), s) =>
          if is_empty b then (Ok (copied, c, g), s)
          else (let! g := gz_write_ b g in copy fuel (copied + len b) c g) s
      end
  end.

(** The loop over the items; [n] headers have been written, [done] bytes sent. *)
Fixpoint send_items (fuel : nat) (total n done : Z) (items : list Item) (g : gz) : M (Z * gz) :=
  match items with
  | [] => let! g := gz_writes (odc_trailer n) g in ret (done, g)
  | i :: items =>
      let! stop := asking cancelled in
      if stop then throw Interrupted
      else
        match odc_header n (str "./" ++ name i) (size i) with
        | None => throw Other
        | Some header =>
            let! g := gz_writes header g in
            let c := mkCounting (file i) 0 done total done (Z.max (total / 100) (64 * 1024)) in
            let! (copied, c, g) := copy fuel 0 c g in
            if negb (copied =? size i) then throw Other
            else
              let done := done + seen c in
              do! report done total in
              send_items fuel total (n + 1) done items g
        end
  end.

Definition total_size (items : list Item) : Z := foldr (fun i n => size i + n) 0 items.

(** The section [/Ask] of [send], up to the answer. *)
Definition offer (body : list byte) : M unit :=
  do! connect in
  do! request (str "/Ask") body true in
  wait_answer (Z.to_nat ASK_POLLS).

(** The section [/Upload], up to the verdict. *)
Definition upload (fuel : nat) (items : list Item) : M unit :=
  do! write (upload_head (total_size items)) in
  let! (_, g) := send_items fuel (total_size items) 0 0 items gz_new in
  do! write_chunks (gz_finish g) in
  end_chunks.

Definition send (fuel : nat) (sender_id : list byte) (items : list Item) (sender_name sender_model : list byte)
    : M unit :=
  if is_empty items then throw InvalidInput
  else
    do! offer (ask_body sender_id items sender_name sender_model) in
    let! (status, _) := response_ in
    if status =? 0 then throw ConnectionAborted
    else if negb (status =? 200) then throw PermissionDenied
    else
      do! upload fuel items in
      let! (status, _) := response_ in
      if negb (status =? 200) then throw Other else ret tt.

(** [discover]: the peer's name, if it gives one. *)
Definition discover : M (option (list byte)) :=
  do! connect in
  do! request (str "/Discover") (dict []) false in
  let! (status, reply) := response_ in
  if negb (status =? 200) then ret None
  else match parse reply with
       | Ok v => ret (let^ n := val_get (str "ReceiverComputerName") v in as_str n)
       | Err Overflowed => throw Running
       | Err Refused => ret None
       end.


(** ** Lemmas *)

(** *** What leaves *)

(** Whatever happens, [m] reads nothing and adds [x] to what has left, with [P] of the result
    or [E] if it fails. *)
Definition leaves {A} (m : M A) (P : A -> list byte -> Prop) (E : list byte -> Prop) : Prop :=
  forall s r s', m s = (r, s') ->
    input s' = input s /\ exists x, sent s' = sent s ++ x /\ match r with Ok a => P a x | Err _ => E x end.

Lemma leaves_ret {A} (a : A) (P : A -> list byte -> Prop) E : P a [] -> leaves (ret a) P E.
Proof using. intros HP s r s' [= <- <-]. split; [done|]. exists []. by rewrite app_nil_r. Qed.

Lemma leaves_throw {A} e (P : A -> list byte -> Prop) (E : list byte -> Prop) : E [] -> leaves (throw e) P E.
Proof using. intros HE s r s' [= <- <-]. split; [done|]. exists []. by rewrite app_nil_r. Qed.

Lemma leaves_bind {A B} (m : M A) (k : A -> M B) P (Q : B -> list byte -> Prop) (E E' : list byte -> Prop) :
  leaves m P E' -> (forall x, E' x -> E x) ->
  (forall a x, P a x -> leaves (k a) (fun b y => Q b (x ++ y)) (fun y => E (x ++ y))) ->
  leaves (bind m k) Q E.
Proof using.
  intros Hm HE Hk s r s' Hb. unfold bind in Hb. destruct (m s) as [[a|e] s1] eqn:Hs1.
  - destruct (Hm _ _ _ Hs1) as (Hi & x & Hx & HP). destruct (Hk _ _ HP _ _ _ Hb) as (Hi' & y & Hy & HQ).
    split; [congruence|]. exists (x ++ y). rewrite app_assoc, <- Hx. done.
  - injection Hb as <- <-. destruct (Hm _ _ _ Hs1) as (Hi & x & Hx & HP). split; [done|]. exists x. split; [done|by apply HE].
Qed.

Lemma leaves_asking {A} (f : world -> A * world) E : leaves (asking f) (fun _ x => x = []) E.
Proof using.
  intros s r s'. unfold asking. destruct (f (wld s)) as [a w]. intros [= <- <-].
  split; [done|]. exists []. by rewrite app_nil_r.
Qed.

Lemma leaves_write b : leaves (write b) (fun _ x => x = b) (fun x => x = []).
Proof using.
  intros s r s'. unfold write. destruct (write_all b (wld s)) as [[] w]; intros [= <- <-]; (split; [done|]);
    eexists; (split; [cbn [sent]|done]); by rewrite ?app_nil_r.
Qed.

(** A step that asks the world and goes on. *)
Lemma leaves_ask {A B} (f : world -> A * world) (k : A -> M B) Q E :
  (forall a, leaves (k a) Q E) -> leaves (bind (asking f) k) Q E.
Proof using.
  intros Hk. apply (leaves_bind _ _ (fun _ x => x = []) _ _ (fun _ => False)); [apply leaves_asking|done|].
  intros a x ->. apply Hk.
Qed.

(** A step that writes and goes on. *)
Lemma leaves_put {B} b (k : unit -> M B) Q (E : list byte -> Prop) :
  E [] -> leaves (k tt) (fun a y => Q a (b ++ y)) (fun y => E (b ++ y)) -> leaves (bind (write b) k) Q E.
Proof using.
  intros HE Hk. apply (leaves_bind _ _ (fun _ x => x = b) _ _ (fun x => x = [])); [apply leaves_write|by intros x ->|].
  by intros [] x ->.
Qed.

Lemma leaves_weaken {A} (m : M A) P Q (E F : list byte -> Prop) :
  leaves m P E -> (forall a x, P a x -> Q a x) -> (forall x, E x -> F x) -> leaves m Q F.
Proof using.
  intros Hm HPQ HEF s r s' Hs. destruct (Hm _ _ _ Hs) as (Hi & x & Hx & HP). split; [done|].
  exists x. split; [done|]. destruct r; auto.
Qed.

Lemma leaves_flush (P : unit -> list byte -> Prop) (E : list byte -> Prop) : P tt [] -> E [] -> leaves flush_ P E.
Proof using.
  intros HP HE. apply leaves_ask. intros []; [by apply leaves_ret|by apply leaves_throw].
Qed.

Lemma leaves_wait polls : leaves (wait_answer polls) (fun _ x => x = []) (fun x => x = []).
Proof using.
  induction polls as [|n IH]; cbn [wait_answer]; apply leaves_ask; intros [[]|];
    (by apply leaves_ret) || (by apply leaves_throw) || (apply leaves_ask; intros []; [by apply leaves_throw|]).
  - by apply leaves_throw.
  - exact IH.
Qed.

(** *** The archive *)

Definition any (_ : list byte) : Prop := True.

Definition chunked (pieces : list (list byte)) : list byte :=
  mjoin (chunk <$> filter (fun p => p <> []) pieces).

Lemma chunked_app p q : chunked (p ++ q) = chunked p ++ chunked q.
Proof using. unfold chunked. by rewrite filter_app, fmap_app, join_app. Qed.

Lemma leaves_chunk p : leaves (write_chunk p) (fun _ x => x = chunked [p]) any.
Proof using.
  unfold write_chunk. destruct p as [|b p]; [by apply leaves_ret|]. cbn [is_empty].
  apply leaves_put; [done|]. apply leaves_put; [done|].
  eapply leaves_weaken; [apply leaves_write| |done]. intros _ x ->. unfold chunked.
  rewrite filter_cons_True by done. cbn [fmap list_fmap filter list_filter].
  change (mjoin [?y]) with (y ++ []). unfold chunk. by rewrite app_nil_r, <- !app_assoc.
Qed.

Lemma leaves_chunks ps : leaves (write_chunks ps) (fun _ x => x = chunked ps) any.
Proof using.
  induction ps as [|p ps IH]; cbn [write_chunks]; [by apply leaves_ret|].
  eapply leaves_bind; [apply leaves_chunk|done|]. intros _ x ->.
  eapply leaves_weaken; [apply IH| |done]. intros _ y ->. by rewrite <- chunked_app.
Qed.

(** What the compressor makes of a sequence of writes. *)
Fixpoint gz_run (ws : list (list byte)) (g : gz) : list (list byte) * gz :=
  match ws with
  | [] => ([], g)
  | w :: ws => let (p, g) := gz_write w g in let (ps, g) := gz_run ws g in (p ++ ps, g)
  end.

Lemma gz_run_app ws vs g :
  gz_run (ws ++ vs) g = ((gz_run ws g).1 ++ (gz_run vs (gz_run ws g).2).1, (gz_run vs (gz_run ws g).2).2).
Proof using.
  revert g. induction ws as [|w ws IH]; intros g; cbn [app gz_run fst snd]; [by destruct (gz_run vs g)|].
  destruct (gz_write w g) as [p g1]. rewrite IH. destruct (gz_run ws g1) as [ps g2]. cbn [fst snd].
  by rewrite app_assoc.
Qed.

(** The result of writing [ws]. *)
Definition wrote (ws : list (list byte)) (g g' : gz) (x : list byte) : Prop :=
  g' = (gz_run ws g).2 /\ x = chunked (gz_run ws g).1.

Lemma wrote_app ws vs g1 g2 g3 x y : wrote ws g1 g2 x -> wrote vs g2 g3 y -> wrote (ws ++ vs) g1 g3 (x ++ y).
Proof using.
  intros [-> ->] [-> ->]. split; rewrite gz_run_app; [done|]. cbn [fst]. by rewrite chunked_app.
Qed.

Lemma leaves_gz_write b g : leaves (gz_write_ b g) (fun g' x => wrote [b] g g' x) any.
Proof using.
  unfold gz_write_, wrote. cbn [gz_run]. destruct (gz_write b g) as [ps g'].
  eapply leaves_bind; [apply leaves_chunks|done|]. intros _ x ->. apply leaves_ret. cbn [fst snd].
  by rewrite !app_nil_r.
Qed.

Lemma leaves_gz_writes bs g : leaves (gz_writes bs g) (fun g' x => wrote bs g g' x) any.
Proof using.
  revert g. induction bs as [|b bs IH]; intros g; cbn [gz_writes]; [by apply leaves_ret|].
  eapply leaves_bind; [apply leaves_gz_write|done|]. intros g1 x Hx.
  eapply leaves_weaken; [apply IH| |done]. intros g2 y Hy. by apply (wrote_app [b] bs g g1 g2).
Qed.

(** The bytes a file gives before it ends. *)
Fixpoint contents (r : list Read) : list byte :=
  match r with
  | Http.Data b :: r => if is_empty b then [] else b ++ contents r
  | _ => []
  end.

Lemma read_contents cap r b r' :
  0 < cap -> read cap r = (Some b, r') -> contents r = b ++ (if is_empty b then [] else contents r').
Proof using.
  intros Hcap. destruct r as [|[d|] r]; cbn [read]; [by intros [= <- <-]| |done].
  destruct (Z.leb_spec (len d) cap) as [|Hgt]; intros [= <- <-]; cbn [contents].
  - by destruct d.
  - rewrite len_nat in Hgt. destruct d as [|y d]; [cbn in Hgt; lia|].
    assert (Hn : exists n, Z.to_nat cap = S n) by (exists (Nat.pred (Z.to_nat cap)); lia).
    destruct Hn as [n Hn]. rewrite Hn in *. cbn [take drop is_empty contents].
    assert (Hk : is_empty (drop n d) = false).
    { destruct (drop n d) eqn:Hk; [|done]. apply (f_equal length) in Hk. rewrite length_drop in Hk.
      cbn [length] in *. lia. }
    rewrite Hk. cbn [app]. f_equal. by rewrite app_assoc, take_drop.
Qed.

Lemma leaves_counting c :
  leaves (counting_read c)
    (fun '(b, c') x => x = [] /\ seen c' = seen c + len b /\
       contents (inner c) = b ++ (if is_empty b then [] else contents (inner c')))
    (fun x => x = []).
Proof using.
  unfold counting_read. apply leaves_ask. intros [|]; [by apply leaves_throw|].
  destruct (read 8192 (inner c)) as [[b|] r] eqn:Hr; [|by apply leaves_throw].
  apply read_contents in Hr; [|done].
  destruct (_ <=? _); [apply leaves_ask; intros _|]; by apply leaves_ret.
Qed.

Definition copied_all (copied : Z) (c : Counting) (g : gz) (res : Z * Counting * gz) (x : list byte) : Prop :=
  let '(n, c', g') := res in
  exists ws, wrote ws g g' x /\ mjoin ws = contents (inner c) /\ n = copied + len (mjoin ws) /\
             seen c' = seen c + len (mjoin ws).

Lemma leaves_copy fuel copied c g : leaves (copy fuel copied c g) (copied_all copied c g) any.
Proof using.
  revert copied c g. induction fuel as [|fuel IH]; intros copied c g; cbn [copy]; [by apply leaves_throw|].
  intros s r s' Hs. destruct (counting_read c s) as [[[b c1]|e] s1] eqn:Hc;
    destruct (leaves_counting c _ _ _ Hc) as (Hi & x & Hx & HP).
  - destruct HP as (-> & Hseen & Hcont). rewrite app_nil_r in Hx. rewrite <- Hi, <- Hx.
    destruct (is_empty b) eqn:Hb.
    + injection Hs as <- <-. split; [done|]. exists []. rewrite app_nil_r. split; [done|].
      destruct b; [|done]. exists []. cbn [mjoin list_join]. rewrite len_nil in *.
      split_and!; [done|by rewrite Hcont|lia|lia].
    + revert Hs. apply (leaves_bind _ _ (fun g' x => wrote [b] g g' x) (copied_all copied c g) any any);
        [apply leaves_gz_write|done|]. intros g1 y Hy.
      eapply leaves_weaken; [apply IH| |done]. intros [[n c'] g'] z (ws & Hw & Hj & Hn & Hs').
      exists (b :: ws). change (mjoin (b :: ws)) with (b ++ mjoin ws). rewrite len_app, Hj in *.
      split_and!; [by apply (wrote_app [b] ws g g1 g')|by rewrite Hcont|lia|lia].
  - subst x. rewrite app_nil_r in Hx. rewrite <- Hi, <- Hx.
    destruct e; try (injection Hs as <- <-; split; [done|]; exists []; by rewrite app_nil_r).
    exact (IH _ _ _ _ _ _ Hs).
Qed.

(** The archive of the items from the [n]-th on. *)
Fixpoint archive (n : Z) (items : list Item) : option (list byte) :=
  match items with
  | [] => Some (mjoin (odc_trailer n))
  | i :: items =>
      let^ header := odc_header n (str "./" ++ name i) (size i) in
      let^ rest := archive (n + 1) items in
      Some (mjoin header ++ contents (file i) ++ rest)
  end.

Definition sized (i : Item) : Prop := len (contents (file i)) = size i.

Definition sent_all (n done : Z) (items : list Item) (g : gz) (res : Z * gz) (x : list byte) : Prop :=
  exists ws, wrote ws g res.2 x /\ archive n items = Some (mjoin ws) /\ Forall sized items /\
             res.1 = done + total_size items.

Lemma leaves_items fuel total n done items g :
  leaves (send_items fuel total n done items g) (sent_all n done items g) any.
Proof using.
  revert n done g. induction items as [|i items IH]; intros n done g; cbn [send_items].
  { eapply leaves_bind; [apply leaves_gz_writes|done|]. intros g' x Hx. apply leaves_ret.
    exists (odc_trailer n). rewrite app_nil_r. split_and!; [done|done|done|cbn; lia]. }
  apply leaves_ask. intros [|]; [by apply leaves_throw|].
  destruct (odc_header n _ (size i)) as [header|] eqn:Hh; [|by apply leaves_throw].
  eapply leaves_bind; [apply leaves_gz_writes|done|]. intros g1 x Hx.
  eapply leaves_bind; [apply leaves_copy|done|]. intros [[copied c] g2] y (ws & Hy & Hj & Hn & Hseen).
  cbn [inner seen] in *. destruct (Z.eqb_spec copied (size i)) as [Heq|]; [|by apply leaves_throw]. cbn [negb].
  apply leaves_ask. intros _. eapply leaves_weaken; [apply IH| |done].
  intros [d g'] z (vs & Hz & Ha & Hsz & Hd). exists (header ++ ws ++ vs). cbn [fst snd] in *. split_and!.
  - eapply wrote_app; [exact Hx|]. by eapply wrote_app.
  - cbn [archive]. rewrite Hh. cbn. rewrite Ha. cbn. by rewrite !join_app, Hj.
  - constructor; [|done]. unfold sized. rewrite <- Hj. lia.
  - cbn [total_size foldr]. unfold total_size in Hd. lia.
Qed.

(** ** Properties *)

Definition ask_request (sender_id : list byte) (items : list Item) (sender_name sender_model : list byte) : list byte :=
  let body := ask_body sender_id items sender_name sender_model in
  request_head (str "/Ask") body true ++ body.

(** The pieces the compressor makes of the writes of a whole archive. *)
Definition pieces (ws : list (list byte)) : list (list byte) :=
  let (ps, g) := gz_run ws gz_new in ps ++ gz_finish g.

Lemma leaves_offer sender_id items sender_name sender_model :
  leaves (offer (ask_body sender_id items sender_name sender_model))
    (fun _ x => x = ask_request sender_id items sender_name sender_model)
    (fun x => x `prefix_of` ask_request sender_id items sender_name sender_model).
Proof using.
  unfold ask_request. generalize (ask_body sender_id items sender_name sender_model) as body. intros body.
  unfold offer. set (head := request_head _ _ _).
  apply (leaves_bind _ _ (fun _ x => x = []) _ _ (fun x => x = [])).
  { apply leaves_ask. intros []; [by apply leaves_ret|by apply leaves_throw]. }
  { intros x ->. apply prefix_nil. }
  intros _ x ->. cbn [app].
  apply (leaves_bind _ _ (fun _ x => x = head ++ body) _ _ (fun x => x `prefix_of` head ++ body)); [|done|].
  - apply leaves_put; [apply prefix_nil|]. fold head. apply leaves_put; [by rewrite app_nil_r; apply prefix_app_r|].
    apply leaves_flush; by rewrite !app_nil_r.
  - intros _ x ->. eapply leaves_weaken; [apply leaves_wait| |]; [intros _ x ->|intros x ->]; by rewrite app_nil_r.
Qed.

Lemma leaves_upload fuel items :
  leaves (upload fuel items)
    (fun _ x => exists ws, archive 0 items = Some (mjoin ws) /\ Forall sized items /\
       x = upload_head (total_size items) ++ chunked (pieces ws) ++ last_chunk) any.
Proof using.
  apply leaves_put; [done|]. eapply leaves_bind; [apply leaves_items|done|].
  intros [d g] x (ws & [Hg Hx] & Ha & Hs & _). cbn [snd] in Hg.
  eapply leaves_bind; [apply leaves_chunks|done|]. intros _ y ->.
  apply leaves_put; [done|]. apply leaves_flush; [|done]. exists ws. split_and!; [done|done|].
  unfold pieces. destruct (gz_run ws gz_new) as [ps g'] eqn:Hr. cbn [fst snd] in *. subst g x.
  rewrite chunked_app, app_nil_r, <- !app_assoc. done.
Qed.

Lemma response_sent s r s' : response_ s = (r, s') -> sent s' = sent s.
Proof using.
  unfold response_. destruct (read_response (input s)) as [[[status body]|[]] r1]; by intros [= <- <-].
Qed.

Lemma response_read s status body s' :
  response_ s = (Ok (status, body), s') -> exists r1, read_response (input s) = (Ok (status, body), r1).
Proof using.
  unfold response_. destruct (read_response (input s)) as [[a|[]] r1]; intros [= -> _]. by exists r1.
Qed.

(** A step of a sequence has ended. *)
Lemma bind_ok {A B} (m : M A) (k : A -> M B) s a s' : m s = (Ok a, s') -> bind m k s = k a s'.
Proof using. intros Hm. unfold bind. by rewrite Hm. Qed.
Lemma bind_err {A B} (m : M A) (k : A -> M B) s e s' : m s = (Err e, s') -> bind m k s = (Err e, s').
Proof using. intros Hm. unfold bind. by rewrite Hm. Qed.

(** What [send] writes, whatever it returns. *)
Lemma send_spec fuel sender_id items sender_name sender_model s :
  let a := ask_request sender_id items sender_name sender_model in
  let (r, s') := send fuel sender_id items sender_name sender_model s in
  exists x, sent s' = sent s ++ x /\
    (x `prefix_of` a \/ exists body r1, read_response (input s) = (Ok (200, body), r1)) /\
    (r = Ok tt -> exists ws, archive 0 items = Some (mjoin ws) /\ Forall sized items /\
       x = a ++ upload_head (total_size items) ++ chunked (pieces ws) ++ last_chunk).
Proof using.
  intros a. unfold send. destruct (is_empty items).
  { exists []. rewrite app_nil_r. split_and!; [done|left; apply prefix_nil|done]. }
  destruct (offer (ask_body sender_id items sender_name sender_model) s) as [ro s1] eqn:Ho.
  destruct (leaves_offer _ _ _ _ _ _ _ Ho) as (Hi & x & Hx & HP). fold a in HP. clearbody a.
  destruct ro as [[]|e]; [|rewrite (bind_err _ _ _ _ _ Ho); by exists x; split_and!; [|left|]].
  rewrite (bind_ok _ _ _ _ _ Ho). subst x. clear Ho.
  destruct (response_ s1) as [rr s2] eqn:Hr. pose proof (response_sent _ _ _ Hr) as Hs2. rewrite <- Hs2 in Hx.
  destruct rr as [[status body]|e]; [|rewrite (bind_err _ _ _ _ _ Hr); by exists a; split_and!; [|left|]].
  rewrite (bind_ok _ _ _ _ _ Hr). destruct (response_read _ _ _ _ Hr) as (r1 & Hr1). clear Hr. rewrite Hi in Hr1.
  destruct (status =? 0); [by exists a; split_and!; [|left|]|].
  destruct (Z.eqb_spec status 200) as [->|]; [|by exists a; split_and!; [|left|]]. cbn [negb].
  destruct (upload fuel items s2) as [ru s3] eqn:Hu.
  destruct (leaves_upload _ _ _ _ _ Hu) as (_ & y & Hy & HQ). rewrite Hx, <- app_assoc in Hy.
  destruct ru as [[]|e].
  2:{ rewrite (bind_err _ _ _ _ _ Hu). exists (a ++ y). split_and!; [done|right; by exists body, r1|done]. }
  rewrite (bind_ok _ _ _ _ _ Hu). clear Hu.
  destruct (response_ s3) as [rv s4] eqn:Hv. rewrite <- (response_sent _ _ _ Hv) in Hy.
  destruct HQ as (ws & Ha & Hsz & ->).
  destruct rv as [[st b]|e].
  - rewrite (bind_ok _ _ _ _ _ Hv). clear Hv.
    destruct (negb (st =? 200)); eexists; (split_and!; [exact Hy|right; by exists body, r1|]); [done|].
    intros _. by exists ws.
  - rewrite (bind_err _ _ _ _ _ Hv). eexists. split_and!; [exact Hy|right; by exists body, r1|done].
Qed.

(** C15: no byte of a file leaves before the peer has accepted, and success means that all of
    them have left.  Whatever the network, the clock and the peer do, what [send] writes is a
    part of the offer, or the peer has answered the offer with status 200.  If it succeeds, it
    has written exactly the offer, the head of the upload, one chunk for each piece the
    compressor made of the archive, and the last chunk; the archive is that of every item under
    its name with all the bytes its file gave, which are as many as the offer declared. *)
Theorem send_sends_the_archive fuel sender_id items sender_name sender_model s :
  let a := ask_request sender_id items sender_name sender_model in
  let (r, s') := send fuel sender_id items sender_name sender_model s in
  exists x, sent s' = sent s ++ x /\
    (x `prefix_of` a \/ exists body r1, read_response (input s) = (Ok (200, body), r1)) /\
    (r = Ok tt -> exists ws, archive 0 items = Some (mjoin ws) /\ Forall sized items /\
       x = a ++ upload_head (total_size items) ++ chunked (pieces ws) ++ last_chunk).
Proof using. apply send_spec. Qed.

(** Whether a cancel is, or is not, and stays so. *)
Definition flag (b : bool) (steady : world -> Prop) : Prop :=
  forall w, steady w -> (cancelled w).1 = b /\ steady (cancelled w).2.

(** What does not touch the flag. *)
Definition kept (steady : world -> Prop) : Prop :=
  (forall w b, steady w -> steady (write_all b w).2) /\ (forall w d t, steady w -> steady (progress d t w)).

Lemma write_chunk_returns steady p s :
  kept steady -> steady (wld s) -> steady (wld (write_chunk p s).2) /\ (write_chunk p s).1 <> Err Running.
Proof using.
  intros [Hw _] Hs. assert (Hone : forall b s, steady (wld s) -> steady (wld (write b s).2) /\ (write b s).1 <> Err Running).
  { clear s Hs. intros b s Hs. unfold write. specialize (Hw (wld s) b Hs).
    destruct (write_all b (wld s)) as [[] w]; by split. }
  unfold write_chunk. destruct (is_empty p); [by split|]. unfold bind.
  destruct (Hone (show_radix 16 (len p) ++ CRLF) s Hs) as [Hw1 R1].
  destruct (write _ s) as [[[]|e] s1]; [|split; [done|intros [= ->]; done]].
  destruct (Hone p s1 Hw1) as [Hw2 R2]. destruct (write p s1) as [[[]|e] s2]; [|split; [done|intros [= ->]; done]].
  by apply Hone.
Qed.

Lemma gz_write_returns steady b g s :
  kept steady -> steady (wld s) -> steady (wld (gz_write_ b g s).2) /\ (gz_write_ b g s).1 <> Err Running.
Proof using.
  intros Hk Hs. unfold gz_write_. destruct (gz_write b g) as [ps g'].
  assert (Hps : steady (wld (write_chunks ps s).2) /\ (write_chunks ps s).1 <> Err Running).
  { revert s Hs. induction ps as [|p ps IH]; intros s Hs; [by split|]. cbn [write_chunks]. unfold bind.
    destruct (write_chunk_returns steady p s Hk Hs) as [Hw1 R1].
    destruct (write_chunk p s) as [[[]|e] s1]; cbn [fst snd] in *; [by apply IH|by split; [|intros [= ->]]]. }
  destruct Hps as [Hl R]. unfold bind.
  destruct (write_chunks ps s) as [[[]|e] s1]; cbn [fst snd] in *; by split; [|intros [= ->]].
Qed.

(** C16: a file that is not cancelled is copied, and one that is never stops being copied.  If
    the flag of a cancel stays down, copying a file ends, within as many reads as it has bytes
    and failures.  But once the flag is up, no number of reads ends it: the error by which the
    reader reports the cancel is the one that [std::io::copy] answers by reading again. *)
Theorem copy_ends_unless_cancelled steady copied c g s :
  kept steady -> steady (wld s) ->
  (flag false steady -> forall fuel, (source_len (inner c) < fuel)%nat ->
     (copy fuel copied c g s).1 <> Err Running) /\
  (flag true steady -> forall fuel, (copy fuel copied c g s).1 = Err Running).
Proof using.
  intros Hk Hs. split.
  - intros Hf fuel. revert copied c g s Hs. induction fuel as [|fuel IH]; intros copied c g s Hs Hl; [lia|].
    cbn [copy]. unfold counting_read, asking, bind at 1. destruct (Hf _ Hs) as [Hc Hs1].
    destruct (cancelled (wld s)) as [x w]. cbn [fst snd] in Hc, Hs1. subst x.
    destruct (read 8192 (inner c)) as [[b|] r] eqn:Hr; [|by cbn].
    pose proof (read_shorter 8192 (inner c) ltac:(lia)) as Hsh. rewrite Hr in Hsh. cbn [snd] in Hsh.
    assert (Hgo : forall s2 c2, steady (wld s2) -> inner c2 = r ->
      (if is_empty b then (Ok (copied, c2, g), s2)
       else bind (gz_write_ b g) (fun g => copy fuel (copied + len b) c2 g) s2).1 <> Err Running).
    { intros s2 c2 Hs2 Hr2. destruct (is_empty b) eqn:Hb; [done|]. unfold bind.
      destruct (gz_write_returns steady b g s2 Hk Hs2) as [Hs3 R3].
      destruct (gz_write_ b g s2) as [[g'|e] s3]; cbn [fst snd] in *; [|by intros [= ->]].
      apply IH; [done|]. rewrite Hr2. destruct (inner c) as [|x y]; [|specialize (Hsh ltac:(done)); lia].
      cbn in Hr. by injection Hr as <- _. }
    destruct (_ <=? _); [|by apply Hgo]. unfold report, asking, bind at 1. apply Hgo; [|done].
    cbn [wld]. by apply Hk.
  - intros Hf fuel. revert s Hs. induction fuel as [|fuel IH]; intros s Hs; [done|].
    cbn [copy]. unfold counting_read, asking, bind at 1. destruct (Hf _ Hs) as [Hc Hs1].
    destruct (cancelled (wld s)) as [x w]. cbn [fst snd] in Hc, Hs1. subst x. by apply IH.
Qed.

End Send.

(** ** A concrete network *)

Module ToySend.

(** The world is the flag of a cancel. *)
#[local] Instance toy_network : Network := {|
  world := bool; connected w := (Ok tt, w); write_all _ w := (true, w); flush w := (true, w);
  ready w := (Some true, w); cancelled w := (w, w); progress _ _ w := w
|}.

(** A compressor that writes every byte on its own, and an archive of plain headers. *)
#[local] Instance toy_gzip : Gzip := {|
  gz := unit; gz_new := tt; gz_write b _ := ((fun x => [x]) <$> b, tt); gz_finish _ := [str "!"]
|}.
#[local] Instance toy_odc : Odc := {|
  odc_header n name size := Some [name; show size]; odc_trailer n := [str "end"]
|}.

Definition photo : Item := mkItem [Http.Data (str "ab"); Http.Data (str "c")] (str "photo.jpg") 3.
Definition ok_response : list byte := head_of [str "HTTP/1.1 200 OK"; str "Content-Length: 0"].

Example a_send_succeeds :
  (send 10 (str "id") [photo] (str "Pixel") (str "Pixel 9")
     (mkSt false [Http.Data ok_response; Http.Data ok_response] [])).1 = Ok tt.
Proof. by vm_compute. Qed.

(** A peer that declines: nothing but the offer has left. *)
Example a_send_declined :
  let (r, s) := send 10 (str "id") [photo] (str "Pixel") (str "Pixel 9")
                  (mkSt false [Http.Data (head_of [str "HTTP/1.1 401 Unauthorized"])] []) in
  r = Err PermissionDenied /\ sent s = ask_request (str "id") [photo] (str "Pixel") (str "Pixel 9").
Proof. by vm_compute. Qed.

Definition copying : Counting := mkCounting (file photo) 0 0 3 0 65536.

Definition cancelled_ : @St toy_network := @mkSt toy_network true [] [].
Definition running : @St toy_network := @mkSt toy_network false [] [].

Lemma copy_ends_unless_cancelled_witness :
  (forall fuel, (copy fuel 0 copying tt cancelled_).1 = Err Running) /\
  (copy 6 0 copying tt running).1 <> Err Running.
Proof.
  split.
  - apply (proj2 (@copy_ends_unless_cancelled toy_network toy_gzip (fun w : bool => w = true) 0 copying tt cancelled_
                    ltac:(split; intros; assumption) eq_refl)).
    intros w Hw. split; exact Hw.
  - apply (proj1 (@copy_ends_unless_cancelled toy_network toy_gzip (fun w : bool => w = false) 0 copying tt running
                    ltac:(split; intros; assumption) eq_refl)).
    + intros w Hw. split; exact Hw.
    + cbn. lia.
Defined.

End ToySend.
