(* ===== verification/Airdrop.v ===== *)
(** * The AirDrop server ([sharingd/src/httpd.rs], [Httpd])

    What one connection does with its requests: who the device is, the offer and the wait for
    its answer, the upload.  Connections run in threads of their own over shared state, so a
    connection is given what the other threads do before each of its accesses.  The theorems
    are about what an offer is answered, and what that is worth. *)

From stdpp Require Import gmap.
From S2P Require Import Prelude Utf8 Utf16 Text Plist Http Inbox Transfers.
#[local] Open Scope rust_scope.

Definition PROGRESS_STEP : Z := 256 * 1024.
Definition FAILED_ARCHIVE_KEEP_MAX : Z := 64 * 1024 * 1024.

(** ** What a prompt says *)

Definition default_bytes (o : option (list byte)) : list byte := unwrap_or o [].

(** The loop over the files of an offer. *)
Fixpoint offer_names (items : list Val) (names : list (list byte)) : option (list (list byte)) :=
  match items with
  | [] => Some names
  | it :: items =>
      let n := default_bytes
                 (match (let^ v := val_get (str "FileName") it in as_str v) with
                  | Some s => Some s
                  | None => let^ v := val_get (str "FileBomPath") it in as_str v
                  end) in
      let leaf := last_part slash n in
      if is_empty leaf then offer_names items names
      else if negb (display_safe leaf) then None
      else offer_names items (names ++ [leaf])
  end.

(** [Some None] is an offer that must be refused; [None] a panic in the parser. *)
Definition describe_offer (body : list byte) : option (option (list byte * list (list byte))) :=
  match parse body with
  | Err Overflowed => None
  | Err Refused => Some (Some ([], []))
  | Ok v =>
      let from := default_bytes (let^ s := val_get (str "SenderComputerName") v in as_str s) in
      Some (
        let^ names := match val_get (str "Files") v with
                      | Some (Array items) => offer_names items []
                      | _ => Some []
                      end in
        if negb (display_safe from) then None else Some (from, names))
  end.

(** ** The daemon *)

(** What clients are told. *)
Inductive Event : Type :=
| Offered (id : Z) (from : list byte) (names : list (list byte))
| Progressed (id done total : Z)
| Finished (id status : Z).

Section Airdrop.
Context {Sock File Group : Type}.

Record Daemon : Type := mkDaemon {
  table : @St Sock File Group;
  fs : Fs;
  discoverable : bool;
  auto_accept : bool;
  device_name : list byte;
  clock : Z;
  events : list Event
}.

Definition set_table (t : St) (d : Daemon) : Daemon :=
  mkDaemon t (fs d) (discoverable d) (auto_accept d) (device_name d) (clock d) (events d).
Definition set_fs (f : Fs) (d : Daemon) : Daemon :=
  mkDaemon (table d) f (discoverable d) (auto_accept d) (device_name d) (clock d) (events d).
Definition emit (e : Event) (d : Daemon) : Daemon :=
  mkDaemon (table d) (fs d) (discoverable d) (auto_accept d) (device_name d) (clock d) (events d ++ [e]).

(** A round of the wait for an answer: what other threads do between the passes of
    [await_answer], whether the deadline is past, whether the peer has hung up. *)
Record Round : Type := mkRound { passes : list (Daemon -> Daemon); late : bool; gone : bool }.

(** ** A connection *)

(** What a connection does about an offer, for the theorems: looks at the device's visibility or
    policy, claims the slot, tells the clients, takes an answer; each with the state of the daemon
    it was done in, after the telling and before the others. *)
Inductive Act : Type :=
| Saw (d : Daemon) | Claimed (id : Z) (d : Daemon) | Told (e : Event) (d : Daemon) | Heard (id : Z) (yes : bool) (d : Daemon).

(** [others] is what other threads do before each access to what is shared, [link] and [disk]
    whether writes succeed; a list that has run out gives nothing, and success. *)
Record Conn : Type := mkConn {
  daemon : Daemon;
  input : list Read;
  out : list byte;
  others : list (Daemon -> Daemon);
  rounds : list Round;
  link : list bool;
  disk : list bool;
  random : nat -> list byte;
  acts : list Act
}.

Definition set_daemon (d : Daemon) (c : Conn) : Conn :=
  mkConn d (input c) (out c) (others c) (rounds c) (link c) (disk c) (random c) (acts c).
Definition set_input (r : list Read) (c : Conn) : Conn :=
  mkConn (daemon c) r (out c) (others c) (rounds c) (link c) (disk c) (random c) (acts c).

Inductive Problem : Type := Io (e : IoError) | Panicked.

Definition M (A : Type) : Type := Conn -> result A Problem * Conn.
Definition ret {A} (a : A) : M A := fun c => (Ok a, c).
Definition throw {A} (e : Problem) : M A := fun c => (Err e, c).
Definition bind {A B} (m : M A) (k : A -> M B) : M B :=
  fun c => match m c with (Ok a, c) => k a c | (Err e, c) => (Err e, c) end.

#[local] Notation "'let!' x ':=' m 'in' k" := (bind m (fun x => k))
  (at level 10, x pattern, m at level 100, k at level 200).
#[local] Notation "'do!' m 'in' k" := (bind m (fun _ => k))
  (at level 10, m at level 100, k at level 200).

(** Another thread's turn. *)
Definition interfere (c : Conn) : Conn :=
  match others c with
  | [] => c
  | o :: os => mkConn (o (daemon c)) (input c) (out c) os (rounds c) (link c) (disk c) (random c) (acts c)
  end.

(** One access to what is shared. *)
Definition shared {A} (f : Daemon -> A * Daemon) : M A :=
  fun c => let c := interfere c in
           let (a, d) := f (daemon c) in (Ok a, set_daemon d c).
Definition look {A} (f : Daemon -> A) : M A := shared (fun d => (f d, d)).
Definition change (f : Daemon -> Daemon) : M unit := shared (fun d => (tt, f d)).
Definition on_table {A} (f : @St Sock File Group -> A * St) : M A :=
  shared (fun d => let (a, t) := f (table d) in (a, set_table t d)).

Definition reading {A} (f : list Read -> A * list Read) : M A :=
  fun c => let (a, r) := f (input c) in (Ok a, set_input r c).

Definition respond (status : Z) (body : option (list byte)) (keep_alive : bool) : M unit :=
  fun c =>
    match link c with
    | false :: l => (Err (Io OsError), mkConn (daemon c) (input c) (out c) (others c) (rounds c) l (disk c) (random c) (acts c))
    | l => (Ok tt, mkConn (daemon c) (input c) (out c ++ response status body keep_alive) (others c)
                     (rounds c) (tail l) (disk c) (random c) (acts c))
    end.

Definition finish_ (id : Z) : M unit := change (fun d => set_table (finish id (table d)) d).
Definition note (a : Act) : M unit :=
  fun c => (Ok tt, mkConn (daemon c) (input c) (out c) (others c) (rounds c) (link c) (disk c) (random c) (acts c ++ [a])).
(** A look that is noted. *)
Definition observe {A} (f : Daemon -> A) : M A := let! d := look (fun d => d) in do! note (Saw d) in ret (f d).
Definition visible : M bool := observe discoverable.
Definition each_callback (e : Event) : M unit :=
  let! d := shared (fun d => (emit e d, emit e d)) in note (Told e d).

(** [progress]: the slot is kept alive, and clients are told. *)
Definition progress (id done total : Z) (d : Daemon) : Daemon :=
  emit (Progressed id done total) (set_table (touch (clock d) (table d)) d).

(** ** The offer *)

Inductive AskOutcome : Type := Accept | Decline | Cancelled | Timeout.

(** The answer, and the state it was found in. *)
Definition daemon_pass (id : Z) (d : Daemon) : Pass (option (bool * Daemon)) * Daemon :=
  let (p, t) := await_answer_pass id (table d) in
  (match p with Stop b => Stop (Some (b, d)) | Wait => Wait end, set_table t d).

(** [await_answer_watching], a round at a time; with no rounds left the deadline is past.  An
    answer that was taken is noted. *)
Fixpoint watching_loop (id : Z) (rs : list Round) (d : Daemon) : AskOutcome * list Act * list Round * Daemon :=
  match rs with
  | [] => (Timeout, [], [], d)
  | r :: rs =>
      match await (daemon_pass id) None (passes r) d with
      | (Some (true, found), d) => (Accept, [Heard id true found], rs, d)
      | (Some (false, found), d) => (Decline, [Heard id false found], rs, d)
      | (None, d) =>
          if late r then (Timeout, [], rs, d) else if gone r then (Cancelled, [], rs, d)
          else watching_loop id rs d
      end
  end.

Definition await_answer_watching (id : Z) : M AskOutcome :=
  fun c => let c := interfere c in
           let '(a, h, rs, d) := watching_loop id (rounds c) (daemon c) in
           (Ok a, mkConn d (input c) (out c) (others c) rs (link c) (disk c) (random c) (acts c ++ h)).

(** ** Who the device is *)

Variable model : list byte.

(** [media_capabilities]; a double quote is byte 34. *)
Definition quoted (s : list byte) : list byte := (fun b => if bool_decide (b = to_u8 39) then to_u8 34 else b) <$> s.
Definition level_ : list byte :=
  str "{'VTMaxPlaybackLevel':186,'VTIsHardwareAccelerated':true,'VTMaxDecodeLevel':186}".
Definition profiles : list byte :=
  str "'VTSupportedProfiles':[1,2],'VTPerProfileSupport':{'1':" ++ level_ ++ str ",'2':" ++ level_ ++ str "}".
Definition media_capabilities : list byte :=
  quoted (str "{'Version':3,'Codecs':{'hvc1':{'Profiles':{" ++ profiles
          ++ str "}}},'CodecSupport':{'VTCodecSupportDict':{'hvc1':{" ++ profiles ++ str "}}}}").

Definition discover_body (name : list byte) : list byte :=
  dict [(str "ReceiverComputerName", VStr name); (str "ReceiverModelName", VStr model);
        (str "IsAirDropable", VBool true); (str "ReceiverMediaCapabilities", VData media_capabilities)].
Definition ask_body (name : list byte) : list byte :=
  dict [(str "ReceiverModelName", VStr model); (str "ReceiverComputerName", VStr name)].

(** ** The upload *)

(** What the archive reader makes of the bytes of an archive, and the paths that cannot be
    created. *)
Variable unpack : list byte -> Archive.
Variable denied : list byte -> bool.

(** What the closures of [receive_upload] have: the connection, the archive's path and the
    progress last reported. *)
Record Receiving : Type := mkReceiving { conn : Conn; last_report : Z }.

Definition on_conn {A} (f : Conn -> A * Conn) (w : Receiving) : A * Receiving :=
  let (a, c) := f (conn w) in (a, mkReceiving c (last_report w)).

(** [out.write_all]: the bytes go to the file, if it still has its name. *)
Definition write_archive (path b : list byte) (c : Conn) : bool * Conn :=
  let c := interfere c in
  match disk c with
  | false :: k => (false, mkConn (daemon c) (input c) (out c) (others c) (rounds c) (link c) k (random c) (acts c))
  | k => (true, mkConn (set_fs (alter (fun x => x ++ b) path (fs (daemon c))) (daemon c)) (input c) (out c)
                  (others c) (rounds c) (link c) (tail k) (random c) (acts c))
  end.

Definition on_progress (id total done : Z) (w : Receiving) : Receiving :=
  if (0 <? total) && (PROGRESS_STEP <=? Z.max 0 (done - last_report w)) then
    let c := interfere (conn w) in mkReceiving (set_daemon (progress id done total (daemon c)) c) done
  else w.

Definition cancelled_ (id : Z) (c : Conn) : bool * Conn :=
  let c := interfere c in (is_cancelled id (table (daemon c)), c).

Definition declared (head name : list byte) : option Z :=
  let^ v := header head name in parse_u64 (trim v).

(** [stream_chunked] or [stream_exact], by the head. *)
Definition stream (path : list byte) (id total : Z) (head : list byte) : M Z :=
  fun c =>
    let w := mkReceiving c 0 in
    let write b := on_conn (write_archive path b) in
    let flush w := (true, w) in
    let stopped := on_conn (cancelled_ id) in
    let '(r, u, rest) :=
      if is_chunked head then stream_chunked write flush (on_progress id total) stopped w (input c)
      else stream_exact write flush (on_progress id total) stopped (unwrap_or (content_length head) total) w (input c) in
    (match r with Ok n => Ok n | Err e => Err (Io e) end, set_input rest (conn (up u))).

Definition remove_file (path : list byte) (d : Daemon) : Daemon := set_fs (delete path (fs d)) d.

(** Creating the archive under a random name. *)
Definition create_archive : M (list byte) :=
  fun c => let c := interfere c in
           match create_unique 8 denied (fs (daemon c)) INBOX (str "cpio") (random c) with
           | None => (Err (Io OsError), c)
           | Some (path, f) => (Ok path, set_daemon (set_fs f (daemon c)) c)
           end.

(** Unpacking, and what becomes of the archive. *)
Definition unpack_archive (path : list byte) (id : Z) : M unit :=
  let! (r, size) := shared (fun d =>
    match fs d !! path with
    | None => ((Err ECreate, 0), d)
    | Some bytes => let (r, f) := extract denied (unpack bytes) (fs d) in ((r, len bytes), set_fs f d)
    end) in
  match r with
  | Ok names =>
      do! change (remove_file path) in
      each_callback (Finished id (as_i32 (len names)))
  | Err _ =>
      do! (if FAILED_ARCHIVE_KEEP_MAX <? size then change (remove_file path) else ret tt) in
      throw (Io InvalidData)
  end.

Definition receive_upload (head : list byte) (id : Z) : M (list byte) :=
  let! path := create_archive in
  let total := unwrap_or (declared head (str "totalbytes")) 0 in
  let declared_len := unwrap_or (declared head (str "content-length")) 0 in
  if (MAX_UPLOAD_BYTES <? total) || (MAX_UPLOAD_BYTES <? declared_len) then throw (Io InvalidData)
  else
    let! written := stream path id total head in
    let! stopped := look (fun d => is_cancelled id (table d)) in
    if stopped then
      do! change (remove_file path) in
      throw (Io Interrupted)
    else
      do! change (progress id written (if 0 <? total then total else written)) in
      do! unpack_archive path id in
      ret path.

(** ** Requests *)

Inductive Disposition : Type := KeepAlive | Close.

Definition refuse : M Disposition := do! respond 401 None false in ret Close.

(** [POST /Ask], to a device that is visible. *)
Definition ask (body : list byte) (keep_alive : bool) : M Disposition :=
  let! (id, found) := shared (fun d => let (r, t) := try_begin (clock d) true (table d) in ((r, d), set_table t d)) in
  match id with
  | None => refuse
  | Some id =>
      do! note (Claimed id found) in
      match describe_offer body with
      | None => throw Panicked
      | Some None => do! finish_ id in refuse
      | Some (Some (from, names)) =>
          let! auto := observe auto_accept in
          do! (if auto then ret tt else each_callback (Offered id from names)) in
          let! answer := (if auto then
                            do! on_table (fun t => (tt, answer id true t)) in
                            ret Accept
                          else await_answer_watching id) in
          match answer with
          | Accept =>
              let! name := look device_name in
              do! respond 200 (Some (ask_body name)) keep_alive in
              ret (if keep_alive then KeepAlive else Close)
          | Decline | Timeout => do! finish_ id in refuse
          | Cancelled => do! each_callback (Finished id (-3)) in do! finish_ id in ret Close
          end
      end
  end.

(** [POST /Upload], while there is a transfer. *)
Definition accept_upload (head : list byte) : M Disposition :=
  let! id := look (fun d => current (table d)) in
  fun c =>
    match receive_upload head id c with
    | (Ok _, c) => (do! finish_ id in do! respond 200 None false in ret Close) c
    | (Err Panicked, c) => (Err Panicked, c)
    | (Err (Io e), c) =>
        (do! each_callback (Finished id (match e with ConnectionAborted => -3 | _ => -1 end)) in
         do! finish_ id in
         do! respond 500 None false in
         ret Close) c
    end.

Definition says (s : list byte) (t : string) : bool := bool_decide (s = str t).

Definition route (method path head body : list byte) (keep_alive : bool) : M Disposition :=
  let answered := ret (if keep_alive then KeepAlive else Close) in
  if says method "HEAD" && says path "/" then
    let! v := visible in
    if negb v then refuse else do! respond 200 None keep_alive in answered
  else if says method "POST" && says path "/Discover" then
    let! v := visible in
    if negb v then refuse
    else
      let! name := look device_name in
      do! respond 200 (Some (discover_body name)) keep_alive in answered
  else if says method "POST" && says path "/Ask" then
    let! v := visible in
    if negb v then refuse else ask body keep_alive
  else if says method "POST" && says path "/Upload" then
    let! id := look (fun d => current (table d)) in
    if id =? 0 then refuse else accept_upload head
  else do! respond 401 None keep_alive in answered.

(** The body of a request other than an upload; [None] if it was refused for its size. *)
Definition request_body (head path : list byte) : M (option (list byte)) :=
  if says path "/Upload" then ret (Some [])
  else
    let! r := reading (fun r => read_body r head) in
    match r with
    | Err Overflow => throw Panicked
    | Ok (_, true) => ret None
    | Ok (b, false) => ret (Some b)
    end.

Definition wants_keep_alive (head : list byte) : bool :=
  match header head (str "connection") with
  | Some v => eq_ignore_ascii_case v (str "keep-alive")
  | None => false
  end.

Definition handle : M Disposition :=
  let! r := reading read_head in
  match r with
  | Err e => throw (Io e)
  | Ok head =>
      let words := split_whitespace head in
      let method := default_bytes (words !! 0%nat) in
      let path := default_bytes (words !! 1%nat) in
      let! body := request_body head path in
      match body with
      | None => do! respond 413 None false in ret Close
      | Some body => route method path head body (wants_keep_alive head)
      end
  end.

(** [serve_connection]: requests until one of them closes; [n] is a bound on their number. *)
Fixpoint serve_connection (n : nat) : M unit :=
  match n with
  | O => ret tt
  | S n => let! d := handle in
           match d with KeepAlive => serve_connection n | Close => ret tt end
  end.

(** [serve_one], from the door on: who may talk to the server at all, by the addresses of the
    peer and of the device, sixteen bytes each; TLS is the identity. *)
Definition admits (own : list byte) (peer : option (list byte)) : bool :=
  match peer with
  | Some ip => negb (bool_decide (ip = own)) && (Z.land (from_be_bytes (take 2 ip)) 0xffc0 =? 0xfe80)
  | None => true
  end.

Definition serve_one (n : nat) (own : list byte) (peer : option (list byte)) : M unit :=
  if negb (admits own peer) then ret tt
  else fun c =>
    let (_, c) := serve_connection n c in (Ok tt, set_input (drain (input c)) c).

(** ** Lemmas *)

(** Whatever the other threads, the link and the disk do, [m] adds [x] to what was written and
    [h] to what was done, with [Q] of them and its result. *)
Definition traces {A} (m : M A) (Q : result A Problem -> list byte -> list Act -> Prop) : Prop :=
  forall c r c', m c = (r, c') ->
    exists x h, out c' = out c ++ x /\ acts c' = acts c ++ h /\ Q r x h.

(** Nothing is written and nothing done. *)
Definition quiet {A} (m : M A) : Prop := traces m (fun _ x h => x = [] /\ h = []).

Lemma traces_ret {A} (a : A) (Q : result A Problem -> list byte -> list Act -> Prop) : Q (Ok a) [] [] -> traces (ret a) Q.
Proof using. intros HQ c r c' [= <- <-]. exists [], []. by rewrite !app_nil_r. Qed.

Lemma traces_throw {A} e (Q : result A Problem -> list byte -> list Act -> Prop) : Q (Err e) [] [] -> traces (throw e) Q.
Proof using. intros HQ c r c' [= <- <-]. exists [], []. by rewrite !app_nil_r. Qed.

Lemma traces_bind {A B} (m : M A) (k : A -> M B) P (Q : result B Problem -> list byte -> list Act -> Prop) :
  traces m P -> (forall e x h, P (Err e) x h -> Q (Err e) x h) ->
  (forall a x h, P (Ok a) x h -> traces (k a) (fun r y g => Q r (x ++ y) (h ++ g))) ->
  traces (bind m k) Q.
Proof using.
  intros Hm He Hk c r c' Hb. unfold bind in Hb. destruct (m c) as [[a|e] c1] eqn:Hc1;
    destruct (Hm _ _ _ Hc1) as (x & h & Hx & Hh & HP).
  - destruct (Hk _ _ _ HP _ _ _ Hb) as (y & g & Hy & Hg & HQ). exists (x ++ y), (h ++ g).
    rewrite !app_assoc, <- Hx, <- Hh. done.
  - injection Hb as <- <-. exists x, h. auto.
Qed.

Lemma interfere_kept c : out (interfere c) = out c /\ acts (interfere c) = acts c.
Proof using. unfold interfere. by destruct (others c). Qed.

Lemma quiet_shared {A} (f : Daemon -> A * Daemon) : quiet (shared f).
Proof using.
  intros c r c'. unfold shared. destruct (f (daemon (interfere c))) as [a d]. intros [= <- <-].
  exists [], []. rewrite !app_nil_r. destruct (interfere_kept c) as [Ho Ha]. by split_and!.
Qed.

Lemma traces_weaken {A} (m : M A) (P Q : result A Problem -> list byte -> list Act -> Prop) :
  traces m P -> (forall r x h, P r x h -> Q r x h) -> traces m Q.
Proof using.
  intros Hm HPQ c r c' Hc. destruct (Hm _ _ _ Hc) as (x & h & Hx & Hh & HP). exists x, h. auto.
Qed.

(** A quiet step. *)
Lemma traces_quiet {A B} (m : M A) (k : A -> M B) Q :
  quiet m -> (forall e, Q (Err e) [] []) -> (forall a, traces (k a) Q) -> traces (bind m k) Q.
Proof using.
  intros Hm He Hk. eapply traces_bind; [exact Hm|by intros e x h [-> ->]|]. intros a x h [-> ->]. apply Hk.
Qed.

(** A step that is noted. *)
Lemma traces_note {B} a (k : unit -> M B) (Q : result B Problem -> list byte -> list Act -> Prop) :
  traces (k tt) (fun r y g => Q r y (a :: g)) -> traces (bind (note a) k) Q.
Proof using.
  intros Hk. apply (traces_bind _ _ (fun r x h => r = Ok tt /\ x = [] /\ h = [a])).
  - intros c r c' [= <- <-]. exists [], [a]. by rewrite app_nil_r.
  - by intros e x h (? & _).
  - by intros [] x h (_ & -> & ->).
Qed.

Lemma traces_respond status body keep_alive :
  traces (respond status body keep_alive)
    (fun r x h => h = [] /\ (x = [] \/ x = response status body keep_alive)).
Proof using.
  intros c r c'. unfold respond. destruct (link c) as [|[] l]; intros [= <- <-]; cbn [out acts].
  3: by exists [], []; rewrite !app_nil_r; auto.
  all: by exists (response status body keep_alive), []; rewrite app_nil_r; auto.
Qed.

(** What a request to the device may have been answered, and after which acts. *)
Definition answered_by (approved : list Act -> Prop) (x : list byte) (h : list Act) : Prop :=
  x = [] \/ exists status body keep_alive, x = response status body keep_alive /\ (status = 200 -> approved h).

Lemma answered_nil approved h : answered_by approved [] h.
Proof using. by left. Qed.

Lemma traces_refuse (approved : list Act -> Prop) g :
  traces refuse (fun r x h => answered_by approved x (g ++ h)).
Proof using.
  unfold refuse. eapply traces_bind; [apply traces_respond| |].
  - intros e x h [-> [->| ->]]; [apply answered_nil|]. right. by exists 401, None, false.
  - intros [] x h [-> Hx]. apply traces_ret. rewrite app_nil_r.
    destruct Hx as [->| ->]; [apply answered_nil|]. right. by exists 401, None, false.
Qed.

Lemma observed {A} (f : Daemon -> A) :
  traces (observe f) (fun r x h => x = [] /\ exists d, r = Ok (f d) /\ h = [Saw d]).
Proof using.
  intros c r c'. unfold observe, look, bind, shared, note, ret. intros [= <- <-]. cbn [out acts set_daemon].
  destruct (interfere_kept c) as [-> ->]. exists [], [Saw (daemon (interfere c))]. rewrite app_nil_r. eauto 10.
Qed.

Lemma told_trace e :
  traces (each_callback e) (fun r x h => x = [] /\ r = Ok tt /\ exists d, h = [Told e d] /\ last (events d) = Some e).
Proof using.
  intros c r c'. unfold each_callback, bind, shared, note. intros [= <- <-]. cbn [out acts set_daemon].
  destruct (interfere_kept c) as [-> ->]. eexists [], [_]. rewrite app_nil_r. split_and!; [done|done|done|done|].
  eexists. split; [done|]. cbn [emit events]. apply last_snoc.
Qed.

(** What an answer that was taken to an offer comes from. *)
Definition heard_for (id : Z) (a : AskOutcome) (h : list Act) : Prop :=
  match a with
  | Accept => exists d, h = [Heard id true d] /\ decision (table d) = Some (id, true)
  | Decline => exists d, h = [Heard id false d] /\ decision (table d) = Some (id, false)
  | Cancelled | Timeout => h = []
  end.

Lemma found_answer id d b d0 : (daemon_pass id d).1 = Stop (Some (b, d0)) -> decision (table d0) = Some (id, b).
Proof using.
  unfold daemon_pass, await_answer_pass. destruct (decision (table d)) as [[who yes]|] eqn:E; [|done].
  destruct (Z.eqb_spec who id) as [->|]; [|done]. intros [= -> <-]. exact E.
Qed.

Lemma watching_heard id rs d a h rs' d' : watching_loop id rs d = (a, h, rs', d') -> heard_for id a h.
Proof using.
  revert d. induction rs as [|r rs IH]; intros d; cbn [watching_loop]; [by intros [= <- <- _ _]|].
  pose proof (await_some (daemon_pass id) (passes r) d) as Ha.
  destruct (await (daemon_pass id) None (passes r) d) as [[[yes d0]|] d1].
  - destruct (Ha _ eq_refl) as [d2 Hd2]. apply found_answer in Hd2.
    destruct yes; intros [= <- <- _ _]; cbn [heard_for]; eauto.
  - destruct (late r); [by intros [= <- <- _ _]|]. destruct (gone r); [by intros [= <- <- _ _]|]. apply IH.
Qed.

Lemma traces_watching id :
  traces (await_answer_watching id) (fun r x h => x = [] /\ exists a, r = Ok a /\ heard_for id a h).
Proof using.
  intros c r c'. unfold await_answer_watching.
  destruct (watching_loop id _ _) as [[[a h] rs] d] eqn:Hw. apply watching_heard in Hw.
  intros [= <- <-]. cbn [out acts]. destruct (interfere_kept c) as [-> ->].
  exists [], h. rewrite app_nil_r. split_and!; [done|done|done|by exists a].
Qed.

Lemma offer_names_safe items names names' :
  Forall (fun n => display_safe n = true) names -> offer_names items names = Some names' ->
  Forall (fun n => display_safe n = true) names'.
Proof using.
  revert names. induction items as [|it items IH]; intros names Hn; cbn [offer_names]; [by intros [= <-]|].
  set (leaf := last_part slash _). destruct (is_empty leaf); [by apply IH|].
  destruct (display_safe leaf) eqn:Hs; [|done]. apply IH. apply Forall_app. by repeat constructor.
Qed.

Lemma describe_offer_safe body from names :
  describe_offer body = Some (Some (from, names)) ->
  display_safe from = true /\ Forall (fun n => display_safe n = true) names.
Proof using.
  unfold describe_offer. destruct (parse body) as [v|[]]; [|by intros [= <- <-]|done].
  set (f := default_bytes _). set (ns := match val_get _ v with Some _ => _ | None => _ end).
  destruct ns as [l|] eqn:Hns; cbn; [|done]. destruct (display_safe f) eqn:Hf; [|done].
  intros [= <- <-]. split; [done|]. subst ns. destruct (val_get (str "Files") v) as [[]|]; try by injection Hns as <-.
  by eapply offer_names_safe.
Qed.

(** The acts after which an offer may be accepted: in the state it looked at the device is
    visible; in that it claimed the slot in, the claim succeeds; in that it looked at next, the
    policy waives the question, or does not, and then the last thing clients were told is the
    offer, and in the state the answer was taken from somebody's yes to that offer stands. *)
Definition approved (body : list byte) (h : list Act) : Prop :=
  exists id from names d1 d2 d3, describe_offer body = Some (Some (from, names)) /\
    display_safe from = true /\ Forall (fun n => display_safe n = true) names /\
    discoverable d1 = true /\ (try_begin (clock d2) true (table d2)).1 = Some id /\
    if auto_accept d3
    then h = [Saw d1; Claimed id d2; Saw d3]
    else exists d4 d5, h = [Saw d1; Claimed id d2; Saw d3; Told (Offered id from names) d4; Heard id true d5] /\
           last (events d4) = Some (Offered id from names) /\ decision (table d5) = Some (id, true).

(** A response to what was asked, at the end. *)
Lemma traces_answer (approved : list Act -> Prop) status body (keep_alive : bool) g :
  (status = 200 -> approved g) ->
  traces (do! respond status body keep_alive in ret (if keep_alive then KeepAlive else Close))
    (fun r x h => answered_by approved x (g ++ h)).
Proof using.
  intros Hok. eapply traces_bind; [apply traces_respond| |].
  - intros e x h [-> [->| ->]]; rewrite app_nil_r; [apply answered_nil|]. right. by exists status, body, keep_alive.
  - intros [] x h [-> Hx]. apply traces_ret. rewrite !app_nil_r.
    destruct Hx as [->| ->]; [apply answered_nil|]. right. by exists status, body, keep_alive.
Qed.

Lemma traces_finish (approved : list Act -> Prop) id g :
  traces (do! finish_ id in refuse) (fun r x h => answered_by approved x (g ++ h)).
Proof using.
  apply traces_quiet; [apply quiet_shared|intros; apply answered_nil|]. intros _. apply traces_refuse.
Qed.

(** The claim, when there is one, with what was found. *)
Lemma traces_claim {B} (k : option Z * Daemon -> M B) (Q : result B Problem -> list byte -> list Act -> Prop) :
  (forall d, traces (k ((try_begin (clock d) true (table d)).1, d)) Q) ->
  traces (bind (shared (fun d => let (r, t) := try_begin (clock d) true (table d) in ((r, d), set_table t d))) k) Q.
Proof using.
  intros Hk c r c'. unfold bind, shared. pose proof (Hk (daemon (interfere c))) as Hd.
  destruct (try_begin _ true _) as [i t]. cbn [fst] in Hd. intros Hr. destruct (Hd _ _ _ Hr) as (x & h & Hx & Hh & HQ).
  cbn [out acts set_daemon] in Hx, Hh. destruct (interfere_kept c) as [Eo Ea]. exists x, h. by rewrite Hx, Hh, Eo, Ea.
Qed.

Lemma traces_ask body keep_alive d1 : discoverable d1 = true ->
  traces (ask body keep_alive) (fun r x h => answered_by (approved body) x (Saw d1 :: h)).
Proof using.
  intros Hvis. unfold ask. apply traces_claim. intros d2.
  destruct (try_begin (clock d2) true (table d2)).1 as [id|] eqn:Hid; [|apply (traces_refuse _ [Saw d1])].
  apply traces_note.
  destruct (describe_offer body) as [[[from names]|]|] eqn:Hd; [|apply (traces_finish _ _ [Saw d1; Claimed id d2])|by apply traces_throw; left].
  destruct (describe_offer_safe _ _ _ Hd) as [Hsf Hsn].
  eapply traces_bind; [apply observed|by intros e x h (_ & d & ? & _)|]. intros auto_ x h (-> & d3 & [= ->] & ->). cbn [app].
  eapply (traces_bind _ _ (fun r x h => x = [] /\ (r = Ok tt ->
    if auto_accept d3 then h = [] else exists d4, h = [Told (Offered id from names) d4] /\ last (events d4) = Some (Offered id from names)))).
  { destruct (auto_accept d3); [by apply traces_ret|].
    eapply traces_weaken; [apply told_trace|]. intros r x h (-> & -> & d & Hh & He). split; [done|]. eauto. }
  { intros e x h [-> _]. apply answered_nil. }
  intros [] x h1 [-> Hh1]. specialize (Hh1 eq_refl). cbn [app].
  eapply (traces_bind _ _ (fun r x h => x = [] /\ (r = Ok Accept ->
    if auto_accept d3 then h = [] else exists d5, h = [Heard id true d5] /\ decision (table d5) = Some (id, true)))).
  { destruct (auto_accept d3).
    - apply traces_quiet; [apply quiet_shared|done|]. intros _. by apply traces_ret.
    - eapply traces_weaken; [apply traces_watching|]. intros r x h (-> & a & -> & Hh). split; [done|]. by intros [= ->]. }
  { intros e x h [-> _]. apply answered_nil. }
  intros a x h2 [-> Hh2]. cbn [app]. set (g := Saw d1 :: Claimed id d2 :: Saw d3 :: h1 ++ h2).
  assert (Hg : forall h, Saw d1 :: Claimed id d2 :: Saw d3 :: h1 ++ h2 ++ h = g ++ h).
  { intros h. unfold g. cbn [app]. by rewrite <- app_assoc. }
  destruct a.
  - specialize (Hh2 eq_refl).
    assert (Hok : approved body g).
    { exists id, from, names, d1, d2, d3. split_and!; [done..|]. unfold g. destruct (auto_accept d3).
      - by subst h1 h2.
      - destruct Hh1 as (d4 & -> & He). destruct Hh2 as (d5 & -> & Hd5). by exists d4, d5. }
    apply traces_quiet; [apply quiet_shared|intros; apply answered_nil|]. intros name.
    eapply traces_weaken; [apply (traces_answer (approved body) _ _ _ g); done|]. intros r x h. cbv beta. by rewrite Hg.
  - eapply traces_weaken; [apply (traces_finish (approved body) _ g)|]. intros r x h. cbv beta. by rewrite Hg.
  - apply (traces_bind _ _ (fun r x h => x = [])); [|by intros e x h ->; left|].
    { eapply traces_weaken; [apply told_trace|]. by intros r x h [-> _]. }
    intros [] x h ->. apply traces_quiet; [apply quiet_shared|intros; apply answered_nil|]. intros _.
    apply traces_ret, answered_nil.
  - eapply traces_weaken; [apply (traces_finish (approved body) _ g)|]. intros r x h. cbv beta. by rewrite Hg.
Qed.

(** ** Properties *)

(** C14: an offer is accepted only for the person who was asked about it.  Whatever the offer's
    body is, and whatever other threads, clients and the peer do meanwhile, a connection that
    answers [POST /Ask] with status 200 has found the device visible, has claimed the transfer
    slot for the offer, and then either has found that the policy is to accept unasked, or has
    found that it is not, has told the clients of the offer, with the sender's name and the names
    of the files, all safe to display, and has taken the answer to that very offer, a yes, that
    stood in the table; in every other case it writes a refusal or nothing. *)
Theorem offers_are_approved head body keep_alive c :
  let (r, c') := route (str "POST") (str "/Ask") head body keep_alive c in
  exists x h, out c' = out c ++ x /\ acts c' = acts c ++ h /\ answered_by (approved body) x h.
Proof using.
  assert (Ht : traces (route (str "POST") (str "/Ask") head body keep_alive)
                 (fun r x h => answered_by (approved body) x h)).
  { change (route _ _ _ _ _) with (bind visible (fun v => if negb v then refuse else ask body keep_alive)).
    eapply traces_bind; [apply observed|by intros e x h (_ & d & ? & _)|].
    intros v x h (-> & d1 & [= ->] & ->). cbn [app].
    destruct (discoverable d1) eqn:Hv; cbn [negb]; [by apply traces_ask|apply (traces_refuse _ [Saw d1])]. }
  destruct (route _ _ _ _ _ c) as [r c'] eqn:Hr. by apply Ht in Hr.
Qed.

End Airdrop.

(** ** A device with two connections *)

Module ToyAirdrop.

#[local] Notation Device := (@Daemon unit unit unit) (only parsing).

Definition phone : Device := mkDaemon idle empty true false (str "Pixel") 0 [].

(** An archive of one file, whatever it is. *)
Definition toy_unpack (b : list byte) : Archive := [Some (mkMember (str "evil.txt") (len b) false b false false)].

Definition connection (d : Device) (input : list Read) (rounds : list Round) : @Conn unit unit unit :=
  mkConn d input [] [] rounds [] [] (fun _ => str "0123456789abcdef") [].

Definition serve_ : nat -> @Conn unit unit unit -> result unit Problem * Conn :=
  serve_connection (str "Pixel 9") toy_unpack (fun _ => false).

(** A stranger's connection, which makes no offer. *)
Definition intruder : list Read :=
  [Http.Data (head_of [str "POST /Upload HTTP/1.1"; str "Content-Length: 5"] ++ str "hello")].
Definition intrude (d : Device) : Device := daemon (serve_ 1 (connection d intruder [])).2.

(** The person says no to offer 1. *)
Definition declined (d : Device) : Device := set_table (answer 1 false (table d)) d.

Definition asking : list Read := [Http.Data (head_of [str "POST /Ask HTTP/1.1"; str "Content-Length: 0"])].

(** The gate on uploads asks whether any transfer is going on, and the slot is claimed when an
    offer arrives, before anybody is asked.  While the question is on the screen another
    connection's upload is stored and announced; the person's no, a moment later, refuses the
    offer and takes nothing back. *)
Example upload_without_consent :
  let (r, a) := serve_ 1 (connection phone asking [mkRound [intrude; declined] false false]) in
  (match acts a with
   | [Saw d1; Claimed 1 _; Saw _; Told e _; Heard 1 false d2] =>
       discoverable d1 = true /\ e = Offered 1 [] [] /\ decision (table d2) = Some (1, false)
   | _ => False
   end) /\
  out a = response 401 None false /\
  open_received (fs (daemon a)) (str "evil.txt") = Some (str "hello") /\
  Finished 1 1 ∈ events (daemon a).
Proof. vm_compute. split_and!; try reflexivity. do 2 right. left. Qed.

(** The sender of an accepted offer hangs up in the middle of a chunk: the transfer is reported
    as cancelled, and the archive stays, where nothing lists it. *)
Definition broken_off : list Read :=
  [Http.Data (head_of [str "POST /Ask HTTP/1.1"; str "Connection: keep-alive"; str "Content-Length: 0"]);
   Http.Data (head_of [str "POST /Upload HTTP/1.1"; str "Transfer-Encoding: chunked"] ++ str "40" ++ CRLF ++ str "part")].
Definition agreed (d : Device) : Device := set_table (answer 1 true (table d)) d.

Example aborted_upload_is_kept :
  let (r, a) := serve_ 2 (connection phone broken_off [mkRound [agreed] false false]) in
  last (events (daemon a)) = Some (Finished 1 (-3)) /\
  fs (daemon a) !! path_in INBOX (str "0123456789abcdef.cpio") = Some (str "part") /\
  received_files (fs (daemon a)) = [].
Proof. vm_compute. by split_and!. Qed.

End ToyAirdrop.
