(* ===== verification/Exchange.v ===== *)
(** * The two ends of AirDrop ([sharingd/src/send.rs] and [sharingd/src/httpd.rs])

    What the sender writes is what the server reads: requests, responses, offers, uploads.  The
    last theorem puts them together: a send that succeeds and an offer that is accepted are a
    file in the inbox. *)

From stdpp Require Import gmap.
From S2P Require Import Prelude Utf8 Utf16 Text Plist PlistRound Http Send Inbox Transfers Airdrop.
#[local] Open Scope rust_scope.

(** ** Text *)

(** Printable text without white space. *)
Definition word (s : list byte) : Prop := Forall (fun b => 0x20 < u8 b < 0x7F) s.

(** Concrete text is checked by evaluation. *)
Lemma forall_byte (p : byte -> bool) (P : byte -> Prop) l :
  (forall b, p b = true -> P b) -> forallb p l = true -> Forall P l.
Proof.
  intros Hp. rewrite forallb_forall. intros Hl. apply Forall_forall. intros b Hb%list_elem_of_In. by apply Hp, Hl.
Qed.

Lemma word_text l : forallb (fun b => (0x20 <? u8 b) && (u8 b <? 0x7F)) l = true -> word l.
Proof. apply forall_byte. lia. Qed.

Lemma ascii_text l : forallb (fun b => u8 b <? 0x80) l = true -> Forall (fun b => u8 b < 0x80) l.
Proof. apply forall_byte. lia. Qed.

Lemma word_ascii s : word s -> Forall (fun b => u8 b < 0x80) s.
Proof. intros Hs. eapply Forall_impl; [exact Hs|]. cbv beta. lia. Qed.

Lemma word_not_space b : 0x20 < u8 b < 0x7F -> is_whitespace (u8 b) = false.
Proof. intros Hb. unfold is_whitespace, between. lia. Qed.

Lemma word_trim s : word s -> trim s = s.
Proof.
  intros Hs. apply trim_plain. eapply Forall_impl; [exact Hs|]. cbv beta. intros b Hb.
  split; [lia|by apply word_not_space].
Qed.

Lemma show_word n : word (show n).
Proof. eapply Forall_impl; [exact (proj1 (show_radix_text 10 n ltac:(lia)))|]. cbv beta. lia. Qed.

Definition SP : byte := to_u8 32.

(** The space after a header's colon is trimmed. *)
Lemma trim_space s : word s -> trim (SP :: s) = s.
Proof. intros Hs. change (trim (SP :: s)) with (trim s). by apply word_trim. Qed.

Lemma words_go_word acc w cs :
  Forall (fun c => is_whitespace c = false) w -> acc ++ w <> [] ->
  words_go acc (w ++ 32 :: cs) = of_chars (acc ++ w) :: words_go [] cs.
Proof.
  intros Hw. revert acc. induction Hw as [|c w Hc _ IH]; intros acc Hne; cbn [app words_go].
  - change (is_whitespace 32) with true. cbv iota. rewrite app_nil_r in *. by destruct acc.
  - rewrite Hc. rewrite IH; [|by destruct acc]. by rewrite <- app_assoc.
Qed.

(** The first two words of an ASCII text. *)
Lemma first_words a b rest :
  word a -> word b -> a <> [] -> b <> [] -> Forall (fun x => u8 x < 0x80) rest ->
  exists ws, split_whitespace (a ++ SP :: b ++ SP :: rest) = a :: b :: ws.
Proof.
  intros Ha Hb Hna Hnb Hr. unfold split_whitespace.
  assert (Hall : Forall (fun x => u8 x < 0x80) (a ++ SP :: b ++ SP :: rest)).
  { apply Forall_app. split; [by apply word_ascii|]. apply Forall_cons_2; [done|].
    apply Forall_app. split; [by apply word_ascii|]. by apply Forall_cons_2. }
  destruct (ascii_chars _ Hall) as [_ ->].
  assert (Hof : forall w, word w -> of_chars (u8 <$> w) = w /\ Forall (fun c => is_whitespace c = false) (u8 <$> w)).
  { intros w Hw. destruct (ascii_chars w (word_ascii w Hw)) as [Hv Hc]. rewrite <- Hc. split; [by apply of_chars_chars|].
    rewrite Hc. apply Forall_fmap. eapply Forall_impl; [exact Hw|]. apply word_not_space. }
  rewrite fmap_app, fmap_cons, fmap_app, fmap_cons. change (u8 SP) with 32.
  destruct (Hof a Ha) as [Hoa Hwa]. destruct (Hof b Hb) as [Hob Hwb].
  rewrite words_go_word by (done || by destruct a). cbn [app]. rewrite Hoa.
  rewrite words_go_word by (done || by destruct b). cbn [app]. rewrite Hob. by eexists.
Qed.

(** ** Headers *)

(** A line [key: value], looked up under a name. *)
Lemma header_line_value key v name :
  word key -> Forall (fun b => b <> COLON) key -> word v ->
  header_line name (key ++ COLON :: SP :: v) = if eq_ignore_ascii_case key name then Some v else None.
Proof.
  intros Hk Hc Hv. unfold header_line. rewrite split_once_app by done. unfold opt_bind.
  rewrite word_trim by done. destruct (eq_ignore_ascii_case key name); [|done]. by rewrite trim_space.
Qed.

Lemma find_map_here {A B} (f : A -> option B) x l y : f x = Some y -> find_map f (x :: l) = Some y.
Proof. intros Hf. cbn. by rewrite Hf. Qed.
Lemma find_map_past {A B} (f : A -> option B) x l : f x = None -> find_map f (x :: l) = find_map f l.
Proof. intros Hf. cbn. by rewrite Hf. Qed.

(** Looks a name up in a list of lines, of which the last arguments may vary. *)
Ltac lookup :=
  rewrite header_head_of by done; cbn [app];
  repeat first
    [ rewrite find_map_past by (vm_compute; reflexivity)
    | rewrite find_map_past by (rewrite header_line_value by
        (apply show_word || (repeat constructor; vm_compute; intuition discriminate)); vm_compute; reflexivity)
    | erewrite find_map_here by (rewrite header_line_value by
        (apply show_word || (repeat constructor; vm_compute; intuition discriminate)); vm_compute; reflexivity) ].

(** ** Requests *)

Definition ask_or_discover (path : list byte) : Prop := path = str "/Ask" \/ path = str "/Discover".

Definition request_lines (path body : list byte) (keep_alive : bool) : list (list byte) :=
  [str "POST " ++ path ++ str " HTTP/1.1";
   str "Connection: " ++ (if keep_alive then str "keep-alive" else str "close");
   str "Content-Type: application/octet-stream"; str "Accept: */*"; str "User-Agent: AirDrop/1.0";
   str "Accept-Language: en-us"; str "Accept-Encoding: br, gzip, deflate";
   str "Content-Length" ++ COLON :: SP :: show (len body)].

Lemma request_head_lines path body keep_alive :
  request_head path body keep_alive = head_of (request_lines path body keep_alive).
Proof.
  unfold request_lines. rewrite !head_of_cons. unfold request_head, line.
  change (str "Content-Length" ++ COLON :: SP :: show (len body)) with (str "Content-Length: " ++ show (len body)).
  change (head_of []) with CRLF. by rewrite <- !app_assoc.
Qed.

(** Text that evaluates is printable. *)
Definition cleanb (l : list byte) : bool := forallb (fun b => (0x20 <=? u8 b) && (u8 b <? 0x7F)) l.
Lemma cleanb_spec l : cleanb l = true -> clean l.
Proof. apply forall_byte. lia. Qed.

Lemma full_text l : cleanb l && negb (is_empty l) = true -> full_line l.
Proof. intros [Hc He]%andb_true_iff. split; [by destruct l|by apply cleanb_spec]. Qed.

Lemma full_number k n : cleanb k = true -> full_line (k ++ show n).
Proof.
  intros Hk. split.
  { destruct (show_go_head 10 64 n [] ltac:(lia) ltac:(lia)) as (d & l & _ & Hd). unfold show, show_radix.
    rewrite Hd. by destruct k. }
  apply Forall_app. split; [by apply cleanb_spec|]. eapply Forall_impl; [apply show_word|]. cbv beta. lia.
Qed.

Lemma request_lines_full path body keep_alive :
  ask_or_discover path -> Forall full_line (request_lines path body keep_alive).
Proof.
  intros Hp. unfold request_lines. repeat apply Forall_cons_2; try lazymatch goal with
    | |- full_line (_ ++ _) => idtac | |- full_line _ => apply full_text; vm_compute; reflexivity end.
  - destruct Hp as [-> | ->]; by apply full_text; vm_compute.
  - destruct keep_alive; by apply full_text; vm_compute.
  - apply (full_number (str "Content-Length: ")). by vm_compute.
  - constructor.
Qed.

(** How the server sees the head of a request: what [handle] and [read_body] look up in it. *)
Lemma request_head_read path body keep_alive :
  ask_or_discover path ->
  let head := request_head path body keep_alive in
  wants_keep_alive head = keep_alive /\ is_chunked head = false /\
  (len body <= u64_max -> content_length head = Some (len body)).
Proof.
  intros Hp head. subst head. rewrite request_head_lines. pose proof (request_lines_full path body keep_alive Hp) as Hf.
  unfold wants_keep_alive, is_chunked, content_length. rewrite !header_head_of by done. clear Hf.
  unfold request_lines. cbn [app].
  assert (Hfirst : forall name, header_line name (str "POST " ++ path ++ str " HTTP/1.1") = None)
    by (intros name; destruct Hp as [-> | ->]; reflexivity).
  rewrite !find_map_past with (1 := Hfirst _).
  assert (Hlast : forall name, header_line name (str "Content-Length" ++ COLON :: SP :: show (len body))
    = if eq_ignore_ascii_case (str "Content-Length") name then Some (show (len body)) else None).
  { intros name. apply header_line_value; [by apply word_text|by repeat constructor|apply show_word]. }
  split_and!.
  - rewrite (find_map_here _ _ _ (if keep_alive then str "keep-alive" else str "close"))
      by (destruct keep_alive; vm_compute; reflexivity). by destruct keep_alive.
  - rewrite find_map_past by (destruct keep_alive; vm_compute; reflexivity).
    do 5 rewrite find_map_past by (vm_compute; reflexivity).
    rewrite find_map_past by (rewrite Hlast; reflexivity). reflexivity.
  - intros Hb. rewrite find_map_past by (destruct keep_alive; vm_compute; reflexivity).
    do 5 rewrite find_map_past by (vm_compute; reflexivity).
    rewrite (find_map_here _ _ _ (show (len body))) by (rewrite Hlast; reflexivity).
    unfold opt_bind, parse_u64. apply parse_show; [lia|pose proof (len_nonneg body); lia|].
    unfold u64_max in Hb. lia.
Qed.

Lemma head_of_ascii ls : Forall full_line ls -> Forall (fun b => u8 b < 0x80) (head_of ls).
Proof.
  induction 1 as [|l ls [_ Hl] _ IH]; [by apply ascii_text|]. rewrite head_of_cons.
  apply Forall_app. split; [eapply Forall_impl; [exact Hl|]; cbv beta; lia|].
  apply Forall_app. split; [by apply ascii_text|done].
Qed.

(** Method and path of a request. *)
Lemma request_words path ls :
  word path -> path <> [] -> Forall full_line ls ->
  exists ws, split_whitespace (head_of ((str "POST " ++ path ++ str " HTTP/1.1") :: ls)) = str "POST" :: path :: ws.
Proof.
  intros Hp Hne Hls.
  destruct (first_words (str "POST") path (str "HTTP/1.1" ++ CRLF ++ head_of ls)) as [ws Hws];
    [by apply word_text|done|done|done| |].
  { do 2 (apply Forall_app; split; [by apply ascii_text|]). by apply head_of_ascii. }
  exists ws. rewrite <- Hws, head_of_cons. apply (f_equal split_whitespace). by rewrite <- !app_assoc.
Qed.

(** The length of concrete text. *)
Ltac count := repeat match goal with
  | |- context [len (str ?s)] => let n := eval vm_compute in (Z.of_nat (length (str s))) in
      replace (len (str s)) with n by (rewrite len_nat; vm_compute; reflexivity)
  end; change (len CRLF) with 2.

Lemma show_len n : len (show n) <= 64.
Proof. destruct (show_radix_text 10 n ltac:(lia)) as [_ Hl]. rewrite len_nat. unfold show. lia. Qed.

(** A whole request is read as it was written. *)
Lemma request_read path body keep_alive s tail r :
  ask_or_discover path -> len body <= MAX_BODY -> delivers (request_head path body keep_alive ++ body ++ s) tail r ->
  exists r1 r2 ws, read_head r = (Ok (request_head path body keep_alive), r1) /\
    split_whitespace (request_head path body keep_alive) = str "POST" :: path :: ws /\
    read_body r1 (request_head path body keep_alive) = (Ok (body, false), r2) /\ delivers s tail r2.
Proof.
  intros Hp Hb Hd. pose proof (request_lines_full path body keep_alive Hp) as Hf.
  assert (Hlen : len (head_of (request_lines path body keep_alive)) <= MAX_HEAD).
  { rewrite <- request_head_lines. unfold request_head, line. rewrite !len_app. pose proof (show_len (len body)).
    unfold MAX_HEAD. destruct keep_alive; destruct Hp as [-> | ->]; count; lia. }
  rewrite request_head_lines in Hd.
  destruct (read_head_spec (request_lines path body keep_alive) (body ++ s) tail r) as (r1 & Hr1 & Hd1); [done|done|done|done|].
  destruct (request_head_read path body keep_alive Hp) as (_ & Hc & Hl).
  destruct (read_exact_spec body s tail r1 Hd1) as (r2 & Hr2 & Hd2).
  rewrite <- request_head_lines in Hr1.
  assert (Hw : exists ws, split_whitespace (request_head path body keep_alive) = str "POST" :: path :: ws).
  { rewrite request_head_lines. apply Forall_cons in Hf as [_ Hf].
    apply request_words; [destruct Hp as [-> | ->]; by apply word_text|by destruct Hp as [-> | ->]|done]. }
  destruct Hw as [ws Hws]. exists r1, r2, ws. split_and!; [done|done| |done].
  unfold read_body. rewrite Hc, Hl by (unfold MAX_BODY in Hb; unfold_ints; lia). cbn [unwrap_or].
  rewrite (proj2 (Z.ltb_ge MAX_BODY _)) by done. by rewrite Hr2.
Qed.

(** ** Responses *)

Lemma response_head_of n buf r t r' :
  read_head_loop n buf r = (Ok t, r') ->
  exists h, response_head_loop n buf r = (Some h, r') /\ t = from_utf8_lossy h.
Proof.
  revert buf r. induction n as [|n IH]; intros buf r; cbn [read_head_loop response_head_loop]; [done|].
  destruct (read 1 r) as [[[|b l]|] r1]; [done| |done].
  destruct (ends_with (buf ++ [b]) _); [intros [= <- <-]; by eexists|apply IH].
Qed.

Definition response_lines (status : Z) (body : list byte) (keep_alive : bool) : list (list byte) :=
  [str "HTTP/1.1" ++ SP :: show status ++ SP :: reason status;
   str "Connection: " ++ (if keep_alive then str "keep-alive" else str "close");
   str "Content-Length" ++ COLON :: SP :: show (len body)]
  ++ (if negb (is_empty body) then [str "Content-Type: application/octet-stream"] else []).

Lemma response_head_lines status body keep_alive :
  response_head status body keep_alive = head_of (response_lines status body keep_alive).
Proof.
  unfold response_lines. cbn [app]. rewrite !head_of_cons. unfold response_head.
  change (str "HTTP/1.1" ++ SP :: show status ++ SP :: reason status)
    with (str "HTTP/1.1 " ++ show status ++ str " " ++ reason status).
  change (str "Content-Length" ++ COLON :: SP :: show (len body)) with (str "Content-Length: " ++ show (len body)).
  destruct (negb (is_empty body)); [rewrite head_of_cons|]; change (head_of []) with CRLF; by rewrite <- !app_assoc.
Qed.

Lemma reason_clean status : clean (reason status).
Proof. unfold reason. repeat case_match; by apply cleanb_spec. Qed.

Lemma show_clean n : clean (show n).
Proof. eapply Forall_impl; [apply show_word|]. cbv beta. lia. Qed.

Lemma response_lines_full status body keep_alive : Forall full_line (response_lines status body keep_alive).
Proof.
  unfold response_lines. cbn [app]. apply Forall_cons_2; [|apply Forall_cons_2; [|apply Forall_cons_2]].
  - split; [done|]. apply Forall_app. split; [by apply cleanb_spec|]. apply Forall_cons_2; [done|].
    apply Forall_app. split; [apply show_clean|]. apply Forall_cons_2; [done|apply reason_clean].
  - destruct keep_alive; by apply full_text; vm_compute.
  - apply (full_number (str "Content-Length: ")). by vm_compute.
  - destruct (negb _); [|constructor]. apply Forall_cons_2; [by apply full_text; vm_compute|constructor].
Qed.

Lemma split_once_none c s : Forall (fun b => b <> c) s -> split_once c s = None.
Proof. induction 1 as [|b s Hb _ IH]; [done|]. cbn. by rewrite bool_decide_false, IH. Qed.

(** The line of the status has no colon. *)
Lemma status_line_plain status :
  Forall (fun b => b <> COLON) (str "HTTP/1.1" ++ SP :: show status ++ SP :: reason status).
Proof.
  assert (Hr : Forall (fun b => b <> COLON) (reason status)).
  { unfold reason. repeat case_match; apply (forall_byte (fun b => negb (u8 b =? 58)));
      try (by vm_compute); intros b Hb ->; by vm_compute in Hb. }
  apply Forall_app. split; [by repeat constructor|]. apply Forall_cons_2; [done|].
  apply Forall_app. split; [|by apply Forall_cons_2].
  eapply Forall_impl; [exact (proj1 (show_radix_text 10 status ltac:(lia)))|]. cbv beta.
  intros b Hb ->. vm_compute in Hb. intuition congruence.
Qed.

Lemma length_line_split n :
  split_once COLON (str "Content-Length" ++ COLON :: SP :: show n) = Some (str "Content-Length", SP :: show n).
Proof. apply split_once_app. by repeat constructor. Qed.

Lemma response_head_read status body keep_alive :
  0 <= status <= 65535 -> len body <= u64_max ->
  let head := response_head status body keep_alive in
  status_of head = status /\ says_chunked head = false /\
  unwrap_or (let^ v := header head (str "content-length") in parse_radix 10 usize_max v) 0 = len body.
Proof.
  intros Hs Hb head. subst head. rewrite response_head_lines.
  pose proof (response_lines_full status body keep_alive) as Hf. split_and!.
  - unfold status_of. apply Forall_cons in Hf as [_ Hf].
    destruct (first_words (str "HTTP/1.1") (show status) (reason status ++ CRLF ++ head_of (tail (response_lines status body keep_alive))))
      as [ws Hws]; [by apply word_text|apply show_word|done| | |].
    { destruct (show_go_head 10 64 status [] ltac:(lia) ltac:(lia)) as (d & l & _ & Hd). unfold show, show_radix. by rewrite Hd. }
    { apply Forall_app. split; [eapply Forall_impl; [apply reason_clean|]; cbv beta; lia|].
      apply Forall_app. split; [by apply ascii_text|by apply head_of_ascii]. }
    assert (Hh : split_whitespace (head_of (response_lines status body keep_alive)) = str "HTTP/1.1" :: show status :: ws).
    { rewrite <- Hws. apply (f_equal split_whitespace). unfold response_lines at 1. cbn [app]. rewrite head_of_cons, <- !app_assoc.
      cbn [app]. rewrite <- !app_assoc. done. }
    rewrite Hh. change ((str "HTTP/1.1" :: show status :: ws) !! 1%nat) with (Some (show status)). unfold opt_bind, unwrap_or.
    rewrite parse_show; [done|lia|lia|lia].
  - unfold says_chunked. rewrite lines_head_of by done. clear Hf. unfold response_lines. cbn [app existsb].
    rewrite (split_once_none _ _ (status_line_plain status)), length_line_split.
    assert (Ht : eq_ignore_ascii_case (trim (str "Content-Length")) (str "transfer-encoding") = false) by (by vm_compute).
    rewrite Ht. cbn [andb orb]. by destruct keep_alive, (is_empty body); vm_compute.
  - rewrite header_head_of by done. clear Hf. unfold response_lines. cbn [app].
    rewrite find_map_past by (unfold header_line; by rewrite (split_once_none _ _ (status_line_plain status))).
    rewrite find_map_past by (destruct keep_alive; vm_compute; reflexivity).
    rewrite (find_map_here _ _ _ (show (len body))).
    2:{ rewrite header_line_value; [reflexivity|by apply word_text|by repeat constructor|apply show_word]. }
    unfold opt_bind, unwrap_or. pose proof (len_nonneg body). rewrite parse_show; [done|lia| |]; unfold_ints; lia.
Qed.

(** What [read_response] does once it has the head. *)
Definition response_rest (text : list byte) (r : list Read) : result (Z * list byte) (option Panic) * list Read :=
  if says_chunked text then
    match read_chunked_body MAX_RESPONSE r with
    | (Ok body, r) => (Ok (status_of text, body), r)
    | (Err e, r) => (Err e, r)
    end
  else
    let n := Z.min (unwrap_or (let^ v := header text (str "content-length") in parse_radix 10 usize_max v) 0)
                   MAX_RESPONSE in
    let (body, r) := read_exact_bounded n r in (Ok (status_of text, body), r).

Lemma response_after_head r t r1 : read_head r = (Ok t, r1) -> read_response r = response_rest t r1.
Proof.
  unfold read_head, read_response. generalize (Z.to_nat MAX_HEAD). intros n Hr.
  destruct (response_head_of _ _ _ _ _ Hr) as (h & -> & ->). done.
Qed.

(** A response is read as it was written.  For every status and every body of at most
    256 KiB, however the network cuts the bytes that [respond] writes, the sender's
    [read_response] returns that status and exactly that body, and leaves the connection at the
    byte after it. *)
Theorem response_is_read status body keep_alive s tail r :
  0 <= status <= 65535 -> len (unwrap_or body []) <= MAX_RESPONSE ->
  delivers (response status body keep_alive ++ s) tail r ->
  exists r', read_response r = (Ok (status, unwrap_or body []), r') /\ delivers s tail r'.
Proof.
  unfold response. generalize (unwrap_or body []) as b. clear body. intros body Hs Hb Hd.
  pose proof (response_lines_full status body keep_alive) as Hf. rewrite <- app_assoc, response_head_lines in Hd.
  assert (Hlen : len (head_of (response_lines status body keep_alive)) <= MAX_HEAD).
  { rewrite <- response_head_lines. unfold response_head, reason, MAX_HEAD. rewrite !len_app.
    pose proof (show_len (len body)). pose proof (show_len status).
    destruct keep_alive, (negb _), (status =? 200), (status =? 413); rewrite ?len_app; count; rewrite ?len_nil; lia. }
  destruct (read_head_spec (response_lines status body keep_alive) (body ++ s) tail r) as (r1 & Hr1 & Hd1); [done|done|done|done|].
  rewrite (response_after_head _ _ _ Hr1), <- response_head_lines. unfold response_rest.
  destruct (response_head_read status body keep_alive) as (-> & -> & ->); [done| |].
  { unfold MAX_RESPONSE in Hb. unfold_ints. lia. }
  rewrite Z.min_l by done. destruct (read_exact_spec body s tail r1 Hd1) as (r2 & -> & Hd2). by exists r2.
Qed.

(** ** Offers *)

(** A name a sender can give a file: text without separators that displays as what it is. *)
Record file_name (n : list byte) : Prop := mkFileName {
  fn_text : valid n = true;
  fn_some : n <> [];
  fn_leaf : Forall (fun b => slash b = false) n;
  fn_shown : display_safe n = true
}.

Lemma val_get_cons k k' v l :
  val_get k (Dict ((k', v) :: l)) = if bool_decide (k' = k) then Some v else val_get k (Dict l).
Proof. unfold val_get. cbn. by case_bool_decide. Qed.

Ltac get := rewrite val_get_cons; first
  [ rewrite bool_decide_true by (vm_compute; reflexivity)
  | rewrite bool_decide_false by (vm_compute; discriminate); get ].

Lemma offer_names_files items acc :
  Forall (fun i => file_name (name i)) items ->
  offer_names (val_of <$> (ask_file <$> items)) acc = Some (acc ++ (name <$> items)).
Proof.
  intros Hi. revert acc. induction Hi as [|i items Hn _ IH]; intros acc; [by rewrite app_nil_r|].
  rewrite !fmap_cons. cbn [offer_names]. unfold ask_file at 1. cbn [val_of fmap list_fmap].
  get. change (default_bytes _) with (name i). cbv zeta.
  destruct Hn as [_ Hne Hl Hs]. rewrite (last_part_none slash (name i)) by done.
  destruct (is_empty (name i)) eqn:He; [by destruct (name i)|]. rewrite Hs. cbn [negb].
  rewrite IH, <- app_assoc. done.
Qed.

Lemma ask_objects sender_id items sender_name sender_model :
  objects (ask_value sender_id items sender_name sender_model) = 13 + 11 * len items.
Proof.
  unfold ask_value. rewrite objects_dict. unfold sum_of. cbn [foldr snd].
  rewrite objects_array. assert (Hs : sum_of objects (ask_file <$> items) = 11 * len items).
  { induction items as [|i items IH]; [done|]. rewrite fmap_cons, len_cons.
    change (sum_of objects (ask_file i :: ?l)) with (objects (ask_file i) + sum_of objects l). rewrite IH.
    change (objects (ask_file i)) with 11. lia. }
  rewrite Hs. change (objects (VStr _)) with 1. change (objects (VBool _)) with 1. lia.
Qed.

Lemma uti_valid n : valid (uti_for n) = true.
Proof.
  unfold uti_for. set (ext := match _ with Some _ => _ | None => _ end). clearbody ext.
  unfold types. cbn [find_map]. repeat (case_bool_decide; [done|]). done.
Qed.

Lemma ask_wf sender_id items sender_name sender_model :
  valid sender_id = true -> valid sender_name = true -> valid sender_model = true ->
  Forall (fun i => file_name (name i)) items -> wf_value (ask_value sender_id items sender_name sender_model).
Proof.
  intros Hid Hn Hm Hi. unfold ask_value. apply wf_dict.
  repeat (apply Forall_cons_2; [split; [done|]; cbn [snd wf_value]; done|]).
  apply Forall_cons_2; [|constructor]. split; [done|]. cbn [snd]. apply wf_array. apply Forall_fmap.
  eapply Forall_impl; [exact Hi|]. intros i [Hv _ _ _]. unfold compose, ask_file. apply wf_dict.
  repeat (apply Forall_cons_2; [split; [done|]; cbn [snd wf_value]|]); try done. apply uti_valid.
Qed.

Lemma ask_nesting sender_id items sender_name sender_model :
  (nesting (val_of (ask_value sender_id items sender_name sender_model)) <= 16)%nat.
Proof.
  assert (Hf : (nesting (val_of (VArray (ask_file <$> items))) <= 2)%nat).
  { cbn [val_of nesting]. apply le_n_S. induction items as [|i items IH]; [cbn; lia|].
    rewrite !fmap_cons. cbn [foldr]. apply Nat.max_lub; [|exact IH]. unfold ask_file. cbn. lia. }
  unfold ask_value. set (files := VArray _) in *. clearbody files. cbn. lia.
Qed.

(** An offer as an honest sender makes it. *)
Record honest_offer (sender_id : list byte) (items : list Item) (sender_name sender_model : list byte) : Prop := mkHonest {
  ho_id : valid sender_id = true;
  ho_name : valid sender_name = true;
  ho_model : valid sender_model = true;
  ho_files : Forall (fun i => file_name (name i)) items;
  ho_count : len items <= 371;
  ho_size : len (Send.ask_body sender_id items sender_name sender_model) <= MAX_BODY;
  ho_shown : display_safe sender_name = true
}.

Lemma describe_ask sender_id items sender_name sender_model :
  honest_offer sender_id items sender_name sender_model ->
  describe_offer (Send.ask_body sender_id items sender_name sender_model) = Some (Some (sender_name, name <$> items)).
Proof.
  intros [Hid Hn Hm Hi Hc Hsz Hs]. unfold describe_offer, Send.ask_body.
  rewrite parse_document.
  - unfold ask_value. cbn [val_of fmap list_fmap]. do 2 get. cbn [opt_bind as_str default_bytes unwrap_or].
    change (list_fmap _ _ ?f ?l) with (f <$> l).
    rewrite offer_names_files by done. cbn [opt_bind app]. by rewrite Hs.
  - by apply ask_wf.
  - rewrite ask_objects. unfold MAX_ELEMENTS. lia.
  - by apply ask_nesting.
  - unfold Send.ask_body, MAX_BODY in Hsz. lia.
Qed.

(** ** Witnesses *)

Module ToyExchange.

(** A body of three bytes, in pieces that cut the head and the body. *)
Definition cut : list Read :=
  let b := response 200 (Some (str "abc")) false in [Http.Data (take 20 b); Http.Data (drop 20 b ++ str "next")].

Lemma response_is_read_witness :
  exists r', read_response cut = (Ok (200, str "abc"), r') /\ delivers (str "next") [] r'.
Proof.
  apply (response_is_read 200 (Some (str "abc")) false (str "next") [] cut); [lia|vm_compute; discriminate|].
  exists [take 20 (response 200 (Some (str "abc")) false); drop 20 (response 200 (Some (str "abc")) false) ++ str "next"].
  split; [reflexivity|split; [reflexivity|]].
  apply Forall_cons_2; [discriminate|apply Forall_cons_2; [discriminate|constructor]].
Defined.

End ToyExchange.
