(* ===== verification/Arrival.v ===== *)
(** * A file goes by AirDrop ([sharingd/src/send.rs] to [sharingd/src/httpd.rs])

    A send that reports success, read by a server whose owner accepts: the owner is shown who
    sends what, and the files are in the inbox.  Nothing is said about how the network cuts the
    bytes. *)

From stdpp Require Import gmap.
From S2P Require Import Prelude Utf8 Utf16 Text Plist PlistRound Http Send Inbox Transfers Airdrop Exchange.
#[local] Open Scope rust_scope.

(** ** The head of an upload *)

Definition upload_lines (total : Z) : list (list byte) :=
  [str "POST " ++ str "/Upload" ++ str " HTTP/1.1"; str "Connection: close"; str "Content-Type: application/x-cpio";
   str "Accept: */*"; str "User-Agent: AirDrop/1.0"; str "Accept-Language: en-us";
   str "TotalBytes" ++ COLON :: SP :: show total; str "Transfer-Encoding: chunked"].

Lemma upload_head_lines total : upload_head total = head_of (upload_lines total).
Proof.
  unfold upload_lines. rewrite !head_of_cons. unfold upload_head, line.
  change (str "TotalBytes" ++ COLON :: SP :: show total) with (str "TotalBytes: " ++ show total).
  change (head_of []) with CRLF. by rewrite <- !app_assoc.
Qed.

Lemma upload_lines_full total : Forall full_line (upload_lines total).
Proof.
  unfold upload_lines. repeat apply Forall_cons_2; try apply Forall_nil_2;
    lazymatch goal with
      | |- full_line (str "TotalBytes" ++ _) => apply (full_number (str "TotalBytes: ")); by vm_compute
      | |- full_line _ => apply full_text; vm_compute; reflexivity end.
Qed.

Lemma upload_head_read total :
  0 <= total <= u64_max ->
  let head := upload_head total in
  wants_keep_alive head = false /\ is_chunked head = true /\
  declared head (str "totalbytes") = Some total /\ declared head (str "content-length") = None.
Proof.
  intros Ht head. subst head. rewrite upload_head_lines. pose proof (upload_lines_full total) as Hf.
  unfold wants_keep_alive, is_chunked, declared. rewrite !header_head_of by done. clear Hf.
  assert (Htotal : forall name, header_line name (str "TotalBytes" ++ COLON :: SP :: show total)
    = if eq_ignore_ascii_case (str "TotalBytes") name then Some (show total) else None).
  { intros name. apply header_line_value; [by apply word_text|by repeat constructor|apply show_word]. }
  unfold upload_lines. cbn [app]. split_and!.
  - rewrite find_map_past by (vm_compute; reflexivity).
    rewrite (find_map_here _ _ _ (str "close")) by (vm_compute; reflexivity). by vm_compute.
  - do 6 rewrite find_map_past by (vm_compute; reflexivity).
    rewrite find_map_past by (rewrite Htotal; reflexivity).
    rewrite (find_map_here _ _ _ (str "chunked")) by (vm_compute; reflexivity). by vm_compute.
  - do 6 rewrite find_map_past by (vm_compute; reflexivity).
    rewrite (find_map_here _ _ _ (show total)) by (rewrite Htotal; reflexivity).
    unfold opt_bind. rewrite word_trim by apply show_word. unfold parse_u64.
    apply parse_show; [lia|lia|]. unfold u64_max in Ht. lia.
  - do 6 rewrite find_map_past by (vm_compute; reflexivity).
    rewrite find_map_past by (rewrite Htotal; reflexivity).
    rewrite find_map_past by (vm_compute; reflexivity). reflexivity.
Qed.

Lemma upload_read total s tail r :
  delivers (upload_head total ++ s) tail r ->
  exists r1 ws, read_head r = (Ok (upload_head total), r1) /\ delivers s tail r1 /\
    split_whitespace (upload_head total) = str "POST" :: str "/Upload" :: ws.
Proof.
  intros Hd. pose proof (upload_lines_full total) as Hf.
  assert (Hlen : len (head_of (upload_lines total)) <= MAX_HEAD).
  { rewrite <- upload_head_lines. unfold upload_head, line. rewrite !len_app. pose proof (show_len total).
    unfold MAX_HEAD. count. lia. }
  rewrite upload_head_lines in *.
  destruct (read_head_spec (upload_lines total) s tail r) as (r1 & Hr1 & Hd1); [done|done|done|done|].
  apply Forall_cons in Hf as [_ Hf].
  destruct (request_words (str "/Upload") _ (ltac:(by apply word_text)) (ltac:(done)) Hf) as [ws Hws].
  exists r1, ws. split_and!; [done|done|exact Hws].
Qed.

(** ** A server that nothing disturbs *)

Section Arrival.
Context {Sock File Group : Type}.
Abbreviation Device := (@Daemon Sock File Group).
Context (model : list byte) (unpack : list byte -> Archive) (denied : list byte -> bool).

(** Running a connection with no interference and no failures. *)
Definition calm (d : Device) (r : list Read) (o : list byte) (rs : list Round) (rnd : nat -> list byte)
    (h : list Act) : Conn := mkConn d r o [] rs [] [] rnd h.

Lemma run_bind {A B} (m : M A) (k : A -> M B) c a c' :
  m c = (Ok a, c') -> @bind Sock File Group A B m k c = k a c'.
Proof using. intros Hm. unfold bind. by rewrite Hm. Qed.

Lemma run_shared {A} (f : Device -> A * Device) d r o rs rnd h :
  shared f (calm d r o rs rnd h) = (Ok (f d).1, calm (f d).2 r o rs rnd h).
Proof using. unfold shared. cbn. by destruct (f d). Qed.

Lemma run_look {A} (f : Device -> A) d r o rs rnd h :
  look f (calm d r o rs rnd h) = (Ok (f d), calm d r o rs rnd h).
Proof using. done. Qed.

Lemma run_observe {A} (f : Device -> A) d r o rs rnd h :
  observe f (calm d r o rs rnd h) = (Ok (f d), calm d r o rs rnd (h ++ [Saw d])).
Proof using. done. Qed.

Lemma run_change f d r o rs rnd h : change f (calm d r o rs rnd h) = (Ok tt, calm (f d) r o rs rnd h).
Proof using. done. Qed.

Lemma run_note a d r o rs rnd h : note a (calm d r o rs rnd h) = (Ok tt, calm d r o rs rnd (h ++ [a])).
Proof using. done. Qed.

Lemma run_told e d r o rs rnd h :
  each_callback e (calm d r o rs rnd h) = (Ok tt, calm (emit e d) r o rs rnd (h ++ [Told e (emit e d)])).
Proof using. done. Qed.

Lemma run_reading {A} (f : list Read -> A * list Read) d r r' a o rs rnd h :
  f r = (a, r') -> reading f (calm d r o rs rnd h) = (Ok a, calm d r' o rs rnd h).
Proof using. intros Hf. unfold reading. cbn. by rewrite Hf. Qed.

Lemma run_respond status body keep_alive d r o rs rnd h :
  respond status body keep_alive (calm d r o rs rnd h)
  = (Ok tt, calm d r (o ++ response status body keep_alive) rs rnd h).
Proof using. done. Qed.

(** The person says yes to an offer. *)
Definition says_yes (id : Z) (d : Device) : Device := set_table (answer id true (table d)) d.

(** The table once an offer has been accepted. *)
Definition holds (id : Z) (t t' : @St Sock File Group) : Prop := current t' = id /\ cancelled t' = cancelled t.

Lemma try_begin_idle now (t : @St Sock File Group) :
  current t = 0 -> exists t', try_begin now true t = (Some (next t + 1), t') /\
    holds (next t + 1) t t' /\ decision t' = decision t.
Proof using.
  intros Hc. unfold try_begin. rewrite Hc. cbn [Z.eqb negb andb]. unfold fetch_id, claim, compare_exchange.
  cbn [current set_next]. rewrite Hc. cbn [Z.eqb]. eexists. split; [done|]. by split.
Qed.

(** The wait, when the person's yes is the first thing that happens. *)
Lemma accepted id d r o l g rnd h :
  decision (table d) = None ->
  await_answer_watching id (calm d r o [mkRound [says_yes id] l g] rnd h)
  = (Ok Accept, calm (set_table (set_decision None (table (says_yes id d))) (says_yes id d)) r o [] rnd (h ++ [Heard id true (says_yes id d)])).
Proof using.
  intros Hd. unfold await_answer_watching, calm. cbn [interfere others Airdrop.rounds daemon watching_loop passes].
  cbn [await]. unfold daemon_pass at 1, await_answer_pass at 1. rewrite Hd. cbn [await].
  unfold daemon_pass, await_answer_pass. cbn [says_yes table set_table answer decision set_decision].
  rewrite Z.eqb_refl. done.
Qed.

(** A device that can be offered something, with [id] the next transfer's. *)
Record ready_for (id : Z) (d : Device) : Prop := mkReady {
  rf_visible : discoverable d = true;
  rf_asks : auto_accept d = false;
  rf_free : current (table d) = 0;
  rf_unanswered : decision (table d) = None;
  rf_id : id = next (table d) + 1;
  rf_fresh : 0 < id /\ cancelled (table d) <> id
}.

Lemma ask_runs id body from names d r o l g rnd h :
  current (table d) = 0 -> decision (table d) = None -> id = next (table d) + 1 ->
  auto_accept d = false -> describe_offer body = Some (Some (from, names)) ->
  exists d' h', ask model body true (calm d r o [mkRound [says_yes id] l g] rnd h)
    = (Ok KeepAlive, calm d' r (o ++ response 200 (Some (Airdrop.ask_body model (device_name d))) true) [] rnd h') /\
    holds id (table d) (table d') /\ fs d' = fs d /\ events d' = events d ++ [Offered id from names] /\
    clock d' = clock d.
Proof using.
  intros Hc Hdec -> Hauto Hd. destruct (try_begin_idle (clock d) (table d) Hc) as (t' & Ht & [Hcur Hcan] & Hdt).
  unfold ask. erewrite run_bind; [|apply run_shared]. cbv beta. rewrite Ht. cbn [fst snd].
  erewrite run_bind; [|apply run_note]. rewrite Hd.
  erewrite run_bind; [|apply run_observe]. cbn [set_table auto_accept]. rewrite Hauto.
  erewrite run_bind; [|apply run_told]. erewrite run_bind; [|apply accepted; cbn; by rewrite Hdt]. cbv iota.
  erewrite run_bind; [|apply run_look]. erewrite run_bind; [|apply run_respond]. do 2 eexists. split; [done|].
  cbn [table fs events clock set_table emit]. by split_and!.
Qed.

Lemma route_ask head body keep_alive :
  @route Sock File Group model unpack denied (str "POST") (str "/Ask") head body keep_alive
  = bind visible (fun v => if negb v then refuse else ask model body keep_alive).
Proof using. done. Qed.

Lemma route_upload head body keep_alive :
  @route Sock File Group model unpack denied (str "POST") (str "/Upload") head body keep_alive
  = bind (look (fun d => current (table d))) (fun id => if id =? 0 then refuse else accept_upload unpack denied head).
Proof using. done. Qed.

Lemma run_visible d r o rs rnd h :
  visible (calm d r o rs rnd h) = (Ok (discoverable d), calm d r o rs rnd (h ++ [Saw d])).
Proof using. done. Qed.

(** The offer, from its first byte: what the person is asked, and what the peer is told. *)
Record asked (id : Z) (from : list byte) (names : list (list byte)) (d d' : Device) : Prop := mkAsked {
  as_table : holds id (table d) (table d');
  as_fs : fs d' = fs d;
  as_events : events d' = events d ++ [Offered id from names]
}.

Lemma handle_ask id sender_id items sender_name sender_model s tl d r o l g rnd h :
  honest_offer sender_id items sender_name sender_model ->
  delivers (ask_request sender_id items sender_name sender_model ++ s) tl r ->
  ready_for id d ->
  exists d' r' h', handle model unpack denied (calm d r o [mkRound [says_yes id] l g] rnd h)
    = (Ok KeepAlive, calm d' r' (o ++ response 200 (Some (Airdrop.ask_body model (device_name d))) true) [] rnd h') /\
    delivers s tl r' /\ asked id sender_name (name <$> items) d d'.
Proof using.
  intros Ho Hd [Hv Ha Hc Hdec -> _]. unfold ask_request in Hd. rewrite <- app_assoc in Hd.
  pose proof (ho_size _ _ _ _ Ho) as Hsize. pose proof (describe_ask _ _ _ _ Ho) as Hdesc.
  set (body := Send.ask_body sender_id items sender_name sender_model) in *. clearbody body.
  destruct (request_read (str "/Ask") body true s tl r) as (r1 & r2 & ws & Hr1 & Hws & Hr2 & Hd2); [by left|done|done|].
  destruct (request_head_read (str "/Ask") body true ltac:(by left)) as (Hk & _ & _).
  set (head := request_head (str "/Ask") body true) in *. clearbody head.
  destruct (ask_runs (next (table d) + 1) body sender_name (name <$> items) d r2 o l g rnd (h ++ [Saw d]))
    as (d' & h' & Hrun & Ht & Hf & He & _); [done|done|done|done|done|].
  exists d', r2, h'. split_and!; [|done|done].
  unfold handle. erewrite run_bind; [|by apply run_reading]. cbv beta iota zeta. rewrite Hws.
  cbn [lookup list_lookup default_bytes unwrap_or]. unfold request_body. change (says (str "/Ask") "/Upload") with false. cbv iota.
  erewrite run_bind.
  2:{ erewrite run_bind; [|by apply run_reading]. done. }
  rewrite Hk.
  rewrite route_ask. erewrite run_bind; [|apply run_visible]. rewrite Hv. exact Hrun.
Qed.

(** *** The upload *)

Definition archive_path (rnd : nat -> list byte) : list byte := path_in INBOX (rnd 7%nat ++ str ".cpio").

Definition progress_of (id : Z) (e : Event) : Prop := exists done total, e = Progressed id done total.

(** What has changed since [d0], while the archive is being written. *)
Record uploading (id : Z) (path : list byte) (d0 d : Device) : Prop := mkUploading {
  up_table : current (table d) = id /\ cancelled (table d) <> id;
  up_fs : exists b, fs d = <[path := b]> (fs d0);
  up_events : exists ps, events d = events d0 ++ ps /\ Forall (progress_of id) ps
}.

Lemma uploading_progress id path d0 d done total :
  uploading id path d0 d -> uploading id path d0 (progress id done total d).
Proof using.
  intros [Ht Hf (ps & He & Hps)]. split; [exact Ht|exact Hf|]. exists (ps ++ [Progressed id done total]).
  split; [unfold progress, emit; cbn [events set_table]; by rewrite He, app_assoc|].
  apply Forall_app. split; [done|]. apply Forall_cons_2; [by do 2 eexists|done].
Qed.

Lemma not_cancelled id path d0 d : uploading id path d0 d -> is_cancelled id (table d) = false.
Proof using. intros [[_ Ht] _ _]. unfold is_cancelled. lia. Qed.

Lemma upload_steady id path total d0 r o rs rnd h :
  steady (fun b => on_conn (write_archive path b)) (fun w => (true, w)) (on_progress id total) (on_conn (cancelled_ id))
    (fun w => exists d, conn w = calm d r o rs rnd h /\ uploading id path d0 d)
    (fun w => unwrap_or (fs (daemon (conn w)) !! path) []).
Proof using.
  split; cbv beta; unfold on_conn.
  - intros b [c last_] (d & Hc & Hu). cbn [conn last_report] in *. subst c. eexists. split; [done|]. cbn [conn daemon].
    destruct Hu as [Ht [x Hf] He]. split.
    + eexists. split; [done|]. split; [exact Ht| |exact He]. exists (x ++ b). cbn [calm daemon interfere others fs set_fs].
      by rewrite Hf, alter_insert_eq.
    + cbn [calm daemon interfere others fs set_fs]. rewrite Hf, alter_insert_eq, !lookup_insert_eq. done.
  - intros w Hw. by exists w.
  - intros n [c last_] (d & Hc & Hu). cbn [conn last_report] in *. subst c. unfold on_progress. cbn [conn last_report].
    case_match; [|split; [by exists d|done]]. split; [|done]. exists (progress id n total d).
    split; [done|by apply uploading_progress].
  - intros [c last_] (d & Hc & Hu). cbn [conn last_report] in *. subst c. eexists. unfold cancelled_.
    cbn [calm interfere others daemon]. rewrite (not_cancelled _ _ _ _ Hu). split; [done|]. split; [|done]. by exists d.
Qed.

Lemma stream_runs id path total head cs s tl d0 d r o rs rnd h :
  is_chunked head = true -> Forall (fun c => c <> []) cs -> len (mjoin cs) <= MAX_UPLOAD_BYTES ->
  uploading id path d0 d -> fs d !! path = Some [] ->
  delivers (mjoin (chunk <$> cs) ++ last_chunk ++ s) tl r ->
  exists d' r', stream path id total head (calm d r o rs rnd h) = (Ok (len (mjoin cs)), calm d' r' o rs rnd h) /\
    delivers s tl r' /\ uploading id path d0 d' /\ fs d' = <[path := mjoin cs]> (fs d0).
Proof using.
  intros Hch Hcs Hl Hu Hp Hd. unfold stream. rewrite Hch.
  destruct (stream_chunked_spec _ _ _ _ _ _ (upload_steady id path total d0 r o rs rnd h) cs s tl
              (mkReceiving (calm d r o rs rnd h) 0) r) as (u & r' & Hs & Hd' & (d' & Hc & Hu') & Hcon); [done|done|by exists d|done|].
  cbn [conn calm input] in *. rewrite Hs. exists d', r'. rewrite Hc in Hcon |- *. split_and!; [done|done|done|].
  cbn [calm daemon] in Hcon. rewrite Hp in Hcon. destruct Hu' as [_ [b Hb] _]. rewrite Hb in Hcon |- *.
  rewrite lookup_insert_eq in Hcon. cbn in Hcon. by subst b.
Qed.

(** Room for the files, and for the archive. *)
Record room (rnd : nat -> list byte) (files : list (list byte * list byte)) (f : Fs) : Prop := mkRoom {
  rm_archive : f !! archive_path rnd = None /\ denied (archive_path rnd) = false;
  rm_apart : rnd 7%nat ++ str ".cpio" ∉ files.*1;
  rm_files : Forall (new_file denied f) files;
  rm_names : NoDup files.*1;
  rm_members : len files <= MAX_MEMBERS;
  rm_sizes : sizes files <= MAX_EXTRACTED_BYTES
}.

Lemma add_all_insert new p b f : p ∉ new.*1 -> add_all new (<[p := b]> f) = <[p := b]> (add_all new f).
Proof using.
  induction new as [|[q c] new IH] using rev_ind; [done|]. rewrite fmap_app, not_elem_of_app, !add_all_snoc.
  intros [Hn Hq]. rewrite IH by done. apply insert_insert_ne. intros ->. apply Hq. left.
Qed.

Lemma placed_names files : (placed <$> files).*1 = path_in INBOX <$> files.*1.
Proof using. by rewrite <- !list_fmap_compose. Qed.

Lemma placed_apart rnd files f : room rnd files f -> archive_path rnd ∉ (placed <$> files).*1.
Proof using.
  intros Hr. rewrite placed_names. intros (n & Heq & Hn)%list_elem_of_fmap. apply path_in_inj in Heq.
  apply (rm_apart _ _ _ Hr). by rewrite Heq.
Qed.

(** The archive is unpacked next to itself, and removed. *)
Lemma extract_beside rnd files f b :
  room rnd files f ->
  extract denied (member_of <$> files) (<[archive_path rnd := b]> f)
  = (Ok files.*1, <[archive_path rnd := b]> (add_all (placed <$> files) f)).
Proof using.
  intros Hr. unfold extract. rewrite extract_loop_new, add_all_insert; [done|by eapply placed_apart| |apply Hr|done|apply Hr|apply Hr].
  pose proof (placed_apart _ _ _ Hr) as Ha. rewrite placed_names in Ha. pose proof (rm_files _ _ _ Hr) as Hf.
  rewrite Forall_forall in Hf |- *. intros x Hx. destruct (Hf x Hx) as (Hs & Hne & Hd & Hnone). split_and!; [done|done|done|].
  rewrite lookup_insert_ne; [done|]. intros Heq. apply Ha. rewrite Heq. by do 2 apply list_elem_of_fmap_2.
Qed.

Lemma create_runs files d r o rs rnd h :
  room rnd files (fs d) ->
  create_archive denied (calm d r o rs rnd h)
  = (Ok (archive_path rnd), calm (set_fs (<[archive_path rnd := []]> (fs d)) d) r o rs rnd h).
Proof using.
  intros [[Hn Hd] _ _ _ _ _]. unfold create_archive. cbn [calm interfere others daemon Airdrop.random create_unique].
  change (INBOX ++ str "/" ++ rnd 7%nat ++ str "." ++ str "cpio") with (archive_path rnd).
  by rewrite Hn, Hd.
Qed.

(** What an upload leaves behind. *)
Record received (id : Z) (files : list (list byte * list byte)) (d d' : Device) : Prop := mkReceived {
  rc_table : current (table d') = id;
  rc_fs : fs d' = add_all (placed <$> files) (fs d);
  rc_events : exists ps, events d' = events d ++ ps ++ [Finished id (as_i32 (len files))] /\ Forall (progress_of id) ps
}.

Lemma unpack_runs id files b d0 d r o rs rnd h :
  room rnd files (fs d0) -> unpack b = member_of <$> files ->
  uploading id (archive_path rnd) d0 d -> fs d = <[archive_path rnd := b]> (fs d0) ->
  exists d' h', unpack_archive unpack denied (archive_path rnd) id (calm d r o rs rnd h) = (Ok tt, calm d' r o rs rnd h') /\
    received id files d0 d'.
Proof using.
  intros Hr Hb Hu Hf. unfold unpack_archive. erewrite run_bind; [|apply run_shared]. cbv beta.
  rewrite Hf, lookup_insert_eq, Hb, extract_beside by done. cbn [fst snd].
  erewrite run_bind; [|apply run_change]. rewrite run_told. do 2 eexists. split; [done|].
  destruct Hu as [[Ht _] _ (ps & He & Hps)]. split.
  - exact Ht.
  - cbn [fs emit remove_file set_fs]. rewrite delete_insert_id; [done|].
    rewrite add_all_lookup by (by eapply placed_apart). apply Hr.
  - exists ps. split; [|done]. cbn [events emit remove_file set_fs]. by rewrite He, len_map, <- app_assoc.
Qed.

Lemma receive_runs id files total cs s tl d r o rs rnd h :
  room rnd files (fs d) -> 0 <= total <= MAX_UPLOAD_BYTES ->
  unpack (mjoin cs) = member_of <$> files -> Forall (fun c => c <> []) cs -> len (mjoin cs) <= MAX_UPLOAD_BYTES ->
  current (table d) = id -> cancelled (table d) <> id ->
  delivers (mjoin (chunk <$> cs) ++ last_chunk ++ s) tl r ->
  exists d' r' h', receive_upload unpack denied (upload_head total) id (calm d r o rs rnd h)
    = (Ok (archive_path rnd), calm d' r' o rs rnd h') /\ delivers s tl r' /\ received id files d d'.
Proof using.
  intros Hroom Ht Hun Hcs Hl Hcur Hcan Hd.
  destruct (upload_head_read total) as (_ & Hch & Hdt & Hdl); [unfold MAX_UPLOAD_BYTES in Ht; unfold_ints; lia|].
  set (d1 := set_fs (<[archive_path rnd := []]> (fs d)) d).
  assert (Hu1 : uploading id (archive_path rnd) d d1).
  { split; [done|by eexists|]. exists []. by rewrite app_nil_r. }
  destruct (stream_runs id (archive_path rnd) total (upload_head total) cs s tl d d1 r o rs rnd h)
    as (d2 & r' & Hs & Hd' & Hu2 & Hf2); [done|done|done|done|apply lookup_insert_eq|done|].
  destruct (unpack_runs id files (mjoin cs) d
              (progress id (len (mjoin cs)) (if 0 <? total then total else len (mjoin cs)) d2) r' o rs rnd h)
    as (d3 & h' & Hrun & Hrc); [done|done|by apply uploading_progress|exact Hf2|].
  exists d3, r', h'. split_and!; [|done|done]. unfold receive_upload.
  erewrite run_bind; [|by eapply create_runs]. rewrite Hdt, Hdl. cbn [unwrap_or]. cbv zeta.
  rewrite (proj2 (Z.ltb_ge MAX_UPLOAD_BYTES total)), (proj2 (Z.ltb_ge MAX_UPLOAD_BYTES 0)) by (done || lia). cbn [orb].
  erewrite run_bind; [|exact Hs]. erewrite run_bind; [|apply run_look]. rewrite (not_cancelled _ _ _ _ Hu2).
  erewrite run_bind; [|apply run_change]. erewrite run_bind; [|exact Hrun]. done.
Qed.

Lemma handle_upload id files total cs s tl d r o rs rnd h :
  room rnd files (fs d) -> 0 <= total <= MAX_UPLOAD_BYTES ->
  unpack (mjoin cs) = member_of <$> files -> Forall (fun c => c <> []) cs -> len (mjoin cs) <= MAX_UPLOAD_BYTES ->
  current (table d) = id -> id <> 0 -> cancelled (table d) <> id ->
  delivers (upload_head total ++ mjoin (chunk <$> cs) ++ last_chunk ++ s) tl r ->
  exists d1 r' h', handle model unpack denied (calm d r o rs rnd h)
    = (Ok Close, calm (set_table (finish id (table d1)) d1) r' (o ++ response 200 None false) rs rnd h') /\
    delivers s tl r' /\ received id files d d1.
Proof using.
  intros Hroom Ht Hun Hcs Hl Hcur Hid Hcan Hd.
  destruct (upload_read total _ tl r Hd) as (r1 & ws & Hr1 & Hd1 & Hws).
  destruct (receive_runs id files total cs s tl d r1 o rs rnd h) as (d1 & r' & h' & Hrun & Hd' & Hrc); try done.
  exists d1, r', h'. split_and!; [|done|done].
  unfold handle. erewrite run_bind; [|by apply run_reading]. cbv beta iota zeta. rewrite Hws.
  cbn [lookup list_lookup default_bytes unwrap_or]. unfold request_body. change (says (str "/Upload") "/Upload") with true. cbv iota.
  erewrite (run_bind (ret (Some []))); [|done]. cbv beta iota. rewrite route_upload. erewrite run_bind; [|apply run_look].
  rewrite Hcur, (proj2 (Z.eqb_neq id 0)) by done. unfold accept_upload.
  erewrite run_bind; [|apply run_look]. cbv beta. rewrite Hcur, Hrun.
  erewrite run_bind; [|apply run_change]. erewrite run_bind; [|apply run_respond]. done.
Qed.

End Arrival.

(** ** The two ends together *)

Definition file_of (i : Item) : list byte * list byte := (name i, contents (file i)).

Lemma sizes_total items : Forall sized items -> sizes (file_of <$> items) = total_size items.
Proof.
  induction 1 as [|i items Hi _ IH]; [done|]. rewrite fmap_cons.
  change (sizes (?x :: ?l)) with (len x.2 + sizes l). rewrite IH. cbn [file_of snd]. by rewrite Hi.
Qed.

Lemma mjoin_filter (ps : list (list byte)) : mjoin (filter (fun p => p <> []) ps) = mjoin ps.
Proof.
  induction ps as [|p ps IH]; [done|]. change (mjoin (p :: ps)) with (p ++ mjoin ps). rewrite <- IH.
  destruct (decide (p = [])) as [->|Hp]; [by rewrite filter_cons_False by auto|by rewrite filter_cons_True].
Qed.

Lemma serve_two {Sock File Group} model unpack denied (c c1 c2 : @Conn Sock File Group) :
  handle model unpack denied c = (Ok KeepAlive, c1) -> handle model unpack denied c1 = (Ok Close, c2) ->
  serve_connection model unpack denied 2 c = (Ok tt, c2).
Proof. intros H1 H2. cbn [serve_connection]. unfold bind. by rewrite H1, H2. Qed.

Lemma as_i32_small n : is_i32 n -> as_i32 n = n.
Proof. intros Hn. unfold_ints. rewrite Z.mod_small; lia. Qed.

(** C13: a file sent by AirDrop arrives.  Take any run of [send] that reports success and give the
    bytes it wrote, cut into pieces in any way, to a connection at the other end, under these
    conditions.  The offer ([honest_offer]): the sender's name, model and identifier are UTF-8
    and the name is fit to show, the files' names are UTF-8, not empty, without a separator and
    fit to show, there are at most 371 of them and the offer is at most 8 MiB.  The archive: the
    receiver's reader gives back the members the sender's writer put in, and the compressed
    archive is within the cap on uploads.  The device ([ready_for]): visible, set to ask, its slot free, no
    answer left over, and the next transfer's number positive and not cancelled.  Its inbox ([room]): the files' names differ, none is the name of a file there or
    one the system forbids, none of the files is empty, their number and total size
    are within the caps, and the temporary archive's name is free and none of theirs.  And while the connection
    runs its owner says yes, nobody else touches the device, and no write fails ([calm]).

    Then the connection ends without an error, having read exactly those bytes; the person was
    asked once, about that sender and exactly the names of those files, and clients were told of
    progress and then of one success; the answers to the sender are two responses 200; every file
    is in the inbox under its own name with exactly the bytes that were read at the other end,
    nothing else in the file system has changed, the temporary archive included; and the slot
    is free again.  The conditions on the inbox are needed: [extract] skips a file without
    bytes, and stores one whose name is taken as "x (1)". *)
Theorem airdrop_arrives `{Network} `{Gzip} `{Odc} {Sock File Group} fuel sender_id items sender_name sender_model st st' x
    model unpack denied id (d : @Daemon Sock File Group) rest tl r o l g rnd h :
  let files := file_of <$> items in
  send fuel sender_id items sender_name sender_model st = (Ok tt, st') -> sent st' = sent st ++ x ->
  honest_offer sender_id items sender_name sender_model ->
  (forall ws, archive 0 items = Some (mjoin ws) -> Forall sized items ->
     unpack (mjoin (pieces ws)) = member_of <$> files /\ len (mjoin (pieces ws)) <= MAX_UPLOAD_BYTES) ->
  ready_for id d -> room denied rnd files (fs d) ->
  delivers (x ++ rest) tl r ->
  exists d' r' h' ps, serve_connection model unpack denied 2 (calm d r o [mkRound [says_yes id] l g] rnd h)
    = (Ok tt, calm d' r' (o ++ response 200 (Some (Airdrop.ask_body model (device_name d))) true ++ response 200 None false) [] rnd h') /\
    delivers rest tl r' /\
    fs d' = add_all (placed <$> files) (fs d) /\ current (table d') = 0 /\
    events d' = events d ++ Offered id sender_name (name <$> items) :: ps ++ [Airdrop.Finished id (len items)] /\
    Forall (progress_of id) ps.
Proof.
  intros files Hsend Hx Hoffer Hlib Hready Hroom Hd.
  pose proof (send_spec fuel sender_id items sender_name sender_model st) as Hs. cbv zeta in Hs.
  rewrite Hsend in Hs. destruct Hs as (y & Hy & _ & Hok). rewrite Hx in Hy. apply app_inv_head in Hy as <-.
  destruct (Hok eq_refl) as (ws & Ha & Hsized & ->). clear Hok Hx. destruct (Hlib ws Ha Hsized) as [Hun Hlen].
  rewrite <- !app_assoc in Hd.
  destruct (handle_ask model unpack denied id _ _ _ _ _ _ _ r o l g rnd h Hoffer Hd Hready)
    as (d1 & r1 & h1 & Hh1 & Hd1 & [[Hcur Hcan] Hfs He]).
  pose proof (rf_fresh _ _ Hready) as [Hpos Hfresh].
  assert (Hroom1 : room denied rnd files (fs d1)) by (by rewrite Hfs).
  assert (Htotal : 0 <= total_size items <= MAX_UPLOAD_BYTES).
  { rewrite <- sizes_total by done. split; [apply sizes_nonneg|apply Hroom]. }
  destruct (handle_upload model unpack denied id files (total_size items) (filter (fun p => p <> []) (pieces ws)) rest tl
              d1 r1 (o ++ response 200 (Some (Airdrop.ask_body model (device_name d))) true) [] rnd h1)
    as (d2 & r2 & h2 & Hh2 & Hd2 & [Hcur2 Hfs2 (ps & He2 & Hps)]); try done.
  { by rewrite mjoin_filter. }
  { apply Forall_forall. by intros p [Hp _]%list_elem_of_filter. }
  { by rewrite mjoin_filter. }
  { lia. }
  { by rewrite Hcan. }
  do 2 eexists. exists h2, ps. split_and!; [rewrite (serve_two _ _ _ _ _ _ Hh1 Hh2); by rewrite <- app_assoc|done| | | |done].
  - cbn [fs set_table]. by rewrite Hfs2, Hfs.
  - cbn [table set_table]. by rewrite (proj1 (finish_fields _ _)), Hcur2, Z.eqb_refl.
  - cbn [events set_table]. rewrite He2, He, <- app_assoc. unfold files. rewrite len_map.
    rewrite as_i32_small; [done|]. pose proof (rm_members _ _ _ _ Hroom) as Hm. unfold files in Hm. rewrite len_map in Hm.
    pose proof (len_nonneg items). unfold MAX_MEMBERS in Hm. unfold_ints. lia.
Qed.

(** ** A photo goes across *)

Module ToyArrival.

#[local] Existing Instances ToySend.toy_network ToySend.toy_gzip ToySend.toy_odc.

Definition items : list Item := [ToySend.photo].
Definition start : @Send.St ToySend.toy_network :=
  @Send.mkSt ToySend.toy_network false [Http.Data ToySend.ok_response; Http.Data ToySend.ok_response] [].
Definition sending : result unit SendError * @Send.St ToySend.toy_network :=
  send 10 (str "id") items (str "Mac") (str "MacBook Pro") start.

(** The toy compressor adds an exclamation mark. *)
Lemma toy_pieces ws : mjoin (pieces ws) = mjoin ws ++ str "!".
Proof.
  unfold pieces. assert (Hrun : forall g, gz_run ws g = ((fun x => [x]) <$> mjoin ws, g)).
  { induction ws as [|w ws IH]; [by intros []|]. intros []. cbn [gz_run gz_write ToySend.toy_gzip].
    change (mjoin (w :: ws)) with (w ++ mjoin ws). by rewrite IH, fmap_app. }
  assert (Hone : forall l : list byte, mjoin ((fun x => [x]) <$> l) = l).
  { induction l as [|b l IH]; [done|]. rewrite fmap_cons. change (mjoin (?x :: ?y)) with (x ++ mjoin y). by rewrite IH. }
  by rewrite Hrun, join_app, Hone.
Qed.

Definition archived : list byte := str "./photo.jpg3abcend!".
Definition toy_unpack (b : list byte) : Archive :=
  if bool_decide (b = archived) then member_of <$> (file_of <$> items) else [None].

Definition rnd (_ : nat) : list byte := str "0123456789abcdef".

Lemma airdrop_arrives_witness :
  exists d' r' h' ps,
    serve_connection (str "Pixel 9") toy_unpack (fun _ => false) 2
      (calm ToyAirdrop.phone [Http.Data (sent sending.2)] [] [mkRound [says_yes 1] false false] rnd [])
    = (Ok tt, calm d' r' (response 200 (Some (Airdrop.ask_body (str "Pixel 9") (str "Pixel"))) true ++ response 200 None false) [] rnd h') /\
    fs d' = add_all [placed (str "photo.jpg", str "abc")] empty /\
    events d' = Offered 1 (str "Mac") [str "photo.jpg"] :: ps ++ [Airdrop.Finished 1 1].
Proof.
  assert (Hs : send 10 (str "id") items (str "Mac") (str "MacBook Pro") start = (Ok tt, sending.2)) by (vm_compute; reflexivity).
  destruct (airdrop_arrives 10 (str "id") items (str "Mac") (str "MacBook Pro") start sending.2 (sent sending.2)
              (str "Pixel 9") toy_unpack (fun _ => false) 1 ToyAirdrop.phone [] [] [Http.Data (sent sending.2)] [] false false rnd [])
    as (d' & r' & h' & ps & Hrun & _ & Hfs & _ & He & _).
  - exact Hs.
  - change (sent start) with (@nil byte). rewrite app_nil_l. exact eq_refl.
  - split; [vm_compute; reflexivity|vm_compute; reflexivity|vm_compute; reflexivity| | | |vm_compute; reflexivity].
    + apply Forall_cons_2; [|apply Forall_nil_2]. split; [vm_compute; reflexivity|discriminate|repeat constructor|vm_compute; reflexivity].
    + vm_compute. discriminate.
    + rewrite <- Z.leb_le. vm_compute. reflexivity.
  - intros ws Ha _. rewrite toy_pieces. change (archive 0 items) with (Some (str "./photo.jpg3abcend")) in Ha.
    injection Ha as Ha. rewrite <- Ha. split; [vm_compute; reflexivity|vm_compute; discriminate].
  - split; try reflexivity. split; [lia|discriminate].
  - split; [split; reflexivity|vm_compute; intros Hin; inversion Hin as [|? ? ? Hi]; inversion Hi| | |vm_compute; discriminate|vm_compute; discriminate].
    + apply Forall_cons_2; [|apply Forall_nil_2]. split; [|split; [discriminate|split; reflexivity]].
      split; [vm_compute; reflexivity|vm_compute; reflexivity|repeat constructor].
    + apply NoDup_singleton.
  - exists [sent sending.2]. split; [rewrite app_nil_r; reflexivity|split; [reflexivity|]].
    apply Forall_cons_2; [vm_compute; discriminate|apply Forall_nil_2].
  - exists d', r', h', ps. split; [exact Hrun|split; [exact Hfs|exact He]].
Defined.

End ToyArrival.
