(* ===== verification/Mdns.v ===== *)
(** * AirDrop peers on the link ([sharingd/src/mdns.rs])

    The browser's table of peers and the responder: what a record from the link does to the
    table, who is dropped and when, what we announce, withdraw and answer.  Sockets are the
    packets that are sent and received; the files of the system are what they contain.  The
    theorems say that a device that announces itself is found, that one that says goodbye is
    dropped, that nobody else is while Bluetooth vouches for them, and that we are not our own
    peer. *)

From stdpp Require Import gmap.
From S2P Require Import Prelude Utf8 Utf16 Text Service Dns.
#[local] Open Scope rust_scope.

Definition AIRDROP_SERVICE : list byte := str "_airdrop._tcp.local".
Definition AIRDROP_PORT : Z := 8770.
Definition SERVICE_ENUM : list byte := str "_services._dns-sd._udp.local".
Definition AIRDROP_FLAGS : list byte := str "flags=489".
Definition TTL : Z := 120.

(** Times are milliseconds. *)
Definition LOST_UNANSWERED : Z := 3.
Definition LOST_AFTER : Z := 60 * 1000.

Record Peer : Type := mkPeer {
  p_instance : list byte;
  p_host : list byte;
  p_port : Z;
  p_addr : option (list byte);
  last_seen : Z;
  expires_at : Z;
  unanswered : Z;
  unreceptive_since : option Z;
  withdrawn : bool
}.

Abbreviation Peers := (gmap (list byte) Peer).

(** ** Around the browser *)

Inductive Dest : Type := Multicast | Unicast (addr : list byte).

(** The identity file and whether it can be written, the file with the interface's MAC, the
    kernel's list of addresses, what the random generator gives and whether sends succeed, in
    order; what was sent is kept. *)
Record World : Type := mkWorld {
  identity : option (list byte);
  writable : bool;
  mac : option (list byte);
  inet6 : option (list byte);
  draws : list (option (list byte));
  link : list bool;
  sent : list (Dest * list byte)
}.

Definition send_to (d : Dest) (pkt : list byte) (w : World) : bool * World :=
  match link w with
  | false :: l => (false, mkWorld (identity w) (writable w) (mac w) (inet6 w) (draws w) l (sent w))
  | l => (true, mkWorld (identity w) (writable w) (mac w) (inet6 w) (draws w) (tail l) (sent w ++ [(d, pkt)]))
  end.

(** [getrandom] of six bytes. *)
Definition draw (w : World) : option (list byte) * World :=
  match draws w with
  | [] => (None, w)
  | d :: ds => (d, mkWorld (identity w) (writable w) (mac w) (inet6 w) ds (link w) (sent w))
  end.

Definition write_identity (id : list byte) (w : World) : World :=
  if writable w then mkWorld (Some id) (writable w) (mac w) (inet6 w) (draws w) (link w) (sent w) else w.

(** *** Who we are *)

Definition is_hexdigit (b : byte) : bool :=
  between 48 57 (u8 b) || between 65 70 (u8 b) || between 97 102 (u8 b).
Definition twelve_hex (s : list byte) : bool := (len s =? 12) && forallb is_hexdigit s.

Definition colon (b : byte) : bool := u8 b =? 58.

(** [mac.trim().split(':').collect()]. *)
Definition instance_name (w : World) : list byte :=
  match (let^ m := mac w in from_utf8 m) with
  | Some m =>
      let hex := filter (fun b => colon b = false) (trim m) in
      if twelve_hex hex then to_ascii_lowercase hex else str "000000000000"
  | None => str "000000000000"
  end.

Definition mint_identity (w : World) : list byte * World :=
  let (d, w) := draw w in
  match d with
  | None => (instance_name w, w)
  | Some b => let id := mjoin (hex <$> b) in (id, write_identity id w)
  end.

Definition stable_instance (w : World) : list byte * World :=
  match (let^ s := identity w in from_utf8 s) with
  | Some s => if twelve_hex (trim s) then (to_ascii_lowercase (trim s), w) else mint_identity w
  | None => mint_identity w
  end.

(** The sixteen bytes of an address written in hexadecimal. *)
Fixpoint hex_bytes (n : nat) (s : list byte) : option (list byte) :=
  match n with
  | O => Some []
  | S n =>
      let^ v := parse_radix 16 255 (take 2 s) in
      let^ rest := hex_bytes n (drop 2 s) in
      Some (to_u8 v :: rest)
  end.

(** The loop over the lines of [/proc/net/if_inet6]. *)
Fixpoint link_local_go (iface : list byte) (ls : list (list byte)) : option (list byte) :=
  match ls with
  | [] => None
  | l :: ls =>
      let^ addr := head (split_whitespace l) in
      let^ name := last (split_whitespace l) in
      if negb (bool_decide (name = iface)) || negb (len addr =? 32) || negb (starts_with addr (str "fe80")) then
        link_local_go iface ls
      else hex_bytes 16 addr
  end.
Definition link_local_of (iface : list byte) (w : World) : option (list byte) :=
  let^ data := inet6 w in let^ data := from_utf8 data in link_local_go iface (lines data).

(** ** The browser *)

Record Browser : Type := mkBrowser {
  table : Peers;
  iface : list byte;
  instance : list byte;
  advertising : bool;
  queries_sent : Z;
  can_respond : bool;
  probe_eviction : bool;
  eviction_since : option Z
}.

(** [bound]: the socket has port 5353. *)
Definition new (iface_ : list byte) (bound : bool) (now : Z) (w : World) : Browser * World :=
  let (i, w) := stable_instance w in (mkBrowser empty iface_ i false 0 bound true (Some now), w).

Definition set_table (t : Peers) (b : Browser) : Browser :=
  mkBrowser t (iface b) (instance b) (advertising b) (queries_sent b) (can_respond b) (probe_eviction b) (eviction_since b).
Definition set_instance (i : list byte) (b : Browser) : Browser :=
  mkBrowser (table b) (iface b) i (advertising b) (queries_sent b) (can_respond b) (probe_eviction b) (eviction_since b).
Definition set_advertising (x : bool) (b : Browser) : Browser :=
  mkBrowser (table b) (iface b) (instance b) x (queries_sent b) (can_respond b) (probe_eviction b) (eviction_since b).
Definition set_queries (n : Z) (b : Browser) : Browser :=
  mkBrowser (table b) (iface b) (instance b) (advertising b) n (can_respond b) (probe_eviction b) (eviction_since b).
Definition set_gate (x : bool) (since : option Z) (b : Browser) : Browser :=
  mkBrowser (table b) (iface b) (instance b) (advertising b) (queries_sent b) (can_respond b) x since.

Definition our_addr (b : Browser) (w : World) : option (list byte) := link_local_of (iface b) w.

Definition full_instance (b : Browser) : list byte := instance b ++ str "." ++ AIRDROP_SERVICE.

(** [to_uppercase] of an instance name, which is hexadecimal. *)
Definition upper (b : byte) : byte := if between 97 122 (u8 b) then to_u8 (u8 b - 32) else b.
Definition host (b : Browser) : list byte :=
  str "Android_" ++ (upper <$> take 8 (instance b)) ++ str ".local".

(** The name recomputed here may have to be minted. *)
Definition is_self_instance (n : list byte) (b : Browser) (w : World) : bool * World :=
  if bool_decide (n = full_instance b) then (true, w)
  else
    let (i, w) := stable_instance w in
    (bool_decide (n = i ++ str "." ++ AIRDROP_SERVICE), w).

Definition is_self_addr (a : list byte) (b : Browser) (w : World) : bool :=
  bool_decide (our_addr b w = Some a).

(** *** What we announce *)

(** [{:X}]. *)
Definition hex_upper (n : Z) : byte := upper (hex_digit n).
Definition reverse_name (a : list byte) : list byte :=
  mjoin ((fun b => [hex_upper (Z.land (u8 b) 0x0f)] ++ str "." ++ [hex_upper (Z.shiftr (u8 b) 4)] ++ str ".") <$> rev a)
  ++ str "ip6.arpa".

Definition records_with_ttl (ttl : Z) (b : Browser) (w : World) : list (list byte) :=
  let inst := full_instance b in
  let host := host b in
  let srv := to_be_bytes 2 0 ++ to_be_bytes 2 0 ++ to_be_bytes 2 AIRDROP_PORT ++ encode_name host in
  [record SERVICE_ENUM TYPE_PTR ttl (encode_name AIRDROP_SERVICE) false;
   record AIRDROP_SERVICE TYPE_PTR ttl (encode_name inst) false;
   record inst TYPE_SRV ttl srv true;
   record inst TYPE_TXT ttl (txt_rdata [AIRDROP_FLAGS]) true]
  ++ match our_addr b w with
     | Some a => [record host TYPE_AAAA ttl a true;
                  record (reverse_name a) TYPE_PTR ttl (encode_name host) true]
     | None => []
     end
  ++ [record inst TYPE_NSEC ttl (nsec_rdata inst [TYPE_TXT; TYPE_SRV]) true;
      record host TYPE_NSEC ttl (nsec_rdata host [TYPE_AAAA]) true].
Definition our_records (b : Browser) (w : World) : list (list byte) := records_with_ttl TTL b w.

Definition send_multicast (pkt : list byte) (w : World) : bool * World := send_to Multicast pkt w.

(** Three packets; the last one's result is reported. *)
Fixpoint goodbye_loop (n : nat) (pkt : list byte) (ok : bool) (w : World) : bool * World :=
  match n with
  | O => (ok, w)
  | S n => let (ok, w) := send_multicast pkt w in goodbye_loop n pkt ok w
  end.
Definition goodbye (b : Browser) (w : World) : bool * World :=
  goodbye_loop 3 (response (records_with_ttl 0 b w)) true w.

Definition stop_advertising (b : Browser) (w : World) : bool * Browser * World :=
  if negb (advertising b) then (true, b, w)
  else let b := set_advertising false b in
       let (ok, w) := goodbye b w in (ok, b, w).

Definition announce (b : Browser) (w : World) : bool * World :=
  if negb (advertising b) then (true, w) else send_multicast (response (our_records b w)) w.

Definition advertise (b : Browser) (w : World) : bool * Browser * World :=
  if negb (can_respond b) then (false, b, w)
  else let b := set_advertising true b in
       let (ok, w) := announce b w in (ok, b, w).

Definition reset_identity (b : Browser) (w : World) : list byte * Browser * World :=
  let (i, w) := mint_identity w in (i, set_instance i b, w).

(** *** What we answer *)

Definition QTYPE_ANY : Z := 255.

(** Whether a question is about us; the arms of the match are tried in order. *)
Definition about_us (b : Browser) (q : Question) : bool :=
  let is_ t := qtype q =? t in
  if bool_decide (q_name q = AIRDROP_SERVICE) then is_ TYPE_PTR || is_ QTYPE_ANY
  else if bool_decide (q_name q = full_instance b) then is_ TYPE_SRV || is_ TYPE_TXT || is_ QTYPE_ANY
  else if bool_decide (q_name q = host b) then is_ TYPE_AAAA || is_ TYPE_A || is_ QTYPE_ANY
  else false.

Definition answer (qs : list Question) (b : Browser) (w : World) : World :=
  if existsb (about_us b) qs then (send_multicast (response (our_records b w)) w).2 else w.

(** *** What we ask *)

Definition count (n : Z) : Z := Z.min u32_max (n + 1).

Definition set_unanswered (n : Z) (p : Peer) : Peer :=
  mkPeer (p_instance p) (p_host p) (p_port p) (p_addr p) (last_seen p) (expires_at p) n (unreceptive_since p) (withdrawn p).

Definition query (b : Browser) (w : World) : bool * Browser * World :=
  let b := set_queries (count (queries_sent b)) b in
  let unicast := (queries_sent b <=? 3) || (queries_sent b mod 5 =? 0) in
  let (ok, w) := send_to Multicast (query_with AIRDROP_SERVICE unicast) w in
  if negb ok then (false, b, w)
  else (true, if unicast then set_table ((fun p => set_unanswered (count (unanswered p)) p) <$> table b) b else b, w).

(** One peer at a time, in the order of the map. *)
Fixpoint probe_loop (ps : list (list byte * Peer)) (asked : Z) (t : Peers) (w : World) : Z * Peers * World :=
  match ps with
  | [] => (asked, t, w)
  | (k, p) :: ps =>
      match p_addr p with
      | None => probe_loop ps asked t w
      | Some a =>
          let (ok, w) := send_to (Unicast a) (query_with AIRDROP_SERVICE true) w in
          if ok then probe_loop ps (asked + 1) (<[k := set_unanswered (count (unanswered p)) p]> t) w
          else probe_loop ps asked t w
      end
  end.
Definition probe (b : Browser) (w : World) : Z * Browser * World :=
  let '(n, t, w) := probe_loop (map_to_list (table b)) 0 (table b) w in (n, set_table t b, w).

Definition restart_query_burst (b : Browser) : Browser := set_queries 0 b.

(** *** What Bluetooth says *)

Definition set_unreceptive (o : option Z) (p : Peer) : Peer :=
  mkPeer (p_instance p) (p_host p) (p_port p) (p_addr p) (last_seen p) (expires_at p) (unanswered p) o (withdrawn p).

Definition mark_unreceptive (now : Z) (unreceptive : bool) (b : Browser) : Browser :=
  set_table ((fun p => set_unreceptive
                         (if unreceptive then match unreceptive_since p with Some t => Some t | None => Some now end
                          else None) p) <$> table b) b.

Definition set_probe_eviction (now : Z) (enabled : bool) (b : Browser) : Browser :=
  set_gate enabled (if Bool.eqb (probe_eviction b) enabled then eviction_since b
                    else if enabled then Some now else None) b.

Definition eviction_ripe (now : Z) (b : Browser) : bool :=
  match eviction_since b with Some t => LOST_AFTER <=? duration_since now t | None => false end.

(** *** What arrives *)

Definition ttl_of (rec : Record_) : Z :=
  if ttl rec =? 0 then 1000 else 1000 * Z.min 300 (Z.max 30 (ttl rec)).

(** Seen now; the lease is only shortened by a goodbye. *)
Definition seen (now : Z) (rec : Record_) (p : Peer) : Peer :=
  let t := now + ttl_of rec in
  mkPeer (p_instance p) (p_host p) (p_port p) (p_addr p) now (if ttl rec =? 0 then t else Z.max (expires_at p) t)
    0 (unreceptive_since p) (withdrawn p).

Definition on_ptr (now : Z) (packet : list byte) (rec : Record_) (b : Browser) (w : World) : Browser * World :=
  match Reader.name (Reader.mk packet (rdata_at rec)) with
  | None => (b, w)
  | Some (i, _) =>
      let (self, w) := is_self_instance i b w in
      if self then (b, w)
      else
        let p := match table b !! i with
                 | Some p => p
                 | None => mkPeer i [] 0 None now (now + ttl_of rec) 0 None false
                 end in
        let p := mkPeer (p_instance p) (p_host p) (p_port p) (p_addr p) now (now + ttl_of rec) 0
                   (unreceptive_since p) (if ttl rec =? 0 then true else withdrawn p) in
        (set_table (<[i := p]> (table b)) b, w)
  end.

Definition on_srv (now : Z) (packet : list byte) (rec : Record_) (b : Browser) : Browser :=
  if len (rdata rec) <? 6 then b
  else
    let port := from_be_bytes (sub_range (rdata rec) 4 6) in
    let host := match Reader.name (Reader.mk packet (rdata_at rec + 6)) with Some (h, _) => h | None => [] end in
    set_table (alter (fun p =>
      let p := seen now rec p in
      mkPeer (p_instance p) host port (p_addr p) (last_seen p) (expires_at p) (unanswered p) (unreceptive_since p)
        (if ttl rec =? 0 then true else withdrawn p)) (r_name rec) (table b)) b.

Definition set_addr (a : list byte) (p : Peer) : Peer :=
  mkPeer (p_instance p) (p_host p) (p_port p) (Some a) (last_seen p) (expires_at p) (unanswered p) (unreceptive_since p) (withdrawn p).

Definition on_aaaa (now : Z) (rec : Record_) (b : Browser) (w : World) : Browser :=
  if is_self_addr (rdata rec) b w then
    set_table (filter (fun kp : list byte * Peer => p_host kp.2 <> r_name rec) (table b)) b
  else
    set_table ((fun p => if negb (is_empty (p_host p)) && bool_decide (p_host p = r_name rec)
                         then set_addr (rdata rec) (seen now rec p) else p) <$> table b) b.

Definition absorb_one (now : Z) (packet : list byte) (rec : Record_) (b : Browser) (w : World) : Browser * World :=
  if (rtype rec =? TYPE_PTR) && bool_decide (r_name rec = AIRDROP_SERVICE) then on_ptr now packet rec b w
  else if rtype rec =? TYPE_TXT then (set_table (alter (seen now rec) (r_name rec) (table b)) b, w)
  else if rtype rec =? TYPE_SRV then (on_srv now packet rec b, w)
  else if (rtype rec =? TYPE_AAAA) && (len (rdata rec) =? 16) then (on_aaaa now rec b w, w)
  else (b, w).

(** The instants read while a packet is absorbed are one. *)
Fixpoint absorb (now : Z) (packet : list byte) (rs : list Record_) (b : Browser) (w : World) : Browser * World :=
  match rs with
  | [] => (b, w)
  | rec :: rs => let (b, w) := absorb_one now packet rec b w in absorb now packet rs b w
  end.

Definition on_packet (now : Z) (packet : list byte) (b : Browser) (w : World) : Browser * World :=
  match parse packet with
  | None => (b, w)
  | Some msg =>
      let (b, w) := absorb now packet (records msg) b w in
      (b, if advertising b then answer (questions msg) b w else w)
  end.

(** What the socket gives, with the time: a datagram, of which 4096 bytes are read, or an
    error. *)
Fixpoint poll_loop (n : nat) (got : Z) (rx : list (option (Z * list byte))) (b : Browser) (w : World)
    : Z * list (option (Z * list byte)) * Browser * World :=
  match n, rx with
  | S n, Some (now, datagram) :: rx =>
      let (b, w) := on_packet now (take 4096 datagram) b w in poll_loop n (got + 1) rx b w
  | S _, None :: rx => (got, rx, b, w)
  | _, _ => (got, rx, b, w)
  end.
Definition poll := poll_loop 32 0.

(** *** Who is dropped *)

Definition forget_peers (b : Browser) : Browser := set_table empty b.

(** The closure of [retain]. *)
Definition keep (ripe : bool) (min_grace now : Z) (p : Peer) : bool :=
  let silent := duration_since now (last_seen p) in
  if ripe && (LOST_UNANSWERED <=? unanswered p) && (LOST_AFTER <=? silent) then false
  else if withdrawn p && (expires_at p <=? now) then false
  else if negb ripe then true
  else (now <? expires_at p) || (silent <? min_grace).

Definition expire (min_grace now : Z) (b : Browser) : Browser :=
  let ripe := probe_eviction b && eviction_ripe now b in
  set_table (filter (fun kp : list byte * Peer => keep ripe min_grace now kp.2 = true) (table b)) b.

(** In the order of the map. *)
Definition peers (b : Browser) (w : World) : list Peer :=
  let me := our_addr b w in
  filter (fun p => bool_decide (p_addr p = None) || negb (bool_decide (p_addr p = me)) = true) (map_to_list (table b)).*2.

Definition peer_count (b : Browser) : Z := Z.of_nat (size (table b)).

(** ** Lemmas *)

(** *** Names *)

Lemma hexdigit_text l : forallb is_hexdigit l = true -> label_text l = true /\ label_text (upper <$> l) = true.
Proof.
  induction l as [|b l IH]; [done|]. cbn [forallb]. intros [Hb [H1 H2]%IH]%andb_true_iff. unfold label_text in *.
  cbn [fmap list_fmap forallb]. rewrite H1, H2, !andb_true_r. revert Hb. clear. destruct b; by vm_compute.
Qed.

Definition service_labels : list (list byte) := [str "_airdrop"; str "_tcp"; str "local"].

Lemma forallb_take {A} (p : A -> bool) n l : forallb p l = true -> forallb p (take n l) = true.
Proof. intros Hp. rewrite <- (take_drop n l), forallb_app in Hp. by apply andb_true_iff in Hp as [? _]. Qed.

Lemma twelve_hex_spec i : twelve_hex i = true -> len i = 12 /\ forallb is_hexdigit i = true.
Proof. unfold twelve_hex. intros [Hl Hh]%andb_true_iff. split; [lia|done]. Qed.

Lemma service_name i :
  twelve_hex i = true ->
  Forall wf_label (i :: service_labels) /\ i ++ str "." ++ AIRDROP_SERVICE = dotted (i :: service_labels) /\
  len (dotted (i :: service_labels)) = 32.
Proof.
  intros [Hl Hh]%twelve_hex_spec. destruct (hexdigit_text i Hh) as [Ht _].
  assert (Hne : i <> []) by (intros ->; by rewrite len_nil in Hl).
  assert (Hd : i ++ str "." ++ AIRDROP_SERVICE = dotted (i :: service_labels)).
  { change (i :: service_labels) with ([i; str "_airdrop"; str "_tcp"] ++ [str "local"]).
    rewrite dotted_snoc by (repeat constructor; done). cbn [fmap list_fmap].
    change (mjoin [?a; ?b; ?c]) with (a ++ b ++ c ++ []). by rewrite <- !app_assoc. }
  split_and!; [|done|].
  - apply Forall_cons_2; [apply label_wf; [lia|done]|]. repeat constructor; by vm_compute.
  - rewrite <- Hd, !len_app, Hl. by vm_compute.
Qed.

Definition host_labels (i : list byte) : list (list byte) := [str "Android_" ++ (upper <$> take 8 i); str "local"].

Lemma host_name b :
  twelve_hex (instance b) = true ->
  Forall wf_label (host_labels (instance b)) /\ host b = dotted (host_labels (instance b)) /\ len (host b) = 22.
Proof.
  intros [Hl Hh]%twelve_hex_spec. apply (forallb_take _ 8) in Hh. destruct (hexdigit_text _ Hh) as [_ Ht].
  assert (H8 : len (upper <$> take 8 (instance b)) = 8).
  { rewrite len_map, len_take. lia. }
  split_and!.
  - apply Forall_cons_2; [|repeat constructor; by vm_compute]. apply label_wf.
    + rewrite len_app, H8. by vm_compute.
    + unfold label_text in *. by rewrite forallb_app, Ht.
  - unfold host, host_labels. change [?x; str "local"] with ([x] ++ [str "local"]). rewrite dotted_snoc by by repeat constructor.
    cbn [fmap list_fmap]. change (mjoin [?x]) with (x ++ []). by rewrite app_nil_r, <- !app_assoc.
  - unfold host. rewrite !len_app, H8. by vm_compute.
Qed.

Definition reverse_labels (a : list byte) : list (list byte) :=
  mjoin ((fun b => [[hex_upper (Z.land (u8 b) 0x0f)]; [hex_upper (Z.shiftr (u8 b) 4)]]) <$> rev a) ++ [str "ip6"; str "arpa"].

Lemma nibbles_text b :
  label_text [hex_upper (Z.land (u8 b) 0x0f)] = true /\ label_text [hex_upper (Z.shiftr (u8 b) 4)] = true.
Proof. destruct b; by vm_compute. Qed.

Lemma reverse_name_labels a :
  len a = 16 ->
  Forall wf_label (reverse_labels a) /\ reverse_name a = dotted (reverse_labels a) /\ len (reverse_name a) = 72.
Proof.
  intros Hl. unfold reverse_labels. change [str "ip6"; str "arpa"] with ([str "ip6"] ++ [str "arpa"]). rewrite app_assoc.
  set (ns := mjoin _).
  assert (Hns : Forall wf_label ns).
  { subst ns. clear Hl. induction (rev a) as [|b l IH]; [constructor|]. cbn [fmap list_fmap].
    change (mjoin (?x :: ?y)) with (x ++ mjoin y). apply Forall_app. split; [|exact IH].
    destruct (nibbles_text b). repeat apply Forall_cons_2; try apply Forall_nil_2; by apply label_wf. }
  assert (Hne : Forall (fun k => k <> []) ns).
  { eapply Forall_impl; [exact Hns|]. intros k ([Hk _] & _) ->. by vm_compute in Hk. }
  split_and!.
  - apply Forall_app. split; [|repeat constructor; by vm_compute]. apply Forall_app. split; [done|]. repeat constructor; by vm_compute.
  - rewrite dotted_snoc by (apply Forall_app; split; [done|by repeat constructor]). unfold reverse_name.
    rewrite fmap_app, join_app, <- app_assoc. f_equal. subst ns. clear. induction (rev a) as [|b l IH]; [done|].
    cbn [fmap list_fmap]. change (mjoin (?x :: ?y)) with (x ++ mjoin y). rewrite fmap_app, join_app, IH. done.
  - unfold reverse_name. rewrite len_app. assert (H4 : forall l, len (mjoin ((fun b => [hex_upper (Z.land (u8 b) 0x0f)] ++ str "."
        ++ [hex_upper (Z.shiftr (u8 b) 4)] ++ str ".") <$> l)) = 4 * len l).
    { induction l as [|b l IH]; [done|]. cbn [fmap list_fmap]. change (mjoin (?x :: ?y)) with (x ++ mjoin y).
      rewrite len_app, IH, len_cons. change (len (_ ++ _)) with 4. lia. }
    rewrite H4. assert (Hr : len (rev a) = 16) by (rewrite len_nat in *; by rewrite length_rev). by rewrite Hr.
Qed.

(** *** Who we are *)

Lemma lower_hex l : twelve_hex l = true -> twelve_hex (to_ascii_lowercase l) = true.
Proof.
  unfold twelve_hex, to_ascii_lowercase. intros [Hl Hh]%andb_true_iff. rewrite len_map, Hl. cbn [andb]. clear Hl.
  induction l as [|b l IH]; [done|]. cbn [fmap list_fmap forallb] in *. apply andb_true_iff in Hh as [Hb Hh].
  rewrite IH by done. revert Hb. clear. destruct b; by vm_compute.
Qed.

Lemma instance_name_hex w : twelve_hex (instance_name w) = true.
Proof.
  unfold instance_name. destruct (let^ m := mac w in from_utf8 m) as [m|]; [|by vm_compute].
  cbv zeta. set (h := filter _ _). destruct (twelve_hex h) eqn:Ht; [by apply lower_hex|by vm_compute].
Qed.

(** What [getrandom] gives when it succeeds. *)
Definition six_bytes (w : World) : Prop := Forall (fun d => forall b, d = Some b -> len b = 6) (draws w).

Lemma hex_twelve b : len b = 6 -> twelve_hex (mjoin (hex <$> b)) = true.
Proof.
  intros Hl. unfold twelve_hex. apply andb_true_iff. split.
  - assert (H2 : forall l, len (mjoin (hex <$> l)) = 2 * len l).
    { induction l as [|x l IH]; [done|]. cbn [fmap list_fmap]. change (mjoin (?x :: ?y)) with (x ++ mjoin y).
      rewrite len_app, IH, len_cons. change (len (hex x)) with 2. lia. }
    rewrite H2, Hl. done.
  - clear Hl. induction b as [|x b IH]; [done|]. cbn [fmap list_fmap]. change (mjoin (?x :: ?y)) with (x ++ mjoin y).
    rewrite forallb_app, IH, andb_true_r. clear. destruct x; by vm_compute.
Qed.

Lemma mint_identity_hex w : six_bytes w -> twelve_hex (mint_identity w).1 = true.
Proof.
  unfold mint_identity, draw, six_bytes. intros Hd. destruct (draws w) as [|[b|] ds]; try apply instance_name_hex.
  apply Forall_cons in Hd as [Hb _]. cbn. apply hex_twelve. by apply Hb.
Qed.

Lemma stable_instance_hex w : six_bytes w -> twelve_hex (stable_instance w).1 = true.
Proof.
  intros Hd. unfold stable_instance. destruct (let^ s := identity w in from_utf8 s) as [s|]; [|by apply mint_identity_hex].
  destruct (twelve_hex (trim s)) eqn:Ht; [by apply lower_hex|by apply mint_identity_hex].
Qed.

Lemma hex_bytes_len n s a : hex_bytes n s = Some a -> length a = n.
Proof.
  revert s a. induction n as [|n IH]; intros s a; cbn [hex_bytes]; [by intros [= <-]|].
  intros (v & _ & (rest & Hr & [= <-])%opt_bind_Some)%opt_bind_Some. cbn. by rewrite (IH _ _ Hr).
Qed.

Lemma our_addr_len b w a : our_addr b w = Some a -> len a = 16.
Proof.
  unfold our_addr, link_local_of. intros (data & _ & (text & _ & Hg)%opt_bind_Some)%opt_bind_Some. revert Hg.
  induction (lines text) as [|l ls IH]; cbn [link_local_go]; [done|].
  intros (addr & _ & (name & _ & Hg)%opt_bind_Some)%opt_bind_Some. destruct (_ || _); [by apply IH|].
  apply hex_bytes_len in Hg. by rewrite len_nat, Hg.
Qed.

(** *** The packet *)

Definition enum_labels : list (list byte) := [str "_services"; str "_dns-sd"; str "_udp"; str "local"].

Definition srv_data (b : Browser) : list byte :=
  to_be_bytes 2 0 ++ to_be_bytes 2 0 ++ to_be_bytes 2 AIRDROP_PORT ++ encode_name (host b).

(** The records of a device that has an address. *)
Definition our_answers (ttl : Z) (b : Browser) (a : list byte) : list Answer :=
  let inst := instance b :: service_labels in
  let host := host_labels (instance b) in
  [mkAnswer enum_labels TYPE_PTR ttl (encode_name AIRDROP_SERVICE) false;
   mkAnswer service_labels TYPE_PTR ttl (encode_name (full_instance b)) false;
   mkAnswer inst TYPE_SRV ttl (srv_data b) true;
   mkAnswer inst TYPE_TXT ttl (txt_rdata [AIRDROP_FLAGS]) true;
   mkAnswer host TYPE_AAAA ttl a true;
   mkAnswer (reverse_labels a) TYPE_PTR ttl (encode_name (Mdns.host b)) true;
   mkAnswer inst TYPE_NSEC ttl (nsec_rdata (full_instance b) [TYPE_TXT; TYPE_SRV]) true;
   mkAnswer host TYPE_NSEC ttl (nsec_rdata (Mdns.host b) [TYPE_AAAA]) true].

Lemma our_answers_records ttl b a w :
  twelve_hex (instance b) = true -> our_addr b w = Some a -> write <$> our_answers ttl b a = records_with_ttl ttl b w.
Proof.
  intros Hi Ha. pose proof (our_addr_len _ _ _ Ha) as Hl. unfold records_with_ttl. rewrite Ha.
  destruct (service_name _ Hi) as (_ & Hn & _). destruct (host_name b Hi) as (_ & Hh & _).
  destruct (reverse_name_labels a Hl) as (_ & Hr & _). unfold our_answers, write. cbn [fmap list_fmap a_labels a_type a_ttl a_rdata a_flush].
  rewrite <- Hn, <- Hh, <- Hr. done.
Qed.

Lemma nsec_len name types k :
  len (fold_left set_bit types (replicate (Z.to_nat (foldr Z.max 0 types / 8 + 1)) (to_u8 0))) = k ->
  len (nsec_rdata name types) = len (encode_name name) + 2 + k.
Proof. intros <-. unfold nsec_rdata. rewrite !len_app. change (len [_; _]) with 2. lia. Qed.

Lemma our_answers_wf ttl b a :
  twelve_hex (instance b) = true -> len a = 16 -> 0 <= ttl < 2 ^ 32 ->
  Forall wf_answer (our_answers ttl b a) /\ len (response (write <$> our_answers ttl b a)) <= 4096.
Proof.
  intros Hi Hl Ht. destruct (service_name _ Hi) as (Hnl & Hn & Hnn). destruct (host_name b Hi) as (Hhl & Hh & Hhn).
  destruct (reverse_name_labels a Hl) as (Hrl & Hr & Hrn). rewrite Hr in Hrn.
  assert (Hf : full_instance b = dotted (instance b :: service_labels)) by exact Hn.
  assert (Hei : len (encode_name (full_instance b)) = 34) by (rewrite Hf, len_encode by done; lia).
  assert (Heh : len (encode_name (Mdns.host b)) = 24) by (rewrite Hh, len_encode by done; rewrite <- Hh; lia).
  assert (Her : len (encode_name (dotted (reverse_labels a))) = 74) by (rewrite len_encode by (done || (unfold reverse_labels; by intros [_ ?]%app_eq_nil)); lia).
  assert (Hs : Forall wf_label service_labels) by (by apply Forall_cons in Hnl as [_ ?]).
  assert (He : Forall wf_label enum_labels) by (repeat constructor; by vm_compute).
  assert (Hsrv : len (srv_data b) = 30) by (unfold srv_data; rewrite !len_app, Heh; by vm_compute).
  assert (Hn1 : len (nsec_rdata (full_instance b) [TYPE_TXT; TYPE_SRV]) = 41)
    by (rewrite (nsec_len _ _ 5) by (by vm_compute); lia).
  assert (Hn2 : len (nsec_rdata (Mdns.host b) [TYPE_AAAA]) = 30) by (rewrite (nsec_len _ _ 4) by (by vm_compute); lia).
  split.
  - unfold our_answers. repeat apply Forall_cons_2; try apply Forall_nil_2; (split_and!; cbn [a_labels a_type a_ttl a_rdata]);
      try done; try lia; try (by vm_compute); try (rewrite <- Hh; lia); try (rewrite ?Hl, ?Hei, ?Heh, ?Hsrv, ?Hn1, ?Hn2; lia).
    all: rewrite Hh in Hhn; unfold MAX_NAME; lia.
  - unfold response. set (body := mjoin _). assert (Hb : len body = 561).
    { subst body. unfold our_answers, write. cbn [fmap list_fmap a_labels a_type a_ttl a_rdata a_flush].
      rewrite !len_mjoin_cons, !len_record, <- Hf, <- Hh, Hei, Heh, Her, Hl, Hsrv, Hn1, Hn2. by vm_compute. }
    clearbody body. rewrite !len_app, Hb, !len_to_be_bytes. lia.
Qed.

(** *** What a packet of ours does to a table *)

(** A record of which only the lifetime matters. *)
Definition of_ttl (t : Z) : Record_ := mkRecord [] 0 t [] 0.

Lemma seen_of now rec t p : Dns.ttl rec = t -> seen now rec p = seen now (of_ttl t) p.
Proof. by intros <-. Qed.

(** The entry of a peer that has just told everything about itself. *)
Definition known_as (inst : list byte) (t : Peers) (now : Z) : Peer :=
  match t !! inst with Some p => p | None => mkPeer inst [] 0 None now now 0 None false end.

Definition entry (now ttl : Z) (host a : list byte) (p : Peer) : Peer :=
  mkPeer (p_instance p) host AIRDROP_PORT (Some a) now (now + ttl_of (of_ttl ttl)) 0 (unreceptive_since p)
    (if ttl =? 0 then true else withdrawn p).

(** What else changes: other names under the same host. *)
Definition same_host (now ttl : Z) (host a : list byte) (p : Peer) : Peer :=
  if negb (is_empty (p_host p)) && bool_decide (p_host p = host) then set_addr a (seen now (of_ttl ttl) p) else p.

Section Absorb.
Context (now : Z) (packet : list byte) (ttl : Z) (s : Browser) (a : list byte).
Hypothesis Hid : twelve_hex (instance s) = true.
Hypothesis Haddr : len a = 16.
Hypothesis Hfits : fits packet.

Lemma ptr_name rec :
  says packet rec (mkAnswer service_labels TYPE_PTR ttl (encode_name (full_instance s)) false) ->
  exists r, Reader.name (Reader.mk packet (rdata_at rec)) = Some (full_instance s, r).
Proof using Hid Hfits.
  intros (_ & _ & _ & Hd & Hs). cbn [a_rdata] in Hd. destruct (service_name _ Hid) as (Hls & Hn & Hl).
  rewrite Hd in Hs. unfold full_instance in *. rewrite Hn in *.
  destruct (name_at _ packet (rdata_at rec) [] [] Hls ltac:(unfold MAX_NAME; lia) Hfits) as [r Hr].
  - by rewrite app_nil_r.
  - exists r. by rewrite len_nil, Z.add_0_r in Hr.
Qed.

Lemma srv_name rec ls :
  says packet rec (mkAnswer ls TYPE_SRV ttl (srv_data s) true) ->
  exists r, Reader.name (Reader.mk packet (rdata_at rec + 6)) = Some (host s, r).
Proof using Hid Hfits.
  intros (_ & _ & _ & Hd & Hs). cbn [a_rdata] in Hd. destruct (host_name s Hid) as (Hls & Hn & Hl).
  rewrite Hd in Hs. unfold srv_data in Hs. rewrite Hn in *.
  apply (name_at _ packet (rdata_at rec) (to_be_bytes 2 0 ++ to_be_bytes 2 0 ++ to_be_bytes 2 AIRDROP_PORT) [] Hls);
    [unfold MAX_NAME; lia|done|]. by rewrite app_nil_r, <- !app_assoc.
Qed.

Lemma one_ptr rec r w w' :
  says packet rec (mkAnswer service_labels TYPE_PTR ttl (encode_name (full_instance s)) false) ->
  is_self_instance (full_instance s) r w = (false, w') ->
  absorb_one now packet rec r w
  = (set_table (<[full_instance s := let p := known_as (full_instance s) (table r) now in
       mkPeer (p_instance p) (p_host p) (p_port p) (p_addr p) now (now + ttl_of (of_ttl ttl)) 0 (unreceptive_since p)
         (if ttl =? 0 then true else withdrawn p)]> (table r)) r, w').
Proof using Hid Hfits.
  intros Hsays Hself. destruct (ptr_name rec Hsays) as [q Hq]. destruct Hsays as (Hn & Ht & Httl & _).
  cbn [a_labels a_type a_ttl] in *. unfold absorb_one. rewrite Ht, Hn, bool_decide_true by done.
  change (TYPE_PTR =? TYPE_PTR) with true. cbn [andb]. unfold on_ptr. rewrite Hq, Hself.
  unfold ttl_of, known_as. rewrite Httl. cbn [of_ttl Dns.ttl]. by destruct (table r !! full_instance s).
Qed.

Lemma one_srv rec r w :
  says packet rec (mkAnswer (instance s :: service_labels) TYPE_SRV ttl (srv_data s) true) ->
  absorb_one now packet rec r w
  = (set_table (alter (fun p => let p := seen now (of_ttl ttl) p in
       mkPeer (p_instance p) (host s) AIRDROP_PORT (p_addr p) (last_seen p) (expires_at p) (unanswered p) (unreceptive_since p)
         (if ttl =? 0 then true else withdrawn p)) (full_instance s) (table r)) r, w).
Proof using Hid Hfits.
  intros Hsays. destruct (srv_name rec _ Hsays) as [q Hq]. destruct Hsays as (Hn & Ht & Httl & Hd & _).
  cbn [a_labels a_type a_ttl a_rdata] in *. destruct (service_name _ Hid) as (_ & Hi & _).
  unfold absorb_one. rewrite Ht. change (TYPE_SRV =? TYPE_PTR) with false. change (TYPE_SRV =? TYPE_TXT) with false.
  change (TYPE_SRV =? TYPE_SRV) with true. cbn [andb]. unfold on_srv. rewrite Hq, Hd, Hn, <- Hi.
  assert (Hp : sub_range (srv_data s) 4 6 = to_be_bytes 2 AIRDROP_PORT) by (unfold srv_data; by rewrite app_assoc; apply sub_range_mid).
  assert (Hlen : len (srv_data s) <? 6 = false).
  { unfold srv_data. generalize (encode_name (host s)) as e. intros e. rewrite !len_app. pose proof (len_nonneg e). rewrite !len_to_be_bytes. apply Z.ltb_ge. lia. }
  rewrite Hlen, Hp. change (from_be_bytes (to_be_bytes 2 AIRDROP_PORT)) with AIRDROP_PORT. rewrite Httl. do 2 f_equal.
  by unfold seen, ttl_of; rewrite Httl.
Qed.

Lemma one_txt rec r w d :
  says packet rec (mkAnswer (instance s :: service_labels) TYPE_TXT ttl d true) ->
  absorb_one now packet rec r w = (set_table (alter (seen now (of_ttl ttl)) (full_instance s) (table r)) r, w).
Proof using Hid.
  intros (Hn & Ht & Httl & _). cbn [a_labels a_type a_ttl] in *. destruct (service_name _ Hid) as (_ & Hi & _).
  unfold absorb_one. rewrite Ht. change (TYPE_TXT =? TYPE_PTR) with false. change (TYPE_TXT =? TYPE_TXT) with true. cbn [andb].
  rewrite Hn, <- Hi. by unfold seen, ttl_of; rewrite Httl.
Qed.

Lemma one_aaaa rec r w :
  says packet rec (mkAnswer (host_labels (instance s)) TYPE_AAAA ttl a true) ->
  absorb_one now packet rec r w
  = (set_table (if is_self_addr a r w then filter (fun kp : list byte * Peer => p_host kp.2 <> host s) (table r)
                else same_host now ttl (host s) a <$> table r) r, w).
Proof using Hid Haddr.
  intros (Hn & Ht & Httl & Hd & _). cbn [a_labels a_type a_ttl a_rdata] in *. destruct (host_name s Hid) as (_ & Hh & _).
  unfold absorb_one. rewrite Ht, Hd, Haddr. change (TYPE_AAAA =? TYPE_PTR) with false. change (TYPE_AAAA =? TYPE_TXT) with false.
  change (TYPE_AAAA =? TYPE_SRV) with false. change ((TYPE_AAAA =? TYPE_AAAA) && (16 =? 16)) with true. cbn [andb].
  unfold on_aaaa. rewrite Hd, Hn, <- Hh. destruct (is_self_addr a r w); [done|]. do 2 f_equal. apply map_fmap_ext. intros k p _.
  unfold same_host, seen, ttl_of. by rewrite Httl.
Qed.

(** Records of other types, and pointers of other services. *)
Lemma one_other rec ls ty d f r w :
  says packet rec (mkAnswer ls ty ttl d f) -> (ty = TYPE_PTR /\ dotted ls <> AIRDROP_SERVICE) \/ ty = TYPE_NSEC ->
  absorb_one now packet rec r w = (r, w).
Proof using.
  intros (Hn & Ht & _) Hty. cbn [a_labels a_type] in *. unfold absorb_one. rewrite Ht, Hn.
  destruct Hty as [[-> Hne]| ->]; [|done]. by rewrite bool_decide_false.
Qed.

Lemma reverse_other : dotted (reverse_labels a) <> AIRDROP_SERVICE.
Proof using Haddr.
  destruct (reverse_name_labels a Haddr) as (_ & Hr & Hl). rewrite <- Hr. intros He. rewrite He in Hl. by vm_compute in Hl.
Qed.

(** The whole packet, to another device. *)
Lemma absorb_ours rs r w w' :
  Forall2 (says packet) rs (our_answers ttl s a) -> is_self_instance (full_instance s) r w = (false, w') ->
  is_self_addr a r w' = false ->
  absorb now packet rs r w
  = (set_table (<[full_instance s := entry now ttl (host s) a (known_as (full_instance s) (table r) now)]>
                  (same_host now ttl (host s) a <$> table r)) r, w').
Proof using Hid Haddr Hfits.
  intros Hrs Hself Hne. unfold our_answers in Hrs.
  repeat match goal with H : Forall2 _ _ (_ :: _) |- _ =>
    apply Forall2_cons_inv_r in H as (? & ? & ? & H & ->) end. apply Forall2_nil_inv_r in Hrs as ->.
  cbn [absorb]. erewrite one_other; [|eassumption|by left]. cbv beta iota.
  erewrite one_ptr; [|eassumption|eassumption]. cbv beta iota.
  rewrite one_srv by eassumption. cbv beta iota. erewrite one_txt by eassumption. cbv beta iota.
  rewrite one_aaaa by eassumption. cbv beta iota. cbn [table set_table].
  erewrite one_other; [|eassumption|left; split; [done|exact reverse_other]]. cbv beta iota.
  do 2 (erewrite one_other; [|eassumption|by right]; cbv beta iota).
  unfold is_self_addr, our_addr in *. cbn [iface set_table]. rewrite Hne. f_equal. cbn [table set_table].
  rewrite !alter_insert_eq, fmap_insert. unfold set_table. cbn. f_equal. f_equal.
  destruct (host_name s Hid) as (_ & _ & Hl). unfold same_host. cbn [p_host].
  destruct (is_empty (host s)) eqn:Hemp; [destruct (host s); [by vm_compute in Hl|done]|].
  rewrite bool_decide_true by done. cbn [negb andb]. generalize (host s). intros hn. unfold entry, set_addr, seen.
  cbn [p_instance p_host p_port p_addr last_seen expires_at unanswered unreceptive_since withdrawn of_ttl Dns.ttl].
  destruct (ttl =? 0); [done|]. by rewrite !Z.max_id.
Qed.

(** The whole packet, come back to us. *)
Lemma absorb_echo rs w :
  Forall2 (says packet) rs (our_answers ttl s a) -> our_addr s w = Some a ->
  table s !! full_instance s = None -> (forall k p, table s !! k = Some p -> p_host p <> host s) ->
  absorb now packet rs s w = (s, w).
Proof using Hid Haddr Hfits.
  intros Hrs Ha Hnone Hhost. unfold our_answers in Hrs.
  repeat match goal with H : Forall2 _ _ (_ :: _) |- _ =>
    apply Forall2_cons_inv_r in H as (? & ? & ? & H & ->) end. apply Forall2_nil_inv_r in Hrs as ->.
  assert (Hsame : forall t, t = table s -> set_table t s = s) by (intros t ->; by destruct s).
  cbn [absorb]. erewrite one_other; [|eassumption|by left]. cbv beta iota.
  match goal with H : says packet ?x (mkAnswer service_labels TYPE_PTR _ _ _) |- context [absorb_one now packet ?x s w] =>
    destruct (ptr_name x H) as [q Hq]; destruct H as (Hn & Ht & _);
    assert (Hp : absorb_one now packet x s w = (s, w)) end.
  { cbn [a_labels a_type] in *. unfold absorb_one. rewrite Ht, Hn, bool_decide_true by done.
    change (TYPE_PTR =? TYPE_PTR) with true. cbn [andb]. unfold on_ptr, is_self_instance. by rewrite Hq, bool_decide_true. }
  rewrite Hp. cbv beta iota.
  rewrite one_srv by eassumption. cbv beta iota. rewrite (Hsame (alter _ _ _)) by (apply alter_id; intros ? Hx; by rewrite Hnone in Hx).
  erewrite one_txt by eassumption. cbv beta iota. rewrite (Hsame (alter _ _ _)) by (apply alter_id; intros ? Hx; by rewrite Hnone in Hx).
  rewrite one_aaaa by eassumption. cbv beta iota. unfold is_self_addr. rewrite Ha, bool_decide_true by done.
  rewrite Hsame by (apply map_filter_id; intros k p Hk; by eapply Hhost).
  erewrite one_other; [|eassumption|left; split; [done|exact reverse_other]]. cbv beta iota.
  do 2 (erewrite one_other; [|eassumption|by right]; cbv beta iota). done.
Qed.
End Absorb.

(** *** Packets of ours, as they arrive *)

Definition packet_of (ttl : Z) (s : Browser) (ws : World) : list byte := response (records_with_ttl ttl s ws).

Lemma our_packet ttl s ws a :
  twelve_hex (instance s) = true -> our_addr s ws = Some a -> 0 <= ttl < 2 ^ 32 ->
  exists rs, parse (packet_of ttl s ws) = Some (mkMessage [] rs) /\
    Forall2 (says (packet_of ttl s ws)) rs (our_answers ttl s a) /\
    len (packet_of ttl s ws) <= 4096 /\ fits (packet_of ttl s ws).
Proof.
  intros Hi Ha Ht. pose proof (our_addr_len _ _ _ Ha) as Hl. destruct (our_answers_wf ttl s a Hi Hl Ht) as [Hwf Hlen].
  pose proof (our_answers_records ttl s a ws Hi Ha) as Hw. unfold packet_of. rewrite <- Hw in *.
  assert (Hf : fits (response (write <$> our_answers ttl s a))) by (unfold fits, isize_max; lia).
  destruct (parse_response _ Hwf ltac:(by vm_compute) Hf) as (rs & Hp & Hrs). by exists rs.
Qed.

(** Another device's packet, through the socket. *)
Definition stranger (s : Browser) (a : list byte) (r : Browser) (wr wr' : World) : Prop :=
  is_self_instance (full_instance s) r wr = (false, wr') /\ our_addr r wr' <> Some a.

Definition told (now ttl : Z) (s : Browser) (a : list byte) (t : Peers) : Peers :=
  <[full_instance s := entry now ttl (host s) a (known_as (full_instance s) t now)]> (same_host now ttl (host s) a <$> t).

Lemma poll_packet now ttl s ws a r wr wr' rest :
  twelve_hex (instance s) = true -> our_addr s ws = Some a -> 0 <= ttl < 2 ^ 32 -> stranger s a r wr wr' ->
  poll (Some (now, packet_of ttl s ws) :: None :: rest) r wr = (1, rest, set_table (told now ttl s a (table r)) r, wr').
Proof.
  intros Hi Ha Ht [Hself Hne]. destruct (our_packet ttl s ws a Hi Ha Ht) as (rs & Hp & Hrs & Hl & Hf).
  unfold poll. cbn [poll_loop]. assert (Htake : take 4096 (packet_of ttl s ws) = packet_of ttl s ws).
  { apply take_ge. rewrite len_nat in Hl. lia. }
  rewrite Htake. unfold on_packet. rewrite Hp. cbn [records questions].
  erewrite absorb_ours; [|done|by eapply our_addr_len|done|exact Hrs|exact Hself|].
  - cbn [answer existsb]. by destruct (advertising _).
  - unfold is_self_addr. by apply bool_decide_false.
Qed.

Lemma told_other now ttl s a t k :
  k <> full_instance s -> (forall p, t !! k = Some p -> p_host p <> host s) -> told now ttl s a t !! k = t !! k.
Proof.
  intros Hk Hh. unfold told. rewrite lookup_insert_ne by done. rewrite lookup_fmap.
  destruct (t !! k) as [p|] eqn:Hp; [|done]. cbn. f_equal. unfold same_host.
  rewrite (bool_decide_false (p_host p = host s)) by (by apply Hh). by rewrite andb_false_r.
Qed.

(** *** The gate *)

Inductive Call : Type :=
| CQuery | CProbe | CMark (unreceptive : bool) | CGate (enabled : bool) | CPoll (rx : list (option (Z * list byte)))
| CExpire (min_grace : Z) | CForget | CBurst | CAdvertise | CAnnounce | CStop | CReset.

Definition step (now : Z) (c : Call) (s : Browser * World) : Browser * World :=
  let (b, w) := s in
  match c with
  | CQuery => let '(_, b, w) := query b w in (b, w)
  | CProbe => let '(_, b, w) := probe b w in (b, w)
  | CMark u => (mark_unreceptive now u b, w)
  | CGate e => (set_probe_eviction now e b, w)
  | CPoll rx => let '(_, _, b, w) := poll rx b w in (b, w)
  | CExpire g => (expire g now b, w)
  | CForget => (forget_peers b, w)
  | CBurst => (restart_query_burst b, w)
  | CAdvertise => let '(_, b, w) := advertise b w in (b, w)
  | CAnnounce => (b, (announce b w).2)
  | CStop => let '(_, b, w) := stop_advertising b w in (b, w)
  | CReset => let '(_, b, w) := reset_identity b w in (b, w)
  end.

Definition run (h : list (Z * Call)) (s : Browser * World) : Browser * World :=
  fold_left (fun s tc => step tc.1 tc.2 s) h s.

(** What a call does not touch. *)
Definition same_gate (b b' : Browser) : Prop :=
  probe_eviction b' = probe_eviction b /\ eviction_since b' = eviction_since b.
Definition same_self (b b' : Browser) : Prop := instance b' = instance b /\ iface b' = iface b.

Lemma absorb_one_same now packet rec b w :
  same_gate b (absorb_one now packet rec b w).1 /\ same_self b (absorb_one now packet rec b w).1.
Proof.
  unfold absorb_one, on_ptr, on_srv, on_aaaa. repeat (case_match; try done).
Qed.

Lemma absorb_same now packet rs b w :
  same_gate b (absorb now packet rs b w).1 /\ same_self b (absorb now packet rs b w).1.
Proof.
  revert b w. induction rs as [|rec rs IH]; intros b w; [done|]. cbn [absorb].
  destruct (absorb_one_same now packet rec b w) as [[H1 H2] [H3 H4]].
  destruct (absorb_one now packet rec b w) as [b1 w1]. cbn [fst] in *.
  destruct (IH b1 w1) as [[G1 G2] [G3 G4]]. unfold same_gate, same_self. by rewrite G1, G2, G3, G4.
Qed.

Lemma poll_same n got rx b w :
  let '(_, _, b', _) := poll_loop n got rx b w in same_gate b b' /\ same_self b b'.
Proof.
  revert got rx b w. induction n as [|n IH]; intros got rx b w; [by destruct rx|]. cbn [poll_loop].
  destruct rx as [|[[now d]|] rx]; [done| |done]. unfold on_packet.
  destruct (parse (take 4096 d)) as [m|]; [|apply IH].
  destruct (absorb_same now (take 4096 d) (records m) b w) as [[H1 H2] [H3 H4]].
  destruct (absorb now (take 4096 d) (records m) b w) as [b1 w1]. cbn [fst] in *.
  specialize (IH (got + 1) rx b1 (if advertising b1 then answer (questions m) b1 w1 else w1)).
  destruct (poll_loop n _ _ b1 _) as [[[g r] b2] w2]. destruct IH as [[G1 G2] [G3 G4]].
  unfold same_gate, same_self. by rewrite G1, G2, G3, G4.
Qed.

Lemma step_same now c b w :
  (forall e, c <> CGate e) -> same_gate b (step now c (b, w)).1 /\ (c <> CReset -> same_self b (step now c (b, w)).1).
Proof.
  intros Hc. destruct c as [| |u|e|rx|g| | | | | |]; cbn [step].
  - unfold query. destruct (send_to _ _ w) as [[] w1]; cbn [negb]; [by case_match|done].
  - unfold probe. by destruct (probe_loop _ _ _ _) as [[? ?] ?].
  - done.
  - by destruct (Hc e).
  - pose proof (poll_same 32 0 rx b w) as Hp. unfold poll. destruct (poll_loop 32 0 rx b w) as [[[? ?] b'] ?]. by destruct Hp.
  - done.
  - done.
  - done.
  - unfold advertise. destruct (negb (can_respond b)); [done|]. by destruct (announce _ w).
  - done.
  - unfold stop_advertising. destruct (negb (advertising b)); [done|]. by destruct (goodbye _ w).
  - unfold reset_identity. by destruct (mint_identity w).
Qed.

(** While the gate is open, it has been since the last time it was closed. *)
Definition gate_since (t0 : Z) (h : list (Z * Call)) (b : Browser) : Prop :=
  if probe_eviction b then
    exists s, eviction_since b = Some s /\ t0 <= s /\ forall t, (t, CGate false) ∈ h -> t <= s
  else eviction_since b = None.

(** Times do not go back. *)
Fixpoint in_time (t0 : Z) (h : list (Z * Call)) : Prop :=
  match h with [] => True | (t, _) :: h => t0 <= t /\ in_time t h end.

Lemma in_time_last t0 h t c : in_time t0 (h ++ [(t, c)]) -> in_time t0 h /\ t0 <= t /\ forall u d, (u, d) ∈ h -> u <= t.
Proof.
  revert t0. induction h as [|[u d] h IH]; intros t0; cbn [app in_time].
  { intros [Ht _]. split_and!; [done|done|]. by intros u d ?%not_elem_of_nil. }
  intros [Hu Hh]. destruct (IH u Hh) as (Hi & Ht & Hall). split_and!; [done|done|lia|].
  intros v e [[= -> ->]|He]%elem_of_cons; [done|by eapply Hall].
Qed.

Lemma run_gate t0 h b0 w0 :
  probe_eviction b0 = true -> eviction_since b0 = Some t0 -> in_time t0 h -> gate_since t0 h (run h (b0, w0)).1.
Proof.
  intros He Hs. induction h as [|[t c] h IH] using rev_ind; intros Ht.
  { unfold gate_since. cbn. rewrite He. exists t0. split_and!; [done|done|]. by intros t ?%not_elem_of_nil. }
  apply in_time_last in Ht as (Hin & Ht0 & Hall). specialize (IH Hin). unfold run in *. rewrite fold_left_app. cbn [fold_left fst snd].
  destruct (fold_left _ h (b0, w0)) as [b w]. cbn [fst] in IH.
  assert (Hnot : forall e, c <> CGate e -> forall u, (u, CGate e) ∈ h ++ [(t, c)] -> (u, CGate e) ∈ h).
  { intros e Hc u [?|[= -> <-]%list_elem_of_singleton]%elem_of_app; [done|by destruct Hc]. }
  assert (Hc : (exists e, c = CGate e) \/ forall e, c <> CGate e) by (destruct c; try (by right); left; by eexists).
  destruct Hc as [[e ->]|Hn].
  2:{ destruct (step_same t c b w Hn) as [[H1 H2] _]. unfold gate_since in *. rewrite H1, H2.
      destruct (probe_eviction b); [|done]. destruct IH as (s & Hs' & Hts & Hf). exists s. split_and!; [done|done|].
      intros u Hu. apply Hf. by apply (Hnot false). }
  unfold gate_since in *. cbn [step set_probe_eviction set_gate probe_eviction eviction_since fst].
  destruct e.
  - destruct (probe_eviction b); cbn [Bool.eqb].
    + destruct IH as (s & Hs' & Hts & Hf). exists s. split_and!; [done|done|]. intros u Hu. apply Hf. by apply (Hnot false).
    + exists t. split_and!; [done|lia|]. intros u [Hu|[= _]%list_elem_of_singleton]%elem_of_app. by eapply Hall.
  - by destruct (probe_eviction b).
Qed.

(** *** Our own name *)

(** What [absorb] and the questions do to the table adds no entry under [k]. *)
Lemma filter_none (P : list byte * Peer -> Prop) `{!forall x, Decision (P x)} (t : Peers) k : t !! k = None -> filter P t !! k = None.
Proof. intros Hk. apply map_lookup_filter_None. by left. Qed.

Lemma fmap_none (f : Peer -> Peer) (t : Peers) k : t !! k = None -> (f <$> t) !! k = None.
Proof. intros Hk. by rewrite lookup_fmap, Hk. Qed.

Lemma absorb_one_unlisted now packet rec b w :
  table b !! full_instance b = None -> table (absorb_one now packet rec b w).1 !! full_instance b = None.
Proof.
  intros Hb. unfold absorb_one. case_match.
  { unfold on_ptr. destruct (Reader.name _) as [[i q]|]; [|done].
    destruct (is_self_instance i b w) as [[] w1] eqn:Hs; [done|]. cbn [fst table set_table].
    rewrite lookup_insert_ne; [done|]. intros ->. unfold is_self_instance in Hs. by rewrite bool_decide_true in Hs. }
  case_match; [by apply lookup_alter_None|].
  case_match; [unfold on_srv; case_match; [done|by apply lookup_alter_None]|].
  case_match; [|done]. unfold on_aaaa. case_match; [by apply filter_none|by apply fmap_none].
Qed.

Lemma same_self_name b b' : same_self b b' -> full_instance b' = full_instance b.
Proof. intros [Hi _]. unfold full_instance. by rewrite Hi. Qed.

Lemma absorb_unlisted now packet rs b w :
  table b !! full_instance b = None -> table (absorb now packet rs b w).1 !! full_instance b = None.
Proof.
  revert b w. induction rs as [|rec rs IH]; intros b w Hb; [done|]. cbn [absorb].
  pose proof (absorb_one_unlisted now packet rec b w Hb) as H1.
  destruct (absorb_one_same now packet rec b w) as [_ Hs]. apply same_self_name in Hs.
  destruct (absorb_one now packet rec b w) as [b1 w1]. cbn [fst] in *. rewrite <- Hs in *. by apply IH.
Qed.

Lemma poll_unlisted n got rx b w :
  table b !! full_instance b = None ->
  let '(_, _, b', _) := poll_loop n got rx b w in table b' !! full_instance b = None.
Proof.
  revert got rx b w. induction n as [|n IH]; intros got rx b w Hb; [by destruct rx|]. cbn [poll_loop].
  destruct rx as [|[[now d]|] rx]; [done| |done]. unfold on_packet.
  destruct (parse (take 4096 d)) as [m|]; [|by apply IH].
  pose proof (absorb_unlisted now (take 4096 d) (records m) b w Hb) as H1.
  destruct (absorb_same now (take 4096 d) (records m) b w) as [_ Hs]. apply same_self_name in Hs.
  destruct (absorb now (take 4096 d) (records m) b w) as [b1 w1]. cbn [fst] in *. rewrite <- Hs in *. by apply IH.
Qed.

Lemma probe_unlisted ps asked t w k :
  t !! k = None -> Forall (fun x => x.1 <> k) ps -> let '(_, t', _) := probe_loop ps asked t w in t' !! k = None.
Proof.
  revert asked t w. induction ps as [|[i p] ps IH]; intros asked t w Ht Hps; [done|]. cbn [probe_loop].
  apply Forall_cons in Hps as [Hi Hps]. destruct (p_addr p); [|by apply IH]. destruct (send_to _ _ w) as [[] w1]; [|by apply IH].
  apply IH; [by rewrite lookup_insert_ne|done].
Qed.

Lemma step_unlisted now c b w :
  c <> CReset -> table b !! full_instance b = None -> table (step now c (b, w)).1 !! full_instance b = None.
Proof.
  intros Hc Hb. destruct c as [| |u|e|rx|g| | | | | |]; cbn [step].
  - unfold query. destruct (send_to _ _ w) as [[] w1]; cbn [negb]; [|done]. case_match; [by apply fmap_none|done].
  - unfold probe. pose proof (probe_unlisted (map_to_list (table b)) 0 (table b) w (full_instance b) Hb) as Hp.
    destruct (probe_loop _ _ _ _) as [[? t'] ?]. apply Hp. apply Forall_forall. intros [i p] Hi%elem_of_map_to_list Heq.
    cbn in Heq. subst i. by rewrite Hb in Hi.
  - by apply fmap_none.
  - done.
  - pose proof (poll_unlisted 32 0 rx b w Hb) as Hp. unfold poll. by destruct (poll_loop 32 0 rx b w) as [[[? ?] b'] ?].
  - by apply filter_none.
  - apply lookup_empty.
  - done.
  - unfold advertise. destruct (negb (can_respond b)); [done|]. by destruct (announce _ w).
  - done.
  - unfold stop_advertising. destruct (negb (advertising b)); [done|]. by destruct (goodbye _ w).
  - done.
Qed.

Lemma run_unlisted h b w :
  Forall (fun tc => tc.2 <> CReset) h -> table b !! full_instance b = None ->
  table (run h (b, w)).1 !! full_instance b = None /\ same_self b (run h (b, w)).1.
Proof.
  intros Hh Hb. induction h as [|[t c] h IH] using rev_ind; [done|]. apply Forall_app in Hh as [Hh Hc].
  apply Forall_cons in Hc as [Hc _]. cbn in Hc. destruct (IH Hh) as [Hu Hs]. clear IH. unfold run in *.
  rewrite fold_left_app. cbn [fold_left fst snd]. destruct (fold_left _ h (b, w)) as [b1 w1]. cbn [fst] in *.
  assert (Hs1 : same_self b1 (step t c (b1, w1)).1).
  { assert (Hg : (exists e, c = CGate e) \/ forall e, c <> CGate e) by (destruct c; try (by right); left; by eexists).
    destruct Hg as [[e ->]|Hn]; [done|]. by apply (step_same t c b1 w1 Hn). }
  rewrite <- (same_self_name _ _ Hs) in *. split; [by apply step_unlisted|].
  destruct Hs, Hs1. by split; etransitivity.
Qed.

(** ** Properties *)

(** C31: a device that announces itself is found.  The one packet that [announce] puts on the
    link, read by the browser of any other device, gives that device an entry under the
    announced name with the host, the port and the address the announcer has, heard now, with
    nothing unanswered and a lease of 120 seconds, and among the peers it offers; entries of
    other hosts are untouched. *)
Theorem announced_peers_are_found now s ws ws' a :
  twelve_hex (instance s) = true -> advertising s = true -> our_addr s ws = Some a -> announce s ws = (true, ws') ->
  exists pkt, sent ws' = sent ws ++ [(Multicast, pkt)] /\
  forall r wr wr' rest, stranger s a r wr wr' ->
    let '(n, rx, r', w) := poll (Some (now, pkt) :: None :: rest) r wr in
    n = 1 /\ rx = rest /\
    (exists p, table r' !! full_instance s = Some p /\ p ∈ peers r' w /\
       p_host p = host s /\ p_port p = AIRDROP_PORT /\ p_addr p = Some a /\
       last_seen p = now /\ unanswered p = 0 /\ expires_at p = now + 1000 * TTL) /\
    (forall k, k <> full_instance s -> (forall p, table r !! k = Some p -> p_host p <> host s) -> table r' !! k = table r !! k).
Proof.
  intros Hi Hadv Ha Hann. exists (packet_of TTL s ws). unfold announce in Hann. rewrite Hadv in Hann. cbn [negb] in Hann.
  split.
  { unfold send_multicast, send_to in Hann. destruct (link ws) as [|[] l]; by simplify_eq/=. }
  intros r wr wr' rest Hst. rewrite (poll_packet now TTL s ws a r wr wr' rest) by (done || by unfold TTL).
  split_and!; [done|done| |intros k Hk Hh; by apply told_other].
  set (p0 := known_as (full_instance s) (table r) now). exists (entry now TTL (host s) a p0).
  assert (Hl : table (set_table (told now TTL s a (table r)) r) !! full_instance s = Some (entry now TTL (host s) a p0)).
  { cbn [table set_table]. apply lookup_insert_eq. }
  split_and!; try done. unfold peers. apply list_elem_of_filter. split.
  - destruct Hst as [_ Hne]. rewrite (bool_decide_false (p_addr _ = our_addr _ _)); [apply orb_true_r|].
    cbn [entry p_addr]. intros He. by apply Hne.
  - apply list_elem_of_fmap. exists (full_instance s, entry now TTL (host s) a p0). split; [done|]. by apply elem_of_map_to_list.
Qed.

(** C32: a device that stops advertising disappears.  Whatever the table of another device holds
    about it, one of the at most three packets that [stop_advertising] sends is enough: the
    device is marked as withdrawn, and from one second later on [expire] removes it, whatever
    Bluetooth says; the announcer itself announces nothing any more. *)
Theorem goodbye_is_final now now' min_grace s ws a r wr wr' rest :
  twelve_hex (instance s) = true -> advertising s = true -> our_addr s ws = Some a -> stranger s a r wr wr' ->
  let '(_, s', ws') := stop_advertising s ws in
  advertising s' = false /\ (announce s' ws').2 = ws' /\
  exists n, (n <= 3)%nat /\ sent ws' = sent ws ++ replicate n (Multicast, packet_of 0 s ws) /\ (link ws = [] -> n = 3%nat) /\
  let '(_, _, r', w) := poll (Some (now, packet_of 0 s ws) :: None :: rest) r wr in
  (exists p, table r' !! full_instance s = Some p /\ withdrawn p = true) /\
  (now + 1000 <= now' -> table (expire min_grace now' r') !! full_instance s = None).
Proof.
  intros Hi Hadv Ha Hst. unfold stop_advertising. rewrite Hadv. cbn [negb].
  destruct (goodbye (set_advertising false s) ws) as [ok ws'] eqn:Hg. split; [done|]. split; [done|].
  assert (Hsent : forall n ok w ok' w', goodbye_loop n (packet_of 0 s ws) ok w = (ok', w') ->
            exists k, (k <= n)%nat /\ sent w' = sent w ++ replicate k (Multicast, packet_of 0 s ws) /\ (link w = [] -> k = n)).
  { clear. induction n as [|n IH]; intros ok w ok' w'; cbn [goodbye_loop].
    { intros [= <- <-]. exists 0%nat. split_and!; [lia|by rewrite app_nil_r|done]. }
    destruct (send_multicast (packet_of 0 s ws) w) as [ok1 w1] eqn:Hs. intros Hl. apply IH in Hl as (k & Hk & Hsent & Hlink).
    unfold send_multicast, send_to in Hs. destruct (link w) as [|[] l] eqn:Hw; injection Hs as <- <-; cbn [sent link tail] in *.
    - exists (S k). split_and!; [lia|by rewrite Hsent, <- app_assoc|intros _; by rewrite (Hlink eq_refl)].
    - exists (S k). split_and!; [lia|by rewrite Hsent, <- app_assoc|done].
    - exists k. split_and!; [lia|done|done]. }
  destruct (Hsent 3%nat true ws ok ws' Hg) as (k & Hk & Hs & Hl). exists k. split_and!; [done|done|done|].
  rewrite (poll_packet now 0 s ws a r wr wr' rest) by done. cbn [table set_table].
  split; [eexists; split; [apply lookup_insert_eq|done]|].
  intros Hlate. unfold expire. cbn [table set_table]. apply map_lookup_filter_None. right. unfold told.
  intros p Hp. rewrite lookup_insert_eq in Hp. injection Hp as <-. unfold keep. cbn [entry withdrawn expires_at].
  case_match; [done|]. change (0 =? 0) with true. change (ttl_of (of_ttl 0)) with 1000. cbn [andb].
  rewrite (proj2 (Z.leb_le _ _)) by done. done.
Qed.

(** Nobody is dropped for silence while Bluetooth vouches.  In any run of the browser, a
    peer that [expire] removes has said goodbye and its last second is over; or the browser has
    run for a minute, in the last minute nobody has told it that Bluetooth accounts for the
    peers, and the peer either has left three questions unanswered and been silent for a minute
    or has outlived its lease and the caller's grace.  Every other peer stays as it is. *)
Theorem silence_alone_drops_nobody t0 h iface bound w0 min_grace now k p :
  let '(b0, w0) := new iface bound t0 w0 in
  let b := (run h (b0, w0)).1 in
  in_time t0 (h ++ [(now, CExpire min_grace)]) ->
  table b !! k = Some p ->
  match table (expire min_grace now b) !! k with
  | Some q => q = p
  | None =>
    (withdrawn p = true /\ expires_at p <= now) \/
    (t0 + LOST_AFTER <= now /\ (forall t, (t, CGate false) ∈ h -> t + LOST_AFTER <= now) /\
     ((LOST_UNANSWERED <= unanswered p /\ last_seen p + LOST_AFTER <= now) \/
      (expires_at p <= now /\ min_grace <= duration_since now (last_seen p))))
  end.
Proof.
  destruct (new iface bound t0 w0) as [b0 w1] eqn:Hn. intros b Ht Hp.
  apply in_time_last in Ht as (Hin & _ & _).
  assert (Hg : gate_since t0 h b).
  { apply run_gate; [..|done]; unfold new in Hn; destruct (stable_instance w0); by injection Hn as <- _. }
  clearbody b. clear Hn Hin. unfold expire. cbn [table set_table].
  destruct (filter _ (table b) !! k) as [q|] eqn:Hq.
  { apply map_lookup_filter_Some in Hq as [Hq _]. rewrite Hp in Hq. by injection Hq. }
  apply map_lookup_filter_None in Hq as [Hq|Hq]; [by rewrite Hp in Hq|]. specialize (Hq p Hp). cbn in Hq.
  apply not_true_is_false in Hq. unfold keep in Hq.
  assert (Hripe : probe_eviction b && eviction_ripe now b = true ->
            t0 + LOST_AFTER <= now /\ forall t, (t, CGate false) ∈ h -> t + LOST_AFTER <= now).
  { intros [He Hr]%andb_true_iff. unfold gate_since in Hg. rewrite He in Hg. destruct Hg as (s & Hs & Hts & Hf).
    unfold eviction_ripe in Hr. rewrite Hs in Hr. unfold duration_since, LOST_AFTER in *.
    split; [lia|]. intros t Hth. specialize (Hf t Hth). lia. }
  destruct (probe_eviction b && eviction_ripe now b); cbn [andb negb] in Hq.
  - destruct (Hripe eq_refl) as [H1 H2]. unfold duration_since in *. unfold LOST_UNANSWERED, LOST_AFTER in *.
    destruct ((3 <=? unanswered p) && (60 * 1000 <=? Z.max 0 (now - last_seen p))) eqn:E1; [right; split_and!; [done|done|left; lia]|].
    destruct (withdrawn p && (expires_at p <=? now)) eqn:E2; [left; by apply andb_true_iff in E2 as [? ?%Z.leb_le]|]. right. split_and!; [done|done|right].
    by apply orb_false_iff in Hq as [?%Z.ltb_ge ?%Z.ltb_ge].
  - destruct (withdrawn p && (expires_at p <=? now)) eqn:E2; [left; by apply andb_true_iff in E2 as [? ?%Z.leb_le]|done].
Qed.

(** A device is never its own peer.  Whatever arrives, until the identity is reset no run of
    the browser lists its own name, no peer it offers has its own address, and its own packets,
    which the link echoes, change nothing as long as no peer claims its host name. *)
Theorem not_our_own_peer h iface bound t0 w0 :
  Forall (fun tc => tc.2 <> CReset) h ->
  let '(b0, w0) := new iface bound t0 w0 in
  let '(b, w) := run h (b0, w0) in
  table b !! full_instance b = None /\
  (forall p a, p ∈ peers b w -> our_addr b w = Some a -> p_addr p <> Some a) /\
  (forall now ttl a rest, twelve_hex (instance b) = true -> our_addr b w = Some a -> 0 <= ttl < 2 ^ 32 ->
     (forall k p, table b !! k = Some p -> p_host p <> host b) ->
     poll (Some (now, packet_of ttl b w) :: None :: rest) b w = (1, rest, b, w)).
Proof.
  intros Hh. destruct (new iface bound t0 w0) as [b0 w1] eqn:Hn.
  assert (Hu : table b0 !! full_instance b0 = None).
  { unfold new in Hn. destruct (stable_instance w0). by injection Hn as <- _. }
  destruct (run_unlisted h b0 w1 Hh Hu) as [Hb Hs]. apply same_self_name in Hs. destruct (run h (b0, w1)) as [b w]. cbn [fst] in *.
  rewrite <- Hs in Hb. split_and!; [done| |].
  - intros p a Hp Ha Heq. unfold peers in Hp. apply list_elem_of_filter in Hp as [Hp _]. rewrite Ha, Heq in Hp.
    rewrite (bool_decide_false (Some a = None)), (bool_decide_true (Some a = Some a)) in Hp by done. done.
  - intros now ttl a rest Hi Ha Ht Hhost. destruct (our_packet ttl b w a Hi Ha Ht) as (rs & Hp & Hrs & Hl & Hf).
    unfold poll. cbn [poll_loop]. assert (Htake : take 4096 (packet_of ttl b w) = packet_of ttl b w).
    { apply take_ge. rewrite len_nat in Hl. lia. }
    rewrite Htake. unfold on_packet. rewrite Hp. cbn [records questions].
    erewrite absorb_echo; [|done|by eapply our_addr_len|done|exact Hrs|done|done|done].
    cbn [answer existsb]. by destruct (advertising b).
Qed.

(** ** Two devices *)

Module ToyMdns.

Definition MOSEY : list byte := str "mosey0".

(** A device with a stored identity and an address. *)
Definition device (id last_ : list byte) : World :=
  mkWorld (Some id) true None (Some (str "fe80000000000000000000000000000" ++ last_ ++ str " 02 40 20 80 mosey0" ++ [LF])) [] [] [].
Definition phone : World := device (str "a1b2c3d4e5f6") (str "1").
Definition laptop : World := device (str "0123456789ab") (str "2").

Definition phone_browser : Browser := let '(b, w) := new MOSEY true 0 phone in let '(_, b, _) := advertise b w in b.
Definition laptop_browser : Browser := (new MOSEY true 0 laptop).1.

Definition phone_addr : list byte := to_u8 <$> [0xfe; 0x80; 0; 0; 0; 0; 0; 0; 0; 0; 0; 0; 0; 0; 0; 1].

Lemma phone_is_a_stranger : stranger phone_browser phone_addr laptop_browser laptop laptop.
Proof. split; [vm_compute; reflexivity|vm_compute; discriminate]. Defined.

Definition announced : World := (announce phone_browser phone).2.

Lemma announced_peers_are_found_witness :
  exists pkt, sent announced = [(Multicast, pkt)] /\
    let '(n, _, r, w) := poll [Some (7000, pkt); None] laptop_browser laptop in
    n = 1 /\ exists p, p ∈ peers r w /\ p_host p = str "Android_A1B2C3D4.local" /\ p_port p = 8770 /\ p_addr p = Some phone_addr.
Proof.
  destruct (announced_peers_are_found 7000 phone_browser phone announced phone_addr) as (pkt & Hs & Hall);
    [vm_compute; reflexivity|reflexivity|vm_compute; reflexivity|vm_compute; reflexivity|].
  exists pkt. split; [exact Hs|]. specialize (Hall laptop_browser laptop laptop [] phone_is_a_stranger).
  destruct (poll [Some (7000, pkt); None] laptop_browser laptop) as [[[n rx] r] w].
  destruct Hall as (Hn & _ & (p & _ & Hp & Hh & Hport & Ha & _) & _). split; [exact Hn|].
  exists p. split; [exact Hp|]. split; [rewrite Hh; vm_compute; reflexivity|]. split; [exact Hport|exact Ha].
Defined.

Lemma goodbye_is_final_witness :
  let '(_, _, ws) := stop_advertising phone_browser phone in
  sent ws = replicate 3 (Multicast, packet_of 0 phone_browser phone) /\
  let '(_, _, r, w) := poll [Some (7000, packet_of 0 phone_browser phone); None] laptop_browser laptop in
  table (expire 45000 8000 r) !! full_instance phone_browser = None.
Proof.
  pose proof (goodbye_is_final 7000 8000 45000 phone_browser phone phone_addr laptop_browser laptop laptop []
    ltac:(vm_compute; reflexivity) eq_refl ltac:(vm_compute; reflexivity) phone_is_a_stranger) as H.
  destruct (stop_advertising phone_browser phone) as [[ok s'] ws]. destruct H as (_ & _ & n & _ & Hs & Hn & H).
  rewrite (Hn eq_refl) in Hs. split; [exact Hs|].
  destruct (poll [Some (7000, packet_of 0 phone_browser phone); None] laptop_browser laptop) as [[[m rx] r] w].
  apply H. lia.
Defined.

(** The laptop hears the phone once, at second 1, and Bluetooth never speaks. *)
Definition hears_once : list (Z * Call) := [(1000, CPoll [Some (1000, packet_of TTL phone_browser phone); None])].
Definition listing : Browser := (run hears_once (new MOSEY true 0 laptop)).1.

Lemma silence_alone_drops_nobody_witness :
  exists p, table (expire 45000 59999 listing) !! full_instance phone_browser = Some p.
Proof.
  destruct (table listing !! full_instance phone_browser) as [p|] eqn:Hp.
  2:{ exfalso. assert (Hs : is_some (table listing !! full_instance phone_browser) = true) by (vm_compute; reflexivity).
      rewrite Hp in Hs. discriminate Hs. }
  pose proof (silence_alone_drops_nobody 0 hears_once MOSEY true laptop 45000 59999 (full_instance phone_browser) p) as H.
  change (new MOSEY true 0 laptop) with (laptop_browser, laptop) in H. cbv beta iota zeta in H.
  specialize (H ltac:(cbn; lia) Hp). change (run hears_once (laptop_browser, laptop)).1 with listing in H.
  destruct (table (expire 45000 59999 listing) !! full_instance phone_browser) as [q|]; [by exists q|].
  exfalso. assert (Hw : option_map withdrawn (table listing !! full_instance phone_browser) = Some false) by (vm_compute; reflexivity).
  rewrite Hp in Hw. destruct H as [[H _]|[H _]]; [cbn in Hw; congruence|unfold LOST_AFTER in H; lia].
Defined.

Lemma not_our_own_peer_witness : table (run hears_once (new MOSEY true 0 laptop)).1 !! full_instance laptop_browser = None.
Proof.
  pose proof (not_our_own_peer hears_once MOSEY true 0 laptop ltac:(constructor; [discriminate|constructor])) as H.
  change (new MOSEY true 0 laptop) with (laptop_browser, laptop) in *. cbv beta iota zeta in H.
  assert (Hi : full_instance (run hears_once (laptop_browser, laptop)).1 = full_instance laptop_browser) by (vm_compute; reflexivity).
  destruct (run hears_once (laptop_browser, laptop)) as [b w]. cbn [fst] in *. destruct H as [H _]. by rewrite Hi in H.
Defined.

(** A device that says goodbye and comes back before the table is looked at stays marked as
    withdrawn: when the lease of its new announcement runs out it is dropped as if it had
    just said goodbye, even while Bluetooth vouches for it. *)
Definition comes_back : list (Z * Call) :=
  [(500, CGate false);
   (1000, CPoll [Some (1000, packet_of 0 phone_browser phone); None]);
   (1500, CPoll [Some (1500, packet_of TTL phone_browser phone); None])].

Example return_is_not_noticed :
  let b := (run comes_back (new MOSEY true 0 laptop)).1 in
  table (expire 45000 121499 b) !! full_instance phone_browser <> None /\
  table (expire 45000 121500 b) !! full_instance phone_browser = None.
Proof. vm_compute. split; [discriminate|reflexivity]. Qed.

(** The same announcement without the goodbye: the peer stays. *)
Example vouched_peer_stays :
  let b := (run [(500, CGate false); (1500, CPoll [Some (1500, packet_of TTL phone_browser phone); None])] (new MOSEY true 0 laptop)).1 in
  table (expire 45000 10000000 b) !! full_instance phone_browser <> None.
Proof. vm_compute. discriminate. Qed.

End ToyMdns.
