(* ===== verification/Discovery.v ===== *)
(** * Quick Share endpoints on the Wi-Fi network ([sharingd/src/quickshare/discovery.rs, mod.rs])

    The name under which an endpoint is published, the browser's table, and the responder that
    announces this device.  The theorem is that two of our own devices find each other: what
    one announces, the other reads back as its identifier, address, port and name. *)

From stdpp Require Import gmap.
From S2P Require Import Prelude Utf8 Utf16 Text Dns Endpoint.
#[local] Open Scope rust_scope.

(** ** Identity ([mod.rs]) *)

Definition SERVICE_ID_HASH_PREFIX : list byte := to_u8 <$> [0xFC; 0x9F; 0x5E].
Definition PCP : byte := to_u8 0x23.
Definition INSTANCE_RAW_LEN : Z := 10.
Definition ENDPOINT_ID_LEN : Z := 4.
Definition ENDPOINT_ID_ALPHABET : list byte := str "ABCDEFGHIJKLMNOPQRSTUVWXYZabcdefghijklmnopqrstuvwxyz0123456789".
Definition TXT_ENDPOINT_INFO : list byte := str "n".

Definition B64URL : list byte := str "ABCDEFGHIJKLMNOPQRSTUVWXYZabcdefghijklmnopqrstuvwxyz0123456789-_".

(** An index into a table of letters. *)
Definition letter (table : list byte) (i : Z) : byte := nth (Z.to_nat i) table (to_u8 0).

(** Three bytes, missing ones zero, as 24 bits. *)
Definition bits24 (a b c : byte) : Z := Z.lor (Z.lor (Z.shiftl (u8 a) 16) (Z.shiftl (u8 b) 8)) (u8 c).

(** [for i in 0..take]. *)
Definition sextets (take_ : nat) (n : Z) : list byte :=
  (fun i => letter B64URL (Z.land (Z.shiftr n (18 - 6 * Z.of_nat i)) 0x3F)) <$> seq 0 take_.

Fixpoint base64url_encode (input : list byte) : list byte :=
  match input with
  | [] => []
  | [a] => sextets 2 (bits24 a (to_u8 0) (to_u8 0))
  | [a; b] => sextets 3 (bits24 a b (to_u8 0))
  | a :: b :: c :: input => sextets 4 (bits24 a b c) ++ base64url_encode input
  end.

(** [None]: not a letter; [Some None]: a padding character. *)
Definition sextet_of (c : byte) : option (option Z) :=
  let n := u8 c in
  if between 65 90 n then Some (Some (n - 65))
  else if between 97 122 n then Some (Some (n - 97 + 26))
  else if between 48 57 n then Some (Some (n - 48 + 52))
  else if (n =? 45) || (n =? 43) then Some (Some 62)
  else if (n =? 95) || (n =? 47) then Some (Some 63)
  else if n =? 61 then Some None
  else None.

(** The loop over the input; [acc] is a [u32], from which a shift drops what leaves it. *)
Fixpoint decode_loop (acc bits : Z) (input : list byte) : option (list byte) :=
  match input with
  | [] => Some []
  | c :: input =>
      match sextet_of c with
      | None => None
      | Some None => decode_loop acc bits input
      | Some (Some v) =>
          let acc := Z.lor (as_u32 (Z.shiftl acc 6)) v in
          let bits := bits + 6 in
          if 8 <=? bits then
            let bits := bits - 8 in
            let^ out := decode_loop acc bits input in
            Some (to_u8 (Z.shiftr acc bits) :: out)
          else decode_loop acc bits input
      end
  end.
Definition base64_any_decode (input : list byte) : option (list byte) := decode_loop 0 0 input.

Definition instance_name (endpoint_id : list byte) : list byte :=
  base64url_encode ([PCP] ++ endpoint_id ++ SERVICE_ID_HASH_PREFIX ++ replicate 2 (to_u8 0)).

Definition dot (b : byte) : bool := u8 b =? 46.

Definition endpoint_id_from_instance (instance : list byte) : option (list byte) :=
  let^ raw := base64_any_decode (first_part dot instance) in
  if (len raw <? 1 + ENDPOINT_ID_LEN + 3) || negb (bool_decide (head raw = Some PCP)) then None
  else if negb (bool_decide (sub_range raw (1 + ENDPOINT_ID_LEN) (1 + ENDPOINT_ID_LEN + 3) = SERVICE_ID_HASH_PREFIX)) then None
  else Some (sub_range raw 1 (1 + ENDPOINT_ID_LEN)).

(** [r] is what [getrandom] leaves in the array of four bytes. *)
Definition random_endpoint_id (r : list byte) : list byte :=
  (fun b => letter ENDPOINT_ID_ALPHABET (u8 b mod len ENDPOINT_ID_ALPHABET)) <$> r.

(** ** The browser *)

Record QsPeer : Type := mkQsPeer {
  endpoint_id : list byte;
  q_instance : list byte;
  q_host : list byte;
  q_port : Z;
  q_addr : option (list byte);
  q_name : option (list byte);
  q_last_seen : Z
}.

Abbreviation QsPeers := (gmap (list byte) QsPeer).

(** The sockets: whether sends succeed, in order, and what was sent to the group. *)
Record Net : Type := mkNet { link : list bool; sent : list (list byte) }.

Definition send_group (pkt : list byte) (n : Net) : bool * Net :=
  match link n with
  | false :: l => (false, mkNet l (sent n))
  | l => (true, mkNet (tail l) (sent n ++ [pkt]))
  end.

Definition query (n : Net) : bool * Net := send_group (Dns.query SERVICE_TYPE) n.

Definition equals_sign : byte := to_u8 61.

(** The loop over the strings of a TXT record. *)
Fixpoint name_from_txt_loop (fuel : nat) (rdata : list byte) (i : Z) : option (list byte) :=
  match fuel with
  | O => None
  | S fuel =>
      match get rdata i with
      | None => None
      | Some n =>
          let i := i + 1 in
          if len rdata <? i + u8 n then None
          else
            let entry := sub_range rdata i (i + u8 n) in
            let i := i + u8 n in
            match split_once equals_sign entry with
            | None => name_from_txt_loop fuel rdata i
            | Some (key, value) =>
                if negb (bool_decide (key = TXT_ENDPOINT_INFO)) then name_from_txt_loop fuel rdata i
                else
                  let^ raw := base64_any_decode value in
                  let^ info := EndpointInfo.parse raw in
                  EndpointInfo.device_name info
            end
      end
  end.
Definition name_from_txt (rdata : list byte) : option (list byte) := name_from_txt_loop (S (length rdata)) rdata 0.

Definition on_ptr (now : Z) (packet : list byte) (rec : Record_) (t : QsPeers) : QsPeers :=
  match Reader.name (Reader.mk packet (rdata_at rec)) with
  | None => t
  | Some (instance, _) =>
      match endpoint_id_from_instance instance with
      | None => t
      | Some id =>
          let p := match t !! instance with
                   | Some p => p
                   | None => mkQsPeer (from_utf8_lossy id) instance [] 0 None None now
                   end in
          <[instance := mkQsPeer (endpoint_id p) (q_instance p) (q_host p) (q_port p) (q_addr p) (q_name p) now]> t
      end
  end.

Definition on_srv (now : Z) (packet : list byte) (rec : Record_) (t : QsPeers) : QsPeers :=
  let port := from_be_bytes (sub_range (rdata rec) 4 6) in
  let host := match Reader.name (Reader.mk packet (rdata_at rec + 6)) with Some (h, _) => h | None => [] end in
  alter (fun p => mkQsPeer (endpoint_id p) (q_instance p) host port (q_addr p) (q_name p) now) (r_name rec) t.

Definition on_txt (now : Z) (rec : Record_) (t : QsPeers) : QsPeers :=
  alter (fun p => mkQsPeer (endpoint_id p) (q_instance p) (q_host p) (q_port p) (q_addr p)
                    (match name_from_txt (rdata rec) with Some n => Some n | None => q_name p end) now) (r_name rec) t.

Definition on_a (now : Z) (rec : Record_) (t : QsPeers) : QsPeers :=
  (fun p => if negb (is_empty (q_host p)) && bool_decide (q_host p = r_name rec)
            then mkQsPeer (endpoint_id p) (q_instance p) (q_host p) (q_port p) (Some (rdata rec)) (q_name p) now
            else p) <$> t.

Definition absorb_one (now : Z) (packet : list byte) (rec : Record_) (t : QsPeers) : QsPeers :=
  if (rtype rec =? TYPE_PTR) && bool_decide (r_name rec = SERVICE_TYPE) then on_ptr now packet rec t
  else if (rtype rec =? TYPE_SRV) && (6 <=? len (rdata rec)) then on_srv now packet rec t
  else if rtype rec =? TYPE_TXT then on_txt now rec t
  else if (rtype rec =? TYPE_A) && (len (rdata rec) =? 4) then on_a now rec t
  else t.

(** The instants read while a packet is absorbed are one. *)
Definition absorb (now : Z) (packet : list byte) (rs : list Record_) (t : QsPeers) : QsPeers :=
  fold_left (fun t rec => absorb_one now packet rec t) rs t.

(** At most 32 datagrams, of which 4096 bytes are read, until the socket gives an error. *)
Fixpoint poll_loop (n : nat) (rx : list (option (Z * list byte))) (t : QsPeers) : list (option (Z * list byte)) * QsPeers :=
  match n, rx with
  | S n, Some (now, datagram) :: rx =>
      let d := take 4096 datagram in
      poll_loop n rx (match parse d with Some msg => absorb now d (records msg) t | None => t end)
  | S _, None :: rx => (rx, t)
  | _, _ => (rx, t)
  end.
Definition poll := poll_loop 32.

Definition expire (now older_than : Z) (t : QsPeers) : QsPeers :=
  filter (fun kp : list byte * QsPeer => Z.max 0 (now - q_last_seen kp.2) < older_than) t.

Definition peers (t : QsPeers) : list QsPeer := (map_to_list t).*2.

(** ** The responder *)

Record QsIdentity : Type := mkIdentity {
  id_endpoint : list byte;
  id_info : list byte;
  id_token : list byte
}.

(** What the generators give: the endpoint id's four bytes, sixteen of metadata, two of token. *)
Definition new_identity (device_name r metadata token : list byte) : QsIdentity :=
  mkIdentity (random_endpoint_id r)
    (EndpointInfo.encode (EndpointInfo.mk 0 false DeviceType.Phone metadata (Some device_name))) token.

Definition id_str (i : QsIdentity) : list byte := from_utf8_lossy (id_endpoint i).

Record QsResponder : Type := mkResponder {
  r_instance : list byte;
  r_host : list byte;
  r_addr : list byte;
  r_info : list byte;
  r_port : Z
}.

(** [addr] is the interface's. *)
Definition new_responder (addr : list byte) (ident : QsIdentity) (port : Z) : QsResponder :=
  let label := instance_name (id_endpoint ident) in
  mkResponder (label ++ str "." ++ SERVICE_TYPE) (str "tarish-" ++ to_ascii_lowercase label ++ str ".local") addr
    (id_info ident) port.

Definition TTL_SECS : Z := 120.

(** [base64_url_nopad]: the same encoding, written again. *)
Fixpoint base64_url_nopad (raw : list byte) : list byte :=
  let at_ n k := letter B64URL (Z.land (Z.shiftr n k) 63) in
  match raw with
  | [] => []
  | [a] => let n := bits24 a (to_u8 0) (to_u8 0) in [at_ n 18; at_ n 12]
  | [a; b] => let n := bits24 a b (to_u8 0) in [at_ n 18; at_ n 12; at_ n 6]
  | a :: b :: c :: raw => let n := bits24 a b c in [at_ n 18; at_ n 12; at_ n 6; at_ n 0] ++ base64_url_nopad raw
  end.

Definition txt_entry (r : QsResponder) : list byte := TXT_ENDPOINT_INFO ++ str "=" ++ base64_url_nopad (r_info r).

Definition answers_with_ttl (ttl : Z) (r : QsResponder) : list (list byte) :=
  let txt := [to_u8 (len (txt_entry r))] ++ txt_entry r in
  let srv := to_be_bytes 2 0 ++ to_be_bytes 2 0 ++ to_be_bytes 2 (r_port r) ++ encode_name (r_host r) in
  [record SERVICE_TYPE TYPE_PTR ttl (encode_name (r_instance r)) false;
   record (r_instance r) TYPE_SRV ttl srv true;
   record (r_instance r) TYPE_TXT ttl txt true;
   record (r_host r) TYPE_A ttl (r_addr r) true].
Definition answers (r : QsResponder) : list (list byte) := answers_with_ttl TTL_SECS r.

Definition stop_advertising (r : QsResponder) (n : Net) : Net := (send_group (response (answers_with_ttl 0 r)) n).2.
Definition announce (r : QsResponder) (n : Net) : bool * Net := send_group (response (answers r)) n.

Definition wanted (r : QsResponder) (q : Question) : bool :=
  bool_decide (Dns.q_name q = SERVICE_TYPE) || bool_decide (Dns.q_name q = r_instance r) || bool_decide (Dns.q_name q = r_host r).

Fixpoint answer_loop (k : nat) (answered : Z) (rx : list (option (list byte))) (r : QsResponder) (n : Net)
    : Z * list (option (list byte)) * Net :=
  match k, rx with
  | S k, Some datagram :: rx =>
      match parse (take 4096 datagram) with
      | Some msg =>
          if existsb (wanted r) (questions msg) then answer_loop k (answered + 1) rx r (announce r n).2
          else answer_loop k answered rx r n
      | None => answer_loop k answered rx r n
      end
  | S _, None :: rx => (answered, rx, n)
  | _, _ => (answered, rx, n)
  end.
Definition answer_queries := answer_loop 32 0.

(** ** Lemmas *)

(** *** Base64 *)

Lemma nopad_is_encode : forall raw, base64_url_nopad raw = base64url_encode raw.
Proof.
  fix IH 1. intros [|a [|b [|c raw]]]; [done|done|done|].
  cbn [base64_url_nopad base64url_encode]. rewrite IH. done.
Qed.

Lemma sextet_letter v : 0 <= v < 64 -> sextet_of (letter B64URL v) = Some (Some v).
Proof.
  intros Hv. assert (Hall : forallb (fun i => bool_decide (sextet_of (letter B64URL (Z.of_nat i)) = Some (Some (Z.of_nat i)))) (seq 0 64) = true)
    by (vm_compute; reflexivity).
  rewrite forallb_forall in Hall. specialize (Hall (Z.to_nat v)). rewrite Z2Nat.id in Hall by lia.
  apply bool_decide_eq_true in Hall; [done|]. apply in_seq. lia.
Qed.

Lemma letter_text i : label_text [letter B64URL i] = true.
Proof.
  unfold letter. destruct (nth_in_or_default (Z.to_nat i) B64URL (to_u8 0)) as [Hin|Heq]; [|by rewrite Heq].
  assert (Hall : forallb (fun b => label_text [b]) B64URL = true) by (vm_compute; reflexivity).
  rewrite forallb_forall in Hall. by apply Hall.
Qed.

(** One letter: the accumulator's low bits are the last ones read. *)
Definition push (acc v : Z) : Z := Z.lor (as_u32 (Z.shiftl acc 6)) v.

Lemma push_low acc v : 0 <= v < 64 -> 0 <= push acc v /\ push acc v mod 64 = v /\ push acc v mod 4096 = (acc mod 64) * 64 + v.
Proof.
  intros Hv. unfold push, as_u32. rewrite Z.shiftl_mul_pow2 by lia. change (2 ^ 6) with 64. change (2 ^ 32) with (64 * 67108864).
  rewrite (Z.mul_comm acc 64), Z.mul_mod_distr_l by lia. set (y := acc mod 67108864).
  assert (Hy : 0 <= y /\ y mod 64 = acc mod 64).
  { subst y. change 67108864 with (64 * 1048576). split; [apply Z.mod_pos_bound; lia|].
    rewrite Z.rem_mul_r by lia. rewrite (Z.mul_comm 64 (_ mod 1048576)), Z.mod_add by lia. by apply Z.mod_mod. }
  destruct Hy as [Hy0 Hy]. assert (Hl : Z.lor (64 * y) v = v + y * 64).
  { rewrite Z.lor_comm. replace (64 * y) with (Z.shiftl y 6) by (rewrite Z.shiftl_mul_pow2 by lia; change (2 ^ 6) with 64; lia).
    rewrite lor_disjoint by (change (2 ^ 6) with 64; lia). change (2 ^ 6) with 64. lia. }
  rewrite Hl. split_and!; [lia| |].
  - rewrite Z.mod_add by lia. by apply Z.mod_small.
  - rewrite <- Hy. Z.div_mod_to_equations. lia.
Qed.

Lemma decode_letter acc bits v rest :
  0 <= v < 64 ->
  decode_loop acc bits (letter B64URL v :: rest)
  = if 8 <=? bits + 6 then
      let^ out := decode_loop (push acc v) (bits - 2) rest in Some (to_u8 (Z.shiftr (push acc v) (bits - 2)) :: out)
    else decode_loop (push acc v) (bits + 6) rest.
Proof.
  intros Hv. cbn [decode_loop]. rewrite sextet_letter by done. change (Z.lor (as_u32 (Z.shiftl acc 6)) v) with (push acc v).
  cbv zeta. by replace (bits + 6 - 8) with (bits - 2) by lia.
Qed.

Lemma bits24_value a b c : bits24 a b c = u8 a * 65536 + u8 b * 256 + u8 c.
Proof.
  unfold bits24. pose proof (u8_range a). pose proof (u8_range b). pose proof (u8_range c).
  assert (Hbc : forall x y, 0 <= y < 256 -> 0 <= x -> Z.lor (Z.shiftl x 8) y = x * 256 + y).
  { intros x y Hy Hx. rewrite Z.lor_comm, lor_disjoint by (change (2 ^ 8) with 256; lia). change (2 ^ 8) with 256. lia. }
  assert (H16 : Z.shiftl (u8 a) 16 = Z.shiftl (u8 a * 256) 8).
  { rewrite !Z.shiftl_mul_pow2 by lia. change (2 ^ 16) with 65536. change (2 ^ 8) with 256. lia. }
  assert (Hor : Z.lor (Z.shiftl (u8 a) 16) (Z.shiftl (u8 b) 8) = Z.shiftl (u8 a * 256 + u8 b) 8).
  { rewrite H16, <- Z.shiftl_lor. f_equal. rewrite Z.lor_comm. replace (u8 a * 256) with (Z.shiftl (u8 a) 8) by (rewrite Z.shiftl_mul_pow2 by lia; done).
    rewrite lor_disjoint by (change (2 ^ 8) with 256; lia). rewrite Z.shiftl_mul_pow2 by lia. change (2 ^ 8) with 256. lia. }
  rewrite Hor, Hbc by lia. lia.
Qed.

(** The six bits of [n] at [k]. *)
Definition six (n k : Z) : Z := Z.land (Z.shiftr n k) 0x3F.

Lemma six_value n k : 0 <= k -> six n k = n / 2 ^ k mod 64.
Proof. intros Hk. unfold six. change 0x3F with (Z.ones 6). rewrite Z.land_ones, Z.shiftr_div_pow2 by lia. done. Qed.

Lemma six_range n k : 0 <= k -> 0 <= six n k < 64.
Proof. intros Hk. rewrite six_value by done. apply Z.mod_pos_bound. lia. Qed.

Lemma sextets_letters t n : (t <= 4)%nat ->
  sextets t n = take t [letter B64URL (six n 18); letter B64URL (six n 12); letter B64URL (six n 6); letter B64URL (six n 0)].
Proof. intros Ht. do 5 (destruct t as [|t]; [reflexivity|]). lia. Qed.

(** A byte from the low bits of the accumulator. *)
Lemma byte_at x k c : 0 <= k <= 4 -> x mod 4096 / 2 ^ k mod 256 = u8 c -> to_u8 (Z.shiftr x k) = c.
Proof.
  intros Hk Hx. rewrite Z.shiftr_div_pow2 by lia. apply u8_inj. rewrite u8_to_u8, <- Hx.
  assert (Hc : k = 0 \/ k = 1 \/ k = 2 \/ k = 3 \/ k = 4) by lia.
  destruct Hc as [->|[->|[->|[->| ->]]]]; change (2 ^ 0) with 1 || change (2 ^ 1) with 2 || change (2 ^ 2) with 4
    || change (2 ^ 3) with 8 || change (2 ^ 4) with 16; Z.div_mod_to_equations; lia.
Qed.

(** Four letters are three bytes. *)
Lemma decode_quad acc a b c rest :
  exists acc', decode_loop acc 0 (sextets 4 (bits24 a b c) ++ rest)
  = let^ out := decode_loop acc' 0 rest in Some (a :: b :: c :: out).
Proof.
  rewrite sextets_letters by lia. set (n := bits24 a b c). pose proof (bits24_value a b c) as Hn. fold n in Hn. clearbody n.
  pose proof (u8_range a). pose proof (u8_range b). pose proof (u8_range c).
  cbn [take app]. rewrite !decode_letter by (apply six_range; lia).
  change (8 <=? 0 + 6) with false. change (8 <=? 0 + 6 + 6) with true. change (0 + 6 + 6 - 2 - 2) with 8. cbv iota.
  set (x0 := push acc (six n 18)). set (x1 := push x0 (six n 12)). set (x2 := push x1 (six n 6)). set (x3 := push x2 (six n 0)).
  destruct (push_low acc (six n 18)) as (_ & L0 & _); [apply six_range; lia|]. fold x0 in L0.
  destruct (push_low x0 (six n 12)) as (_ & L1 & M1); [apply six_range; lia|]. fold x1 in L1, M1.
  destruct (push_low x1 (six n 6)) as (_ & L2 & M2); [apply six_range; lia|]. fold x2 in L2, M2.
  destruct (push_low x2 (six n 0)) as (_ & L3 & M3); [apply six_range; lia|]. fold x3 in L3, M3.
  rewrite L0 in M1. rewrite L1 in M2. rewrite L2 in M3. clear L0 L1 L2 L3. clearbody x1 x2 x3. clear x0.
  rewrite !six_value in M1, M2, M3 by lia.
  change (2 ^ 18) with 262144 in *. change (2 ^ 12) with 4096 in *. change (2 ^ 6) with 64 in *. change (2 ^ 0) with 1 in *.
  change (8 <=? 0 + 6 - 2 + 6) with true. change (8 <=? 0 + 6 - 2 - 2 + 6) with true. cbv iota.
  change (0 + 6 - 2 - 2 - 2) with 0. change (0 + 6 - 2 - 2) with 2. change (0 + 6 - 2) with 4.
  assert (Ha : to_u8 (Z.shiftr x1 4) = a).
  { apply byte_at; [lia|]. rewrite M1. change (2 ^ 4) with 16. clear M1 M2 M3. Z.div_mod_to_equations. lia. }
  assert (Hb : to_u8 (Z.shiftr x2 2) = b).
  { apply byte_at; [lia|]. rewrite M2. change (2 ^ 2) with 4. clear M1 M2 M3. Z.div_mod_to_equations. lia. }
  assert (Hc : to_u8 (Z.shiftr x3 0) = c).
  { apply byte_at; [lia|]. rewrite M3. change (2 ^ 0) with 1. clear M1 M2 M3. Z.div_mod_to_equations. lia. }
  exists x3. rewrite Ha, Hb, Hc. by destruct (decode_loop x3 0 rest).
Qed.

(** The letters of the last bytes are the first of a quad. *)
Lemma decode_prefix acc bits t ls out :
  decode_loop acc bits ls = Some out -> exists out', decode_loop acc bits (take t ls) = Some out' /\ out' `prefix_of` out.
Proof.
  revert acc bits t out. induction ls as [|c ls IH]; intros acc bits t out; [rewrite take_nil; intros [= <-]; by exists []|].
  destruct t as [|t]; [intros _; exists []; split; [done|apply prefix_nil]|]. cbn [take decode_loop].
  destruct (sextet_of c) as [[v|]|]; [|apply IH|done]. cbv zeta. destruct (8 <=? bits + 6); [|apply IH].
  intros (o & Ho & [= <-])%opt_bind_Some. destruct (IH _ _ t _ Ho) as (o' & -> & Hp). eexists. split; [done|]. by apply prefix_cons.
Qed.

Lemma decode_tail acc t a b c :
  (t <= 4)%nat ->
  exists out, decode_loop acc 0 (sextets t (bits24 a b c)) = Some out /\ out `prefix_of` [a; b; c].
Proof.
  intros Ht. destruct (decode_quad acc a b c []) as (acc' & Hq). rewrite app_nil_r in Hq. cbn [decode_loop opt_bind] in Hq.
  destruct (decode_prefix _ _ t _ _ Hq) as (out & Ho & Hp). exists out. split; [|done]. rewrite <- Ho. f_equal.
  rewrite !sextets_letters by lia. symmetry. rewrite take_take. by rewrite Nat.min_l.
Qed.

Lemma prefix_length_eq (x y : list byte) : x `prefix_of` y -> x = take (length x) y.
Proof. intros [k ->]. by rewrite take_app_length. Qed.

Lemma base64_decode_encode acc x : decode_loop acc 0 (base64url_encode x) = Some x.
Proof.
  revert acc. assert (Hind : forall n x acc, (length x <= n)%nat -> decode_loop acc 0 (base64url_encode x) = Some x).
  2:{ intros acc. by apply (Hind (length x)). }
  clear x. induction n as [|n IH]; intros x acc Hl; [destruct x; [done|cbn in Hl; lia]|].
  destruct x as [|a [|b [|c x]]]; [done| | |].
  - cbn [base64url_encode]. destruct (decode_tail acc 2 a (to_u8 0) (to_u8 0)) as (out & Ho & Hp); [lia|].
    rewrite Ho. rewrite sextets_letters in Ho by lia. cbn [take] in Ho. rewrite !decode_letter in Ho by (apply six_range; lia).
    change (8 <=? 0 + 6) with false in Ho. change (8 <=? 0 + 6 + 6) with true in Ho. cbn [decode_loop opt_bind] in Ho.
    injection Ho as <-. apply prefix_length_eq in Hp. by rewrite Hp.
  - cbn [base64url_encode]. destruct (decode_tail acc 3 a b (to_u8 0)) as (out & Ho & Hp); [lia|].
    rewrite Ho. rewrite sextets_letters in Ho by lia. cbn [take] in Ho. rewrite !decode_letter in Ho by (apply six_range; lia).
    change (8 <=? 0 + 6) with false in Ho. change (8 <=? 0 + 6 + 6) with true in Ho.
    change (8 <=? 0 + 6 + 6 - 2 - 2 + 6) with true in Ho. cbn [opt_bind] in Ho.
    change (8 <=? 0 + 6 + 6 - 2 + 6) with true in Ho. cbn [decode_loop opt_bind] in Ho.
    injection Ho as <-. apply prefix_length_eq in Hp. by rewrite Hp.
  - cbn [base64url_encode]. destruct (decode_quad acc a b c (base64url_encode x)) as (acc' & ->).
    rewrite IH by (cbn in Hl; lia). done.
Qed.

Lemma base64_roundtrip x : base64_any_decode (base64url_encode x) = Some x.
Proof. apply base64_decode_encode. Qed.

Lemma label_text_app x y : label_text (x ++ y) = label_text x && label_text y.
Proof. apply forallb_app. Qed.

Lemma sextets_text t n : label_text (sextets t n) = true.
Proof.
  unfold sextets, label_text. induction (seq 0 t) as [|i l IH]; [done|]. cbn [fmap list_fmap forallb]. rewrite IH, andb_true_r.
  pose proof (letter_text (Z.land (Z.shiftr n (18 - 6 * Z.of_nat i)) 0x3F)) as Hl. cbn in Hl. by rewrite andb_true_r in Hl.
Qed.

Lemma encode_text : forall x, label_text (base64url_encode x) = true.
Proof.
  fix IH 1. intros [|a [|b [|c x]]]; [done|apply sextets_text|apply sextets_text|].
  cbn [base64url_encode]. by rewrite label_text_app, sextets_text, IH.
Qed.

Lemma base64_len : forall x, 3 * len (base64url_encode x) <= 4 * len x + 2.
Proof.
  fix IH 1. intros [|a [|b [|c x]]]; [by vm_compute|by vm_compute|by vm_compute|]. cbn [base64url_encode].
  rewrite len_app, !len_cons. specialize (IH x). change (len (sextets 4 _)) with 4. lia.
Qed.

(** *** Names *)

Definition service_labels : list (list byte) := [str "_FC9F5ED42C8A"; str "_tcp"; str "local"].

Lemma first_part_app p l x r : Forall (fun b => p b = false) l -> p x = true -> first_part p (l ++ x :: r) = l.
Proof. intros Hl Hx. induction Hl as [|b l Hb _ IH]; cbn [app first_part]; [by rewrite Hx|]. by rewrite Hb, IH. Qed.

Lemma label_text_spec l : label_text l = true -> Forall (fun b => u8 b < 128 /\ u8 b <> 46) l.
Proof.
  unfold label_text. rewrite forallb_forall. intros Hl. apply Forall_forall. intros b Hb%list_elem_of_In. specialize (Hl b Hb). lia.
Qed.

Lemma label_text_lower l : label_text l = true -> label_text (to_ascii_lowercase l) = true.
Proof.
  unfold label_text, to_ascii_lowercase. induction l as [|b l IH]; [done|]. cbn [fmap list_fmap forallb].
  intros [Hb Hl]%andb_true_iff. rewrite IH, andb_true_r by done. revert Hb. clear. destruct b; by vm_compute.
Qed.

(** The identifier of an endpoint: four letters of the alphabet. *)
Definition good_id (id : list byte) : Prop := len id = 4 /\ label_text id = true.

Lemma random_endpoint_id_good r : len r = 4 -> good_id (random_endpoint_id r).
Proof.
  intros Hl. unfold random_endpoint_id. split; [by rewrite len_map|]. clear Hl. unfold label_text.
  induction r as [|b r IH]; [done|]. cbn [fmap list_fmap forallb]. rewrite IH, andb_true_r. clear.
  destruct b; by vm_compute.
Qed.

Lemma instance_name_label id : len id = 4 -> 0 < len (instance_name id) <= 14 /\ label_text (instance_name id) = true.
Proof.
  intros Hl. unfold instance_name. set (raw := [PCP] ++ _). assert (Hr : len raw = 10) by (subst raw; rewrite !len_app, Hl; by vm_compute).
  split; [|apply encode_text]. pose proof (base64_len raw). split; [|lia].
  pose proof (base64_roundtrip raw) as Hd. destruct (base64url_encode raw) as [|c l]; [|rewrite len_cons; pose proof (len_nonneg l); lia].
  injection Hd as Hd. rewrite <- Hd, len_nil in Hr. lia.
Qed.

Lemma instance_labels id :
  len id = 4 ->
  let ls := instance_name id :: service_labels in
  Forall wf_label ls /\ instance_name id ++ str "." ++ SERVICE_TYPE = dotted ls /\ len (dotted ls) <= 39.
Proof.
  intros Hl ls. destruct (instance_name_label id Hl) as [Hn Ht].
  assert (Hne : instance_name id <> []) by (intros He; rewrite He in Hn; vm_compute in Hn; intuition discriminate).
  assert (Hd : instance_name id ++ str "." ++ SERVICE_TYPE = dotted ls).
  { subst ls. change (instance_name id :: service_labels) with ([instance_name id; str "_FC9F5ED42C8A"; str "_tcp"] ++ [str "local"]).
    rewrite dotted_snoc by (repeat constructor; done). cbn [fmap list_fmap].
    change (mjoin [?a; ?b; ?c]) with (a ++ b ++ c ++ []). by rewrite <- !app_assoc. }
  split_and!; [|done|].
  - apply Forall_cons_2; [apply label_wf; [lia|done]|]. repeat constructor; by vm_compute.
  - rewrite <- Hd, !len_app.
    change (len (str ".")) with 1. change (len SERVICE_TYPE) with 24. lia.
Qed.

Lemma host_labels id :
  len id = 4 ->
  let ls := [str "tarish-" ++ to_ascii_lowercase (instance_name id); str "local"] in
  Forall wf_label ls /\ str "tarish-" ++ to_ascii_lowercase (instance_name id) ++ str ".local" = dotted ls /\ 0 < len (dotted ls) <= 27.
Proof.
  intros Hl ls. destruct (instance_name_label id Hl) as [Hn Ht]. apply label_text_lower in Ht.
  assert (Hll : len (to_ascii_lowercase (instance_name id)) = len (instance_name id)) by (unfold to_ascii_lowercase; apply len_map).
  assert (Hd : str "tarish-" ++ to_ascii_lowercase (instance_name id) ++ str ".local" = dotted ls).
  { subst ls. change [?x; str "local"] with ([x] ++ [str "local"]). rewrite dotted_snoc by (by repeat constructor). cbn [fmap list_fmap].
    change (mjoin [?a]) with (a ++ []). by rewrite <- !app_assoc. }
  generalize dependent (to_ascii_lowercase (instance_name id)). intros n ls Ht Hll Hd. split_and!; [|done|..].
  - apply Forall_cons_2; [apply label_wf|repeat constructor; by vm_compute].
    + rewrite len_app. change (len (str "tarish-")) with 7. lia.
    + by rewrite label_text_app, Ht.
  - rewrite <- Hd, !len_app. change (len (str "tarish-")) with 7. change (len (str ".local")) with 6. lia.
  - rewrite <- Hd, !len_app. change (len (str "tarish-")) with 7. change (len (str ".local")) with 6. lia.
Qed.

Lemma instance_decodes id :
  len id = 4 -> endpoint_id_from_instance (instance_name id ++ str "." ++ SERVICE_TYPE) = Some id.
Proof.
  intros Hl. destruct (instance_name_label id Hl) as [_ Ht]. unfold endpoint_id_from_instance.
  change (str "." ++ SERVICE_TYPE) with (to_u8 46 :: SERVICE_TYPE).
  rewrite first_part_app; [| |done].
  2:{ eapply Forall_impl; [by apply label_text_spec|]. cbv beta. unfold dot. lia. }
  unfold instance_name. rewrite base64_roundtrip. unfold opt_bind, ENDPOINT_ID_LEN.
  assert (Hr : len ([PCP] ++ id ++ SERVICE_ID_HASH_PREFIX ++ replicate 2 (to_u8 0)) = 10) by (rewrite !len_app, Hl; by vm_compute).
  rewrite Hr. cbn [app head]. rewrite (bool_decide_true (Some PCP = Some PCP)) by done. cbn [negb orb].
  change (PCP :: id ++ SERVICE_ID_HASH_PREFIX ++ replicate 2 (to_u8 0)) with ([PCP] ++ id ++ SERVICE_ID_HASH_PREFIX ++ replicate 2 (to_u8 0)).
  rewrite (sub_range_mid [PCP] id _ 1 (1 + 4)) by (rewrite ?Hl; vm_compute; reflexivity).
  rewrite (app_assoc [PCP] id), (sub_range_mid ([PCP] ++ id) SERVICE_ID_HASH_PREFIX).
  - by rewrite bool_decide_true.
  - rewrite len_app, Hl. done.
  - rewrite !len_app, Hl. done.
Qed.

(** *** The name in the TXT record *)

Lemma name_in_txt name r metadata token addr port :
  valid name = true -> len name <= 171 -> len metadata = 16 ->
  let s := new_responder addr (new_identity name r metadata token) port in
  name_from_txt ([to_u8 (len (txt_entry s))] ++ txt_entry s) = Some name /\ len (txt_entry s) <= 255.
Proof.
  intros Hv Hl Hm s. subst s. unfold txt_entry. cbn [r_info new_responder id_info new_identity].
  set (i := EndpointInfo.mk 0 false DeviceType.Phone metadata (Some name)). rewrite nopad_is_encode.
  assert (Hlen : len (EndpointInfo.encode i) <= 189).
  { unfold EndpointInfo.encode. cbn [i EndpointInfo.hidden EndpointInfo.metadata EndpointInfo.device_name negb unwrap_or].
    unfold EndpointInfo.truncate. rewrite (proj2 (Z.ltb_ge 0xFF (len name))) by lia.
    rewrite !len_app, Hm. change (len [_]) with 1. lia. }
  pose proof (base64_len (EndpointInfo.encode i)) as He. pose proof (encode_text (EndpointInfo.encode i)) as Ht.
  pose proof (base64_roundtrip (EndpointInfo.encode i)) as Hd.
  destruct (endpoint_roundtrip i []) as (Hp & _ & _ & Hname & _).
  { split_and!; cbn; [lia|lia|done|]. by intros n [= <-]. }
  rewrite app_nil_r in Hp. subst i. set (i := EndpointInfo.mk 0 false DeviceType.Phone metadata (Some name)) in Hp, Hlen, He, Ht, Hd |- *.
  cbn [EndpointInfo.device_name unwrap_or] in Hname. specialize (Hname ltac:(lia)).
  assert (Hdev : EndpointInfo.parse (EndpointInfo.encode i) = Some i).
  { rewrite Hp. subst i. cbn [EndpointInfo.device_name EndpointInfo.hidden EndpointInfo.version EndpointInfo.device_type
      EndpointInfo.metadata unwrap_or]. by rewrite Hname. }
  clear Hp Hname.
  generalize dependent (base64url_encode (EndpointInfo.encode i)). intros value He Ht Hd.
  assert (Hent : len (TXT_ENDPOINT_INFO ++ str "=" ++ value) <= 255).
  { rewrite !len_app. change (len TXT_ENDPOINT_INFO) with 1. change (len (str "=")) with 1. lia. }
  split; [|done]. unfold name_from_txt. set (entry := TXT_ENDPOINT_INFO ++ str "=" ++ value) in *.
  pose proof (len_nonneg entry). cbn [length app]. cbn [name_from_txt_loop].
  change (to_u8 (len entry) :: entry) with ([to_u8 (len entry)] ++ entry).
  change (get ([to_u8 (len entry)] ++ entry) 0) with (Some (to_u8 (len entry))). cbv iota zeta.
  rewrite u8_to_u8_small by lia. rewrite len_app. change (len [to_u8 (len entry)]) with 1.
  rewrite (proj2 (Z.ltb_ge _ _)) by lia. change (0 + 1) with 1.
  rewrite <- (app_nil_r entry) at 2. rewrite (sub_range_mid [to_u8 (len entry)] entry []) by (by vm_compute || done).
  change entry with (TXT_ENDPOINT_INFO ++ equals_sign :: value) at 1. rewrite split_once_app by (by repeat constructor).
  rewrite bool_decide_true by done. cbn [negb]. rewrite Hd. cbn [opt_bind]. by rewrite Hdev.
Qed.

(** *** The packet *)

(** A responder whose names are ours. *)
Record ours (id name : list byte) (s : QsResponder) : Prop := mkOurs {
  os_id : good_id id;
  os_instance : r_instance s = instance_name id ++ str "." ++ SERVICE_TYPE;
  os_host : r_host s = str "tarish-" ++ to_ascii_lowercase (instance_name id) ++ str ".local";
  os_name : name_from_txt ([to_u8 (len (txt_entry s))] ++ txt_entry s) = Some name;
  os_entry : len (txt_entry s) <= 255;
  os_addr : len (r_addr s) = 4;
  os_port : 0 <= r_port s < 65536
}.

Lemma new_responder_ours name r metadata token addr port :
  valid name = true -> len name <= 171 -> len r = 4 -> len metadata = 16 -> len addr = 4 -> 0 <= port < 65536 ->
  ours (random_endpoint_id r) name (new_responder addr (new_identity name r metadata token) port).
Proof.
  intros Hv Hl Hr Hm Ha Hp. destruct (name_in_txt name r metadata token addr port) as [Hn He]; [done..|].
  split; try done. by apply random_endpoint_id_good.
Qed.

Definition txt_data (s : QsResponder) : list byte := [to_u8 (len (txt_entry s))] ++ txt_entry s.
Definition srv_data (s : QsResponder) : list byte :=
  to_be_bytes 2 0 ++ to_be_bytes 2 0 ++ to_be_bytes 2 (r_port s) ++ encode_name (r_host s).

Definition our_answers (id : list byte) (ttl : Z) (s : QsResponder) : list Answer :=
  let inst := instance_name id :: service_labels in
  let host := [str "tarish-" ++ to_ascii_lowercase (instance_name id); str "local"] in
  [mkAnswer service_labels TYPE_PTR ttl (encode_name (r_instance s)) false;
   mkAnswer inst TYPE_SRV ttl (srv_data s) true;
   mkAnswer inst TYPE_TXT ttl (txt_data s) true;
   mkAnswer host TYPE_A ttl (r_addr s) true].

(** What the packet does to the table of a browser. *)
Definition told (now : Z) (id name : list byte) (s : QsResponder) (t : QsPeers) : QsPeers :=
  let p := match t !! r_instance s with Some p => p | None => mkQsPeer id (r_instance s) [] 0 None None now end in
  <[r_instance s := mkQsPeer (endpoint_id p) (q_instance p) (r_host s) (r_port s) (Some (r_addr s)) (Some name) now]>
    ((fun p => if negb (is_empty (q_host p)) && bool_decide (q_host p = r_host s)
               then mkQsPeer (endpoint_id p) (q_instance p) (q_host p) (q_port p) (Some (r_addr s)) (q_name p) now else p) <$> t).

Section Packet.
Context (now ttl : Z) (id name : list byte) (s : QsResponder).
Hypothesis Hours : ours id name s.
Hypothesis Httl : 0 <= ttl < 2 ^ 32.

Lemma qs_our_answers_written : write <$> our_answers id ttl s = answers_with_ttl ttl s.
Proof using Hours.
  destruct Hours as [[Hl _] Hi Hh _ _ _ _]. destruct (instance_labels id Hl) as (_ & Hd & _). destruct (host_labels id Hl) as (_ & Hd2 & _).
  unfold our_answers, write, answers_with_ttl. cbn [fmap list_fmap a_labels a_type a_ttl a_rdata a_flush].
  rewrite <- Hd, <- Hd2, <- Hi, <- Hh. done.
Qed.

Lemma qs_our_answers_wf :
  Forall wf_answer (our_answers id ttl s) /\ len (response (write <$> our_answers id ttl s)) <= 4096.
Proof using Hours Httl.
  destruct Hours as [[Hl _] Hi Hh _ He Ha Hp]. destruct (instance_labels id Hl) as (Hil & Hd & Hin). destruct (host_labels id Hl) as (Hhl & Hd2 & Hhn).
  rewrite Hd in Hi. rewrite Hd2 in Hh.
  assert (Hei : len (encode_name (r_instance s)) <= 41) by (rewrite Hi, len_encode by done; lia).
  assert (Heh : len (encode_name (r_host s)) <= 29) by (rewrite Hh, len_encode by done; lia).
  assert (Hsl : len (dotted service_labels) = 24 /\ len (encode_name (r_instance s)) < 65536) by (split; [by vm_compute|lia]).
  destruct Hsl as [Hsl _].
  assert (Hs : Forall wf_label service_labels) by (by apply Forall_cons in Hil as [_ ?]).
  assert (Hsrv : len (srv_data s) <= 35).
  { unfold srv_data. generalize dependent (encode_name (r_host s)). intros e Heh. rewrite !len_app, !len_to_be_bytes. lia. }
  assert (Htxt : len (txt_data s) <= 256) by (unfold txt_data; rewrite len_app; change (len [_]) with 1; lia).
  split.
  - unfold our_answers. repeat apply Forall_cons_2; try apply Forall_nil_2; (split_and!; cbn [a_labels a_type a_ttl a_rdata]);
      first [assumption | unfold MAX_NAME, TYPE_PTR, TYPE_SRV, TYPE_TXT, TYPE_A; lia].
  - unfold response. set (body := mjoin _). assert (Hb : len body <= 1000).
    { subst body. unfold our_answers, write. cbn [fmap list_fmap a_labels a_type a_ttl a_rdata a_flush].
      rewrite !len_mjoin_cons, !len_record, <- Hi, <- Hh, Ha. change (len (mjoin (@nil (list byte)))) with 0.
      change (len (encode_name (dotted service_labels))) with 26. lia. }
    clearbody body. rewrite !len_app, !len_to_be_bytes. lia.
Qed.

(** One record at a time. *)
Lemma qs_one_ptr packet rec t :
  fits packet -> says packet rec (mkAnswer service_labels TYPE_PTR ttl (encode_name (r_instance s)) false) ->
  absorb_one now packet rec t
  = (let p := match t !! r_instance s with Some p => p | None => mkQsPeer id (r_instance s) [] 0 None None now end in
     <[r_instance s := mkQsPeer (endpoint_id p) (q_instance p) (q_host p) (q_port p) (q_addr p) (q_name p) now]> t).
Proof using Hours.
  intros Hf (Hn & Ht & _ & Hd & Hs). cbn [a_labels a_type a_rdata] in *. destruct Hours as [[Hl Hit] Hi _ _ _ _ _].
  destruct (instance_labels id Hl) as (Hil & Hdot & Hin). pose proof (instance_decodes id Hl) as Hdec. rewrite <- Hi in Hdec.
  rewrite Hdot in Hi. unfold absorb_one. rewrite Ht, Hn, bool_decide_true by done. change (TYPE_PTR =? TYPE_PTR) with true. cbn [andb].
  assert (Hr : exists q, Reader.name (Reader.mk packet (rdata_at rec)) = Some (r_instance s, q)).
  { rewrite Hd, Hi in Hs. destruct (name_at _ packet (rdata_at rec) [] [] Hil ltac:(unfold MAX_NAME; lia) Hf) as [q Hq].
    - by rewrite app_nil_r.
    - exists q. rewrite Hi. by rewrite len_nil, Z.add_0_r in Hq. }
  destruct Hr as [q Hq]. unfold on_ptr. rewrite Hq, Hdec.
  assert (Hlossy : from_utf8_lossy id = id).
  { apply lossy_valid. apply ascii_chars. eapply Forall_impl; [by apply label_text_spec|]. cbv beta. lia. }
  by rewrite Hlossy.
Qed.

Lemma qs_one_srv packet rec t :
  fits packet -> says packet rec (mkAnswer (instance_name id :: service_labels) TYPE_SRV ttl (srv_data s) true) ->
  absorb_one now packet rec t
  = alter (fun p => mkQsPeer (endpoint_id p) (q_instance p) (r_host s) (r_port s) (q_addr p) (q_name p) now) (r_instance s) t.
Proof using Hours.
  intros Hf (Hn & Ht & _ & Hd & Hs). cbn [a_labels a_type a_rdata] in *. destruct Hours as [[Hl _] Hi Hh _ _ _ Hp].
  destruct (instance_labels id Hl) as (_ & Hdot & _). destruct (host_labels id Hl) as (Hhl & Hd2 & Hhn).
  unfold absorb_one. rewrite Ht, Hn, <- Hdot, <- Hi. change (TYPE_SRV =? TYPE_PTR) with false. change (TYPE_SRV =? TYPE_SRV) with true. cbn [andb].
  rewrite Hd2 in Hh. rewrite Hd in Hs. unfold srv_data in Hs. rewrite Hh in Hs.
  destruct (name_at _ packet (rdata_at rec) (to_be_bytes 2 0 ++ to_be_bytes 2 0 ++ to_be_bytes 2 (r_port s)) [] Hhl
              ltac:(unfold MAX_NAME; lia) Hf) as [q Hq]; [by rewrite app_nil_r, <- !app_assoc|].
  rewrite <- Hh in Hq. change (len (to_be_bytes 2 0 ++ to_be_bytes 2 0 ++ to_be_bytes 2 (r_port s))) with 6 in Hq.
  assert (Hlen : (6 <=? len (rdata rec)) = true).
  { rewrite Hd. unfold srv_data. generalize (encode_name (r_host s)) as e. intros e. rewrite !len_app, !len_to_be_bytes.
    pose proof (len_nonneg e). apply Z.leb_le. lia. }
  rewrite Hlen. unfold on_srv. rewrite Hq, Hn, <- Hdot, <- Hi, Hd.
  assert (Hport : sub_range (srv_data s) 4 6 = to_be_bytes 2 (r_port s)) by (unfold srv_data; by rewrite app_assoc; apply sub_range_mid).
  rewrite Hport, from_to_be_bytes_small; [done|]. change (256 ^ Z.of_nat 2) with 65536. lia.
Qed.

Lemma qs_one_txt packet rec t :
  says packet rec (mkAnswer (instance_name id :: service_labels) TYPE_TXT ttl (txt_data s) true) ->
  absorb_one now packet rec t
  = alter (fun p => mkQsPeer (endpoint_id p) (q_instance p) (q_host p) (q_port p) (q_addr p) (Some name) now) (r_instance s) t.
Proof using Hours.
  intros (Hn & Ht & _ & Hd & _). cbn [a_labels a_type a_rdata] in *. destruct Hours as [[Hl _] Hi _ Hname _ _ _].
  destruct (instance_labels id Hl) as (_ & Hdot & _).
  unfold absorb_one. rewrite Ht. change (TYPE_TXT =? TYPE_PTR) with false. change (TYPE_TXT =? TYPE_SRV) with false.
  change (TYPE_TXT =? TYPE_TXT) with true. cbn [andb]. unfold on_txt. rewrite Hd, Hn, <- Hdot, <- Hi. unfold txt_data. by rewrite Hname.
Qed.

Lemma qs_one_a packet rec t :
  says packet rec (mkAnswer [str "tarish-" ++ to_ascii_lowercase (instance_name id); str "local"] TYPE_A ttl (r_addr s) true) ->
  absorb_one now packet rec t
  = ((fun p => if negb (is_empty (q_host p)) && bool_decide (q_host p = r_host s)
               then mkQsPeer (endpoint_id p) (q_instance p) (q_host p) (q_port p) (Some (r_addr s)) (q_name p) now else p) <$> t).
Proof using Hours.
  intros (Hn & Ht & _ & Hd & _). cbn [a_labels a_type a_rdata] in *. destruct Hours as [[Hl _] _ Hh _ _ Ha _].
  destruct (host_labels id Hl) as (_ & Hd2 & _).
  unfold absorb_one. rewrite Ht, Hd, Ha. change (TYPE_A =? TYPE_PTR) with false. change (TYPE_A =? TYPE_SRV) with false.
  change (TYPE_A =? TYPE_TXT) with false. change ((TYPE_A =? TYPE_A) && (4 =? 4)) with true. cbn [andb].
  unfold on_a. rewrite Hd, Hn, <- Hd2, <- Hh. done.
Qed.

Lemma qs_absorb_ours packet rs t :
  fits packet -> Forall2 (says packet) rs (our_answers id ttl s) -> absorb now packet rs t = told now id name s t.
Proof using Hours.
  intros Hf Hrs. unfold our_answers in Hrs.
  repeat match goal with H : Forall2 _ _ (_ :: _) |- _ =>
    apply Forall2_cons_inv_r in H as (? & ? & ? & H & ->) end. apply Forall2_nil_inv_r in Hrs as ->.
  unfold absorb. cbn [fold_left].
  repeat match goal with
  | H : says packet ?r (mkAnswer _ TYPE_PTR _ _ _) |- _ => rewrite (qs_one_ptr packet r) by assumption; clear H
  | H : says packet ?r (mkAnswer _ TYPE_SRV _ _ _) |- _ => rewrite (qs_one_srv packet r) by assumption; clear H
  | H : says packet ?r (mkAnswer _ TYPE_TXT _ _ _) |- _ => rewrite (qs_one_txt packet r) by assumption; clear H
  | H : says packet ?r (mkAnswer _ TYPE_A _ _ _) |- _ => rewrite (qs_one_a packet r) by assumption; clear H
  end.
  rewrite !alter_insert_eq, fmap_insert. unfold told. cbn [q_host endpoint_id q_instance q_port q_addr q_name].
  destruct Hours as [[Hl _] _ Hh _ _ _ _]. destruct (is_empty (r_host s)) eqn:He; [rewrite Hh in He; discriminate He|].
  rewrite bool_decide_true by done. done.
Qed.
End Packet.

Lemma qs_poll_packet now ttl id name s t rest :
  ours id name s -> 0 <= ttl < 2 ^ 32 ->
  poll (Some (now, response (answers_with_ttl ttl s)) :: None :: rest) t = (rest, told now id name s t).
Proof.
  intros Ho Ht. destruct (qs_our_answers_wf ttl id name s Ho Ht) as [Hwf Hlen]. rewrite <- (qs_our_answers_written ttl id name s Ho).
  assert (Hf : fits (response (write <$> our_answers id ttl s))) by (unfold fits, isize_max; lia).
  destruct (parse_response _ Hwf ltac:(by vm_compute) Hf) as (rs & Hp & Hrs).
  unfold poll. cbn [poll_loop]. assert (Htake : take 4096 (response (write <$> our_answers id ttl s)) = response (write <$> our_answers id ttl s)).
  { apply take_ge. rewrite len_nat in Hlen. lia. }
  rewrite Htake, Hp. cbn [records]. by rewrite (qs_absorb_ours now ttl id name s Ho).
Qed.

(** *** The table *)

(** An entry is listed under a name of the service, with the identifier the name says. *)
Definition coherent (t : QsPeers) : Prop :=
  forall k p, t !! k = Some p -> q_instance p = k /\ exists id, endpoint_id_from_instance k = Some id /\ endpoint_id p = from_utf8_lossy id.

Lemma coherent_alter f k t :
  (forall p, q_instance (f p) = q_instance p /\ endpoint_id (f p) = endpoint_id p) -> coherent t -> coherent (alter f k t).
Proof.
  intros Hf Ht j p. rewrite lookup_alter. destruct (decide (k = j)) as [->|]; [|by apply Ht].
  intros (q & Hq & ->)%fmap_Some. destruct (Hf q) as [-> ->]. by apply Ht.
Qed.

Lemma absorb_one_coherent now packet rec t : coherent t -> coherent (absorb_one now packet rec t).
Proof.
  intros Ht. unfold absorb_one. case_match.
  { unfold on_ptr. destruct (Reader.name _) as [[i q]|]; [|done]. destruct (endpoint_id_from_instance i) as [id|] eqn:Hid; [|done].
    intros k p. destruct (decide (i = k)) as [->|Hk]; [|rewrite lookup_insert_ne by done; by apply Ht].
    rewrite lookup_insert_eq. intros [= <-]. cbn [q_instance endpoint_id].
    destruct (t !! k) as [p|] eqn:Hp; [by apply Ht|]. split; [done|by exists id]. }
  case_match; [unfold on_srv; by apply coherent_alter|]. case_match; [unfold on_txt; by apply coherent_alter|]. case_match; [|done].
  intros k p. unfold on_a. rewrite lookup_fmap. intros (q & Hq & ->)%fmap_Some. apply Ht in Hq. by case_match.
Qed.

Lemma poll_coherent n rx t : coherent t -> coherent (poll_loop n rx t).2.
Proof.
  revert rx t. induction n as [|n IH]; intros rx t Ht; [by destruct rx|]. cbn [poll_loop].
  destruct rx as [|[[now d]|] rx]; [done| |done]. apply IH. destruct (parse _) as [m|]; [|done].
  unfold absorb. generalize (records m). intros rs. revert t Ht. induction rs as [|rec rs IHr]; intros t Ht; [done|].
  cbn [fold_left]. apply IHr. by apply absorb_one_coherent.
Qed.

Lemma expire_coherent now older t : coherent t -> coherent (expire now older t).
Proof. intros Ht k p [Hk _]%map_lookup_filter_Some. by apply Ht. Qed.

(** Tables a browser can have: it starts empty, reads packets and drops old entries. *)
Inductive reachable : QsPeers -> Prop :=
| reach_start : reachable empty
| reach_poll rx t : reachable t -> reachable (poll rx t).2
| reach_expire now older t : reachable t -> reachable (expire now older t).

Lemma reachable_coherent t : reachable t -> coherent t.
Proof.
  induction 1; [by intros k p; rewrite lookup_empty|by apply poll_coherent|by apply expire_coherent].
Qed.

(** ** Properties *)

(** C33: two of our own devices find each other.  The one packet by which a responder announces
    an endpoint, read by any browser in any state it can reach, makes an entry for the instance
    whose identifier, host, address and port are the responder's and whose name is the whole
    name of the device, for every name of at most 171 bytes (the daemon allows 90); entries of
    other hosts are untouched. *)
Theorem announced_endpoints_are_found now device_name r metadata token addr port n n' :
  valid device_name = true -> len device_name <= 171 -> len r = 4 -> len metadata = 16 -> len addr = 4 -> 0 <= port < 65536 ->
  let ident := new_identity device_name r metadata token in
  let s := new_responder addr ident port in
  announce s n = (true, n') ->
  exists pkt, sent n' = sent n ++ [pkt] /\
  forall t rest, reachable t ->
    let (rx, t') := poll (Some (now, pkt) :: None :: rest) t in
    rx = rest /\
    t' !! r_instance s = Some (mkQsPeer (id_str ident) (r_instance s) (r_host s) port (Some addr) (Some device_name) now) /\
    (forall k, k <> r_instance s -> (forall p, t !! k = Some p -> q_host p <> r_host s) -> t' !! k = t !! k).
Proof.
  intros Hv Hl Hr Hm Ha Hp ident s Hann.
  pose proof (new_responder_ours device_name r metadata token addr port Hv Hl Hr Hm Ha Hp) as Ho. fold ident s in Ho.
  exists (response (answers s)). split.
  { unfold announce, send_group in Hann. destruct (link n) as [|[] l]; by simplify_eq/=. }
  intros t rest Ht. apply reachable_coherent in Ht. unfold answers.
  rewrite (qs_poll_packet now TTL_SECS _ _ _ _ _ Ho) by (by unfold TTL_SECS).
  pose proof Ho as [[Hid Hit] Hi Hh _ _ _ _]. split_and!; [done| |].
  - unfold told. rewrite lookup_insert_eq. do 2 f_equal.
    + assert (Hlossy : id_str ident = random_endpoint_id r).
      { unfold id_str. apply lossy_valid. apply ascii_chars. eapply Forall_impl; [by apply label_text_spec|]. cbv beta. lia. }
      rewrite Hlossy. destruct (t !! r_instance s) as [p|] eqn:Hpt; [|done]. destruct (Ht _ _ Hpt) as (_ & id & Hdec & ->).
      rewrite Hi, (instance_decodes _ Hid) in Hdec. injection Hdec as <-. exact Hlossy.
    + destruct (t !! r_instance s) as [p|] eqn:Hpt; [|done]. by apply Ht in Hpt as [-> _].
  - intros k Hk Hother. unfold told. rewrite lookup_insert_ne by done. rewrite lookup_fmap. destruct (t !! k) as [p|] eqn:Hpk; [|done].
    cbn. rewrite (bool_decide_false (q_host p = r_host s)) by (by apply Hother). by rewrite andb_false_r.
Qed.

(** ** A phone and its own browser *)

Module ToyDiscovery.

Definition phone : QsResponder :=
  new_responder (to_u8 <$> [192; 168; 1; 7]) (new_identity (str "Pixel") (to_u8 <$> [1; 2; 3; 4]) (replicate 16 (to_u8 9)) []) 5200.
Definition quiet : Net := mkNet [] [].

Lemma announced_endpoints_are_found_witness :
  exists pkt, sent (announce phone quiet).2 = [pkt] /\
    (poll [Some (10, pkt); None] empty).2 !! r_instance phone
    = Some (mkQsPeer (str "BCDE") (r_instance phone) (r_host phone) 5200 (Some (r_addr phone)) (Some (str "Pixel")) 10).
Proof.
  destruct (announced_endpoints_are_found 10 (str "Pixel") (to_u8 <$> [1; 2; 3; 4]) (replicate 16 (to_u8 9)) []
              (to_u8 <$> [192; 168; 1; 7]) 5200 quiet (announce phone quiet).2) as (pkt & Hs & H);
    [vm_compute; reflexivity|vm_compute; discriminate|reflexivity|reflexivity|reflexivity|lia|vm_compute; reflexivity|].
  exists pkt. split; [exact Hs|]. specialize (H empty [] reach_start).
  destruct (poll [Some (10, pkt); None] empty) as [rx t]. exact (proj1 (proj2 H)).
Defined.

(** The browser does not look at lifetimes: the goodbye of a device that leaves is read as one
    more sign of it, and keeps it in the table for another minute. *)
Example goodbye_is_taken_for_hello :
  let leave := stop_advertising phone quiet in
  exists pkt, sent leave = [pkt] /\
    (expire 69999 60000 (poll [Some (10000, pkt); None] empty).2) !! r_instance phone <> None.
Proof. eexists. split; [reflexivity|]. vm_compute. discriminate. Qed.

End ToyDiscovery.
