(* ===== verification/Device.v ===== *)
(** * What this device is called, and small text the service reads ([sharingd/src/main.rs])

    The advertised name and the cleaning of names, over the system's property store; MAC
    addresses, MIME types and the list of mediums.  The theorem says what any string a client or
    an administrator sets can become on the air. *)

From stdpp Require Import gmap.
From S2P Require Import Prelude Utf8 Utf16 Text.
#[local] Open Scope rust_scope.

(** ** System properties *)

Abbreviation Properties := (gmap (list byte) (list byte)).

(** An absent property and an empty one are the same; what is not UTF-8 is not read. *)
Definition read_property (name : list byte) (ps : Properties) : option (list byte) :=
  match ps !! name with
  | Some v => if is_empty v then None else from_utf8 v
  | None => None
  end.

Definition has_nul (s : list byte) : bool := existsb (fun b => u8 b =? 0) s.

(** [accepts]: what the property service allows to be written. *)
Definition write_property (accepts : list byte -> list byte -> bool) (name value : list byte) (ps : Properties) : bool * Properties :=
  if has_nul name || has_nul value then (false, ps)
  else if accepts name value then (true, <[name := value]> ps) else (false, ps).

Definition NAME_PROP : list byte := str "persist.tarish.name".

Definition device_name (ps : Properties) : list byte :=
  match read_property NAME_PROP ps with
  | Some n => n
  | None => match read_property (str "ro.product.model") ps with Some n => n | None => str "Tarish" end
  end.

Definition device_model (ps : Properties) : list byte :=
  match read_property (str "persist.tarish.model") ps with
  | Some n => n
  | None => match read_property (str "ro.product.model") ps with Some n => n | None => str "Android" end
  end.

(** ** Cleaning a name *)

(** Zero-width and bidirectional formatting. *)
Definition formatting (c : Z) : bool :=
  between 0x200B 0x200F c || between 0x202A 0x202E c || between 0x2060 0x206F c || (c =? 0xFEFF).

Definition printable (c : Z) : bool := negb (is_control c) && negb (formatting c).

(** The loop that collapses white space; [started]: something has been put out. *)
Fixpoint collapse (started in_space : bool) (cs : list Z) : list Z :=
  match cs with
  | [] => []
  | c :: cs =>
      if is_whitespace c then collapse started true cs
      else (if in_space && started then [0x20; c] else [c]) ++ collapse true false cs
  end.

(** [while cut.len() > 90], on the characters from the last. *)
Fixpoint cut_loop (rcs : list Z) : list Z :=
  match rcs with
  | [] => []
  | _ :: rest => if 90 <? len (of_chars (rev rcs)) then cut_loop rest else rcs
  end.
Definition cut (s : list byte) : list byte := of_chars (rev (cut_loop (rev (chars s)))).

Section Names.
(** The category of letters and digits of the standard library's Unicode tables. *)
Context (is_alphanumeric : Z -> bool).

Definition clean_name (name : list byte) : list byte :=
  let stripped := filter (fun c => printable c = true) (chars name) in
  let out := trim (of_chars (collapse false false stripped)) in
  if negb (existsb is_alphanumeric (chars out)) then [] else trim (cut out).

Definition set_device_name (accepts : list byte -> list byte -> bool) (name : list byte) (ps : Properties) : Properties :=
  let cleaned := clean_name name in
  if is_empty cleaned then (write_property accepts NAME_PROP [] ps).2
  else (write_property accepts NAME_PROP cleaned ps).2.
End Names.

(** ** Other small text *)

Definition is_colon (b : byte) : bool := u8 b =? 58.

(** [s.split(':')]. *)
Fixpoint split_on (p : byte -> bool) (part s : list byte) : list (list byte) :=
  match s with
  | [] => [part]
  | b :: s => if p b then part :: split_on p [] s else split_on p (part ++ [b]) s
  end.

(** The loop over the parts, [n] of which are read. *)
Fixpoint mac_loop (n : Z) (parts : list (list byte)) : option (list byte) :=
  match parts with
  | [] => if n =? 6 then Some [] else None
  | part :: parts =>
      if (n =? 6) || negb (len part =? 2) then None
      else
        let^ v := parse_radix 16 255 part in
        let^ rest := mac_loop (n + 1) parts in
        Some (to_u8 v :: rest)
  end.
Definition parse_mac (s : list byte) : option (list byte) := mac_loop 0 (split_on is_colon [] s).

Definition mime_types : list (list byte * list byte) :=
  [(str "jpg", str "image/jpeg"); (str "jpeg", str "image/jpeg"); (str "png", str "image/png"); (str "gif", str "image/gif");
   (str "webp", str "image/webp"); (str "heic", str "image/heic"); (str "mp4", str "video/mp4"); (str "mov", str "video/quicktime");
   (str "mp3", str "audio/mpeg"); (str "pdf", str "application/pdf"); (str "txt", str "text/plain");
   (str "apk", str "application/vnd.android.package-archive")].

Definition mime_of (name : list byte) : list byte :=
  let ext := to_ascii_lowercase (last_part (fun b => u8 b =? 46) name) in
  match list_find (fun m => m.1 = ext) mime_types with
  | Some (_, m) => m.2
  | None => str "application/octet-stream"
  end.

Definition comma (b : byte) : bool := u8 b =? 44.

(** Bluetooth and Wi-Fi LAN unless a property says otherwise. *)
Definition quickshare_mediums (ps : Properties) : list Z :=
  match read_property (str "persist.tarish.qs_mediums") ps with
  | None => [2; 5]
  | Some raw =>
      if is_empty (trim raw) then [2; 5]
      else
        let parsed := omap (fun f => parse_radix 10 u64_max (trim f)) (split_on comma [] raw) in
        if is_empty parsed then [2; 5] else parsed
  end.

(** ** Lemmas *)

Definition space (c : Z) : Prop := is_whitespace c = true.
Definition edge_ok (o : option Z) : Prop := forall c, o = Some c -> is_whitespace c = false.

(** No two white spaces in a row. *)
Fixpoint single (cs : list Z) : bool :=
  match cs with
  | x :: ((y :: _) as rest) => negb (is_whitespace x && is_whitespace y) && single rest
  | _ => true
  end.

Definition plain_char (c : Z) : Prop := printable c = true /\ (is_whitespace c = true -> c = 0x20).

(** Text fit to be shown on one line. *)
Record shown (cs : list Z) : Prop := mkShown {
  sh_plain : Forall plain_char cs;
  sh_single : single cs = true;
  sh_head : edge_ok (head cs);
  sh_last : edge_ok (last cs)
}.

Lemma single_app a b : single (a ++ b) = true -> single a = true /\ single b = true.
Proof.
  induction a as [|x a IH]; [done|]. destruct a as [|y a]; cbn [app] in *.
  - destruct b; [done|]. cbn. by intros [_ ?]%andb_true_iff.
  - cbn [single app] in *. intros [Hx Hr]%andb_true_iff. rewrite Hx. by apply IH.
Qed.

Lemma drop_while_head {A} (p : A -> bool) l c : head (drop_while p l) = Some c -> p c = false.
Proof. induction l as [|x l IH]; [done|]. cbn. destruct (p x) eqn:Hx; [done|]. cbn. by intros [= <-]. Qed.

Lemma drop_while_edge (cs : list Z) : edge_ok (head cs) -> drop_while is_whitespace cs = cs.
Proof. destruct cs as [|c cs]; [done|]. intros He. cbn. by rewrite (He c). Qed.

Lemma head_rev (cs : list Z) : head (rev cs) = last cs.
Proof. destruct cs as [|c cs _] using rev_ind; [done|]. by rewrite rev_app_distr, last_snoc. Qed.

Lemma last_rev (cs : list Z) : last (rev cs) = head cs.
Proof. rewrite <- (rev_involutive cs) at 2. by rewrite head_rev. Qed.

Lemma trim_chars_id cs : edge_ok (head cs) -> edge_ok (last cs) -> trim_chars cs = cs.
Proof.
  intros Hh Hl. unfold trim_chars. rewrite (drop_while_edge cs) by done. rewrite drop_while_edge by (by rewrite head_rev). apply rev_involutive.
Qed.

Lemma trim_chars_edges cs : edge_ok (head (trim_chars cs)) /\ edge_ok (last (trim_chars cs)).
Proof.
  unfold trim_chars. set (l := drop_while is_whitespace cs). assert (Hl : edge_ok (head l)) by (intros c; apply drop_while_head).
  clearbody l. split; [|rewrite last_rev; intros c; apply drop_while_head].
  rewrite head_rev. destruct (drop_while_suffix is_whitespace (rev l)) as [k Hk]. intros c Hc.
  apply Hl. rewrite <- last_rev, Hk, last_app. by rewrite Hc.
Qed.

Lemma whole_space : whole 0x20.
Proof. by vm_compute. Qed.

Lemma collapse_shown started in_space cs :
  Forall (fun c => whole c /\ printable c = true) cs ->
  let o := collapse started in_space cs in
  Forall whole o /\ Forall plain_char o /\ single o = true /\ edge_ok (last o) /\ (started = false -> edge_ok (head o)).
Proof.
  revert started in_space. induction cs as [|c cs IH]; intros started in_space Hcs; [by split_and!|].
  apply Forall_cons in Hcs as [[Hw Hp] Hcs]. cbn [collapse]. destruct (is_whitespace c) eqn:Hc; [by apply IH|].
  destruct (IH true false Hcs) as (IW & IP & IS & IL & _). set (o := collapse true false cs) in *. clearbody o.
  assert (Hco : Forall whole (c :: o) /\ Forall plain_char (c :: o) /\ single (c :: o) = true /\ edge_ok (last (c :: o))).
  { split_and!.
    - by apply Forall_cons_2.
    - apply Forall_cons_2; [|done]. split; [done|]. by rewrite Hc.
    - cbn [single]. destruct o; [done|]. by rewrite Hc.
    - destruct o as [|x o]; [intros d [= <-]; done|by rewrite last_cons_cons]. }
  destruct Hco as (HW & HP & HS & HL). destruct (in_space && started) eqn:Hsp; cbn [app].
  - apply andb_true_iff in Hsp as [_ ->]. split_and!; [by apply Forall_cons_2; [apply whole_space|]| | |by rewrite last_cons_cons|done].
    + by apply Forall_cons_2.
    + change (single (0x20 :: c :: o)) with (negb (is_whitespace 0x20 && is_whitespace c) && single (c :: o)). by rewrite Hc, HS.
  - split_and!; [done..|]. intros _ d [= <-]. done.
Qed.

Lemma collapse_id cs : forall started : bool,
  Forall plain_char cs -> single cs = true -> edge_ok (last cs) -> (started = false -> edge_ok (head cs)) -> collapse started false cs = cs.
Proof.
  induction cs as [|c cs IH]; intros started Hp Hs Hl Hh; [done|]. apply Forall_cons in Hp as [[_ Hc] Hp]. cbn [collapse].
  destruct (is_whitespace c) eqn:Hw.
  - specialize (Hc eq_refl) as ->. destruct started; [|by rewrite (Hh eq_refl 0x20) in Hw].
    destruct cs as [|d cs]; [by rewrite (Hl 0x20) in Hw|]. cbn [collapse]. rewrite last_cons_cons in Hl.
    change (single (0x20 :: d :: cs)) with (negb (is_whitespace 0x20 && is_whitespace d) && single (d :: cs)) in Hs.
    apply andb_true_iff in Hs as [Hd Hs]. cbn [andb] in Hd. destruct (is_whitespace d) eqn:Hwd; [done|]. cbn [andb app].
    specialize (IH true Hp Hs Hl ltac:(done)). cbn [collapse] in IH. rewrite Hwd in IH. cbn [andb app] in IH. by rewrite IH.
  - cbn [andb app]. f_equal. apply IH; [done| | |done].
    + destruct cs; [done|]. cbn [single] in Hs. by apply andb_true_iff in Hs as [_ ?].
    + destruct cs; [done|]. by rewrite last_cons_cons in Hl.
Qed.

(** *** Cutting *)

Lemma cut_loop_spec rcs :
  exists k, rcs = k ++ cut_loop rcs /\ (cut_loop rcs <> [] -> len (of_chars (rev (cut_loop rcs))) <= 90) /\
    (forall a b, k = a ++ b -> b <> [] -> 90 < len (of_chars (rev (b ++ cut_loop rcs)))).
Proof.
  induction rcs as [|c rcs (k & Hk & Hlen & Hmax)]; [exists []; by split_and!; [..|intros [] []]|]. cbn [cut_loop].
  destruct (90 <? len (of_chars (rev (c :: rcs)))) eqn:Hc.
  - exists (c :: k). split_and!; [cbn; by f_equal|done|]. intros a b Hab Hb. destruct a as [|x a].
    + cbn in Hab. subst b. cbn [app]. rewrite <- Hk. by apply Z.ltb_lt.
    + injection Hab as <- Hab. by apply (Hmax a b).
  - exists []. split_and!; [done| |]; [|intros [] []; done]. intros _. by apply Z.ltb_ge.
Qed.

(** The longest prefix of whole characters within 90 bytes. *)
Lemma cut_spec s :
  valid s = true ->
  exists p, p `prefix_of` chars s /\ cut s = of_chars p /\ len (cut s) <= 90 /\ (len s <= 90 -> cut s = s).
Proof.
  intros Hv. unfold cut. destruct (cut_loop_spec (rev (chars s))) as (k & Hk & Hlen & Hmax). set (r := cut_loop _) in *.
  assert (Hs : chars s = rev r ++ rev k) by (by rewrite <- rev_app_distr, <- Hk, rev_involutive).
  exists (rev r). split_and!; [rewrite Hs; by apply prefix_app_r|done| |].
  - destruct r as [|c r]; [by vm_compute|]. by apply Hlen.
  - intros Hs90. destruct k as [|c k].
    + cbn in Hs. rewrite app_nil_r in Hs. rewrite <- Hs. by apply of_chars_chars.
    + specialize (Hmax [] (c :: k) eq_refl ltac:(done)). rewrite <- Hk, rev_involutive, of_chars_chars in Hmax by done. lia.
Qed.

(** A character below 128 is its byte. *)
Lemma ascii_in_chars s b : valid s = true -> b ∈ s -> u8 b < 0x80 -> u8 b ∈ chars s.
Proof.
  intros Hv (l1 & l2 & ->)%list_elem_of_split Hb. rewrite chars_app by (by eapply valid_before).
  apply elem_of_app. right. rewrite chars_cons. destruct (scan b l2) as [g n] eqn:Hs. cbn [snd].
  assert (Hn : n = 0%nat).
  { unfold scan in Hs. revert Hs. rewrite (proj2 (Z.ltb_lt _ _) Hb). by intros [= _ <-]. }
  rewrite Hn. cbn [take char_of]. by left.
Qed.

Lemma shown_infix a b c : shown (a ++ b ++ c) -> Forall plain_char b /\ single b = true.
Proof.
  intros [Hp Hs _ _]. apply Forall_app in Hp as [_ [Hp _]%Forall_app]. apply single_app in Hs as [_ [Hs _]%single_app]. done.
Qed.

Lemma filter_all (p : Z -> bool) l : Forall (fun c => p c = true) l -> filter (fun c => p c = true) l = l.
Proof. induction 1 as [|c l Hc _ IH]; [done|]. by rewrite filter_cons_True, IH. Qed.

Section Clean.
Context (is_alphanumeric : Z -> bool).

(** What is left of a name before it is measured. *)
Lemma tidy_shown name :
  valid name = true ->
  let o := collapse false false (filter (fun c => printable c = true) (chars name)) in
  Forall whole o /\ shown o /\ trim (of_chars o) = of_chars o /\ chars (of_chars o) = o /\ valid (of_chars o) = true.
Proof using.
  intros Hv o. destruct (collapse_shown false false (filter (fun c => printable c = true) (chars name))) as (HW & HP & HS & HL & HH).
  { apply Forall_forall. intros c [Hp Hc]%list_elem_of_filter. split; [|done].
    pose proof (chars_whole name Hv) as Hall. rewrite Forall_forall in Hall. by apply Hall. }
  fold o in HW, HP, HS, HL, HH. specialize (HH eq_refl). destruct (of_chars_whole o HW) as [Hvo Hco].
  split_and!; [done|done| |done|done]. unfold trim. by rewrite Hco, trim_chars_id.
Qed.

Lemma shown_fixed cs : Forall whole cs -> shown cs -> collapse false false (filter (fun c => printable c = true) cs) = cs.
Proof using.
  intros _ [Hp Hs Hh Hl]. rewrite (filter_all printable) by (eapply Forall_impl; [exact Hp|by intros c [? _]]).
  by apply collapse_id.
Qed.

Lemma trim_shown s b : valid s = true -> shown (chars s ++ b) -> shown (chars (trim s)).
Proof using.
  intros Hv Hs. destruct (trim_spec s Hv) as [_ ->]. destruct (shown_infix [] _ _ Hs) as [Hp Hsg].
  destruct (trim_chars_infix (chars s)) as (x & y & Hxy). rewrite Hxy in Hp, Hsg.
  apply Forall_app in Hp as [_ [Hp _]%Forall_app]. apply single_app in Hsg as [_ [Hsg _]%single_app].
  by destruct (trim_chars_edges (chars s)).
Qed.

Lemma trim_len s : valid s = true -> len (trim s) <= len s.
Proof using.
  intros Hv. destruct (trim_infix s Hv) as (a & b & Hs). rewrite Hs at 2. rewrite !len_app.
  pose proof (len_nonneg a). pose proof (len_nonneg b). lia.
Qed.

(** A name that is fit already is left as it is. *)
Lemma clean_fixed r :
  valid r = true -> len r <= 90 -> shown (chars r) -> existsb is_alphanumeric (chars r) = true -> clean_name is_alphanumeric r = r.
Proof using.
  intros Hv Hl Hs Ha. assert (Ht : trim r = r) by (unfold trim; destruct Hs; by rewrite trim_chars_id, of_chars_chars).
  unfold clean_name. rewrite shown_fixed by (done || by apply chars_whole). rewrite of_chars_chars, Ht, Ha by done. cbn [negb].
  destruct (cut_spec r Hv) as (_ & _ & _ & _ & Hcut). by rewrite Hcut.
Qed.

Lemma clean_name_shown name :
  valid name = true ->
  let r := clean_name is_alphanumeric name in valid r = true /\ len r <= 90 /\ shown (chars r).
Proof using.
  intros Hv r. destruct (tidy_shown name Hv) as (HW & HS & Ht & Hc & Hvo). subst r. unfold clean_name. rewrite Ht, Hc.
  set (o := collapse _ _ _) in *. destruct (existsb is_alphanumeric o); cbn [negb]; [|by split_and!].
  destruct (cut_spec (of_chars o) Hvo) as (p & [k Hp] & Hcut & Hlen & _). rewrite Hc in Hp.
  assert (HWp : Forall whole p) by (rewrite Hp in HW; by apply Forall_app in HW as [? _]).
  destruct (of_chars_whole p HWp) as [Hvp Hcp]. rewrite Hcut in Hlen |- *. split_and!.
  - by apply trim_spec.
  - pose proof (trim_len (of_chars p) Hvp). lia.
  - apply (trim_shown _ k); [done|]. by rewrite Hcp, <- Hp.
Qed.
End Clean.

(** ** Properties *)

Lemma shown_no_nul s : valid s = true -> shown (chars s) -> has_nul s = false.
Proof.
  intros Hv [Hp _ _ _]. unfold has_nul. apply not_true_is_false. intros (b & Hb & Hz)%existsb_exists. apply Z.eqb_eq in Hz.
  apply list_elem_of_In in Hb. pose proof (ascii_in_chars s b Hv Hb ltac:(lia)) as Hin. rewrite Hz in Hin.
  rewrite Forall_forall in Hp. by destruct (Hp 0 Hin) as [? _].
Qed.

(** C30: whatever string a client or an administrator sets, and whatever characters count as
    letters or digits, the name that goes on the air is UTF-8 of at most 90 bytes, without
    control or invisible formatting characters, without white space at its ends, and with
    single spaces only in between.  If the property service takes values of less than 92 bytes
    without a NUL for the name's property, the device then carries that name, or the default
    name if nothing is left; and setting that name again changes nothing, provided it has a
    letter or digit: [clean_name] looks for one in what it is given before it cuts, so that a name
    of ninety dots and then a letter comes out as ninety dots, which set again comes out empty
    ([ToyDevice.name_of_dots]). *)
Theorem any_name_is_fit is_alphanumeric accepts name ps :
  (forall v, len v < 92 -> has_nul v = false -> accepts NAME_PROP v = true) -> valid name = true ->
  let r := clean_name is_alphanumeric name in
  let ps' := set_device_name is_alphanumeric accepts name ps in
  valid r = true /\ len r <= 90 /\ shown (chars r) /\
  device_name ps' = (if is_empty r then device_name (delete NAME_PROP ps) else r) /\
  (existsb is_alphanumeric (chars r) = true -> set_device_name is_alphanumeric accepts r ps' = ps').
Proof.
  intros Hacc Hv r ps'. destruct (clean_name_shown is_alphanumeric name Hv) as (Hvr & Hlr & Hsr). fold r in Hvr, Hlr, Hsr.
  pose proof (shown_no_nul r Hvr Hsr) as Hn. assert (Hps' : ps' = <[NAME_PROP := r]> ps).
  { unfold ps', set_device_name. fold r. unfold write_property. change (has_nul NAME_PROP) with false. cbn [orb].
    destruct (is_empty r) eqn:He.
    - destruct r; [|done]. by rewrite Hacc.
    - rewrite Hn, Hacc by (done || lia). done. }
  split_and!; [done..| |].
  - rewrite Hps'. unfold device_name, read_property. rewrite lookup_insert_eq. destruct (is_empty r) eqn:He.
    + rewrite lookup_delete_eq. by rewrite lookup_insert_ne, lookup_delete_ne by done.
    + unfold from_utf8. by rewrite Hvr.
  - intros Ha. rewrite Hps'. unfold set_device_name. rewrite clean_fixed by done.
    destruct (is_empty r) eqn:He; [by destruct r|]. unfold write_property. change (has_nul NAME_PROP) with false.
    rewrite Hn, Hacc by (done || lia). cbn. by rewrite insert_insert_eq.
Qed.

(** ** On names people try *)

Module ToyDevice.

Definition ascii_alphanumeric (c : Z) : bool := between 48 57 c || between 65 90 c || between 97 122 c.
Definition service (name value : list byte) : bool := len value <? 92.

Lemma any_name_is_fit_witness :
  let ps := set_device_name ascii_alphanumeric service (str "  My    phone ") empty in
  device_name ps = str "My phone" /\ set_device_name ascii_alphanumeric service (str "My phone") ps = ps.
Proof.
  destruct (any_name_is_fit ascii_alphanumeric service (str "  My    phone ") empty) as (_ & _ & _ & Hd & Hi);
    [intros v Hl _; apply Z.ltb_lt; exact Hl|vm_compute; reflexivity|].
  split; [exact Hd|]. apply Hi. vm_compute. reflexivity.
Defined.

(** Whether a name has a letter is looked at before it is cut: ninety dots and a letter are
    advertised as ninety dots, and ninety dots as nothing. *)
Example name_of_dots :
  clean_name ascii_alphanumeric (replicate 90 (to_u8 46) ++ str "A") = replicate 90 (to_u8 46) /\
  clean_name ascii_alphanumeric (replicate 90 (to_u8 46)) = [].
Proof. split; vm_compute; reflexivity. Qed.

(** A plus sign is a digit's place to [from_str_radix]. *)
Example not_a_mac : parse_mac (str "+1:22:33:44:55:66") = Some (to_u8 <$> [0x1; 0x22; 0x33; 0x44; 0x55; 0x66]).
Proof. vm_compute. reflexivity. Qed.

End ToyDevice.
