(* ===== verification/Visibility.v ===== *)
(** * What the device is permitted to do, and when it can be seen ([sharingd/src/main.rs])

    The policy, the visibility window with its timers ([setDiscoverable], [setPolicy]) and what
    the client says about itself ([setActive]).  The theorem says that the device is visible
    only while it may receive, and only for as long as it was asked to be. *)

From stdpp Require Import gmap.
From S2P Require Import Prelude Utf8 Utf16 Text Device.

(** ** Policy *)

Definition MODE_OFF : Z := 0.
Definition MODE_RECEIVE : Z := 1.
Definition MODE_SEND : Z := 2.
Definition MODE_BOTH : Z := 3.

Definition allows_receive (mode : Z) : bool := (mode =? MODE_RECEIVE) || (mode =? MODE_BOTH).
Definition allows_send (mode : Z) : bool := (mode =? MODE_SEND) || (mode =? MODE_BOTH).

Record TarishPolicy : Type := mkPolicy {
  airdrop : Z;
  quickshare : Z;
  requireConfirmation : bool;
  deviceName : list byte;
  airdropManaged : bool;
  quickshareManaged : bool;
  requireConfirmationManaged : bool;
  deviceNameManaged : bool;
  requirePin : bool;
  requirePinManaged : bool
}.

Definition denied_policy : TarishPolicy := mkPolicy MODE_OFF MODE_OFF true [] false false false false true false.

(** ** The service *)

(** The thread that ends a window: asleep, about to switch visibility off, or gone. *)
Inductive Pc : Type := TimerWake (gen : Z) | TimerStore | Ended.

(** [sta_freq] starts at [i32::MIN].  [shown] is when and for how long visibility was granted. *)
Record Service : Type := mkService {
  now : Z;
  policy : TarishPolicy;
  auto_accept : bool;
  require_pin : bool;
  discoverable : bool;
  visibility_generation : Z;
  active : bool;
  sta_freq : Z;
  props : Properties;
  timers : list (Pc * Z);
  granted : list (Z * Z)
}.

(** [initial]: [persist.tarish.discoverable] is set. *)
Definition boot (initial : bool) (ps : Properties) : Service :=
  mkService 0 denied_policy false true initial 0 false (- 2 ^ 31) ps [] [].

Definition initially (ps : Properties) : bool :=
  match read_property (str "persist.tarish.discoverable") ps with
  | Some v => bool_decide (v = str "1") || eq_ignore_ascii_case v (str "true")
  | None => false
  end.

Definition set_now (t : Z) (s : Service) : Service :=
  mkService t (policy s) (auto_accept s) (require_pin s) (discoverable s) (visibility_generation s) (active s) (sta_freq s) (props s) (timers s) (granted s).
Definition set_discoverable (b : bool) (s : Service) : Service :=
  mkService (now s) (policy s) (auto_accept s) (require_pin s) b (visibility_generation s) (active s) (sta_freq s) (props s) (timers s) (granted s).
Definition set_generation (g : Z) (s : Service) : Service :=
  mkService (now s) (policy s) (auto_accept s) (require_pin s) (discoverable s) g (active s) (sta_freq s) (props s) (timers s) (granted s).
Definition set_timers (ts : list (Pc * Z)) (s : Service) : Service :=
  mkService (now s) (policy s) (auto_accept s) (require_pin s) (discoverable s) (visibility_generation s) (active s) (sta_freq s) (props s) ts (granted s).
Definition grant (n : Z) (s : Service) : Service :=
  mkService (now s) (policy s) (auto_accept s) (require_pin s) (discoverable s) (visibility_generation s) (active s) (sta_freq s) (props s) (timers s)
    (granted s ++ [(now s, n)]).
Definition set_rules (p : TarishPolicy) (s : Service) : Service :=
  mkService (now s) p (auto_accept s) (require_pin s) (discoverable s) (visibility_generation s) (active s) (sta_freq s) (props s) (timers s) (granted s).
Definition set_switches (accept pin : bool) (s : Service) : Service :=
  mkService (now s) (policy s) accept pin (discoverable s) (visibility_generation s) (active s) (sta_freq s) (props s) (timers s) (granted s).
Definition set_props (ps : Properties) (s : Service) : Service :=
  mkService (now s) (policy s) (auto_accept s) (require_pin s) (discoverable s) (visibility_generation s) (active s) (sta_freq s) ps (timers s) (granted s).
Definition set_activity (a : bool) (f : Z) (s : Service) : Service :=
  mkService (now s) (policy s) (auto_accept s) (require_pin s) (discoverable s) (visibility_generation s) a f (props s) (timers s) (granted s).

Inductive Status : Type := StOk | StPermissionDenied.

(** A positive duration starts a timer; a call supersedes the timers before it. *)
Definition setDiscoverable (on : bool) (duration_seconds : Z) (s : Service) : Status * Service :=
  if on && negb (allows_receive (airdrop (policy s))) then (StPermissionDenied, s)
  else
    let gen := visibility_generation s + 1 in
    let s := set_generation gen s in
    let s := if on && (0 <? duration_seconds)
             then set_timers (timers s ++ [(TimerWake gen, now s + duration_seconds * 1000)]) s else s in
    let s := if on then grant duration_seconds s else s in
    (StOk, set_discoverable on s).

Definition timer_step (p : Pc) (s : Service) : Service * Pc :=
  match p with
  | TimerWake gen => (s, if visibility_generation s =? gen then TimerStore else Ended)
  | TimerStore => (set_discoverable false s, Ended)
  | Ended => (s, Ended)
  end.

Section Calls.
Context (is_alphanumeric : Z -> bool) (accepts : list byte -> list byte -> bool).

Definition setPolicy (p : TarishPolicy) (s : Service) : Service :=
  let s := set_switches (negb (requireConfirmation p)) (requirePin p) s in
  let s := if negb (is_empty (deviceName p)) then set_props (set_device_name is_alphanumeric accepts (deviceName p) (props s)) s else s in
  let s := if negb (allows_receive (airdrop p)) && discoverable s then set_discoverable false s else s in
  set_rules p s.

Definition setDeviceName (name : list byte) (s : Service) : Status * Service :=
  if deviceNameManaged (policy s) then (StPermissionDenied, s)
  else (StOk, set_props (set_device_name is_alphanumeric accepts name (props s)) s).

Definition STA_FREQ_PROP : list byte := str "tarish.awdl.sta_freq".

(** [i32::to_string]. *)
Definition show_i32 (n : Z) : list byte := if n <? 0 then str "-" ++ show (- n) else show n.

(** A frequency in the Wi-Fi bands; -1: the adapter is off; 0: no news. *)
Definition reported (sta_frequency_mhz : Z) : Z :=
  if between 2000 7200 sta_frequency_mhz then sta_frequency_mhz else if sta_frequency_mhz <? 0 then -1 else 0.
Definition known_band (known r : Z) : Z :=
  if r =? -1 then -1 else if (r =? 0) && (0 <? known) then known else r.

Definition setActive (a : bool) (sta_frequency_mhz : Z) (s : Service) : Service :=
  let f := known_band (sta_freq s) (reported sta_frequency_mhz) in
  let s := if negb (sta_freq s =? f) then set_props (write_property accepts STA_FREQ_PROP (show_i32 f) (props s)).2 s else s in
  set_activity a f s.

(** Calls come one at a time, on the one binder thread, and a timer's steps commute with what a
    call does before its last store; so a call is a step. *)
Inductive Label : Type :=
| SetDiscoverable (on : bool) (duration_seconds : Z)
| SetPolicy (p : TarishPolicy)
| SetDeviceName (name : list byte)
| SetActive (a : bool) (sta_frequency_mhz : Z)
| Timer (i : nat)
| Tick (t : Z).

Definition step (l : Label) (s : Service) : option Service :=
  match l with
  | SetDiscoverable on n => Some (setDiscoverable on n s).2
  | SetPolicy p => Some (setPolicy p s)
  | SetDeviceName name => Some (setDeviceName name s).2
  | SetActive a f => Some (setActive a f s)
  | Timer i =>
      match timers s !! i with
      | Some (p, ready) =>
          if ready <=? now s then let (s, p) := timer_step p s in Some (set_timers (<[i := (p, now s)]> (timers s)) s) else None
      | None => None
      end
  | Tick t => if now s <=? t then Some (set_now t s) else None
  end.

(** No timer is kept from running for longer than [d]. *)
Definition prompt (d t : Z) (s : Service) : bool :=
  forallb (fun th : Pc * Z => match th.1 with Ended => true | _ => t <=? th.2 + d end) (timers s).
Definition allowed (d : Z) (l : Label) (s : Service) : bool := match l with Tick t => prompt d t s | _ => true end.

Fixpoint run (d : Z) (ls : list Label) (s : Service) : option Service :=
  match ls with
  | [] => Some s
  | l :: ls => if allowed d l s then match step l s with Some s => run d ls s | None => None end else None
  end.
End Calls.

(** ** Lemmas *)

Section Runs.
Context (is_alphanumeric : Z -> bool) (accepts : list byte -> list byte -> bool) (d : Z) (initial : bool).
Hypothesis Hd : 0 <= d.

(** A timer of the newest window, or one that is about to end it. *)
Definition ends (s : Service) (by_ : Z) (th : Pc * Z) : Prop :=
  match th.1 with
  | TimerWake g => g = visibility_generation s /\ th.2 <= by_
  | TimerStore => th.2 <= by_ + d
  | Ended => False
  end.

(** The last grant still runs: it has no end, or a timer is set for it. *)
Definition runs (s : Service) : Prop :=
  exists t n, last (granted s) = Some (t, n) /\ (n <= 0 \/ exists i th, timers s !! i = Some th /\ ends s (t + n * 1000) th).

Record inv (s : Service) : Prop := mkInv {
  inv_late : forall i p r, timers s !! i = Some (p, r) -> p <> Ended -> now s <= r + d;
  inv_gens : forall i g r, timers s !! i = Some (TimerWake g, r) -> g <= visibility_generation s;
  inv_permitted : discoverable s = true -> allows_receive (airdrop (policy s)) = true \/ (initial = true /\ policy s = denied_policy);
  inv_runs : discoverable s = true -> (initial = true /\ granted s = []) \/ runs s
}.

Lemma boot_inv ps : inv (boot initial ps).
Proof using. split; cbn; try done; intros ->; [by right|by left]. Qed.

(** What does not touch visibility. *)
Lemma vis_frame_inv s s' :
  now s' = now s -> timers s' = timers s -> visibility_generation s' = visibility_generation s -> granted s' = granted s ->
  (discoverable s' = true -> discoverable s = true /\ (policy s' = policy s \/ allows_receive (airdrop (policy s')) = true)) ->
  inv s -> inv s'.
Proof using.
  intros Hn Ht Hg Hgr Hds [H1 H2 H3 H4]. split; rewrite ?Ht, ?Hn, ?Hg, ?Hgr; try done.
  - intros Ho. destruct (Hds Ho) as [Ho' [->|Ha]]; [by apply H3|by left].
  - intros Ho. destruct (Hds Ho) as [Ho' _]. destruct (H4 Ho') as [?|(t & n & Hin & Hor)]; [by left|right].
    exists t, n. rewrite Hgr. split; [done|]. destruct Hor as [?|(i & [p r] & Hi & He)]; [by left|right]. exists i, (p, r).
    rewrite Ht. split; [done|]. destruct p; cbn in *; by rewrite ?Hg.
Qed.

Lemma vis_tick_inv t s : now s <= t -> prompt d t s = true -> inv s -> inv (set_now t s).
Proof using.
  intros Ht Hp [H1 H2 H3 H4]. split; try done. intros i p r Hi Hne. unfold prompt in Hp. rewrite forallb_forall in Hp.
  specialize (Hp (p, r) ltac:(apply list_elem_of_In; by eapply list_elem_of_lookup_2)). cbn in Hp |- *. destruct p; try done; lia.
Qed.

Lemma setDiscoverable_inv on n s : inv s -> inv (setDiscoverable on n s).2.
Proof using Hd.
  intros Hinv. unfold setDiscoverable. destruct (on && negb (allows_receive (airdrop (policy s)))) eqn:Hp; [done|]. destruct Hinv as [H1 H2 H3 H4].
  destruct on; cbn [andb] in *.
  2:{ split; cbn; try done. intros i g r Hi. specialize (H2 i g r Hi). lia. }
  apply negb_false_iff in Hp. destruct (0 <? n) eqn:Hn; cbn [snd]; split; cbn; try (intros _; by left).
  - intros i p r. rewrite lookup_app_Some. intros [Hi|[_ Hi]]; [by eapply H1|]. apply list_lookup_singleton_Some in Hi as [_ [= <- <-]]. lia.
  - intros i g r. rewrite lookup_app_Some. intros [Hi|[_ Hi]]; [specialize (H2 i g r Hi); lia|].
    apply list_lookup_singleton_Some in Hi as [_ [= <- <-]]. done.
  - intros _. right. exists (now s), n. split; [cbn; apply last_snoc|]. right.
    exists (length (timers s)). eexists. cbn. rewrite lookup_app_r, Nat.sub_diag by done. split; [done|]. cbn. lia.
  - done.
  - intros i g r Hi. specialize (H2 i g r Hi). lia.
  - intros _. right. exists (now s), n. split; [cbn; apply last_snoc|]. left. lia.
Qed.

Lemma timer_inv i p r s s1 p1 :
  timers s !! i = Some (p, r) -> r <= now s -> timer_step p s = (s1, p1) -> inv s -> inv (set_timers (<[i := (p1, now s1)]> (timers s1)) s1).
Proof using Hd.
  intros Hi Hr Hst [H1 H2 H3 H4]. pose proof (lookup_lt_Some _ _ _ Hi) as Hlt.
  assert (Hother : forall (ts : list (Pc * Z)) j x, (i < length ts)%nat -> <[i := x]> ts !! j = Some x \/ <[i := x]> ts !! j = (ts : list (Pc * Z)) !! j).
  { intros ts j x Hl. destruct (decide (i = j)) as [->|]; [left; by apply list_lookup_insert_eq|right; by apply list_lookup_insert_ne]. }
  assert (Hs1 : now s1 = now s /\ timers s1 = timers s /\ visibility_generation s1 = visibility_generation s /\ granted s1 = granted s /\ policy s1 = policy s /\
                (discoverable s1 = true -> discoverable s = true) /\ (forall g, p1 <> TimerWake g)).
  { destruct p; cbn in Hst; simplify_eq; cbn; split_and!; try done. destruct (_ =? _); done. }
  destruct Hs1 as (En & Et & Eg & Egr & Ep & Eds & Hp1). split; cbn; rewrite ?En, ?Et, ?Eg, ?Egr, ?Ep.
  - intros j q u Hj Hne. destruct (Hother (timers s) j (p1, now s) Hlt) as [E|E]; rewrite E in Hj; [simplify_eq; lia|by eapply H1].
  - intros j g u Hj. destruct (Hother (timers s) j (p1, now s) Hlt) as [E|E]; rewrite E in Hj; [simplify_eq; by destruct (Hp1 g)|by eapply H2].
  - intros Ho. by apply H3, Eds.
  - intros Ho. destruct (H4 (Eds Ho)) as [?|(t & n & Hin & Hor)]; [by left|right]. exists t, n. cbn. rewrite Egr. split; [done|].
    destruct Hor as [?|(j & [q u] & Hj & He)]; [by left|right]. destruct (decide (i = j)) as [->|Hne].
    + assert (q = p /\ u = r) as [-> ->] by (by simplify_eq). exists j, (p1, now s). cbn. split; [by apply list_lookup_insert_eq|].
      specialize (H1 j p r Hj). destruct p; cbn in He; try done.
      * destruct He as [-> He]. cbn in Hst. rewrite Z.eqb_refl in Hst. simplify_eq. cbn. specialize (H1 ltac:(done)). lia.
      * cbn in Hst. by simplify_eq.
    + exists j, (q, u). cbn. rewrite list_lookup_insert_ne by done. split; [done|]. destruct q; cbn in *; by rewrite ?Eg.
Qed.

Lemma vis_run_inv ls s s' : run is_alphanumeric accepts d ls s = Some s' -> inv s -> inv s'.
Proof using Hd.
  revert s. induction ls as [|l ls IH]; cbn [run]; intros s Hr Hinv; [by injection Hr as <-|].
  destruct (allowed d l s) eqn:Ha; [|done]. destruct (step _ _ l s) as [s1|] eqn:Hs; [|done]. apply (IH s1 Hr).
  destruct l as [on n|p|name|a f|i|t]; cbn in Hs, Ha.
  - injection Hs as <-. by apply setDiscoverable_inv.
  - injection Hs as <-. unfold setPolicy. destruct (negb (allows_receive (airdrop p))) eqn:Hp; cbn [andb].
    + apply (vis_frame_inv s); [by repeat case_match..| |done]. intros Ho. exfalso. revert Ho. repeat case_match; cbn in *; congruence.
    + apply negb_false_iff in Hp. apply (vis_frame_inv s); [by repeat case_match..| |done]. cbn. intros Ho. split; [by repeat case_match|by right].
  - injection Hs as <-. unfold setDeviceName. destruct (deviceNameManaged _); [done|]. apply (vis_frame_inv s); try done. intros Ho. split; [done|by left].
  - injection Hs as <-. unfold setActive. apply (vis_frame_inv s); [by repeat case_match..| |done]. intros Ho. split; [by repeat case_match|left; by repeat case_match].
  - destruct (timers s !! i) as [[p r]|] eqn:Hi; [|done]. destruct (r <=? now s) eqn:Hle; [|done].
    destruct (timer_step p s) as [s2 p1] eqn:Hst. injection Hs as <-. eapply timer_inv; [done|lia|done|done].
  - destruct (now s <=? t) eqn:Ht; [|done]. injection Hs as <-. apply vis_tick_inv; [lia|done..].
Qed.
End Runs.

(** ** Properties *)

(** C24: the device can be seen only while it is permitted to receive, and for no longer than it
    was asked to be.  However calls and timers interleave, if a timer that is due runs within
    [d], then while the device is discoverable its policy allows AirDrop to receive, and the
    last call that made it visible set no end, or its time is not over (but for two delays); the
    one exception is the developer's property that makes it visible from the start, until the
    first policy or call arrives. *)
Theorem visible_only_while_permitted is_alphanumeric accepts d initial ps ls s :
  0 <= d -> run is_alphanumeric accepts d ls (boot initial ps) = Some s -> discoverable s = true ->
  (allows_receive (airdrop (policy s)) = true \/ (initial = true /\ policy s = denied_policy)) /\
  ((initial = true /\ granted s = []) \/
   exists t n, last (granted s) = Some (t, n) /\ (n <= 0 \/ now s <= t + n * 1000 + 2 * d)).
Proof.
  intros Hd Hr Ho. destruct (vis_run_inv is_alphanumeric accepts d initial Hd ls _ s Hr (boot_inv d initial ps)) as [H1 _ H3 H4].
  split; [by apply H3|]. destruct (H4 Ho) as [?|(t & n & Hin & Hor)]; [by left|right]. exists t, n. split; [done|].
  destruct Hor as [?|(i & [p r] & Hi & He)]; [by left|right]. specialize (H1 i p r Hi). destruct p; cbn in He; [| |done]; specialize (H1 ltac:(done)); lia.
Qed.

(** ** Runs *)

Module ToyVisibility.

Definition letters (c : Z) : bool := between 97 122 c.
Definition any_write (name value : list byte) : bool := true.
Definition receiving : TarishPolicy := mkPolicy MODE_BOTH MODE_BOTH true [] false false false false true false.
Definition after (ls : list Label) : Service :=
  match run letters any_write 100 ls (boot false empty) with Some s => s | None => boot false empty end.

Definition shown_a_minute : list Label := [SetDiscoverable true 60; SetPolicy receiving; SetDiscoverable true 60; Tick 59000].

Lemma visible_only_while_permitted_witness :
  discoverable (after shown_a_minute) = true /\ last (granted (after shown_a_minute)) = Some (0, 60) /\
  allows_receive (airdrop (policy (after shown_a_minute))) = true.
Proof.
  split; [vm_compute; reflexivity|]. split; [vm_compute; reflexivity|].
  destruct (visible_only_while_permitted letters any_write 100 false empty shown_a_minute (after shown_a_minute)) as [[Ha|[Ha _]] _];
    [lia|vm_compute; reflexivity|vm_compute; reflexivity|exact Ha|discriminate Ha].
Defined.

(** A minute later the timer has switched it off; a policy that withdraws the permission does so
    at once. *)
Example hidden_again :
  discoverable (after (shown_a_minute ++ [Tick 60000; Timer 0; Timer 0])) = false /\
  discoverable (after (shown_a_minute ++ [SetPolicy denied_policy])) = false.
Proof. vm_compute. by split. Qed.

(** A timer that has found its own window to be the newest switches off the one that is opened
    just then. *)
Example earlier_timer_hides_a_later_window :
  let s := after (shown_a_minute ++ [Tick 60000; Timer 0; SetDiscoverable true 600; Timer 0]) in
  discoverable s = false /\ last (granted s) = Some (60000, 600).
Proof. vm_compute. by split. Qed.

(** The band is forgotten when the adapter is off, and only then. *)
Example band_is_remembered :
  sta_freq (after [SetActive true 2437; SetActive true 0]) = 2437 /\
  sta_freq (after [SetActive true 2437; SetActive true (-1); SetActive true 0]) = 0.
Proof. vm_compute. by split. Qed.

End ToyVisibility.
