(* ===== verification/Radio.v ===== *)
(** * Who gets the radio ([sharingd/src/main.rs], [start_radio_gate])

    The thread that tells the AWDL daemon, through a system property, whether the radio is
    wanted.  One round of its loop is a function of what it reads; the theorem says, of any
    history of rounds, when the radio is wanted and that the property follows. *)

From S2P Require Import Prelude Utf8 Utf16 Text Device Visibility Transfers.

(** Milliseconds. *)
Definition LINGER : Z := 30 * 1000.

Section Radio.
Context {Sock File Group : Type}.

(** What one round reads: the clock, the policy, the client's foreground flag, the transfer
    table, visibility and the property; and whether the property can be written. *)
Record Round : Type := mkRound {
  at_ : Z;
  rules : TarishPolicy;
  foreground : bool;
  transfers : @Transfers.St Sock File Group;
  visible : bool;
  live : option (list byte);
  writes : bool
}.

(** What the thread keeps; the flags that only decide what it logs are left out. *)
Record Gate : Type := mkGate {
  applied : option bool;
  idle_since : option Z;
  ever_busy : bool;
  next_try : option Z;
  failures : Z
}.

Definition start_gate : Gate := mkGate None None false None 0.

Definition permitted (x : Round) : bool := negb (airdrop (rules x) =? MODE_OFF).
Definition busy (x : Round) : bool :=
  foreground x || current_needs_awdl (transfers x) || airdrop_busy (transfers x) || visible x.
Definition yielded (x : Round) : bool := wifi_direct_active (transfers x).

(** The linger: the state after, and whether activity wants the radio. *)
Definition by_activity (x : Round) (g : Gate) : bool * Gate :=
  if busy x then (true, mkGate (applied g) None true (next_try g) (failures g))
  else if negb (ever_busy g) then (false, g)
  else
    let since := match idle_since g with Some t => t | None => at_ x end in
    (at_ x - since <? LINGER, mkGate (applied g) (Some since) (ever_busy g) (next_try g) (failures g)).

(** What the property says: unset is unknown. *)
Definition says (x : Round) : option bool :=
  match live x with Some v => Some (negb (bool_decide (trim v = str "0"))) | None => None end.

(** What is written in a round, if anything. *)
Inductive Write : Type := Wrote (on : bool) | Failed | NoWrite.

Definition round (x : Round) (g : Gate) : Write * Gate :=
  let (wanted, g) := by_activity x g in
  let want := permitted x && wanted && negb (yielded x) in
  let needs_write := negb (bool_decide (says x = Some want)) || negb (bool_decide (applied g = Some want)) in
  let may := match next_try g with Some t => t <=? at_ x | None => true end in
  if needs_write && may then
    if writes x then (Wrote want, mkGate (Some want) (idle_since g) (ever_busy g) None 0)
    else
      let n := Z.min u32_max (failures g + 1) in
      let wait := Z.min (10 * n) 60 in
      (Failed, mkGate (applied g) (idle_since g) (ever_busy g) (Some (at_ x + wait * 1000)) n)
  else (NoWrite, g).

Fixpoint rounds (h : list Round) (g : Gate) : Gate :=
  match h with
  | [] => g
  | x :: h => rounds h (round x g).2
  end.

(** ** Specification *)

(** Something was busy, and has been idle since a round less than [LINGER] ago. *)
Definition lingers (h : list Round) (x : Round) : Prop :=
  exists before b i after, h ++ [x] = before ++ b :: i :: after /\
    busy b = true /\ Forall (fun y => busy y = false) (i :: after) /\ at_ x - at_ i < LINGER.

Definition wanted (h : list Round) (x : Round) : Prop :=
  permitted x = true /\ yielded x = false /\ (busy x = true \/ lingers h x).

(** ** Lemmas *)

(** What the gate remembers of the rounds before. *)
Definition remembers (h : list Round) (g : Gate) : Prop :=
  (ever_busy g = false /\ Forall (fun y => busy y = false) h) \/
  (ever_busy g = true /\ idle_since g = None /\ exists before b, h = before ++ [b] /\ busy b = true) \/
  (ever_busy g = true /\ exists before b i after, h = before ++ b :: i :: after /\
     busy b = true /\ Forall (fun y => busy y = false) (i :: after) /\ idle_since g = Some (at_ i)).

Lemma round_keeps x g : ever_busy (round x g).2 = ever_busy (by_activity x g).2 /\ idle_since (round x g).2 = idle_since (by_activity x g).2.
Proof. unfold round. destruct (by_activity x g) as [w g1]. repeat case_match; done. Qed.

Lemma remembers_round h x g : remembers h g -> remembers (h ++ [x]) (round x g).2.
Proof.
  intros Hg. unfold remembers. destruct (round_keeps x g) as [-> ->]. unfold by_activity. destruct (busy x) eqn:Hx.
  { right; left. cbn. split_and!; [done..|]. by exists h, x. }
  destruct Hg as [[He Hf]|[(He & Hi & before & b & -> & Hb)|(He & before & b & i & after & -> & Hb & Hf & Hi)]]; rewrite He; cbn [negb snd].
  - left. split; [done|]. apply Forall_app. split; [done|]. by repeat constructor.
  - right; right. rewrite Hi. cbn. split; [done|]. exists before, b, x, []. rewrite <- app_assoc. split_and!; try done. by repeat constructor.
  - right; right. rewrite Hi. cbn. split; [done|]. exists before, b, i, (after ++ [x]). rewrite <- app_assoc. split_and!; try done.
    rewrite app_comm_cons. apply Forall_app. split; [done|]. by repeat constructor.
Qed.

Lemma remembers_rounds h : remembers h (rounds h start_gate).
Proof.
  assert (Hall : forall k h g, remembers h g -> remembers (h ++ k) (rounds k g)).
  { induction k as [|x k IH]; intros h' g Hg; [by rewrite app_nil_r|]. cbn [rounds].
    replace (h' ++ x :: k) with ((h' ++ [x]) ++ k) by (by rewrite <- app_assoc). by apply IH, remembers_round. }
  apply (Hall h []). by left.
Qed.

(** There is one last busy round. *)
Lemma last_busy_unique before b i after before' b' i' after' :
  before ++ b :: i :: after = before' ++ b' :: i' :: after' ->
  busy b = true -> busy b' = true -> Forall (fun y => busy y = false) (i :: after) -> Forall (fun y => busy y = false) (i' :: after') -> i = i'.
Proof.
  intros Heq Hb Hb' Hf Hf'.
  assert (Hone : forall k (l l' : list Round), k ++ b' :: l' = b :: l -> Forall (fun y => busy y = false) l -> k = []).
  { intros [|c k] l l' Hk Hl; [done|]. injection Hk as -> Hk. exfalso. rewrite <- Hk in Hl. apply Forall_app in Hl as [_ [Hl _]%Forall_cons]. congruence. }
  assert (Hone' : forall k (l l' : list Round), k ++ b :: l' = b' :: l -> Forall (fun y => busy y = false) l -> k = []).
  { intros [|c k] l l' Hk Hl; [done|]. injection Hk as -> Hk. exfalso. rewrite <- Hk in Hl. apply Forall_app in Hl as [_ [Hl _]%Forall_cons]. congruence. }
  apply app_eq_app in Heq as [k [[-> Hk]|[-> Hk]]].
  - assert (k = []) as -> by (by eapply Hone'). by injection Hk.
  - assert (k = []) as -> by (by eapply Hone). by injection Hk.
Qed.

Lemma by_activity_spec h x g : remembers h g -> (by_activity x g).1 = true <-> busy x = true \/ lingers h x.
Proof.
  intros Hg. unfold by_activity. destruct (busy x) eqn:Hx; [split; [by left|done]|].
  destruct Hg as [[He Hf]|[(He & Hi & before & b & -> & Hb)|(He & before & b & i & after & -> & Hb & Hf & Hi)]]; rewrite He; cbn [negb fst].
  - split; [done|]. intros [|(before & b & i & after & Heq & Hb & _)]; [done|].
    assert (Hall : Forall (fun y => busy y = false) (h ++ [x])) by (apply Forall_app; split; [done|by repeat constructor]).
    rewrite Heq in Hall. apply Forall_app in Hall as [_ [Hall _]%Forall_cons]. congruence.
  - rewrite Hi. split.
    + intros _. right. exists before, b, x, []. rewrite <- app_assoc. split_and!; try done; [by repeat constructor|]. unfold LINGER. lia.
    + intros _. apply Z.ltb_lt. unfold LINGER. lia.
  - rewrite Hi, Z.ltb_lt.
    assert (Hf' : Forall (fun y => busy y = false) (i :: (after ++ [x]))).
    { rewrite app_comm_cons. apply Forall_app. split; [done|by repeat constructor]. }
    split.
    + intros Hl. right. exists before, b, i, (after ++ [x]). rewrite <- app_assoc. by split_and!.
    + intros [|(before' & b' & i' & after' & Heq & Hb' & Hf2 & Hl)]; [done|]. rewrite <- app_assoc in Heq.
      by rewrite (last_busy_unique before b i (after ++ [x]) before' b' i' after').
Qed.

(** A delay comes from a write that failed. *)
Definition delayed (h : list Round) (g : Gate) : Prop :=
  forall t, next_try g = Some t ->
    exists a y b, h = a ++ y :: b /\ (round y (rounds a start_gate)).1 = Failed /\ t <= at_ y + 60 * 1000.

Lemma next_by_activity x g : next_try (by_activity x g).2 = next_try g.
Proof. unfold by_activity. by repeat case_match. Qed.

Lemma rounds_snoc h x g : rounds (h ++ [x]) g = (round x (rounds h g)).2.
Proof. revert g. induction h as [|y h IH]; intros g; [done|]. apply IH. Qed.

Lemma delayed_rounds h : delayed h (rounds h start_gate).
Proof.
  induction h as [|x h IH] using rev_ind; [done|]. rewrite rounds_snoc. intros t Ht.
  destruct (round x (rounds h start_gate)) as [w g] eqn:Hr. cbn [snd] in Ht.
  assert (Hcase : (w = Failed /\ t <= at_ x + 60 * 1000) \/ next_try (rounds h start_gate) = Some t).
  { unfold round in Hr. pose proof (next_by_activity x (rounds h start_gate)) as Hn. destruct (by_activity _ _) as [u g1]. cbn [snd] in Hn.
    repeat case_match; simplify_eq/=; try done; first [left; split; [done|lia]|right; congruence]. }
  destruct Hcase as [[-> Hle]|Hn].
  - exists h, x, []. split_and!; [done| |done]. by rewrite Hr.
  - destruct (IH t Hn) as (a & y & b & -> & Hf & Hle). exists a, y, (b ++ [x]). rewrite <- app_assoc. by split_and!.
Qed.

(** ** Properties *)

(** C25: the radio is asked for exactly when AirDrop is permitted, no Wi-Fi Direct transfer holds
    it, and something needs it or did until less than thirty seconds ago.  In every history of
    rounds, what a round writes is that; a round that writes nothing has found the property
    saying it, or waits because a write failed less than a minute ago. *)
Theorem radio_follows_demand h x :
  match (round x (rounds h start_gate)).1 with
  | Wrote on => on = true <-> wanted h x
  | NoWrite =>
      (exists on, says x = Some on /\ (on = true <-> wanted h x)) \/
      (exists a y b, h = a ++ y :: b /\ (round y (rounds a start_gate)).1 = Failed /\ at_ x < at_ y + 60 * 1000)
  | Failed => writes x = false
  end.
Proof.
  set (g := rounds h start_gate). pose proof (by_activity_spec h x g (remembers_rounds h)) as Hact.
  pose proof (delayed_rounds h) as Hdel. fold g in Hdel. pose proof (next_by_activity x g) as Hnext.
  unfold round. destruct (by_activity x g) as [w g1]. cbn [fst snd] in Hact, Hnext.
  set (want := permitted x && w && negb (yielded x)).
  assert (Hwant : want = true <-> wanted h x).
  { subst want. unfold wanted. rewrite !andb_true_iff, negb_true_iff, Hact. tauto. }
  rewrite Hnext. destruct (negb _ || negb _) eqn:Hneeds; cbn [andb].
  - destruct (match next_try g with Some t => t <=? at_ x | None => true end) eqn:Hmay; cbn [fst].
    + destruct (writes x) eqn:Hw; cbn [fst]; done.
    + right. destruct (next_try g) as [t|] eqn:Ht; [|done]. destruct (Hdel t Ht) as (a & y & b & Hh & Hf & Hle).
      exists a, y, b. split_and!; [done..|lia].
  - left. apply orb_false_iff in Hneeds as [Hs _]. apply negb_false_iff, bool_decide_eq_true in Hs. by exists want.
Qed.

End Radio.

(** ** A morning *)

Module ToyRadio.

Definition sharing : TarishPolicy := mkPolicy MODE_BOTH MODE_BOTH true [] false false false false true false.
Definition nothing : @Transfers.St unit unit unit := Transfers.idle.

(** A round at [t] with the client in the foreground or not, and the property at [v]. *)
Definition at_time (t : Z) (fg : bool) (v : list byte) (w : bool) : Round := mkRound t sharing fg nothing false (Some v) w.

Definition morning : list Round :=
  [at_time 0 false (str "0") true; at_time 500 true (str "0") true; at_time 1000 false (str "1") true].

(** The radio is kept for half a minute after the client has gone, and then given up. *)
Example radio_lingers :
  (round (at_time 30999 false (str "1") true) (rounds morning start_gate)).1 = NoWrite /\
  (round (at_time 31000 false (str "1") true) (rounds morning start_gate)).1 = Wrote false /\
  (round (at_time 31000 false (str "1") false) (rounds morning start_gate)).1 = Failed.
Proof. vm_compute. by split_and!. Qed.

(** The property is put right when somebody else has changed it. *)
Example radio_is_put_right :
  (round (at_time 1500 true (str "0") true) (rounds morning start_gate)).1 = Wrote true.
Proof. vm_compute. reflexivity. Qed.

End ToyRadio.
