(* ===== verification/Window.v ===== *)
(** * The exemption from a VPN kill-switch ([sharingd/src/main.rs])

    While a client has authenticated, the daemon publishes that sharing may bypass a VPN's
    kill-switch ([setAuthenticated]).  Three things close the window again: a timer, a thread
    that keeps asking the client whether it is still there ([start_keepalive], [keepUnlocked])
    and the death of the client.  Each call and each thread is modelled one atomic operation
    at a time, and the theorem bounds the window in every interleaving of them in which two
    [setAuthenticated] do not overlap: [main] serves the binder with its own thread only, so
    that calls come one after the other.  An example shows what would happen with two. *)

From S2P Require Import Prelude.

(** Times are milliseconds. *)
Definition CHALLENGE_EVERY : Z := 5000.
Definition CHALLENGE_DEADLINE : Z := 4000.
Definition CHALLENGE_STRIKES : Z := 3.
Definition MAX_WINDOW : Z := 600.

(** What a client does: it asks for a window, whether or not the property can then be written; it
    answers a challenge. *)
Inductive Event : Type := Opened | Answered.

(** Where a call or a thread is.  [setAuthenticated] after its [fetch_add]; the thread with the
    timer; the rounds of [start_keepalive]; [shut]; [keepUnlocked] after it took a challenge
    that matches. *)
Inductive Pc : Type :=
| CallSet (authenticated : bool) (secs gen : Z)
| CallKeepalive (secs gen : Z)
| CallTimer (secs gen : Z)
| TimerWake (gen : Z)
| TimerShut
| KReset (gen : Z)
| KTop (gen : Z)
| KClear (gen : Z)
| KPost (gen : Z)
| KAsk (gen : Z)
| KStrike (gen pause : Z)
| KWake (gen : Z)
| KLook (gen : Z)
| KGood (gen : Z)
| ShutSwap (gen : Z)
| ShutForget
| ShutExempt
| AnswerStrikes (sent : Z)
| AnswerElapsed (sent : Z)
| AnswerOk
| Ended.

(** The shared state, with the time and what every thread is about to do and when it wakes.
    [auth_generation] and [keepalive_strikes] are machine integers that count calls and
    rounds.  [exempt] is what [EXEMPT_PROP] says. *)
Record Sys : Type := mkSys {
  now : Z;
  exempt : bool;
  auth_generation : Z;
  challenge : option (Z * Z);
  keepalive_ok : bool;
  keepalive_strikes : Z;
  callbacks : list Z;
  death : option Z;
  threads : list (Pc * Z);
  log : list (Z * Event)
}.

(** [main] clears the property before anything else. *)
Definition start : Sys := mkSys 0 false 0 None false 0 [] None [] [].

Definition set_now (t : Z) (s : Sys) : Sys :=
  mkSys t (exempt s) (auth_generation s) (challenge s) (keepalive_ok s) (keepalive_strikes s) (callbacks s) (death s) (threads s) (log s).
Definition set_generation (g : Z) (s : Sys) : Sys :=
  mkSys (now s) (exempt s) g (challenge s) (keepalive_ok s) (keepalive_strikes s) (callbacks s) (death s) (threads s) (log s).
Definition set_challenge (c : option (Z * Z)) (s : Sys) : Sys :=
  mkSys (now s) (exempt s) (auth_generation s) c (keepalive_ok s) (keepalive_strikes s) (callbacks s) (death s) (threads s) (log s).
Definition set_ok (b : bool) (s : Sys) : Sys :=
  mkSys (now s) (exempt s) (auth_generation s) (challenge s) b (keepalive_strikes s) (callbacks s) (death s) (threads s) (log s).
Definition set_strikes (n : Z) (s : Sys) : Sys :=
  mkSys (now s) (exempt s) (auth_generation s) (challenge s) (keepalive_ok s) n (callbacks s) (death s) (threads s) (log s).
Definition set_clients (cs : list Z) (d : option Z) (s : Sys) : Sys :=
  mkSys (now s) (exempt s) (auth_generation s) (challenge s) (keepalive_ok s) (keepalive_strikes s) cs d (threads s) (log s).
Definition set_threads (ts : list (Pc * Z)) (s : Sys) : Sys :=
  mkSys (now s) (exempt s) (auth_generation s) (challenge s) (keepalive_ok s) (keepalive_strikes s) (callbacks s) (death s) ts (log s).
Definition note (e : Event) (s : Sys) : Sys :=
  mkSys (now s) (exempt s) (auth_generation s) (challenge s) (keepalive_ok s) (keepalive_strikes s) (callbacks s) (death s) (threads s)
    (log s ++ [(now s, e)]).

(** [written]: the property service accepts the write. *)
Definition set_exempt (written on : bool) (s : Sys) : Sys :=
  if written then
    mkSys (now s) on (auth_generation s) (challenge s) (keepalive_ok s) (keepalive_strikes s) (callbacks s) (death s) (threads s) (log s)
  else s.

(** [(duration_seconds.max(0) as u64).clamp(1, MAX_WINDOW)]. *)
Definition window_secs (duration_seconds : Z) : Z := Z.min MAX_WINDOW (Z.max 1 (Z.max 0 duration_seconds)).

(** One atomic operation: the state after it, where the thread is then, how long it sleeps
    first, and the threads it starts, with how long they sleep first. *)
Definition Outcome : Type := Sys * Pc * Z * list (Pc * Z).

(** [setAuthenticated], after its [fetch_add]. *)
Definition authenticated_step (written : bool) (p : Pc) (s : Sys) : Outcome :=
  match p with
  | CallSet true secs gen =>
      (note Opened (set_exempt written true s), CallKeepalive secs gen, 0, [])
  | CallSet false _ _ => (set_exempt written false s, Ended, 0, [])
  | CallKeepalive secs gen => (s, CallTimer secs gen, 0, [(KReset gen, 0)])
  | CallTimer secs gen => (s, Ended, 0, [(TimerWake gen, secs * 1000)])
  | _ => (s, p, 0, [])
  end.

(** The thread it starts to end the window. *)
Definition expiry_step (written : bool) (p : Pc) (s : Sys) : Outcome :=
  match p with
  | TimerWake gen => (s, if auth_generation s =? gen then TimerShut else Ended, 0, [])
  | TimerShut => (set_exempt written false s, Ended, 0, [])
  | _ => (s, p, 0, [])
  end.

Definition keepalive_step (nonce : Z) (p : Pc) (s : Sys) : Outcome :=
  match p with
  | KReset gen => (set_strikes 0 s, KTop gen, 0, [])
  | KTop gen => (s, if negb (auth_generation s =? gen) then Ended else KClear gen, 0, [])
  | KClear gen => (set_ok false s, KPost gen, 0, [])
  | KPost gen => (set_challenge (Some (nonce, now s)) s, KAsk gen, 0, [])
  | KAsk gen =>
      if is_empty (callbacks s) then (s, KStrike gen CHALLENGE_EVERY, 0, [])
      else (s, KWake gen, CHALLENGE_DEADLINE, [])
  | KStrike gen pause =>
      let n := keepalive_strikes s + 1 in
      let s := set_strikes n s in
      if CHALLENGE_STRIKES <=? n then (s, ShutSwap gen, 0, []) else (s, KTop gen, pause, [])
  | KWake gen => (s, if negb (auth_generation s =? gen) then Ended else KLook gen, 0, [])
  | KLook gen => (s, if keepalive_ok s then KGood gen else KStrike gen (CHALLENGE_EVERY - CHALLENGE_DEADLINE), 0, [])
  | KGood gen => (set_strikes 0 s, KTop gen, CHALLENGE_EVERY - CHALLENGE_DEADLINE, [])
  | _ => (s, p, 0, [])
  end.

Definition shut_step (written : bool) (p : Pc) (s : Sys) : Outcome :=
  match p with
  | ShutSwap gen => (if auth_generation s =? gen then set_generation (gen + 1) s else s, ShutForget, 0, [])
  | ShutForget => (set_challenge None s, ShutExempt, 0, [])
  | ShutExempt => (set_exempt written false s, Ended, 0, [])
  | _ => (s, p, 0, [])
  end.

(** [keepUnlocked], after it has taken a challenge that matches. *)
Definition unlocked_step (p : Pc) (s : Sys) : Outcome :=
  match p with
  | AnswerStrikes sent => (set_strikes 0 s, AnswerElapsed sent, 0, [])
  | AnswerElapsed sent => (s, if CHALLENGE_DEADLINE <? now s - sent then Ended else AnswerOk, 0, [])
  | AnswerOk => (set_ok true s, Ended, 0, [])
  | _ => (s, p, 0, [])
  end.

Definition exec (written : bool) (nonce : Z) (p : Pc) (s : Sys) : Outcome :=
  match p with
  | CallSet _ _ _ | CallKeepalive _ _ | CallTimer _ _ => authenticated_step written p s
  | TimerWake _ | TimerShut => expiry_step written p s
  | KReset _ | KTop _ | KClear _ | KPost _ | KAsk _ | KStrike _ _ | KWake _ | KLook _ | KGood _ => keepalive_step nonce p s
  | ShutSwap _ | ShutForget | ShutExempt => shut_step written p s
  | AnswerStrikes _ | AnswerElapsed _ | AnswerOk => unlocked_step p s
  | Ended => (s, Ended, 0, [])
  end.

(** A thread takes one step, time passes, or a client calls or dies. *)
Inductive Label : Type :=
| Run (i : nat) (written : bool) (nonce : Z)
| Tick (t : Z)
| SetAuthenticated (authenticated : bool) (duration_seconds : Z)
| KeepUnlocked (nonce : Z)
| Register (client : Z) (linked : bool)
| Unregister (client : Z)
| Dies (client : Z) (written : bool).

Definition delayed (s : Sys) (t : Pc * Z) : Pc * Z := (t.1, now s + t.2).

Definition spawn (ts : list (Pc * Z)) (s : Sys) : Sys := set_threads (threads s ++ (delayed s <$> ts)) s.

(** The call comes in and takes the next generation. *)
Definition setAuthenticated (authenticated : bool) (duration_seconds : Z) (s : Sys) : Sys :=
  let gen := auth_generation s + 1 in
  spawn [(CallSet authenticated (window_secs duration_seconds) gen, 0)] (set_generation gen s).

Definition keepUnlocked (nonce : Z) (s : Sys) : Sys :=
  let taken := challenge s in
  let s := set_challenge None s in
  match taken with
  | Some (want, sent) =>
      if want =? nonce then spawn [(AnswerStrikes sent, 0)] (note Answered s) else s
  | None => s
  end.

(** [linked]: the client's binder can be watched; the recipient kept is the last one. *)
Definition registerCallback (c : Z) (linked : bool) (s : Sys) : Sys :=
  set_clients (if bool_decide (c ∈ callbacks s) then callbacks s else callbacks s ++ [c])
    (if linked then Some c else death s) s.
Definition unregisterCallback (c : Z) (s : Sys) : Sys := set_clients (filter (fun d => d <> c) (callbacks s)) (death s) s.

(** The recipient's callback. *)
Definition dies (c : Z) (written : bool) (s : Sys) : Sys :=
  if bool_decide (death s = Some c) then set_exempt written false s else s.

Definition step (l : Label) (s : Sys) : option Sys :=
  match l with
  | Run i written nonce =>
      match threads s !! i with
      | Some (p, ready) =>
          if ready <=? now s then
            let '(s', p', sleep, started) := exec written nonce p s in
            Some (spawn started (set_threads (<[i := delayed s (p', sleep)]> (threads s)) s'))
          else None
      | None => None
      end
  | Tick t => if now s <=? t then Some (set_now t s) else None
  | SetAuthenticated b d => Some (setAuthenticated b d s)
  | KeepUnlocked nonce => Some (keepUnlocked nonce s)
  | Register c linked => Some (registerCallback c linked s)
  | Unregister c => Some (unregisterCallback c s)
  | Dies c written => Some (dies c written s)
  end.

Definition isLockdownActive (prop : option (list byte)) : bool :=
  match prop with
  | Some v => if bool_decide (v = str "1") then true else if bool_decide (v = str "0") then false else true
  | None => true
  end.

(** ** Runs *)

(** No thread or call has been kept from running for longer than [d] when it is [t]. *)
Definition prompt (d t : Z) (s : Sys) : bool :=
  forallb (fun th : Pc * Z => match th.1 with Ended => true | _ => t <=? th.2 + d end) (threads s).

Definition is_call (p : Pc) : bool :=
  match p with CallSet _ _ _ | CallKeepalive _ _ | CallTimer _ _ => true | _ => false end.

(** The steps that clear the property. *)
Definition clears (p : Pc) : bool :=
  match p with CallSet false _ _ | TimerShut | ShutExempt => true | _ => false end.

(** What the theorem assumes of a run: threads run promptly, one [setAuthenticated] ends before
    the next begins, and the property store takes the writes of threads that clear the property.
    That it takes the others, to publish an exemption or to clear it when a client dies, is not
    assumed. *)
Definition allowed (d : Z) (l : Label) (s : Sys) : bool :=
  match l with
  | Run i written _ => written || match threads s !! i with Some (p, _) => negb (clears p) | None => true end
  | Tick t => prompt d t s
  | SetAuthenticated _ _ => forallb (fun th => negb (is_call th.1)) (threads s)
  | _ => true
  end.

Fixpoint run (ok : Label -> Sys -> bool) (ls : list Label) (s : Sys) : option Sys :=
  match ls with
  | [] => Some s
  | l :: ls => if ok l s then match step l s with Some s => run ok ls s | None => None end else None
  end.

(** ** Lemmas *)

Definition gen_of (p : Pc) : option Z :=
  match p with
  | CallSet _ _ g | CallKeepalive _ g | CallTimer _ g | TimerWake g
  | KReset g | KTop g | KClear g | KPost g | KAsk g | KStrike g _ | KWake g | KLook g | KGood g | ShutSwap g => Some g
  | _ => None
  end.

(** A call that owns the newest generation, and has not started its threads. *)
Definition early (p : Pc) : option Z :=
  match p with CallSet _ _ g | CallKeepalive _ g => Some g | _ => None end.

Definition keeper (p : Pc) : option Z :=
  match p with CallSet _ _ _ | CallKeepalive _ _ | CallTimer _ _ | TimerWake _ => None | _ => gen_of p end.

Section Bounds.
Context (d : Z).
Hypothesis Hd : 0 <= d.

(** A round of questions, every step as late as it may be. *)
Definition round : Z := 5000 + 7 * d.
Definition misses (s : Sys) : Z := Z.max 1 (CHALLENGE_STRIKES - keepalive_strikes s).
Definition misses_ok (s : Sys) : Z := if keepalive_ok s then 4 else misses s.

(** When a thread has begun to shut the window at the latest if nothing is heard. *)
Definition deadline (s : Sys) (p : Pc) (r : Z) : Z :=
  match p with
  | KReset _ => r + d + 3 * round
  | KTop _ => r + misses s * round
  | KClear _ => r - d + misses s * round
  | KPost _ => r - 2 * d + misses_ok s * round
  | KAsk _ => r - 3 * d + misses_ok s * round
  | KStrike _ pause => r + d + pause + (misses s - 1) * round
  | KWake _ => r + 3 * d + 1000 + (misses_ok s - 1) * round
  | KLook _ => r + 2 * d + 1000 + (misses_ok s - 1) * round
  | KGood _ => r + d + 1000 + 3 * round
  | _ => r
  end.

(** [x] is within [b] of an event of the log. *)
Definition within (P : Event -> Prop) (b x : Z) (l : list (Z * Event)) : Prop :=
  exists t e, (t, e) ∈ l /\ P e /\ x <= t + b.
Definition opened : Event -> Prop := eq Opened.
Definition any (e : Event) : Prop := True.

(** Who will shut the window, and when at the latest: by the timer, ... *)
Definition timed (s : Sys) (p : Pc) (r : Z) : Prop :=
  match p with
  | CallSet _ _ _ | TimerShut | ShutForget => within opened (600000 + 3 * d) r (log s)
  | ShutExempt => within opened (600000 + 4 * d) r (log s)
  | CallKeepalive _ g => g = auth_generation s /\ within opened 0 r (log s)
  | CallTimer secs g => g = auth_generation s /\ secs <= 600 /\ within opened d r (log s)
  | TimerWake g => g = auth_generation s /\ within opened (600000 + 2 * d) r (log s)
  | _ => False
  end.

(** ... and for want of answers. *)
Definition grace : Z := 20000 + 29 * d.
Definition heard (s : Sys) (p : Pc) (r : Z) : Prop :=
  match p with
  | CallSet _ _ _ | TimerShut | ShutForget => within any (grace + d) r (log s)
  | ShutExempt => within any (grace + 2 * d) r (log s)
  | CallKeepalive _ g => g = auth_generation s /\ within any 0 r (log s)
  | _ => keeper p = Some (auth_generation s) /\ within any grace (deadline s p r) (log s)
  end.

(** Whoever shuts the window whatever is heard. *)
Definition closer (p : Pc) : bool :=
  match p with CallSet _ _ _ | TimerShut | ShutForget | ShutExempt => true | _ => false end.

(** How long a thread may still sleep. *)
Definition nap (p : Pc) : Z := match p with KTop _ => 5000 | KWake _ => 4000 | _ => 0 end.
Definition naps (p : Pc) : bool := match p with TimerWake _ | Ended => false | _ => true end.

Definition sane (p : Pc) : Prop :=
  match p with
  | CallSet _ secs _ | CallKeepalive secs _ | CallTimer secs _ => 1 <= secs <= 600
  | KStrike _ pause => pause = 5000 \/ pause = 1000
  | _ => True
  end.

(** An answer that is being handled arrived a moment ago. *)
Definition answers (s : Sys) (p : Pc) (r : Z) : Prop :=
  match p with
  | AnswerStrikes _ => within any 0 r (log s)
  | AnswerElapsed _ => within any d r (log s)
  | AnswerOk => within any (2 * d) r (log s)
  | _ => True
  end.

(** A thread that may reset the strikes although its window has been superseded is about to
    retire: [t] is when the generation was last raised. *)
Definition retires (t : Z) (s : Sys) (p : Pc) (r : Z) : Prop :=
  match p with
  | KReset g | KLook g => g = auth_generation s \/ r <= t
  | KGood g => g = auth_generation s \/ r <= t + d
  | _ => True
  end.

(** What holds of every thread by itself. *)
Definition thread_ok (s : Sys) (p : Pc) (r : Z) : Prop :=
  (forall g, gen_of p = Some g -> g <= auth_generation s) /\
  (forall g, early p = Some g -> g = auth_generation s) /\
  (p <> Ended -> now s <= r + d) /\ (naps p = true -> r <= now s + nap p) /\ sane p /\ answers s p r.

Record inv (s : Sys) : Prop := mkInv {
  inv_threads : forall i p r, threads s !! i = Some (p, r) -> thread_ok s p r;
  inv_one : forall i j p q r r', threads s !! i = Some (p, r) -> threads s !! j = Some (q, r') ->
    is_call p = true -> is_call q = true -> i = j;
  inv_early : forall i j p q r r' g h, threads s !! i = Some (p, r) -> threads s !! j = Some (q, r') ->
    early p = Some g -> keeper q = Some h -> h < g;
  inv_keeper : forall i j p q r r' g, threads s !! i = Some (p, r) -> threads s !! j = Some (q, r') ->
    keeper p = Some g -> keeper q = Some g -> i = j;
  inv_strikes : 0 <= keepalive_strikes s;
  inv_timed : exempt s = true -> exists i p r, threads s !! i = Some (p, r) /\ timed s p r;
  inv_heard : exists t, t <= now s /\ (forall i p r, threads s !! i = Some (p, r) -> retires t s p r) /\
    (exempt s = true -> exists i p r, threads s !! i = Some (p, r) /\ heard s p r /\ (closer p = true \/ within opened 0 t (log s)))
}.

Lemma within_app P b x l k : within P b x l -> within P b x (l ++ k).
Proof. intros (t & e & Hin & HP & Hx). exists t, e. split_and!; [|done..]. apply elem_of_app. by left. Qed.

Lemma within_le P b c x y l : within P b x l -> y - c <= x - b -> within P c y l.
Proof. intros (t & e & Hin & HP & Hx) Hy. exists t, e. split_and!; [done..|lia]. Qed.

Lemma within_any P b x l : within P b x l -> within any b x l.
Proof. intros (t & e & Hin & _ & Hx). by exists t, e. Qed.

Lemma within_now e x l : within (eq e) 0 x (l ++ [(x, e)]).
Proof. exists x, e. split_and!; [|done|lia]. apply elem_of_app. right. by apply list_elem_of_singleton. Qed.

Lemma misses_range s : 0 <= keepalive_strikes s -> 1 <= misses s <= 3 /\ 1 <= misses_ok s <= 4.
Proof. unfold misses_ok, misses, CHALLENGE_STRIKES. destruct (keepalive_ok s); lia. Qed.

(** Whatever has been counted so far, a thread that runs now shuts within three rounds. *)
Lemma deadline_fresh s p r g :
  0 <= keepalive_strikes s -> keeper p = Some g -> thread_ok s p r ->
  r <= deadline s p r <= now s + 5000 + 5 * d + 3 * round.
Proof using Hd.
  intros Hs Hk (_ & _ & Hp & Hr & Hsane & _). destruct (misses_range s Hs). unfold round in *.
  destruct p; try discriminate Hk; specialize (Hr eq_refl); cbn in *; unfold round; nia.
Qed.

Lemma deadline_mono s s' p r :
  misses s' <= misses s -> misses_ok s' <= misses_ok s -> deadline s' p r <= deadline s p r.
Proof using Hd. intros. assert (0 <= round) by (unfold round; lia). destruct p; cbn; nia. Qed.
(** *** One step of a thread *)

Lemma exec_frame nonce p s s1 p' sl sp :
  exec true nonce p s = (s1, p', sl, sp) ->
  now s1 = now s /\ threads s1 = threads s /\ (exists k, log s1 = log s ++ k) /\
  (auth_generation s1 = auth_generation s \/
   exists g, p = ShutSwap g /\ p' = ShutForget /\ sl = 0 /\ auth_generation s = g /\ auth_generation s1 = g + 1).
Proof using.
  intros Hex. destruct p; cbn in Hex; repeat case_match; simplify_eq; cbn;
    (split_and!; [done..|first [by eexists|by exists []; rewrite app_nil_r]|]); try (by left).
  right. apply Z.eqb_eq in H. subst. by eexists.
Qed.

Lemma thread_ok_frame s s' p r k :
  now s' = now s -> log s' = log s ++ k -> auth_generation s <= auth_generation s' ->
  (early p <> None -> auth_generation s' = auth_generation s) -> thread_ok s p r -> thread_ok s' p r.
Proof using.
  intros Hn Hl Hg He (H1 & H2 & H3 & H4 & H5 & H6). split_and!; rewrite ?Hn; try done.
  - intros g Hp. specialize (H1 g Hp). lia.
  - intros g Hp. rewrite He; [by apply H2|]. by rewrite Hp.
  - destruct p; try done; cbn in *; rewrite Hl; by apply within_app.
Qed.

Ltac thread :=
  split_and!; cbn; intros; simplify_eq/=; unfold CHALLENGE_EVERY, CHALLENGE_DEADLINE in *; try done; try lia;
  try (eapply within_le; [eassumption|lia]).

Lemma exec_thread_ok nonce p r s s1 p' sl sp :
  r <= now s -> thread_ok s p r -> exec true nonce p s = (s1, p', sl, sp) ->
  thread_ok s1 p' (now s + sl) /\ Forall (fun th : Pc * Z => thread_ok s1 th.1 (now s + th.2)) sp.
Proof using Hd.
  intros Hr (H1 & H2 & H3 & _ & H5 & H6) Hex.
  destruct p as [[] secs gen|secs gen|secs gen|gen| |gen|gen|gen|gen|gen|gen pause|gen|gen|gen|gen| | |sent|sent| |];
    cbn in Hex, H5, H6;
    try (specialize (H1 _ eq_refl)); try (specialize (H2 _ eq_refl)); try (specialize (H3 ltac:(done)));
    repeat case_match; simplify_eq; (split; [|repeat apply Forall_cons_2; try apply Forall_nil_2]); thread.
Qed.
Lemma exec_kinds nonce p s s1 p' sl sp :
  exec true nonce p s = (s1, p', sl, sp) ->
  (is_call p' = true -> is_call p = true) /\ (forall g, early p' = Some g -> early p = Some g) /\
  (forall g, keeper p' = Some g -> keeper p = Some g) /\
  (sp = [] \/ exists q t, sp = [(q, t)] /\ is_call q = false /\ early q = None /\
     (forall g, keeper q = Some g -> early p = Some g /\ early p' = None)).
Proof using.
  intros Hex. destruct p as [[] secs gen|secs gen|secs gen|gen| |gen|gen|gen|gen|gen|gen pause|gen|gen|gen|gen| | |sent|sent| |];
    cbn in Hex; repeat case_match; simplify_eq; (split_and!; [done|done|done|]); try (by left); right; by eexists _, _.
Qed.

(** The threads after a step: the one that ran, the others, the one it started. *)
Lemma lookup_after (ts sp : list (Pc * Z)) i x j y :
  (i < length ts)%nat -> (sp = [] \/ exists z, sp = [z]) -> (<[i := x]> ts ++ sp) !! j = Some y ->
  (j = i /\ y = x) \/ (j <> i /\ ts !! j = Some y) \/ (j = length ts /\ sp = [y]).
Proof using.
  intros Hi Hsp. rewrite lookup_app_Some, length_insert. intros [Hj|[Hj Hy]].
  - destruct (decide (i = j)) as [->|Hne].
    + rewrite list_lookup_insert_eq in Hj by done. left. by simplify_eq.
    + rewrite list_lookup_insert_ne in Hj by done. right; left. by split.
  - destruct Hsp as [->|[z ->]]; [done|]. apply list_lookup_singleton_Some in Hy as [Hj' ->]. right; right. split; [lia|done].
Qed.

Lemma run_threads s i p r nonce s1 p' sl sp :
  threads s !! i = Some (p, r) -> exec true nonce p s = (s1, p', sl, sp) ->
  let s' := spawn sp (set_threads (<[i := delayed s (p', sl)]> (threads s)) s1) in
  (forall j q t, threads s' !! j = Some (q, t) ->
     (j = i /\ q = p' /\ t = now s + sl) \/ (j <> i /\ threads s !! j = Some (q, t)) \/
     (j = length (threads s) /\ exists u, sp = [(q, u)] /\ t = now s + u)) /\
  threads s' !! i = Some (p', now s + sl) /\
  (forall j q t, j <> i -> threads s !! j = Some (q, t) -> threads s' !! j = Some (q, t)) /\
  (forall q u, sp = [(q, u)] -> threads s' !! length (threads s) = Some (q, now s + u)).
Proof using.
  intros Hi Hex s'. destruct (exec_frame _ _ _ _ _ _ _ Hex) as (Hn & _ & _ & _). destruct (exec_kinds _ _ _ _ _ _ _ Hex) as (_ & _ & _ & Hsp).
  pose proof (lookup_lt_Some _ _ _ Hi) as Hlt. subst s'. unfold spawn. cbn [threads set_threads].
  set (s2 := set_threads _ s1). assert (Hd2 : delayed s2 = delayed s) by (unfold delayed; cbn; by rewrite Hn). rewrite Hd2. clear s2 Hd2.
  split_and!.
  - intros j q t Hj. assert (Hsp' : delayed s <$> sp = [] \/ exists z, delayed s <$> sp = [z]).
    { destruct Hsp as [->|(q' & u & -> & _)]; [by left|right; by eexists]. }
    destruct (lookup_after _ _ _ _ _ _ Hlt Hsp' Hj) as [[-> Hy]|[[Hne Hy]|[-> Hy]]].
    + left. unfold delayed in Hy. by simplify_eq/=.
    + right; left. by split.
    + right; right. split; [done|]. destruct Hsp as [->|(q' & u & -> & _)]; [done|]. unfold delayed in Hy. simplify_eq/=. by eexists.
  - rewrite lookup_app_l by (by rewrite length_insert). by rewrite list_lookup_insert_eq.
  - intros j q t Hne Hj. rewrite lookup_app_l by (rewrite length_insert; by eapply lookup_lt_Some). by rewrite list_lookup_insert_ne.
  - intros q u ->. rewrite lookup_app_r by (by rewrite length_insert). rewrite length_insert, Nat.sub_diag. done.
Qed.

(** *** The invariant is kept *)

Lemma timed_frame s s' p r k :
  log s' = log s ++ k -> auth_generation s' = auth_generation s -> timed s p r -> timed s' p r.
Proof using. intros Hl Hg. destruct p; cbn; rewrite ?Hl, ?Hg; intros; destruct_and?; split_and?; try done; by apply within_app. Qed.

Lemma heard_frame s s' p r k :
  log s' = log s ++ k -> auth_generation s' = auth_generation s -> misses s' <= misses s -> misses_ok s' <= misses_ok s ->
  heard s p r -> heard s' p r.
Proof using Hd.
  intros Hl Hg Hm Ho. pose proof (deadline_mono s s' p r Hm Ho) as Hdl. destruct p; cbn [heard]; rewrite ?Hl, ?Hg;
    try (by apply within_app); intros [Hk Hw]; (split; [done|]); apply within_app; [done|..]; eapply within_le; first [eassumption|lia].
Qed.

(** While the window is open somebody is to shut it by the timer, at the latest ... *)
Lemma timed_now s p r : thread_ok s p r -> timed s p r -> within opened (600000 + 5 * d) (now s) (log s).
Proof using Hd.
  intros (_ & _ & Hp & _ & Hs & _) Ht. destruct p; cbn in Ht, Hs; try done; specialize (Hp ltac:(done)); destruct_and?;
    (eapply within_le; [eassumption|lia]).
Qed.

(** ... or for want of answers. *)
Lemma heard_now s p r :
  0 <= keepalive_strikes s -> thread_ok s p r -> heard s p r -> within any (grace + 3 * d) (now s) (log s).
Proof using Hd.
  intros Hs Hok Ht. destruct (keeper p) as [g|] eqn:Hk.
  - pose proof (deadline_fresh s p r g Hs Hk Hok) as Hdl. destruct Hok as (_ & _ & Hp & _).
    specialize (Hp ltac:(by intros ->)). destruct p; try done; cbn [heard] in Ht; destruct Ht as [_ Ht]; (eapply within_le; [eassumption|lia]).
  - destruct Hok as (_ & _ & Hp & _). destruct p; try done; cbn [heard] in Ht; try (by destruct Ht); specialize (Hp ltac:(done));
      destruct_and?; (eapply within_le; [eassumption|unfold grace; lia]).
Qed.

Lemma closer_timed s s' p r k : log s' = log s ++ k -> closer p = true -> timed s p r -> timed s' p r.
Proof using. intros Hl. destruct p; cbn; intros; try done; rewrite Hl; by apply within_app. Qed.

Lemma closer_heard s s' p r k : log s' = log s ++ k -> closer p = true -> heard s p r -> heard s' p r.
Proof using. intros Hl. destruct p; cbn; intros; try done; rewrite Hl; by apply within_app. Qed.

(** When the generation is raised, what is left to shut the window by is not late. *)
Lemma timed_late s p r :
  thread_ok s p r -> timed s p r -> closer p = false -> (forall g, early p = Some g -> False) -> within opened (600000 + 3 * d) (now s) (log s).
Proof using Hd.
  intros (_ & _ & Hp & _ & Hs & _) Ht Hc He. destruct p; cbn in *; try done; specialize (Hp ltac:(done)); destruct_and?;
    try (by destruct (He _ eq_refl)); (eapply within_le; [eassumption|lia]).
Qed.

Section Run_.
Context (s : Sys) (i : nat) (p : Pc) (r nonce : Z) (s1 : Sys) (p' : Pc) (sl : Z) (sp : list (Pc * Z)).
Hypothesis Hinv : inv s.
Hypothesis Hi : threads s !! i = Some (p, r).
Hypothesis Hr : r <= now s.
Hypothesis Hex : exec true nonce p s = (s1, p', sl, sp).
Let s' := spawn sp (set_threads (<[i := delayed s (p', sl)]> (threads s)) s1).

Lemma run_swap :
  auth_generation s1 = auth_generation s \/
  keeper p = Some (auth_generation s) /\ p' = ShutForget /\ sl = 0 /\ auth_generation s1 = auth_generation s + 1.
Proof using All.
  destruct (exec_frame _ _ _ _ _ _ _ Hex) as (_ & _ & _ & [?|(g & -> & -> & -> & Hg & Hg1)]); [by left|]. right. cbn. by rewrite Hg.
Qed.

Lemma run_threads_ok j q t : threads s' !! j = Some (q, t) -> thread_ok s' q t.
Proof using All.
  intros Hj. destruct (run_threads s i p r nonce s1 p' sl sp Hi Hex) as (Hafter & _).
  destruct (exec_thread_ok nonce p r s s1 p' sl sp Hr (inv_threads s Hinv i p r Hi) Hex) as [Hp' Hsp].
  destruct (exec_frame _ _ _ _ _ _ _ Hex) as (Hn & _ & [k Hl] & _).
  apply Hafter in Hj as [(-> & -> & ->)|[[Hne Hj]|(-> & u & -> & ->)]]; [done| |].
  - assert (Hok : thread_ok s1 q t); [|done]. eapply thread_ok_frame; [done..| | |by eapply inv_threads].
    + destruct run_swap as [->|(_ & _ & _ & ->)]; lia.
    + intros He. destruct run_swap as [->|(Hk & _ & _ & _)]; [done|]. destruct (early q) as [g|] eqn:Heq; [|done].
      pose proof (inv_early s Hinv j i q p t r g _ Hj Hi Heq Hk). destruct (inv_threads s Hinv j q t Hj) as (_ & He' & _). specialize (He' g Heq). lia.
  - by apply Forall_cons in Hsp as [? _].
Qed.

Lemma run_one j k q u t v :
  threads s' !! j = Some (q, t) -> threads s' !! k = Some (u, v) -> is_call q = true -> is_call u = true -> j = k.
Proof using All.
  intros Hj Hk Hq Hu. destruct (run_threads s i p r nonce s1 p' sl sp Hi Hex) as (Hafter & _).
  destruct (exec_kinds _ _ _ _ _ _ _ Hex) as (Hc & _ & _ & Hsp).
  apply Hafter in Hj as [(-> & -> & ->)|[[Hne Hj]|(-> & x & Hsp' & ->)]]; [| |destruct Hsp as [->|(q' & t' & -> & ? & _)]; simplify_eq; congruence];
  apply Hafter in Hk as [(-> & -> & ->)|[[Hne' Hk]|(-> & y & Hsp' & ->)]]; try done;
    try (destruct Hsp as [->|(q' & t' & -> & ? & _)]; simplify_eq; congruence).
  - exact (inv_one s Hinv _ _ _ _ _ _ Hi Hk (Hc Hq) Hu).
  - exact (inv_one s Hinv _ _ _ _ _ _ Hj Hi Hq (Hc Hu)).
  - exact (inv_one s Hinv _ _ _ _ _ _ Hj Hk Hq Hu).
Qed.

Lemma run_early j k q u t v g h :
  threads s' !! j = Some (q, t) -> threads s' !! k = Some (u, v) -> early q = Some g -> keeper u = Some h -> h < g.
Proof using All.
  intros Hj Hk Hq Hu. destruct (run_threads s i p r nonce s1 p' sl sp Hi Hex) as (Hafter & _).
  destruct (exec_kinds _ _ _ _ _ _ _ Hex) as (_ & He & Hkp & Hsp).
  assert (Hj0 : exists q0 j0 t0, threads s !! j0 = Some (q0, t0) /\ early q0 = Some g /\ (j0 = i -> p' = q)).
  { apply Hafter in Hj as [(-> & -> & ->)|[[Hne Hj]|(-> & x & Hsp' & ->)]].
    - exists p, i, r. split_and!; [done|by apply He|done].
    - exists q, j, t. by split_and!.
    - destruct Hsp as [->|(q' & t' & -> & _ & Hn & _)]; simplify_eq. }
  destruct Hj0 as (q0 & j0 & t0 & Hj0 & Hq0 & Hji).
  apply Hafter in Hk as [(-> & -> & ->)|[[Hne' Hk]|(-> & y & Hsp' & ->)]].
  - exact (inv_early s Hinv _ _ _ _ _ _ _ _ Hj0 Hi Hq0 (Hkp _ Hu)).
  - exact (inv_early s Hinv _ _ _ _ _ _ _ _ Hj0 Hk Hq0 Hu).
  - destruct Hsp as [->|(q' & t' & -> & _ & _ & Hsk)]; simplify_eq. destruct (Hsk _ Hu) as [Hep Hep'].
    assert (j0 = i) by (eapply (inv_one s Hinv _ _ _ _ _ _ Hj0 Hi); [destruct q0|destruct p]; done).
    specialize (Hji ltac:(done)). congruence.
Qed.

Lemma run_keeper j k q u t v g :
  threads s' !! j = Some (q, t) -> threads s' !! k = Some (u, v) -> keeper q = Some g -> keeper u = Some g -> j = k.
Proof using All.
  assert (Hwlog : forall j k q u t v, threads s' !! j = Some (q, t) -> threads s' !! k = Some (u, v) -> keeper q = Some g -> keeper u = Some g ->
    k = length (threads s) -> j <> k -> False).
  { clear j k q u t v. intros j k q u t v Hj Hk Hq Hu -> Hne. destruct (run_threads s i p r nonce s1 p' sl sp Hi Hex) as (Hafter & _).
    destruct (exec_kinds _ _ _ _ _ _ _ Hex) as (_ & _ & Hkp & Hsp). pose proof (lookup_lt_Some _ _ _ Hi) as Hlt.
    apply Hafter in Hk as [(? & _)|[[_ Hk]|(_ & y & Hsp' & ->)]]; [lia|apply lookup_lt_Some in Hk; lia|].
    destruct Hsp as [->|(q' & t' & -> & _ & _ & Hsk)]; simplify_eq. destruct (Hsk _ Hu) as [Hep Hep'].
    apply Hafter in Hj as [(-> & -> & ->)|[[Hne' Hj]|(? & _)]]; [| |done].
    - apply Hkp in Hq. pose proof (inv_early s Hinv i i p p r r g g Hi Hi Hep Hq). lia.
    - pose proof (inv_early s Hinv i j p q r t g g Hi Hj Hep Hq). lia. }
  intros Hj Hk Hq Hu. destruct (decide (j = k)) as [|Hne]; [done|exfalso].
  destruct (run_threads s i p r nonce s1 p' sl sp Hi Hex) as (Hafter & _). destruct (exec_kinds _ _ _ _ _ _ _ Hex) as (_ & _ & Hkp & _).
  pose proof Hj as Hj'. pose proof Hk as Hk'.
  apply Hafter in Hj' as [(-> & -> & ->)|[[Hne' Hj']|(-> & _)]]; [| |exact (Hwlog _ _ _ _ _ _ Hk Hj Hu Hq eq_refl (not_eq_sym Hne))];
  apply Hafter in Hk' as [(-> & -> & ->)|[[Hne'' Hk']|(-> & _)]]; try done;
    try exact (Hwlog _ _ _ _ _ _ Hj Hk Hq Hu eq_refl Hne).
  - apply Hne. exact (inv_keeper s Hinv _ _ _ _ _ _ _ Hi Hk' (Hkp _ Hq) Hu).
  - apply Hne. exact (inv_keeper s Hinv _ _ _ _ _ _ _ Hj' Hi Hq (Hkp _ Hu)).
  - apply Hne. exact (inv_keeper s Hinv _ _ _ _ _ _ _ Hj' Hk' Hq Hu).
Qed.

Lemma run_strikes : 0 <= keepalive_strikes s'.
Proof using All. change (0 <= keepalive_strikes s1). pose proof (inv_strikes s Hinv). destruct p; cbn in Hex; repeat case_match; simplify_eq; cbn; lia. Qed.
End Run_.


Section Run_open.
Context (s : Sys) (i : nat) (p : Pc) (r nonce : Z) (s1 : Sys) (p' : Pc) (sl : Z) (sp : list (Pc * Z)).
Hypothesis Hinv : inv s.
Hypothesis Hi : threads s !! i = Some (p, r).
Hypothesis Hr : r <= now s.
Hypothesis Hex : exec true nonce p s = (s1, p', sl, sp).
Let s' := spawn sp (set_threads (<[i := delayed s (p', sl)]> (threads s)) s1).

(** Only [setAuthenticated] opens the window. *)
Lemma run_opens : exempt s1 = true -> exempt s = true \/ exists secs g, p = CallSet true secs g.
Proof using All.
  destruct p; cbn in Hex; repeat case_match; simplify_eq; cbn; intros; try (by left); try done. right. by eexists _, _.
Qed.

Lemma run_timed : exempt s' = true -> exists j q t, threads s' !! j = Some (q, t) /\ timed s' q t.
Proof using All.
  change (exempt s' = true) with (exempt s1 = true). change (timed s') with (timed s1). intros Hopen.
  destruct (run_threads s i p r nonce s1 p' sl sp Hi Hex) as (_ & Hself & Hothers & Hsp).
  fold s' in Hself, Hothers, Hsp. destruct (exec_frame _ _ _ _ _ _ _ Hex) as (Hn & _ & [k Hl] & _).
  destruct (inv_threads s Hinv i p r Hi) as (_ & Hg & Hp & _ & Hs & _).
  destruct (run_opens Hopen) as [Ho|(secs & g & ->)].
  2:{ cbn in Hex. simplify_eq. exists i, (CallKeepalive secs g), (now s + 0). split; [done|]. cbn. split; [by apply Hg|].
      rewrite Z.add_0_r. apply within_now. }
  destruct (inv_timed s Hinv Ho) as (m & q & t & Hm & Ht). destruct (decide (m = i)) as [->|Hne].
  - assert (q = p /\ t = r) as [-> ->] by (by simplify_eq). destruct p; cbn in Ht, Hs; try done; cbn in Hex;
      try (specialize (Hp ltac:(done))); repeat case_match; simplify_eq; try done; destruct_and?.
    all: try (eexists _, _, _; split; [exact Hself|]; cbn; split_and?; try done; eapply within_le; [eassumption|lia]).
    + cbn. eexists _, _, _. split; [exact Hself|]. cbn. split; [by apply Hg|]. rewrite Z.add_0_r. apply within_now.
    + eexists _, _, _. split; [by apply Hsp|]. cbn. split; [done|]. eapply within_le; [eassumption|lia].
    + exfalso. lia.
  - destruct (run_swap s i p r nonce s1 p' sl sp Hinv Hi Hr Hex) as [Hgen|(Hk & -> & -> & Hgen)].
    { exists m, q, t. split; [by apply Hothers|]. by eapply (timed_frame s). }
    destruct (closer q) eqn:Hc.
    { exists m, q, t. split; [by apply Hothers|]. by eapply (closer_timed s). }
    eexists _, _, _. split; [exact Hself|]. cbn. rewrite Hl, Z.add_0_r. apply within_app.
    apply (timed_late s q t); [by eapply inv_threads|done|done|]. intros g Heq. pose proof (inv_early s Hinv _ _ _ _ _ _ _ _ Hm Hi Heq Hk).
    destruct (inv_threads s Hinv m q t Hm) as (_ & He & _). specialize (He g Heq). lia.
Qed.
End Run_open.


Section Run_heard.
Context (s : Sys) (i : nat) (p : Pc) (r nonce : Z) (s1 : Sys) (p' : Pc) (sl : Z) (sp : list (Pc * Z)).
Hypothesis Hinv : inv s.
Hypothesis Hi : threads s !! i = Some (p, r).
Hypothesis Hr : r <= now s.
Hypothesis Hex : exec true nonce p s = (s1, p', sl, sp).
Let s' := spawn sp (set_threads (<[i := delayed s (p', sl)]> (threads s)) s1).

(** A step resets the strikes for an answer that came a moment ago, or in a thread of its own
    window or of one that has just been superseded; otherwise it resets nothing. *)
Lemma run_resets t :
  retires t s p r ->
  (misses s1 <= misses s /\ misses_ok s1 <= misses_ok s) \/ within any (3 * d) (now s) (log s) \/
  keeper p = Some (auth_generation s) \/ now s <= t + 2 * d.
Proof using All.
  intros Hret. destruct (inv_threads s Hinv i p r Hi) as (_ & _ & Hp & _ & _ & Ha). pose proof (inv_strikes s Hinv) as Hs.
  destruct p; cbn in Hret, Ha; try (specialize (Hp ltac:(done))); cbn in Hex; repeat case_match; simplify_eq;
    unfold misses_ok, misses, CHALLENGE_STRIKES; cbn;
    try (left; clear -Hs; repeat case_match; lia); right; try (destruct Hret as [->|?]; [by right; left|right; right; lia]);
    left; (eapply within_le; [eassumption|lia]).
Qed.

(** Arithmetic on the number of rounds that are left. *)
Ltac strikes :=
  match goal with
  | H : 0 <= keepalive_strikes ?s |- _ =>
      let H' := fresh in
      assert (H' : keepalive_strikes s = 0 \/ keepalive_strikes s = 1 \/ keepalive_strikes s = 2 \/ 2 < keepalive_strikes s) by lia;
      destruct H' as [H'|[H'|[H'|H']]]; [rewrite ?H' in *; lia..|rewrite ?(Z.max_l 1 (3 - keepalive_strikes s)) in * by lia; lia]
  end.

(** The one who is to shut the window makes no detour. *)
Lemma run_guardian :
  auth_generation s1 = auth_generation s -> exempt s1 = true -> exempt s = true -> heard s p r -> closer p = false ->
  exists j q t, threads s' !! j = Some (q, t) /\ heard s1 q t.
Proof using All.
  intros Hgen Ho Ho' Hh Hc. destruct (run_threads s i p r nonce s1 p' sl sp Hi Hex) as (_ & Hself & _ & Hsp). fold s' in Hself, Hsp.
  destruct (exec_frame _ _ _ _ _ _ _ Hex) as (_ & _ & [k Hl] & _).
  destruct (inv_threads s Hinv i p r Hi) as (_ & _ & Hp & _ & Hsane & _). pose proof (inv_strikes s Hinv) as Hs.
  destruct (misses_range s Hs) as [Hm Hmo]. assert (Hround : round = 5000 + 7 * d) by done.
  assert (Hmok : misses s <= misses_ok s) by (unfold misses_ok, misses, CHALLENGE_STRIKES; case_match; lia).
  destruct p; try done; cbn [heard keeper] in Hh; destruct Hh as [Hk Hh]; try done; specialize (Hp ltac:(done)); cbn in Hex.
  { simplify_eq. exists (length (threads s1)), (KReset (auth_generation s1)), (now s1 + 0). split; [by apply Hsp|]. cbn. split; [done|]. eapply within_le; [eassumption|unfold grace; lia]. }
  all: exists i, p', (now s + sl); split; [exact Hself|]; cbn in Hk; injection Hk as Hk; rewrite Hk, ?Z.eqb_refl in Hex; clear Hself Hsp;
    unfold CHALLENGE_EVERY, CHALLENGE_DEADLINE in Hex; repeat case_match; simplify_eq; try (cbn in Hgen; lia); cbn [heard keeper gen_of]; rewrite ?Hgen;
    (split; [done|]); rewrite Hl; apply within_app; (eapply within_le; [exact Hh|]); cbn [deadline];
    unfold misses_ok, misses, CHALLENGE_STRIKES in *; cbn in *; rewrite ?Hround in *; clear Hh Hi Hinv Hm Hmo Hmok;
    repeat case_match; rewrite ?Z.leb_gt in *; strikes.
Qed.

Lemma run_retires t :
  auth_generation s1 = auth_generation s -> (forall j q u, threads s !! j = Some (q, u) -> retires t s q u) ->
  forall j q u, threads s' !! j = Some (q, u) -> retires t s1 q u.
Proof using All.
  intros Hgen Hret j q u Hj. destruct (run_threads s i p r nonce s1 p' sl sp Hi Hex) as (Hafter & _).
  destruct (inv_threads s Hinv i p r Hi) as (_ & He & Hp & _). specialize (Hret i p r Hi) as Hreti.
  apply Hafter in Hj as [(-> & -> & ->)|[[Hne Hj]|(-> & x & Hsp & ->)]].
  - destruct p; cbn in Hex; repeat case_match; simplify_eq; try done; cbn in *; specialize (Hp ltac:(done)).
    + left. lia.
    + destruct Hreti as [->|?]; [by left|right; lia].
  - specialize (Hret j q u Hj). destruct q; try done; cbn in *; by rewrite Hgen.
  - destruct p; cbn in Hex; repeat case_match; simplify_eq; try done. cbn. left. by apply He.
Qed.

(** Whoever else is to shut the window is not put off for long. *)
Lemma run_others t j q u :
  auth_generation s1 = auth_generation s -> retires t s p r -> j <> i -> threads s !! j = Some (q, u) ->
  heard s q u -> closer q = true \/ within opened 0 t (log s) -> heard s1 q u.
Proof using All.
  intros Hgen Hret Hne Hj Hh Hor. destruct (exec_frame _ _ _ _ _ _ _ Hex) as (Hn & _ & [k Hl] & _).
  destruct (closer q) eqn:Hc; [by eapply (closer_heard s)|]. destruct Hor as [|Hopen]; [done|].
  destruct (run_resets t Hret) as [[Hm Ho]|Hreset]; [by eapply (heard_frame s)|].
  destruct (keeper q) as [g|] eqn:Hk.
  2:{ destruct q; try done; cbn in *; destruct Hh as [? Hh]; try done. split; [congruence|]. rewrite Hl. by apply within_app. }
  assert (Hg : g = auth_generation s) by (destruct q; try done; cbn in Hh, Hk; destruct Hh as [Hg _]; congruence). subst g.
  assert (Hclose : within any (3 * d) (now s) (log s)).
  { destruct Hreset as [|[Hp|Hlate]]; [done| |].
    - exfalso. apply Hne. exact (inv_keeper s Hinv _ _ _ _ _ _ _ Hj Hi Hk Hp).
    - apply within_any in Hopen. eapply within_le; [exact Hopen|lia]. }
  assert (Hok : thread_ok s1 q u).
  { apply (run_threads_ok s i p r nonce s1 p' sl sp Hinv Hi Hr Hex j q u).
    destruct (run_threads s i p r nonce s1 p' sl sp Hi Hex) as (_ & _ & Hothers & _). by apply Hothers. }
  pose proof (deadline_fresh s1 q u _ (run_strikes s i p r nonce s1 p' sl sp Hinv Hi Hr Hex) Hk Hok) as Hdl.
  assert (Hw : within any grace (deadline s1 q u) (log s1)).
  { rewrite Hl. apply within_app. eapply within_le; [exact Hclose|]. rewrite Hn in Hdl. unfold grace, round in *. lia. }
  destruct q; try done; cbn [heard]; (split; [by rewrite Hgen|done]).
Qed.

(** Opening the window begins the minutes and the questions anew. *)
Lemma run_opening t secs g :
  t <= now s -> p = CallSet true secs g ->
  exists j q u, threads s' !! j = Some (q, u) /\ heard s1 q u /\ (closer q = true \/ within opened 0 t (log s1)).
Proof using All.
  intros Ht ->. destruct (run_threads s i _ r nonce s1 p' sl sp Hi Hex) as (_ & Hself & _). fold s' in Hself.
  destruct (inv_threads s Hinv i _ r Hi) as (_ & He & _). cbn in Hex. simplify_eq. exists i, (CallKeepalive secs g), (now s + 0).
  split_and!; [done|split; [by apply He|]|right].
  - rewrite Z.add_0_r. eapply within_any, within_now.
  - eapply within_le; [apply (within_now Opened (now s))|lia].
Qed.

Lemma run_closer :
  closer p = true -> exempt s1 = true -> (exists secs g, p = CallSet true secs g) \/ (p = ShutForget /\ p' = ShutExempt /\ sl = 0).
Proof using All.
  intros Hc Ho. destruct p; try done; cbn in Hex; repeat case_match; simplify_eq; try done; [left; by eexists _, _|by right].
Qed.

(** The one who raised the generation shuts the window. *)
Lemma run_swapped m q u :
  keeper p = Some (auth_generation s) -> p' = ShutForget -> threads s !! m = Some (q, u) -> heard s q u -> closer q = false ->
  within any (grace + d) (now s) (log s).
Proof using All.
  intros Hk -> Hm Hh Hc. destruct (inv_threads s Hinv i p r Hi) as (_ & _ & Hp & _).
  destruct (keeper q) as [g|] eqn:Hkq.
  - assert (g = auth_generation s) as -> by (destruct q; try done; cbn in Hh, Hkq; destruct Hh as [Hg _]; congruence).
    pose proof (inv_keeper s Hinv _ _ _ _ _ _ _ Hm Hi Hkq Hk) as ->. assert (q = p /\ u = r) as [-> ->] by (by simplify_eq).
    destruct p; try done; cbn in Hex; repeat case_match; simplify_eq; cbn in Hh; destruct Hh as [_ Hh];
      specialize (Hp ltac:(done)); (eapply within_le; [exact Hh|lia]).
  - destruct q; try done; cbn in Hh; destruct Hh as [Hg Hh]; try done.
    pose proof (inv_early s Hinv _ _ _ _ _ _ _ _ Hm Hi eq_refl Hk). lia.
Qed.

Lemma run_heard :
  exists t, t <= now s' /\ (forall j q u, threads s' !! j = Some (q, u) -> retires t s' q u) /\
    (exempt s' = true -> exists j q u, threads s' !! j = Some (q, u) /\ heard s' q u /\ (closer q = true \/ within opened 0 t (log s'))).
Proof using All.
  change (exempt s') with (exempt s1). change (now s') with (now s1). change (log s') with (log s1).
  destruct (exec_frame _ _ _ _ _ _ _ Hex) as (Hn & _ & [k Hl] & _). rewrite Hn.
  destruct (inv_heard s Hinv) as (t & Ht & Hret & Hguard).
  destruct (run_threads s i p r nonce s1 p' sl sp Hi Hex) as (_ & Hself & Hothers & _). fold s' in Hself, Hothers.
  destruct (run_swap s i p r nonce s1 p' sl sp Hinv Hi Hr Hex) as [Hgen|(Hk & Hp' & Hsl & Hgen)].
  - exists t. split_and!; [done|by apply run_retires|]. intros Hopen.
    destruct (run_opens s i p r nonce s1 p' sl sp Hinv Hi Hr Hex Hopen) as [Ho|(secs & g & Hcall)]; [|by eapply run_opening].
    destruct (Hguard Ho) as (m & q & u & Hm & Hh & Hor). destruct (decide (m = i)) as [->|Hne].
    + assert (q = p /\ u = r) as [-> ->] by (by simplify_eq). destruct (closer p) eqn:Hc.
      * destruct (run_closer Hc Hopen) as [(secs & g & Hcall)|(Hforget & -> & ->)]; [by eapply run_opening|].
        exists i, ShutExempt, (now s + 0). split_and!; [done| |by left]. rewrite Hforget in Hh. cbn. rewrite Hl. apply within_app.
        destruct (inv_threads s Hinv i p r Hi) as (_ & _ & Hp & _). specialize (Hp ltac:(by rewrite Hforget)).
        eapply within_le; [exact Hh|lia].
      * destruct (run_guardian Hgen Hopen Ho Hh Hc) as (j & q & u & Hj & Hq). exists j, q, u. split_and!; [done..|].
        right. destruct Hor as [|Hor]; [done|]. rewrite Hl. by apply within_app.
    + exists m, q, u. split_and!; [by apply Hothers|eapply run_others; try done; by eapply Hret|].
      destruct Hor as [|Hor]; [by left|right]. rewrite Hl. by apply within_app.
  - exists (now s). split_and!; [done| |].
    + intros j q u Hj. apply (run_threads_ok s i p r nonce s1 p' sl sp Hinv Hi Hr Hex) in Hj as (_ & _ & _ & Hnap & _).
      change (now s') with (now s1) in Hnap. destruct q; try done; cbn in *; specialize (Hnap eq_refl); right; lia.
    + intros Hopen. destruct (run_opens s i p r nonce s1 p' sl sp Hinv Hi Hr Hex Hopen) as [Ho|(secs & g & ->)]; [|done].
      destruct (Hguard Ho) as (m & q & u & Hm & Hh & Hor). destruct (closer q) eqn:Hc.
      * assert (m <> i) by (intros ->; assert (q = p) as -> by congruence; by destruct p).
        exists m, q, u. split_and!; [by apply Hothers|by eapply (closer_heard s)|by left].
      * pose proof (run_swapped m q u Hk Hp' Hm Hh Hc) as Hw. exists i, p', (now s + sl). split_and!; [done|..]; rewrite Hp'; [|by left].
        cbn. rewrite Hl, Hsl, Z.add_0_r. by apply within_app.
Qed.
End Run_heard.


Lemma run_inv s i p r nonce s1 p' sl sp :
  inv s -> threads s !! i = Some (p, r) -> r <= now s -> exec true nonce p s = (s1, p', sl, sp) ->
  inv (spawn sp (set_threads (<[i := delayed s (p', sl)]> (threads s)) s1)).
Proof using Hd.
  intros Hinv Hi Hr Hex. split.
  - by eapply run_threads_ok.
  - by eapply run_one.
  - by eapply run_early.
  - by eapply run_keeper.
  - by eapply run_strikes.
  - by eapply run_timed.
  - by eapply run_heard.
Qed.

(** A write that fails changes nothing else, and matters only where the property is set or
    cleared. *)
Lemma exec_written w nonce p s :
  w = true \/ clears p = false ->
  exec w nonce p s = exec true nonce p s \/ exists secs g, p = CallSet true secs g /\ w = false.
Proof using.
  intros Hw. destruct w; [by left|]. destruct Hw as [|Hc]; [done|].
  destruct p as [[] secs g| | | | | | | | | | | | | | | | | | | |]; try discriminate Hc; try (by left). right. by exists secs, g.
Qed.

(** What a client does to the rest of the state changes nothing; a write of the property can
    only shut the window. *)
Lemma frame_inv s s' :
  now s' = now s -> threads s' = threads s -> auth_generation s' = auth_generation s -> keepalive_strikes s' = keepalive_strikes s ->
  keepalive_ok s' = keepalive_ok s -> log s' = log s -> (exempt s' = true -> exempt s = true) -> inv s -> inv s'.
Proof using Hd.
  intros Hn Ht Hg Hs Hk Hl He [H1 H2 H3 H4 H5 H6 H7].
  assert (Hl' : log s' = log s ++ []) by (by rewrite Hl, app_nil_r).
  assert (Hm : misses s' = misses s) by (unfold misses; by rewrite Hs).
  assert (Hmo : misses_ok s' = misses_ok s) by (unfold misses_ok; by rewrite Hk, Hm).
  split; rewrite ?Ht; try done.
  - intros i p r Hi. eapply (thread_ok_frame s); [done|exact Hl'|lia|done|by eapply H1].
  - lia.
  - intros Ho. destruct (H6 (He Ho)) as (i & p & r & Hi & Hp). exists i, p, r. split; [done|]. by eapply (timed_frame s).
  - destruct H7 as (t & Hlt & Hret & Hgu). exists t. rewrite Hn, Hl. split_and!; [done| |].
    + intros i p r Hi. specialize (Hret i p r Hi). destruct p; try done; cbn in *; by rewrite Hg.
    + intros Ho. destruct (Hgu (He Ho)) as (i & p & r & Hi & Hp & Hc). exists i, p, r. split_and!; [done| |done].
      eapply (heard_frame s); [exact Hl'|done|lia|lia|done].
Qed.

Lemma tick_inv s t : now s <= t -> prompt d t s = true -> inv s -> inv (set_now t s).
Proof using Hd.
  intros Ht Hp [H1 H2 H3 H4 H5 H6 (u & Hu & Hret & Hgu)]. split; try done.
  - intros i p r Hi. destruct (H1 i p r Hi) as (A & B & C & D & E & F). split_and!; try done.
    + intros Hne. unfold prompt in Hp. rewrite forallb_forall in Hp.
      specialize (Hp (p, r) ltac:(apply list_elem_of_In; by eapply list_elem_of_lookup_2)). cbn in Hp |- *. destruct p; try done; lia.
    + intros Hnap. specialize (D Hnap). cbn. lia.
  - exists u. cbn. split; [lia|done].
Qed.

Lemma lookup_spawn (ts : list (Pc * Z)) x j y :
  (ts ++ [x]) !! j = Some y -> ts !! j = Some y \/ (j = length ts /\ y = x).
Proof using.
  rewrite lookup_app_Some. intros [?|[Hj Hy]]; [by left|right]. apply list_lookup_singleton_Some in Hy as [? ->]. split; [lia|done].
Qed.

(** A call comes in: it is neither a window's keeper nor another [setAuthenticated]. *)
Lemma answer_inv s sent : inv s -> inv (spawn [(AnswerStrikes sent, 0)] (note Answered s)).
Proof using Hd.
  intros [H1 H2 H3 H4 H5 H6 (u & Hu & Hret & Hgu)]. set (s' := spawn _ _).
  assert (Hl : log s' = log s ++ [(now s, Answered)]) by done. assert (Hg : auth_generation s' = auth_generation s) by done.
  assert (Hin : forall j q t, threads s' !! j = Some (q, t) -> threads s !! j = Some (q, t) \/ (j = length (threads s) /\ q = AnswerStrikes sent /\ t = now s + 0)).
  { intros j q t Hj. apply lookup_spawn in Hj as [?|[-> Hj]]; [by left|]. right. unfold delayed in Hj. by simplify_eq/=. }
  split.
  - intros i p r [Hi|(-> & -> & ->)]%Hin; [eapply (thread_ok_frame s); [done|exact Hl|done|done|by eapply H1]|].
    split_and!; cbn; intros; try done; try lia. rewrite Z.add_0_r. eapply within_any, (within_now Answered).
  - intros i j p q r t [Hi|(-> & -> & ->)]%Hin [Hj|(-> & -> & ->)]%Hin Hp Hq; try done. exact (H2 _ _ _ _ _ _ Hi Hj Hp Hq).
  - intros i j p q r t g h [Hi|(-> & -> & ->)]%Hin [Hj|(-> & -> & ->)]%Hin Hp Hq; try done. exact (H3 _ _ _ _ _ _ _ _ Hi Hj Hp Hq).
  - intros i j p q r t g [Hi|(-> & -> & ->)]%Hin [Hj|(-> & -> & ->)]%Hin Hp Hq; try done. exact (H4 _ _ _ _ _ _ _ Hi Hj Hp Hq).
  - done.
  - intros Ho. destruct (H6 Ho) as (i & p & r & Hi & Hp). exists i, p, r. split; [by apply lookup_app_l_Some|by eapply (timed_frame s)].
  - exists u. split_and!; [done| |].
    + intros i p r [Hi|(-> & -> & ->)]%Hin; [|done]. by apply (Hret i p r).
    + intros Ho. destruct (Hgu Ho) as (i & p & r & Hi & Hp & Hc). exists i, p, r. split_and!; [by apply lookup_app_l_Some|by eapply (heard_frame s)|].
      destruct Hc as [|Hc]; [by left|right]. rewrite Hl. by apply within_app.
Qed.

(** [setAuthenticated]: the windows before it are superseded, and it is to open or shut one. *)
Lemma call_inv s b secs :
  1 <= secs <= 600 -> forallb (fun th : Pc * Z => negb (is_call th.1)) (threads s) = true -> inv s ->
  inv (spawn [(CallSet b secs (auth_generation s + 1), 0)] (set_generation (auth_generation s + 1) s)).
Proof using Hd.
  intros Hsecs Hcalls Hinv. pose proof Hinv as [H1 H2 H3 H4 H5 H6 (u & Hu & Hret & Hgu)]. set (s' := spawn _ _).
  assert (Hl : log s' = log s ++ []) by (by rewrite app_nil_r). assert (Hg : auth_generation s' = auth_generation s + 1) by done.
  assert (Hno : forall i p r, threads s !! i = Some (p, r) -> is_call p = false).
  { intros i p r Hi. rewrite forallb_forall in Hcalls. apply negb_true_iff, (Hcalls (p, r)). apply list_elem_of_In. by eapply list_elem_of_lookup_2. }
  assert (Hin : forall j q t, threads s' !! j = Some (q, t) -> threads s !! j = Some (q, t) \/
            (j = length (threads s) /\ q = CallSet b secs (auth_generation s + 1) /\ t = now s + 0)).
  { intros j q t Hj. apply lookup_spawn in Hj as [?|[-> Hj]]; [by left|]. right. unfold delayed in Hj. by simplify_eq/=. }
  assert (Hnew : threads s' !! length (threads s) = Some (CallSet b secs (auth_generation s + 1), now s + 0)).
  { subst s'. cbn. rewrite lookup_app_r, Nat.sub_diag by done. done. }
  split.
  - intros i p r [Hi|(-> & -> & ->)]%Hin.
    + eapply (thread_ok_frame s); [done|exact Hl|lia| |by eapply H1]. intros He. specialize (Hno i p r Hi). by destruct p.
    + split_and!; cbn; intros; simplify_eq; try done; lia.
  - intros i j p q r t [Hi|(-> & -> & ->)]%Hin [Hj|(-> & -> & ->)]%Hin Hp Hq; try done; exfalso.
    + specialize (Hno i p r Hi). congruence.
    + specialize (Hno i p r Hi). congruence.
    + specialize (Hno j q t Hj). congruence.
  - intros i j p q r t g h [Hi|(-> & -> & ->)]%Hin [Hj|(-> & -> & ->)]%Hin Hp Hq; try done.
    + exact (H3 _ _ _ _ _ _ _ _ Hi Hj Hp Hq).
    + cbn in Hp. simplify_eq. destruct (H1 j q t Hj) as (A & _). assert (gen_of q = Some h) by (by destruct q). specialize (A h ltac:(done)). lia.
  - intros i j p q r t g [Hi|(-> & -> & ->)]%Hin [Hj|(-> & -> & ->)]%Hin Hp Hq; try done. exact (H4 _ _ _ _ _ _ _ Hi Hj Hp Hq).
  - done.
  - intros Ho. destruct (H6 Ho) as (i & p & r & Hi & Hp). destruct (closer p) eqn:Hc.
    + exists i, p, r. split; [by apply lookup_app_l_Some|by eapply (closer_timed s)].
    + eexists _, _, _. split; [exact Hnew|]. cbn. rewrite Z.add_0_r. apply (timed_late s p r); [by eapply H1|done..|].
      intros g He. specialize (Hno i p r Hi). by destruct p.
  - exists (now s). split_and!; [done| |].
    + intros i p r [Hi|(-> & -> & ->)]%Hin; [|done]. destruct (H1 i p r Hi) as (_ & _ & _ & Hnap & _).
      destruct p; try done; cbn in *; specialize (Hnap eq_refl); right; lia.
    + intros Ho. destruct (Hgu Ho) as (i & p & r & Hi & Hp & _). destruct (closer p) eqn:Hc.
      * exists i, p, r. split_and!; [by apply lookup_app_l_Some|by eapply (closer_heard s)|by left].
      * eexists _, _, _. split_and!; [exact Hnew| |by left]. cbn. rewrite Z.add_0_r. specialize (Hno i p r Hi).
        destruct (keeper p) as [g|] eqn:Hk; [|destruct p; try done; cbn in Hp; by destruct Hp].
        pose proof (deadline_fresh s p r g H5 Hk (H1 i p r Hi)) as Hdl. destruct (H1 i p r Hi) as (_ & _ & Hlate & _).
        specialize (Hlate ltac:(by intros ->)). destruct p; try done; cbn [heard] in Hp; destruct Hp as [_ Hp]; (eapply within_le; [exact Hp|lia]).
Qed.

Lemma window_secs_range n : 1 <= window_secs n <= 600.
Proof using. unfold window_secs, MAX_WINDOW. lia. Qed.

Lemma step_inv l s s' : allowed d l s = true -> step l s = Some s' -> inv s -> inv s'.
Proof using Hd.
  intros Ha Hs Hinv. destruct l as [i w nonce|t|b n|nonce|c linked|c|c w]; cbn in Ha, Hs.
  - destruct (threads s !! i) as [[p r]|] eqn:Hi; [|done]. destruct (Z.leb_spec r (now s)) as [Hr|]; [|done].
    destruct (exec w nonce p s) as [[[s1 p'] sl] sp] eqn:Hex. injection Hs as <-.
    destruct (exec true nonce p s) as [[[s2 p2] sl2] sp2] eqn:Hex2. pose proof (run_inv s i p r nonce s2 p2 sl2 sp2 Hinv Hi Hr Hex2) as Hrun.
    assert (Hw : w = true \/ clears p = false) by (destruct w; [by left|right; by destruct (clears p)]).
    destruct (exec_written w nonce p s Hw) as [E|(secs & g & -> & ->)]; [congruence|].
    cbn in Hex, Hex2. simplify_eq. eapply frame_inv; [..|exact Hrun]; done.
  - destruct (now s <=? t) eqn:Ht; [|done]. injection Hs as <-. apply tick_inv; [lia|done..].
  - injection Hs as <-. apply call_inv; [apply window_secs_range|done..].
  - injection Hs as <-. unfold keepUnlocked. assert (Hc : inv (set_challenge None s)) by (by eapply (frame_inv s)).
    destruct (challenge s) as [[want sent]|]; [|done]. destruct (want =? nonce); [|done]. by apply answer_inv.
  - injection Hs as <-. by eapply (frame_inv s).
  - injection Hs as <-. by eapply (frame_inv s).
  - injection Hs as <-. unfold dies. destruct (bool_decide _), w; try done. by eapply (frame_inv s).
Qed.

Lemma start_inv : inv start.
Proof using. split; try done. exists 0. by split_and!. Qed.

Lemma run_all_inv ls s s' : run (allowed d) ls s = Some s' -> inv s -> inv s'.
Proof using Hd.
  revert s. induction ls as [|l ls IH]; cbn [run]; intros s Hr Hinv; [by injection Hr as <-|].
  destruct (allowed d l s) eqn:Ha; [|done]. destruct (step l s) as [s1|] eqn:Hs; [|done]. eapply IH; [done|]. by eapply step_inv.
Qed.

End Bounds.

(** ** Properties *)

(** C23: the exemption is never left open.  However the calls, the timers, the questioning
    threads, the answers and the deaths of clients interleave, if every thread that can run
    does so within [d], one [setAuthenticated] ends before the next begins, and the property
    store takes the writes by which the threads clear the property, then while the exemption is
    published a client has asked for a window in the last ten minutes and has asked for one or
    answered a question in the last twenty seconds (and some delays).  That the store takes the
    other writes is not needed: an exemption that could not be published is none, and one that
    could not be cleared when its client died is cleared by the threads.  A clear of theirs that
    fails is not tried again, as the code says (the example [a_clear_that_fails]). *)
Theorem exemption_is_bounded d ls s :
  0 <= d -> run (allowed d) ls start = Some s -> exempt s = true ->
  (exists t, (t, Opened) ∈ log s /\ now s <= t + 600000 + 5 * d) /\
  (exists t e, (t, e) ∈ log s /\ now s <= t + 20000 + 32 * d).
Proof.
  intros Hd Hr Ho. pose proof (run_all_inv d Hd ls start s Hr (start_inv d)) as Hinv. split.
  - destruct (inv_timed d s Hinv Ho) as (i & p & r & Hi & Hp).
    destruct (timed_now d Hd s p r (inv_threads d s Hinv i p r Hi) Hp) as (t & e & Hin & <- & Hle). exists t. split; [done|lia].
  - destruct (inv_heard d s Hinv) as (u & _ & _ & Hg). destruct (Hg Ho) as (i & p & r & Hi & Hp & _).
    destruct (heard_now d Hd s p r (inv_strikes d s Hinv) (inv_threads d s Hinv i p r Hi) Hp) as (t & e & Hin & _ & Hle).
    exists t, e. split; [done|]. unfold grace in Hle. lia.
Qed.

(** ** Runs of the machine *)

Module ToyWindow.

Definition step_of (i : nat) : Label := Run i true 42.

(** A client opens a window of a minute and is asked whether it is there. *)
Definition opening : list Label :=
  [Register 7 true; SetAuthenticated true 60] ++ (step_of <$> [0; 0; 0; 1; 1; 1; 1; 1]%nat).
Definition answering : list Label := [Tick 1000; KeepUnlocked 42] ++ (step_of <$> [3; 3; 3]%nat) ++ [Tick 4000] ++ (step_of <$> [1; 1; 1]%nat).

Definition after (ls : list Label) : Sys := match run (allowed 100) ls start with Some s => s | None => start end.

Lemma exemption_is_bounded_witness :
  exempt (after (opening ++ answering)) = true /\
  exists t, (t, Opened) ∈ log (after (opening ++ answering)) /\ now (after (opening ++ answering)) <= t + 600000 + 5 * 100.
Proof.
  split; [vm_compute; reflexivity|].
  apply (exemption_is_bounded 100 (opening ++ answering)); [lia|vm_compute; reflexivity|vm_compute; reflexivity].
Defined.

(** Three questions that nobody answers shut it. *)
Definition unanswered (t : Z) : list Label := [Tick (t + 4000)] ++ (step_of <$> [1; 1; 1]%nat) ++ [Tick (t + 5000)] ++ (step_of <$> [1; 1; 1; 1]%nat).

Example silence_shuts_the_window :
  let s := after (opening ++ unanswered 0 ++ unanswered 5000 ++ [Tick 14000] ++ (step_of <$> [1; 1; 1; 1; 1; 1]%nat)) in
  (now s, exempt s, auth_generation s) = (14000, false, 2).
Proof. vm_compute. reflexivity. Qed.

(** The same, but the store does not take the clear: the window stays open, and every thread has
    retired. *)
Definition stuck : list Label :=
  opening ++ unanswered 0 ++ unanswered 5000 ++ [Tick 14000] ++ (step_of <$> [1; 1; 1; 1; 1]%nat) ++ [Run 1 false 42; Tick 60000; step_of 2].

Example a_clear_that_fails :
  match run (fun _ _ => true) stuck start with
  | Some s => exempt s = true /\ Forall (fun th => th.1 = Ended) (threads s)
  | None => False
  end.
Proof. vm_compute. split; [reflexivity|]. repeat constructor. Qed.

(** If the service had two binder threads, and two calls overlapped: the one that shuts takes its turn between the other's number and
    its write.  The window is open, every thread has retired, and nothing shuts it again. *)
Definition overlapping : list Label :=
  [SetAuthenticated true 60; SetAuthenticated false 0] ++ (step_of <$> [1; 0; 0; 0; 2; 2]%nat) ++ [Tick 60000; step_of 3].

Example exemption_left_open :
  match run (fun _ _ => true) overlapping start with
  | Some s => exempt s = true /\ Forall (fun th => th.1 = Ended) (threads s)
  | None => False
  end.
Proof. vm_compute. split; [reflexivity|]. repeat constructor. Qed.

(** A timer that has seen its own window current shuts the one that was opened since. *)
Definition superseded : list Label :=
  opening ++ answering ++ [Tick 60000; step_of 2; SetAuthenticated true 600] ++ (step_of <$> [4; 4; 4; 2]%nat).

Example earlier_timer_shuts_a_later_window :
  match run (fun _ _ => true) superseded start with
  | Some s => exempt s = false /\ (60000, Opened) ∈ log s
  | None => False
  end.
Proof. vm_compute. split; [reflexivity|]. repeat constructor. Qed.

End ToyWindow.
