(* ===== verification/Population.v ===== *)
(** * The Apple devices around ([sharingd/src/main.rs], [AppleNearby])

    What Bluetooth says about the Apple devices in range: the table a client's reports fill,
    the rule for an address that rotated into another, and the population the discovery loop
    reads from it.  The theorem says what is counted in terms of what was heard. *)

From stdpp Require Import gmap.
From S2P Require Import Prelude Utf8 Utf16 Text Apple.

(** Milliseconds, decibels. *)
Definition APPLE_SILENT_AFTER : Z := 20 * 1000.
Definition APPLE_LIVE_WINDOW : Z := 24 * 1000.
Definition APPLE_ROTATION_GAP : Z := 1000.
Definition APPLE_ROTATION_RSSI_DB : Z := 10.
Definition APPLE_NEAR_DBM : Z := -80.

Record AppleAdvertiser : Type := mkAdvertiser {
  rssi : Z;
  info : NearbyInfo;
  last_seen : Z;
  was_receptive : bool
}.

Abbreviation Advertisers := (gmap (list byte) AppleAdvertiser).

Record AppleNearby : Type := mkNearby { by_address : Advertisers; last_report : option Z }.
Record ApplePopulation : Type := mkPopulation { live : bool; present : Z; receptive_now : Z }.

#[export] Instance nearby_info_eq_dec : EqDecision NearbyInfo.
Proof. solve_decision. Defined.
#[export] Instance population_eq_dec : EqDecision ApplePopulation.
Proof. solve_decision. Defined.

Definition nobody : AppleNearby := mkNearby empty None.
Definition no_population : ApplePopulation := mkPopulation false 0 0.

Definition near (r : Z) : bool := APPLE_NEAR_DBM <=? r.

(** ** Counting *)

Definition fresh (now : Z) (a : AppleAdvertiser) : bool := duration_since now (last_seen a) <? APPLE_SILENT_AFTER.
Definition counted (a : AppleAdvertiser) : bool := near (rssi a) && (was_receptive a || receptive (info a)).
Definition ready (a : AppleAdvertiser) : bool := counted a && receptive (info a).

Definition those (p : AppleAdvertiser -> bool) (t : Advertisers) : Advertisers :=
  filter (fun kv : list byte * AppleAdvertiser => p kv.2 = true) t.
Definition count_of (p : AppleAdvertiser -> bool) (t : Advertisers) : Z := Z.of_nat (size (those p t)).

Definition population (now : Z) (n : AppleNearby) : ApplePopulation * AppleNearby :=
  let t := those (fresh now) (by_address n) in
  (mkPopulation (match last_report n with Some r => duration_since now r <? APPLE_LIVE_WINDOW | None => false end)
     (count_of counted t) (count_of ready t),
   mkNearby t (last_report n)).

(** ** Reports *)

(** The closure that finds the predecessors, as far as the difference, and all of it. *)
Definition alike (i : NearbyInfo) (a : AppleAdvertiser) : bool :=
  receptive (info a) && near (rssi a) && bool_decide (action (info a) = action i).
Definition rotated (now r : Z) (i : NearbyInfo) (a : AppleAdvertiser) : bool :=
  alike i a && (Z.abs (rssi a - r) <=? APPLE_ROTATION_RSSI_DB) && (APPLE_ROTATION_GAP <=? duration_since now (last_seen a)).
(** The difference or its absolute value is not an [i32]. *)
Definition overflows (r : Z) (i : NearbyInfo) (a : AppleAdvertiser) : bool :=
  alike i a && negb (Z.abs (rssi a - r) <=? 2 ^ 31 - 1).

(** Whether the discovery loop is to probe at once, and the table; [None]: the difference of
    two signal strengths overflows. *)
Definition reportAppleAdvertisement (now : Z) (address : list byte) (r : Z) (data : list byte) (n : AppleNearby)
    : option (bool * AppleNearby) :=
  match nearby_info data with
  | None => Some (false, mkNearby (by_address n) (Some now))
  | Some i =>
      match by_address n !! address with
      | Some a =>
          let lost_receptive := negb (bool_decide (info a = i)) && receptive (info a) && negb (receptive i) in
          Some (lost_receptive,
                mkNearby (<[address := mkAdvertiser r i now (was_receptive a || receptive i)]> (by_address n)) (Some now))
      | None =>
          let looked := negb (receptive i) && near r in
          if looked && negb (bool_decide (those (overflows r i) (by_address n) = empty)) then None
          else
            let old := if looked then those (rotated now r i) (by_address n) else empty in
            let inherited := negb (bool_decide (old = empty)) in
            Some (false,
                  mkNearby (<[address := mkAdvertiser r i now (receptive i || inherited)]> (by_address n ∖ old)) (Some now))
      end
  end.

(** ** Runs *)

Inductive Op : Type :=
| Report (address : list byte) (r : Z) (data : list byte)
| Population.

Definition step (now : Z) (o : Op) (n : AppleNearby) : option AppleNearby :=
  match o with
  | Report address r data => option_map snd (reportAppleAdvertisement now address r data n)
  | Population => Some (population now n).2
  end.

Fixpoint run (ops : list (Z * Op)) (n : AppleNearby) : option AppleNearby :=
  match ops with
  | [] => Some n
  | (now, o) :: ops => match step now o n with Some n => run ops n | None => None end
  end.

(** Times do not go back. *)
Fixpoint timed (from : Z) (ops : list (Z * Op)) (to : Z) : Prop :=
  match ops with
  | [] => from <= to
  | (now, _) :: ops => from <= now /\ timed now ops to
  end.

(** Signal strengths are those of a Bluetooth controller. *)
Definition sane (o : Op) : Prop := match o with Report _ r _ => -128 <= r <= 127 | Population => True end.

(** ** What was heard *)

Record Heard : Type := mkHeard { h_at : Z; h_address : list byte; h_rssi : Z; h_info : NearbyInfo }.

Definition heard_in (o : Z * Op) : list Heard :=
  match o with
  | (now, Report address r data) => match nearby_info data with Some i => [mkHeard now address r i] | None => [] end
  | _ => []
  end.
Definition heard (ops : list (Z * Op)) : list Heard := ops ≫= heard_in.
Definition reported (o : Z * Op) : bool := match o.2 with Report _ _ _ => true | Population => false end.

Definition last_heard (h : list Heard) (a : list byte) : option Heard := last_with h_address a h.

(** [z] could be the device that sent [y] under its next address, its receptive bit gone. *)
Definition successor (y z : Heard) : Prop :=
  receptive (h_info y) = true /\ receptive (h_info z) = false /\ near (h_rssi y) = true /\ near (h_rssi z) = true /\
  action (h_info y) = action (h_info z) /\ Z.abs (h_rssi y - h_rssi z) <= APPLE_ROTATION_RSSI_DB /\
  h_at y + APPLE_ROTATION_GAP <= h_at z.

(** The device at [a] was receptive, there or at the address before. *)
Definition has_been_receptive (h : list Heard) (a : list byte) : Prop :=
  exists y, y ∈ h /\ receptive (h_info y) = true /\
    (h_address y = a \/ exists z, z ∈ h /\ h_address z = a /\ successor y z).

(** ** Lemmas *)

Lemma has_been_app h k a : has_been_receptive h a -> has_been_receptive (h ++ k) a.
Proof.
  intros (y & Hy & Hr & Hor). exists y. split_and!; [apply elem_of_app; by left|done|].
  destruct Hor as [?|(z & Hz & Ha & Hs)]; [by left|right]. exists z. split_and!; [apply elem_of_app; by left|done..].
Qed.

Lemma lookup_those p t a row : those p t !! a = Some row <-> t !! a = Some row /\ p row = true.
Proof. unfold those. by rewrite map_lookup_filter_Some. Qed.

Lemma those_empty p t : (forall a row, t !! a = Some row -> p row = false) -> those p t = empty.
Proof.
  intros Hp. apply map_empty. intros a. destruct (those p t !! a) as [row|] eqn:Ha; [|done].
  apply lookup_those in Ha as [Ha Hr]. by rewrite (Hp a row Ha) in Hr.
Qed.

Record inv (h : list Heard) (t : Z) (n : AppleNearby) : Prop := mkInv {
  inv_row : forall a row, by_address n !! a = Some row ->
    exists x, last_heard h a = Some x /\ rssi row = h_rssi x /\ info row = h_info x /\ last_seen row = h_at x;
  inv_was : forall a row, by_address n !! a = Some row -> was_receptive row = true -> has_been_receptive h a;
  inv_gone : forall a x, last_heard h a = Some x -> by_address n !! a = None ->
    h_at x + APPLE_SILENT_AFTER <= t \/ exists z, z ∈ h /\ successor x z;
  inv_times : Forall (fun x => h_at x <= t) h;
  inv_sane : Forall (fun x => -128 <= h_rssi x <= 127) h
}.

Lemma inv_later h t t' n : t <= t' -> inv h t n -> inv h t' n.
Proof.
  intros Ht [H1 H2 H3 H4 H5]. split; try done.
  - intros a x Hx Ha. destruct (H3 a x Hx Ha) as [?|?]; [left; lia|by right].
  - eapply Forall_impl; [exact H4|]. cbn. lia.
Qed.

Lemma inv_population h t n : inv h t n -> inv h t (population t n).2.
Proof.
  intros [H1 H2 H3 H4 H5]. split; try done; cbn [population snd by_address].
  - intros a row [Ha _]%lookup_those. by apply H1.
  - intros a row [Ha _]%lookup_those. by apply H2.
  - intros a x Hx Ha. destruct (by_address n !! a) as [row|] eqn:Hr; [left|by apply (H3 a)].
    destruct (fresh t row) eqn:Hf.
    + assert (those (fresh t) (by_address n) !! a = Some row) by by apply lookup_those. congruence.
    + destruct (H1 a row Hr) as (x' & Hx' & _ & _ & Hl). simplify_eq. unfold fresh, duration_since in Hf. unfold APPLE_SILENT_AFTER in *. lia.
Qed.

(** A report that is not read, or of an address in the table. *)
Lemma inv_silent h t n l : inv h t n -> inv h t (mkNearby (by_address n) l).
Proof. by intros [H1 H2 H3 H4 H5]. Qed.

(** The table after a report: the row of its address, rows of others, some retired. *)
Lemma inv_insert (h : list Heard) (t : Z) (n : AppleNearby) (x : Heard) (was : bool) (old : Advertisers) (l : option Z) :
  h_at x = t -> -128 <= h_rssi x <= 127 ->
  (was = true -> has_been_receptive (h ++ [x]) (h_address x)) ->
  (forall a row y, old !! a = Some row -> last_heard h a = Some y -> successor y x) ->
  inv h t n -> inv (h ++ [x]) t (mkNearby (<[h_address x := mkAdvertiser (h_rssi x) (h_info x) t was]> (by_address n ∖ old)) l).
Proof.
  intros Hat Hs Hw Hold [H1 H2 H3 H4 H5]. split; cbn [by_address].
  - intros a row Ha. unfold last_heard. rewrite last_with_snoc. case_decide as Hd.
    + subst a. rewrite lookup_insert_eq in Ha. injection Ha as <-. exists x. by split_and!.
    + rewrite lookup_insert_ne in Ha by done. apply lookup_difference_Some in Ha as [Ha _]. by apply H1.
  - intros a row Ha Hr. destruct (decide (h_address x = a)) as [<-|Hd].
    + rewrite lookup_insert_eq in Ha. injection Ha as <-. by apply Hw.
    + rewrite lookup_insert_ne in Ha by done. apply lookup_difference_Some in Ha as [Ha _]. by apply has_been_app, (H2 a row).
  - intros a y Hy Ha. unfold last_heard in Hy. rewrite last_with_snoc in Hy. case_decide as Hd; [subst a; by rewrite lookup_insert_eq in Ha|].
    rewrite lookup_insert_ne in Ha by done. apply lookup_difference_None in Ha as [Ha|[row Ha]].
    + destruct (H3 a y Hy Ha) as [?|(z & Hz & ?)]; [by left|right]. exists z. split; [apply elem_of_app; by left|done].
    + right. exists x. split; [apply elem_of_app; right; by left|]. by eapply Hold.
  - apply Forall_app. split; [done|]. apply Forall_cons_2; [lia|constructor].
  - apply Forall_app. split; [done|]. apply Forall_cons_2; [done|constructor].
Qed.

Lemma rotated_successor (h : list Heard) t n r i a row (y : Heard) :
  receptive i = false -> near r = true -> -128 <= r <= 127 -> inv h t n ->
  those (rotated t r i) (by_address n) !! a = Some row -> last_heard h a = Some y -> forall b, successor y (mkHeard t b r i).
Proof.
  intros Hi Hr Hs [H1 _ _ _ _] [Ha Hro]%lookup_those Hy b. destruct (H1 a row Ha) as (y' & Hy' & Her & Hei & Hel). simplify_eq.
  unfold rotated, alike in Hro. apply andb_true_iff in Hro as [[[[Hrec Hn]%andb_true_iff Hact%bool_decide_eq_true]%andb_true_iff Hd]%andb_true_iff Hg].
  rewrite Hei, Her in *. unfold duration_since in Hg. unfold APPLE_ROTATION_GAP in *. split_and!; cbn; try done; unfold APPLE_ROTATION_GAP; lia.
Qed.

Lemma no_overflow (h : list Heard) t n r i : -128 <= r <= 127 -> inv h t n -> those (overflows r i) (by_address n) = empty.
Proof.
  intros Hr [H1 _ _ _ H5]. apply those_empty. intros a row Ha. destruct (H1 a row Ha) as (x & Hx & Her & _ & _).
  apply last_with_in in Hx as [Hx _]. rewrite Forall_forall in H5. specialize (H5 x Hx). cbn in H5.
  unfold overflows. change (2 ^ 31 - 1) with 2147483647. destruct (alike i row); [cbn; lia|done].
Qed.

Lemma has_been_itself h (x : Heard) : receptive (h_info x) = true -> has_been_receptive (h ++ [x]) (h_address x).
Proof. intros Hr. exists x. split_and!; [apply elem_of_app; right; by left|done|by left]. Qed.

Lemma heard_step h t n o :
  sane o -> inv h t n -> exists n', step t o n = Some n' /\ inv (h ++ heard_in (t, o)) t n'.
Proof.
  intros Hs Hinv. destruct o as [address r data|]; cbn [step heard_in sane] in *.
  2:{ eexists. split; [done|]. rewrite app_nil_r. by apply inv_population. }
  unfold reportAppleAdvertisement. destruct (nearby_info data) as [i|]; [|eexists; split; [done|]; rewrite app_nil_r; by apply inv_silent].
  pose proof Hinv as [H1 H2 _ _ _]. set (x := mkHeard t address r i). destruct (by_address n !! address) as [a|] eqn:Ha; cbn [option_map snd].
  - eexists. split; [done|]. rewrite <- (map_difference_empty (by_address n)) at 1.
    apply (inv_insert h t n x _ empty); [done|done| |by intros ? ? ? [] %lookup_empty_Some|done].
    intros [Hw|Hw]%orb_true_iff; [by apply has_been_app, (H2 address a)|by apply has_been_itself].
  - rewrite (no_overflow h t) by done. rewrite bool_decide_true, andb_false_r by done. eexists. split; [done|].
    destruct (negb (receptive i) && near r) eqn:Hl; cbn [option_map snd].
    + apply andb_true_iff in Hl as [Hi%negb_true_iff Hn]. apply (inv_insert h t n x); [done|done| | |done].
      * rewrite Hi. cbn [orb]. intros Hne%negb_true_iff%bool_decide_eq_false. apply map_choose in Hne as (b & row & Hb).
        pose proof Hb as Hb'. apply lookup_those in Hb' as [Hrow _]. destruct (H1 b row Hrow) as (y & Hy & _).
        pose proof (rotated_successor h t n r i b row y Hi Hn Hs Hinv Hb Hy address) as Hsucc.
        apply last_with_in in Hy as [Hy _]. exists y. split_and!; [apply elem_of_app; by left|by destruct Hsucc|right].
        exists x. split_and!; [apply elem_of_app; right; by left|done..].
      * intros b row y Hb Hy. by eapply rotated_successor.
    + apply (inv_insert h t n x); [done|done| |by intros ? ? ? ?%lookup_empty_Some|done].
      rewrite bool_decide_true, orb_false_r by done. intros Hw. by apply has_been_itself.
Qed.

Lemma heard_cons o ops : heard (o :: ops) = heard_in o ++ heard ops.
Proof. done. Qed.

Lemma run_population ops : forall h n t now,
  Forall (fun o => sane o.2) ops -> timed t ops now -> inv h t n -> exists n', run ops n = Some n' /\ inv (h ++ heard ops) now n'.
Proof.
  induction ops as [|[t' o] ops IH]; intros h n t now Hs Ht Hinv; cbn [timed run] in *.
  - exists n. rewrite app_nil_r. split; [done|]. by eapply inv_later.
  - apply Forall_cons in Hs as [Hs Hss]. destruct Ht as [Hle Ht].
    destruct (heard_step h t' n o Hs (inv_later _ _ _ _ Hle Hinv)) as (n1 & -> & Hinv1).
    destruct (IH _ _ _ _ Hss Ht Hinv1) as (n2 & -> & Hinv2). exists n2. split; [done|]. by rewrite heard_cons, app_assoc.
Qed.

(** The time of the last report. *)
Definition latest (ops : list (Z * Op)) : option Z := last ((filter (fun o => reported o = true) ops).*1).

Lemma last_report_run ops : forall n n', run ops n = Some n' ->
  last_report n' = match latest ops with Some t => Some t | None => last_report n end.
Proof.
  induction ops as [|[t o] ops IH]; intros n n' Hr; cbn [run] in Hr; [by injection Hr as <-|].
  destruct (step t o n) as [n1|] eqn:Hs; [|done]. rewrite (IH _ _ Hr). unfold latest. rewrite filter_cons.
  destruct o as [address r data|]; cbn [step] in Hs.
  - case_decide as Hd; [|by contradict Hd]. cbn [fmap list_fmap]. destruct (filter (fun o => reported o = true) ops) as [|q l]; cbn [fmap list_fmap].
    + cbn. unfold reportAppleAdvertisement in Hs. repeat case_match; simplify_eq/=; done.
    + rewrite last_cons_cons. destruct (last (q.1 :: l.*1)) eqn:Hl; [done|]. by apply last_None in Hl.
  - case_decide as Hd; [done|]. by injection Hs as <-.
Qed.

Lemma size_those (p : AppleAdvertiser -> bool) t : count_of p t = Z.of_nat (size (dom (those p t))).
Proof. unfold count_of. by rewrite size_dom. Qed.

(** ** Properties *)

(** C27: the population is what was heard.  Whatever was reported and however often it was
    counted before: there is evidence exactly if anything was reported in the last 24 seconds;
    a device counts as present only if it was last heard near, less than twenty seconds ago,
    and has carried the receptive bit at that address or at one of the same kind and strength
    that went quiet a second before it appeared; it counts as receptive only if its last report
    says so; and a near device whose last report says so, less than twenty seconds ago, is
    counted unless an address that could be its successor has appeared since. *)
Theorem population_is_what_was_heard ops now :
  Forall (fun o => sane o.2) ops -> timed 0 ops now ->
  exists n, run ops nobody = Some n /\
  let h := heard ops in
  let p := (population now n).1 in
  exists P R : gset (list byte), present p = Z.of_nat (size P) /\ receptive_now p = Z.of_nat (size R) /\ R ⊆ P /\
    (live p = true <-> exists t, latest ops = Some t /\ now < t + APPLE_LIVE_WINDOW) /\
    (forall a, a ∈ P -> has_been_receptive h a /\
       exists x, last_heard h a = Some x /\ near (h_rssi x) = true /\ now < h_at x + APPLE_SILENT_AFTER /\
                 (a ∈ R <-> receptive (h_info x) = true)) /\
    (forall a x, last_heard h a = Some x -> near (h_rssi x) = true -> now < h_at x + APPLE_SILENT_AFTER -> receptive (h_info x) = true ->
       a ∈ R \/ exists z, z ∈ h /\ successor x z).
Proof.
  intros Hs Ht. destruct (run_population ops [] nobody 0 now Hs Ht) as (n & Hr & Hinv); [by split|].
  exists n. split; [done|]. pose proof (last_report_run _ _ _ Hr) as Hl. pose proof (inv_population _ _ _ Hinv) as [H1 H2 H3 H4 H5].
  cbn [population snd by_address app] in *. set (t := those (fresh now) (by_address n)) in *.
  exists (dom (those counted t)), (dom (those ready t)). cbn [population fst present receptive_now live]. fold t. split_and!.
  - apply size_those.
  - apply size_those.
  - intros a. rewrite !elem_of_dom. intros [row [Ha Hp]%lookup_those]. exists row. apply lookup_those. split; [done|].
    by apply andb_true_iff in Hp as [? _].
  - rewrite Hl. cbn [nobody last_report]. destruct (latest ops) as [u|]; unfold duration_since, APPLE_LIVE_WINDOW.
    + rewrite Z.ltb_lt. split; [intros; exists u; split; [done|lia]|intros (? & [= <-] & ?); lia].
    + split; [done|by intros (? & ? & _)].
  - intros a [row [Ha Hp]%lookup_those]%elem_of_dom. destruct (H1 a row Ha) as (x & Hx & Her & Hei & Hel).
    unfold counted in Hp. rewrite Her, Hei in Hp. apply andb_true_iff in Hp as [Hn Hw]. split.
    + apply orb_true_iff in Hw as [Hw|Hw]; [by apply (H2 a row)|]. apply last_with_in in Hx as [? ?]. exists x. by split_and!; [..|left].
    + exists x. pose proof Ha as Ha'. apply lookup_those in Ha' as [_ Hf]. unfold fresh, duration_since, APPLE_SILENT_AFTER in *.
      split_and!; [done|done|lia|]. rewrite elem_of_dom. split.
      * intros [row' [Ha' Hp]%lookup_those]. simplify_eq. apply andb_true_iff in Hp as [_ Hp]. congruence.
      * intros Hrec. exists row. apply lookup_those. split; [done|]. unfold ready, counted. by rewrite Her, Hei, Hn, Hrec, orb_true_r.
  - intros a x Hx Hn Hf Hrec. destruct (t !! a) as [row|] eqn:Ha.
    + left. destruct (H1 a row Ha) as (x' & Hx' & Her & Hei & Hel). simplify_eq. apply elem_of_dom. exists row.
      apply lookup_those. split; [done|]. unfold ready, counted. by rewrite Her, Hei, Hn, Hrec, orb_true_r.
    + destruct (H3 a x Hx Ha) as [?|?]; [lia|by right].
Qed.

(** ** A phone on the desk *)

Module ToyPopulation.

Definition nearby (flags action : Z) : list byte := to_u8 <$> [0x10; 0x02; flags; action].
Definition phone : list byte := str "aa".
Definition phone_next : list byte := str "bb".

(** A phone that can be seen, and two seconds later its next address with the bit gone. *)
Definition locked : list (Z * Op) :=
  [(0, Report phone (-50) (nearby 0x40 0x1e)); (2000, Report phone_next (-52) (nearby 0 0x1e))].

Definition counts (ops : list (Z * Op)) (now : Z) : ApplePopulation :=
  match run ops nobody with Some n => (population now n).1 | None => no_population end.

Lemma population_is_what_was_heard_witness :
  receptive_now (counts (take 1 locked) 19999) = 1 /\
  exists P R : gset (list byte), receptive_now (counts (take 1 locked) 19999) = Z.of_nat (size R) /\ R ⊆ P /\ phone ∈ R.
Proof.
  split; [vm_compute; reflexivity|].
  destruct (population_is_what_was_heard (take 1 locked) 19999) as (n & Hr & P & R & _ & HR & Hsub & _ & _ & Hall).
  - constructor; [cbn; lia|constructor].
  - cbn. lia.
  - exists P, R. unfold counts. rewrite Hr. split; [exact HR|]. split; [exact Hsub|].
    destruct (Hall phone (mkHeard 0 phone (-50) (mkNearbyInfo (to_u8 0x40) (to_u8 0x1e)))) as [H|(z & Hz & Hsucc)];
      [vm_compute; reflexivity|reflexivity|unfold APPLE_SILENT_AFTER; cbn; lia|reflexivity|exact H|].
    exfalso. apply list_elem_of_In in Hz. cbn in Hz. destruct Hz as [<-|[]]. destruct Hsucc as (_ & Hn & _). discriminate Hn.
Defined.

(** The phone is locked: it is present, and receptive no more, the moment its next address is
    heard. *)
Example a_lock_is_seen_at_once :
  counts (take 1 locked) 2000 = mkPopulation true 1 1 /\ counts locked 2000 = mkPopulation true 1 0.
Proof. vm_compute. by split. Qed.

(** Silence takes twenty seconds, and four more until there is no evidence. *)
Example silence_is_slow :
  counts (take 1 locked) 19999 = mkPopulation true 1 1 /\ counts (take 1 locked) 20000 = mkPopulation true 0 0 /\
  counts (take 1 locked) 24000 = mkPopulation false 0 0.
Proof. vm_compute. by split_and!. Qed.

End ToyPopulation.
