(* ===== verification/Peers.v ===== *)
(** * The list of devices ([sharingd/src/main.rs], [getPeers])

    What a client is shown: the AirDrop peers the browser has published, under the names
    learned from them, and the Quick Share peers heard over Bluetooth; the table of the latter
    ([reportBlePeer]); what a probe for a name leaves behind ([probe_name]); and how a row is
    turned back into an address ([resolve]).  The theorems say that the list is a function of
    the tables and not of the order a hash map gives, that a Bluetooth device has one row for
    as long as it is heard, and that a row leads to its own peer. *)

From stdpp Require Import gmap sorting.
From S2P Require Import Prelude Utf8 Utf16 Text Service Dns Ble Mdns.
#[local] Open Scope rust_scope.

Definition PROTOCOL_AIRDROP : Z := 0.
Definition PROTOCOL_QUICKSHARE : Z := 1.
Definition STATE_RECEPTIVE : Z := 0.
Definition STATE_SCREEN_OFF : Z := 1.
Definition STATE_NOT_ACCEPTING : Z := 2.

(** Milliseconds. *)
Definition BLE_PEER_TTL : Z := 20 * 1000.
Definition SCREEN_OFF_HIDE_AFTER : Z := 6 * 1000.
Definition ACCEPT_STALLS_TO_LABEL : Z := 2.

Record BlePeer : Type := mkBlePeer {
  b_name : option (list byte);
  b_mac : option (list byte);
  ble_address : list byte;
  b_psm : Z;
  seen_at : Z
}.

Record Accepting : Type := mkAccepting { stalls : Z; last_attempt : Z }.

Record TarishPeer : Type := mkTarishPeer {
  id : list byte;
  name : list byte;
  model : list byte;
  rssi : Z;
  bluetoothMac : list byte;
  bleAddress : list byte;
  psm : Z;
  protocol : Z;
  state : Z
}.

Abbreviation BlePeers := (gmap (list byte) BlePeer).
(** Keyed by a peer's address; the text of an address determines it. *)
Abbreviation PeerNames := (gmap (list byte) (list byte)).
Abbreviation AcceptState := (gmap (list byte) Accepting).

(** ** Bluetooth *)

Definition still_heard (now : Z) (p : BlePeer) : bool := duration_since now (seen_at p) <? BLE_PEER_TTL.

Definition expire_ble (now : Z) (t : BlePeers) : BlePeers :=
  filter (fun kp : list byte * BlePeer => still_heard now kp.2 = true) t.

(** An advertisement that is listed: it says how to reach its sender, or proves what it is. *)
Definition listable (a : Advertisement) : bool := negb (bool_decide (bluetooth_mac a = None)) || verified a.

Definition reportBlePeer (now : Z) (address service_data : list byte) (t : BlePeers) : BlePeers :=
  match parse_advertisement service_data with
  | None => t
  | Some a =>
      if negb (listable a) then t
      else
        let t := expire_ble now t in
        let t := match bluetooth_mac a with
                 | Some mac => filter (fun kp : list byte * BlePeer => kp.1 = endpoint_id a \/ b_mac kp.2 <> Some mac) t
                 | None => t
                 end in
        <[endpoint_id a := mkBlePeer (device_name a) (bluetooth_mac a) address (unwrap_or (Ble.psm a) 0) now]> t
  end.

(** ** Order *)

(** [str::cmp]. *)
Fixpoint bytes_cmp (a b : list byte) : comparison :=
  match a, b with
  | [], [] => Eq
  | [], _ :: _ => Lt
  | _ :: _, [] => Gt
  | x :: a, y :: b => match u8 x ?= u8 y with Eq => bytes_cmp a b | c => c end
  end.

(** [f(a).cmp(f(b)).then_with(|| g(a).cmp(g(b)))]. *)
Definition then_by {A} (f g : A -> list byte) (a b : A) : comparison :=
  match bytes_cmp (f a) (f b) with Eq => bytes_cmp (g a) (g b) | c => c end.
Definition before {A} (f g : A -> list byte) (a b : A) : Prop := then_by f g a b <> Gt.
#[export] Instance before_dec {A} (f g : A -> list byte) : RelDecision (before f g).
Proof. intros a b. unfold before. apply _. Defined.

(** ** The list *)

Definition dot (b : byte) : bool := u8 b =? 46.
Definition short_id (p : Peer) : list byte := first_part dot (p_instance p).

Definition screen_off_hidden (now : Z) (p : Peer) : bool :=
  match unreceptive_since p with Some t => SCREEN_OFF_HIDE_AFTER <=? duration_since now t | None => false end.

Definition learned (names : PeerNames) (p : Peer) : option (list byte) :=
  let^ a := p_addr p in names !! a.
Definition key_of (names : PeerNames) (p : Peer) : list byte := unwrap_or (learned names p) (p_instance p).
Definition name_of (names : PeerNames) (p : Peer) : list byte := unwrap_or (learned names p) (short_id p).

(** One entry of the map: the newest instance stays. *)
Definition newer (names : PeerNames) (m : gmap (list byte) Peer) (p : Peer) : gmap (list byte) Peer :=
  match m !! key_of names p with
  | Some kept => if last_seen kept <? last_seen p then <[key_of names p := p]> m else m
  | None => <[key_of names p := p]> m
  end.
Definition newest (now : Z) (names : PeerNames) (ps : list Peer) : gmap (list byte) Peer :=
  foldl (newer names) empty (filter (fun p => screen_off_hidden now p = false) ps).

(** [shuffle]: the order in which a hash map gives its values. *)
Section Listing.
Context (shuffle : forall A : Type, list A -> list A).

Definition airdrop_rows (now : Z) (names : PeerNames) (ps : list Peer) : list Peer :=
  merge_sort (before (name_of names) p_instance) (shuffle _ ((map_to_list (newest now names ps)).*2)).

Definition quickshare_row (kp : list byte * BlePeer) : TarishPeer :=
  let (i, p) := kp in
  mkTarishPeer i (unwrap_or (b_name p) i) [] 0 (unwrap_or (b_mac p) []) (ble_address p) (b_psm p) PROTOCOL_QUICKSHARE STATE_RECEPTIVE.
Definition quickshare_rows (now : Z) (t : BlePeers) : list TarishPeer :=
  merge_sort (before name id) (quickshare_row <$> shuffle _ (map_to_list (expire_ble now t))).

Definition state_of (accepting : AcceptState) (p : Peer) : Z :=
  if negb (bool_decide (unreceptive_since p = None)) then STATE_SCREEN_OFF
  else match (let^ a := p_addr p in accepting !! a) with
       | Some a => if ACCEPT_STALLS_TO_LABEL <=? stalls a then STATE_NOT_ACCEPTING else STATE_RECEPTIVE
       | None => STATE_RECEPTIVE
       end.
Definition airdrop_row (names : PeerNames) (accepting : AcceptState) (p : Peer) : TarishPeer :=
  mkTarishPeer (p_instance p) (name_of names p) [] 0 [] [] 0 PROTOCOL_AIRDROP (state_of accepting p).

(** The rows, whether the loop is to ask at once, and the Bluetooth table. *)
Definition getPeers (now : Z) (ps : list Peer) (names : PeerNames) (accepting : AcceptState) (t : BlePeers)
    : list TarishPeer * bool * BlePeers :=
  ((airdrop_row names accepting <$> airdrop_rows now names ps) ++ quickshare_rows now t, is_empty ps, expire_ble now t).
End Listing.

(** ** From a row to its peer *)

Record Target : Type := mkTarget { t_addr : list byte; t_port : Z; t_scope : Z }.

Definition matches (peer_id : list byte) (p : Peer) : bool :=
  bool_decide (short_id p = peer_id) || bool_decide (p_instance p = peer_id).

(** [own]: the interface's address; [scope]: its index. *)
Definition resolve (own : option (list byte)) (scope : option Z) (peer_id : list byte) (ps : list Peer) : option Target :=
  let^ ip := list_find (fun p => matches peer_id p = true) ps in
  let p := ip.2 in
  if negb (bool_decide (p_addr p = None)) && bool_decide (own = p_addr p) then None
  else
    let^ a := p_addr p in
    if p_port p =? 0 then None else let^ s := scope in Some (mkTarget a (p_port p) s).

(** What is cleared here; the loop clears what it owns when it sees the two flags set. *)
Definition refreshPeers (ps : list Peer) (names : PeerNames) : list Peer * PeerNames := ([], empty).

(** ** Probing for a name *)

(** How [discover] ends: an answer, a handshake that is left to die, anything else. *)
Inductive Outcome : Type := Answered (n : option (list byte)) | Stalled | Failed.

(** What the thread does when it has ended. *)
Definition probe_name (now : Z) (key : list byte) (o : Outcome) (names : PeerNames) (acc : AcceptState) : PeerNames * AcceptState :=
  let names := match o with Answered (Some n) => <[key := n]> names | _ => names end in
  let entry := unwrap_or (acc !! key) (mkAccepting 0 now) in
  let n := match o with
           | Answered _ => 0
           | Stalled => Z.min u32_max (stalls entry + 1)
           | Failed => stalls entry
           end in
  (names, <[key := mkAccepting n now]> acc).

(** ** Lemmas *)

Lemma bytes_cmp_eq a : forall b, bytes_cmp a b = Eq <-> a = b.
Proof.
  induction a as [|x a IH]; intros [|y b]; cbn; try done. destruct (u8 x ?= u8 y) eqn:Hc.
  - apply Z.compare_eq, u8_inj in Hc as ->. rewrite IH. split; [by intros ->|by intros [= ->]].
  - split; [done|]. intros [= -> ->]. by rewrite Z.compare_refl in Hc.
  - split; [done|]. intros [= -> ->]. by rewrite Z.compare_refl in Hc.
Qed.

Lemma bytes_cmp_sym a : forall b, bytes_cmp b a = CompOpp (bytes_cmp a b).
Proof. induction a as [|x a IH]; intros [|y b]; cbn; try done. rewrite Z.compare_antisym. by destruct (u8 x ?= u8 y); cbn. Qed.

Lemma bytes_cmp_trans a : forall b c, bytes_cmp a b = Lt -> bytes_cmp b c = Lt -> bytes_cmp a c = Lt.
Proof.
  induction a as [|x a IH]; intros [|y b] [|z c]; cbn; try done.
  destruct (u8 x ?= u8 y) eqn:Hxy; destruct (u8 y ?= u8 z) eqn:Hyz; try done; intros Hab Hbc;
    rewrite ?Z.compare_eq_iff, ?Z.compare_lt_iff in *.
  - rewrite Hxy, Hyz, Z.compare_refl. by eapply IH.
  - by rewrite Hxy, (proj2 (Z.compare_lt_iff _ _) Hyz).
  - by rewrite <- Hyz, (proj2 (Z.compare_lt_iff _ _) Hxy).
  - by rewrite (proj2 (Z.compare_lt_iff (u8 x) (u8 z))) by lia.
Qed.

Section Order.
Context {A : Type} (f g : A -> list byte).

Lemma then_by_sym a b : then_by f g b a = CompOpp (then_by f g a b).
Proof using. unfold then_by. rewrite (bytes_cmp_sym (f a)), (bytes_cmp_sym (g a)). by destruct (bytes_cmp (f a) (f b)). Qed.

#[export] Instance before_total : Total (before f g).
Proof using. intros a b. unfold before. rewrite (then_by_sym a b). destruct (then_by f g a b); [by left|by left|by right]. Qed.

Lemma before_iff a b : before f g a b <-> bytes_cmp (f a) (f b) = Lt \/ (f a = f b /\ (bytes_cmp (g a) (g b) = Lt \/ g a = g b)).
Proof using.
  unfold before, then_by. rewrite <- !bytes_cmp_eq. destruct (bytes_cmp (f a) (f b)); [|naive_solver..].
  destruct (bytes_cmp (g a) (g b)); naive_solver.
Qed.

#[export] Instance before_trans : Transitive (before f g).
Proof using.
  intros a b c. rewrite !before_iff. intros [Hab|[Hab Hab']] [Hbc|[Hbc Hbc']].
  - left. by eapply bytes_cmp_trans.
  - left. by rewrite <- Hbc.
  - left. by rewrite Hab.
  - right. split; [congruence|]. destruct Hab' as [?|Hg]; destruct Hbc' as [?|Hg'].
    + left. by eapply bytes_cmp_trans.
    + left. by rewrite <- Hg'.
    + left. by rewrite Hg.
    + right. congruence.
Qed.

Lemma before_anti a b : before f g a b -> before f g b a -> f a = f b /\ g a = g b.
Proof using.
  unfold before. rewrite (then_by_sym a b). intros Hab Hba.
  assert (Heq : then_by f g a b = Eq) by (by destruct (then_by f g a b)).
  unfold then_by in Heq. destruct (bytes_cmp (f a) (f b)) eqn:Hf; try done. by rewrite !bytes_cmp_eq in *.
Qed.

(** A sorted list without duplicates is determined by its elements. *)
Lemma sorted_once l k :
  (forall a b, a ∈ l -> b ∈ l -> f a = f b -> g a = g b -> a = b) -> Sorted (before f g) l -> Sorted (before f g) k -> l ≡ₚ k -> l = k.
Proof using.
  intros Hinj Hl Hk Hp. eapply Sorted_unique_strong; [exact before_trans| |done..].
  intros a b Ha Hb Hab Hba. destruct (before_anti a b Hab Hba). apply Hinj; [done|by rewrite Hp|done..].
Qed.
End Order.

(** The newest of each key. *)
Definition leads (names : PeerNames) (l : list Peer) (p : Peer) : Prop :=
  p ∈ l /\ forall q, q ∈ l -> key_of names q = key_of names p -> last_seen q <= last_seen p.

Lemma foldl_newer names l :
  let m := foldl (newer names) empty l in
  (forall k p, m !! k = Some p -> key_of names p = k /\ leads names l p) /\ (forall q, q ∈ l -> is_Some (m !! key_of names q)).
Proof.
  induction l as [|x l [IH1 IH2]] using rev_ind; [split; [intros k p Hp; change (foldl _ _ []) with (∅ : gmap (list byte) Peer) in Hp; by apply lookup_empty_Some in Hp|by intros q ?%not_elem_of_nil]|].
  cbn zeta. rewrite foldl_app. cbn [foldl]. set (m := foldl (newer names) empty l) in *. unfold newer.
  assert (Hold : forall k p, m !! k = Some p -> (key_of names x = k -> last_seen x <= last_seen p) -> key_of names p = k /\ leads names (l ++ [x]) p).
  { intros k p Hp Hx. destruct (IH1 k p Hp) as [Hk [Hin Hmax]]. split; [done|]. split; [apply elem_of_app; by left|].
    intros q [Hq| ->%list_elem_of_singleton]%elem_of_app Hkq; [by apply Hmax|apply Hx; congruence]. }
  assert (Hnew : (forall q, q ∈ l -> key_of names q = key_of names x -> last_seen q <= last_seen x) -> leads names (l ++ [x]) x).
  { intros Hmax. split; [apply elem_of_app; right; by left|]. intros q [Hq| ->%list_elem_of_singleton]%elem_of_app Hkq; [by apply Hmax|lia]. }
  destruct (m !! key_of names x) as [kept|] eqn:Hk; [destruct (last_seen kept <? last_seen x) eqn:Hls|].
  - split.
    + intros k p Hp. destruct (decide (key_of names x = k)) as [<-|Hne].
      * rewrite lookup_insert_eq in Hp. injection Hp as <-. split; [done|]. apply Hnew. intros q Hq Hkq.
        destruct (IH1 _ _ Hk) as [Hkk [_ Hmax]]. specialize (Hmax q Hq ltac:(congruence)). lia.
      * rewrite lookup_insert_ne in Hp by done. by apply Hold.
    + intros q [Hq| ->%list_elem_of_singleton]%elem_of_app; [|by rewrite lookup_insert_eq]. rewrite lookup_insert_is_Some'. right. by apply IH2.
  - split.
    + intros k p Hp. apply Hold; [done|]. intros <-. rewrite Hk in Hp. injection Hp as <-. lia.
    + intros q [Hq| ->%list_elem_of_singleton]%elem_of_app; [by apply IH2|by rewrite Hk].
  - split.
    + intros k p Hp. destruct (decide (key_of names x = k)) as [<-|Hne].
      * rewrite lookup_insert_eq in Hp. injection Hp as <-. split; [done|]. apply Hnew. intros q Hq Hkq.
        destruct (IH2 q Hq) as [r Hr]. congruence.
      * rewrite lookup_insert_ne in Hp by done. by apply Hold.
    + intros q [Hq| ->%list_elem_of_singleton]%elem_of_app; [|by rewrite lookup_insert_eq]. rewrite lookup_insert_is_Some'. right. by apply IH2.
Qed.

Definition visible (now : Z) (ps : list Peer) : list Peer := filter (fun p => screen_off_hidden now p = false) ps.

(** No two instances of a device were last seen at the same instant. *)
Definition no_ties (names : PeerNames) (l : list Peer) : Prop :=
  forall p q, p ∈ l -> q ∈ l -> key_of names p = key_of names q -> last_seen p = last_seen q -> p = q.

Lemma elem_of_values {A} (m : gmap (list byte) A) x : x ∈ (map_to_list m).*2 <-> exists k, m !! k = Some x.
Proof.
  rewrite list_elem_of_fmap. split.
  - intros ([k y] & -> & Hk). exists k. by apply elem_of_map_to_list in Hk.
  - intros [k Hk]. exists (k, x). split; [done|]. by apply elem_of_map_to_list.
Qed.

Section Rows.
Context (shuffle : forall A : Type, list A -> list A).
Hypothesis Hshuffle : forall (A : Type) (l : list A), shuffle A l ≡ₚ l.

Lemma airdrop_values now names ps : airdrop_rows shuffle now names ps ≡ₚ (map_to_list (newest now names ps)).*2.
Proof using Hshuffle. unfold airdrop_rows. by rewrite merge_sort_Permutation, Hshuffle. Qed.

Lemma airdrop_leads now names ps p : p ∈ airdrop_rows shuffle now names ps -> leads names (visible now ps) p.
Proof using Hshuffle.
  rewrite airdrop_values, elem_of_values. intros [k Hk]. destruct (foldl_newer names (visible now ps)) as [Hm _].
  by destruct (Hm k p Hk).
Qed.

Lemma airdrop_in now names ps p :
  no_ties names (visible now ps) -> p ∈ airdrop_rows shuffle now names ps <-> leads names (visible now ps) p.
Proof using Hshuffle.
  intros Hties. split; [by apply airdrop_leads|]. intros [Hin Hmax]. rewrite airdrop_values, elem_of_values.
  destruct (foldl_newer names (visible now ps)) as [Hm Hall]. destruct (Hall p Hin) as [r Hr]. destruct (Hm _ _ Hr) as [Hk [Hrin Hrmax]].
  exists (key_of names p). replace p with r at 2; [done|]. apply Hties; [done..|].
  specialize (Hmax r Hrin Hk). specialize (Hrmax p Hin (eq_sym Hk)). lia.
Qed.

Lemma airdrop_keys now names ps : NoDup (key_of names <$> airdrop_rows shuffle now names ps).
Proof using Hshuffle.
  rewrite airdrop_values, <- list_fmap_compose.
  rewrite (list_fmap_ext _ fst); [apply NoDup_fst_map_to_list|].
  intros i [k p] Hi. apply list_elem_of_lookup_2, elem_of_map_to_list in Hi. cbn.
  destruct (foldl_newer names (visible now ps)) as [Hm _]. by destruct (Hm k p Hi).
Qed.

Lemma quickshare_entries now t :
  exists qs, quickshare_rows shuffle now t = quickshare_row <$> qs /\ qs ≡ₚ map_to_list (expire_ble now t).
Proof using Hshuffle.
  assert (Hp : quickshare_rows shuffle now t ≡ₚ quickshare_row <$> map_to_list (expire_ble now t)).
  { unfold quickshare_rows. by rewrite merge_sort_Permutation, Hshuffle. }
  apply Permutation_map_inv in Hp as (qs & Hq & Hp). exists qs. by split.
Qed.

Lemma instances_apart (l : list Peer) p q : NoDup (p_instance <$> l) -> p ∈ l -> q ∈ l -> p_instance p = p_instance q -> p = q.
Proof using.
  intros Hnd [i Hi]%list_elem_of_lookup [j Hj]%list_elem_of_lookup Heq.
  assert (i = j) as ->; [|congruence]. eapply NoDup_lookup; [exact Hnd| |]; rewrite list_lookup_fmap_Some; eauto.
Qed.
End Rows.

Lemma visible_in now ps p : p ∈ visible now ps -> p ∈ ps.
Proof. by intros [_ ?]%list_elem_of_filter. Qed.

(** A list with as many elements and the same ones. *)
Lemma same_rows (l k : list Peer) names :
  NoDup (key_of names <$> l) -> NoDup (key_of names <$> k) -> (forall p, p ∈ l <-> p ∈ k) -> l ≡ₚ k.
Proof. intros Hl%NoDup_fmap_1 Hk%NoDup_fmap_1 Hin. by apply NoDup_Permutation. Qed.

(** ** Bluetooth, over time *)

Record HeardBle : Type := mkHeardBle { e_at : Z; e_from : list byte; e_adv : Advertisement }.

Inductive Op : Type := Report (address service_data : list byte) | Listed.

Definition step (now : Z) (o : Op) (t : BlePeers) : BlePeers :=
  match o with Report address d => reportBlePeer now address d t | Listed => expire_ble now t end.
Definition run (ops : list (Z * Op)) (t : BlePeers) : BlePeers := foldl (fun t o => step o.1 o.2 t) t ops.

Fixpoint timed (from : Z) (ops : list (Z * Op)) (to : Z) : Prop :=
  match ops with
  | [] => from <= to
  | (now, _) :: ops => from <= now /\ timed now ops to
  end.

Definition heard_in (o : Z * Op) : list HeardBle :=
  match o.2 with
  | Report address d =>
      match parse_advertisement d with
      | Some a => if listable a then [mkHeardBle o.1 address a] else []
      | None => []
      end
  | Listed => []
  end.
Definition heard (ops : list (Z * Op)) : list HeardBle := ops ≫= heard_in.
Definition last_of (h : list HeardBle) (i : list byte) : option HeardBle := last_with (fun x => endpoint_id (e_adv x)) i h.

Definition row_of (x : HeardBle) : BlePeer :=
  let a := e_adv x in mkBlePeer (device_name a) (bluetooth_mac a) (e_from x) (unwrap_or (Ble.psm a) 0) (e_at x).

(** [y] is the device that sent [x] under another endpoint id. *)
Definition renamed (x y : HeardBle) : Prop :=
  endpoint_id (e_adv y) <> endpoint_id (e_adv x) /\ e_at x <= e_at y /\
  bluetooth_mac (e_adv x) = bluetooth_mac (e_adv y) /\ bluetooth_mac (e_adv y) <> None.

Record ble_inv (h : list HeardBle) (now : Z) (t : BlePeers) : Prop := mkBleInv {
  bi_row : forall i b, t !! i = Some b -> exists x, last_of h i = Some x /\ b = row_of x;
  bi_gone : forall i x, last_of h i = Some x -> t !! i = None -> e_at x + BLE_PEER_TTL <= now \/ exists y, y ∈ h /\ renamed x y;
  bi_one : forall i j b c, t !! i = Some b -> t !! j = Some c -> b_mac b <> None -> b_mac b = b_mac c -> i = j;
  bi_times : Forall (fun x => e_at x <= now) h
}.

Lemma ble_inv_later h now now' t : now <= now' -> ble_inv h now t -> ble_inv h now' t.
Proof.
  intros Hle [H1 H2 H3 H4]. split; try done.
  - intros i x Hx Hi. destruct (H2 i x Hx Hi) as [?|?]; [left; lia|by right].
  - eapply Forall_impl; [exact H4|]. cbn. lia.
Qed.

Lemma lookup_expire now t i b : expire_ble now t !! i = Some b <-> t !! i = Some b /\ still_heard now b = true.
Proof. unfold expire_ble. by rewrite map_lookup_filter_Some. Qed.

Lemma ble_inv_expire h now t : ble_inv h now t -> ble_inv h now (expire_ble now t).
Proof.
  intros [H1 H2 H3 H4]. split; try done.
  - intros i b [Hi _]%lookup_expire. by apply H1.
  - intros i x Hx Hi. destruct (t !! i) as [b|] eqn:Hb; [left|by apply (H2 i)].
    destruct (H1 i b Hb) as (x' & Hx' & ->). simplify_eq. destruct (still_heard now (row_of x)) eqn:Hs.
    + assert (expire_ble now t !! i = Some (row_of x)) by by apply lookup_expire. congruence.
    + unfold still_heard, duration_since in Hs. cbn in Hs. unfold BLE_PEER_TTL in *. lia.
  - intros i j b c [Hi _]%lookup_expire [Hj _]%lookup_expire. by apply H3.
Qed.

Lemma ble_inv_report h now t address a :
  ble_inv h now t -> listable a = true ->
  ble_inv (h ++ [mkHeardBle now address a]) now
    (<[endpoint_id a := mkBlePeer (device_name a) (bluetooth_mac a) address (unwrap_or (Ble.psm a) 0) now]>
       match bluetooth_mac a with
       | Some mac => filter (fun kp : list byte * BlePeer => kp.1 = endpoint_id a \/ b_mac kp.2 <> Some mac) t
       | None => t
       end).
Proof.
  intros [H1 H2 H3 H4] _. set (x := mkHeardBle now address a). set (t1 := match bluetooth_mac a with Some _ => _ | None => _ end).
  assert (Hsub : forall i b, t1 !! i = Some b -> t !! i = Some b).
  { intros i b. unfold t1. destruct (bluetooth_mac a); [|done]. by intros [? _]%map_lookup_filter_Some. }
  split.
  - intros i b Hi. unfold last_of. rewrite last_with_snoc. case_decide as Hd.
    + cbn in Hd. subst i. rewrite lookup_insert_eq in Hi. injection Hi as <-. by exists x.
    + cbn in Hd. rewrite lookup_insert_ne in Hi by done. by apply H1, Hsub.
  - intros i y Hy Hi. unfold last_of in Hy. rewrite last_with_snoc in Hy. case_decide as Hd; cbn in Hd; [subst i; by rewrite lookup_insert_eq in Hi|].
    rewrite lookup_insert_ne in Hi by done. destruct (t !! i) as [b|] eqn:Hb.
    2:{ destruct (H2 i y Hy Hb) as [?|(z & Hz & ?)]; [by left|right]. exists z. split; [apply elem_of_app; by left|done]. }
    right. exists x. split; [apply elem_of_app; right; by left|]. destruct (H1 i b Hb) as (y' & Hy' & ->). unfold last_of in Hy'. simplify_eq.
    apply last_with_in in Hy as [Hin Hid]. rewrite Forall_forall in H4. specialize (H4 y Hin). cbn in H4.
    unfold t1 in Hi. destruct (bluetooth_mac a) as [m|] eqn:Hm; [|congruence].
    assert (Hmac : bluetooth_mac (e_adv y) = Some m).
    { destruct (decide (bluetooth_mac (e_adv y) = Some m)) as [|Hne]; [done|]. exfalso.
      assert (filter (fun kp : list byte * BlePeer => kp.1 = endpoint_id a \/ b_mac kp.2 <> Some m) t !! i = Some (row_of y)); [|congruence].
      apply map_lookup_filter_Some. split; [done|]. by right. }
    unfold renamed. cbn. rewrite Hmac, Hm. split_and!; congruence || lia.
  - assert (Hnew : forall j c, t1 !! j = Some c -> j <> endpoint_id a -> bluetooth_mac a <> None -> b_mac c <> bluetooth_mac a).
    { intros j c. unfold t1. destruct (bluetooth_mac a) as [m|]; [|done]. intros [_ [Hj|Hc]]%map_lookup_filter_Some Hne _; done. }
    intros i j b c. destruct (decide (endpoint_id a = i)) as [<-|Hi]; destruct (decide (endpoint_id a = j)) as [<-|Hj]; [done|..];
      rewrite ?lookup_insert_eq, ?lookup_insert_ne by done; intros Hb Hc Hne Heq; simplify_eq/=.
    + by destruct (Hnew j c Hc ltac:(done) Hne).
    + destruct (Hnew i b Hb ltac:(done)); congruence.
    + exact (H3 i j b c (Hsub _ _ Hb) (Hsub _ _ Hc) Hne Heq).
  - apply Forall_app. split; [done|]. apply Forall_cons_2; [cbn; lia|constructor].
Qed.

Lemma ble_run ops : forall h t from now, timed from ops now -> ble_inv h from t -> ble_inv (h ++ heard ops) now (run ops t).
Proof.
  induction ops as [|[at_ o] ops IH]; intros h t from now Ht Hinv; cbn [timed] in Ht.
  - rewrite app_nil_r. by eapply ble_inv_later.
  - destruct Ht as [Hle Ht]. apply (ble_inv_later _ _ _ _ Hle) in Hinv. cbn [run foldl].
    change (heard ((at_, o) :: ops)) with (heard_in (at_, o) ++ heard ops). rewrite app_assoc. apply IH with at_; [done|].
    destruct o as [address d|]; cbn [step fst snd heard_in]; [|rewrite app_nil_r; by apply ble_inv_expire].
    unfold reportBlePeer, heard_in. cbn [snd fst]. destruct (parse_advertisement d) as [a|]; [|by rewrite app_nil_r].
    destruct (listable a) eqn:Hl; cbn [negb]; [|by rewrite app_nil_r]. apply ble_inv_report; [by apply ble_inv_expire|done].
Qed.

(** ** Looking a row up *)

Lemma first_part_no_dot s : existsb dot (first_part dot s) = false.
Proof. induction s as [|b s IH]; [done|]. cbn. destruct (dot b) eqn:Hb; [done|]. cbn. by rewrite Hb. Qed.

Lemma find_row (ps : list Peer) p :
  NoDup (p_instance <$> ps) -> p ∈ ps -> existsb dot (p_instance p) = true ->
  exists i, list_find (fun q => matches (p_instance p) q = true) ps = Some (i, p).
Proof.
  intros Hnd Hp Hdot. destruct (list_find _ ps) as [[i q]|] eqn:Hf.
  - exists i. do 2 f_equal. apply list_find_Some in Hf as (Hq & Hm & _). apply list_elem_of_lookup_2 in Hq.
    unfold matches in Hm. apply orb_true_iff in Hm as [Hs%bool_decide_eq_true|Hi%bool_decide_eq_true].
    + pose proof (first_part_no_dot (p_instance q)) as Hno. unfold short_id in Hs. rewrite Hs in Hno. congruence.
    + by apply (instances_apart ps).
  - exfalso. apply list_find_None in Hf. rewrite Forall_forall in Hf. apply (Hf p Hp). unfold matches.
    by rewrite (bool_decide_eq_true_2 _ eq_refl), orb_true_r.
Qed.

(** ** Properties *)

(** C26: what a client is shown is a function of the tables.  If instances are distinct and no
    two of a device were last seen at the same instant, then the AirDrop rows are, for each
    name learned and each peer without one, the instance of it last seen among those not
    hidden, and no other; the Quick Share rows are the devices heard over Bluetooth in the
    last twenty seconds; each part is ordered by name and then by identifier; and neither the
    order in which the peers were published nor the order a hash map gives plays a part. *)
Theorem list_is_canonical shuffle now ps names accepting t :
  (forall (A : Type) (l : list A), shuffle A l ≡ₚ l) -> NoDup (p_instance <$> ps) -> no_ties names (visible now ps) ->
  let rows := (getPeers shuffle now ps names accepting t).1.1 in
  exists out qs, rows = (airdrop_row names accepting <$> out) ++ (quickshare_row <$> qs) /\
    (forall p, p ∈ out <-> leads names (visible now ps) p) /\ NoDup (key_of names <$> out) /\ Sorted (before (name_of names) p_instance) out /\
    (forall i b, (i, b) ∈ qs <-> t !! i = Some b /\ still_heard now b = true) /\ NoDup qs.*1 /\ Sorted (before name id) (quickshare_row <$> qs) /\
    (forall shuffle' ps', (forall (A : Type) (l : list A), shuffle' A l ≡ₚ l) -> ps' ≡ₚ ps ->
       (getPeers shuffle' now ps' names accepting t).1.1 = rows).
Proof.
  intros Hsh Hnd Hties rows. destruct (quickshare_entries shuffle Hsh now t) as (qs & Hqs & Hperm).
  exists (airdrop_rows shuffle now names ps), qs. unfold rows, getPeers. cbn [fst]. split_and!.
  - by rewrite Hqs.
  - intros p. by apply airdrop_in.
  - by apply airdrop_keys.
  - apply Sorted_merge_sort. exact (before_total _ _).
  - intros i b. by rewrite Hperm, elem_of_map_to_list, lookup_expire.
  - rewrite Hperm. apply NoDup_fst_map_to_list.
  - rewrite <- Hqs. apply Sorted_merge_sort. exact (before_total _ _).
  - intros shuffle' ps' Hsh' Hps. f_equal.
    + f_equal. symmetry. apply (sorted_once (name_of names) p_instance).
      * intros p q Hp Hq _ Hi. apply airdrop_leads in Hp as [Hp%visible_in _]; [|done]. apply airdrop_leads in Hq as [Hq%visible_in _]; [|done]. by apply (instances_apart ps).
      * apply Sorted_merge_sort. exact (before_total _ _).
      * apply Sorted_merge_sort. exact (before_total _ _).
      * apply (same_rows _ _ names); [by apply airdrop_keys..|]. intros p.
        assert (Hv : visible now ps' ≡ₚ visible now ps) by (unfold visible; by rewrite Hps).
        rewrite !airdrop_in; [|done|intros x y; rewrite Hv; apply Hties|done|done]. unfold leads. by setoid_rewrite Hv.
    + destruct (quickshare_entries shuffle' Hsh' now t) as (qs' & Hqs' & Hperm'). symmetry. apply (sorted_once name id).
      * rewrite Hqs. intros a b ([i p] & -> & Hp)%list_elem_of_fmap ([j q] & -> & Hq)%list_elem_of_fmap _ Hi. cbn in Hi. subst j.
        rewrite Hperm, elem_of_map_to_list in Hp. rewrite Hperm, elem_of_map_to_list in Hq. congruence.
      * apply Sorted_merge_sort. exact (before_total _ _).
      * apply Sorted_merge_sort. exact (before_total _ _).
      * rewrite Hqs, Hqs'. by rewrite Hperm, Hperm'.
Qed.

(** One row per device, for as long as it is heard.  In every run of reports and listings
    each row is what was last heard under its endpoint id; it is listed for less than twenty
    seconds after; it says how to reach the device or is from an advertisement that proves to
    be one; no two rows have the same Bluetooth address; and an endpoint heard less than twenty
    seconds ago is listed unless its address has appeared under another id since. *)
Theorem bluetooth_rows_are_current ops now :
  timed 0 ops now ->
  let h := heard ops in
  let t := expire_ble now (run ops empty) in
  (forall i b, t !! i = Some b -> exists x, last_of h i = Some x /\ b = row_of x /\ now < e_at x + BLE_PEER_TTL /\
     (b_mac b <> None \/ verified (e_adv x) = true)) /\
  (forall i j b c, t !! i = Some b -> t !! j = Some c -> b_mac b <> None -> b_mac b = b_mac c -> i = j) /\
  (forall i x, last_of h i = Some x -> now < e_at x + BLE_PEER_TTL -> t !! i = Some (row_of x) \/ exists y, y ∈ h /\ renamed x y).
Proof.
  intros Ht h t. assert (Hinv : ble_inv h now (run ops empty)) by (by apply (ble_run ops [] empty 0)).
  pose proof (ble_inv_expire _ _ _ Hinv) as [H1 H2 H3 _]. fold t in H1, H2, H3. split_and!.
  - intros i b Hi. destruct (H1 i b Hi) as (x & Hx & ->). exists x. apply lookup_expire in Hi as [_ Hs].
    unfold still_heard, duration_since in Hs. cbn in Hs. split_and!; [done|done|unfold BLE_PEER_TTL in *; lia|].
    apply last_with_in in Hx as [Hx _]. cbn. apply list_elem_of_bind in Hx as ([at_ o] & Hx & _). unfold heard_in in Hx. cbn [fst snd] in Hx.
    destruct o as [address d|]; [|by apply not_elem_of_nil in Hx]. destruct (parse_advertisement d) as [a|]; [|by apply not_elem_of_nil in Hx].
    destruct (listable a) eqn:Hl; [|by apply not_elem_of_nil in Hx]. apply list_elem_of_singleton in Hx as ->. cbn.
    unfold listable in Hl. apply orb_true_iff in Hl as [Hl|Hl]; [left|by right]. by apply negb_true_iff, bool_decide_eq_false in Hl.
  - exact H3.
  - intros i x Hx Hlt. destruct (t !! i) as [b|] eqn:Hb.
    + left. destruct (H1 i b Hb) as (x' & Hx' & ->). congruence.
    + destruct (H2 i x Hx Hb) as [?|?]; [lia|by right].
Qed.

(** A row leads to its own peer.  The identifier of an AirDrop row that was shown, if it is a name of the
    service's form, resolves, whatever else is in the table, to the address and port of the
    peer the row is for, or to nothing if these are not known yet or are this device's own. *)
Theorem a_row_leads_to_its_peer shuffle now ps names accepting t row :
  (forall (A : Type) (l : list A), shuffle A l ≡ₚ l) -> NoDup (p_instance <$> ps) ->
  row ∈ (getPeers shuffle now ps names accepting t).1.1 -> protocol row = PROTOCOL_AIRDROP -> existsb dot (id row) = true ->
  exists p, p ∈ ps /\ p_instance p = id row /\ name row = name_of names p /\
  forall own scope, resolve own scope (id row) ps =
    match p_addr p, scope with
    | Some a, Some s => if bool_decide (own = Some a) || (p_port p =? 0) then None else Some (mkTarget a (p_port p) s)
    | _, _ => None
    end.
Proof.
  intros Hsh Hnd Hrow Hproto Hdot. unfold getPeers in Hrow. cbn [fst] in Hrow. apply elem_of_app in Hrow as [Hrow|Hrow].
  2:{ exfalso. destruct (quickshare_entries shuffle Hsh now t) as (qs & Hqs & _). rewrite Hqs in Hrow.
      by apply list_elem_of_fmap in Hrow as ([i b] & -> & _). }
  apply list_elem_of_fmap in Hrow as (p & -> & Hp). apply airdrop_leads in Hp as [Hp _]; [|done]. apply visible_in in Hp.
  exists p. split_and!; [done..|]. intros own scope. cbn [airdrop_row id] in *.
  destruct (find_row ps p Hnd Hp Hdot) as [i Hf]. unfold resolve. rewrite Hf. cbn [opt_bind snd].
  destruct (p_addr p) as [a|]; [|reflexivity]. rewrite (bool_decide_eq_false_2 (Some a = None)) by done. cbn [negb andb opt_bind].
  destruct (bool_decide (own = Some a)); cbn [orb]; [by destruct scope|].
  destruct (p_port p =? 0); [by destruct scope|]. by destruct scope.
Qed.

(** ** Two phones and a laptop *)

Module ToyPeers.

Definition as_is (A : Type) (l : list A) : list A := l.
Definition reversed (A : Type) (l : list A) : list A := rev l.

Lemma as_is_perm (A : Type) (l : list A) : as_is A l ≡ₚ l.
Proof. reflexivity. Defined.

Definition address (n : Z) : list byte := to_u8 <$> [0xfe; 0x80; 0; 0; 0; 0; 0; 0; 0; 0; 0; 0; 0; 0; 0; n].
Definition service (i : list byte) : list byte := i ++ str "." ++ AIRDROP_SERVICE.
Definition peer_of (i : list byte) (n seen : Z) : Peer := mkPeer (service i) (i ++ str ".local") 8770 (Some (address n)) seen 120000 0 None false.

Definition phone : Peer := peer_of (str "0123456789ab") 1 1000.
Definition phone_before : Peer := peer_of (str "aaaaaaaaaaaa") 1 500.
Definition laptop : Peer := peer_of (str "a1b2c3d4e5f6") 2 900.

Definition published : list Peer := [phone; laptop; phone_before].
Definition learned_names : PeerNames := {[address 1 := str "Phone"]}.

Lemma published_apart : NoDup (p_instance <$> published).
Proof. apply (bool_decide_unpack _). vm_compute. exact I. Defined.

Lemma published_no_ties : no_ties learned_names (visible 2000 published).
Proof.
  intros p q Hp%visible_in Hq%visible_in _ Hs. unfold published in *.
  repeat (apply elem_of_cons in Hp as [->|Hp]); try (by apply not_elem_of_nil in Hp);
    repeat (apply elem_of_cons in Hq as [->|Hq]); try (by apply not_elem_of_nil in Hq); try reflexivity; discriminate Hs.
Defined.

Definition shown (ps : list Peer) (names : PeerNames) : list TarishPeer := (getPeers as_is 2000 ps names empty empty).1.1.

Lemma list_is_canonical_witness :
  name <$> shown published learned_names = [str "Phone"; str "a1b2c3d4e5f6"] /\
  shown [phone_before; laptop; phone] learned_names = shown published learned_names.
Proof.
  split; [vm_compute; reflexivity|].
  destruct (list_is_canonical as_is 2000 published learned_names empty empty as_is_perm published_apart published_no_ties)
    as (out & qs & _ & _ & _ & _ & _ & _ & _ & H).
  apply H; [exact as_is_perm|]. unfold published. rewrite (Permutation_app_comm [phone; laptop] [phone_before]).
  apply Permutation_skip, Permutation_swap.
Defined.

Lemma a_row_leads_to_its_peer_witness :
  resolve (Some (address 9)) (Some 7) (p_instance phone) published = Some (mkTarget (address 1) 8770 7).
Proof.
  destruct (a_row_leads_to_its_peer as_is 2000 published learned_names empty empty (airdrop_row learned_names empty phone) as_is_perm published_apart)
    as (p & Hp & Hi & _ & H).
  - vm_compute. left.
  - reflexivity.
  - vm_compute. reflexivity.
  - change (id (airdrop_row learned_names empty phone)) with (p_instance phone) in *. rewrite H.
    assert (p = phone) as -> by (apply (instances_apart published); [exact published_apart|exact Hp|vm_compute; left|exact Hi]).
    vm_compute. reflexivity.
Defined.

(** A name that has been learned is taken for the device's identity: of two phones that carry
    the same one only that heard last has a row, and which it is changes from one moment to
    the next. *)
Example two_phones_of_one_name :
  let names := <[address 2 := str "Phone"]> learned_names in
  id <$> shown [phone; laptop] names = [p_instance phone] /\
  id <$> shown [phone; peer_of (str "a1b2c3d4e5f6") 2 1100] names = [p_instance laptop].
Proof. vm_compute. by split. Qed.

(** What a phone advertises, its address or not. *)
Definition advert (i : list byte) (mac : option (list byte)) : list byte :=
  match build_advertisement i [to_u8 9] mac [to_u8 0; to_u8 0] None with Some d => d | None => [] end.
Definition some_mac : option (list byte) := Some (to_u8 <$> [1; 2; 3; 4; 5; 6]).
Definition rotation : list (Z * Op) :=
  [(0, Report (str "le1") (advert (str "ABCD") some_mac)); (1000, Report (str "le2") (advert (str "EFGH") some_mac))].

Lemma bluetooth_rows_are_current_witness :
  (fst <$> map_to_list (run rotation empty)) = [str "EFGH"] /\
  exists x, last_of (heard rotation) (str "EFGH") = Some x /\ 5000 < e_at x + BLE_PEER_TTL.
Proof.
  split; [vm_compute; reflexivity|].
  destruct (bluetooth_rows_are_current rotation 5000) as [H _]; [cbn; lia|].
  destruct (expire_ble 5000 (run rotation empty) !! str "EFGH") as [b|] eqn:Hb; [|vm_compute in Hb; discriminate Hb].
  destruct (H _ b Hb) as (x & Hx & _ & Hlt & _). exists x. split; [exact Hx|exact Hlt].
Defined.

(** An advertisement that proves what it is is listed with no way to reach its sender. *)
Example unreachable_peer_is_listed :
  (fun b => (b_mac b, b_psm b)) <$> (run [(0, Report (str "le1") (advert (str "ABCD") None))] empty !! str "ABCD") = Some (None, 0).
Proof. vm_compute. reflexivity. Qed.

End ToyPeers.
