(* ===== verification/Browse.v ===== *)
(** * The discovery loop ([sharingd/src/main.rs], [start_discovery])

    The thread that drives the browser: it binds and rebinds the socket, asks peers for their
    names, makes advertising follow the visibility flag, paces queries and probes, and turns
    what Bluetooth says into labels and into the gate on evictions.  One pass of the loop is a
    function of what it reads, made of one function for each paragraph of the source; a run is
    any number of passes, and between them the link, the clock, clients and the threads that
    probe for names do what they like. *)

From stdpp Require Import gmap sorting.
From S2P Require Import Prelude Utf8 Utf16 Text Service Dns Apple Ble Mdns Population Peers.

(** Milliseconds. *)
Definition PROBE_EVERY : Z := 5 * 1000.
Definition PROBE_BURST : Z := 3.
Definition PROBE_BURST_EVERY : Z := 2 * 1000.
Definition QUERY_MIN : Z := 2 * 1000.
Definition QUERY_MAX : Z := 30 * 1000.
Definition PROBE_NAME_MAX : Z := 10.
Definition ACCEPT_PROBE_EVERY : Z := 60 * 1000.
Definition LABEL_DEBOUNCE_TICKS : Z := 6.
Definition TICK : Z := 500.

Definition probe_name_backoff (attempts : Z) : Z :=
  1000 * (if attempts =? 1 then 3 else if attempts =? 2 then 10 else if attempts =? 3 then 20 else if attempts =? 4 then 40 else 60).

(** ** State *)

(** The tables other threads see. *)
Record Shared : Type := mkShared { published : list Peer; names : PeerNames; accepting : AcceptState }.

(** The browser and what it is bound to; [was_advertising] is the loop's own flag. *)
Record Bound : Type := mkBound {
  browser : Browser;
  bound_idx : Z;
  bound_addr : option (list byte);
  failures : Z;
  was_advertising : bool
}.

Record Pace : Type := mkPace {
  since_query : Z;
  since_announce : Z;
  since_probe : Z;
  burst_left : Z;
  query_every : Z;
  last_listed : Z
}.

(** [probed]: attempts and when the last one started, for each instance.  [started]: the
    probes for names that were started, with the time. *)
Record Sys : Type := mkSys {
  world : World;
  shared : Shared;
  bound : Bound;
  pace : Pace;
  probed : gmap (list byte) (Z * Z);
  last_pop : ApplePopulation;
  unreceptive_ticks : Z;
  started : list (Z * (list byte * Target))
}.

(** What a pass reads.  [idx]: the interface's index, zero if there is none.  [fresh_], [moved],
    [stale]: whether a new browser can be made when the index is new, the address is, or the
    socket fails; the value says whether it has the port.  The flags as they are found when
    they are taken.  [before_poll] and [after_poll] are instants. *)
Record Reads : Type := mkReads {
  idx : Z;
  fresh_ : option bool;
  moved : option bool;
  stale : option bool;
  stale_idx : Z;
  scope : option Z;
  reset : bool;
  want : bool;
  refresh : bool;
  asked : bool;
  nudged : bool;
  pop : ApplePopulation;
  before_poll : Z;
  rx : list (option (Z * list byte));
  after_poll : Z
}.

Definition with_shared (sh : Shared) (s : Sys) : Sys := mkSys (world s) sh (bound s) (pace s) (probed s) (last_pop s) (unreceptive_ticks s) (started s).
Definition with_bound (l : Bound) (w : World) (s : Sys) : Sys := mkSys w (shared s) l (pace s) (probed s) (last_pop s) (unreceptive_ticks s) (started s).
Definition with_pace (p : Pace) (s : Sys) : Sys := mkSys (world s) (shared s) (bound s) p (probed s) (last_pop s) (unreceptive_ticks s) (started s).
Definition with_browser (b : Browser) (w : World) (s : Sys) : Sys :=
  let l := bound s in with_bound (mkBound b (bound_idx l) (bound_addr l) (failures l) (was_advertising l)) w s.
Definition with_flag (f : bool) (s : Sys) : Sys :=
  let l := bound s in with_bound (mkBound (browser l) (bound_idx l) (bound_addr l) (failures l) f) (world s) s.
Definition set_since_query (t : Z) (p : Pace) : Pace := mkPace t (since_announce p) (since_probe p) (burst_left p) (query_every p) (last_listed p).
Definition set_since_announce (t : Z) (p : Pace) : Pace := mkPace (since_query p) t (since_probe p) (burst_left p) (query_every p) (last_listed p).
Definition set_burst (n : Z) (p : Pace) : Pace := mkPace (since_query p) (since_announce p) (since_probe p) n (query_every p) (last_listed p).

Section Loop.
Context (ifc : list byte).

(** ** Binding *)

(** The interface is gone. *)
Definition gone (s : Sys) : Sys :=
  let l := bound s in
  if negb (bound_idx l =? 0) then
    with_shared (mkShared [] (names (shared s)) (accepting (shared s)))
      (with_bound (mkBound (browser l) 0 (bound_addr l) (failures l) false) (world s) s)
  else s.

(** It has a new index; [None]: not yet. *)
Definition bind (x : Reads) (s : Sys) : option Sys :=
  if idx x =? bound_idx (bound s) then Some s
  else match fresh_ x with
       | Some port =>
           let (b, w) := new ifc port (before_poll x) (world s) in
           Some (with_pace (set_since_query 99000 (pace s)) (with_bound (mkBound b (idx x) (link_local_of ifc w) 0 false) w s))
       | None => None
       end.

(** It has a new address. *)
Definition follow_address (x : Reads) (s : Sys) : Sys :=
  let now_addr := link_local_of ifc (world s) in
  if negb (bool_decide (now_addr = None)) && negb (bool_decide (now_addr = bound_addr (bound s))) then
    match moved x with
    | Some port =>
        let (b, w) := new ifc port (before_poll x) (world s) in
        with_bound (mkBound b (bound_idx (bound s)) now_addr (failures (bound s)) false) w s
    | None => s
    end
  else s.

(** ** Names *)

(** What the loop over the published peers has so far. *)
Record Asking : Type := mkAsking { a_accepting : AcceptState; a_probed : gmap (list byte) (Z * Z); to_probe : list (list byte * (list byte * Z)) }.

(** A peer whose name is known is asked again on a slow cadence, ... *)
Definition ask_named (now : Z) (p : Peer) (a : list byte) (k : Asking) : Asking :=
  let e := unwrap_or (a_accepting k !! a) (mkAccepting 0 (now - ACCEPT_PROBE_EVERY)) in
  if ACCEPT_PROBE_EVERY <=? duration_since now (last_attempt e) then
    mkAsking (<[a := mkAccepting (stalls e) now]> (a_accepting k)) (a_probed k) (to_probe k ++ [(p_instance p, (a, p_port p))])
  else mkAsking (<[a := e]> (a_accepting k)) (a_probed k) (to_probe k).

(** ... one that has none a number of times. *)
Definition ask_unnamed (now : Z) (p : Peer) (a : list byte) (k : Asking) : Asking :=
  let '(attempts, due) :=
    match a_probed k !! p_instance p with
    | None => (0, true)
    | Some (n, last) => (n, (n <? PROBE_NAME_MAX) && (probe_name_backoff n <=? duration_since now last))
    end in
  if due : bool then
    mkAsking (a_accepting k) (<[p_instance p := (attempts + 1, now)]> (a_probed k)) (to_probe k ++ [(p_instance p, (a, p_port p))])
  else k.

Definition ask (now : Z) (known : PeerNames) (k : Asking) (p : Peer) : Asking :=
  match p_addr p with
  | None => k
  | Some a =>
      if p_port p =? 0 then k
      else if negb (bool_decide (known !! a = None)) then ask_named now p a k else ask_unnamed now p a k
  end.

Definition ask_names (x : Reads) (s : Sys) : Sys :=
  let sh := shared s in
  let now := before_poll x in
  let k := foldl (ask now (names sh)) (mkAsking (accepting sh) (probed s) []) (published sh) in
  let probes := match scope x with
                | Some sc => (fun p : list byte * (list byte * Z) => (now, (p.1, mkTarget p.2.1 p.2.2 sc))) <$> to_probe k
                | None => []
                end in
  mkSys (world s) (mkShared (published sh) (names sh) (a_accepting k)) (bound s) (pace s) (a_probed k) (last_pop s) (unreceptive_ticks s)
    (started s ++ probes).

(** ** Advertising *)

Definition renew_identity (x : Reads) (s : Sys) : Sys :=
  if reset x then
    let '(b, w) := if was_advertising (bound s) then let '(_, b, w) := stop_advertising (browser (bound s)) (world s) in (b, w)
                   else (browser (bound s), world s) in
    let '(_, b, w) := reset_identity b w in
    with_flag false (with_browser b w s)
  else s.

Definition follow_flag (x : Reads) (s : Sys) : Sys :=
  let was := was_advertising (bound s) in
  if want x && negb was then
    let '(ok, b, w) := advertise (browser (bound s)) (world s) in
    let s := with_browser b w s in
    if ok then with_pace (set_since_announce 0 (pace s)) (with_flag true s) else s
  else if negb (want x) && was then
    let '(_, b, w) := stop_advertising (browser (bound s)) (world s) in with_flag false (with_browser b w s)
  else s.

Definition reannounce (s : Sys) : Sys :=
  if was_advertising (bound s) && (1000 <=? since_announce (pace s)) then
    let (_, w) := announce (browser (bound s)) (world s) in
    with_pace (set_since_announce 0 (pace s)) (with_browser (browser (bound s)) w s)
  else s.

(** ** Asking *)

Definition start_over (x : Reads) (s : Sys) : Sys :=
  if refresh x then
    let s := with_browser (forget_peers (browser (bound s))) (world s) s in
    mkSys (world s) (mkShared [] (names (shared s)) (accepting (shared s))) (bound s) (pace s) empty (last_pop s) (unreceptive_ticks s) (started s)
  else s.

Definition requery (x : Reads) (s : Sys) : Sys :=
  let listed := peer_count (browser (bound s)) in
  let p := pace s in
  let every := if asked x || negb (listed =? last_listed p) then QUERY_MIN else query_every p in
  let b := if asked x then restart_query_burst (browser (bound s)) else browser (bound s) in
  if every <=? since_query p then
    let '(ok, b, w) := query b (world s) in
    let l := bound s in
    with_pace (mkPace 0 (since_announce p) (since_probe p) (burst_left p) (Z.min (every * 2) QUERY_MAX) listed)
      (with_bound (mkBound b (bound_idx l) (bound_addr l) (if ok then 0 else failures l + 1) (was_advertising l)) w s)
  else
    with_pace (mkPace (since_query p) (since_announce p) (since_probe p) (burst_left p) every listed)
      (with_browser b (world s) s).

(** Three queries in a row that failed. *)
Definition replace_stale (x : Reads) (s : Sys) : Sys :=
  if 3 <=? failures (bound s) then
    match stale x with
    | Some port =>
        let (b, w) := new ifc port (before_poll x) (world s) in
        with_pace (set_since_query 99000 (pace s)) (with_bound (mkBound b (stale_idx x) (bound_addr (bound s)) 0 false) w s)
    | None => s
    end
  else s.

(** ** Liveness *)

Definition react (x : Reads) (s : Sys) : Sys :=
  let p := pace s in
  let changed := negb (bool_decide (pop x = last_pop s)) in
  let burst := if changed && (receptive_now (pop x) <? receptive_now (last_pop s)) && (burst_left p =? 0) then PROBE_BURST else burst_left p in
  let burst := if nudged x && (burst =? 0) then PROBE_BURST else burst in
  let every := if 0 <? burst then PROBE_BURST_EVERY else PROBE_EVERY in
  let s := mkSys (world s) (shared s) (bound s) (pace s) (probed s) (pop x) (unreceptive_ticks s) (started s) in
  if every <=? since_probe p then
    let '(_, b, w) := probe (browser (bound s)) (world s) in
    with_pace (mkPace (since_query p) (since_announce p) 0 (if 0 <? burst then burst - 1 else burst) (query_every p) (last_listed p))
      (with_browser b w s)
  else with_pace (set_burst burst p) s.

(** The population covers every listed peer and none of it is receptive. *)
Definition none_receptive (q : ApplePopulation) (listed : Z) : bool :=
  live q && (0 <? listed) && (receptive_now q =? 0) && (listed <=? present q).
(** Bluetooth accounts for every listed peer. *)
Definition vouches (q : ApplePopulation) (listed : Z) : bool := live q && (listed <=? receptive_now q).

Definition label (x : Reads) (s : Sys) : Sys :=
  let b := browser (bound s) in
  let listed := peer_count b in
  let ticks := if none_receptive (pop x) listed then unreceptive_ticks s + 1 else 0 in
  let b := mark_unreceptive (before_poll x) (LABEL_DEBOUNCE_TICKS <=? ticks) b in
  let b := set_probe_eviction (before_poll x) (negb (vouches (pop x) listed)) b in
  let s := with_browser b (world s) s in
  mkSys (world s) (shared s) (bound s) (pace s) (probed s) (last_pop s) ticks (started s).

Definition listen (x : Reads) (s : Sys) : Sys :=
  let '(_, _, b, w) := poll (rx x) (browser (bound s)) (world s) in
  let b := expire 45000 (after_poll x) b in
  let s := with_browser b w s in
  with_shared (mkShared (peers b w) (names (shared s)) (accepting (shared s))) s.

(** The half second at the end. *)
Definition doze (s : Sys) : Sys :=
  let p := pace s in
  with_pace (mkPace (since_query p + TICK) (since_announce p + TICK) (since_probe p + TICK) (burst_left p) (query_every p) (last_listed p)) s.

(** ** A pass *)

(** Up to where the flag is followed; then to the end. *)
Definition open_ (x : Reads) (s : Sys) : Sys := ask_names x (follow_address x s).
Definition advertise_ (x : Reads) (s : Sys) : Sys := reannounce (follow_flag x (renew_identity x s)).
Definition browse (x : Reads) (s : Sys) : Sys := react x (replace_stale x (requery x (start_over x s))).

Definition prepared (x : Reads) (s : Sys) : Sys := label x (browse x (advertise_ x (open_ x s))).

(** With an interface and a socket; otherwise the loop starts over. *)
Definition pass (x : Reads) (s : Sys) : bool * Sys :=
  if idx x =? 0 then (false, gone s)
  else match bind x s with
       | None => (false, s)
       | Some s => (true, doze (listen x (prepared x s)))
       end.

(** The loop starts with a browser made when the interface first came up. *)
Definition start (port : bool) (now : Z) (idx_ : Z) (w : World) : Sys :=
  let (b, w) := new ifc port now w in
  mkSys w (mkShared [] empty empty) (mkBound b idx_ (link_local_of ifc w) 0 false) (mkPace 99000 0 0 0 QUERY_MIN 0) empty no_population 0 [].

(** Before each pass a client may have cleared the list, others have learned names, and the link
    has changed. *)
Record Step : Type := mkStep {
  clears : bool;
  learns : PeerNames -> PeerNames;
  judges : AcceptState -> AcceptState;
  around : World -> World;
  reads : Reads
}.
Definition meanwhile (st : Step) (s : Sys) : Sys :=
  let sh := shared s in
  with_bound (bound s) (around st (world s))
    (with_shared (mkShared (if clears st then [] else published sh) (learns st (names sh)) (judges st (accepting sh))) s).

Definition step (s : Sys) (st : Step) : Sys := (pass (reads st) (meanwhile st s)).2.
Definition run (sts : list Step) (s : Sys) : Sys := foldl step s sts.

End Loop.

(** ** Lemmas *)

(** *** The socket *)

(** What packets and sends preserve, reading the socket does. *)
Lemma poll_rule (P : Browser -> World -> Prop) :
  (forall now packet rec b w, P b w -> let '(b, w) := absorb_one now packet rec b w in P b w) ->
  (forall d pkt b w, P b w -> P b (send_to d pkt w).2) ->
  forall n got rx b w, P b w -> let '(_, _, b, w) := poll_loop n got rx b w in P b w.
Proof.
  intros Hab Hsend.
  assert (Hall : forall now packet rs b w, P b w -> let '(b, w) := absorb now packet rs b w in P b w).
  { intros now packet rs. induction rs as [|rec rs IH]; intros b w Hp; [done|]. cbn [absorb].
    specialize (Hab now packet rec b w Hp). destruct (absorb_one now packet rec b w). by apply IH. }
  induction n as [|n IH]; intros got rx b w Hp; [by destruct rx|]. cbn [poll_loop].
  destruct rx as [|[[now d]|] rx]; [done| |done]. unfold on_packet. destruct (Dns.parse (take 4096 d)) as [m|]; [|by apply IH].
  specialize (Hall now (take 4096 d) (records m) b w Hp). destruct (absorb now (take 4096 d) (records m) b w) as [b1 w1].
  apply IH. destruct (advertising b1); [|done]. unfold answer. case_match; [|done]. by apply Hsend.
Qed.

(** Every send succeeds. *)
Definition up (w : World) : Prop := link w = [].

Lemma send_up d pkt w : up w -> (send_to d pkt w).1 = true /\ up (send_to d pkt w).2.
Proof. unfold send_to, up. intros Hw. by rewrite Hw. Qed.

Lemma stable_instance_up w : up w -> up (stable_instance w).2.
Proof.
  unfold stable_instance, mint_identity, draw, write_identity, up. intros Hw. repeat case_match; simplify_eq/=; done.
Qed.

Lemma mint_up w : up w -> up (mint_identity w).2.
Proof. unfold mint_identity, draw, write_identity, up. intros Hw. repeat case_match; simplify_eq/=; done. Qed.

Lemma goodbye_up n pkt ok w : up w -> up (goodbye_loop n pkt ok w).2.
Proof.
  revert ok w. induction n as [|n IH]; intros ok w Hw; [done|]. cbn [goodbye_loop]. unfold send_multicast.
  destruct (send_up Multicast pkt w Hw) as [_ Hup]. destruct (send_to Multicast pkt w) as [ok' w']. by apply IH.
Qed.

(** What a packet leaves alone in the browser. *)
Lemma absorb_one_flags now packet rec b w :
  let '(b', w') := absorb_one now packet rec b w in
  advertising b' = advertising b /\ can_respond b' = can_respond b /\ (up w -> up w').
Proof.
  unfold absorb_one, on_ptr, on_srv, on_aaaa, is_self_instance. pose proof (stable_instance_up w) as Hs.
  repeat (case_match; simplify_eq/=; try done).
Qed.

Lemma poll_flags x b w :
  let '(_, _, b', w') := poll x b w in advertising b' = advertising b /\ can_respond b' = can_respond b /\ (up w -> up w').
Proof.
  apply (poll_rule (fun b' w' => advertising b' = advertising b /\ can_respond b' = can_respond b /\ (up w -> up w'))); [|intros d pkt b' w' (H1 & H2 & H3)|done].
  - intros now packet rec b' w' (H1 & H2 & H3). pose proof (absorb_one_flags now packet rec b' w') as Hf.
    destruct (absorb_one now packet rec b' w') as [b2 w2]. destruct Hf as (F1 & F2 & F3). split_and!; [congruence..|by auto].
  - split_and!; [done..|]. intros Hw. by apply send_up, H3.
Qed.

Lemma probe_up ps n t w : up w -> let '(_, _, w') := probe_loop ps n t w in up w'.
Proof.
  revert n t w. induction ps as [|[k p] ps IH]; intros n t w Hw; [done|]. cbn [probe_loop]. destruct (p_addr p) as [a|]; [|by apply IH].
  destruct (send_up (Unicast a) (query_with AIRDROP_SERVICE true) w Hw) as [H1 H2].
  destruct (send_to (Unicast a) (query_with AIRDROP_SERVICE true) w) as [ok w1]. cbn in H1. subst ok. by apply IH.
Qed.

Section Runs.
Context (ifc : list byte).

(** *** Advertising *)

(** Sends work, and the loop's flag says what the browser does. *)
Definition sound (b : Browser) : Prop := advertising b = true -> can_respond b = true.
Definition steady (s : Sys) : Prop :=
  up (world s) /\ failures (bound s) = 0 /\
  (bound_idx (bound s) <> 0 -> was_advertising (bound s) = advertising (browser (bound s)) /\ sound (browser (bound s))).
Definition agrees (s : Sys) : Prop :=
  up (world s) /\ failures (bound s) = 0 /\ was_advertising (bound s) = advertising (browser (bound s)) /\ sound (browser (bound s)).
(** ... and it does what is wanted. *)
Definition settled (on : bool) (s : Sys) : Prop :=
  agrees s /\ advertising (browser (bound s)) = on && can_respond (browser (bound s)).

Lemma new_off port now w : up w -> let '(b, w') := new ifc port now w in advertising b = false /\ up w'.
Proof using. intros Hw. unfold new. pose proof (stable_instance_up w Hw). by destruct (stable_instance w). Qed.

Lemma off_sound b : advertising b = false -> sound b.
Proof using. intros Hb. unfold sound. by rewrite Hb. Qed.

Lemma bind_agrees x s s' : idx x <> 0 -> steady s -> bind ifc x s = Some s' -> agrees s'.
Proof using.
  intros Hi (Hw & Hf & Ha) Hb. unfold bind in Hb. destruct (idx x =? bound_idx (bound s)) eqn:He.
  - injection Hb as <-. split_and!; [done|done|apply Ha; lia..].
  - destruct (fresh_ x) as [port|]; [|done]. pose proof (new_off port (before_poll x) (world s) Hw) as Hn.
    destruct (new ifc port (before_poll x) (world s)) as [b w]. injection Hb as <-. destruct Hn as [Hn ?].
    split_and!; [done|done|done|by apply off_sound].
Qed.

Lemma open_agrees x s : agrees s -> agrees (open_ ifc x s).
Proof using.
  intros (Hw & Hf & Ha & Hs). unfold open_, follow_address. destruct (_ && _); [|done]. destruct (moved x) as [port|]; [|done].
  pose proof (new_off port (before_poll x) (world s) Hw) as Hn. destruct (new ifc port (before_poll x) (world s)) as [b w].
  destruct Hn as [Hn ?]. split_and!; [done|done|done|by apply off_sound].
Qed.

Lemma stop_off b w : up w -> let '(_, b', w') := stop_advertising b w in up w' /\ advertising b' = false.
Proof using.
  intros Hw. unfold stop_advertising. destruct (advertising b) eqn:Had; cbn [negb]; [|done]. unfold goodbye.
  set (pkt := response _). pose proof (goodbye_up 3 pkt true w Hw). by destruct (goodbye_loop 3 pkt true w).
Qed.

Lemma reset_off b w : up w -> let '(_, b', w') := reset_identity b w in up w' /\ advertising b' = advertising b /\ can_respond b' = can_respond b.
Proof using. intros Hw. unfold reset_identity. pose proof (mint_up w Hw). by destruct (mint_identity w). Qed.

Lemma renew_agrees x s : agrees s -> agrees (renew_identity x s).
Proof using.
  intros (Hw & Hf & Ha & Hs). unfold renew_identity. destruct (reset x); [|done]. destruct (was_advertising (bound s)) eqn:Hwas.
  - pose proof (stop_off (browser (bound s)) (world s) Hw) as Hstop. destruct (stop_advertising _ _) as [[ok b] w]. destruct Hstop as [Hup Hoff].
    pose proof (reset_off b w Hup) as Hr. destruct (reset_identity b w) as [[i b'] w']. destruct Hr as (H1 & H2 & H3).
    split_and!; [done|done|cbn; congruence|]. apply off_sound. cbn. congruence.
  - pose proof (reset_off (browser (bound s)) (world s) Hw) as Hr. destruct (reset_identity _ _) as [[i b'] w']. destruct Hr as (H1 & H2 & H3).
    split_and!; [done|done|cbn; congruence|]. apply off_sound. cbn. congruence.
Qed.

Lemma follow_settles x s : agrees s -> settled (want x) (follow_flag x s).
Proof using.
  intros (Hw & Hf & Ha & Hs). unfold follow_flag, settled, agrees. destruct (want x) eqn:Hx; cbn [andb negb].
  - destruct (was_advertising (bound s)) eqn:Hwas; cbn [negb].
    + rewrite Hwas. split_and!; [done..|]. rewrite <- Ha. cbn. symmetry. apply Hs. congruence.
    + unfold advertise. destruct (can_respond (browser (bound s))) eqn:Hcr; cbn [negb].
      * unfold announce. cbn [advertising set_advertising negb]. set (pkt := response _). unfold send_multicast.
        destruct (send_up Multicast pkt (world s) Hw) as [H1 H2]. destruct (send_to Multicast pkt (world s)) as [ok w]. cbn in H1. subst ok.
        by split_and!; [done..|intros _|cbn; rewrite Hcr].
      * cbn. rewrite Hwas, <- Ha, Hcr. split_and!; [done..|by apply off_sound|done].
  - destruct (was_advertising (bound s)) eqn:Hwas; cbn [negb].
    + pose proof (stop_off (browser (bound s)) (world s) Hw) as Hstop. destruct (stop_advertising _ _) as [[ok b] w]. destruct Hstop as [Hup Hoff].
      split_and!; [done|done|done|by apply off_sound|done].
    + rewrite Hwas. by split_and!.
Qed.

(** The stages after it leave it so. *)
Lemma settled_frame on s s' :
  settled on s -> up (world s') -> failures (bound s') = 0 -> was_advertising (bound s') = was_advertising (bound s) ->
  advertising (browser (bound s')) = advertising (browser (bound s)) -> can_respond (browser (bound s')) = can_respond (browser (bound s)) ->
  settled on s'.
Proof using.
  intros [(Hw & Hf & Ha & Hs) Hon] Hw' Hf' H1 H2 H3. split; [|congruence]. split_and!; [done|done|congruence|]. intros Hx. rewrite H3. apply Hs. congruence.
Qed.

Lemma reannounce_settled on s : settled on s -> settled on (reannounce s).
Proof using.
  intros Hst. pose proof Hst as [(Hw & Hf & Ha & Hs) Hon]. unfold reannounce. destruct (was_advertising _ && _); [|done]. unfold announce.
  destruct (negb _); [by apply (settled_frame on s)|]. unfold send_multicast. set (pkt := response _).
  destruct (send_up Multicast pkt (world s) Hw) as [_ H2]. destruct (send_to Multicast pkt (world s)). by apply (settled_frame on s).
Qed.

Lemma requery_settled x on s : settled on s -> settled on (requery x s).
Proof using.
  intros Hst. pose proof Hst as [(Hw & Hf & Ha & Hs) Hon]. unfold requery. set (b := if asked x then _ else _).
  assert (Hb : advertising b = advertising (browser (bound s)) /\ can_respond b = can_respond (browser (bound s))) by (subst b; by destruct (asked x)).
  destruct Hb as [Hb1 Hb2]. destruct (_ <=? _); [|by apply (settled_frame on s)]. unfold query. set (pkt := query_with _ _).
  destruct (send_up Multicast pkt (world s) Hw) as [H1 H2]. destruct (send_to Multicast pkt (world s)) as [ok w]. cbn in H1. subst ok. cbn [negb].
  match goal with |- context [if ?c then set_table _ _ else _] => destruct c end; (apply (settled_frame on s); [exact Hst|exact H2|done|done|exact Hb1|exact Hb2]).
Qed.

Lemma replace_settled x on s : settled on s -> settled on (replace_stale ifc x s).
Proof using. intros Hst. pose proof Hst as [(Hw & Hf & _) _]. unfold replace_stale. rewrite Hf. done. Qed.

Lemma react_settled x on s : settled on s -> settled on (react x s).
Proof using.
  intros Hst. pose proof Hst as [(Hw & Hf & Ha & Hs) Hon]. unfold react. destruct (_ <=? _); [|by apply (settled_frame on s)].
  cbn [bound world browser]. unfold probe. pose proof (probe_up (map_to_list (table (browser (bound s)))) 0 (table (browser (bound s))) (world s) Hw) as Hp.
  destruct (probe_loop _ _ _ _) as [[n t] w]. by apply (settled_frame on s).
Qed.

Lemma listen_settled x on s : settled on s -> settled on (listen x s).
Proof using.
  intros Hst. pose proof Hst as [(Hw & Hf & Ha & Hs) Hon]. unfold listen. pose proof (poll_flags (rx x) (browser (bound s)) (world s)) as Hp.
  destruct (poll _ _ _) as [[[n r] b] w]. destruct Hp as (H1 & H2 & H3). apply (settled_frame on s); [done|by apply H3|done..].
Qed.

Lemma pass_settles x s :
  steady s -> let '(done_, s') := pass ifc x s in steady s' /\ (done_ = true -> settled (want x) s').
Proof using.
  intros Hs. unfold pass. destruct (idx x =? 0) eqn:Hi.
  - split; [|done]. destruct Hs as (Hw & Hf & Ha). unfold gone. destruct (negb _); [|done]. by split_and!.
  - destruct (bind ifc x s) as [s1|] eqn:Hb; [|done]. apply bind_agrees in Hb; [|lia|done].
    assert (Hset : settled (want x) (doze (listen x (prepared ifc x s1)))).
    { assert (Hd : forall s', settled (want x) s' -> settled (want x) (doze s')) by (intros s' Hs'; by apply (settled_frame (want x) s'); try apply Hs').
      assert (Hl : forall s', settled (want x) s' -> settled (want x) (label x s')) by (intros s' Hs'; by apply (settled_frame (want x) s'); try apply Hs').
      assert (Ho : forall s', settled (want x) s' -> settled (want x) (start_over x s')).
      { intros s' Hs'. unfold start_over. destruct (refresh x); [|done]. by apply (settled_frame (want x) s'); try apply Hs'. }
      by apply Hd, listen_settled, Hl, react_settled, replace_settled, requery_settled, Ho, reannounce_settled, follow_settles, renew_agrees, open_agrees. }
    split; [|done]. destruct Hset as [(H1 & H2 & H3 & H4) _]. by split_and!.
Qed.

Lemma start_steady port now i w : up w -> steady (start ifc port now i w).
Proof using.
  intros Hw. unfold start. pose proof (new_off port now w Hw) as Hn. destruct (new ifc port now w) as [b w']. destruct Hn.
  split_and!; [done|done|]. intros _. split; [done|by apply off_sound].
Qed.

Lemma run_steady sts s : Forall (fun st => forall w, up w -> up (around st w)) sts -> steady s -> steady (run ifc sts s).
Proof using.
  revert s. induction sts as [|st sts IH]; intros s Hall Hs; [done|]. apply Forall_cons in Hall as [Hst Hall]. cbn [run foldl]. apply IH; [done|].
  unfold step. assert (Hm : steady (meanwhile st s)) by (destruct Hs as (Hw & Hf & Ha); split_and!; [by apply Hst|done..]).
  pose proof (pass_settles (reads st) _ Hm) as Hp. destruct (pass ifc (reads st) (meanwhile st s)). by destruct Hp.
Qed.

(** *** Labels *)

(** What a pass reads off Bluetooth about the peers it lists. *)
Definition reading (x : Reads) (s : Sys) : list bool :=
  if idx x =? 0 then []
  else match bind ifc x s with
       | None => []
       | Some s => [none_receptive (pop x) (peer_count (browser (bound (browse ifc x (advertise_ x (open_ ifc x s))))))]
       end.
Fixpoint readings (sts : list Step) (s : Sys) : list bool :=
  match sts with
  | [] => []
  | st :: sts => reading (reads st) (meanwhile st s) ++ readings sts (step ifc s st)
  end.

Definition unlabelled (b : Browser) : Prop := forall k p, table b !! k = Some p -> unreceptive_since p = None.

Lemma absorb_one_unlabelled now packet rec b w :
  unlabelled b -> unlabelled (absorb_one now packet rec b w).1.
Proof using.
  intros Hb. unfold absorb_one.
  assert (Halter : forall (f : Peer -> Peer) i, (forall p, unreceptive_since (f p) = unreceptive_since p) -> unlabelled (set_table (alter f i (table b)) b)).
  { intros f i Hf k p Hk. cbn in Hk. rewrite lookup_alter in Hk. case_decide; [|by eapply Hb].
    apply fmap_Some in Hk as (q & Hq & ->). rewrite Hf. by eapply Hb. }
  case_match.
  { unfold on_ptr. destruct (Reader.name _) as [[i q]|]; [|done]. destruct (is_self_instance i b w) as [[] w1]; [done|].
    intros k p Hk. cbn in Hk. destruct (decide (i = k)) as [->|Hne]; [|rewrite lookup_insert_ne in Hk by done; by eapply Hb].
    rewrite lookup_insert_eq in Hk. injection Hk as <-. cbn. destruct (table b !! k) eqn:Ht; [by eapply Hb|done]. }
  case_match; [by apply Halter|]. case_match; [unfold on_srv; case_match; [done|by apply Halter]|].
  case_match; [|done]. unfold on_aaaa. case_match.
  - intros k p [Hk _]%map_lookup_filter_Some. by eapply Hb.
  - intros k p Hk. cbn in Hk. rewrite lookup_fmap in Hk. apply fmap_Some in Hk as (q & Hq & ->). case_match; exact (Hb _ _ Hq).
Qed.

Lemma poll_unlabelled rx b w : unlabelled b -> let '(_, _, b', _) := poll rx b w in unlabelled b'.
Proof using.
  apply (poll_rule (fun b _ => unlabelled b)); [|done]. intros now packet rec b' w' Hb.
  pose proof (absorb_one_unlabelled now packet rec b' w' Hb). by destruct (absorb_one now packet rec b' w').
Qed.

(** What the stages in between leave alone. *)
Definition kept (s : Sys) : gmap (list byte) (Z * Z) * Z * list (Z * (list byte * Target)) := (probed s, unreceptive_ticks s, started s).

Lemma kept_bind x s s' : bind ifc x s = Some s' -> kept s' = kept s.
Proof using. unfold bind. intros Hb. by repeat (case_match; simplify_eq/=). Qed.

Lemma kept_follow_address x s : kept (follow_address ifc x s) = kept s.
Proof using. unfold follow_address. by repeat case_match. Qed.

Lemma kept_advertise x s : kept (advertise_ x s) = kept s.
Proof using.
  unfold advertise_. transitivity (kept (follow_flag x (renew_identity x s))); [unfold reannounce; by repeat case_match|].
  transitivity (kept (renew_identity x s)); [unfold follow_flag; by repeat case_match|]. unfold renew_identity. by repeat case_match.
Qed.

Lemma kept_requery x s : kept (react x (replace_stale ifc x (requery x s))) = kept s.
Proof using.
  transitivity (kept (replace_stale ifc x (requery x s))); [unfold react; by repeat case_match|].
  transitivity (kept (requery x s)); [unfold replace_stale; by repeat case_match|]. unfold requery. by repeat case_match.
Qed.

Lemma kept_listen x s : kept (doze (listen x s)) = kept s.
Proof using. unfold doze, listen. by destruct (poll _ _ _) as [[[? ?] ?] ?]. Qed.

(** Only [label] counts. *)
Lemma ticks_prepared x s :
  unreceptive_ticks (prepared ifc x s) =
  if none_receptive (pop x) (peer_count (browser (bound (browse ifc x (advertise_ x (open_ ifc x s)))))) then unreceptive_ticks s + 1 else 0.
Proof using.
  unfold prepared, label. cbn [unreceptive_ticks].
  assert (Ht : unreceptive_ticks (browse ifc x (advertise_ x (open_ ifc x s))) = unreceptive_ticks s); [|by rewrite Ht].
  unfold browse. pose proof (kept_requery x (start_over x (advertise_ x (open_ ifc x s)))) as H1. pose proof (kept_advertise x (open_ ifc x s)) as H2.
  pose proof (kept_follow_address x s) as H3. unfold kept in *. injection H1 as _ -> _. injection H2 as _ H2 _. injection H3 as _ H3 _.
  transitivity (unreceptive_ticks (advertise_ x (open_ ifc x s))); [unfold start_over; by case_match|]. by rewrite H2, <- H3.
Qed.

Record labels (h : list bool) (s : Sys) : Prop := mkLabels {
  lb_ticks : 0 <= unreceptive_ticks s;
  lb_trail : exists l, h = l ++ replicate (Z.to_nat (unreceptive_ticks s)) true;
  lb_shown : forall p, p ∈ published (shared s) -> unreceptive_since p <> None -> exists l, h = l ++ replicate 6 true
}.

(** While nothing is published that was not, and nothing is counted. *)
Lemma labels_frame h s s' :
  unreceptive_ticks s' = unreceptive_ticks s -> (forall p, p ∈ published (shared s') -> p ∈ published (shared s)) -> labels h s -> labels h s'.
Proof using. intros Ht Hp [H1 H2 H3]. split; rewrite ?Ht; [done..|]. intros p Hin. by apply H3, Hp. Qed.

Lemma listen_published x s p :
  unlabelled (browser (bound s)) -> p ∈ published (shared (listen x s)) -> unreceptive_since p = None.
Proof using.
  intros Hs. unfold listen. pose proof (poll_unlabelled (rx x) _ (world s) Hs) as Hp. destruct (poll _ _ _) as [[[n r] b] w].
  cbn. unfold peers. intros [_ Hin]%list_elem_of_filter. apply elem_of_values in Hin as [k Hk].
  apply map_lookup_filter_Some in Hk as [Hk _]. by eapply Hp.
Qed.

Lemma prepared_unlabelled x s : unreceptive_ticks (prepared ifc x s) < LABEL_DEBOUNCE_TICKS -> unlabelled (browser (bound (prepared ifc x s))).
Proof using.
  unfold prepared, label. cbn [unreceptive_ticks]. set (n := if none_receptive _ _ then _ else 0). intros Hn k p Hk. cbn in Hk.
  rewrite lookup_fmap in Hk. apply fmap_Some in Hk as (q & _ & ->). by rewrite (proj2 (Z.leb_gt _ _) Hn).
Qed.

Lemma trail_six l n : (6 <= n)%nat -> exists l', l ++ replicate n true = l' ++ replicate 6 true.
Proof using.
  intros Hn. exists (l ++ replicate (n - 6) true). rewrite <- app_assoc, <- replicate_add. do 2 f_equal. lia.
Qed.

Lemma pass_labels x s h : labels h s -> labels (h ++ reading x s) (pass ifc x s).2.
Proof using.
  intros [H1 H2 H3]. unfold pass, reading. destruct (idx x =? 0).
  { rewrite app_nil_r. apply (labels_frame h s); [unfold gone; by case_match| |done]. unfold gone. case_match; [|done]. intros p ?%not_elem_of_nil. done. }
  destruct (bind ifc x s) as [s1|] eqn:Hb; [|by rewrite app_nil_r]. cbn [snd].
  assert (Ht : unreceptive_ticks s1 = unreceptive_ticks s).
  { apply kept_bind in Hb. unfold kept in Hb. congruence. }
  set (s2 := prepared ifc x s1). pose proof (ticks_prepared x s1) as Hn. fold s2 in Hn. rewrite Ht in Hn.
  set (r := none_receptive _ _) in Hn |- *. assert (Hs3 : unreceptive_ticks (doze (listen x s2)) = unreceptive_ticks s2).
  { pose proof (kept_listen x s2) as Hk. unfold kept in Hk. congruence. }
  assert (Htrail : exists l, h ++ [r] = l ++ replicate (Z.to_nat (unreceptive_ticks s2)) true).
  { destruct H2 as [l ->]. rewrite Hn. destruct r; [|by exists ((l ++ replicate (Z.to_nat (unreceptive_ticks s)) true) ++ [false]); rewrite app_nil_r].
    exists l. rewrite <- app_assoc. f_equal. replace (Z.to_nat (unreceptive_ticks s + 1)) with (Z.to_nat (unreceptive_ticks s) + 1)%nat by lia.
    by rewrite replicate_add. }
  split; rewrite ?Hs3.
  - rewrite Hn. destruct r; lia.
  - done.
  - intros p Hp Hu. destruct (decide (LABEL_DEBOUNCE_TICKS <= unreceptive_ticks s2)) as [Hle|Hlt].
    + destruct Htrail as [l ->]. apply trail_six. unfold LABEL_DEBOUNCE_TICKS in Hle. lia.
    + exfalso. apply Hu. eapply (listen_published x s2); [|exact Hp]. apply prepared_unlabelled. fold s2. lia.
Qed.

Lemma run_labels sts : forall h s, labels h s -> labels (h ++ readings sts s) (run ifc sts s).
Proof using.
  induction sts as [|st sts IH]; intros h s Hs; [by rewrite app_nil_r|]. cbn [readings run foldl]. rewrite app_assoc. apply IH, pass_labels.
  apply (labels_frame h s); [done| |done]. intros p Hp. cbn in Hp. destruct (clears st); [by apply not_elem_of_nil in Hp|done].
Qed.

(** The gate as [listen] finds it. *)
Lemma prepared_gate x s :
  probe_eviction (browser (bound (prepared ifc x s))) =
  negb (vouches (pop x) (peer_count (browser (bound (browse ifc x (advertise_ x (open_ ifc x s))))))).
Proof using. done. Qed.

(** *** Who is on the list through a pass *)

(** The pass makes a new browser, the interface having a new index or address or three queries
    in a row having failed; or it starts over. *)
Definition renewed (x : Reads) (s : Sys) : bool :=
  let addr := link_local_of ifc (world s) in
  negb (idx x =? bound_idx (bound s)) || refresh x ||
  (negb (bool_decide (addr = None)) && negb (bool_decide (addr = bound_addr (bound s))) && is_some (moved x)) ||
  ((3 <=? failures (bound (requery x (advertise_ x (open_ ifc x s))))) && is_some (stale x)).

Definition listed_in (s : Sys) : gset (list byte) := dom (table (browser (bound s))).

Lemma probe_dom ps n t w : Forall (fun kp => kp.1 ∈ dom t) ps -> let '(_, t', _) := probe_loop ps n t w in dom t' = dom t.
Proof using.
  revert n t w. induction ps as [|[k p] ps IH]; intros n t w Hps; [done|]. apply Forall_cons in Hps as [Hk Hps]. cbn [probe_loop].
  destruct (p_addr p) as [a|]; [|by apply IH]. destruct (send_to _ _ w) as [[] w1]; [|by apply IH].
  assert (Hd : dom (<[k:=set_unanswered (count (unanswered p)) p]> t) = dom t) by (rewrite dom_insert_L; set_solver).
  specialize (IH (n + 1) (<[k:=set_unanswered (count (unanswered p)) p]> t) w1). rewrite Hd in IH.
  specialize (IH Hps). destruct (probe_loop ps _ _ w1) as [[? t'] ?]. done.
Qed.

Lemma listed_advertise x s : listed_in (advertise_ x s) = listed_in s.
Proof using.
  unfold advertise_. transitivity (listed_in (follow_flag x (renew_identity x s))); [unfold reannounce; case_match; [|done]; by destruct (announce _ _)|].
  transitivity (listed_in (renew_identity x s)).
  - unfold follow_flag, advertise, stop_advertising. repeat (case_match; simplify_eq/=; try done).
  - unfold renew_identity, stop_advertising, reset_identity. repeat (case_match; simplify_eq/=; try done).
Qed.

Lemma listed_requery x s : listed_in (requery x s) = listed_in s.
Proof using.
  unfold requery. set (b := if asked x then _ else _). assert (Hb : table b = table (browser (bound s))) by (subst b; by destruct (asked x)).
  clearbody b. unfold listed_in. rewrite <- Hb. case_match; [|done]. unfold query.
  destruct (send_to _ _ (world s)) as [[] w]; cbn [negb]; [|done].
  lazymatch goal with |- context [if ?u then set_table _ _ else _] => destruct u end; cbn; by rewrite ?dom_fmap_L.
Qed.

Lemma listed_react x s : listed_in (react x s) = listed_in s.
Proof using.
  unfold react. set (burst := if _ && _ then _ else _). case_match; [|done]. unfold probe. cbn.
  pose proof (probe_dom (map_to_list (table (browser (bound s)))) 0 (table (browser (bound s))) (world s)) as Hp.
  destruct (probe_loop _ _ _ _) as [[n t] w]. unfold listed_in. cbn. apply Hp. apply Forall_forall. intros [k p] Hk%elem_of_map_to_list.
  cbn. apply elem_of_dom. by eexists.
Qed.

Lemma listed_browse x s : renewed x s = false ->
  listed_in (browse ifc x (advertise_ x (open_ ifc x s))) = listed_in s.
Proof using.
  unfold renewed. intros [[[_ Hr]%orb_false_iff Hm]%orb_false_iff Hs]%orb_false_iff. unfold browse, start_over. rewrite Hr, listed_react.
  assert (Hopen : listed_in (open_ ifc x s) = listed_in s).
  { unfold open_, listed_in, follow_address. destruct (moved x) as [p|]; cbn [is_some] in Hm; rewrite ?andb_true_r in Hm.
    - by rewrite Hm.
    - match goal with |- context [if ?c then s else s] => by destruct c end. }
  unfold replace_stale. destruct (3 <=? _); [destruct (stale x); [done|]|]; by rewrite listed_requery, listed_advertise.
Qed.

Lemma peer_count_dom b : peer_count b = Z.of_nat (size (dom (table b))).
Proof using. unfold peer_count. by rewrite size_dom. Qed.

Lemma listed_prepared x s : renewed x s = false ->
  listed_in (prepared ifc x s) = listed_in s /\
  peer_count (browser (bound (browse ifc x (advertise_ x (open_ ifc x s))))) = peer_count (browser (bound s)).
Proof using.
  intros Hr. pose proof (listed_browse x s Hr) as Hb. rewrite !peer_count_dom. fold (listed_in s) in *. unfold listed_in in Hb at 1.
  rewrite Hb. split; [|done]. unfold prepared, label, listed_in. cbn. by rewrite dom_fmap_L.
Qed.

(** A record of a packet takes a peer off the list only if it gives our own address to its host. *)
Definition of_ours (a : option (list byte)) (rec : Record_) : Prop := rtype rec = TYPE_AAAA /\ a = Some (rdata rec).

Lemma stable_inet6 w : inet6 (stable_instance w).2 = inet6 w.
Proof using. unfold stable_instance, mint_identity, draw, write_identity. by repeat (case_match; simplify_eq/=). Qed.

Lemma absorb_one_ours now packet rec b w :
  let '(b', w') := absorb_one now packet rec b w in our_addr b' w' = our_addr b w.
Proof using.
  pose proof (proj2 (proj2 (absorb_one_same now packet rec b w))) as Hi.
  assert (Hw : inet6 (absorb_one now packet rec b w).2 = inet6 w).
  { clear Hi. unfold absorb_one. pose proof (stable_inet6 w) as Hw. destruct (_ && bool_decide _); [|by repeat case_match].
    unfold on_ptr, is_self_instance. destruct (Reader.name _) as [[i q]|]; [|done]. destruct (bool_decide _); [done|].
    destruct (stable_instance w) as [j w1]. by destruct (bool_decide _). }
  destruct (absorb_one now packet rec b w) as [b' w']. cbn [fst snd] in *. unfold our_addr, link_local_of. by rewrite Hi, Hw.
Qed.

Lemma absorb_one_listed now packet rec b w k :
  k ∈ dom (table b) -> k ∈ dom (table (absorb_one now packet rec b w).1) \/ of_ours (our_addr b w) rec.
Proof using.
  intros Hk. unfold absorb_one. case_match.
  { unfold on_ptr. destruct (Reader.name _) as [[i q]|]; [|by left]. destruct (is_self_instance i b w) as [[] w1]; [by left|].
    left. cbn. rewrite dom_insert_L. set_solver. }
  case_match; [left; cbn; by rewrite dom_alter_L|].
  case_match; [unfold on_srv; left; destruct (_ <? 6); [done|cbn; by rewrite dom_alter_L]|].
  destruct (_ && (len (rdata rec) =? 16)) eqn:Ha; [|left; exact Hk]. apply andb_true_iff in Ha as [Ha%Z.eqb_eq _]. unfold on_aaaa, is_self_addr.
  destruct (bool_decide (our_addr b w = Some (rdata rec))) eqn:E; [right; split; [done|by apply bool_decide_eq_true in E]|].
  left. cbn. by rewrite dom_fmap_L.
Qed.

Lemma absorb_keeps_ours now packet rs b w :
  our_addr (absorb now packet rs b w).1 (absorb now packet rs b w).2 = our_addr b w.
Proof using.
  revert b w. induction rs as [|rec rs IH]; intros b w; [done|]. cbn [absorb].
  pose proof (absorb_one_ours now packet rec b w) as Ho. destruct (absorb_one now packet rec b w) as [b1 w1]. by rewrite IH.
Qed.

Lemma absorb_listed now packet rs b w k :
  k ∈ dom (table b) -> k ∈ dom (table (absorb now packet rs b w).1) \/ Exists (of_ours (our_addr b w)) rs.
Proof using.
  revert b w. induction rs as [|rec rs IH]; intros b w Hk; [by left|]. cbn [absorb].
  pose proof (absorb_one_ours now packet rec b w) as Ho. pose proof (absorb_one_listed now packet rec b w k Hk) as Hl.
  destruct (absorb_one now packet rec b w) as [b1 w1]. cbn [fst] in Hl. destruct Hl as [Hl|Hl]; [|right; by apply Exists_cons_hd].
  destruct (IH b1 w1 Hl) as [H|H]; [by left|right; apply Exists_cons_tl; by rewrite <- Ho].
Qed.

(** A packet that does so is among those read. *)
Definition takes_off (a : option (list byte)) (got : list (option (Z * list byte))) : Prop :=
  exists now d m, Some (now, d) ∈ got /\ Dns.parse (take 4096 d) = Some m /\ Exists (of_ours a) (records m).

Lemma poll_listed n got rx b w k :
  k ∈ dom (table b) ->
  let '(_, _, b', _) := poll_loop n got rx b w in k ∈ dom (table b') \/ takes_off (our_addr b w) rx.
Proof using.
  revert got rx b w. induction n as [|n IH]; intros got rx b w Hk; [by destruct rx; left|]. cbn [poll_loop].
  destruct rx as [|[[now d]|] rx]; [by left| |by left]. unfold on_packet. destruct (Dns.parse (take 4096 d)) as [m|] eqn:Hm.
  - pose proof (absorb_listed now (take 4096 d) (records m) b w k Hk) as Ha.
    pose proof (absorb_keeps_ours now (take 4096 d) (records m) b w) as Ho. destruct (absorb now _ _ b w) as [b1 w1].
    cbn [fst snd] in Ha, Ho. destruct Ha as [Hl|Hl].
    + set (w2 := if advertising b1 then _ else _). assert (Ho2 : our_addr b1 w2 = our_addr b w).
      { rewrite <- Ho. subst w2. destruct (advertising b1); [|done]. unfold answer. case_match; [|done].
        unfold send_multicast, send_to, our_addr, link_local_of. by repeat case_match. }
      specialize (IH (got + 1) rx b1 w2 Hl). destruct (poll_loop n _ rx b1 w2) as [[[? ?] b2] ?]. destruct IH as [IH|(u & e & m' & Hin & H1 & H2)]; [by left|].
      right. rewrite <- Ho2. exists u, e, m'. split_and!; [by right|done|done].
    + destruct (poll_loop n _ rx b1 _) as [[[? ?] b2] ?]. right. exists now, d, m. split_and!; [by left|done|done].
  - specialize (IH (got + 1) rx b w Hk). destruct (poll_loop n _ rx b w) as [[[? ?] b2] ?]. destruct IH as [IH|(u & e & m' & Hin & H1 & H2)]; [by left|].
    right. exists u, e, m'. split_and!; [by right|done|done].
Qed.

(** *** Names *)

Section Naming.
Context (i a : list byte).

Definition about (q : list byte * (list byte * Z)) : Prop := q.1 = i /\ q.2.1 = a.
#[local] Instance about_dec q : Decision (about q).
Proof using. unfold about. apply _. Defined.

(** When this instance was asked for its name at this address. *)
Definition asked_at (l : list (Z * (list byte * Target))) : list Z :=
  (filter (fun e : Z * (list byte * Target) => e.2.1 = i /\ t_addr e.2.2 = a) l).*1.

Definition spaced : list Z -> Prop := StronglySorted (fun u v => u + 3000 <= v).

(** [l]: the times so far. *)
Record naming (now : Z) (m : gmap (list byte) (Z * Z)) (l : list Z) : Prop := mkNaming {
  nm_spaced : spaced l;
  nm_none : m !! i = None -> l = [];
  nm_some : forall n last, m !! i = Some (n, last) -> len l <= n <= PROBE_NAME_MAX /\ last <= now /\ Forall (fun u => u <= last) l
}.

Lemma naming_later now now' m l : now <= now' -> naming now m l -> naming now' m l.
Proof using. intros Hle [H1 H2 H3]. split; try done. intros n last Hm. destruct (H3 n last Hm) as (? & ? & ?). split_and!; try done; lia. Qed.

Lemma naming_fewer now m l k : naming now m (l ++ k) -> naming now m l.
Proof using.
  intros [H1 H2 H3]. split.
  - by eapply StronglySorted_app_1_l.
  - intros Hm. specialize (H2 Hm). by apply app_eq_nil in H2 as [? _].
  - intros n last Hm. destruct (H3 n last Hm) as (Hl & ? & Hf). rewrite len_app in Hl. pose proof (len_nonneg k).
    apply Forall_app in Hf as [Hf _]. split_and!; [lia|lia|done|done].
Qed.

Lemma backoff_pos n : 3000 <= probe_name_backoff n.
Proof using. unfold probe_name_backoff. repeat case_match; lia. Qed.

(** One more attempt. *)
Lemma naming_more now m l n (more : list Z) :
  n <= PROBE_NAME_MAX -> len l + 1 <= n -> Forall (fun u => u + 3000 <= now) l -> more = [now] \/ more = [] ->
  naming now m l -> naming now (<[i := (n, now)]> m) (l ++ more).
Proof using.
  intros Hn Hl Hf Hmore [H1 H2 H3]. split.
  - destruct Hmore as [->| ->]; [|by rewrite app_nil_r]. apply StronglySorted_app_2; [|done|by repeat constructor].
    intros u v Hu ->%list_elem_of_singleton. rewrite Forall_forall in Hf. by apply Hf.
  - by rewrite lookup_insert_eq.
  - rewrite lookup_insert_eq. intros n' last [= <- <-].
    assert (Hle : Forall (fun u => u <= now) l) by (eapply Forall_impl; [exact Hf|]; cbn; lia).
    destruct Hmore as [->| ->]; rewrite ?app_nil_r, ?len_app; [change (len [now]) with 1|pose proof (len_nonneg l)]; split_and!; try lia; try done.
    apply Forall_app. split; [done|]. apply Forall_cons_2; [lia|constructor].
Qed.

Definition during (now : Z) (l : list Z) (k : Asking) : list Z := l ++ ((fun _ => now) <$> filter about (to_probe k)).

Lemma ask_naming now known l k p :
  known !! a = None -> naming now (a_probed k) (during now l k) -> naming now (a_probed (ask now known k p)) (during now l (ask now known k p)).
Proof using.
  intros Hknown Hk. unfold ask. destruct (p_addr p) as [b|] eqn:Hb; [|done]. destruct (p_port p =? 0); [done|].
  destruct (negb (bool_decide (known !! b = None))) eqn:Hnamed.
  - assert (Hne : b <> a) by (intros ->; rewrite Hknown in Hnamed; by rewrite bool_decide_true in Hnamed).
    unfold ask_named. case_match; [|done]. cbn [a_probed]. unfold during. cbn [to_probe]. rewrite filter_app, filter_cons_False by (by intros [_ ?]).
    by rewrite filter_nil, app_nil_r.
  - unfold ask_unnamed. destruct (decide (p_instance p = i)) as [Hi|Hi].
    + rewrite Hi. pose proof Hk as [K1 K2 K3]. set (n := during now l k) in *.
      assert (Hone : forall j, len n + 1 <= j -> j <= PROBE_NAME_MAX -> Forall (fun u => u + 3000 <= now) n ->
        naming now (<[i := (j, now)]> (a_probed k)) (during now l (mkAsking (a_accepting k) (<[i := (j, now)]> (a_probed k)) (to_probe k ++ [(i, (b, p_port p))])))).
      { intros j Hj Hm Hf. unfold during. cbn [to_probe]. rewrite filter_app, fmap_app, app_assoc. apply naming_more; try done.
        rewrite filter_cons, filter_nil. case_decide; [by left|by right]. }
      destruct (a_probed k !! i) as [[j last]|] eqn:Hm.
      * destruct (K3 j last eq_refl) as ((Hl & _) & Hlast & Hf). destruct (_ && _) eqn:Hdue; [|done]. apply andb_true_iff in Hdue as [Hj Hback].
        cbn [a_probed]. pose proof (backoff_pos j). unfold duration_since, PROBE_NAME_MAX in *. apply Hone; [lia|unfold PROBE_NAME_MAX; lia|].
        eapply Forall_impl; [exact Hf|]. cbn. lia.
      * cbn [a_probed]. apply Hone; rewrite ?(K2 eq_refl); [by vm_compute|by vm_compute|constructor].
    + destruct (match a_probed k !! p_instance p with Some (_, _) => _ | None => _ end) as [j []]; [|done]. cbn [a_probed].
      unfold during. cbn [to_probe]. rewrite filter_app, filter_cons_False, filter_nil, app_nil_r by (by intros [? _]).
      destruct Hk as [K1 K2 K3]. split; [done|by rewrite lookup_insert_ne|]. intros n last. rewrite lookup_insert_ne by done. apply K3.
Qed.

Lemma asked_at_probes now sc qs :
  asked_at ((fun q : list byte * (list byte * Z) => (now, (q.1, mkTarget q.2.1 q.2.2 sc))) <$> qs) = (fun _ => now) <$> filter about qs.
Proof using.
  induction qs as [|q qs IH]; [done|]. cbn [fmap list_fmap]. unfold asked_at in *. rewrite !filter_cons. cbn [fst snd t_addr]. unfold about at 1.
  repeat case_decide; try tauto. cbn [fmap list_fmap fst]. by rewrite IH.
Qed.

Lemma fold_naming now known l ps k :
  known !! a = None -> naming now (a_probed k) (during now l k) ->
  let k' := foldl (ask now known) k ps in naming now (a_probed k') (during now l k').
Proof using. intros Hknown. revert k. induction ps as [|p ps IH]; intros k Hk; [done|]. cbn [foldl]. by apply IH, ask_naming. Qed.

Lemma ask_names_naming x s :
  names (shared s) !! a = None -> naming (before_poll x) (probed s) (asked_at (started s)) ->
  naming (before_poll x) (probed (ask_names x s)) (asked_at (started (ask_names x s))).
Proof using.
  intros Hknown Hs. unfold ask_names. set (k0 := mkAsking (accepting (shared s)) (probed s) []).
  pose proof (fold_naming (before_poll x) _ (asked_at (started s)) (published (shared s)) k0 Hknown) as Hk.
  cbn zeta in Hk. set (k := foldl _ k0 _) in *. cbn [probed started].
  assert (H0 : naming (before_poll x) (a_probed k0) (during (before_poll x) (asked_at (started s)) k0)) by (unfold during; by rewrite app_nil_r).
  specialize (Hk H0). unfold during in Hk. destruct (scope x) as [sc|].
  - unfold asked_at at 1. rewrite filter_app, fmap_app. fold (asked_at (started s)).
    pose proof (asked_at_probes (before_poll x) sc (to_probe k)) as Hp. unfold asked_at at 1 in Hp. by rewrite Hp.
  - rewrite app_nil_r. by eapply naming_fewer.
Qed.

Lemma pass_naming from x s :
  refresh x = false -> from <= before_poll x -> names (shared s) !! a = None -> naming from (probed s) (asked_at (started s)) ->
  let s' := (pass ifc x s).2 in naming (before_poll x) (probed s') (asked_at (started s')).
Proof using.
  intros Hr Hle Hknown Hs. apply (naming_later from (before_poll x)) in Hs; [|done]. unfold pass. destruct (idx x =? 0).
  { cbn [snd]. unfold gone. by case_match. }
  destruct (bind ifc x s) as [s1|] eqn:Hb; [|done]. cbn [snd].
  assert (Hn1 : names (shared s1) = names (shared s)) by (unfold bind in Hb; by repeat (case_match; simplify_eq/=)).
  apply kept_bind in Hb. pose proof (kept_follow_address x s1) as Hf. set (s2 := follow_address ifc x s1) in *.
  assert (Hn2 : names (shared s2) = names (shared s1)) by (subst s2; unfold follow_address; by repeat case_match).
  unfold kept in *. injection Hb as Hb1 _ Hb2. injection Hf as Hf1 _ Hf2.
  assert (Hs2 : naming (before_poll x) (probed s2) (asked_at (started s2))) by (by rewrite Hf1, Hf2, Hb1, Hb2).
  apply ask_names_naming in Hs2; [|by rewrite Hn2, Hn1]. unfold prepared, open_. fold s2. set (s3 := ask_names x s2) in *.
  pose proof (kept_advertise x s3) as H4. set (s4 := advertise_ x s3) in *. unfold browse, start_over. rewrite Hr.
  pose proof (kept_requery x s4) as H5. set (s5 := react x _) in *. pose proof (kept_listen x (label x s5)) as H6. unfold kept in *.
  injection H4 as H41 _ H42. injection H5 as H51 _ H52. injection H6 as H61 _ H62. unfold doze. cbn [with_pace probed started].
  rewrite H61, H62. cbn [label probed started]. by rewrite H51, H52, H41, H42.
Qed.

Fixpoint in_order (from : Z) (sts : list Step) : Prop :=
  match sts with [] => True | st :: sts => from <= before_poll (reads st) /\ in_order (before_poll (reads st)) sts end.

Lemma run_naming sts : forall from s,
  in_order from sts -> Forall (fun st => refresh (reads st) = false /\ forall n, learns st n !! a = None) sts ->
  naming from (probed s) (asked_at (started s)) -> exists now, naming now (probed (run ifc sts s)) (asked_at (started (run ifc sts s))).
Proof using.
  induction sts as [|st sts IH]; intros from s Ho Hall Hs; [by exists from|]. destruct Ho as [Hle Ho]. apply Forall_cons in Hall as [[Hr Hl] Hall].
  cbn [run foldl]. apply (IH (before_poll (reads st))); [done|done|]. unfold step. apply (pass_naming from); [done|done|apply Hl|exact Hs].
Qed.
End Naming.

(** *** Queries *)

(** What [requery] finds. *)
Definition due (x : Reads) (s : Sys) : bool :=
  let p := pace s in
  (if asked x || negb (peer_count (browser (bound s)) =? last_listed p) then QUERY_MIN else query_every p) <=? since_query p.
Definition queries (x : Reads) (s : Sys) : bool :=
  match bind ifc x s with
  | Some s => negb (idx x =? 0) && due x (start_over x (advertise_ x (open_ ifc x s)))
  | None => false
  end.

Definition paced (s : Sys) : Prop := 0 <= since_query (pace s) /\ QUERY_MIN <= query_every (pace s) <= QUERY_MAX.
Definition clock (s : Sys) : Z * Z := (since_query (pace s), query_every (pace s)).

Lemma clock_advertise x s : clock (advertise_ x s) = clock s.
Proof using.
  unfold advertise_. transitivity (clock (follow_flag x (renew_identity x s))); [unfold reannounce; by repeat case_match|].
  transitivity (clock (renew_identity x s)); [unfold follow_flag; by repeat case_match|]. unfold renew_identity. by repeat case_match.
Qed.

Lemma clock_bind x s s' : bind ifc x s = Some s' -> clock s' = clock s \/ clock s' = (99000, query_every (pace s)).
Proof using. unfold bind. intros Hb. repeat (case_match; simplify_eq/=); [by left|by right]. Qed.

Lemma clock_open x s : clock (open_ ifc x s) = clock s.
Proof using. unfold open_. transitivity (clock (follow_address ifc x s)); [done|]. unfold follow_address. by repeat case_match. Qed.

Lemma clock_start_over x s : clock (start_over x s) = clock s.
Proof using. unfold start_over. by case_match. Qed.

(** From where a query may be sent to the end of the pass. *)
Lemma clock_rest x s :
  paced s -> let s' := doze (listen x (label x (react x (replace_stale ifc x (requery x s))))) in
  paced s' /\ (due x s = false -> since_query (pace s) < query_every (pace s') /\ since_query (pace s) + TICK <= since_query (pace s') /\
    query_every (pace s') <= query_every (pace s) /\ (asked x = true -> query_every (pace s') = QUERY_MIN)).
Proof using.
  intros [H1 H2]. set (s2 := requery x s). set (s3 := replace_stale ifc x s2).
  assert (Hend : forall t, clock (doze (listen x (label x t))) = (since_query (pace t) + TICK, query_every (pace t))).
  { intros t. unfold doze, listen. by destruct (poll _ _ _) as [[[? ?] ?] ?]. }
  assert (Hreact : clock (react x s3) = clock s3) by (unfold react; by repeat case_match).
  assert (H3 : query_every (pace s3) = query_every (pace s2) /\ (since_query (pace s3) = since_query (pace s2) \/ since_query (pace s3) = 99000)).
  { subst s3. unfold replace_stale. repeat case_match; split; try done; first [by left|by right]. }
  pose proof (Hend (react x s3)) as He. cbn zeta. set (s' := doze _) in *.
  assert (Hs : since_query (pace s') = since_query (pace s3) + TICK).
  { transitivity (since_query (pace (react x s3)) + TICK); [exact (f_equal fst He)|]. f_equal. exact (f_equal fst Hreact). }
  assert (Hq : query_every (pace s') = query_every (pace s2)).
  { transitivity (query_every (pace (react x s3))); [exact (f_equal snd He)|]. rewrite <- (proj1 H3). exact (f_equal snd Hreact). }
  destruct H3 as [_ Hs3]. unfold paced. rewrite Hs, Hq. clearbody s' s3.
  subst s2. clear -H1 H2 Hs3. unfold requery, due in *.
  set (every := if asked x || _ then _ else _) in *.
  assert (Hev : QUERY_MIN <= every <= query_every (pace s) /\ (asked x = true -> every = QUERY_MIN)).
  { subst every. split; [unfold QUERY_MIN in *; destruct (_ || _); lia|]. by intros ->. }
  destruct Hev as [Hev Hasked]. unfold QUERY_MIN, QUERY_MAX, TICK in *. destruct (every <=? since_query (pace s)) eqn:Hdue.
  - destruct (query _ _) as [[ok b] w]. cbn [pace with_pace query_every since_query] in *. split; [lia|done].
  - cbn [pace with_pace query_every since_query] in *. apply Z.leb_gt in Hdue. split; [lia|]. intros _. split_and!; lia || done.
Qed.

Lemma pass_clock x s :
  paced s -> let '(done_, s') := pass ifc x s in
  paced s' /\ (done_ = true -> queries x s = false -> since_query (pace s) < query_every (pace s') /\ since_query (pace s) + TICK <= since_query (pace s') /\
    query_every (pace s') <= query_every (pace s) /\ (asked x = true -> query_every (pace s') = QUERY_MIN)).
Proof using.
  intros Hp. unfold pass, queries. destruct (idx x =? 0) eqn:Hi.
  { split; [|done]. unfold gone. by case_match. }
  destruct (bind ifc x s) as [s1|] eqn:Hb; [|done]. apply clock_bind in Hb. set (s2 := start_over x (advertise_ x (open_ ifc x s1))).
  assert (H2 : clock s2 = clock s1) by (subst s2; by rewrite clock_start_over, clock_advertise, clock_open).
  change (browse ifc x (advertise_ x (open_ ifc x s1))) with (react x (replace_stale ifc x (requery x s2))).
  unfold prepared. change (browse ifc x (advertise_ x (open_ ifc x s1))) with (react x (replace_stale ifc x (requery x s2))).
  pose proof (clock_rest x s2) as Hrest. cbn [negb andb]. unfold clock, paced in *. injection H2 as H2s H2q. rewrite H2s, H2q in Hrest.
  destruct Hb as [Hb|Hb]; injection Hb as Hb1 Hb2; rewrite Hb1, Hb2 in Hrest; [by destruct (Hrest Hp)|].
  destruct (Hrest ltac:(lia)) as [Hp' Hq]. split; [done|]. intros _ Hdue. specialize (Hq Hdue). unfold QUERY_MAX in *. lia.
Qed.

Lemma run_paced sts s : paced s -> paced (run ifc sts s).
Proof using.
  revert s. induction sts as [|st sts IH]; intros s Hs; [done|]. cbn [run foldl]. apply IH. unfold step.
  pose proof (pass_clock (reads st) (meanwhile st s) Hs) as Hp. destruct (pass ifc (reads st) (meanwhile st s)). by destruct Hp.
Qed.

(** Passes that come to their end without a query. *)
Fixpoint quiet (sts : list Step) (s : Sys) : Prop :=
  match sts with
  | [] => True
  | st :: sts => (pass ifc (reads st) (meanwhile st s)).1 = true /\ queries (reads st) (meanwhile st s) = false /\ quiet sts (step ifc s st)
  end.

Lemma quiet_bound sts : forall s, paced s -> quiet sts s -> sts <> [] -> since_query (pace s) + TICK * (len sts - 1) < query_every (pace s).
Proof using.
  induction sts as [|st sts IH]; intros s Hs Hq Hne; [done|]. destruct Hq as (Hd & Hno & Hq). rewrite len_cons.
  pose proof (pass_clock (reads st) (meanwhile st s) Hs) as Hp. unfold step in Hq. destruct (pass ifc (reads st) (meanwhile st s)) as [d s'].
  cbn [fst snd] in *. destruct Hp as [Hp' Hc]. destruct (Hc Hd Hno) as (C1 & C2 & C3 & _). cbn [meanwhile pace with_bound with_shared] in *.
  destruct sts as [|st' sts]; [change (len (@nil Step)) with 0; lia|]. specialize (IH s' Hp' Hq ltac:(done)). lia.
Qed.
End Runs.

(** ** Properties *)

Section Properties.
Context (ifc : list byte) (port : bool) (now i : Z) (w : World).

(** C29: advertising follows the flag.  In every run in which packets can be sent, whatever else
    happens, interfaces and addresses that come and go, resets of the identity and refreshes
    included, a pass of the loop that comes to its end leaves the device advertising exactly
    if it is to be visible and its socket has the port, and the loop knows. *)
Theorem advertising_follows_the_flag sts st :
  up w -> Forall (fun st => forall w, up w -> up (around st w)) (sts ++ [st]) ->
  let '(done_, s) := pass ifc (reads st) (meanwhile st (run ifc sts (start ifc port now i w))) in
  done_ = true ->
  advertising (browser (bound s)) = want (reads st) && can_respond (browser (bound s)) /\
  was_advertising (bound s) = advertising (browser (bound s)).
Proof using.
  intros Hw [Hsts [Hst _]%Forall_cons]%Forall_app. pose proof (run_steady ifc sts _ Hsts (start_steady ifc port now i w Hw)) as (H1 & H2 & H3).
  assert (Hm : steady (meanwhile st (run ifc sts (start ifc port now i w)))) by (split_and!; [by apply Hst|done..]).
  pose proof (pass_settles ifc (reads st) _ Hm) as Hp. destruct (pass ifc _ _) as [d s]. destruct Hp as [_ Hp]. intros Hd.
  by destruct (Hp Hd) as [(_ & _ & Ha & _) Hon].
Qed.

(** C28: Bluetooth labels only on evidence, and vouches for who is there.  In every run a peer
    that is published as not receptive is so after six passes in a row in which Bluetooth was
    live, accounted for at least as many devices as peers were listed, and heard none of them
    receptive.  And take a whole pass, after any run, that keeps its browser: the interface is
    there with the same index and address, queries do not keep failing, and nobody asks for a
    refresh.  If Bluetooth hears at least as many receptive devices as peers were listed when it
    began, then every one of those is still listed when it ends, however long it has been silent
    and however many questions it has left unanswered, but for one that has said goodbye and whose
    lease is over, and one whose host a packet of this pass gives this device's own address. *)
Theorem bluetooth_decides sts :
  let s0 := start ifc port now i w in
  (forall p, p ∈ published (shared (run ifc sts s0)) -> unreceptive_since p <> None ->
     exists before, readings ifc sts s0 = before ++ replicate 6 true) /\
  (forall st, let s := meanwhile st (run ifc sts s0) in let x := reads st in
     idx x <> 0 -> renewed ifc x s = false -> vouches (pop x) (peer_count (browser (bound s))) = true ->
     let ready := prepared ifc x s in
     let '(_, _, b, _) := poll (rx x) (browser (bound ready)) (world ready) in
     forall k, k ∈ dom (table (browser (bound s))) ->
       k ∈ dom (table (browser (bound (pass ifc x s).2))) \/
       (exists p, table b !! k = Some p /\ withdrawn p = true /\ expires_at p <= after_poll x) \/
       takes_off (our_addr (browser (bound ready)) (world ready)) (rx x)).
Proof using.
  intros s0. split.
  - assert (H0 : labels [] s0).
    { subst s0. unfold start. destruct (new ifc port now w) as [b w1]. split; [done|by exists []|]. by intros p ?%not_elem_of_nil. }
    apply (run_labels ifc sts) in H0 as [_ _ H3]. exact H3.
  - intros st s x Hi Hren Hv. destruct (listed_prepared ifc x s Hren) as [Hdom Hcount]. cbv zeta.
    assert (Hb : bind ifc x s = Some s).
    { unfold renewed in Hren. apply orb_false_iff in Hren as [[[Hix _]%orb_false_iff _]%orb_false_iff _].
      unfold bind. by apply negb_false_iff in Hix as ->. }
    pose proof (poll_same 32 0 (rx x) (browser (bound (prepared ifc x s))) (world (prepared ifc x s))) as Hsame. unfold pass.
    rewrite (proj2 (Z.eqb_neq _ _) Hi), Hb. cbn [snd]. unfold doze, listen.
    pose proof (fun k => poll_listed 32 0 (rx x) (browser (bound (prepared ifc x s))) (world (prepared ifc x s)) k) as Hpoll.
    change (poll_loop 32 0 (rx x)) with (poll (rx x)) in *.
    destruct (poll (rx x) _ _) as [[[n r] b] w1]. destruct Hsame as [[Hg _] _]. rewrite prepared_gate, Hcount, Hv in Hg. cbn [negb] in Hg.
    intros k Hk. fold (listed_in s) in Hk. rewrite <- Hdom in Hk. destruct (Hpoll k Hk) as [Hl|Ht]; [|by right; right].
    apply elem_of_dom in Hl as [p Hp]. cbn. unfold expire. rewrite Hg. cbn [andb]. destruct (keep false 45000 (after_poll x) p) eqn:Hkeep.
    + left. apply elem_of_dom. exists p. by apply map_lookup_filter_Some.
    + right; left. exists p. split; [done|]. unfold keep in Hkeep. cbn in Hkeep. destruct (withdrawn p); [|done]. split; [done|].
      cbn [andb] in Hkeep. destruct (expires_at p <=? after_poll x) eqn:He; [by apply Z.leb_le|done].
Qed.

(** A peer that stays without a name is asked for it at most ten times, and never twice
    within three seconds: in every run without a refresh, for every instance and every address
    of which no name is ever learned. *)
Theorem naming_is_patient sts a inst from :
  in_order from sts -> Forall (fun st => refresh (reads st) = false /\ forall n, learns st n !! a = None) sts ->
  let asked := asked_at inst a (started (run ifc sts (start ifc port now i w))) in
  len asked <= PROBE_NAME_MAX /\ spaced asked.
Proof using.
  intros Ho Hall. assert (H0 : naming inst from (probed (start ifc port now i w)) (asked_at inst a (started (start ifc port now i w)))).
  { unfold start. destruct (new ifc port now w) as [b w1]. split; [constructor|done|]. intros n last Hn. cbn in Hn. by rewrite lookup_empty in Hn. }
  destruct (run_naming ifc inst a sts from _ Ho Hall H0) as (t & [H1 H2 H3]). cbn zeta. split; [|done].
  destruct (probed (run ifc sts (start ifc port now i w)) !! inst) as [[n last]|] eqn:Hp.
  - destruct (H3 n last eq_refl) as (Hl & _). unfold PROBE_NAME_MAX in *. lia.
  - rewrite (H2 eq_refl). by vm_compute.
Qed.

(** The loop keeps asking.  Of any sixty-one passes in a row that come to their end one has
    put a question to the link, and of any five that begin with a client's looking: the
    back-off never silences it. *)
Theorem the_loop_keeps_asking before more :
  let s := run ifc before (start ifc port now i w) in
  quiet ifc more s ->
  len more <= 60 /\ (forall st rest, more = st :: rest -> asked (reads st) = true -> len more <= 4).
Proof using.
  intros s Hq. assert (Hs : paced s).
  { apply run_paced. unfold start. destruct (new ifc port now w) as [b w1]. split; cbn; unfold QUERY_MIN, QUERY_MAX; lia. }
  split.
  - destruct more as [|st more]; [by vm_compute|]. pose proof (quiet_bound ifc (st :: more) s Hs Hq ltac:(done)) as Hb.
    destruct Hs as [H1 H2]. unfold QUERY_MAX, TICK in *. lia.
  - intros st rest -> Hask. destruct Hq as (Hd & Hno & Hq). unfold step in Hq.
    pose proof (pass_clock ifc (reads st) (meanwhile st s) Hs) as Hp. destruct (pass ifc (reads st) (meanwhile st s)) as [d s'].
    cbn [fst snd] in *. destruct Hp as [Hp' Hc]. destruct (Hc Hd Hno) as (C1 & C2 & C3 & C4). specialize (C4 Hask).
    destruct Hs as [H1 H2]. cbn [meanwhile pace with_bound with_shared] in *. rewrite len_cons.
    destruct rest as [|st' rest]; [change (len (@nil Step)) with 0; lia|].
    pose proof (quiet_bound ifc (st' :: rest) s' Hp' Hq ltac:(done)) as Hb. unfold QUERY_MIN, TICK in *. lia.
Qed.
End Properties.

(** ** A laptop that looks for a phone *)

Module ToyBrowse.

Import Mdns.ToyMdns.

(** A pass at [t] in which nothing happens but what is said. *)
Definition looks (t : Z) (visible : bool) (p : ApplePopulation) (heard : list (option (Z * list byte))) : Reads :=
  mkReads 7 (Some true) (Some true) (Some true) 7 (Some 7) false visible false false false p t (heard ++ [None]) (t + 500).
Definition alone (x : Reads) : Step := mkStep false (fun _ => empty) (fun a => a) (fun w => w) x.

Definition begun : Sys := start MOSEY true 0 7 laptop.

Lemma advertising_follows_the_flag_witness :
  let '(done_, s) := pass MOSEY (looks 1000 true no_population []) (meanwhile (alone (looks 1000 true no_population [])) begun) in
  done_ = true /\ advertising (browser (bound s)) = true.
Proof.
  pose proof (advertising_follows_the_flag MOSEY true 0 7 laptop [] (alone (looks 1000 true no_population [])) eq_refl
    ltac:(constructor; [intros w H; exact H|constructor])) as H.
  change (run MOSEY [] (start MOSEY true 0 7 laptop)) with begun in H. cbn [alone reads] in H.
  assert (Hc : let '(d, s) := pass MOSEY (looks 1000 true no_population []) (meanwhile (alone (looks 1000 true no_population [])) begun) in
    d = true /\ can_respond (browser (bound s)) = true) by (vm_compute; split; reflexivity).
  destruct (pass MOSEY _ _) as [d s]. destruct Hc as [-> Hc]. split; [reflexivity|]. destruct (H eq_refl) as [Ha _]. rewrite Ha, Hc. reflexivity.
Defined.

(** An announcement that cannot be sent leaves the browser advertising and the loop thinking
    that it is not: when visibility is switched off before one gets through, nothing withdraws,
    and questions are still answered. *)
Definition mute : Sys := start MOSEY true 0 7 (mkWorld (identity laptop) true None (inet6 laptop) [] [false] []).

Example visible_when_switched_off :
  let s := run MOSEY (alone <$> [looks 1000 true no_population []; looks 2000 false no_population []; looks 3000 false no_population []]) mute in
  advertising (browser (bound s)) = true /\ was_advertising (bound s) = false.
Proof. vm_compute. by split. Qed.

Definition hello : list byte := packet_of TTL phone_browser phone.
Definition locked : ApplePopulation := mkPopulation true 1 0.
Definition evening : list Step :=
  alone <$> looks 1000 false locked [Some (1000, hello)] :: ((fun t => looks t false locked []) <$> [2000; 3000; 4000; 5000; 6000; 7000]).

(** Ten minutes later: not a packet since, and Bluetooth hears one device that is receptive. *)
Definition late : Step := alone (looks 600000 false (mkPopulation true 1 1) []).

Example kept_for_bluetooth :
  let s := meanwhile late (run MOSEY evening begun) in
  (size (listed_in s), size (listed_in (pass MOSEY (reads late) s).2)) = (1, 1)%nat /\
  size (listed_in (pass MOSEY (looks 600000 false locked []) s).2) = 0%nat.
Proof. vm_compute. by split. Qed.

Lemma bluetooth_decides_witness :
  (exists p before, p ∈ published (shared (run MOSEY evening begun)) /\ unreceptive_since p = Some 7000 /\
     readings MOSEY evening begun = before ++ replicate 6 true) /\
  let s := meanwhile late (run MOSEY evening begun) in
  let ready := prepared MOSEY (reads late) s in
  let '(_, _, b, _) := poll (rx (reads late)) (browser (bound ready)) (world ready) in
  forall k, k ∈ dom (table (browser (bound s))) ->
    k ∈ dom (table (browser (bound (pass MOSEY (reads late) s).2))) \/
    (exists p, table b !! k = Some p /\ withdrawn p = true /\ expires_at p <= after_poll (reads late)) \/
    takes_off (our_addr (browser (bound ready)) (world ready)) (rx (reads late)).
Proof.
  split.
  2:{ destruct (bluetooth_decides MOSEY true 0 7 laptop evening) as [_ H]. change (start MOSEY true 0 7 laptop) with begun in H.
      apply (H late); [vm_compute; discriminate|vm_compute; reflexivity|vm_compute; reflexivity]. }
  destruct (published (shared (run MOSEY evening begun))) as [|p l] eqn:Hp.
  { assert (H : length (published (shared (run MOSEY evening begun))) = 1%nat) by (vm_compute; reflexivity). rewrite Hp in H. discriminate H. }
  assert (Hu : unreceptive_since <$> published (shared (run MOSEY evening begun)) = [Some 7000]) by (vm_compute; reflexivity).
  rewrite Hp in Hu. injection Hu as Hu _. destruct (bluetooth_decides MOSEY true 0 7 laptop evening) as [H _].
  destruct (H p) as [before Hb].
  - change (start MOSEY true 0 7 laptop) with begun. rewrite Hp. left.
  - rewrite Hu. discriminate.
  - exists p, before. split; [left|]. split; [exact Hu|exact Hb].
Defined.

Lemma naming_is_patient_witness :
  let asked := asked_at (full_instance phone_browser) phone_addr (started (run MOSEY evening begun)) in
  asked = [2000; 5000] /\ spaced asked.
Proof.
  split; [vm_compute; reflexivity|].
  apply (naming_is_patient MOSEY true 0 7 laptop evening phone_addr (full_instance phone_browser) 0).
  - cbn. lia.
  - repeat constructor.
Defined.

(** The second pass does not ask again; and a client that looks is heard within five. *)
Lemma the_loop_keeps_asking_witness :
  let s := run MOSEY (take 1 evening) begun in
  let second := [alone (looks 2000 false locked [])] in quiet MOSEY second s /\ len second <= 60.
Proof.
  set (second := [alone (looks 2000 false locked [])]).
  assert (Hq : quiet MOSEY second (run MOSEY (take 1 evening) begun)).
  { split; [vm_compute; reflexivity|]. split; [vm_compute; reflexivity|exact I]. }
  split; [exact Hq|]. destruct (the_loop_keeps_asking MOSEY true 0 7 laptop (take 1 evening) second Hq) as [H _]. exact H.
Defined.

End ToyBrowse.
