(* ===== verification/Netlink.v ===== *)
(** * The routing rules of the AWDL link, over netlink ([src/src/route.rs, nl80211.rs])

    What the daemon asks of the kernel, as the bytes of its netlink messages, and what it makes
    of the answers: the link-local route, the rule that lets one user route over the link, the
    probe for a VPN's kill-switch and the channel Wi-Fi is on.  The kernel is a class of
    operations on an abstract world.  The theorems say that the attributes of a message are
    read back as they were put, that the rules asked for are the ones meant, and what the probe
    answers on a dump of any shape. *)

From stdpp Require Import gmap.
From S2P Require Import Prelude Utf8 Text Device.
#[local] Open Scope rust_scope.

(** ** Programs on a world

    A step changes the world and has a result; a fallible one stops at its first error. *)

Definition ret {W A : Type} (a : A) (w : W) : A * W := (a, w).
Definition bind {W A B : Type} (m : W -> A * W) (k : A -> W -> B * W) (w : W) : B * W :=
  let (a, w) := m w in k a w.
Definition bind_ok {W A B E : Type} (m : W -> result A E * W) (k : A -> W -> result B E * W) (w : W) : result B E * W :=
  let (a, w) := m w in match a with Ok a => k a w | Err e => (Err e, w) end.

Declare Scope world_scope.
Delimit Scope world_scope with world.
Notation "'let*' x ':=' m 'in' k" := (bind m (fun x => k))
  (at level 10, x pattern, m at level 100, k at level 200,
   format "'[v' 'let*'  x  ':='  m  'in' '/' k ']'") : world_scope.
Notation "'let*?' x ':=' m 'in' k" := (bind_ok m (fun x => k))
  (at level 10, x pattern, m at level 100, k at level 200,
   format "'[v' 'let*?'  x  ':='  m  'in' '/' k ']'") : world_scope.
#[global] Open Scope world_scope.

(** [io::Error], as far as the code tells them apart. *)
Inductive Error : Type :=
| Os (errno : Z)
| NotFound (what : list byte)
| Other (what : list byte).

(** The system calls.  [request p m] is a socket of protocol [p], one message sent and one
    datagram received; [dump] a socket with a receive timeout, a message sent, and the
    datagrams that are received until a call fails.  An error is the [errno] of the first call
    that fails. *)
Class Kernel (W : Type) : Type := {
  if_nametoindex : list byte -> W -> result Z Z * W;
  getpwnam : list byte -> W -> option Z * W;
  request : Z -> list byte -> W -> result (list byte) Z * W;
  dump : Z -> list byte -> W -> result (list (list byte)) Z * W;
  read_to_string : list byte -> W -> result (list byte) Error * W
}.

(** ** Little-endian integers: [to_ne_bytes] and [from_ne_bytes] on the daemon's targets *)

Definition le (n : nat) (v : Z) : list byte := rev (to_be_bytes n v).
Definition from_le (bs : list byte) : Z := from_be_bytes (rev bs).

(** ** Messages *)

Definition NETLINK_ROUTE : Z := 0.
Definition RTM_NEWROUTE : Z := 24.
Definition RTM_NEWRULE : Z := 32.
Definition RTM_DELRULE : Z := 33.
Definition NLM_F_REQUEST : Z := 0x01.
Definition NLM_F_ACK : Z := 0x04.
Definition NLM_F_EXCL : Z := 0x200.
Definition NLM_F_CREATE : Z := 0x400.
Definition NLMSG_ERROR : Z := 0x2.
Definition RTPROT_STATIC : Z := 4.
Definition RT_SCOPE_LINK : Z := 253.
Definition RTN_UNICAST : Z := 1.
Definition RT_TABLE_UNSPEC : Z := 0.
Definition RTA_DST : Z := 1.
Definition RTA_OIF : Z := 4.
Definition RTA_TABLE : Z := 15.
Definition FRA_PRIORITY : Z := 6.
Definition FRA_TABLE : Z := 15.
Definition FRA_OIFNAME : Z := 17.
Definition FRA_UID_RANGE : Z := 20.
Definition FR_ACT_TO_TBL : Z := 1.
Definition RULE_PRIORITY_EXEMPT : Z := 13500.
Definition RULE_PRIORITY_PLAIN : Z := 15500.
Definition RULE_PRIORITIES : list Z := [RULE_PRIORITY_EXEMPT; RULE_PRIORITY_PLAIN].

(** [libc]'s. *)
Definition AF_UNSPEC : Z := 0.
Definition AF_INET6 : Z := 10.
Definition EEXIST : Z := 17.

Record NlMsgHdr : Type := mkNlMsgHdr { hdr_len : Z; hdr_ty : Z; hdr_flags : Z; hdr_seq : Z; hdr_pid : Z }.
Definition hdr_bytes (h : NlMsgHdr) : list byte :=
  le 4 (hdr_len h) ++ le 2 (hdr_ty h) ++ le 2 (hdr_flags h) ++ le 4 (hdr_seq h) ++ le 4 (hdr_pid h).

Record RtMsg : Type := mkRtMsg {
  family : Z; dst_len : Z; src_len : Z; tos : Z; table : Z; protocol : Z; scope : Z; rt_ty : Z; rt_flags : Z
}.
Definition rt_bytes (r : RtMsg) : list byte :=
  (to_u8 <$> [family r; dst_len r; src_len r; tos r; table r; protocol r; scope r; rt_ty r]) ++ le 4 (rt_flags r).

Definition align4 (n : Z) : Z := Z.land (n + 3) (Z.lnot 3).
(** [Vec::resize(align4(len), 0)], which never shortens. *)
Definition pad4 (b : list byte) : list byte := b ++ replicate (Z.to_nat (align4 (len b) - len b)) (to_u8 0).

Definition put_attr (ty : Z) (payload buf : list byte) : list byte :=
  let n := 4 + len payload in
  pad4 (buf ++ le 2 n ++ le 2 ty ++ payload).

(** [send_nl_flags]: the header, the body, and what the answer means. *)
Definition message (ty : Z) (body : list byte) (flags : Z) : list byte :=
  hdr_bytes (mkNlMsgHdr (16 + len body) ty flags 1 0) ++ body.

Definition u16_at (off : nat) (b : list byte) : Z := from_le (take 2 (drop off b)).
Definition u32_at (off : nat) (b : list byte) : Z := from_le (take 4 (drop off b)).

Definition acknowledged (resp : list byte) : result unit Error :=
  if len resp <? 16 + 4 then Ok tt
  else if u16_at 4 resp =? NLMSG_ERROR then
    let err := as_i32 (u32_at 16 resp) in
    if err =? 0 then Ok tt
    else if as_i32 (- err) =? EEXIST then Ok tt
    else Err (Os (as_i32 (- err)))
  else Ok tt.

(** ** Reading attributes ([nl80211.rs]) *)

Module Nl80211.

Definition NETLINK_GENERIC : Z := 16.
Definition GENL_ID_CTRL : Z := 16.
Definition CTRL_CMD_GETFAMILY : Z := 3.
Definition CTRL_ATTR_FAMILY_ID : Z := 1.
Definition CTRL_ATTR_FAMILY_NAME : Z := 2.
Definition NL80211_CMD_GET_INTERFACE : Z := 5.
Definition NL80211_ATTR_IFINDEX : Z := 3.
Definition NL80211_ATTR_WIPHY_FREQ : Z := 38.

(** The walk over attributes; [rest] is the buffer from [off] on. *)
Fixpoint find_attr_loop (fuel : nat) (rest : list byte) (want : Z) : option (list byte) :=
  match fuel with
  | O => None
  | S fuel =>
      if 4 <=? len rest then
        let n := u16_at 0 rest in
        let ty := u16_at 2 rest in
        if (n <? 4) || (len rest <? n) then None
        else if ty =? want then slice rest 4 n
        else find_attr_loop fuel (drop (Z.to_nat (align4 n)) rest) want
      else None
  end.
Definition find_attr (buf : list byte) (want : Z) : option (list byte) := find_attr_loop (S (length buf)) buf want.

Definition genl_message (fam cmd : Z) (body : list byte) : list byte :=
  let total := 16 + 4 + len body in
  le 4 total ++ le 2 fam ++ le 2 NLM_F_REQUEST ++ le 4 1 ++ le 4 0 ++ [to_u8 cmd] ++ [to_u8 1] ++ le 2 0 ++ body.

(** The answer; reading the number of an error that is cut short panics. *)
Definition genl_answer (resp : list byte) : option (result (list byte) Error) :=
  if len resp <? 16 then Some (Err (Other (str "short netlink response")))
  else if u16_at 4 resp =? NLMSG_ERROR then
    let^ number := slice resp 16 20 in
    let e := as_i32 (from_le number) in
    Some (Err (if e =? 0 then Other (str "netlink ack with no payload") else Os (as_i32 (- e))))
  else Some (Ok resp).

(** [&resp[20..]], which panics on an answer without the generic header. *)
Definition attrs_of (resp : list byte) : option (list byte) := slice resp 20 (len resp).

Definition family_of (resp : list byte) : option (result Z Error) :=
  let^ attrs := attrs_of resp in
  Some match find_attr attrs CTRL_ATTR_FAMILY_ID with
       | Some id => if 2 <=? len id then Ok (from_le (take 2 id)) else Err (Other (str "nl80211 family not present"))
       | None => Err (Other (str "nl80211 family not present"))
       end.

Definition freq_of (resp : list byte) : option (result Z Error) :=
  let^ attrs := attrs_of resp in
  Some match find_attr attrs NL80211_ATTR_WIPHY_FREQ with
       | Some v => if 4 <=? len v then Ok (from_le (take 4 v)) else Ok 0
       | None => Ok 0
       end.

Section Calls.
Context {W : Type} `{Kernel W}.

(** A step that may panic: [None]. *)
Definition and_then {A B : Type} (m : W -> option (result A Error) * W) (k : A -> W -> option (result B Error) * W) (w : W)
    : option (result B Error) * W :=
  let (a, w) := m w in
  match a with
  | Some (Ok a) => k a w
  | Some (Err e) => (Some (Err e), w)
  | None => (None, w)
  end.

Definition genl_request (fam cmd : Z) (body : list byte) (w : W) : option (result (list byte) Error) * W :=
  let (r, w) := request NETLINK_GENERIC (genl_message fam cmd body) w in
  (match r with
   | Ok resp => genl_answer (take (Z.to_nat 8192) resp)
   | Err e => Some (Err (Os e))
   end, w).

Definition nl80211_family : W -> option (result Z Error) * W :=
  and_then (genl_request GENL_ID_CTRL CTRL_CMD_GETFAMILY (put_attr CTRL_ATTR_FAMILY_NAME (str "nl80211" ++ [to_u8 0]) []))
    (fun resp w => (family_of resp, w)).

Definition interface_index (iface : list byte) (w : W) : option (result Z Error) * W :=
  if has_nul iface then (Some (Err (Other (str "bad interface name"))), w)
  else let (r, w) := if_nametoindex iface w in (Some (map_err Os r), w).

Definition frequency_of_tuned (iface : list byte) : W -> option (result Z Error) * W :=
  and_then (interface_index iface) (fun idx =>
  and_then nl80211_family (fun fam =>
  and_then (genl_request fam NL80211_CMD_GET_INTERFACE (put_attr NL80211_ATTR_IFINDEX (le 4 idx) []))
    (fun resp w => (freq_of resp, w)))).

Definition frequency_of (iface : list byte) (w : W) : option (result Z Error) * W :=
  let (r, w) := read_to_string (str "/sys/class/net/" ++ iface ++ str "/operstate") w in
  match r with
  | Ok v => if bool_decide (trim v = str "up") then frequency_of_tuned iface w else (Some (Ok 0), w)
  | Err e => (Some (Err e), w)
  end.

End Calls.
End Nl80211.

(** ** The route, the rule and the probe ([route.rs]) *)

Definition link_local_dst : list byte := to_u8 0xfe :: to_u8 0x80 :: replicate 14 (to_u8 0).

Definition link_local_body (idx : Z) : list byte :=
  put_attr RTA_TABLE (le 4 idx)
    (put_attr RTA_OIF (le 4 idx)
      (put_attr RTA_DST link_local_dst
        (pad4 (rt_bytes (mkRtMsg AF_INET6 64 0 0 RT_TABLE_UNSPEC RTPROT_STATIC RT_SCOPE_LINK RTN_UNICAST 0))))).

Definition rule_header : list byte :=
  pad4 (rt_bytes (mkRtMsg AF_INET6 0 0 0 RT_TABLE_UNSPEC 0 0 FR_ACT_TO_TBL 0)).

Definition uid_range (start end_ : Z) : list byte := le 4 start ++ le 4 end_.

Definition rule_body (iface : list byte) (idx priority uid : Z) : list byte :=
  put_attr FRA_UID_RANGE (uid_range uid uid)
    (put_attr FRA_PRIORITY (le 4 priority)
      (put_attr FRA_TABLE (le 4 idx)
        (put_attr FRA_OIFNAME (iface ++ [to_u8 0]) rule_header))).

Definition del_body (priority : Z) : list byte := put_attr FRA_PRIORITY (le 4 priority) rule_header.

Definition DEL_FLAGS : Z := Z.lor NLM_F_REQUEST NLM_F_ACK.
Definition NEW_FLAGS : Z := Z.lor (Z.lor NLM_F_REQUEST NLM_F_CREATE) (Z.lor NLM_F_EXCL NLM_F_ACK).

Definition priority_of (exempt : bool) : Z := if exempt then RULE_PRIORITY_EXEMPT else RULE_PRIORITY_PLAIN.

Section Route.
Context {W : Type} `{Kernel W}.

Definition send_nl_flags (msg_ty : Z) (body : list byte) (flags : Z) (w : W) : result unit Error * W :=
  let (r, w) := request NETLINK_ROUTE (message msg_ty body flags) w in
  (match r with
   | Ok resp => acknowledged (take 512 resp)
   | Err e => Err (Os e)
   end, w).

Definition send_nl (msg_ty : Z) (body : list byte) : W -> result unit Error * W :=
  send_nl_flags msg_ty body NEW_FLAGS.

Definition index_of (iface : list byte) (w : W) : result Z Error * W :=
  if has_nul iface then (Err (Other (str "bad interface name")), w)
  else let (r, w) := if_nametoindex iface w in (map_err Os r, w).

Definition table_id (iface : list byte) (w : W) : Z * W :=
  if has_nul iface then (0, w)
  else let (r, w) := if_nametoindex iface w in (match r with Ok idx => idx | Err _ => 0 end, w).

Definition add_link_local (iface : list byte) : W -> result unit Error * W :=
  let*? idx := index_of iface in
  send_nl RTM_NEWROUTE (link_local_body idx).

Definition sharing_uid (w : W) : result Z Error * W :=
  let (pw, w) := getpwnam (str "system_ext_tarish") w in
  (match pw with
   | Some uid => Ok uid
   | None => Err (Other (str "system_ext_tarish is not a known user"))
   end, w).

Definition del_rule_at (priority : Z) : W -> result unit Error * W :=
  send_nl_flags RTM_DELRULE (del_body priority) DEL_FLAGS.

(** [for _ in 0..n]: deletes until one fails, and counts. *)
Fixpoint sweep_at (n : nat) (priority : Z) (w : W) : Z * W :=
  match n with
  | O => (0, w)
  | S n =>
      let (r, w) := del_rule_at priority w in
      if is_ok r then let (removed, w) := sweep_at n priority w in (removed + 1, w) else (0, w)
  end.

(** Both priorities. *)
Fixpoint sweep (priorities : list Z) (w : W) : Z * W :=
  match priorities with
  | [] => (0, w)
  | p :: ps =>
      let (a, w) := sweep_at 8 p w in
      let (b, w) := sweep ps w in
      (a + b, w)
  end.

Definition add_rule (iface : list byte) (exempt : bool) : W -> result unit Error * W :=
  let*? idx := index_of iface in
  let* _ := sweep RULE_PRIORITIES in
  let*? uid := sharing_uid in
  send_nl RTM_NEWRULE (rule_body iface idx (priority_of exempt) uid).

Definition remove_rule : W -> result unit Error * W :=
  let* removed := sweep RULE_PRIORITIES in
  ret (if removed =? 0 then Err (NotFound (str "no rule at our priority")) else Ok tt).

(** ** Is a kill-switch in force? *)

Definition RTM_GETRULE : Z := 34.
Definition NLM_F_ROOT : Z := 0x100.
Definition NLM_F_MATCH : Z := 0x200.
Definition NLM_F_DUMP : Z := Z.lor NLM_F_ROOT NLM_F_MATCH.
Definition NLMSG_DONE : Z := 3.
Definition FR_ACT_PROHIBIT : Z := 8.

Definition dump_request : list byte :=
  message RTM_GETRULE (to_u8 <$> [AF_UNSPEC; 0; 0; 0; 0; 0; 0; 0; 0; 0; 0; 0]) (Z.lor NLM_F_REQUEST NLM_F_DUMP).

(** The walk over one datagram; [rest] is the buffer from [off] to [n].  [None]: the datagram
    is done, receive another. *)
Fixpoint walk (fuel : nat) (rest : list byte) : option (result bool Error) :=
  match fuel with
  | O => None
  | S fuel =>
      if 16 <=? len rest then
        let n := u32_at 0 rest in
        let ty := u16_at 4 rest in
        if (n <? 16) || (len rest <? n) then Some (Ok false)
        else if ty =? NLMSG_DONE then Some (Ok false)
        else if ty =? NLMSG_ERROR then Some (Err (Other (str "netlink error while dumping rules")))
        else if (16 + 8 <=? len rest) && (match rest !! 23%nat with Some b => u8 b =? FR_ACT_PROHIBIT | None => false end)
        then Some (Ok true)
        else walk fuel (drop (Z.to_nat (align4 n)) rest)
      else None
  end.

(** The datagrams one after the other; the call after the last fails. *)
Fixpoint probe_loop (datagrams : list (list byte)) : result bool Error :=
  match datagrams with
  | [] => Err (Other (str "recv"))
  | d :: ds =>
      let buf := take (Z.to_nat 32768) d in
      match walk (S (length buf)) buf with
      | Some r => r
      | None => probe_loop ds
      end
  end.

Definition probe_prohibit_rule (w : W) : result bool Error * W :=
  let (r, w) := dump NETLINK_ROUTE dump_request w in
  (match r with Ok ds => probe_loop ds | Err e => Err (Os e) end, w).

Definition lockdown_active (w : W) : bool * W :=
  let (r, w) := probe_prohibit_rule w in
  (match r with Ok found => found | Err _ => true end, w).

End Route.

(** ** What a message asks for

    The kernel's side of a rule message: its header, its length, and the attributes. *)

Record Rule : Type := mkRule { r_oif : list byte; r_table : Z; r_priority : Z; r_uids : Z * Z }.
#[export] Instance rule_eq_dec : EqDecision Rule.
Proof. solve_decision. Defined.

Inductive Asked : Type :=
| NewRule (r : Rule)
| DelRule (priority : Z)
| NewRoute (dst : list byte) (oif table : Z).

(** Attribute [ty] of a message whose attributes start after the family header. *)
Definition attribute (ty : Z) (m : list byte) : option (list byte) := Nl80211.find_attr (drop 28 m) ty.

Definition asked (m : list byte) : option Asked :=
  if negb (u32_at 0 m =? len m) then None
  else
    let ty := u16_at 4 m in
    if ty =? RTM_NEWRULE then
      let^ oif := attribute FRA_OIFNAME m in
      let^ table := attribute FRA_TABLE m in
      let^ priority := attribute FRA_PRIORITY m in
      let^ uids := attribute FRA_UID_RANGE m in
      Some (NewRule (mkRule (first_part (fun b => u8 b =? 0) oif) (from_le table) (from_le priority)
                       (u32_at 0 uids, u32_at 4 uids)))
    else if ty =? RTM_DELRULE then
      let^ priority := attribute FRA_PRIORITY m in
      Some (DelRule (from_le priority))
    else if ty =? RTM_NEWROUTE then
      let^ dst := attribute RTA_DST m in
      let^ oif := attribute RTA_OIF m in
      let^ table := attribute RTA_TABLE m in
      Some (NewRoute dst (from_le oif) (from_le table))
    else None.

Example asks_for_the_exempt_rule :
  asked (message RTM_NEWRULE (rule_body (str "tlink0") 52 (priority_of true) 7500) NEW_FLAGS)
  = Some (NewRule (mkRule (str "tlink0") 52 13500 (7500, 7500))).
Proof. by vm_compute. Qed.

Example asks_for_the_route :
  asked (message RTM_NEWROUTE (link_local_body 52) NEW_FLAGS) = Some (NewRoute link_local_dst 52 52).
Proof. by vm_compute. Qed.

Example asks_to_delete :
  asked (message RTM_DELRULE (del_body 13500) DEL_FLAGS) = Some (DelRule 13500).
Proof. by vm_compute. Qed.

(** ** Lemmas *)

Lemma len_le n v : len (le n v) = Z.of_nat n.
Proof. unfold le. rewrite len_nat, length_rev. pose proof (len_to_be_bytes n v) as E. rewrite len_nat in E. lia. Qed.

Lemma length_le n v : length (le n v) = n.
Proof. pose proof (len_le n v) as E. rewrite len_nat in E. lia. Qed.

Lemma from_le_le n v : 0 <= v < 256 ^ Z.of_nat n -> from_le (le n v) = v.
Proof. intros. unfold from_le, le. rewrite rev_involutive. by apply from_to_be_bytes_small. Qed.

(** Reading an integer where it was put. *)
Lemma read_le n v a b : 0 <= v < 256 ^ Z.of_nat n -> from_le (take n (drop (length a) (a ++ le n v ++ b))) = v.
Proof. intros. rewrite drop_app_length, take_app_length' by by rewrite length_le. by apply from_le_le. Qed.

Lemma u16_at_0 v b : 0 <= v < 65536 -> u16_at 0 (le 2 v ++ b) = v.
Proof. intros. by apply (read_le 2 v []). Qed.

Lemma u16_at_app a v b off : off = length a -> 0 <= v < 65536 -> u16_at off (a ++ le 2 v ++ b) = v.
Proof. intros -> ?. by apply (read_le 2). Qed.

Lemma u32_at_app a v b off : off = length a -> 0 <= v < 2 ^ 32 -> u32_at off (a ++ le 4 v ++ b) = v.
Proof. intros -> ?. by apply (read_le 4). Qed.

Lemma align4_spec n : align4 n = 4 * ((n + 3) / 4).
Proof.
  unfold align4. change 3 with (Z.ones 2) at 2. rewrite <- Z.ldiff_land, Z.ldiff_ones_r by lia.
  rewrite Z.shiftl_mul_pow2, Z.shiftr_div_pow2 by lia. change (2 ^ 2) with 4. lia.
Qed.

Lemma align4_bounds n : n <= align4 n < n + 4.
Proof. rewrite align4_spec. pose proof (Z.div_mod (n + 3) 4). pose proof (Z.mod_pos_bound (n + 3) 4). lia. Qed.

Lemma align4_mod n : align4 n mod 4 = 0.
Proof. rewrite align4_spec, Z.mul_comm. by apply Z.mod_mul. Qed.

Lemma align4_add a n : a mod 4 = 0 -> align4 (a + n) = a + align4 n.
Proof.
  intros Ha. rewrite !align4_spec. pose proof (Z.div_mod a 4) as E. rewrite Ha in E.
  replace (a + n + 3) with (n + 3 + a / 4 * 4) by lia. rewrite Z.div_add by lia. lia.
Qed.

Lemma len_pad4 b : len (pad4 b) = align4 (len b).
Proof. unfold pad4. simpl_len. pose proof (align4_bounds (len b)). lia. Qed.

Lemma pad4_app a b : len a mod 4 = 0 -> pad4 (a ++ b) = a ++ pad4 b.
Proof.
  intros Ha. unfold pad4. rewrite <- app_assoc. do 2 f_equal. f_equal. rewrite len_app, align4_add by done. lia.
Qed.

(** The bytes [put_attr] adds. *)
Definition attr_bytes (a : Z * list byte) : list byte := pad4 (le 2 (4 + len a.2) ++ le 2 a.1 ++ a.2).

Lemma put_attr_aligned ty p buf : len buf mod 4 = 0 -> put_attr ty p buf = buf ++ attr_bytes (ty, p).
Proof. apply pad4_app. Qed.

Lemma len_attr_bytes a : len (attr_bytes a) = align4 (4 + len a.2).
Proof. unfold attr_bytes. rewrite len_pad4. simpl_len. rewrite !len_le. f_equal. lia. Qed.

(** Several attributes, in order. *)
Definition put_attrs (l : list (Z * list byte)) (buf : list byte) : list byte :=
  fold_left (fun buf a => put_attr a.1 a.2 buf) l buf.

Lemma put_attrs_aligned l buf : len buf mod 4 = 0 -> put_attrs l buf = buf ++ mjoin (attr_bytes <$> l).
Proof.
  revert buf. induction l as [|[ty p] l IH]; intros buf Hb; [by rewrite app_nil_r|].
  cbn [put_attrs fold_left fst snd]. fold (put_attrs l (put_attr ty p buf)).
  rewrite put_attr_aligned, IH, <- app_assoc; [done| |done].
  rewrite len_app, len_attr_bytes, Z.add_mod, Hb, align4_mod; done.
Qed.

Definition attr_fits (a : Z * list byte) : Prop := 0 <= a.1 < 65536 /\ 4 + len a.2 < 65536.

(** The first attribute of a type. *)
Definition first_of (want : Z) (l : list (Z * list byte)) : option (list byte) :=
  map_opt snd (head (filter (fun a => a.1 = want) l)).

Lemma first_of_cons want a l : first_of want (a :: l) = if decide (a.1 = want) then Some a.2 else first_of want l.
Proof. unfold first_of. rewrite filter_cons. by case_decide. Qed.

Lemma find_attr_step a rest want fuel :
  attr_fits a ->
  Nl80211.find_attr_loop (S fuel) (attr_bytes a ++ rest) want
  = if decide (a.1 = want) then Some a.2 else Nl80211.find_attr_loop fuel rest want.
Proof.
  destruct a as [ty p]. intros [Hty Hp]. cbn [fst snd] in *. cbn [Nl80211.find_attr_loop].
  pose proof (align4_bounds (4 + len p)) as Ha. pose proof (len_nonneg p). pose proof (len_nonneg rest).
  assert (E : exists pad, attr_bytes (ty, p) ++ rest = le 2 (4 + len p) ++ le 2 ty ++ p ++ pad).
  { unfold attr_bytes, pad4. eexists. cbn [fst snd]. by rewrite <- !app_assoc. }
  assert (Hl : len (attr_bytes (ty, p) ++ rest) = align4 (4 + len p) + len rest) by by rewrite len_app, len_attr_bytes.
  assert (En : u16_at 0 (attr_bytes (ty, p) ++ rest) = 4 + len p).
  { destruct E as [pad ->]. apply u16_at_0. lia. }
  assert (Et : u16_at 2 (attr_bytes (ty, p) ++ rest) = ty).
  { destruct E as [pad ->]. apply u16_at_app; [by rewrite length_le|done]. }
  rewrite En, Et, Hl. rewrite (proj2 (Z.leb_le _ _)) by lia.
  rewrite (proj2 (Z.ltb_ge _ _)), (proj2 (Z.ltb_ge _ _)) by lia. cbn [orb].
  case_decide as Hw.
  - rewrite (proj2 (Z.eqb_eq _ _)) by done. destruct E as [pad ->]. rewrite app_assoc.
    apply slice_app; rewrite len_app, !len_le; lia.
  - rewrite (proj2 (Z.eqb_neq _ _)) by done. f_equal.
    apply drop_app_length'. pose proof (len_attr_bytes (ty, p)) as El. rewrite len_nat in El. cbn [snd] in El. lia.
Qed.

Lemma find_attr_loop_attrs l want : Forall attr_fits l -> forall fuel, (length l <= fuel)%nat ->
  Nl80211.find_attr_loop (S fuel) (mjoin (attr_bytes <$> l)) want = first_of want l.
Proof.
  induction 1 as [|a l Ha _ IH]; intros fuel Hf; [done|]. rewrite fmap_cons, first_of_cons.
  change (mjoin (attr_bytes a :: (attr_bytes <$> l))) with (attr_bytes a ++ mjoin (attr_bytes <$> l)).
  rewrite find_attr_step by done. case_decide; [done|]. cbn in Hf. destruct fuel as [|fuel]; [lia|]. apply IH. lia.
Qed.

Lemma length_attrs l : (length l <= length (mjoin (attr_bytes <$> l)))%nat.
Proof.
  induction l as [|a l IH]; [done|]. rewrite fmap_cons.
  change (mjoin (attr_bytes a :: (attr_bytes <$> l))) with (attr_bytes a ++ mjoin (attr_bytes <$> l)).
  rewrite length_app. cbn [length]. pose proof (len_attr_bytes a) as E. rewrite len_nat in E.
  pose proof (align4_bounds (4 + len a.2)). pose proof (len_nonneg a.2). lia.
Qed.

(** Whatever attributes are put after an aligned header, reading one finds the first of its
    type. *)
Lemma find_attr_put h l want :
  len h mod 4 = 0 -> Forall attr_fits l ->
  Nl80211.find_attr (drop (length h) (put_attrs l h)) want = first_of want l.
Proof.
  intros Hh Hl. rewrite put_attrs_aligned, drop_app_length by done.
  apply find_attr_loop_attrs; [done|]. apply length_attrs.
Qed.

(** ** Messages of attributes *)

Lemma length_hdr h : length (hdr_bytes h) = 16%nat.
Proof. unfold hdr_bytes. by rewrite !length_app, !length_le. Qed.

Lemma len_put_attrs l h : len h mod 4 = 0 -> len (put_attrs l h) = len h + len (mjoin (attr_bytes <$> l)).
Proof. intros. by rewrite put_attrs_aligned, len_app. Qed.

Section Messages.
Context (ty flags : Z) (h : list byte) (l : list (Z * list byte)).
Context (Hty : 0 <= ty < 65536) (Hh : length h = 12%nat) (Hl : Forall attr_fits l).
Let m := message ty (put_attrs l h) flags.

Lemma header_aligned : len h mod 4 = 0.
Proof using Hh. by rewrite len_nat, Hh. Qed.

Lemma message_type : u16_at 4 m = ty.
Proof using Hty.
  unfold m, message, hdr_bytes. cbn [hdr_ty hdr_len hdr_flags]. rewrite <- !app_assoc.
  apply u16_at_app; [by rewrite length_le|done].
Qed.

Lemma message_len : 16 + len (put_attrs l h) < 2 ^ 32 -> u32_at 0 m = len m.
Proof using Type.
  clear Hty Hh Hl. intros Hs. unfold m, message. rewrite len_app.
  rewrite (len_nat (hdr_bytes (mkNlMsgHdr (16 + len (put_attrs l h)) ty flags 1 0))), length_hdr.
  unfold hdr_bytes. cbn [hdr_len]. rewrite <- !app_assoc. pose proof (len_nonneg (put_attrs l h)).
  apply (u32_at_app []); [done|lia].
Qed.

Lemma message_attribute want : attribute want m = first_of want l.
Proof using Hh Hl.
  unfold attribute, m, message. change 28%nat with (16 + 12)%nat. rewrite <- drop_drop.
  rewrite drop_app_length' by by rewrite length_hdr. rewrite <- Hh.
  apply find_attr_put; [apply header_aligned|done].
Qed.

End Messages.

Lemma length_rt r : length (pad4 (rt_bytes r)) = 12%nat.
Proof.
  enough (len (pad4 (rt_bytes r)) = 12) as E by (rewrite len_nat in E; lia).
  rewrite len_pad4. unfold rt_bytes. by rewrite len_app, len_le.
Qed.

Lemma first_part_nul s : has_nul s = false -> first_part (fun b => u8 b =? 0) (s ++ [to_u8 0]) = s.
Proof.
  induction s as [|b s IH]; [done|]. cbn. intros [-> Hs]%orb_false_iff. by rewrite IH.
Qed.

Definition rule_attrs (iface : list byte) (idx priority uid : Z) : list (Z * list byte) :=
  [(FRA_OIFNAME, iface ++ [to_u8 0]); (FRA_TABLE, le 4 idx); (FRA_PRIORITY, le 4 priority);
   (FRA_UID_RANGE, uid_range uid uid)].

Lemma len_mjoin_attrs l B : Forall (fun a => len a.2 <= B) l -> len (mjoin (attr_bytes <$> l)) <= len l * (B + 8).
Proof.
  induction 1 as [|a l Ha _ IH]; [done|].
  rewrite fmap_cons, len_mjoin_cons, len_cons, len_attr_bytes. pose proof (align4_bounds (4 + len a.2)). lia.
Qed.

(** The rule message says what is meant. *)
Lemma asked_rule iface idx priority uid :
  has_nul iface = false -> len iface < 60000 -> is_u32 idx -> is_u32 priority -> is_u32 uid ->
  asked (message RTM_NEWRULE (rule_body iface idx priority uid) NEW_FLAGS)
  = Some (NewRule (mkRule iface idx priority (uid, uid))).
Proof.
  intros Hn Hlen Hi Hp Hu. pose proof (len_nonneg iface).
  change (rule_body iface idx priority uid) with (put_attrs (rule_attrs iface idx priority uid) rule_header).
  assert (Hh : length rule_header = 12%nat) by apply length_rt.
  assert (Hl : Forall attr_fits (rule_attrs iface idx priority uid)).
  { unfold rule_attrs, attr_fits, uid_range. repeat apply Forall_cons_2; try apply Forall_nil_2; cbn [fst snd];
      rewrite ?len_app, ?len_le; change (len [to_u8 0]) with 1; unfold FRA_OIFNAME, FRA_TABLE, FRA_PRIORITY, FRA_UID_RANGE; lia. }
  unfold asked. rewrite message_len.
  2:{ rewrite len_put_attrs by by apply header_aligned. rewrite (len_nat rule_header), Hh.
      pose proof (len_mjoin_attrs (rule_attrs iface idx priority uid) 60001) as Hb.
      change (len (rule_attrs iface idx priority uid)) with 4 in Hb.
      enough (len (mjoin (attr_bytes <$> rule_attrs iface idx priority uid)) <= 4 * (60001 + 8)) by lia.
      apply Hb. unfold rule_attrs, uid_range. repeat apply Forall_cons_2; try apply Forall_nil_2; cbn [fst snd];
        rewrite ?len_app, ?len_le; change (len [to_u8 0]) with 1; lia. }
  rewrite Z.eqb_refl, message_type by done. cbn [negb]. rewrite Z.eqb_refl.
  rewrite !message_attribute by done. unfold rule_attrs. rewrite !first_of_cons. cbn [fst snd].
  repeat (case_decide; [try discriminate|try congruence]). cbn [opt_bind]. f_equal. f_equal. f_equal.
  - by apply first_part_nul.
  - by apply (from_le_le 4).
  - by apply (from_le_le 4).
  - unfold uid_range. f_equal; [rewrite <- (app_nil_r (le 4 uid)) at 2; by apply (u32_at_app [])|].
    rewrite <- (app_nil_r (le 4 uid)) at 2. by apply u32_at_app; [rewrite length_le|].
Qed.

Lemma asked_del priority : is_u32 priority ->
  asked (message RTM_DELRULE (del_body priority) DEL_FLAGS) = Some (DelRule priority).
Proof.
  intros Hp. change (del_body priority) with (put_attrs [(FRA_PRIORITY, le 4 priority)] rule_header).
  assert (Hh : length rule_header = 12%nat) by apply length_rt.
  assert (Hl : Forall attr_fits [(FRA_PRIORITY, le 4 priority)]).
  { apply Forall_cons_2; [|apply Forall_nil_2]. unfold attr_fits. cbn [fst snd]. rewrite len_le. unfold FRA_PRIORITY. lia. }
  unfold asked. rewrite message_len.
  2:{ rewrite len_put_attrs by by apply header_aligned. rewrite (len_nat rule_header), Hh. cbn [fmap list_fmap].
      rewrite len_mjoin_cons, len_attr_bytes. cbn [snd]. by rewrite len_le. }
  rewrite Z.eqb_refl, message_type by done. cbn [negb].
  change (RTM_DELRULE =? RTM_NEWRULE) with false. rewrite Z.eqb_refl. cbn iota.
  rewrite message_attribute, first_of_cons by done. cbn [fst snd]. rewrite decide_True by done. cbn [opt_bind].
  by rewrite (from_le_le 4).
Qed.

Lemma asked_route idx : is_u32 idx ->
  asked (message RTM_NEWROUTE (link_local_body idx) NEW_FLAGS) = Some (NewRoute link_local_dst idx idx).
Proof.
  intros Hi.
  pose (l := [(RTA_DST, link_local_dst); (RTA_OIF, le 4 idx); (RTA_TABLE, le 4 idx)]).
  pose (h := pad4 (rt_bytes (mkRtMsg AF_INET6 64 0 0 RT_TABLE_UNSPEC RTPROT_STATIC RT_SCOPE_LINK RTN_UNICAST 0))).
  change (link_local_body idx) with (put_attrs l h). assert (Hh : length h = 12%nat) by apply length_rt.
  assert (Hl : Forall attr_fits l).
  { unfold l, attr_fits. repeat apply Forall_cons_2; try apply Forall_nil_2; cbn [fst snd];
      rewrite ?len_le; change (len link_local_dst) with 16; unfold RTA_DST, RTA_OIF, RTA_TABLE; lia. }
  unfold asked. rewrite message_len.
  2:{ rewrite len_put_attrs by by apply header_aligned. rewrite (len_nat h), Hh. unfold l. cbn [fmap list_fmap].
      rewrite !len_mjoin_cons, !len_attr_bytes. cbn [snd]. rewrite len_le. change (len link_local_dst) with 16.
      by vm_compute. }
  rewrite Z.eqb_refl, message_type by done. cbn [negb].
  change (RTM_NEWROUTE =? RTM_NEWRULE) with false. change (RTM_NEWROUTE =? RTM_DELRULE) with false.
  rewrite Z.eqb_refl. cbn iota. rewrite !message_attribute by done. unfold l. rewrite !first_of_cons. cbn [fst snd].
  repeat (case_decide; [try discriminate|try congruence]). cbn [opt_bind]. by rewrite !(from_le_le 4).
Qed.

(** ** Dumps

    A dump is datagrams of messages, each padded to four bytes; the last message is "done". *)

Record Answer : Type := mkAnswer { a_ty : Z; a_flags : Z; a_seq : Z; a_pid : Z; a_body : list byte }.

Definition answer_bytes (a : Answer) : list byte :=
  pad4 (hdr_bytes (mkNlMsgHdr (16 + len (a_body a)) (a_ty a) (a_flags a) (a_seq a) (a_pid a)) ++ a_body a).
Definition datagram (l : list Answer) : list byte := mjoin (answer_bytes <$> l).

Definition whole_answer (a : Answer) : Prop := 0 <= a_ty a < 65536 /\ 16 + len (a_body a) < 2 ^ 32.
(** A rule, with at least the fields of a [fib_rule_hdr] up to the action. *)
Definition a_rule (a : Answer) : Prop :=
  whole_answer a /\ a_ty a <> NLMSG_DONE /\ a_ty a <> NLMSG_ERROR /\ 8 <= len (a_body a).
Definition prohibits (a : Answer) : bool :=
  match a_body a !! 7%nat with Some b => u8 b =? FR_ACT_PROHIBIT | None => false end.

Definition a_datagram (l : list Answer) : Prop := Forall a_rule l /\ len (datagram l) <= 32768.

Lemma answer_shape a rest : exists pad,
  answer_bytes a ++ rest
  = le 4 (16 + len (a_body a)) ++ le 2 (a_ty a) ++ (le 2 (a_flags a) ++ le 4 (a_seq a) ++ le 4 (a_pid a)) ++ a_body a ++ pad.
Proof. unfold answer_bytes, pad4, hdr_bytes. cbn [hdr_len hdr_ty hdr_flags hdr_seq hdr_pid]. eexists. by rewrite <- !app_assoc. Qed.

Lemma len_answer_bytes a : len (answer_bytes a) = align4 (16 + len (a_body a)).
Proof. unfold answer_bytes. rewrite len_pad4, len_app, (len_nat (hdr_bytes _)), length_hdr. done. Qed.

Lemma walk_step a rest fuel : whole_answer a ->
  walk (S fuel) (answer_bytes a ++ rest)
  = if a_ty a =? NLMSG_DONE then Some (Ok false)
    else if a_ty a =? NLMSG_ERROR then Some (Err (Other (str "netlink error while dumping rules")))
    else if (16 + 8 <=? len (answer_bytes a ++ rest))
            && match (answer_bytes a ++ rest) !! 23%nat with Some b => u8 b =? FR_ACT_PROHIBIT | None => false end
    then Some (Ok true) else walk fuel rest.
Proof.
  intros [Hty Hb]. cbn [walk]. pose proof (len_nonneg (a_body a)). pose proof (len_nonneg rest).
  pose proof (align4_bounds (16 + len (a_body a))).
  assert (Hl : len (answer_bytes a ++ rest) = align4 (16 + len (a_body a)) + len rest) by by rewrite len_app, len_answer_bytes.
  assert (En : u32_at 0 (answer_bytes a ++ rest) = 16 + len (a_body a)).
  { destruct (answer_shape a rest) as [pad ->]. apply (u32_at_app []); [done|lia]. }
  assert (Et : u16_at 4 (answer_bytes a ++ rest) = a_ty a).
  { destruct (answer_shape a rest) as [pad ->]. apply u16_at_app; [by rewrite length_le|done]. }
  rewrite En, Et. rewrite (proj2 (Z.leb_le 16 _)) by lia.
  rewrite (proj2 (Z.ltb_ge _ _)), (proj2 (Z.ltb_ge _ _)) by lia. cbn [orb].
  rewrite drop_app_length'; [done|]. pose proof (len_answer_bytes a) as E. rewrite len_nat in E. lia.
Qed.

Lemma walk_rule a rest fuel : a_rule a ->
  walk (S fuel) (answer_bytes a ++ rest) = if prohibits a then Some (Ok true) else walk fuel rest.
Proof.
  intros (Hw & Hd & He & H8). rewrite walk_step by done.
  rewrite (proj2 (Z.eqb_neq _ _)), (proj2 (Z.eqb_neq _ _)) by done.
  pose proof (len_nonneg rest). pose proof (align4_bounds (16 + len (a_body a))).
  rewrite (proj2 (Z.leb_le _ _)) by (rewrite len_app, len_answer_bytes; lia). cbn [andb].
  replace ((answer_bytes a ++ rest) !! 23%nat) with (a_body a !! 7%nat); [done|].
  destruct (answer_shape a rest) as [pad ->].
  do 3 (rewrite lookup_app_r by (rewrite ?length_app, ?length_le; lia)). rewrite ?length_app, ?length_le. cbn [Nat.sub Nat.add].
  rewrite lookup_app_l; [done|]. rewrite len_nat in H8. lia.
Qed.

Lemma datagram_cons a l : datagram (a :: l) = answer_bytes a ++ datagram l.
Proof. done. Qed.

Lemma walk_datagram l rest : Forall a_rule l -> forall fuel, (length l <= fuel)%nat ->
  walk fuel (datagram l ++ rest)
  = if existsb prohibits l then Some (Ok true) else walk (fuel - length l) rest.
Proof.
  induction 1 as [|a l Ha _ IH]; intros fuel Hf; [by rewrite Nat.sub_0_r|].
  cbn [length] in *. destruct fuel as [|fuel]; [lia|]. rewrite datagram_cons, <- app_assoc, walk_rule by done.
  cbn [existsb]. destruct (prohibits a); [done|]. cbn [orb]. rewrite IH by lia. done.
Qed.

Lemma length_answer a : (1 <= length (answer_bytes a))%nat.
Proof.
  pose proof (len_answer_bytes a) as E. rewrite len_nat in E. pose proof (align4_bounds (16 + len (a_body a))).
  pose proof (len_nonneg (a_body a)). lia.
Qed.

Lemma length_datagram l : (length l <= length (datagram l))%nat.
Proof.
  induction l as [|a l IH]; [done|]. rewrite datagram_cons, length_app. cbn [length]. pose proof (length_answer a). lia.
Qed.

(** [None]: the dump stops short. *)
Definition dump_of (gs : list (list Answer)) (fin : option (list Answer * Answer)) : list (list byte) :=
  (datagram <$> gs) ++ match fin with Some (l, d) => [datagram (l ++ [d])] | None => [] end.

Lemma walk_open l : Forall a_rule l ->
  walk (S (length (datagram l))) (datagram l) = if existsb prohibits l then Some (Ok true) else None.
Proof.
  intros Hl. pose proof (length_datagram l). rewrite <- (app_nil_r (datagram l)) at 2.
  rewrite walk_datagram by (done || lia). destruct (existsb prohibits l); [done|]. by destruct (S _ - length l)%nat.
Qed.

Lemma walk_done l d : Forall a_rule l -> whole_answer d -> a_ty d = NLMSG_DONE ->
  walk (S (length (datagram (l ++ [d])))) (datagram (l ++ [d])) = Some (Ok (existsb prohibits l)).
Proof.
  intros Hl Hd Ht. pose proof (length_datagram (l ++ [d])) as Hn. rewrite length_app in Hn. cbn [length] in Hn.
  assert (E : datagram (l ++ [d]) = datagram l ++ answer_bytes d ++ []).
  { unfold datagram. rewrite fmap_app, join_app. cbn. by rewrite app_nil_r. }
  rewrite E at 2. rewrite walk_datagram by (done || lia). destruct (existsb prohibits l); [done|].
  destruct (S (length (datagram (l ++ [d]))) - length l)%nat as [|k] eqn:Ek; [lia|].
  rewrite walk_step by done. by rewrite Ht.
Qed.

Lemma existsb_mjoin_cons {A} (p : A -> bool) l ls : existsb p (mjoin (l :: ls)) = existsb p l || existsb p (mjoin ls).
Proof. apply existsb_app. Qed.

Lemma take_datagram l : len (datagram l) <= 32768 -> take (Z.to_nat 32768) (datagram l) = datagram l.
Proof. intros Hl. apply take_ge. rewrite len_nat in Hl. lia. Qed.

Lemma probe_dump gs fin :
  Forall a_datagram gs ->
  (forall l d, fin = Some (l, d) ->
     Forall a_rule l /\ whole_answer d /\ a_ty d = NLMSG_DONE /\ len (datagram (l ++ [d])) <= 32768) ->
  probe_loop (dump_of gs fin)
  = if existsb prohibits (mjoin gs) then Ok true
    else match fin with Some (l, _) => Ok (existsb prohibits l) | None => Err (Other (str "recv")) end.
Proof.
  intros Hg Hf. induction Hg as [|g gs [Hr Hb] _ IH].
  - destruct fin as [[l d]|]; [|done]. destruct (Hf l d) as (Hl & Hd & Ht & Hb); [done|].
    unfold dump_of. cbn [fmap list_fmap app]. cbn [probe_loop]. rewrite take_datagram by done. by rewrite walk_done.
  - unfold dump_of. rewrite fmap_cons, <- app_comm_cons. fold (dump_of gs fin).
    cbn [probe_loop]. rewrite take_datagram by done. rewrite walk_open by done. rewrite existsb_mjoin_cons.
    by destruct (existsb prohibits g).
Qed.

(** C38: the probe for a kill-switch.  On a dump that comes in datagrams of whole messages, however
    many to a datagram, none longer than the 32768 bytes of the buffer, and that the kernel
    finishes, the answer is whether one of the rules prohibits.  When the dump cannot be made,
    or when reading it fails after such datagrams and before its end, the answer is that one is
    in force.  A datagram that breaks off within a message is not of this kind: there the code
    answers that none is in force if none was seen before ([ToyNetlink.a_truncated_dump_is_open]). *)
Theorem lockdown_is_read {W : Type} `{Kernel W} (w w' : W) gs fin :
  Forall a_datagram gs ->
  (forall l d, fin = Some (l, d) ->
     Forall a_rule l /\ whole_answer d /\ a_ty d = NLMSG_DONE /\ len (datagram (l ++ [d])) <= 32768) ->
  (dump NETLINK_ROUTE dump_request w = (Ok (dump_of gs fin), w') ->
   lockdown_active w = (match fin with Some (l, _) => existsb prohibits (mjoin gs ++ l) | None => true end, w')) /\
  (forall e, dump NETLINK_ROUTE dump_request w = (Err e, w') -> lockdown_active w = (true, w')).
Proof.
  intros Hg Hf. unfold lockdown_active, probe_prohibit_rule. split; [intros ->|by intros e ->].
  rewrite probe_dump by done. destruct fin as [[l d]|]; [rewrite existsb_app|]; by destruct (existsb prohibits (mjoin gs)).
Qed.

Module ToyNetlink.

(** A kernel that only answers dumps, with what the world says. *)
#[local] Instance kernel : Kernel (list (list byte)) := {|
  if_nametoindex _ w := (Ok 52, w);
  getpwnam _ w := (Some 7500, w);
  request _ _ w := (Ok [], w);
  dump _ _ w := (Ok w, w);
  read_to_string _ w := (Err (Os 2), w)
|}.

(** A rule that looks up a table, one that prohibits, and the end. *)
Definition lookup_rule : Answer := mkAnswer RTM_NEWRULE 2 1 77 (rule_header ++ attr_bytes (FRA_PRIORITY, le 4 17000)).
Definition kill_switch : Answer := mkAnswer RTM_NEWRULE 2 1 77 (to_u8 <$> [10; 0; 0; 0; 0; 0; 0; 8; 0; 0; 0; 0]).
Definition done_ : Answer := mkAnswer NLMSG_DONE 2 1 77 (le 4 0).

Lemma lockdown_is_read_witness :
  lockdown_active (dump_of [[lookup_rule]] (Some ([kill_switch], done_)))
  = (true, dump_of [[lookup_rule]] (Some ([kill_switch], done_))).
Proof.
  refine (proj1 (lockdown_is_read _ _ [[lookup_rule]] (Some ([kill_switch], done_)) _ _) eq_refl).
  - apply Forall_cons_2; [|apply Forall_nil_2]. split; [|vm_compute; discriminate].
    apply Forall_cons_2; [|apply Forall_nil_2]. repeat split; vm_compute; discriminate || done.
  - intros l d [= <- <-]. split; [apply Forall_cons_2; [|apply Forall_nil_2]|]; repeat split; vm_compute; discriminate || done.
Defined.

Example no_kill_switch :
  (lockdown_active (dump_of [[lookup_rule]] (Some ([lookup_rule], done_)))).1 = false /\
  (lockdown_active (dump_of [[lookup_rule]] None)).1 = true.
Proof. by vm_compute. Qed.

(** A datagram cut short answers that no kill-switch is in force. *)
Example a_truncated_dump_is_open :
  (lockdown_active [take 60 (datagram [lookup_rule; kill_switch])]).1 = false.
Proof. by vm_compute. Qed.

(** An error that is cut short passes the length check and is then read. *)
Example a_short_error_panics : Nl80211.genl_answer (hdr_bytes (mkNlMsgHdr 16 NLMSG_ERROR 0 1 0)) = None.
Proof. by vm_compute. Qed.

(** The family of nl80211, and the frequency of an interface. *)
Example a_family_is_read :
  Nl80211.family_of (hdr_bytes (mkNlMsgHdr 28 16 0 1 0) ++ replicate 4 (to_u8 0) ++ attr_bytes (1, le 2 33)) = Some (Ok 33) /\
  Nl80211.freq_of (hdr_bytes (mkNlMsgHdr 28 33 0 1 0) ++ replicate 4 (to_u8 0) ++ attr_bytes (3, le 4 9) ++ attr_bytes (38, le 4 5520)) = Some (Ok 5520).
Proof. by vm_compute. Qed.

End ToyNetlink.
