(* ===== verification/Channels.v ===== *)
(** * What the AWDL daemon reads before it acts ([src/src/main.rs])

    System properties, the regulatory country, the frequency Wi-Fi is on, the channels to offer
    for AWDL and the configuration handed to the radio library.  The theorems say that the band
    of the Wi-Fi association is never offered while some channel always is, that the
    configuration reads back as the message it is, and what can come out of the properties. *)

From stdpp Require Import gmap.
From S2P Require Import Prelude Utf8 Text Device Protobuf Netlink.
#[local] Open Scope rust_scope.

(** The kernel, the property service and the file system under [/sys]. *)
Class Platform (W : Type) : Type := {
  #[global] platform_kernel :: Kernel W;
  system_property_get : list byte -> W -> list byte * W;
  system_property_set : list byte -> list byte -> W -> bool * W;
  env_var : list byte -> W -> option (list byte) * W;
  path_exists : list byte -> W -> bool * W
}.

Definition STA_IFACE : list byte := str "wlan0".
Definition CHANNELS_24 : list Z := [6].
Definition CHANNELS_5 : list Z := [149; 44].
Definition WANT_PROP : list byte := str "tarish.awdl.wanted".
Definition EXEMPT_PROP : list byte := str "tarish.awdl.exempt".
Definition LOCKDOWN_PROP : list byte := str "tarish.awdl.lockdown".

(** ** Channels *)

Definition channels_for (sta_freq_mhz : Z) : list (list Z) :=
  if sta_freq_mhz <? 0 then [CHANNELS_5; CHANNELS_24]
  else if sta_freq_mhz =? 0 then [CHANNELS_5; CHANNELS_24]
  else if 5000 <=? sta_freq_mhz then [CHANNELS_24; CHANNELS_5]
  else [CHANNELS_5; CHANNELS_24].

Definition same_band_as_sta (channels : list Z) (sta_freq_mhz : Z) : bool :=
  if sta_freq_mhz <=? 0 then false
  else
    let sta_is_24 := sta_freq_mhz <? 5000 in
    forallb (fun c => Bool.eqb (c <=? 14) sta_is_24) channels.

(** What is offered to the library: an override, or what is not in the band of the STA. *)
Definition offered (forced : option (list Z)) (sta : Z) : list (list Z) :=
  match forced with
  | Some c => [c]
  | None => filter (fun c => negb (same_band_as_sta c sta)) (channels_for sta)
  end.

(** ** The configuration *)

Definition CFG_DBS_SUPPORTED : list byte := [to_u8 0x08; to_u8 0x01].
Definition CFG_RATE_ADAPTATION : list byte := [to_u8 0x30; to_u8 0x01].
Definition CFG_STA_FREQ_TAG : byte := to_u8 0x10.

(** [while n >= 0x80]; five rounds empty a [u32]. *)
Fixpoint push_varint (fuel : nat) (n : Z) (v : list byte) : list byte :=
  match fuel with
  | O => v
  | S fuel =>
      if 0x80 <=? n then push_varint fuel (Z.shiftr n 7) (v ++ [to_u8 (Z.lor (Z.land (u8 (to_u8 n)) 0x7f) 0x80)])
      else v ++ [to_u8 n]
  end.

Definition mosey_config (sta_freq_mhz : Z) : list byte :=
  let v := CFG_DBS_SUPPORTED in
  let v := if 0 <? sta_freq_mhz then push_varint 5 (as_u32 sta_freq_mhz) (v ++ [CFG_STA_FREQ_TAG]) else v in
  v ++ CFG_RATE_ADAPTATION.

(** [&hex[i..i + 2]] of a string, byte pair by byte pair; [None] is the panic of a slice that
    cuts a character.  The string has an even length. *)
Fixpoint hex_pairs (hex : list byte) : option (option (list byte)) :=
  match hex with
  | a :: b :: rest =>
      if match rest with c :: _ => cont c | [] => false end then None
      else
        match parse_radix 16 255 [a; b] with
        | Some x => map_opt (map_opt (cons (to_u8 x))) (hex_pairs rest)
        | None => Some None
        end
  | _ => Some (Some [])
  end.

Definition parse_config (v : list byte) : option (option (list byte)) :=
  let hex := of_chars (filter (fun c => negb (is_whitespace c)) (chars v)) in
  if is_empty hex || negb (len hex mod 2 =? 0) then Some None else hex_pairs hex.

Definition parse_channels (v : list byte) : option (list Z) :=
  let channels : list Z := omap (M:=list) (fun c => parse_radix 10 255 (trim c)) (split_on comma [] v) in
  if is_empty channels then None else Some channels.

(** [parse::<i32>]. *)
Definition parse_i32 (s : list byte) : option Z :=
  match s with
  | b :: s' =>
      if (u8 b =? 45) && negb (is_empty s') then map_opt Z.opp (digits 10 (2 ^ 31) 0 s')
      else parse_radix 10 (2 ^ 31 - 1) s
  | [] => None
  end.

Definition wifi_band (f : Z) : bool := between 2000 7200 f.

(** The manual override, and the client's property, of [sta_frequency]. *)
Definition forced_frequency (v : list byte) : option Z :=
  match parse_radix 10 u32_max (trim v) with
  | Some f => if wifi_band f then Some f else None
  | None => None
  end.
Definition client_frequency (v : list byte) : option Z :=
  map_opt (fun f => if wifi_band f then f else if f <? 0 then -1 else 0) (parse_i32 (trim v)).

(** The properties [country_code] asks, in order. *)
Definition COUNTRY_PROPS : list (list byte) :=
  [str "persist.tarish.country"; str "persist.vendor.wifi.country"; str "gsm.operator.iso-country";
   str "gsm.sim.operator.iso-country"; str "ro.boot.wificountrycode"].

Definition is_ascii_alphabetic (b : byte) : bool := between 65 90 (u8 b) || between 97 122 (u8 b).

Inductive OpMode : Type := Radiotap | Netlink_.
#[export] Instance op_mode_eq_dec : EqDecision OpMode.
Proof. solve_decision. Defined.

Inductive LevelFilter : Type := LError | LWarn | LDebug | LTrace | LInfo.

Section Platform.
Context {W : Type} `{Platform W}.
(** The upper case of a character that is not ASCII: the standard library's tables. *)
Context (upper_of : Z -> list Z).

Definition read_property (name : list byte) (w : W) : option (list byte) * W :=
  if has_nul name then (None, w)
  else
    let (raw, w) := system_property_get name w in
    (if is_empty raw then None else from_utf8 raw, w).

Definition write_property (name value : list byte) (w : W) : bool * W :=
  if has_nul name || has_nul value then (false, w) else system_property_set name value w.

Definition awdl_link_is_dead (w : W) : bool * W :=
  let (r, w) := read_to_string (str "/sys/class/net/wondertap0/operstate") w in
  (match r with
   | Ok v => let v := trim v in bool_decide (v = str "down") || bool_decide (v = str "notpresent")
   | Err _ => true
   end, w).

(** What the first call of [iface] computes; the others return the same. *)
Definition iface : W -> list byte * W :=
  let* v := env_var (str "TARISH_IFACE") in
  match v with
  | Some name => ret name
  | None => let* p := read_property (str "persist.tarish.iface") in ret (unwrap_or p (str "tlink0"))
  end.

Definition config_override (w : W) : option (option (list byte)) * W :=
  let (hex, w) := read_property (str "persist.tarish.mosey_config") w in
  (match hex with Some v => parse_config v | None => Some None end, w).

Definition channel_override (w : W) : option (list Z) * W :=
  let (v, w) := read_property (str "persist.tarish.channels") w in
  (match v with Some v => parse_channels v | None => None end, w).

(** [None]: a panic on the kernel's answer. *)
Definition sta_frequency (w : W) : option Z * W :=
  let (v, w) := read_property (str "persist.tarish.sta_freq") w in
  match match v with Some v => forced_frequency v | None => None end with
  | Some f => (Some f, w)
  | None =>
      let (r, w) := Nl80211.frequency_of STA_IFACE w in
      match r with
      | None => (None, w)
      | Some r =>
          match match r with Ok f => if wifi_band f then Some f else None | Err _ => None end with
          | Some f => (Some f, w)
          | None =>
              let (v, w) := read_property (str "tarish.awdl.sta_freq") w in
              (Some (unwrap_or (match v with Some v => client_frequency v | None => None end) 0), w)
          end
      end
  end.

Definition to_uppercase (s : list byte) : list byte :=
  of_chars (mjoin ((fun c => if between 97 122 c then [c - 32] else if c <? 128 then [c] else upper_of c) <$> chars s)).

(** One value of [country_code]: the first of a list, if it is two letters. *)
Definition country_of (raw : list byte) : option (list byte) :=
  let v := to_uppercase (trim (first_part comma raw)) in
  if (len v =? 2) && forallb is_ascii_alphabetic v then Some v else None.

Fixpoint country_from (props : list (list byte)) (w : W) : option (list byte) * W :=
  match props with
  | [] => (None, w)
  | p :: props =>
      let (raw, w) := read_property p w in
      match match raw with Some raw => country_of raw | None => None end with
      | Some v => (Some v, w)
      | None => country_from props w
      end
  end.
Definition country_code : W -> option (list byte) * W := country_from COUNTRY_PROPS.

Definition exemption_earned (w : W) : bool * W :=
  let (v, w) := read_property EXEMPT_PROP w in (bool_decide (v = Some (str "1")), w).

Definition wants_radio (w : W) : bool * W :=
  let (v, w) := read_property WANT_PROP w in
  (match v with Some v => negb (bool_decide (trim v = str "0")) | None => true end, w).

Definition radio_modes (w : W) : list OpMode * W :=
  let (has_radiotap, w) := path_exists (str "/sys/class/net/radiotap0") w in
  (if has_radiotap then [Radiotap; Netlink_] else [Netlink_; Radiotap], w).

Definition log_level (w : W) : LevelFilter * W :=
  let (v, w) := read_property (str "persist.tarish.loglevel") w in
  let s := to_ascii_lowercase (trim (unwrap_or v [])) in
  (if bool_decide (s = str "error") then LError
   else if bool_decide (s = str "warn") then LWarn
   else if bool_decide (s = str "debug") then LDebug
   else if bool_decide (s = str "trace") then LTrace
   else LInfo, w).

End Platform.

(** ** Lemmas *)

Lemma same_band_of channels sta : 0 < sta ->
  same_band_as_sta channels sta = forallb (fun c => Bool.eqb (c <=? 14) (sta <? 5000)) channels.
Proof. intros. unfold same_band_as_sta. by rewrite (proj2 (Z.leb_gt _ _)). Qed.

(** C39: coexistence with Wi-Fi.  Without an override there is always a channel to offer, and no
    channel offered is in the band of the association (2.4 GHz, or 5 and 6 GHz together); with
    no association every channel is offered, the fast band first.  Comments elsewhere say that
    with no association 2.4 GHz is preferred; [channels_for] puts the 5 GHz list first. *)
Theorem sta_band_is_never_offered sta :
  offered None sta <> [] /\
  (0 < sta -> forall l c, l ∈ offered None sta -> c ∈ l -> (c <=? 14) <> (sta <? 5000)) /\
  (sta <= 0 -> offered None sta = [CHANNELS_5; CHANNELS_24]).
Proof.
  unfold offered, channels_for.
  destruct (Z.ltb_spec sta 0); [|destruct (Z.eqb_spec sta 0) as [->|]; [|destruct (Z.leb_spec 5000 sta)]].
  all: rewrite !filter_cons, filter_nil; rewrite ?same_band_of by lia; unfold same_band_as_sta.
  1, 2: by rewrite ?(proj2 (Z.leb_le sta 0)) by lia; cbn; repeat split; try done; lia.
  - rewrite (proj2 (Z.ltb_ge sta 5000)) by lia. cbn. repeat split; [done| |lia].
    intros _ l c Hl Hc. apply list_elem_of_singleton in Hl as ->. apply list_elem_of_singleton in Hc as ->. done.
  - rewrite (proj2 (Z.ltb_lt sta 5000)) by lia. cbn. repeat split; [done| |lia].
    intros _ l c Hl Hc. apply list_elem_of_singleton in Hl as ->. apply list_elem_of_In in Hc as [<-|[<-|[]]]; done.
Qed.

Lemma push_varint_written fuel n v : push_varint fuel n v = Writer.put_varint_loop fuel v n.
Proof. revert n v. induction fuel as [|fuel IH]; intros n v; [done|]. cbn. rewrite IH. done. Qed.

Lemma encode_varint_put v : encode_varint v = Writer.put_varint_loop 10 [] v.
Proof. pose proof (put_varint_buf v []) as E. unfold Writer.put_varint in E. by apply (f_equal Writer.buf) in E. Qed.

(** Rounds that are not needed change nothing. *)
Lemma put_varint_fuel fuel more b v : 0 <= v < 128 ^ Z.of_nat (S fuel) ->
  Writer.put_varint_loop (S fuel) b v = Writer.put_varint_loop (S fuel + more) b v.
Proof.
  revert b v. induction fuel as [|fuel IH]; intros b v Hv; cbn [Nat.add Writer.put_varint_loop].
  - change (128 ^ Z.of_nat 1) with 128 in Hv. by rewrite (proj2 (Z.leb_gt _ _)) by lia.
  - destruct (128 <=? v); [|done]. apply (IH _ (Z.shiftr v 7)). rewrite shiftr_7.
    rewrite (Nat2Z.inj_succ (S fuel)), Z.pow_succ_r in Hv by lia.
    split; [apply Z.div_pos; lia|apply Z.div_lt_upper_bound; lia].
Qed.

Definition config_fields (sta : Z) : list Field :=
  [Varint 1 1] ++ (if 0 <? sta then [Varint 2 sta] else []) ++ [Varint 6 1].

Lemma mosey_config_encodes sta : is_i32 sta -> mosey_config sta = encode (config_fields sta).
Proof.
  intros Hs. unfold mosey_config, config_fields. rewrite !encode_app.
  assert (E1 : encode [Varint 1 1] = CFG_DBS_SUPPORTED).
  { cbn [encode fmap list_fmap mjoin list_join encode_field]. by rewrite !encode_varint_put. }
  assert (E6 : encode [Varint 6 1] = CFG_RATE_ADAPTATION).
  { cbn [encode fmap list_fmap mjoin list_join encode_field]. by rewrite !encode_varint_put. }
  rewrite E1, E6. destruct (Z.ltb_spec 0 sta); [|done].
  rewrite push_varint_written, as_u32_small by (unfold_ints; lia).
  rewrite (put_varint_fuel 4 5) by (change (128 ^ Z.of_nat 5) with (2 ^ 35); unfold_ints; lia).
  rewrite put_varint_loop_app. change (4 + 1 + 5)%nat with 10%nat. change (S 4 + 5)%nat with 10%nat. rewrite <- encode_varint_put.
  cbn [encode fmap list_fmap mjoin list_join encode_field]. rewrite (encode_varint_put (Z.lor _ _)), app_nil_r, <- !app_assoc. done.
Qed.

(** C40: the configuration handed to the radio library is the message it is documented to be:
    read by the grammar of the wire format it has dual band (field 1) and rate adaptation (field
    6) set, and the frequency of the association (field 2) exactly when there is one. *)
Theorem config_reads_back sta : is_i32 sta -> fields_of (mosey_config sta) = (config_fields sta, None).
Proof.
  intros Hs. rewrite mosey_config_encodes by done. apply fields_of_encode.
  unfold config_fields. unfold_ints. destruct (Z.ltb_spec 0 sta); cbn [app];
    repeat apply Forall_cons_2; try apply Forall_nil_2; unfold wf_field; unfold_ints; lia.
Qed.

Lemma config_reads_back_witness :
  fields_of (mosey_config 5520) = ([Varint 1 1; Varint 2 5520; Varint 6 1], None) /\ fields_of (mosey_config (-1)) = ([Varint 1 1; Varint 6 1], None).
Proof. split; [apply (config_reads_back 5520)|apply (config_reads_back (-1))]; split; vm_compute; discriminate || done. Defined.

(** ** Examples *)

(** The whole of an override, and one with a character of two bytes: the slice that cuts it is a
    panic. *)
Example an_override_is_read : parse_config (str "08 01 10 90") = Some (Some (to_u8 <$> [0x08; 0x01; 0x10; 0x90])).
Proof. by vm_compute. Qed.
Example an_override_that_panics : parse_config (to_u8 <$> [0x30; 0xC3; 0xA9; 0x30]) = None.
Proof. by vm_compute. Qed.

Definition no_upper (c : Z) : list Z := [c].
(** One slot, and a SIM that sits in the second. *)
Example a_country_is_read : country_of no_upper (str "qa,") = Some (str "QA").
Proof. by vm_compute. Qed.
Example the_second_sim_is_not_asked : country_of no_upper (str ",qa") = None.
Proof. by vm_compute. Qed.
Example the_world_domain_is_no_country : country_of no_upper (str "00") = None.
Proof. by vm_compute. Qed.

Example the_switch_of_wifi_is_kept :
  client_frequency (str "-1") = Some (-1) /\ client_frequency (str "-77") = Some (-1) /\
  client_frequency (str "5520 ") = Some 5520 /\ client_frequency (str "1999") = Some 0 /\ client_frequency (str "x") = None.
Proof. by vm_compute. Qed.
