(* ===== verification/Awdl.v ===== *)
(** * The AWDL daemon ([src/src/main.rs, mosey.rs])

    The privileged process that holds the AWDL link: it opens a session of the radio library
    while the radio is wanted, adds the route and the rule that make the interface usable,
    moves the rule when the exemption from a VPN's kill-switch changes, and starts over when
    the link dies or goes blind.  One pass of the main loop is a function on the daemon's
    variables and a world; a run is any number of passes.  The theorems say, of every run, which
    sessions are open and which rules stand, when a rule may stand above the kill-switch, how
    far apart attempts and restarts are, and what is left at the end.

    The interface may be slow to appear or never do so, the user may be unknown, the kernel may
    refuse, and the library may have no [mosey_stop]: [Lawful] only says what an answer means,
    when there is one.  [Heeds], which what is said of the rules needs, is that the kernel does
    not fail to delete a rule it has: the code takes such a failure for the end of the rules. *)

From stdpp Require Import gmap.
From S2P Require Import Prelude Utf8 Text Device Netlink Channels.
#[local] Open Scope rust_scope.

(** The clock, in milliseconds; the flag of the signal handler; the dynamic linker and the
    radio library, whose handles are numbers. *)
Class Host (W : Type) : Type := {
  #[global] host_platform :: Platform W;
  clock : W -> Z * W;
  sleep : Z -> W -> W;
  running : W -> bool * W;
  dlopen : list byte -> W -> option Z * W;
  dlsym : Z -> list byte -> W -> bool * W;
  mosey_start_5 : Z -> list Z -> Z -> list byte -> OpMode -> list byte -> W -> option Z * W;
  mosey_stop : Z -> Z -> W -> W;
  mosey_health : Z -> W -> Z * W
}.

(** What [String] an error carries only matters to the log. *)
Inductive Failure : Type := BadCountry | NoLibrary | NoSymbol | Refused_ | NoCountry | NothingAccepted.

(** ** The session ([mosey.rs]) *)

Definition CANDIDATES : list (list byte) :=
  [str "libmosey_daemon_ffi.so"; str "/system_ext/lib64/libmosey_daemon_ffi.so";
   str "/vendor/lib64/libmosey_daemon_ffi.so"; str "/system/lib64/libmosey_daemon_ffi.so"].
Definition LIB_ENV : list byte := str "TARISH_MOSEY_LIB".

Definition MAX_MDNS : Z := 0x7fffffff.
Definition POLL : Z := 500.
Definition IFACE_APPEAR_WAIT : Z := 3000.
Definition LOCKDOWN_EVERY : Z := 5000.
Definition EXEMPT_MAX : Z := 660 * 1000.
Definition BLIND_RESTART_AFTER_SECS : Z := 60.
Definition BLIND_RESTART_COOLDOWN : Z := 180 * 1000.

Module Session.

(** [stop] and [health]: whether the library exports them. *)
Record t : Type := mk { handle : Z; stop : bool; health : bool; lib : Z }.

Section Session.
Context {W : Type} `{Host W}.

Fixpoint try_candidates (cands : list (list byte)) (w : W) : result Z Failure * W :=
  match cands with
  | [] => (Err NoLibrary, w)
  | c :: cands =>
      let (h, w) := dlopen c w in
      match h with Some h => (Ok h, w) | None => try_candidates cands w end
  end.

Definition open_lib (w : W) : result Z Failure * W :=
  let (p, w) := env_var LIB_ENV w in
  match p with
  | Some p =>
      if is_empty p then try_candidates CANDIDATES w
      else if has_nul p then (Err NoLibrary, w)
      else let (h, w) := dlopen p w in (match h with Some h => Ok h | None => Err NoLibrary end, w)
  | None => try_candidates CANDIDATES w
  end.

Definition start (channels : list Z) (country : list byte) (max_mdns : Z) (op_mode : OpMode) (config : list byte) (w : W)
    : result t Failure * W :=
  if negb (len country =? 2) then (Err BadCountry, w)
  else
    let (l, w) := open_lib w in
    match l with
    | Err e => (Err e, w)
    | Ok l =>
        let (start5, w) := dlsym l (str "mosey_start_5") w in
        if negb start5 then (Err NoSymbol, w)
        else
          let (stop, w) := dlsym l (str "mosey_stop") w in
          let (health, w) := dlsym l (str "mosey_health") w in
          if has_nul country then (Err BadCountry, w)
          else
            let (h, w) := mosey_start_5 l channels max_mdns country op_mode config w in
            (match h with Some h => Ok (mk h stop health l) | None => Err Refused_ end, w)
    end.

Definition blind_secs (s : t) (w : W) : option Z * W :=
  if health s then let (n, w) := mosey_health (lib s) w in (Some n, w) else (None, w).

Definition drop (s : t) (w : W) : W := if stop s then mosey_stop (lib s) (handle s) w else w.

End Session.
End Session.

(** ** The link *)

Section Daemon.
Context {W : Type} `{Host W}.
Context (upper_of : Z -> list Z).
(** What the first call of [iface] stored. *)
Context (ifc : list byte).

(** The search of [Link::acquire]: channels inside modes. *)
Fixpoint search_channels (mode : OpMode) (lists : list (list Z)) (country config : list byte) (w : W)
    : option Session.t * W :=
  match lists with
  | [] => (None, w)
  | channels :: lists =>
      let (r, w) := Session.start channels country MAX_MDNS mode config w in
      match r with Ok s => (Some s, w) | Err _ => search_channels mode lists country config w end
  end.
Fixpoint search (modes : list OpMode) (lists : list (list Z)) (country config : list byte) (w : W)
    : option Session.t * W :=
  match modes with
  | [] => (None, w)
  | mode :: modes =>
      let (r, w) := search_channels mode lists country config w in
      match r with Some s => (Some s, w) | None => search modes lists country config w end
  end.

(** The wait for the interface; a round sleeps 20 ms. *)
Fixpoint await_iface (fuel : nat) (cname : list byte) (up_by : Z) (w : W) : W :=
  match fuel with
  | O => w
  | S fuel =>
      let (idx, w) := if_nametoindex cname w in
      if is_ok idx then w
      else
        let (now, w) := clock w in
        if up_by <=? now then w else await_iface fuel cname up_by (sleep 20 w)
  end.

(** The routing of a new link; the result is the exemption that was read, and whether the rule
    was reported as added. *)
Definition route_link (w : W) : (bool * bool) * W :=
  let (now, w) := clock w in
  let w := await_iface 152 (if has_nul ifc then [] else ifc) (now + IFACE_APPEAR_WAIT) w in
  let (r, w) := add_link_local ifc w in
  let w := if is_ok r then (table_id ifc w).2 else w in
  let (exempt, w) := exemption_earned w in
  let (r, w) := add_rule ifc exempt w in
  let w := if is_ok r then (table_id ifc w).2 else w in
  ((exempt, is_ok r), w).

(** [Link::acquire]; [None] is a panic.  With the session comes what [route_link] reports,
    which only the theorems look at. *)
Definition acquire (w : W) : option (result (Session.t * (bool * bool)) Failure) * W :=
  let (country, w) := country_code upper_of w in
  match country with
  | None => (Some (Err NoCountry), w)
  | Some country =>
      let (sta, w) := sta_frequency w in
      match sta with
      | None => (None, w)
      | Some sta =>
          let (over, w) := config_override w in
          match over with
          | None => (None, w)
          | Some over =>
              let config := unwrap_or over (mosey_config sta) in
              let (forced, w) := channel_override w in
              let (modes, w) := radio_modes w in
              let (session, w) := search modes (offered forced sta) country config w in
              match session with
              | None => let (_, w) := radio_modes w in (Some (Err NothingAccepted), w)
              | Some s => let (ruled, w) := route_link w in (Some (Ok (s, ruled)), w)
              end
          end
      end
  end.

(** [Drop for Link], and the session's. *)
Definition drop_link (s : Session.t) (w : W) : W :=
  let (_, w) := remove_rule w in Session.drop s w.

(** ** The main loop *)

(** The variables of [main]; what only decides whether something is logged again is left out,
    but for [exempt_capped]. *)
Record Daemon : Type := mkDaemon {
  link : option Session.t;
  last_blind_restart : option Z;
  last_want : option bool;
  retry_at : Z;
  last_exempt : option bool;
  exempt_since : option Z;
  exempt_capped : bool;
  last_lockdown : option bool;
  lockdown_checked_at : option Z
}.

Definition set_link (l : option Session.t) (d : Daemon) : Daemon :=
  mkDaemon l (last_blind_restart d) (last_want d) (retry_at d) (last_exempt d) (exempt_since d) (exempt_capped d)
    (last_lockdown d) (lockdown_checked_at d).
Definition set_want (want : bool) (at_ : Z) (d : Daemon) : Daemon :=
  mkDaemon (link d) (last_blind_restart d) (Some want) at_ (last_exempt d) (exempt_since d) (exempt_capped d)
    (last_lockdown d) (lockdown_checked_at d).
Definition set_retry (at_ : Z) (d : Daemon) : Daemon :=
  mkDaemon (link d) (last_blind_restart d) (last_want d) at_ (last_exempt d) (exempt_since d) (exempt_capped d)
    (last_lockdown d) (lockdown_checked_at d).
Definition set_blind (at_ : Z) (d : Daemon) : Daemon :=
  mkDaemon None (Some at_) (last_want d) (retry_at d) (last_exempt d) (exempt_since d) (exempt_capped d)
    (last_lockdown d) (lockdown_checked_at d).
Definition set_exempt (e : bool) (d : Daemon) : Daemon :=
  mkDaemon (link d) (last_blind_restart d) (last_want d) (retry_at d) (Some e) (exempt_since d) (exempt_capped d)
    (last_lockdown d) (lockdown_checked_at d).
Definition set_window (since : option Z) (capped : bool) (d : Daemon) : Daemon :=
  mkDaemon (link d) (last_blind_restart d) (last_want d) (retry_at d) (last_exempt d) since capped
    (last_lockdown d) (lockdown_checked_at d).
Definition set_lockdown (l : option bool) (at_ : Z) (d : Daemon) : Daemon :=
  mkDaemon (link d) (last_blind_restart d) (last_want d) (retry_at d) (last_exempt d) (exempt_since d) (exempt_capped d)
    l (Some at_).

Definition boot (w : W) : Daemon * W :=
  let (now, w) := clock w in (mkDaemon None None None now None None false None None, w).

(** The kill-switch probe and its property. *)
Definition publish_lockdown (d : Daemon) (w : W) : Daemon * W :=
  let (due, w) := match lockdown_checked_at d with
                  | None => (true, w)
                  | Some t => let (now, w) := clock w in (LOCKDOWN_EVERY <=? now - t, w)
                  end in
  if due then
    let (now, w) := clock w in
    let (locked, w) := lockdown_active w in
    if bool_decide (last_lockdown d = Some locked) then (set_lockdown (last_lockdown d) now d, w)
    else
      let (_, w) := write_property LOCKDOWN_PROP (if locked then str "1" else str "0") w in
      (set_lockdown (Some locked) now d, w)
  else (d, w).

Definition note_want (d : Daemon) (w : W) : bool * Daemon * W :=
  let (want, w) := wants_radio w in
  if bool_decide (last_want d = Some want) then (want, d, w)
  else let (now, w) := clock w in (want, set_want want now d, w).

(** The exemption, capped: what was read, what is in effect, and the clock it was held
    against. *)
Definition capped_exemption (d : Daemon) (w : W) : (bool * bool * Z) * Daemon * W :=
  let (earned, w) := exemption_earned w in
  if earned then
    let (now, w) := clock w in
    match exempt_since d with
    | None => ((true, true, now), set_window (Some now) (exempt_capped d) d, w)
    | Some t =>
        if EXEMPT_MAX <? now - t then ((true, false, now), set_window (Some t) true d, w)
        else ((true, true, now), d, w)
    end
  else ((false, false, 0), set_window None false d, w).

(** The rule moves when the exemption in effect changes, if there is a link.  The result says
    whether it was asked to, and if so whether that was reported as done. *)
Definition follow_exemption (exempt : bool) (d : Daemon) (w : W) : option bool * Daemon * W :=
  if bool_decide (last_exempt d = Some exempt) then (None, d, w)
  else
    match link d with
    | Some _ => let (r, w) := add_rule ifc exempt w in (Some (is_ok r), set_exempt exempt d, w)
    | None => (None, set_exempt exempt d, w)
    end.

(** What the last part of a pass did; the clocks are those its guards read, and those it set;
    [ruled] is what [route_link] reports. *)
Inductive Did : Type :=
| Idle
| Acquired (asked_at : Z) (s : Session.t) (ruled : bool * bool)
| Failed (asked_at at_ : Z)
| Released
| Died
| Restarted (asked_at : option Z) (at_ : Z).

(** The match on [(want, link.is_some())]; [None] is a panic. *)
Definition hold (want : bool) (d : Daemon) (w : W) : option (Did * Daemon) * W :=
  match want, link d with
  | true, None =>
      let (now, w) := clock w in
      if retry_at d <=? now then
        let (r, w) := acquire w in
        match r with
        | None => (None, w)
        | Some (Ok (s, ruled)) => (Some (Acquired now s ruled, set_link (Some s) d), w)
        | Some (Err _) => let (t, w) := clock w in (Some (Failed now t, set_retry (t + 5000) d), w)
        end
      else (Some (Idle, d), w)
  | false, Some s => (Some (Released, set_link None d), drop_link s w)
  | true, Some s =>
      let (dead, w) := awdl_link_is_dead w in
      if dead then (Some (Died, set_link None d), drop_link s w)
      else
        let (secs, w) := Session.blind_secs s w in
        if BLIND_RESTART_AFTER_SECS <=? unwrap_or secs 0 then
          let '(cooled, asked, w) :=
            match last_blind_restart d with
            | None => (true, None, w)
            | Some t => let (now, w) := clock w in (BLIND_RESTART_COOLDOWN <=? now - t, Some now, w)
            end in
          if (cooled : bool) then
            let (_, w) := Session.blind_secs s w in
            let (now, w) := clock w in
            (Some (Restarted asked now, set_blind now d), drop_link s w)
          else (Some (Idle, d), w)
        else (Some (Idle, d), w)
  | false, None => (Some (Idle, d), w)
  end.

(** What a pass read and did; [r_put] is what [follow_exemption] reports. *)
Record Report : Type := mkReport {
  r_want : bool;
  r_earned : bool;
  r_exempt : bool;
  r_clock : Z;
  r_put : option bool;
  r_did : Did
}.

(** One pass of the loop. *)
Definition pass (d : Daemon) (w : W) : option (Report * Daemon) * W :=
  let (d, w) := publish_lockdown d w in
  let '(want, d, w) := note_want d w in
  let '((earned, exempt, now), d, w) := capped_exemption d w in
  let '(put, d, w) := follow_exemption exempt d w in
  let (r, w) := hold want d w in
  match r with
  | None => (None, w)
  | Some (did, d) => (Some (mkReport want earned exempt now put did, d), sleep POLL w)
  end.

(** [while RUNNING], at most [fuel] passes; [None] is a panic, and the flag says whether a
    signal ended the loop. *)
Fixpoint main_loop (fuel : nat) (d : Daemon) (w : W) : option (bool * Daemon) * W :=
  match fuel with
  | O => (Some (false, d), w)
  | S fuel =>
      let (on, w) := running w in
      if on then
        let (r, w) := pass d w in
        match r with
        | None => (None, w)
        | Some (_, d) => main_loop fuel d w
        end
      else (Some (true, d), w)
  end.

Definition main (fuel : nat) (w : W) : option bool * W :=
  let (_, w) := log_level w in
  let (d, w) := boot w in
  let (r, w) := main_loop fuel d w in
  match r with
  | None => (None, w)
  | Some (ended, d) => (Some ended, if ended then match link d with Some s => drop_link s w | None => w end else w)
  end.

(** Any number of passes from the start, with their reports, the latest first. *)
Inductive Run (w0 : W) : list Report -> Daemon -> W -> Prop :=
| run_boot d w : boot w0 = (d, w) -> Run w0 [] d w
| run_pass rs d w w1 r d' w2 :
    Run w0 rs d w -> running w = (true, w1) -> pass d w1 = (Some (r, d'), w2) -> Run w0 (r :: rs) d' w2.

(** ** Specification

    What can be seen of the system: the rules at the two priorities, and the sessions of the
    radio library that are open. *)

Definition acked (r : result (list byte) Z) : bool :=
  match r with Ok resp => is_ok (acknowledged (take 512 resp)) | Err _ => false end.

Definition Quiet {A B : Type} (seen : W -> B) (f : W -> A * W) : Prop := forall w, seen (f w).2 = seen w.

End Daemon.

Definition at_priority (p : Z) (r : Rule) : Prop := r_priority r = p.
#[export] Instance at_priority_dec p r : Decision (at_priority p r).
Proof. unfold at_priority. apply _. Defined.

(** The rules that may stand: those an earlier process left, none, or the one of an [add_rule]
    with an exemption. *)
Inductive Place : Type := Stale | Nothing | Put (exempt : bool).

#[export] Instance Place_eq_dec : EqDecision Place.
Proof. solve_decision. Defined.

(** After an [add_rule]: the rule it is for, if it reports success; if not, none, or what was
    there, as it fails before or after the sweep. *)
Definition put_places (exempt done_ : bool) (p : list Place) : list Place :=
  if done_ then [Put exempt] else Nothing :: p.
Definition placed_by (did : Did) (p : list Place) : list Place :=
  match did with
  | Acquired _ _ (e, done_) => put_places e done_ p
  | Released | Died | Restarted _ _ => [Nothing]
  | Idle | Failed _ _ => p
  end.
(** The rules that may stand after the passes so far, the latest first. *)
Fixpoint placed (rs : list Report) : list Place :=
  match rs with
  | [] => [Stale]
  | r :: rs =>
      placed_by (r_did r) (match r_put r with Some done_ => put_places (r_exempt r) done_ (placed rs) | None => placed rs end)
  end.

(** The session that is held, and those that were let go of without [mosey_stop]. *)
Definition held_by (did : Did) (l : option Session.t) : option Session.t :=
  match did with
  | Acquired _ s _ => Some s
  | Released | Died | Restarted _ _ => None
  | Idle | Failed _ _ => l
  end.
Fixpoint held (rs : list Report) : option Session.t :=
  match rs with [] => None | r :: rs => held_by (r_did r) (held rs) end.
Definition lost_of (l : option Session.t) : list Z :=
  match l with Some s => if Session.stop s then [] else [Session.handle s] | None => [] end.
Definition lost_by (did : Did) (l : option Session.t) : list Z :=
  match did with Released | Died | Restarted _ _ => lost_of l | _ => [] end.
Fixpoint lost (rs : list Report) : list Z :=
  match rs with [] => [] | r :: rs => lost_by (r_did r) (held rs) ++ lost rs end.
Definition handles (l : option Session.t) : list Z :=
  match l with Some s => [Session.handle s] | None => [] end.

(** When the exemption was first seen earned, of the passes that have seen it since without a
    break. *)
Fixpoint window (rs : list Report) : option Z :=
  match rs with
  | [] => None
  | r :: rs => if r_earned r then Some (unwrap_or (window rs) (r_clock r)) else None
  end.

Definition acquired (r : Report) : bool := match r_did r with Acquired _ _ _ => true | _ => false end.

(** The rules an earlier process left are there until the first link. *)
Definition left_over (stale : list Rule) (rs : list Report) : list Rule :=
  if existsb acquired rs then [] else stale.

(** A pass in which every [add_rule] reported success, and which, if it acquired, added the rule
    with the exemption it had in effect. *)
Definition clean (r : Report) : Prop :=
  r_put r <> Some false /\ forall at_ s ruled, r_did r = Acquired at_ s ruled -> ruled = (r_exempt r, true).

Definition latest_exempt (rs : list Report) : option bool := match rs with r :: _ => Some (r_exempt r) | [] => None end.

(** What the answers of the system mean: an acknowledgement that what the message asks was done
    (for a new rule also that it was there), a refusal, or no answer, that nothing was (the kernel
    deals with such a message in the call that sends it, and has the answer ready when that
    returns); a session that was started is open until it is stopped.  Nothing is said about
    when they are given. *)
Class Lawful (W : Type) `{Host W} : Type := {
  ours : W -> list Rule;
  sessions : W -> list Z;
  seen := fun w => (ours w, sessions w);
  index_quiet name : Quiet seen (if_nametoindex name);
  getpwnam_quiet name : Quiet seen (getpwnam name);
  dump_quiet p m : Quiet seen (dump p m);
  sysfs_quiet path : Quiet seen (read_to_string path);
  get_quiet name : Quiet seen (system_property_get name);
  set_quiet name v : Quiet seen (system_property_set name v);
  env_quiet name : Quiet seen (env_var name);
  exists_quiet path : Quiet seen (path_exists path);
  clock_quiet : Quiet seen clock;
  sleep_quiet n w : seen (sleep n w) = seen w;
  running_quiet : Quiet seen running;
  dlopen_quiet path : Quiet seen (dlopen path);
  dlsym_quiet l name : Quiet seen (dlsym l name);
  health_quiet l : Quiet seen (mosey_health l);
  generic_quiet m : Quiet seen (request Nl80211.NETLINK_GENERIC m);
  route_quiet m dst oif table : asked m = Some (NewRoute dst oif table) -> Quiet seen (request NETLINK_ROUTE m);
  new_rule m r w : asked m = Some (NewRule r) ->
    sessions (request NETLINK_ROUTE m w).2 = sessions w /\
    if acked (request NETLINK_ROUTE m w).1
    then (r ∈ ours w /\ ours (request NETLINK_ROUTE m w).2 = ours w) \/ ours (request NETLINK_ROUTE m w).2 ≡ₚ r :: ours w
    else ours (request NETLINK_ROUTE m w).2 = ours w;
  del_rule m p w : asked m = Some (DelRule p) ->
    sessions (request NETLINK_ROUTE m w).2 = sessions w /\
    if acked (request NETLINK_ROUTE m w).1
    then exists l1 r l2, ours w = l1 ++ r :: l2 /\ at_priority p r /\ ours (request NETLINK_ROUTE m w).2 = l1 ++ l2
    else ours (request NETLINK_ROUTE m w).2 = ours w;
  index_u32 name w idx : (if_nametoindex name w).1 = Ok idx -> is_u32 idx;
  uid_u32 name w uid : (getpwnam name w).1 = Some uid -> is_u32 uid;
  started l c m cc o cfg w :
    ours (mosey_start_5 l c m cc o cfg w).2 = ours w /\
    sessions (mosey_start_5 l c m cc o cfg w).2
    = match (mosey_start_5 l c m cc o cfg w).1 with Some h => h :: sessions w | None => sessions w end;
  stopped l h w : ours (mosey_stop l h w) = ours w /\ forall hs, sessions w = h :: hs -> sessions (mosey_stop l h w) = hs
}.

(** The kernel deletes a rule it has when it is asked to. *)
Definition Heeds (W : Type) `{Lawful W} : Prop := forall m p w,
  asked m = Some (DelRule p) -> Exists (at_priority p) (ours w) -> acked (request NETLINK_ROUTE m w).1 = true.

Create HintDb quiet discriminated.
#[export] Hint Resolve index_quiet getpwnam_quiet dump_quiet sysfs_quiet get_quiet set_quiet env_quiet exists_quiet
  clock_quiet running_quiet dlopen_quiet dlsym_quiet health_quiet generic_quiet : quiet.

(** Walk through a program made of quiet steps: each step gets an equation [seen w' = seen w]. *)
Ltac quiet_step :=
  match goal with
  | |- context [let (_, _) := ?m in _] =>
      let a := fresh "a" in let w' := fresh "w" in let E := fresh "E" in let Q := fresh "Q" in
      destruct m as [a w'] eqn:E;
      lazymatch type of E with ?f ?w = _ =>
        assert (Q : Quiet seen f) by solve [auto with quiet]; specialize (Q w); rewrite E in Q; cbn [snd] in Q
      end
  end.
Ltac quiet := repeat first [quiet_step | case_match]; cbn [snd] in *; congruence.

Section Lawful.
Context {W : Type} `{Lawful W} (ifc : list byte).

Lemma read_property_quiet name : Quiet seen (read_property name).
Proof. intros w. unfold read_property. quiet. Qed.

Lemma write_property_quiet name v : Quiet seen (write_property name v).
Proof. intros w. unfold write_property. case_match; [done|]. apply set_quiet. Qed.

Lemma and_then_quiet {A B} (m : W -> option (result A Error) * W) (k : A -> W -> option (result B Error) * W) :
  Quiet seen m -> (forall a, Quiet seen (k a)) -> Quiet seen (Nl80211.and_then m k).
Proof.
  intros Hm Hk w. unfold Nl80211.and_then. specialize (Hm w). destruct (m w) as [[[a|e]|] w']; cbn in *; try done.
  by rewrite Hk.
Qed.

Lemma genl_request_quiet f c b : Quiet seen (Nl80211.genl_request f c b).
Proof. intros w. unfold Nl80211.genl_request. quiet. Qed.

#[local] Hint Resolve read_property_quiet write_property_quiet genl_request_quiet : quiet.

Lemma frequency_quiet i : Quiet seen (Nl80211.frequency_of i).
Proof.
  assert (Ht : Quiet seen (Nl80211.frequency_of_tuned i)).
  { apply and_then_quiet.
    - intros w. unfold Nl80211.interface_index. quiet.
    - intros idx. apply and_then_quiet; [apply and_then_quiet; [auto with quiet|done]|].
      intros fam. apply and_then_quiet; [auto with quiet|done]. }
  intros w. unfold Nl80211.frequency_of. quiet_step. destruct a; [|done]. case_match; [|done]. rewrite Ht. done.
Qed.

#[local] Hint Resolve frequency_quiet : quiet.

Lemma country_quiet upper_of props : Quiet seen (country_from upper_of props).
Proof.
  induction props as [|p props IH]; intros w; cbn [country_from]; [done|]. quiet_step.
  destruct (match a with Some raw => country_of upper_of raw | None => None end); [done|]. by rewrite IH.
Qed.

Lemma sta_frequency_quiet : Quiet seen sta_frequency.
Proof. intros w. unfold sta_frequency. quiet. Qed.

Lemma dead_quiet : Quiet seen awdl_link_is_dead.
Proof. intros w. unfold awdl_link_is_dead. quiet. Qed.

Lemma wants_quiet : Quiet seen wants_radio.
Proof. intros w. unfold wants_radio. quiet. Qed.

Lemma earned_quiet : Quiet seen exemption_earned.
Proof. intros w. unfold exemption_earned. quiet. Qed.

Lemma modes_quiet : Quiet seen radio_modes.
Proof. intros w. unfold radio_modes. quiet. Qed.

Lemma override_quiet : Quiet seen config_override.
Proof. intros w. unfold config_override. quiet. Qed.

Lemma channels_quiet : Quiet seen channel_override.
Proof. intros w. unfold channel_override. quiet. Qed.

Lemma lockdown_quiet : Quiet seen lockdown_active.
Proof. intros w. unfold lockdown_active, probe_prohibit_rule. quiet_step. destruct (dump _ _ _) eqn:?; quiet. Qed.

Lemma filter_everyone {A} (P : A -> Prop) `{forall x, Decision (P x)} (l : list A) : (forall x, x ∈ l -> P x) -> filter P l = l.
Proof.
  intros HP. induction l as [|x l IH]; [done|]. rewrite filter_cons_True by (apply HP; by left).
  f_equal. apply IH. intros y Hy. apply HP. by right.
Qed.

Lemma quiet_ours {A} (f : W -> A * W) w : Quiet seen f -> ours (f w).2 = ours w.
Proof. intros Hf. pose proof (Hf w) as E. by injection E. Qed.

Lemma quiet_sessions {A} (f : W -> A * W) w : Quiet seen f -> sessions (f w).2 = sessions w.
Proof. intros Hf. pose proof (Hf w) as E. by injection E. Qed.

(** *** Rules *)

Lemma send_acked ty body flags w :
  is_ok (send_nl_flags ty body flags w).1 = acked (request NETLINK_ROUTE (message ty body flags) w).1 /\
  (send_nl_flags ty body flags w).2 = (request NETLINK_ROUTE (message ty body flags) w).2.
Proof. unfold send_nl_flags, acked. destruct (request _ _ _) as [[r|e] w']; done. Qed.

Lemma delete_sessions p w : is_u32 p -> sessions (del_rule_at p w).2 = sessions w.
Proof.
  intros Hp. unfold del_rule_at. destruct (send_acked RTM_DELRULE (del_body p) DEL_FLAGS w) as [_ ->].
  apply (del_rule _ p). by apply asked_del.
Qed.

Lemma delete_spec p w : Heeds W -> is_u32 p ->
  (Exists (at_priority p) (ours w) ->
   is_ok (del_rule_at p w).1 = true /\
   exists l1 r l2, ours w = l1 ++ r :: l2 /\ at_priority p r /\ ours (del_rule_at p w).2 = l1 ++ l2) /\
  (~ Exists (at_priority p) (ours w) -> is_ok (del_rule_at p w).1 = false /\ ours (del_rule_at p w).2 = ours w).
Proof.
  intros Hh Hp. unfold del_rule_at. destruct (send_acked RTM_DELRULE (del_body p) DEL_FLAGS w) as [-> ->].
  pose proof (asked_del p Hp) as Ha. destruct (del_rule _ p w Ha) as [_ Hd]. split; intros He.
  - rewrite (Hh _ p w Ha He) in *. done.
  - destruct (acked _); [|done]. destruct Hd as (l1 & r & l2 & E & Hr & _). destruct He.
    rewrite E. apply Exists_app. right. by left.
Qed.

Lemma sweep_at_sessions p n w : is_u32 p -> sessions (sweep_at n p w).2 = sessions w.
Proof.
  intros Hp. revert w. induction n as [|n IH]; intros w; [done|]. cbn [sweep_at]. pose proof (delete_sessions p w Hp) as Hs.
  destruct (del_rule_at p w) as [res w']. cbn [snd] in Hs. destruct (is_ok res); [|done].
  specialize (IH w'). destruct (sweep_at n p w'). cbn [snd] in *. congruence.
Qed.

(** Deletes at a priority remove every rule there is, up to their number. *)
Lemma sweep_at_spec p n w : Heeds W -> is_u32 p ->
  (length (filter (at_priority p) (ours w)) <= n)%nat ->
  ours (sweep_at n p w).2 = filter (fun r => ~ at_priority p r) (ours w).
Proof.
  intros Hh Hp. revert w. induction n as [|n IH]; intros w Hn.
  - symmetry. apply filter_everyone. intros r Hr Hpr.
    assert (r ∈ filter (at_priority p) (ours w)) as Hin by by apply list_elem_of_filter.
    destruct (filter (at_priority p) (ours w)); [by apply not_elem_of_nil in Hin|cbn in Hn; lia].
  - cbn [sweep_at]. destruct (delete_spec p w Hh Hp) as [Hyes Hno].
    destruct (decide (Exists (at_priority p) (ours w))) as [He|He].
    + destruct (Hyes He) as (Hok & l1 & r & l2 & E & Hr & E').
      destruct (del_rule_at p w) as [res w'] eqn:Ed. cbn [fst snd] in *. rewrite Hok.
      specialize (IH w'). destruct (sweep_at n p w') as [k w'']. cbn [snd] in *. rewrite IH, E, E'.
      * rewrite !filter_app, filter_cons, (decide_False (P := ~ at_priority p r)) by tauto. done.
      * rewrite E in Hn. rewrite E'. rewrite filter_app, filter_cons, decide_True in Hn by done.
        rewrite filter_app, length_app in *. cbn [length] in Hn. lia.
    + destruct (Hno He) as [Hok Ho]. destruct (del_rule_at p w) as [res w']. cbn [fst snd] in *. rewrite Hok. cbn [snd].
      rewrite Ho. symmetry. apply filter_everyone. intros r Hr Hpr. apply He, Exists_exists. eauto.
Qed.

(** Rules at the priorities of this daemon, few enough for the sweep. *)
Definition few (l : list Rule) : Prop :=
  (length l <= 8)%nat /\ forall r, r ∈ l -> r_priority r ∈ RULE_PRIORITIES.

Lemma exempt_u32 : is_u32 RULE_PRIORITY_EXEMPT.
Proof. unfold is_u32, RULE_PRIORITY_EXEMPT. lia. Qed.
Lemma plain_u32 : is_u32 RULE_PRIORITY_PLAIN.
Proof. unfold is_u32, RULE_PRIORITY_PLAIN. lia. Qed.

Lemma sweep_sessions w : sessions (sweep RULE_PRIORITIES w).2 = sessions w.
Proof.
  unfold RULE_PRIORITIES. cbn [sweep]. pose proof (sweep_at_sessions _ 8 w exempt_u32) as Hs.
  destruct (sweep_at 8 RULE_PRIORITY_EXEMPT w) as [a w1]. pose proof (sweep_at_sessions _ 8 w1 plain_u32) as Hs'.
  destruct (sweep_at 8 RULE_PRIORITY_PLAIN w1) as [b w2]. cbn [snd] in *. congruence.
Qed.

Lemma sweep_spec w : Heeds W -> few (ours w) -> ours (sweep RULE_PRIORITIES w).2 = [].
Proof.
  intros Hh [Hl Hp]. unfold RULE_PRIORITIES. cbn [sweep].
  assert (Hfew : forall (P : Rule -> Prop) `{forall r, Decision (P r)} (l : list Rule), (length (filter P l) <= length l)%nat).
  { intros P ? l. apply length_filter. }
  pose proof (sweep_at_spec RULE_PRIORITY_EXEMPT 8 w Hh exempt_u32 ltac:(etransitivity; [apply Hfew|done])) as Ho.
  destruct (sweep_at 8 RULE_PRIORITY_EXEMPT w) as [a w1]. cbn [snd] in *.
  pose proof (sweep_at_spec RULE_PRIORITY_PLAIN 8 w1 Hh plain_u32) as Ho'.
  destruct (sweep_at 8 RULE_PRIORITY_PLAIN w1) as [b w2]. cbn [snd] in *. rewrite Ho', Ho.
  - apply elem_of_nil_inv. intros r Hr. apply list_elem_of_filter in Hr as [Ha Hr]. apply list_elem_of_filter in Hr as [Hb Hr].
    apply Hp in Hr. unfold RULE_PRIORITIES, at_priority in *. set_solver.
  - rewrite Ho. etransitivity; [apply Hfew|]. etransitivity; [apply Hfew|done].
Qed.

Lemma remove_rule_spec w :
  sessions (remove_rule w).2 = sessions w /\ (Heeds W -> few (ours w) -> ours (remove_rule w).2 = []).
Proof.
  pose proof (sweep_sessions w) as Hs. pose proof (sweep_spec w) as Ho. unfold remove_rule, bind, ret.
  by destruct (sweep RULE_PRIORITIES w).
Qed.

(** The rule that [add_rule] is for. *)
Definition our_rule (exempt : bool) (r : Rule) : Prop :=
  r_oif r = ifc /\ r_priority r = priority_of exempt /\ (r_uids r).1 = (r_uids r).2.

Lemma priority_u32 e : is_u32 (priority_of e).
Proof. destruct e; unfold is_u32, priority_of, RULE_PRIORITY_EXEMPT, RULE_PRIORITY_PLAIN; lia. Qed.

Lemma few_one e r : our_rule e r -> few [r].
Proof.
  intros (_ & Hp & _). split; [cbn; lia|]. intros r' ->%list_elem_of_singleton. rewrite Hp.
  destruct e; [by left|by right; left].
Qed.

Lemma few_nil : few [].
Proof. split; [cbn; lia|]. intros r []%not_elem_of_nil. Qed.

(** *** Sessions *)

Lemma candidates_quiet cands : Quiet seen (Session.try_candidates cands).
Proof. induction cands as [|c cands IH]; intros w; cbn [Session.try_candidates]; [done|]. quiet_step. destruct a; [done|]. by rewrite IH. Qed.

#[local] Hint Resolve candidates_quiet : quiet.

Lemma open_lib_quiet : Quiet seen Session.open_lib.
Proof.
  intros w. unfold Session.open_lib. quiet_step. destruct a as [p|]; [|by rewrite candidates_quiet].
  destruct (is_empty p); [by rewrite candidates_quiet|]. destruct (has_nul p); [done|]. quiet.
Qed.

#[local] Hint Resolve open_lib_quiet : quiet.

(** A session that was opened is the latest. *)
Definition opened (o : option Session.t) (w w' : W) : Prop :=
  ours w' = ours w /\ sessions w' = handles o ++ sessions w.

Lemma opened_quiet w w' : seen w' = seen w -> opened None w w'.
Proof. intros E. by injection E. Qed.

Lemma opened_from o w w1 w' : seen w1 = seen w -> opened o w1 w' -> opened o w w'.
Proof. intros E. injection E as Eo Es. unfold opened. by rewrite Eo, Es. Qed.

Lemma start_spec c cc m o cfg w : opened (ok (Session.start c cc m o cfg w).1) w (Session.start c cc m o cfg w).2.
Proof.
  unfold Session.start. destruct (negb (len cc =? 2)); [by apply opened_quiet|]. quiet_step.
  destruct a as [l|e]; [|by apply opened_quiet]. quiet_step. destruct a; cbn [negb].
  2:{ apply opened_quiet. cbn. congruence. }
  do 2 quiet_step.
  destruct (has_nul cc); [apply opened_quiet; cbn; congruence|].
  pose proof (started l c m cc o cfg w3) as [Ho Hs]. destruct (mosey_start_5 _ _ _ _ _ _ w3) as [r w4]. cbn [fst snd] in *.
  apply (opened_from _ _ w3); [congruence|]. split; [done|]. by destruct r.
Qed.

Lemma search_channels_spec mode lists cc cfg w :
  opened (search_channels mode lists cc cfg w).1 w (search_channels mode lists cc cfg w).2.
Proof.
  revert w. induction lists as [|c lists IH]; intros w; cbn [search_channels]; [by apply opened_quiet|].
  pose proof (start_spec c cc MAX_MDNS mode cfg w) as Hs.
  destruct (Session.start _ _ _ _ _ w) as [[s|e] w1]; cbn [fst snd ok] in *; [done|].
  destruct Hs as [Ho Hs]. cbn [handles app] in Hs. apply (opened_from _ _ w1); [|apply IH]. unfold seen. congruence.
Qed.

Lemma search_spec modes lists cc cfg w : opened (search modes lists cc cfg w).1 w (search modes lists cc cfg w).2.
Proof.
  revert w. induction modes as [|m modes IH]; intros w; cbn [search]; [by apply opened_quiet|].
  pose proof (search_channels_spec m lists cc cfg w) as Hs.
  destruct (search_channels _ _ _ _ w) as [[s|] w1]; cbn [fst snd] in *; [done|].
  destruct Hs as [Ho Hs]. cbn [handles app] in Hs. apply (opened_from _ _ w1); [|apply IH]. unfold seen. congruence.
Qed.

(** *** Acquiring and dropping a link *)

Lemma await_quiet fuel name up_by w : seen (await_iface fuel name up_by w) = seen w.
Proof.
  revert w. induction fuel as [|fuel IH]; intros w; cbn [await_iface]; [done|]. quiet_step. destruct (is_ok a); [done|].
  quiet_step. destruct (up_by <=? _); [congruence|]. rewrite IH, sleep_quiet. congruence.
Qed.

Lemma add_link_local_quiet : Quiet seen (add_link_local ifc).
Proof.
  intros w. unfold add_link_local, bind_ok, index_of. destruct (has_nul ifc); [done|].
  pose proof (index_u32 ifc w) as Hidx. quiet_step. destruct a as [idx|e]; [|done]. cbn [map_err].
  destruct (send_acked RTM_NEWROUTE (link_local_body idx) NEW_FLAGS w0) as [_ E']. unfold send_nl. rewrite E', <- Q.
  by apply (route_quiet _ _ _ _ (asked_route idx (Hidx idx eq_refl))).
Qed.

Lemma table_id_quiet : Quiet seen (table_id ifc).
Proof. intros w. unfold table_id. case_match; [done|]. quiet. Qed.

Lemma logged (r : result unit Error) w : seen (if is_ok r then (table_id ifc w).2 else w) = seen w.
Proof. destruct (is_ok r); [apply table_id_quiet|done]. Qed.

Context (Hifc : has_nul ifc = false) (Hlen : len ifc < 60000).

Lemma add_rule_spec e w :
  sessions (add_rule ifc e w).2 = sessions w /\
  (Heeds W -> few (ours w) ->
   if is_ok (add_rule ifc e w).1 then exists r, ours (add_rule ifc e w).2 = [r] /\ our_rule e r
   else ours (add_rule ifc e w).2 = [] \/ ours (add_rule ifc e w).2 = ours w).
Proof using Hifc Hlen.
  unfold add_rule, bind_ok, bind, index_of, sharing_uid. rewrite Hifc.
  pose proof (index_u32 ifc w) as Hidx. quiet_step. injection Q as Qo1 Qs1. destruct a as [idx|err]; cbn [map_err].
  2:{ cbn [fst snd is_ok]. split; [done|]. by right. }
  specialize (Hidx idx eq_refl). pose proof (sweep_sessions w0) as Hs2. pose proof (sweep_spec w0) as Ho2.
  destruct (sweep RULE_PRIORITIES w0) as [n w2]. cbn [snd] in *. rewrite Qo1 in Ho2.
  pose proof (uid_u32 (str "system_ext_tarish") w2) as Hu. pose proof (getpwnam_quiet (str "system_ext_tarish") w2) as Q3.
  destruct (getpwnam _ w2) as [[uid|] w3]; cbn [fst snd] in *; injection Q3 as Qo3 Qs3.
  2:{ cbn [is_ok]. split; [congruence|]. intros Hh Hf. left. by rewrite Qo3, Ho2. }
  cbn beta iota. unfold send_nl. set (m := message RTM_NEWRULE (rule_body ifc idx (priority_of e) uid) NEW_FLAGS).
  pose proof (asked_rule ifc idx (priority_of e) uid Hifc Hlen Hidx (priority_u32 e) (Hu uid eq_refl)) as Ha. fold m in Ha.
  destruct (new_rule m _ w3 Ha) as (Hs4 & Ho4).
  destruct (send_acked RTM_NEWRULE (rule_body ifc idx (priority_of e) uid) NEW_FLAGS w3) as [-> ->]. fold m.
  split; [congruence|]. intros Hh Hf. rewrite Qo3, Ho2 in Ho4 by done. destruct (acked _); [|by left].
  destruct Ho4 as [[Hin _]|Hp]; [by apply not_elem_of_nil in Hin|].
  apply Permutation_singleton_r in Hp. eexists. split; [exact Hp|done].
Qed.

(** Which rules there are, of those that may stand; [st]: those an earlier process left. *)
Definition found (st : list Rule) (x : Place) (w : W) : Prop :=
  match x with
  | Stale => ours w = st
  | Nothing => ours w = []
  | Put e => exists r, ours w = [r] /\ our_rule e r
  end.
Definition one_of (st : list Rule) (p : list Place) (w : W) : Prop := exists x, x ∈ p /\ found st x w.

Lemma found_few st x w : few st -> found st x w -> few (ours w).
Proof using Type.
  clear Hifc Hlen. intros Hf. destruct x; cbn [found].
  - by intros ->.
  - intros ->. apply few_nil.
  - intros (r & -> & Hr). by eapply few_one.
Qed.

Lemma found_same st x w w' : ours w' = ours w -> found st x w -> found st x w'.
Proof using Type. clear Hifc Hlen. intros E. unfold found. by rewrite E. Qed.

Lemma one_of_same st p w w' : ours w' = ours w -> one_of st p w -> one_of st p w'.
Proof using Type. clear Hifc Hlen. intros E (x & Hx & Hw). exists x. split; [done|]. by apply (found_same _ _ w). Qed.

Lemma add_rule_one_of st p e w : Heeds W -> few st -> one_of st p w ->
  one_of st (put_places e (is_ok (add_rule ifc e w).1) p) (add_rule ifc e w).2.
Proof using Hifc Hlen.
  intros Hh Hst (x & Hx & Hw). destruct (add_rule_spec e w) as [_ Ho]. specialize (Ho Hh (found_few _ _ _ Hst Hw)).
  unfold put_places. destruct (is_ok _).
  - exists (Put e). split; [by left|done].
  - destruct Ho as [Ho|Ho]; [exists Nothing; split; [by left|done]|].
    exists x. split; [by right|]. by apply (found_same _ _ w).
Qed.

Lemma route_link_spec st p w : few st ->
  sessions (route_link ifc w).2 = sessions w /\
  (Heeds W -> one_of st p w ->
   one_of st (let (e, done_) := (route_link ifc w).1 in put_places e done_ p) (route_link ifc w).2).
Proof using Hifc Hlen.
  intros Hst. unfold route_link. quiet_step. injection Q as Qo Qs.
  set (w1 := await_iface _ _ _ _). pose proof (await_quiet 152 (if has_nul ifc then [] else ifc) (a + IFACE_APPEAR_WAIT) w0) as Q1.
  fold w1 in Q1. injection Q1 as Qo1 Qs1.
  pose proof (add_link_local_quiet w1) as Q2. destruct (add_link_local ifc w1) as [r2 w2]. cbn [snd] in Q2.
  pose proof (logged r2 w2) as Q3. set (w3 := if is_ok r2 then _ else _) in *. injection Q2 as Qo2 Qs2. injection Q3 as Qo3 Qs3.
  pose proof (earned_quiet w3) as Q4. destruct (exemption_earned w3) as [e w4]. cbn [snd] in Q4. injection Q4 as Qo4 Qs4.
  pose proof (add_rule_spec e w4) as [Hs5 _]. pose proof (add_rule_one_of st p e w4) as Ho5.
  destruct (add_rule ifc e w4) as [r5 w5]. cbn [fst snd] in *. pose proof (logged r5 w5) as Q6. injection Q6 as Qo6 Qs6.
  split; [congruence|]. intros Hh Hone. apply (one_of_same _ _ w5); [done|]. apply Ho5; [done|done|].
  apply (one_of_same _ _ w); [congruence|done].
Qed.

(** What is open for a link, and which rules may stand; [lo]: the sessions that were let go of
    without [mosey_stop]. *)
Definition standing (st : list Rule) (l : option Session.t) (p : list Place) (lo : list Z) (w : W) : Prop :=
  sessions w = handles l ++ lo /\ (Heeds W -> one_of st p w).

Lemma standing_quiet st l p lo w w' : seen w' = seen w -> standing st l p lo w -> standing st l p lo w'.
Proof using Type.
  clear Hifc Hlen. intros E [Hs Ho]. injection E as Eo Es. split; [congruence|]. intros Hh. by apply (one_of_same _ _ w), Ho.
Qed.

Lemma acquire_spec upper_of st p lo w : few st -> standing st None p lo w ->
  match (acquire upper_of ifc w).1 with
  | Some (Ok (s, (e, done_))) => standing st (Some s) (put_places e done_ p) lo (acquire upper_of ifc w).2
  | _ => standing st None p lo (acquire upper_of ifc w).2
  end.
Proof using Hifc Hlen.
  intros Hf Hw. unfold acquire, country_code.
  pose proof (country_quiet upper_of COUNTRY_PROPS w) as Q1. destruct (country_from _ _ w) as [[cc|] w1]; cbn [snd] in Q1.
  2:{ by apply (standing_quiet _ _ _ _ w). }
  pose proof (sta_frequency_quiet w1) as Q2. destruct (sta_frequency w1) as [[sta|] w2]; cbn [snd] in Q2.
  2:{ apply (standing_quiet _ _ _ _ w); [cbn [snd]; congruence|done]. }
  pose proof (override_quiet w2) as Q3. destruct (config_override w2) as [[over|] w3]; cbn [snd] in Q3.
  2:{ apply (standing_quiet _ _ _ _ w); [cbn [snd]; congruence|done]. }
  pose proof (channels_quiet w3) as Q4. destruct (channel_override w3) as [forced w4]. cbn [snd] in Q4.
  pose proof (modes_quiet w4) as Q5. destruct (radio_modes w4) as [modes w5]. cbn [snd] in Q5.
  assert (standing st None p lo w5) as [Hs Ho] by (apply (standing_quiet _ _ _ _ w); [congruence|done]).
  pose proof (search_spec modes (offered forced sta) cc (unwrap_or over (mosey_config sta)) w5) as [Ho' Hs'].
  destruct (search _ _ _ _ w5) as [[s|] w6]; cbn [fst snd] in Ho', Hs'.
  - destruct (route_link_spec st p w6 Hf) as [Hs'' Ho'']. destruct (route_link ifc w6) as [[e done_] w7]. cbn [fst snd] in *.
    split; [cbn [handles app] in *; congruence|]. intros Hh. apply Ho''; [done|]. apply (one_of_same _ _ w5); auto.
  - pose proof (modes_quiet w6) as Q7. destruct (radio_modes w6) as [ms w7]. cbn [snd] in Q7.
    apply (standing_quiet _ _ _ _ w5); [unfold seen in *; cbn [handles app snd] in *; congruence|done].
Qed.

Lemma drop_spec st s p lo w : few st -> standing st (Some s) p lo w ->
  standing st None [Nothing] (lost_of (Some s) ++ lo) (drop_link s w).
Proof using Type.
  clear Hifc Hlen. intros Hf [Hs Ho]. unfold drop_link. destruct (remove_rule_spec w) as [Hs1 Ho1].
  destruct (remove_rule w) as [x w1]. cbn [snd] in *. unfold Session.drop. cbn [handles app] in Hs.
  assert (Hgone : Heeds W -> ours w1 = []).
  { intros Hh. destruct (Ho Hh) as (y & _ & Hy). by apply Ho1, (found_few st y). }
  unfold lost_of. destruct (Session.stop s).
  - destruct (stopped (Session.lib s) (Session.handle s) w1) as [Ho2 Hs2]. split.
    + cbn [handles app]. apply Hs2. congruence.
    + intros Hh. exists Nothing. split; [by left|]. cbn [found]. rewrite Ho2. auto.
  - split; [cbn [handles app]; congruence|]. intros Hh. exists Nothing. split; [by left|]. cbn [found]. auto.
Qed.

(** *** A pass *)

(** What the parts before the rule leave alone. *)
Lemma publish_spec d w :
  seen (publish_lockdown d w).2 = seen w /\
  exists l t, (publish_lockdown d w).1
    = mkDaemon (link d) (last_blind_restart d) (last_want d) (retry_at d) (last_exempt d) (exempt_since d) (exempt_capped d) l t.
Proof using Type.
  clear Hifc Hlen. unfold publish_lockdown.
  assert (Hdue : exists due w1, (match lockdown_checked_at d with
                  | None => (true, w)
                  | Some t => let (now, w) := clock w in (LOCKDOWN_EVERY <=? now - t, w)
                  end) = (due, w1) /\ seen w1 = seen w).
  { destruct (lockdown_checked_at d); [|eauto]. quiet_step. eauto. }
  destruct Hdue as (due & w1 & -> & Q1). destruct due; [|split; [done|]; destruct d; eauto].
  quiet_step. pose proof (lockdown_quiet w0) as Q2. destruct (lockdown_active w0) as [locked w2]. cbn [snd] in Q2.
  case_bool_decide; [split; [cbn; congruence|eauto]|].
  pose proof (write_property_quiet LOCKDOWN_PROP (if locked then str "1" else str "0") w2) as Q3.
  destruct (write_property _ _ w2) as [b w3]. cbn [snd] in *. split; [congruence|eauto].
Qed.

Lemma note_spec d w :
  seen (note_want d w).2 = seen w /\
  exists t, (note_want d w).1.2 = set_want (note_want d w).1.1 t d /\
    (last_want d = Some (note_want d w).1.1 -> t = retry_at d).
Proof using Type.
  clear Hifc Hlen. unfold note_want. pose proof (wants_quiet w) as Q1. destruct (wants_radio w) as [want w1]. cbn [snd] in Q1.
  case_bool_decide as Hw; cbn [fst snd]; [|quiet_step].
  - split; [done|]. exists (retry_at d). split; [|done]. unfold set_want. rewrite <- Hw. by destruct d.
  - cbn [fst snd]. split; [congruence|]. exists a. split; [done|]. by intros.
Qed.

(** The ceiling: the time the window was first seen open, and what is left of it. *)
Lemma capped_spec d w :
  seen (capped_exemption d w).2 = seen w /\
  let '((earned, exempt, now), d', _) := capped_exemption d w in
  exists c, d' = set_window (if earned then Some (unwrap_or (exempt_since d) now) else None) c d /\
  exempt = earned && (now - unwrap_or (exempt_since d) now <=? EXEMPT_MAX).
Proof using Type.
  clear Hifc Hlen. unfold capped_exemption. pose proof (earned_quiet w) as Q1. destruct (exemption_earned w) as [earned w1]. cbn [snd] in Q1.
  destruct earned; [|split; [done|eauto]]. quiet_step. destruct (exempt_since d) as [t|] eqn:Et; cbn [unwrap_or].
  - destruct (Z.ltb_spec EXEMPT_MAX (a - t)); (split; [cbn [snd]; congruence|]).
    + exists true. split; [done|]. by rewrite (proj2 (Z.leb_gt _ _)).
    + exists (exempt_capped d). split; [rewrite <- Et; by destruct d|]. by rewrite (proj2 (Z.leb_le _ _)).
  - split; [cbn [snd]; congruence|]. exists (exempt_capped d). split; [done|]. by rewrite Z.sub_diag.
Qed.

Definition put_by (e : bool) (put : option bool) (p : list Place) : list Place :=
  match put with Some done_ => put_places e done_ p | None => p end.

Lemma follow_spec st p lo e d w : few st -> standing st (link d) p lo w ->
  let '(put, d', w') := follow_exemption ifc e d w in
  d' = set_exempt e d /\ standing st (link d) (put_by e put p) lo w' /\
  (put = None -> last_exempt d = Some e \/ link d = None) /\ (link d = None -> put = None).
Proof using Hifc Hlen.
  intros Hf Hs. unfold follow_exemption. case_bool_decide as He.
  - split; [|split; [done|split; [by left|done]]]. unfold set_exempt. rewrite <- He. by destruct d.
  - destruct (link d) as [s|] eqn:El; [|split; [done|]; split; [done|split; [by right|done]]].
    destruct Hs as [Hs Ho]. pose proof (add_rule_spec e w) as [Hs' _]. pose proof (add_rule_one_of st p e w) as Ho'.
    destruct (add_rule ifc e w) as [r w']. cbn [fst snd] in *. split; [done|]. split; [|done].
    split; [congruence|]. intros Hh. cbn [put_by]. auto.
Qed.

Lemma hold_spec upper_of st p lo want d w : few st -> standing st (link d) p lo w ->
  match hold upper_of ifc want d w with
  | (None, w') => standing st None p lo w'
  | (Some (did, d'), w') =>
      standing st (link d') (placed_by did p) (lost_by did (link d) ++ lo) w' /\
      link d' = held_by did (link d) /\
      last_want d' = last_want d /\ last_exempt d' = last_exempt d /\ exempt_since d' = exempt_since d /\
      (want = false -> link d' = None) /\
      (link d = None -> match did with Acquired _ _ _ | Idle | Failed _ _ => True | _ => False end)
  end.
Proof using Hifc Hlen.
  intros Hf Hs. unfold hold. destruct want, (link d) as [s|] eqn:El.
  - pose proof (dead_quiet w) as Q1. destruct (awdl_link_is_dead w) as [dead w1]. cbn [snd] in Q1.
    apply (standing_quiet _ _ _ _ _ w1) in Hs as Hs1; [|done].
    destruct dead; [split; [by eapply drop_spec|done]|].
    assert (Q2 : seen (Session.blind_secs s w1).2 = seen w1) by (unfold Session.blind_secs; quiet).
    destruct (Session.blind_secs s w1) as [secs w2]. cbn [snd] in Q2.
    apply (standing_quiet _ _ _ _ _ w2) in Hs1 as Hs2; [|done].
    destruct (BLIND_RESTART_AFTER_SECS <=? unwrap_or secs 0).
    2:{ cbn [held_by lost_by placed_by app]. rewrite El. done. }
    assert (Hc : exists cooled asked w3,
      match last_blind_restart d with
      | None => (true, None, w2)
      | Some t => let (now, w) := clock w2 in (BLIND_RESTART_COOLDOWN <=? now - t, Some now, w)
      end = (cooled, asked, w3) /\ seen w3 = seen w2).
    { destruct (last_blind_restart d); [|eauto]. quiet_step. eauto. }
    destruct Hc as (cooled & asked & w3 & -> & Q3). apply (standing_quiet _ _ _ _ _ w3) in Hs2 as Hs3; [|done].
    destruct cooled; [|cbn [held_by lost_by placed_by app]; by rewrite El].
    assert (Q4 : seen (Session.blind_secs s w3).2 = seen w3) by (unfold Session.blind_secs; quiet).
    destruct (Session.blind_secs s w3) as [secs' w4]. cbn [snd] in Q4. quiet_step.
    split; [|done]. eapply drop_spec; [done|]. apply (standing_quiet _ _ _ _ w3); [congruence|exact Hs3].
  - quiet_step. apply (standing_quiet _ _ _ _ _ w0) in Hs as Hs0; [|done].
    destruct (retry_at d <=? a); [|cbn [held_by lost_by placed_by app]; by rewrite El].
    pose proof (acquire_spec upper_of st p lo w0 Hf Hs0) as Ha.
    destruct (acquire upper_of ifc w0) as [[[[s [e done_]]|e]|] w1]; cbn [fst snd] in Ha; [done| |done].
    quiet_step. cbn [held_by lost_by placed_by link set_retry app]. rewrite El. split; [|done].
    by apply (standing_quiet _ _ _ _ w1).
  - split; [by eapply drop_spec|done].
  - cbn [held_by lost_by placed_by app]. by rewrite El.
Qed.

(** The reports agree with the variables, and both with the system. *)
Definition Inv (st : list Rule) (rs : list Report) (d : Daemon) (w : W) : Prop :=
  standing st (link d) (placed rs) (lost rs) w /\
  link d = held rs /\
  (link d = None -> placed rs = if existsb acquired rs then [Nothing] else [Stale]) /\
  last_exempt d = latest_exempt rs /\ exempt_since d = window rs /\
  match rs with
  | [] => True
  | r :: older =>
      (r_exempt r = r_earned r && (r_clock r - unwrap_or (window older) (r_clock r) <=? EXEMPT_MAX)) /\
      (r_want r = false -> link d = None) /\
      (r_put r = None -> latest_exempt older = Some (r_exempt r) \/ held older = None)
  end.

Lemma pass_inv upper_of st rs d w r d' w' : few st ->
  Inv st rs d w -> pass upper_of ifc d w = (Some (r, d'), w') -> Inv st (r :: rs) d' w'.
Proof using Hifc Hlen.
  intros Hst (Hs & Hheld & Hnone & He & Hw & _). unfold pass.
  destruct (publish_spec d w) as (Q1 & l & t & E1). destruct (publish_lockdown d w) as [d1 w1]. cbn [fst snd] in *.
  destruct (note_spec d1 w1) as (Q2 & t2 & E2 & _). destruct (note_want d1 w1) as [[want d2] w2]. cbn [fst snd] in *.
  pose proof (capped_spec d2 w2) as [Q3 E3]. destruct (capped_exemption d2 w2) as [[[[earned exempt] now] d3] w3]. cbn [snd] in *.
  destruct E3 as (c & E3 & Hex). subst d1 d2.
  assert (Hs3 : standing st (link d3) (placed rs) (lost rs) w3).
  { subst d3. apply (standing_quiet _ _ _ _ w); [congruence|exact Hs]. }
  pose proof (follow_spec _ _ _ exempt d3 w3 Hst Hs3) as E4. destruct (follow_exemption ifc exempt d3 w3) as [[put d4] w4].
  destruct E4 as (E4 & Hs4 & Hput & Hidle). assert (Hl4 : link d4 = link d3) by by subst d4.
  rewrite <- Hl4 in Hs4. pose proof (hold_spec upper_of _ _ _ want d4 w4 Hst Hs4) as E5.
  destruct (hold upper_of ifc want d4 w4) as [[[did d5]|] w5] eqn:Eh; [|done].
  destruct E5 as (Hs5 & Hl5 & _ & He5 & Hw5 & Hwant & Hdid). intros [= <- <- <-].
  assert (Hd3 : link d3 = link d /\ last_exempt d3 = last_exempt d /\ exempt_since d3 = (if earned then Some (unwrap_or (window rs) now) else None)).
  { subst d3. split; [done|]. split; [done|]. cbn [exempt_since set_window set_want]. by rewrite Hw. }
  destruct Hd3 as (Hl3 & He3 & Hw3). rewrite Hl4, Hl3 in *. rewrite Hheld in Hl5, Hs5.
  split; [|split; [exact Hl5|split; [|split; [|split; [|split; [|split]]]]]].
  - apply (standing_quiet _ _ _ _ w5); [apply sleep_quiet|exact Hs5].
  - intros Hl. cbn [placed existsb r_did r_put r_exempt acquired]. rewrite Hl in Hl5.
    destruct did as [| | | | |]; cbn [held_by placed_by orb] in *; try done;
      try (rewrite (Hidle (eq_trans Hheld (eq_sym Hl5))); apply Hnone; congruence);
      (destruct (link d) as [s|] eqn:Eld; [|destruct (Hdid eq_refl)]);
      (destruct (existsb acquired rs) eqn:Ea; [done|]);
      exfalso; clear -Hheld Ea; induction rs as [|r rs IH]; try done;
      cbn [existsb held] in *; apply orb_false_iff in Ea as [Ea1 Ea2]; unfold acquired in Ea1;
      destruct (r_did r); try done; by apply IH.
  - rewrite He5. by subst d4.
  - rewrite Hw5. subst d4. cbn [exempt_since set_exempt window r_earned r_clock]. exact Hw3.
  - cbn [r_exempt r_earned r_clock]. rewrite <- Hw. exact Hex.
  - exact Hwant.
  - cbn [r_put r_exempt]. intros Hm. destruct (Hput Hm) as [Hm'|Hm']; [left|right]; congruence.
Qed.

Lemma awdl_run_inv upper_of w0 rs d w :
  few (ours w0) -> sessions w0 = [] -> Run upper_of ifc w0 rs d w -> Inv (ours w0) rs d w.
Proof using Hifc Hlen.
  intros Hf Hs. induction 1 as [d w Hb|rs d w w1 r d' w2 _ IH Hr Hp].
  - unfold boot in Hb. pose proof (clock_quiet w0) as Q. destruct (clock w0) as [now w1]. injection Hb as <- <-. cbn [snd] in Q.
    split; [|done]. apply (standing_quiet _ _ _ _ w0); [done|]. split; [done|]. intros _. exists Stale. split; [by left|done].
  - eapply pass_inv; [done| |exact Hp]. pose proof (running_quiet w) as Q. rewrite Hr in Q. cbn [snd] in Q.
    destruct IH as [IH1 IH2]. split; [|exact IH2]. by apply (standing_quiet _ _ _ _ w).
Qed.

(** C35: the link, the session and the rules go together, whether or not the interface appears,
    the user is known and the kernel takes the rule.  After any number of passes the open
    sessions are that of the link, if there is one, and those that were let go of without
    [mosey_stop], because the library does not export it; and when nobody wants the radio there
    is no link.  If the kernel does not fail to delete rules it has: without a link there is no
    rule but those an earlier process left before the first link.  With one there is what its
    last [add_rule] has put, exactly one rule, for one user on the link's interface, with the
    exemption it was called with, if that reported success; and otherwise none, or what was
    there before. *)
Theorem link_session_and_rule_agree upper_of w0 rs d w :
  few (ours w0) -> sessions w0 = [] -> Run upper_of ifc w0 rs d w ->
  (link d = held rs /\ sessions w = handles (link d) ++ lost rs) /\
  (forall r older, rs = r :: older -> r_want r = false -> link d = None) /\
  (Heeds W ->
   (link d = None -> ours w = left_over (ours w0) rs) /\
   exists x, x ∈ placed rs /\
     match x with
     | Stale => ours w = ours w0
     | Nothing => ours w = []
     | Put e => exists r, ours w = [r] /\ our_rule e r
     end).
Proof using Hifc Hlen.
  intros Hf Hs Hrun. destruct (awdl_run_inv upper_of w0 rs d w Hf Hs Hrun) as ([Hss Ho] & Hheld & Hnone & _ & _ & Hlast).
  split; [done|]. split; [intros r older ->; apply Hlast|]. intros Hh. split; [|exact (Ho Hh)].
  intros Hl. destruct (Ho Hh) as (x & Hx & Hw). rewrite (Hnone Hl) in Hx. unfold left_over.
  destruct (existsb acquired rs); apply list_elem_of_singleton in Hx; by subst x.
Qed.

(** In passes that are clean, what stands is what the exemption in effect says. *)
Lemma placed_latest upper_of w0 rs d w :
  few (ours w0) -> sessions w0 = [] -> Run upper_of ifc w0 rs d w -> Forall clean rs ->
  (held rs <> None -> exists e, placed rs = [Put e] /\ latest_exempt rs = Some e).
Proof using Hifc Hlen.
  intros Hf Hs Hrun. induction Hrun as [d w Hb|rs d w w1 r d' w2 Hrun IH Hr Hp]; [done|].
  intros [[Hr1 Hr2] Hrs]%Forall_cons_1. specialize (IH Hrs).
  destruct (awdl_run_inv upper_of w0 (r :: rs) d' w2 Hf Hs) as (_ & _ & _ & _ & _ & _ & _ & Hm); [by eapply run_pass|].
  cbn [placed latest_exempt held].
  assert (Hmid : held rs <> None ->
    match r_put r with Some done_ => put_places (r_exempt r) done_ (placed rs) | None => placed rs end = [Put (r_exempt r)]).
  { intros Hl. destruct (r_put r) as [[]|]; [done|done|]. destruct (IH Hl) as (e & -> & He).
    destruct (Hm eq_refl) as [Hm'|]; [|done]. do 2 f_equal. congruence. }
  destruct (r_did r) eqn:Ed; cbn [placed_by held_by]; try done; intros Hl.
  - exists (r_exempt r). split; [by apply Hmid|done].
  - specialize (Hr2 _ _ _ eq_refl). subst ruled. by exists (r_exempt r).
  - exists (r_exempt r). split; [by apply Hmid|done].
Qed.

(** C36: the exemption has to be earned, and ends.  Take a kernel that does not fail to delete
    rules it has, and a run in which every [add_rule] reported success and every acquisition
    read the exemption its pass had in effect; and suppose that no earlier process left a rule
    above the kill-switch, or this one has acquired a link.  If then a rule stands above the
    kill-switch, the last pass has read that the exemption is earned, and not more than 660
    seconds after the first of the passes that have read so without a break.  Each of these
    conditions is needed: [a_demotion_that_fails], [a_demotion_without_an_interface],
    [the_ceiling_is_forgotten] and [a_killed_process_leaves_its_rule] are rules that stay. *)
Theorem exempt_rule_is_earned upper_of w0 rs d w :
  Heeds W -> few (ours w0) -> sessions w0 = [] -> Run upper_of ifc w0 rs d w -> Forall clean rs ->
  existsb acquired rs = true \/ ~ Exists (at_priority RULE_PRIORITY_EXEMPT) (ours w0) ->
  Exists (at_priority RULE_PRIORITY_EXEMPT) (ours w) ->
  exists r older t, rs = r :: older /\ r_earned r = true /\ window rs = Some t /\ r_clock r - t <= EXEMPT_MAX.
Proof using Hifc Hlen.
  intros Hh Hf Hs Hrun Hst Hleft Hex. pose proof (placed_latest upper_of w0 rs d w Hf Hs Hrun Hst) as Hp.
  destruct (awdl_run_inv upper_of w0 rs d w Hf Hs Hrun) as ([_ Ho] & Hheld & Hnone & _ & _ & Hlast).
  destruct (Ho Hh) as (x & Hx & Hw). rewrite Hheld in Hnone. destruct (held rs) as [s|].
  2:{ rewrite (Hnone eq_refl) in Hx. destruct (existsb acquired rs); apply list_elem_of_singleton in Hx; subst x; cbn [found] in Hw.
      - rewrite Hw in Hex. by apply Exists_nil in Hex.
      - destruct Hleft as [?|Hno]; [done|]. destruct Hno. by rewrite <- Hw. }
  destruct (Hp ltac:(done)) as (e & Ep & El). rewrite Ep in Hx. apply list_elem_of_singleton in Hx. subst x.
  destruct Hw as (rule & Eo & _ & Hprio & _). rewrite Eo in Hex. apply Exists_cons in Hex as [Hex|Hex]; [|by apply Exists_nil in Hex].
  unfold at_priority in Hex. rewrite Hprio in Hex. destruct e; [|done].
  destruct rs as [|r older]; [done|]. injection El as El. destruct Hlast as (Hcap & _). rewrite El in Hcap.
  symmetry in Hcap. apply andb_true_iff in Hcap as [Hearn Hle%Z.leb_le].
  exists r, older, (unwrap_or (window older) (r_clock r)). cbn [window]. by rewrite Hearn.
Qed.

Lemma main_loop_run upper_of w0 fuel : forall rs d w ended d' w',
  Run upper_of ifc w0 rs d w -> main_loop upper_of ifc fuel d w = (Some (ended, d'), w') ->
  exists rs' w1, Run upper_of ifc w0 rs' d' w1 /\ seen w' = seen w1.
Proof using Type.
  clear Hifc Hlen. induction fuel as [|fuel IH]; intros rs d w ended d' w' Hrun; cbn [main_loop].
  { intros [= <- <- <-]. eauto. }
  pose proof (running_quiet w) as Q. destruct (running w) as [on w1] eqn:Eon. cbn [snd] in Q.
  destruct on; [|intros [= <- <- <-]; eauto].
  destruct (pass upper_of ifc d w1) as [[[r d1]|] w2] eqn:Ep; [|done]. apply (IH (r :: rs)). by eapply run_pass.
Qed.

(** What is left behind.  When a signal ends the daemon, after some passes, the only open
    sessions are those let go of without [mosey_stop], the last included; and, if the kernel
    does not fail to delete rules it has, the only rules those an earlier process left before
    the first link. *)
Theorem shutdown_leaves_nothing upper_of fuel w w' :
  few (ours w) -> sessions w = [] -> main upper_of ifc fuel w = (Some true, w') ->
  exists rs d w0 w1, seen w0 = seen w /\ Run upper_of ifc w0 rs d w1 /\
    sessions w' = lost_of (link d) ++ lost rs /\ (Heeds W -> ours w' = left_over (ours w) rs).
Proof using Hifc Hlen.
  intros Hf Hs. unfold main. assert (Q0 : seen (log_level w).2 = seen w).
  { unfold log_level. pose proof (read_property_quiet (str "persist.tarish.loglevel") w) as Q.
    destruct (read_property _ w). exact Q. }
  destruct (log_level w) as [lv w1]. cbn [snd] in Q0. injection Q0 as Qo Qs. destruct (boot w1) as [d0 w2] eqn:Eb.
  destruct (main_loop upper_of ifc fuel d0 w2) as [[[ended d]|] w3] eqn:Em; [|done]. intros [= -> <-].
  destruct (main_loop_run upper_of w1 fuel [] d0 w2 _ _ _ (run_boot _ _ _ _ _ Eb) Em) as (rs & w4 & Hrun & Q).
  exists rs, d, w1, w4. split; [unfold seen; congruence|]. split; [done|]. rewrite <- Qo in Hf |- *. rewrite <- Qs in Hs.
  destruct (awdl_run_inv upper_of w1 rs d w4 Hf Hs Hrun) as (Hst & Hheld & Hnone & _).
  apply (standing_quiet _ _ _ _ _ w3) in Hst; [|done]. unfold left_over. destruct (link d) as [s|] eqn:El.
  - apply drop_spec in Hst as [Hss Ho]; [|done]. split; [exact Hss|]. intros Hh. destruct (Ho Hh) as (x & Hx & Hw).
    apply list_elem_of_singleton in Hx. subst x. cbn [found] in Hw. rewrite Hw.
    replace (existsb acquired rs) with true; [done|]. symmetry. clear -Hheld.
    induction rs as [|r rs IH]; [done|]. cbn [held existsb] in *. unfold acquired at 1.
    destruct (r_did r); cbn [held_by orb] in *; auto; done.
  - destruct Hst as [Hss Ho]. split; [exact Hss|]. intros Hh. destruct (Ho Hh) as (x & Hx & Hw). rewrite (Hnone eq_refl) in Hx.
    destruct (existsb acquired rs); apply list_elem_of_singleton in Hx; by subst x.
Qed.

End Lawful.

(** ** Pacing, whatever the system does *)

Section Pacing.
Context {W : Type} `{Host W} (upper_of : Z -> list Z) (ifc : list byte).

(** What a part of a pass, or a pass, did to the variables that pace it. *)
Definition paced (want : bool) (did : Did) (d d' : Daemon) : Prop :=
  match did with
  | Failed a f => want = true /\ retry_at d <= a /\ retry_at d' = f + 5000 /\ last_blind_restart d' = last_blind_restart d
  | Acquired a _ _ => want = true /\ retry_at d <= a /\ retry_at d' = retry_at d /\ last_blind_restart d' = last_blind_restart d
  | Restarted asked f =>
      retry_at d' = retry_at d /\ last_blind_restart d' = Some f /\
      (forall t, last_blind_restart d = Some t -> exists b, asked = Some b /\ t + BLIND_RESTART_COOLDOWN <= b)
  | _ => retry_at d' = retry_at d /\ last_blind_restart d' = last_blind_restart d
  end /\ last_want d' = last_want d.

Lemma hold_paced want d w did d' w' : hold upper_of ifc want d w = (Some (did, d'), w') -> paced want did d d'.
Proof.
  unfold hold. destruct want, (link d) as [s|].
  - destruct (awdl_link_is_dead w) as [[] w1]; [intros [= <- <- <-]; by split|].
    destruct (Session.blind_secs s w1) as [secs w2]. destruct (_ <=? _); [|intros [= <- <- <-]; by split].
    destruct (last_blind_restart d) as [t|] eqn:El.
    + destruct (clock w2) as [b w3]. destruct (Z.leb_spec BLIND_RESTART_COOLDOWN (b - t)); [|intros [= <- <- <-]; by split].
      destruct (Session.blind_secs s w3) as [secs' w4]. destruct (clock w4) as [now w5]. intros [= <- <- <-].
      split; [|done]. split; [done|]. split; [done|]. rewrite El. intros t' [= <-]. exists b. split; [done|lia].
    + destruct (Session.blind_secs s w2) as [secs' w4]. destruct (clock w4) as [now w5]. intros [= <- <- <-].
      split; [|done]. split; [done|]. split; [done|]. by rewrite El.
  - destruct (clock w) as [now w1]. destruct (Z.leb_spec (retry_at d) now); [|intros [= <- <- <-]; by split].
    destruct (acquire upper_of ifc w1) as [[[[s e]|e]|] w2]; [intros [= <- <- <-]; by repeat split| |done].
    destruct (clock w2) as [t w3]. intros [= <- <- <-]. by repeat split.
  - intros [= <- <- <-]. by split.
  - intros [= <- <- <-]. by split.
Qed.

Lemma publish_paced d w :
  retry_at (publish_lockdown d w).1 = retry_at d /\ last_want (publish_lockdown d w).1 = last_want d /\
  last_blind_restart (publish_lockdown d w).1 = last_blind_restart d.
Proof.
  unfold publish_lockdown. destruct (match lockdown_checked_at d with None => (true, w) | Some t => _ end) as [[] w1]; [|done].
  destruct (clock w1) as [now w2], (lockdown_active w2) as [locked w3]. case_bool_decide; [done|]. by destruct (write_property _ _ w3).
Qed.

Lemma note_paced d w :
  (last_want d = Some (note_want d w).1.1 -> retry_at (note_want d w).1.2 = retry_at d) /\
  last_want (note_want d w).1.2 = Some (note_want d w).1.1 /\
  last_blind_restart (note_want d w).1.2 = last_blind_restart d.
Proof.
  unfold note_want. destruct (wants_radio w) as [want w1]. case_bool_decide; [done|].
  destruct (clock w1) as [now w2]. cbn [fst snd]. done.
Qed.

Lemma capped_paced d w :
  retry_at (capped_exemption d w).1.2 = retry_at d /\ last_want (capped_exemption d w).1.2 = last_want d /\
  last_blind_restart (capped_exemption d w).1.2 = last_blind_restart d.
Proof.
  unfold capped_exemption. destruct (exemption_earned w) as [[] w1]; [|done]. destruct (clock w1) as [now w2].
  destruct (exempt_since d); [|done]. by destruct (_ <? _).
Qed.

Lemma follow_paced e d w :
  retry_at (follow_exemption ifc e d w).1.2 = retry_at d /\ last_want (follow_exemption ifc e d w).1.2 = last_want d /\
  last_blind_restart (follow_exemption ifc e d w).1.2 = last_blind_restart d.
Proof.
  unfold follow_exemption. case_bool_decide; [done|]. destruct (link d); [|done]. by destruct (add_rule ifc e w).
Qed.

(** Over a pass the time to retry moves only with the demand, or with what the pass did. *)
Lemma pass_paced d w r d' w' : pass upper_of ifc d w = (Some (r, d'), w') ->
  exists d1, paced (r_want r) (r_did r) d1 d' /\ last_want d1 = Some (r_want r) /\
    last_blind_restart d1 = last_blind_restart d /\ (last_want d = Some (r_want r) -> retry_at d1 = retry_at d).
Proof.
  unfold pass. destruct (publish_paced d w) as (R1 & L1 & B1). destruct (publish_lockdown d w) as [d1 w1].
  destruct (note_paced d1 w1) as (R2 & L2 & B2). destruct (note_want d1 w1) as [[want d2] w2].
  destruct (capped_paced d2 w2) as (R3 & L3 & B3). destruct (capped_exemption d2 w2) as [[[[earned exempt] now] d3] w3].
  destruct (follow_paced exempt d3 w3) as (R4 & L4 & B4). destruct (follow_exemption ifc exempt d3 w3) as [[moved d4] w4].
  cbn [fst snd] in *. destruct (hold upper_of ifc want d4 w4) as [[[did d5]|] w5] eqn:Eh; [|done]. intros [= <- <- <-].
  apply hold_paced in Eh. exists d4. cbn [r_want r_did]. split; [done|]. split; [congruence|]. split; [congruence|].
  intros Hw. rewrite R4, R3, R2; congruence.
Qed.

Definition attempt (r : Report) : option Z :=
  match r_did r with Acquired a _ _ | Failed a _ => Some a | _ => None end.
Definition restarts (r : Report) : bool := match r_did r with Restarted _ _ => true | _ => false end.

Lemma run_tail w0 r rs d w : Run upper_of ifc w0 (r :: rs) d w ->
  exists d0 w1 w2, Run upper_of ifc w0 rs d0 w1 /\ pass upper_of ifc d0 w2 = (Some (r, d), w).
Proof. inversion 1; subst. eauto 10. Qed.

(** After a failed attempt, as long as the radio stays wanted and nothing is attempted. *)
Lemma patient_until w0 rs a f d w mid ri :
  r_did ri = Failed a f -> Forall (fun r => r_want r = true /\ attempt r = None) mid ->
  Run upper_of ifc w0 (mid ++ ri :: rs) d w -> last_want d = Some true /\ retry_at d = f + 5000.
Proof.
  intros Hri Hmid. revert d w. induction Hmid as [|r mid [Hw Ha] _ IH]; intros d w Hrun.
  - apply run_tail in Hrun as (d0 & w1 & w2 & _ & Hp). apply pass_paced in Hp as (d1 & Hp & Hl & _ & _).
    rewrite Hri in Hp. destruct Hp as [(Hw & _ & Hret & _) Hl']. rewrite Hl', Hl, Hw. done.
  - cbn [app] in Hrun. apply run_tail in Hrun as (d0 & w1 & w2 & Hrun & Hp). destruct (IH _ _ Hrun) as [Hl0 Hr0].
    apply pass_paced in Hp as (d1 & Hp & Hl & _ & Hr). rewrite Hw in Hl, Hr. specialize (Hr Hl0).
    unfold paced, attempt in *. destruct Hp as [Hp Hl']. rewrite Hl', Hl. split; [done|].
    destruct (r_did r); try done; destruct Hp as [Hp _]; congruence.
Qed.

Lemma blind_since w0 rs x f d w mid ri :
  r_did ri = Restarted x f -> Forall (fun r => restarts r = false) mid ->
  Run upper_of ifc w0 (mid ++ ri :: rs) d w -> last_blind_restart d = Some f.
Proof.
  intros Hri Hmid. revert d w. induction Hmid as [|r mid Ha _ IH]; intros d w Hrun.
  - apply run_tail in Hrun as (d0 & w1 & w2 & _ & Hp). apply pass_paced in Hp as (d1 & Hp & _).
    rewrite Hri in Hp. apply Hp.
  - cbn [app] in Hrun. apply run_tail in Hrun as (d0 & w1 & w2 & Hrun & Hp). specialize (IH _ _ Hrun).
    apply pass_paced in Hp as (d1 & Hp & _ & Hb & _). rewrite <- IH, <- Hb. unfold paced, restarts in *.
    destruct Hp as [Hp _]. destruct (r_did r); try done; apply Hp.
Qed.

(** C37: restarts are paced.  After an attempt to bring the link up has failed, the next is five
    seconds later, as long as the radio stays wanted; and between two restarts of a session that
    is blind there are three minutes; whatever the clock, the library and the kernel do. *)
Theorem restarts_are_paced w0 rs mid ri rj d w :
  Run upper_of ifc w0 (rj :: mid ++ ri :: rs) d w ->
  (forall a f b, r_did ri = Failed a f -> attempt rj = Some b ->
     Forall (fun r => r_want r = true /\ attempt r = None) mid -> f + 5000 <= b) /\
  (forall x f y g, r_did ri = Restarted x f -> r_did rj = Restarted y g ->
     Forall (fun r => restarts r = false) mid -> exists b, y = Some b /\ f + BLIND_RESTART_COOLDOWN <= b).
Proof.
  intros (d0 & w1 & w2 & Hrun & Hp)%run_tail. apply pass_paced in Hp as (d1 & Hp & Hl & Hb & Hr). split.
  - intros a f b Hi Hj Hmid. destruct (patient_until _ _ _ _ _ _ _ _ Hi Hmid Hrun) as [Hl0 Hr0].
    unfold paced, attempt in *. destruct Hp as [Hp _]. destruct (r_did rj); simplify_eq;
      destruct Hp as (Hwant & Hle & _); rewrite Hwant in Hr; rewrite Hr in Hle by done; lia.
  - intros x f y g Hi Hj Hmid. pose proof (blind_since _ _ _ _ _ _ _ _ Hi Hmid Hrun) as Hb0.
    rewrite Hj in Hp. destruct Hp as [(_ & _ & Hp) _]. apply Hp. congruence.
Qed.

(** With a clock that does not go back and a sleep that sleeps, the rounds of [await_iface]
    suffice: there are 151 of twenty milliseconds in three seconds and a bit. *)
Lemma await_fuel (T : W -> Z)
    (Hclock : forall w, T w <= (clock w).1 <= T (clock w).2)
    (Hindex : forall n w, T w <= T (if_nametoindex n w).2)
    (Hsleep : forall n w, T w + n <= T (sleep n w)) fuel more name up_by w :
  up_by <= T w + 20 * Z.of_nat fuel ->
  await_iface (S fuel) name up_by w = await_iface (S fuel + more) name up_by w.
Proof using Type.
  revert w. induction fuel as [|fuel IH]; intros w Hup; cbn [Nat.add await_iface];
    pose proof (Hindex name w) as Hi; destruct (if_nametoindex name w) as [idx w1]; (destruct (is_ok idx); [done|]);
    pose proof (Hclock w1) as Hc; destruct (clock w1) as [now w2]; cbn [fst snd] in *;
    (destruct (Z.leb_spec up_by now); [done|]); [lia|].
  apply (IH (sleep 20 w2)). pose proof (Hsleep 20 w2). lia.
Qed.

End Pacing.

(** ** A toy system *)

Module ToyAwdl.

(** Properties, the rules and sessions there are, the clock, and what the library and the link
    do. *)
Record World : Type := mkWorld {
  props : gmap (list byte) (list byte);
  rules : list Rule;
  open_ : list Z;
  time : Z;
  accepts : bool;
  dead : bool;
  blind : Z
}.

Definition set_rules (l : list Rule) (w : World) : World :=
  mkWorld (props w) l (open_ w) (time w) (accepts w) (dead w) (blind w).
Definition set_open (l : list Z) (w : World) : World :=
  mkWorld (props w) (rules w) l (time w) (accepts w) (dead w) (blind w).
Definition set_time (t : Z) (w : World) : World :=
  mkWorld (props w) (rules w) (open_ w) t (accepts w) (dead w) (blind w).
Definition set_props (ps : gmap (list byte) (list byte)) (w : World) : World :=
  mkWorld ps (rules w) (open_ w) (time w) (accepts w) (dead w) (blind w).
Definition set_faults (a d : bool) (b : Z) (w : World) : World :=
  mkWorld (props w) (rules w) (open_ w) (time w) a d b.

(** When the signal comes. *)
Definition ended : Z := 10 * 1000 * 1000.

(** An acknowledgement with an error number. *)
Definition ack (errno : Z) : list byte :=
  hdr_bytes (mkNlMsgHdr 36 NLMSG_ERROR 0 1 0) ++ le 4 (as_u32 (- errno)) ++ replicate 16 (to_u8 0).

Fixpoint remove_first (p : Z) (l : list Rule) : list Rule :=
  match l with
  | [] => []
  | r :: l => if r_priority r =? p then l else r :: remove_first p l
  end.

(** [stubborn]: whether deletes fail although there is something to delete. *)
Definition answer (stubborn : bool) (m : list byte) (w : World) : result (list byte) Z * World :=
  match asked m with
  | Some (NewRule r) => if decide (r ∈ rules w) then (Ok (ack EEXIST), w) else (Ok (ack 0), set_rules (r :: rules w) w)
  | Some (DelRule p) =>
      if existsb (fun r => r_priority r =? p) (rules w) && negb stubborn
      then (Ok (ack 0), set_rules (remove_first p (rules w)) w)
      else (Ok (ack 2), w)
  | Some (NewRoute _ _ _) => (Ok (ack 0), w)
  | None => (Ok (ack 22), w)
  end.

(** The interface is there when the property says so. *)
Definition GONE : list byte := str "gone".

Definition kernel (stubborn : bool) : Kernel World := {|
  if_nametoindex _ w := (match props w !! GONE with Some _ => Err 19 | None => Ok 52 end, w);
  getpwnam _ w := (Some 7500, w);
  request p m w := if p =? NETLINK_ROUTE then answer stubborn m w else (Err 95, w);
  dump _ _ w := (Err 1, w);
  read_to_string _ w := (Ok (if dead w then str "down" else str "unknown"), w)
|}.
Definition platform (stubborn : bool) : Platform World := {|
  platform_kernel := kernel stubborn;
  system_property_get name w := (unwrap_or (props w !! name) [], w);
  system_property_set _ _ w := (true, w);
  env_var _ w := (None, w);
  path_exists _ w := (false, w)
|}.

(** One session of those with the handle is stopped; the library exports [mosey_stop] unless the
    property says that it is old. *)
Fixpoint stop_one (h : Z) (l : list Z) : list Z :=
  match l with [] => [] | x :: l => if x =? h then l else x :: stop_one h l end.
Definition OLD : list byte := str "old".

Definition host (stubborn : bool) : Host World := {|
  host_platform := platform stubborn;
  clock w := (time w, w);
  sleep n w := set_time (time w + n) w;
  running w := (time w <? ended, w);
  dlopen _ w := (Some 1, w);
  dlsym _ name w := (if decide (name = str "mosey_stop") then negb (is_some (props w !! OLD)) else true, w);
  mosey_start_5 _ _ _ _ _ _ w := if accepts w then (Some 7, set_open (7 :: open_ w) w) else (None, w);
  mosey_stop _ h w := set_open (stop_one h (open_ w)) w;
  mosey_health _ w := (blind w, w)
|}.

Lemma acked_ack e : acked (Ok (ack 0)) = true /\ acked (Ok (ack EEXIST)) = true /\ (e = 2 \/ e = 22 -> acked (Ok (ack e)) = false).
Proof. split; [by vm_compute|]. split; [by vm_compute|]. by intros [->| ->]; vm_compute. Qed.

Lemma remove_first_spec p l : Exists (at_priority p) l ->
  exists l1 r l2, l = l1 ++ r :: l2 /\ at_priority p r /\ remove_first p l = l1 ++ l2.
Proof.
  induction 1 as [r l Hr|r l _ (l1 & r' & l2 & -> & Hr' & E)]; cbn [remove_first].
  - rewrite Hr, Z.eqb_refl. by exists [], r, l.
  - destruct (Z.eqb_spec (r_priority r) p); [by exists [], r, (l1 ++ r' :: l2)|].
    rewrite E. by exists (r :: l1), r', l2.
Qed.

Lemma exists_at p w : existsb (fun r => r_priority r =? p) (rules w) = true <-> Exists (at_priority p) (rules w).
Proof.
  rewrite existsb_exists, Exists_exists. split; intros (r & Hr & Hp); exists r.
  - split; [by apply list_elem_of_In|by apply Z.eqb_eq].
  - split; [by apply list_elem_of_In|by apply Z.eqb_eq].
Qed.

#[local] Instance in_order : Host World := host false.

(** Stubborn or not. *)
Definition lawful stubborn : @Lawful World (host stubborn).
Proof.
  unshelve refine (@Build_Lawful World (host stubborn) rules open_ _ _ _ _ _ _ _ _ _ _ _ _ _ _ _ _ _ _ _ _ _ _); try done.
  - intros m dst oif table Ha w. cbn. unfold answer. by rewrite Ha.
  - intros m r w Ha. cbn [request host_platform platform_kernel host platform kernel]. rewrite Z.eqb_refl.
    unfold answer. rewrite Ha. case_decide; (split; [done|]); cbn [fst snd].
    + rewrite (proj1 (proj2 (acked_ack 2))). by left.
    + rewrite (proj1 (acked_ack 2)). by right.
  - intros m p w Ha. cbn [request host_platform platform_kernel host platform kernel]. rewrite Z.eqb_refl.
    unfold answer. rewrite Ha. destruct (existsb _ _ && negb stubborn) eqn:E; (split; [done|]); cbn [fst snd].
    + apply andb_true_iff in E as [E%exists_at _]. rewrite (proj1 (acked_ack 2)). by apply remove_first_spec.
    + by rewrite (proj2 (proj2 (acked_ack 2)) (or_introl eq_refl)).
  - intros name w idx. change (if_nametoindex name w).1 with (match props w !! GONE with Some _ => Err 19 | None => Ok 52 end : result Z Z).
    destruct (props w !! GONE); [done|]. intros [= <-]. unfold is_u32. lia.
  - intros name w uid. cbn. intros [= <-]. unfold is_u32. lia.
  - intros l c m cc o cfg w. cbn. by destruct (accepts w).
  - intros l h w. split; [done|]. intros hs E. cbn. rewrite E. cbn. by rewrite Z.eqb_refl.
Defined.
#[local] Instance lawful_in_order : Lawful World := lawful false.

Lemma heeds : Heeds World.
Proof.
  intros m p w Ha He. cbn [request host_platform platform_kernel in_order host platform kernel]. rewrite Z.eqb_refl.
  unfold answer. rewrite Ha. apply exists_at in He. rewrite He. cbn [andb negb fst]. apply (acked_ack 2).
Qed.

Definition as_it_is (c : Z) : list Z := [c].

(** A phone with a country; nobody has asked for anything yet. *)
Definition phone : World :=
  mkWorld {[str "persist.tarish.country" := str "qa"]} [] [] 0 true false 0.

(** [n] passes, each in the world that [change] makes of the last. *)
Fixpoint passes (stubborn : bool) (changes : list (World -> World)) (d : Daemon) (w : World)
    : option (list Report * Daemon) * World :=
  match changes with
  | [] => (Some ([], d), w)
  | f :: changes =>
      let (on, w) := @running World (host stubborn) (f w) in
      let (r, w) := @pass World (host stubborn) as_it_is (str "tlink0") d w in
      match r with
      | Some (r, d) =>
          if (on : bool) then
            let (rest, w) := passes stubborn changes d w in
            (match rest with Some (rs, d) => Some (r :: rs, d) | None => None end, w)
          else (None, w)
      | None => (None, w)
      end
  end.
Definition booted (w : World) : Daemon := (@boot World (host false) w).1.

Definition with_prop (k v : list byte) (w : World) : World := set_props (<[k := v]> (props w)) w.
Definition earns : World -> World := with_prop EXEMPT_PROP (str "1").
Definition loses : World -> World := with_prop EXEMPT_PROP (str "0").
Definition later (n : Z) (w : World) : World := set_time (time w + n) w.
Definition vanishes : World -> World := with_prop GONE [].
Definition is_old : World -> World := with_prop OLD [].
Definition appears (w : World) : World := set_props (base.delete GONE (props w)) w.
Definition nobody : World -> World := with_prop WANT_PROP (str "0").
Definition dies_now (w : World) : World := set_faults (accepts w) true (blind w) w.
Definition revives (w : World) : World := set_faults (accepts w) false (blind w) w.

(** The rule comes up below the kill-switch, is moved above it and back. *)
Example the_rule_follows :
  r_priority <$> rules (passes false [id] (booted phone) phone).2 = [RULE_PRIORITY_PLAIN] /\
  r_priority <$> rules (passes false [id; earns] (booted phone) phone).2 = [RULE_PRIORITY_EXEMPT] /\
  r_priority <$> rules (passes false [id; earns; loses] (booted phone) phone).2 = [RULE_PRIORITY_PLAIN] /\
  r_priority <$> rules (passes false [id; earns; later 660001] (booted phone) phone).2 = [RULE_PRIORITY_PLAIN].
Proof. by vm_compute. Qed.

(** After the ceiling, a link that dies and is acquired again puts the rule above the
    kill-switch although the exemption is not in effect, and it stays there. *)
Example the_ceiling_is_forgotten :
  r_priority <$> rules (passes false [earns; id; later 660001; dies_now; revives; later 3600000] (booted phone) phone).2
  = [RULE_PRIORITY_EXEMPT].
Proof. by vm_compute. Qed.

(** A delete that fails is taken for the end of the rules: the rule below is added, the one above
    the kill-switch stays, and nothing tries again. *)
Example a_demotion_that_fails :
  r_priority <$> rules (passes true [earns; id; loses; id; later 3600000] (booted phone) phone).2
  = [RULE_PRIORITY_PLAIN; RULE_PRIORITY_EXEMPT].
Proof. by vm_compute. Qed.

(** Neither is a demotion tried again that fails because the interface cannot be resolved. *)
Example a_demotion_without_an_interface :
  r_priority <$> rules (passes false [earns; id; loses ∘ vanishes; appears; later 3600000] (booted phone) phone).2
  = [RULE_PRIORITY_EXEMPT].
Proof. by vm_compute. Qed.

(** An interface that appears too late, or never, has a link with no rule, until the exemption
    changes. *)
Example a_late_interface :
  r_priority <$> rules (passes false [vanishes; appears; later 3600000] (booted phone) phone).2 = [] /\
  open_ (passes false [vanishes; appears; later 3600000] (booted phone) phone).2 = [7] /\
  r_priority <$> rules (passes false [vanishes; appears; earns] (booted phone) phone).2 = [RULE_PRIORITY_EXEMPT].
Proof. by vm_compute. Qed.

(** A session of a library without [mosey_stop] stays open, and the next comes on top. *)
Example sessions_pile_up :
  open_ (passes false [is_old; dies_now; revives; nobody] (booted phone) phone).2 = [7; 7].
Proof. by vm_compute. Qed.

(** What a process that was killed left above the kill-switch stays until the next link. *)
Example a_killed_process_leaves_its_rule :
  let left_ := mkWorld {[WANT_PROP := str "0"]} [mkRule (str "tlink0") 52 RULE_PRIORITY_EXEMPT (7500, 7500)] [] 0 true false 0 in
  r_priority <$> rules (passes false [id; later 3600000] (booted left_) left_).2 = [RULE_PRIORITY_EXEMPT].
Proof. by vm_compute. Qed.

Lemma passes_run w0 n : forall rs0 d w rs d' w',
  Run as_it_is (str "tlink0") w0 rs0 d w -> passes false (replicate n id) d w = (Some (rs, d'), w') ->
  Run as_it_is (str "tlink0") w0 (rev rs ++ rs0) d' w'.
Proof.
  induction n as [|n IH]; intros rs0 d w rs d' w' Hr.
  - cbn [replicate passes]. by intros [= <- <- <-].
  - cbn [replicate passes]. change (id w) with w. change (host false) with in_order. destruct (running w) as [on w0'] eqn:Eon.
    destruct (pass as_it_is (str "tlink0") d w0') as [[[r d1]|] w1] eqn:Ep; [|done]. destruct on; [|done].
    destruct (passes false (replicate n id) d1 w1) as [[[rest d2]|] w2] eqn:En; [|done]. intros [= <- <- <-].
    cbn [rev]. rewrite <- app_assoc. apply (IH (r :: rs0) d1 w1); [|done]. eapply run_pass; [exact Hr|exact Eon|exact Ep].
Qed.

(** [n] passes of the toy. *)
Lemma toy_run w n : forall rs d w', passes false (replicate n id) (booted w) w = (Some (rs, d), w') ->
  Run as_it_is (str "tlink0") w (rev rs) d w'.
Proof. intros rs d w' E. rewrite <- (app_nil_r (rev rs)). eapply passes_run; [by apply run_boot|exact E]. Qed.

Definition reports (w : World) (n : nat) : list Report :=
  match (passes false (replicate n id) (booted w) w).1 with Some (rs, _) => rs | None => [] end.
Definition daemon (w : World) (n : nat) : Daemon :=
  match (passes false (replicate n id) (booted w) w).1 with Some (_, d) => d | None => booted w end.
Definition world (w : World) (n : nat) : World := (passes false (replicate n id) (booted w) w).2.

Lemma toy_runs w n : is_some (passes false (replicate n id) (booted w) w).1 = true ->
  Run as_it_is (str "tlink0") w (rev (reports w n)) (daemon w n) (world w n).
Proof.
  unfold reports, daemon, world. destruct (passes false (replicate n id) (booted w) w) as [[[rs d]|] w'] eqn:E; [|done].
  intros _. by apply (toy_run w n).
Qed.

Definition earning : World := earns phone.
Definition refusing : World := mkWorld {[str "persist.tarish.country" := str "qa"]} [] [] 0 false false 0.
Definition half_blind : World := mkWorld {[str "persist.tarish.country" := str "qa"]} [] [] 0 true false 60.

Lemma link_session_and_rule_agree_witness :
  link (daemon phone 2) <> None /\ sessions (world phone 2) = [7] /\
  exists r, ours (world phone 2) = [r] /\ our_rule (str "tlink0") false r.
Proof.
  pose proof (link_session_and_rule_agree (str "tlink0") eq_refl eq_refl as_it_is phone _ _ _ few_nil eq_refl
    (toy_runs phone 2 ltac:(by vm_compute))) as ([_ Hs] & _ & Hr).
  assert (Hl : handles (link (daemon phone 2)) = [7]) by by vm_compute.
  assert (Hlo : lost (rev (reports phone 2)) = []) by by vm_compute.
  assert (Hp : placed (rev (reports phone 2)) = [Put false]) by by vm_compute.
  rewrite Hl, Hlo in Hs. destruct (Hr heeds) as (_ & x & Hx & Hw). rewrite Hp in Hx.
  apply list_elem_of_singleton in Hx. subst x. split; [|exact (conj Hs Hw)].
  intros E. rewrite E in Hl. cbn [handles] in Hl. discriminate Hl.
Defined.

Lemma exempt_rule_is_earned_witness :
  Exists (at_priority RULE_PRIORITY_EXEMPT) (ours (world earning 2)) /\
  exists r older t, rev (reports earning 2) = r :: older /\ r_earned r = true /\ window (rev (reports earning 2)) = Some t /\
    r_clock r - t <= EXEMPT_MAX.
Proof.
  assert (Hex : Exists (at_priority RULE_PRIORITY_EXEMPT) (ours (world earning 2))).
  { vm_compute. constructor. reflexivity. }
  split; [exact Hex|].
  refine (exempt_rule_is_earned (str "tlink0") eq_refl eq_refl as_it_is earning _ _ _ heeds few_nil eq_refl
    (toy_runs earning 2 ltac:(by vm_compute)) _ _ Hex).
  - vm_compute. repeat (apply Forall_cons_2; [split; [done|intros at_ s ruled E; by inversion E]|]). apply Forall_nil_2.
  - left. by vm_compute.
Defined.

(** The signal comes in the second pass. *)
Definition late : World := later (ended - 700) phone.

Lemma shutdown_leaves_nothing_witness :
  exists w', main as_it_is (str "tlink0") 9 late = (Some true, w') /\
  exists rs d w0 w1, seen w0 = seen late /\ Run as_it_is (str "tlink0") w0 rs d w1 /\ sessions w' = lost_of (link d) ++ lost rs.
Proof.
  destruct (main as_it_is (str "tlink0") 9 late) as [r w'] eqn:E.
  assert (r = Some true) as -> by (change r with (r, w').1; rewrite <- E; by vm_compute).
  exists w'. split; [done|].
  assert (Hf : few (ours late)) by exact few_nil.
  destruct (shutdown_leaves_nothing (str "tlink0") eq_refl eq_refl as_it_is 9 late w' Hf eq_refl E)
    as (rs & d & w0 & w1 & Q & Hrun & Hs & _).
  exists rs, d, w0, w1. exact (conj Q (conj Hrun Hs)).
Defined.

(** The first and the last of [n] passes (the latest first), and those between. *)
Definition dull : Report := mkReport false false false 0 None Idle.
Definition final (l : list Report) : Report := hd dull l.
Definition between_ (n : nat) (l : list Report) : list Report := take n (drop 1 l).
Definition opening (n : nat) (l : list Report) : Report := hd dull (drop (S n) l).
Definition before_ (n : nat) (l : list Report) : list Report := drop (S (S n)) l.

Lemma forallb_is {A} (p : A -> bool) (P : A -> Prop) l : forallb p l = true -> (forall x, p x = true -> P x) -> Forall P l.
Proof. intros Hp HP. rewrite forallb_forall in Hp. apply Forall_forall. intros x Hx. by apply HP, Hp, list_elem_of_In. Qed.

(** A library that refuses, and a session that is blind from the start. *)
Lemma restarts_are_paced_witness :
  let l := rev (reports refusing 11) in
  let k := rev (reports half_blind 362) in
  r_did (opening 9 l) = Failed 0 0 /\ attempt (final l) = Some 5000 /\ 0 + 5000 <= 5000 /\
  r_did (opening 359 k) = Restarted None 500 /\ r_did (final k) = Restarted (Some 180500) 180500 /\
  exists b, Some 180500 = Some b /\ 500 + BLIND_RESTART_COOLDOWN <= b.
Proof.
  intros l k.
  assert (El : l = final l :: between_ 9 l ++ opening 9 l :: before_ 9 l) by by vm_compute.
  assert (Ek : k = final k :: between_ 359 k ++ opening 359 k :: before_ 359 k) by by vm_compute.
  pose proof (toy_runs refusing 11 ltac:(by vm_compute)) as Hl. fold l in Hl. rewrite El in Hl.
  pose proof (toy_runs half_blind 362 ltac:(by vm_compute)) as Hk. fold k in Hk. rewrite Ek in Hk.
  assert (H1 : r_did (opening 9 l) = Failed 0 0) by by vm_compute.
  assert (H2 : attempt (final l) = Some 5000) by by vm_compute.
  assert (H3 : r_did (opening 359 k) = Restarted None 500) by by vm_compute.
  assert (H4 : r_did (final k) = Restarted (Some 180500) 180500) by by vm_compute.
  assert (F1 : Forall (fun r => r_want r = true /\ attempt r = None) (between_ 9 l)).
  { apply (forallb_is (fun r => r_want r && negb (is_some (attempt r)))); [by vm_compute|].
    intros r [? Ha]%andb_true_iff. split; [done|]. by destruct (attempt r). }
  assert (F2 : Forall (fun r => restarts r = false) (between_ 359 k)).
  { apply (forallb_is (fun r => negb (restarts r))); [by vm_compute|]. intros r Hr. by apply negb_true_iff. }
  clearbody l k. split; [exact H1|]. split; [exact H2|]. split; [|split; [exact H3|split; [exact H4|]]].
  - exact (proj1 (restarts_are_paced as_it_is (str "tlink0") _ _ _ _ _ _ _ Hl) 0 0 5000 H1 H2 F1).
  - exact (proj2 (restarts_are_paced as_it_is (str "tlink0") _ _ _ _ _ _ _ Hk) None 500 (Some 180500) 180500 H3 H4 F2).
Defined.

End ToyAwdl.
