(* ===== verification/Lan.v ===== *)
(** * Quick Share on the LAN ([sharingd/src/main.rs], [start_quickshare_server] and
      [start_quickshare_discovery])

    The thread that listens for transfers and publishes its port, and the thread that browses for
    peers and advertises this device.  They share the port, the visibility flag, which clients
    switch, and the table of peers.  One pass of the second thread is a function of what it reads;
    a run is any sequence of passes, of what the listener does and of switches of the flag, also
    between the accesses of a pass. *)

From stdpp Require Import gmap.
From S2P Require Import Prelude Text Dns Endpoint Discovery.

(** Milliseconds. *)
Definition ANNOUNCE_EVERY : Z := 30 * 1000.
Definition QUERY_EVERY : Z := 10 * 1000.
Definition PEER_TTL : Z := 60 * 1000.
Definition TICK : Z := 500.

(** The variables of the inner loop. *)
Record Bound : Type := mkBound {
  found : QsPeers;
  responder : option QsResponder;
  since_announce : Z;
  since_query : Z
}.

(** [listener]: the port of the socket that is being accepted on.  [bound]: the inner loop is
    running. *)
Record Lan : Type := mkLan {
  port : Z;
  discoverable : bool;
  published : list QsPeer;
  listener : option Z;
  bound : option Bound;
  net : Net
}.

(** The socket's port starts at zero, the table empty. *)
Definition boot (visible : bool) (link : list bool) : Lan := mkLan 0 visible [] None None (mkNet link []).

(** What the listener's thread and the clients do: a socket is bound, or not, or has no address
    to be read ([None], [Some None]); [accept] fails; the flag is switched. *)
Inductive Turn : Type :=
| Listen (r : option (option Z))
| AcceptFailed
| Switch (visible : bool).

Definition turn (s : Lan) (t : Turn) : Lan :=
  match t with
  | Listen (Some (Some p)) =>
      match listener s with
      | None => mkLan p (discoverable s) (published s) (Some p) (bound s) (net s)
      | Some _ => s
      end
  | Listen _ => s
  | AcceptFailed => mkLan (port s) (discoverable s) (published s) None (bound s) (net s)
  | Switch v => mkLan (port s) v (published s) (listener s) (bound s) (net s)
  end.

(** What a pass reads: whether a browser can be made, where there is none; what happens between
    its looks at the flag and at the port; the interface's address, [None] if no responder can be
    made; the datagrams the two sockets give; the time. *)
Record Reads : Type := mkReads {
  can_browse : bool;
  meanwhile : list Turn;
  own_addr : option (list byte);
  asked : list (option (list byte));
  rx : list (option (Z * list byte));
  now : Z
}.

Section Loop.
Context (ident : QsIdentity).

(** Dropping a responder says goodbye. *)
Definition drop_responder (b : Bound) (n : Net) : Net :=
  match responder b with Some r => stop_advertising r n | None => n end.

(** [if !visible && responder.is_some()]. *)
Definition hide (visible : bool) (b : Bound) (n : Net) : Bound * Net :=
  if negb visible then (mkBound (found b) None (since_announce b) (since_query b), drop_responder b n) else (b, n).

(** [if visible && responder.is_none() && bound != 0]. *)
Definition appear (visible : bool) (p : Z) (addr : option (list byte)) (b : Bound) : Bound :=
  match responder b, addr with
  | None, Some a =>
      if visible && negb (p =? 0) then mkBound (found b) (Some (new_responder a ident p)) (since_announce b) (since_query b) else b
  | _, _ => b
  end.

(** [if let Some(r) = responder.as_mut()]. *)
Definition tend (rx : list (option (list byte))) (b : Bound) (n : Net) : Bound * Net :=
  match responder b with
  | None => (b, n)
  | Some r =>
      let '(_, _, n) := answer_queries rx r n in
      if ANNOUNCE_EVERY <=? since_announce b then (mkBound (found b) (responder b) 0 (since_query b), (announce r n).2)
      else (b, n)
  end.

(** [if since_query >= ..]; [None] leaves the inner loop. *)
Definition ask (b : Bound) (n : Net) : option Bound * Net :=
  if QUERY_EVERY <=? since_query b then
    let (ok, n) := query n in
    if ok then (Some (mkBound (found b) (responder b) (since_announce b) 0), n) else (None, drop_responder b n)
  else (Some b, n).

Definition browse (x : Reads) (b : Bound) : Bound :=
  mkBound (expire (now x) PEER_TTL (poll (rx x) (found b)).2) (responder b) (since_announce b) (since_query b).

Definition nap (b : Bound) : Bound := mkBound (found b) (responder b) (since_announce b + TICK) (since_query b + TICK).

(** The inner loop once. *)
Definition round (x : Reads) (b : Bound) (s : Lan) : Lan :=
  let visible := discoverable s in
  let (b, n) := hide visible b (net s) in
  let s := fold_left turn (meanwhile x) s in
  let b := appear visible (port s) (own_addr x) b in
  let (b, n) := tend (asked x) b n in
  let (b, n) := ask b n in
  match b with
  | None => mkLan (port s) (discoverable s) (published s) (listener s) None n
  | Some b =>
      let b := browse x b in
      mkLan (port s) (discoverable s) (peers (found b)) (listener s) (Some (nap b)) n
  end.

(** The inner loop once, entered if it has been left. *)
Definition pass (x : Reads) (s : Lan) : Lan :=
  match bound s with
  | Some b => round x b s
  | None => if can_browse x then round x (mkBound ∅ None 99000 99000) s else s
  end.

Inductive Label : Type := Other (t : Turn) | Pass (x : Reads).
Definition step (s : Lan) (l : Label) : Lan := match l with Other t => turn s t | Pass x => pass x s end.
Definition run (s : Lan) (ls : list Label) : Lan := fold_left step ls s.

(** ** Lemmas *)

(** The ports the listener has been bound to. *)
Definition port_of (t : Turn) : option Z := match t with Listen (Some (Some p)) => Some p | _ => None end.
Definition turns_of (l : Label) : list Turn := match l with Other t => [t] | Pass x => meanwhile x end.
Definition ports (ls : list Label) : list Z := omap port_of (ls ≫= turns_of).

Definition responder_of (s : Lan) : option QsResponder := b ← bound s; responder b.

(** A responder for a port that was listened on. *)
Definition honest (ps : list Z) (r : QsResponder) : Prop :=
  exists a p, r = new_responder a ident p /\ p <> 0 /\ p ∈ ps.

(** What this device has said: queries, announcements, goodbyes. *)
Definition honest_packet (ps : list Z) (pkt : list byte) : Prop :=
  pkt = Dns.query SERVICE_TYPE \/
  exists r, honest ps r /\ (pkt = response (answers r) \/ pkt = response (answers_with_ttl 0 r)).

Record Inv (ps : list Z) (s : Lan) : Prop := mkInv {
  inv_port : port s = 0 \/ port s ∈ ps;
  inv_responder : forall r, responder_of s = Some r -> honest ps r;
  inv_sent : Forall (honest_packet ps) (sent (net s))
}.

Lemma honest_mono ps ps' r : ps ⊆ ps' -> honest ps r -> honest ps' r.
Proof. intros Hs (a & p & ? & ? & ?). exists a, p. set_solver. Qed.

Lemma honest_packet_mono ps ps' k : ps ⊆ ps' -> honest_packet ps k -> honest_packet ps' k.
Proof. intros Hs [->|(r & Hr & Hk)]; [by left|]. right. exists r. split; [by eapply honest_mono|done]. Qed.

Lemma lan_inv_mono ps ps' s : ps ⊆ ps' -> Inv ps s -> Inv ps' s.
Proof.
  intros Hs [Hp Hr Hn]. constructor; [set_solver|intros r ?; eapply honest_mono; eauto|].
  eapply Forall_impl; [exact Hn|]. intros k. by apply honest_packet_mono.
Qed.

(** A turn touches neither the browser nor the network. *)
Lemma turn_rest s t : bound (turn s t) = bound s /\ net (turn s t) = net s /\ published (turn s t) = published s.
Proof. destruct t as [[[p|]|]| |v]; cbn; try done. by destruct (listener s). Qed.

Lemma turns_rest ts s : let s' := fold_left turn ts s in bound s' = bound s /\ net s' = net s /\ published s' = published s.
Proof.
  revert s. induction ts as [|t ts IH]; intros s; [done|]. cbn [fold_left]. destruct (turn_rest s t) as (<- & <- & <-). apply IH.
Qed.

Lemma turns_port ps ts s : (port s = 0 \/ port s ∈ ps) -> port (fold_left turn ts s) = 0 \/ port (fold_left turn ts s) ∈ ps ++ omap port_of ts.
Proof.
  revert ps s. induction ts as [|t ts IH]; intros ps s Hs; [cbn; by rewrite app_nil_r|]. cbn [fold_left].
  specialize (IH (ps ++ option_list (port_of t)) (turn s t)). replace (ps ++ omap port_of (t :: ts)) with ((ps ++ option_list (port_of t)) ++ omap port_of ts).
  2:{ cbn. rewrite <- app_assoc. by destruct (port_of t). }
  apply IH. destruct t as [[[p|]|]| |v]; cbn in *; try (rewrite app_nil_r; done).
  destruct (listener s); cbn; set_solver.
Qed.

(** Sending: one more packet, or none. *)
Lemma send_group_sent pkt n : let (ok, n') := send_group pkt n in sent n' = sent n ++ (if ok then [pkt] else []).
Proof. unfold send_group. destruct (link n) as [|[] l]; cbn; by rewrite ?app_nil_r. Qed.

(** What has been sent since [n]: packets of [P]. *)
Definition says (P : list byte -> Prop) (n n' : Net) : Prop := exists l, sent n' = sent n ++ l /\ Forall P l.

Lemma says_refl (P : list byte -> Prop) n : says P n n.
Proof. exists []. by rewrite app_nil_r. Qed.

Lemma says_trans (P : list byte -> Prop) n1 n2 n3 : says P n1 n2 -> says P n2 n3 -> says P n1 n3.
Proof. intros (l & Hl & Pl) (l' & Hl' & Pl'). exists (l ++ l'). rewrite Hl', Hl, app_assoc. split; [done|]. by apply Forall_app. Qed.

Lemma says_group (P : list byte -> Prop) pkt n : P pkt -> says P n (send_group pkt n).2.
Proof. intros Hp. pose proof (send_group_sent pkt n) as Hs. destruct (send_group pkt n) as [[] n']; eexists; split; try exact Hs; by repeat constructor. Qed.

Lemma says_impl (P Q : list byte -> Prop) n n' : (forall k, P k -> Q k) -> says P n n' -> says Q n n'.
Proof. intros Hpq (l & Hl & Hp). exists l. split; [done|]. by eapply Forall_impl. Qed.

Lemma says_answers (P : list byte -> Prop) k a l r n : P (response (answers r)) -> says P n (answer_loop k a l r n).2.
Proof.
  intros Hp. revert a l n. induction k as [|k IH]; intros a l n; [by destruct l; apply says_refl|].
  destruct l as [|[d|] l]; [apply says_refl| |apply says_refl]. cbn [answer_loop].
  destruct (parse (take 4096 d)) as [msg|]; [|apply IH]. destruct (existsb _ _); [|apply IH].
  eapply says_trans; [by apply says_group|apply IH].
Qed.

(** One round, step by step. *)
Lemma says_drop (P : list byte -> Prop) b n :
  (forall r, responder b = Some r -> P (response (answers_with_ttl 0 r))) -> says P n (drop_responder b n).
Proof. intros Hp. unfold drop_responder. destruct (responder b) as [r|]; [|apply says_refl]. by apply says_group, Hp. Qed.

Lemma tend_spec (P : list byte -> Prop) l b n :
  (forall r, responder b = Some r -> P (response (answers r))) ->
  let (b', n') := tend l b n in
  responder b' = responder b /\ since_query b' = since_query b /\ found b' = found b /\ says P n n' /\
  (is_Some (responder b) -> since_announce b' < ANNOUNCE_EVERY).
Proof.
  intros Hp. unfold tend. destruct (responder b) as [r|] eqn:Hr.
  2:{ split_and!; try done. apply says_refl. }
  pose proof (says_answers P 32 0 l r n (Hp r eq_refl)) as Hs. unfold answer_queries. destruct (answer_loop 32 0 l r n) as [[a l'] n'].
  destruct (Z.leb_spec ANNOUNCE_EVERY (since_announce b)); cbn [responder since_query since_announce found].
  - split_and!; try done. eapply says_trans; [exact Hs|]. by apply says_group, Hp.
  - by split_and!.
Qed.

Lemma ask_spec (P : list byte -> Prop) b n :
  P (Dns.query SERVICE_TYPE) -> (forall r, responder b = Some r -> P (response (answers_with_ttl 0 r))) ->
  let (ob, n') := ask b n in
  says P n n' /\
  (forall b', ob = Some b' -> responder b' = responder b /\ since_announce b' = since_announce b /\ found b' = found b /\ since_query b' < QUERY_EVERY).
Proof.
  intros Hq Hp. unfold ask. destruct (Z.leb_spec QUERY_EVERY (since_query b)).
  - unfold query. pose proof (says_group P (Dns.query SERVICE_TYPE) n Hq) as Hs. destruct (send_group _ n) as [[] n'].
    + split; [done|]. by intros b' [= <-].
    + split; [|done]. eapply says_trans; [exact Hs|]. by apply says_drop.
  - split; [apply says_refl|]. by intros b' [= <-].
Qed.

(** *** What a round comes to *)

Record rounded (P : list byte -> Prop) (x : Reads) (b : Bound) (s s' : Lan) : Prop := mkRounded {
  rd_shared : let m := fold_left turn (meanwhile x) s in port s' = port m /\ discoverable s' = discoverable m /\ listener s' = listener m;
  rd_says : says P (hide (discoverable s) b (net s)).2 (net s');
  rd_left : bound s' = None -> published s' = published s;
  rd_stays : forall b', bound s' = Some b' ->
    responder b' = responder (appear (discoverable s) (port s') (own_addr x) (if discoverable s then b else mkBound (found b) None 0 0)) /\
    (is_Some (responder b') -> since_announce b' < ANNOUNCE_EVERY + TICK) /\
    since_query b' < QUERY_EVERY + TICK /\
    found b' = expire (now x) PEER_TTL (poll (rx x) (found b)).2 /\
    published s' = peers (found b')
}.

Lemma appear_responder v p a b b' : responder b = responder b' -> responder (appear v p a b) = responder (appear v p a b').
Proof. unfold appear. intros Hb. rewrite <- Hb. destruct (responder b) eqn:Hr, a; try congruence. destruct (_ && _); cbn; congruence. Qed.

Lemma appear_found v p a b : found (appear v p a b) = found b.
Proof. unfold appear. destruct (responder b), a; try done. by destruct (_ && _). Qed.

Lemma round_spec (P : list byte -> Prop) x b s :
  let r' := responder (appear (discoverable s) (port (fold_left turn (meanwhile x) s)) (own_addr x) (if discoverable s then b else mkBound (found b) None 0 0)) in
  P (Dns.query SERVICE_TYPE) ->
  (forall r, r' = Some r -> P (response (answers r)) /\ P (response (answers_with_ttl 0 r))) ->
  rounded P x b s (round x b s).
Proof.
  intros r' Hq Hr. unfold round. destruct (turns_rest (meanwhile x) s) as (_ & _ & Hpub). set (m := fold_left turn (meanwhile x) s) in *.
  destruct (hide (discoverable s) b (net s)) as [b0 n0] eqn:Hh.
  assert (H0 : found b0 = found b /\ responder b0 = responder (if discoverable s then b else mkBound (found b) None 0 0)).
  { unfold hide in Hh. destruct (discoverable s); cbn [negb] in Hh; by injection Hh as <- <-. }
  destruct H0 as (Hf0 & Hr0). apply (appear_responder (discoverable s) (port m) (own_addr x)) in Hr0. fold r' in Hr0.
  pose proof (appear_found (discoverable s) (port m) (own_addr x) b0) as Hf1. rewrite Hf0 in Hf1.
  set (b1 := appear (discoverable s) (port m) (own_addr x) b0) in *. clearbody b1. clear Hf0.
  pose proof (tend_spec P (asked x) b1 n0) as Ht. destruct (tend (asked x) b1 n0) as [b2 n2].
  destruct Ht as (Hr2 & Hq2 & Hf2 & Hs2 & Ha2); [intros r; rewrite Hr0; apply Hr|].
  pose proof (ask_spec P b2 n2 Hq) as Ha. destruct (ask b2 n2) as [ob n3]. destruct Ha as (Hs3 & Ha); [intros r; rewrite Hr2, Hr0; apply Hr|].
  assert (Hs : says P (hide (discoverable s) b (net s)).2 n3) by (rewrite Hh; by eapply says_trans).
  destruct ob as [b3|]; constructor; cbn [port discoverable listener net bound published]; try done.
  intros b' [= <-]. destruct (Ha b3 eq_refl) as (Hr3 & Ha3 & Hf3 & Hq3). cbn [nap browse responder since_announce since_query found].
  rewrite Hr3, Hr2, Hr0, Hf3, Hf2, Hf1, Ha3. split_and!; try done; [|lia].
  intros Hsome. rewrite <- Hr0 in Hsome. specialize (Ha2 Hsome). lia.
Qed.

(** Who advertises after [appear]. *)
Lemma appear_cases v p a b r :
  responder (appear v p a (if v then b else mkBound (found b) None 0 0)) = Some r ->
  v = true /\ (responder b = Some r \/ exists addr, a = Some addr /\ p <> 0 /\ r = new_responder addr ident p).
Proof.
  unfold appear. destruct v; cbn [responder andb].
  - destruct (responder b) as [r0|] eqn:Hr; [rewrite Hr; by intros [= ->]; auto|]. destruct a as [a|]; [|by rewrite Hr].
    destruct (Z.eqb_spec p 0); cbn [negb]; [by rewrite Hr|]. intros [= <-]. split; [done|]. right. by exists a.
  - by destruct a.
Qed.

Lemma appear_up p a b : p <> 0 -> a <> None -> responder (appear true p a b) <> None.
Proof.
  intros Hp Ha. unfold appear. destruct (responder b) as [r|] eqn:Hr; [by rewrite Hr|]. destruct a as [a|]; [|done].
  destruct (Z.eqb_spec p 0); done.
Qed.

Lemma inv_round ps x b s :
  Inv ps s -> (forall r, responder b = Some r -> honest ps r) -> Inv (ps ++ omap port_of (meanwhile x)) (round x b s).
Proof.
  intros [Hp _ Hn] Hb. set (ps' := ps ++ _). assert (Hsub : ps ⊆ ps') by set_solver.
  pose proof (turns_port ps (meanwhile x) s Hp) as Hp'. fold ps' in Hp'.
  pose proof (round_spec (honest_packet ps') x b s) as Hr. cbv zeta in Hr.
  assert (Hhon : forall r, responder (appear (discoverable s) (port (fold_left turn (meanwhile x) s)) (own_addr x)
      (if discoverable s then b else mkBound (found b) None 0 0)) = Some r -> honest ps' r).
  { intros r [_ [Hr'|(a & _ & Hz & ->)]]%appear_cases; [eapply honest_mono; [exact Hsub|]; by apply Hb|].
    exists a, (port (fold_left turn (meanwhile x) s)). split_and!; [done|done|]. by destruct Hp'. }
  destruct Hr as [[Hpt _] Hs _ Hst]; [by left| |].
  { intros r Hr'. split; right; exists r; auto. }
  constructor.
  - by rewrite Hpt.
  - intros r. unfold responder_of. destruct (bound (round x b s)) as [b'|]; [|done]. cbn. intros Hr'.
    destruct (Hst b' eq_refl) as [He _]. apply Hhon. by rewrite <- Hpt, <- He.
  - destruct Hs as (l & -> & Hl). apply Forall_app. split; [|done].
    assert (Hh : says (honest_packet ps') (net s) (hide (discoverable s) b (net s)).2).
    { unfold hide. destruct (discoverable s); cbn [negb snd]; [apply says_refl|]. apply says_drop. intros r Hr'. right. exists r.
      split; [eapply honest_mono; [exact Hsub|]; by apply Hb|by right]. }
    destruct Hh as (l' & -> & Hl'). apply Forall_app. split; [|done]. eapply Forall_impl; [exact Hn|]. intros k. by apply honest_packet_mono.
Qed.

Lemma lan_inv_step ps s l : Inv ps s -> Inv (ps ++ omap port_of (turns_of l)) (step s l).
Proof.
  intros Hi. destruct l as [t|x]; cbn [step turns_of].
  - pose proof Hi as [Hp Hr Hn]. destruct (turn_rest s t) as (Hb & Hnet & _). constructor.
    + by apply (turns_port ps [t]).
    + intros r. unfold responder_of. rewrite Hb. intros Hr'. eapply honest_mono; [|by apply Hr]. set_solver.
    + rewrite Hnet. eapply Forall_impl; [exact Hn|]. intros k. apply honest_packet_mono. set_solver.
  - unfold pass. pose proof Hi as [Hp Hr Hn]. unfold responder_of in Hr. destruct (bound s) as [b|]; [by apply inv_round|].
    destruct (can_browse x); [by apply inv_round|]. eapply lan_inv_mono; [|exact Hi]. set_solver.
Qed.

Lemma lan_inv_run ls v link : Inv (ports ls) (run (boot v link) ls).
Proof.
  induction ls as [|l ls IH] using rev_ind; [constructor; [by left|done|by constructor]|].
  unfold run. rewrite fold_left_app. cbn [fold_left]. unfold ports. rewrite bind_app, omap_app. cbn. rewrite app_nil_r. by apply lan_inv_step.
Qed.

(** ** Properties *)

(** C34: what Quick Share says on the network, in every run of the two threads and of the
    switch.  All this device ever sends to the group is queries, announcements and goodbyes, and
    the port in them is one the listener was bound to.  After a pass that found the flag down
    nothing is advertised, the pass has tried to say goodbye for what was before anything
    else, and has said nothing else but a query.  After one that found the flag up, a port and an
    address, something is, provided the inner loop still runs: when a query could not be sent
    the pass ends the loop, nothing is advertised until a later pass can open a browser again,
    and clients go on being shown the list as it was ([ToyLan.shows_who_is_gone]).  While it runs, what
    is advertised never naps for more than thirty seconds since the last announcement, nor the
    browser for more than ten since the last query, and what clients are shown is what the browser
    has, all of it heard of within a minute. *)
Theorem quick_share_advertises_what_listened v link ls x :
  let s := run (boot v link) ls in
  let s' := pass x s in
  let ps := ports (ls ++ [Pass x]) in
  Forall (honest_packet ps) (sent (net s')) /\
  (discoverable s = false ->
     responder_of s' = None /\
     says (fun k => k = Dns.query SERVICE_TYPE) (match responder_of s with Some r => stop_advertising r (net s) | None => net s end) (net s')) /\
  forall b, bound s' = Some b ->
    (forall r, responder b = Some r -> honest ps r /\ since_announce b < ANNOUNCE_EVERY + TICK) /\
    (discoverable s = true -> port s' <> 0 -> own_addr x <> None -> responder b <> None) /\
    since_query b < QUERY_EVERY + TICK /\
    published s' = peers (found b) /\
    (forall p, p ∈ published s' -> now x - q_last_seen p < PEER_TTL).
Proof.
  intros s s' ps. pose proof (lan_inv_run ls v link) as Hi. fold s in Hi.
  assert (Hi' : Inv ps s').
  { subst s' ps. unfold ports. rewrite bind_app, omap_app. cbn [mbind list_bind]. rewrite app_nil_r. by apply (lan_inv_step _ s (Pass x)). }
  destruct Hi' as [_ Hresp Hsent]. split; [exact Hsent|].
  assert (Hcase : (exists b, responder b = responder_of s /\ s' = round x b s) \/ (bound s = None /\ s' = s)).
  { subst s'. unfold pass, responder_of. destruct (bound s) as [b|]; [left; by exists b|]. destruct (can_browse x); [left|by right].
    exists (mkBound ∅ None 99000 99000). done. }
  destruct Hcase as [(b & Hb & Hs')|[Hn Hs']].
  2:{ rewrite Hs'. unfold responder_of. rewrite Hn. split; [|done]. intros _. split; [done|]. apply says_refl. }
  assert (Hgone : hide false b (net s) = (mkBound (found b) None (since_announce b) (since_query b),
            match responder_of s with Some r => stop_advertising r (net s) | None => net s end)).
  { unfold hide, drop_responder. cbn [negb]. by rewrite Hb. }
  split.
  - intros Hd. destruct (round_spec (fun k => k = Dns.query SERVICE_TYPE) x b s) as [_ Hs _ Hst]; [done| |].
    { intros r [? _]%appear_cases. congruence. }
    rewrite <- Hs' in Hs, Hst. rewrite Hd, Hgone in Hs. split; [|exact Hs]. unfold responder_of. destruct (bound s') as [b'|]; [|done].
    cbn. destruct (Hst b' eq_refl) as [-> _]. rewrite Hd. unfold appear. cbn. by destruct (own_addr x).
  - intros b' Hb'. destruct (round_spec (fun _ => True) x b s) as [[Hpt _] _ _ Hst]; [done|done|]. rewrite <- Hs' in Hst, Hpt.
    destruct (Hst b' Hb') as (Hr & Ha & Hq & Hf & Hp). split_and!; try done.
    + intros r Hr'. split; [apply Hresp; unfold responder_of; by rewrite Hb'|]. by apply Ha.
    + intros Hd Hz Haddr. rewrite Hr, Hd. by apply appear_up.
    + intros p. rewrite Hp, Hf. unfold peers. intros ([k q] & -> & [_ Hold]%elem_of_map_to_list%map_lookup_filter_Some)%list_elem_of_fmap.
      change (Z.max 0 (now x - q_last_seen q) < PEER_TTL) in Hold. cbn [snd]. clear -Hold. lia.
Qed.

End Loop.

(** ** Runs *)

Module ToyLan.

Definition ident : QsIdentity := new_identity (str "Pixel") (to_u8 <$> [1; 2; 3; 4]) (replicate 16 (to_u8 9)) [].
Definition home : list byte := to_u8 <$> [192; 168; 1; 7].

(** A pass at [t] in which no datagram arrives, and one in which the interface is gone. *)
Definition quiet (t : Z) : Label := Pass (mkReads true [] (Some home) [] [] t).
Definition offline (t : Z) : Label := Pass (mkReads false [] None [] [] t).

(** Many of a label. *)
Definition passes (n : nat) : list Label := (fun k => quiet (500 * Z.of_nat k)) <$> seq 0 n.

Definition hello (p : Z) : list byte := response (answers (new_responder home ident p)).
Definition goodbye (p : Z) : list byte := response (answers_with_ttl 0 (new_responder home ident p)).
Definition question : list byte := Dns.query SERVICE_TYPE.

(** It starts with an announcement and a question, and goes with a goodbye. *)
Example comes_and_goes :
  sent (net (run ident (boot true []) [Other (Listen (Some (Some 5200))); quiet 0; Other (Switch false); quiet 500]))
  = [hello 5200; question; goodbye 5200].
Proof. vm_compute. reflexivity. Qed.

(** Switched off and on again, it says nothing until the thirty seconds of the responder before
    are over. *)
Example returns_unannounced :
  sent (net (run ident (boot true []) ([Other (Listen (Some (Some 5200))); quiet 0; Other (Switch false); quiet 500; Other (Switch true)] ++ passes 15)))
  = [hello 5200; question; goodbye 5200].
Proof. vm_compute. reflexivity. Qed.

(** The listener has failed and has a new port; what is advertised is the old one. *)
Example advertises_a_closed_port :
  let s := run ident (boot true []) ([Other (Listen (Some (Some 5200))); quiet 0; Other AcceptFailed; Other (Listen (Some (Some 5300)))] ++ passes 60) in
  listener s = Some 5300 /\ (r_port <$> responder_of s) = Some 5200 /\ List.existsb (fun k => bool_decide (k = hello 5300)) (sent (net s)) = false.
Proof. vm_compute. done. Qed.

(** The network goes away, and with it the browser: what clients are shown stays. *)
Definition neighbour : Label :=
  Pass (mkReads true [] None [] [Some (0, response (answers (new_responder (to_u8 <$> [192; 168; 1; 8])
    (new_identity (str "Tablet") (to_u8 <$> [5; 6; 7; 8]) (replicate 16 (to_u8 9)) []) 6000)))] 0).
Example shows_who_is_gone :
  let s := run ident (boot false (true :: repeat false 5)) ([neighbour] ++ passes 20 ++ repeat (offline 3600000) 100) in
  bound s = None /\ (q_port <$> published s) = [6000].
Proof. vm_compute. done. Qed.

End ToyLan.
