(* ===== verification/Steps.v ===== *)
(** * What a session does to its world

    The sessions of [Connection] and [Outbound] reach the daemon, the clients and the network
    only through the operations of their classes.  So whatever those operations keep, a session
    keeps, for any peer: the lemmas here turn what an implementation of the classes promises,
    one operation at a time, into what holds of every run. *)

From S2P Require Import Prelude Crypto Framing Frames Sharing Channel Ukey2Crypto Handshake Fsm Payload Upgrade Stream Connection Outbound.
From S2P Require Http Send.

#[local] Set Default Proof Using "Type*".

(** The link of each kind of state. *)
Class Linked `{World} `{Rand} (S : Type) : Type := link_of : S -> Link.
#[export] Instance linked_link `{World} `{Rand} : Linked Link := fun l => l.
#[export] Instance linked_plain `{World} `{Rand} : Linked Plain := p_link.
#[export] Instance linked_conn `{World} `{Rand} : Linked Conn := link.

Section Keeps.
Context `{World} `{Rand} `{Hmac} `{Cipher} `{Memcmp}.
(** What is to be kept, of the world and of what was observed. *)
Context (I : world -> list Obs -> Prop).

Definition holds {S : Type} `{!Linked S} (s : S) : Prop := I (wld (link_of s)) (trace (link_of s)).
Definition keeps {S : Type} `{!Linked S} {A} (m : M S A) : Prop := forall s, holds s -> holds (m s).2.

(** An operation of the world that is not observed. *)
Definition calm {A} (f : world -> A * world) : Prop := forall w tr, I w tr -> I (f w).2 tr.

(** What is observed without meaning anything for [I]. *)
Definition ordinary (o : Obs) : Prop :=
  match o with Asked _ _ _ _ | Opened _ _ => False | _ => True end.

Record steady : Prop := mkSteady {
  st_log : forall w tr o, ordinary o -> I w tr -> I w (tr ++ [o]);
  st_write : forall s b, calm (write_all s b);
  st_ready : calm ready_within;
  st_rounds : calm rounds;
  st_clone : forall s, calm (try_clone s);
  st_cancelled : calm cancelled;
  st_notice : forall n w tr, I w tr -> I (notice n w) tr
}.

Section Walk.
Context {S : Type} `{!Linked S}.

Lemma keeps_ret {A} (a : A) : keeps (ret a : M S A).
Proof. by intros s. Qed.
Lemma keeps_throw {A} e : keeps (throw e : M S A).
Proof. by intros s. Qed.
Lemma keeps_lift {A} (r : result A IoError) : keeps (lift r : M S A).
Proof. by intros s. Qed.
Lemma keeps_invalid {A E} (r : result A E) : keeps (invalid r : M S A).
Proof. intros s. by destruct r. Qed.
Lemma keeps_bind {A B} (m : M S A) (k : A -> M S B) : keeps m -> (forall a, keeps (k a)) -> keeps (mbind m k).
Proof. intros Hm Hk s Hs. unfold mbind. specialize (Hm s Hs). destruct (m s) as [[a|e] s']; [by apply Hk|done]. Qed.
Lemma keeps_attempt {A} (m : M S A) : keeps m -> keeps (attempt m).
Proof. intros Hm s Hs. unfold attempt. specialize (Hm s Hs). by destruct (m s). Qed.
(** A step that leaves the link's world and trace alone. *)
Lemma keeps_same {A} (m : M S A) :
  (forall s, wld (link_of (m s).2) = wld (link_of s) /\ trace (link_of (m s).2) = trace (link_of s)) -> keeps m.
Proof. intros Hm s Hs. unfold holds. by destruct (Hm s) as [-> ->]. Qed.
End Walk.

Lemma keeps_on_link {A} (m : M Link A) : keeps m -> keeps (on_link m).
Proof. intros Hm c Hc. specialize (Hm (link c) Hc). unfold on_link. by destruct (m (link c)). Qed.
Lemma keeps_plain_link {A} (m : M Link A) : keeps m -> keeps (plain_link m).
Proof. intros Hm p Hp. specialize (Hm (p_link p) Hp). unfold plain_link. by destruct (m (p_link p)). Qed.
Lemma keeps_ask_world {A} (f : world -> A * world) : calm f -> keeps (ask_world f : M Link A).
Proof.
  intros Hf l Hl. specialize (Hf (wld l) (trace l) Hl). unfold ask_world. by destruct (f (wld l)).
Qed.
Lemma keeps_plain_next : keeps plain_next.
Proof. apply keeps_same. intros p. unfold plain_next. by destruct (FrameStream.next _). Qed.
Lemma keeps_with_gen {A E} (f : rng -> result A E * rng) : keeps (with_gen f).
Proof. apply keeps_same. intros p. unfold with_gen. by destruct (f _) as [[a|e] g]. Qed.
Lemma keeps_encrypt b : keeps (encrypt_ b).
Proof. apply keeps_same. intros c. unfold encrypt_. by destruct (Channel.encrypt b _ _) as [[[w|e] ch] g]. Qed.
Lemma keeps_decrypt b : keeps (decrypt_ b).
Proof. apply keeps_same. intros c. unfold decrypt_. by destruct (Channel.decrypt b _) as [[w|e] ch]. Qed.
Lemma keeps_next : keeps next_.
Proof. apply keeps_same. intros c. unfold next_. by destruct (FrameStream.next _). Qed.
Lemma keeps_push b : keeps (push_deferred b).
Proof. by apply keeps_same. Qed.
Lemma keeps_pop : keeps pop_deferred.
Proof. apply keeps_same. intros c. unfold pop_deferred. by destruct (deferred c). Qed.
Lemma keeps_swap i s : keeps (swap i s).
Proof. by apply keeps_same. Qed.

End Keeps.

Create HintDb keeps.
#[export] Hint Resolve keeps_ret keeps_throw keeps_lift keeps_invalid keeps_on_link keeps_plain_link keeps_ask_world
  keeps_plain_next keeps_with_gen keeps_encrypt keeps_decrypt keeps_next keeps_push keeps_pop keeps_swap : keeps.

#[export] Hint Extern 1 (ordinary _) => constructor : keeps.

(** Walk through a computation, by the hints and whatever is known of the world's operations. *)
Ltac keeps :=
  lazymatch goal with
  | |- keeps _ (mbind _ _) => apply keeps_bind; [keeps|intros; keeps]
  | |- keeps _ (attempt _) => apply keeps_attempt; keeps
  | |- keeps _ (let _ := _ in _) => cbv zeta; keeps
  | |- keeps _ (on_link (mbind _ _)) => apply keeps_on_link; keeps
  | |- keeps _ (on_link (if ?b then _ else _)) => destruct b; keeps
  | |- keeps _ (if ?b then _ else _) => destruct b; keeps
  | |- keeps _ (match ?x with _ => _ end) => destruct x; keeps
  | |- _ => try solve [auto 6 with keeps]
  end.

Section Common.
Context `{World} `{Rand} `{Hmac} `{Cipher} `{Memcmp}.
Context (I : world -> list Obs -> Prop) (Hs : steady I).

Lemma keeps_log o : ordinary o -> keeps I (log o).
Proof. intros Ho l Hl. by apply (st_log I Hs). Qed.

Lemma calm_next_within i : calm I (fun w => let '(r, i, w) := FrameStream.next_within i w in ((r, i), w)).
Proof.
  intros w tr Hw. unfold FrameStream.next_within. pose proof (st_rounds I Hs w tr Hw) as Hr. destruct (rounds w) as [n w1]. cbn [snd] in Hr.
  assert (Hall : forall n st d w, I w tr -> I (FrameStream.next_within_loop n st d w).2 tr); last first.
  { specialize (Hall n (FrameStream.stream i) (FrameStream.decoder i) w1 Hr).
    by destruct (FrameStream.next_within_loop _ _ _ _) as [[r i'] w']. }
  intros k. induction k as [|k IH]; intros st d v Hv; cbn [FrameStream.next_within_loop];
    destruct (Decoder.next_frame d) as [[[f|]|e] d']; try done.
  pose proof (st_ready I Hs v tr Hv) as Hv2. destruct (ready_within v) as [[[]|] w2]; cbn [snd] in Hv2; try done.
  destruct st as [|[b|] st]; try done. destruct (is_empty b); [done|]. by apply IH.
Qed.

Lemma keeps_next_within : keeps I next_within_.
Proof.
  intros c Hc. pose proof (calm_next_within (input c) (wld (link c)) (trace (link c)) Hc) as Hn. cbv beta in Hn. unfold next_within_.
  by destruct (FrameStream.next_within _ _) as [[r i] w].
Qed.

#[local] Hint Resolve keeps_log keeps_next_within calm_next_within : keeps.

Lemma keeps_notify n : keeps I (notify n).
Proof. unfold notify. apply keeps_bind; [|intros; by apply keeps_log]. apply keeps_ask_world. intros w tr. apply (st_notice I Hs). Qed.

Lemma keeps_write_frame_to s b : keeps I (write_frame_to s b).
Proof. unfold write_frame_to. apply keeps_bind; [apply keeps_ask_world, Hs|]. intros []; [by apply keeps_log|apply keeps_throw]. Qed.

Lemma keeps_write_frame b : keeps I (write_frame b).
Proof. intros l. apply keeps_write_frame_to. Qed.

#[local] Hint Resolve keeps_notify keeps_write_frame_to keeps_write_frame : keeps.

Lemma keeps_send_frame b : keeps I (send_frame b).
Proof. unfold send_frame. keeps. Qed.

#[local] Hint Resolve keeps_send_frame : keeps.

Lemma keeps_send_each bs : keeps I (send_each bs).
Proof. induction bs; cbn [send_each]; keeps. Qed.

Lemma keeps_next_of i : keeps I (next_of i).
Proof. unfold next_of. keeps. Qed.

Lemma keeps_cancelled : keeps I (on_link (ask_world cancelled)).
Proof. apply keeps_on_link, keeps_ask_world, Hs. Qed.
Lemma keeps_rounds : keeps I (on_link (ask_world rounds)).
Proof. apply keeps_on_link, keeps_ask_world, Hs. Qed.
Lemma keeps_clone s : keeps I (on_link (ask_world (try_clone s))).
Proof. apply keeps_on_link, keeps_ask_world, Hs. Qed.

End Common.

#[export] Hint Resolve keeps_log keeps_next_within calm_next_within keeps_notify keeps_write_frame_to keeps_write_frame
  keeps_send_frame keeps_send_each keeps_next_of keeps_cancelled keeps_rounds keeps_clone : keeps.

(** ** The receiving session *)

Section Receiving.
Context `{Host} `{Ec} `{Digest} `{Hmac} `{Cipher} `{Memcmp}.
Context (I : world -> list Obs -> Prop).

(** What the rest of the host's operations have to do: a question and the opening of a file
    are taken together with what is observed of them. *)
Record hospitable : Prop := mkHospitable {
  hs_ask : forall p fs w tr, I w tr -> let (a, w) := ask id p fs w in I w (tr ++ [Asked id p fs a]);
  hs_create : forall pid name w tr, I w tr ->
    match create name w with (Some _, w) => I w (tr ++ [Opened pid name]) | (None, w) => I w tr end;
  hs_sink_write : forall k b, calm I (sink_write k b);
  hs_sink_flush : forall k, calm I (sink_flush k);
  hs_group : calm I host_group;
  hs_worker : calm I worker_finished;
  hs_bind : calm I bind;
  hs_port : calm I local_port;
  hs_accept : calm I accept
}.

Context (Hs : steady I) (Hh : hospitable).

Lemma keeps_call {A} (f : world -> A * world) : calm I f -> keeps I (on_link (ask_world f)).
Proof. intros Hf. by apply keeps_on_link, keeps_ask_world. Qed.

#[local] Hint Resolve keeps_call hs_sink_write hs_sink_flush hs_group hs_worker hs_bind hs_port hs_accept : keeps.

Lemma keeps_drain_loop {A} n (ready : A -> world -> bool * A * world) a spent held :
  (forall a, calm I (fun w => let '(r, a, w) := ready a w in ((r, a), w))) -> keeps I (drain_loop n ready a spent held).
Proof.
  intros Hr. revert a spent held. induction n as [|n IH]; intros a spent held; cbn [drain_loop]; keeps.
Qed.

Lemma keeps_drain_old {A} (ready : A -> world -> bool * A * world) a held :
  (forall a, calm I (fun w => let '(r, a, w) := ready a w in ((r, a), w))) -> keeps I (drain_old ready a held).
Proof. intros Hr. unfold drain_old. keeps. by apply keeps_drain_loop. Qed.

Lemma calm_worker_ready a : calm I (fun w => let '(r, a, w) := worker_ready a w in ((r, a), w)).
Proof. intros w tr Hw. unfold worker_ready. pose proof (hs_worker Hh w tr Hw). by destruct (worker_finished w). Qed.

Lemma calm_accept_ready j : calm I (fun w => let '(r, a, w) := accept_ready j w in ((r, a), w)).
Proof. intros w tr Hw. unfold accept_ready. pose proof (hs_accept Hh w tr Hw). by destruct (accept w) as [[] w']. Qed.

Lemma keeps_release_loop n : keeps I (release_loop n).
Proof. induction n; cbn [release_loop]; keeps. Qed.

Lemma keeps_decline : keeps I decline.
Proof. unfold decline. keeps. Qed.

#[local] Hint Resolve keeps_drain_old calm_worker_ready calm_accept_ready keeps_release_loop keeps_decline : keeps.

Lemma keeps_hand_over s i : keeps I (hand_over s i).
Proof. unfold hand_over. keeps. Qed.

#[local] Hint Resolve keeps_hand_over : keeps.

Lemma keeps_offer_group : keeps I offer_group.
Proof. unfold offer_group. keeps. Qed.

Lemma keeps_finish s : keeps I (Connection.finish s).
Proof. unfold Connection.finish. keeps. Qed.

#[local] Hint Resolve keeps_offer_group keeps_finish : keeps.

Lemma keeps_question {A} p fs (k : bool -> M Conn A) :
  (forall a, keeps I (k a)) ->
  keeps I (let! a := on_link (ask_world (ask id p fs)) in do! on_link (log (Asked id p fs a)) in k a).
Proof.
  intros Hk c Hc. pose proof (hs_ask Hh p fs (wld (link c)) (trace (link c)) Hc) as Ha. unfold mbind, on_link, ask_world. cbn.
  destruct (ask id p fs (wld (link c))) as [a w]. by apply (Hk a (mkConn _ _ _ _)).
Qed.

Lemma keeps_perform slow peer e s : keeps I (Connection.perform slow peer e s).
Proof.
  destruct e as [f|i|i|i| |why|]; cbn [Connection.perform]; try (destruct (wrap_bytes _ f) as [next wires]);
    [keeps| |keeps..].
  apply keeps_bind; [keeps|intros _]. apply keeps_question. keeps.
Qed.

Lemma keeps_perform_all slow peer batch s : keeps I (Connection.perform_all slow peer batch s).
Proof.
  revert s. induction batch as [|e batch IH]; intros s; cbn [Connection.perform_all]; [apply keeps_ret|].
  apply keeps_bind; [apply keeps_perform|]. intros []; [apply IH|apply keeps_ret].
Qed.

Lemma keeps_sink_for pid name s : keeps I (sink_for pid name s).
Proof.
  unfold sink_for. destruct (sinks s !! pid) as [k|]; [apply keeps_ret|].
  intros c Hc. pose proof (hs_create Hh pid name (wld (link c)) (trace (link c)) Hc) as Hw. unfold mbind, on_link, ask_world. cbn.
  by destruct (create name (wld (link c))) as [[k|] w].
Qed.

Lemma keeps_close_sink pid k s : keeps I (close_sink pid k s).
Proof. unfold close_sink. keeps. Qed.

#[local] Hint Resolve keeps_sink_for keeps_close_sink : keeps.

Lemma keeps_write_chunk pid k data last s : keeps I (write_chunk pid k data last s).
Proof. unfold write_chunk. keeps. Qed.

#[local] Hint Resolve keeps_write_chunk : keeps.

Lemma keeps_on_payload pt s : keeps I (on_payload pt s).
Proof. unfold on_payload, store. destruct (Assembler.accept pt (Connection.assembler s)) as [r a]. keeps. Qed.

Lemma keeps_on_upgrade slow body s : keeps I (on_upgrade slow body s).
Proof. unfold on_upgrade. keeps. Qed.

#[local] Hint Resolve keeps_on_payload keeps_on_upgrade keeps_perform_all : keeps.

Lemma keeps_iteration slow peer s : keeps I (Connection.iteration slow peer s).
Proof. unfold Connection.iteration, Connection.on_offline. keeps. Qed.

Lemma keeps_rounds_of n slow peer s c : holds I c -> holds I (Connection.rounds_of n slow peer s c).2.
Proof.
  revert s c. induction n as [|n IH]; intros s c Hc; cbn [Connection.rounds_of]; [done|].
  pose proof (keeps_iteration slow peer s c Hc) as Hi. destruct (Connection.iteration slow peer s c) as [[[s'|o]|e] c']; [by apply IH|done..].
Qed.

Lemma keeps_establish : keeps I establish.
Proof. unfold establish. keeps. Qed.

(** A receiving session keeps what its host's operations keep. *)
Lemma serve_keeps n stream s bootstrap w g : I w [] -> holds I (serve n stream s bootstrap w g).2.
Proof.
  intros Hw. unfold serve. set (p0 := mkPlain _ _). pose proof (keeps_establish p0 Hw) as He.
  destruct (establish p0) as [[[peer ch]|e] p]; [|exact He]. destruct (session _) as [sess g'].
  set (c0 := mkConn _ _ _ _). pose proof (keeps_rounds_of n (bool_decide (bootstrap = Medium.Bluetooth)) peer sess c0 He) as Hr.
  by destruct (Connection.rounds_of _ _ _ _ _).
Qed.

End Receiving.

(** ** The sending session *)

Section Sending.
Context `{Sender} `{Ec} `{Digest} `{Hmac} `{Cipher} `{Memcmp}.
Context (I : world -> list Obs -> Prop).

Record sendable : Prop := mkSendable {
  sn_random : forall n, calm I (getrandom n);
  sn_pin : forall p, calm I (confirm_pin p);
  sn_join : forall j, calm I (join_wifi j);
  sn_connect : forall ip port, calm I (connect ip port);
  sn_unacked : forall s, calm I (unacked s)
}.

Context (Hs : steady I) (Hn : sendable).

Lemma keeps_ask_ {A} (f : world -> A * world) : calm I f -> keeps I (on_link (ask_world f)).
Proof. intros Hf. by apply keeps_on_link, keeps_ask_world. Qed.

#[local] Hint Resolve keeps_ask_ sn_random sn_pin sn_join sn_connect sn_unacked : keeps.

Lemma keeps_acquire path : keeps I (acquire path).
Proof. unfold acquire. keeps. Qed.

Lemma keeps_adopt_loop n r : keeps I (adopt_loop n r).
Proof. revert r. induction n; intros r; cbn [adopt_loop]; keeps. Qed.

#[local] Hint Resolve keeps_acquire keeps_adopt_loop : keeps.

Lemma keeps_adopt_on path eid s : keeps I (adopt_on path eid s).
Proof. unfold adopt_on. keeps. Qed.

#[local] Hint Resolve keeps_adopt_on : keeps.

Lemma keeps_on_upgrade_frame body eid : keeps I (on_upgrade_frame body eid).
Proof. unfold on_upgrade_frame, adopt. keeps. Qed.

#[local] Hint Resolve keeps_on_upgrade_frame : keeps.

Lemma keeps_wait n eid : keeps I (wait_loop n eid).
Proof. induction n; cbn [wait_loop]; keeps. Qed.

Lemma keeps_send_loop fuel h r off done_ total_ : keeps I (send_loop fuel h r off done_ total_).
Proof.
  revert r off done_. induction fuel as [|fuel IH]; intros r off done_; cbn [send_loop]; [apply keeps_throw|].
  apply keeps_bind; [by apply keeps_cancelled|]. intros []; [apply keeps_ret|]. destruct (fill CHUNK [] r) as [b r']. keeps.
Qed.

#[local] Hint Resolve keeps_wait keeps_send_loop : keeps.

Lemma keeps_send_files fs done_ total_ : keeps I (send_files fs done_ total_).
Proof. revert done_. induction fs as [|[f pid] fs IH]; intros done_; cbn [send_files]; unfold send_one; keeps. Qed.

Lemma keeps_unacked_loop n fd : keeps I (unacked_loop n fd).
Proof. induction n; cbn [unacked_loop]; keeps. Qed.

#[local] Hint Resolve keeps_send_files keeps_unacked_loop : keeps.

Lemma keeps_perform_ p e s : keeps I (perform p e s).
Proof.
  destruct e as [f|i|i|i| |why|]; cbn [perform]; try (destruct (wrap_bytes _ f) as [next wires]); unfold wait_for_upgrade, finish_cleanly; keeps.
Qed.

Lemma keeps_perform_all_ p batch s : keeps I (perform_all p batch s).
Proof.
  revert s. induction batch as [|e batch IH]; intros s; cbn [perform_all]; [apply keeps_ret|].
  apply keeps_bind; [apply keeps_perform_|]. intros []; [apply IH|apply keeps_ret].
Qed.

#[local] Hint Resolve keeps_perform_all_ : keeps.

Lemma keeps_listen p s : keeps I (listen p s).
Proof. unfold listen, on_offline. keeps; destruct (Assembler.accept _ _) as [r a']; keeps. Qed.

#[local] Hint Resolve keeps_listen : keeps.

Lemma keeps_round p s : keeps I (iteration p s).
Proof. unfold iteration, solicit, check_pin. keeps. Qed.

Lemma keeps_all_rounds n p s c : holds I c -> holds I (rounds_of n p s c).2.
Proof.
  revert s c. induction n as [|n IH]; intros s c Hc; cbn [rounds_of]; [done|].
  pose proof (keeps_round p s c Hc) as Hi. destruct (iteration p s c) as [[[s'|o]|e] c']; [by apply IH|done..].
Qed.

Lemma keeps_payload_ids {A} (fs : list A) : keeps I (payload_ids fs).
Proof. induction fs; cbn [payload_ids]; keeps. Qed.

#[local] Hint Resolve keeps_payload_ids : keeps.

Lemma keeps_open name eid boot mediums fs : keeps I (open_session name eid boot mediums fs).
Proof. unfold open_session, greet. keeps. Qed.

(** A sending session keeps what its operations keep. *)
Lemma send_keeps n stream s name eid boot mediums fs w g : I w [] -> holds I (send n stream s name eid boot mediums fs w g).2.
Proof.
  intros Hw. unfold send. set (p0 := mkPlain _ _). pose proof (keeps_open name eid boot mediums fs p0 Hw) as He.
  destruct (open_session _ _ _ _ _ p0) as [[[[plan ch] se]|e] p]; [|exact He].
  set (c0 := mkConn _ _ _ _). pose proof (keeps_all_rounds n plan se c0 He) as Hr. by destruct (rounds_of n plan se c0).
Qed.

End Sending.

(** ** The AirDrop client *)

Section Airdrop.
Context `{Send.Network} `{Send.Gzip} `{Send.Odc}.
Context (I : Send.world -> Prop).

Definition safe {A} (f : Send.world -> A * Send.world) : Prop := forall w, I w -> I (f w).2.

Record networked : Prop := mkNetworked {
  nw_connected : safe Send.connected;
  nw_write : forall b, safe (Send.write_all b);
  nw_flush : safe Send.flush;
  nw_ready : safe Send.ready;
  nw_cancelled : safe Send.cancelled;
  nw_progress : forall d t w, I w -> I (Send.progress d t w)
}.

Context (Hn : networked).

Definition preserves {A} (m : Send.M A) : Prop := forall s, I (Send.wld s) -> I (Send.wld (m s).2).

Lemma preserves_ret {A} (a : A) : preserves (Send.ret a).
Proof. by intros s. Qed.
Lemma preserves_throw {A} e : preserves (Send.throw e : Send.M A).
Proof. by intros s. Qed.
Lemma preserves_bind {A B} (m : Send.M A) (k : A -> Send.M B) : preserves m -> (forall a, preserves (k a)) -> preserves (Send.bind m k).
Proof. intros Hm Hk s Hs. unfold Send.bind. specialize (Hm s Hs). destruct (m s) as [[a|e] s']; [by apply Hk|done]. Qed.
Lemma preserves_asking {A} (f : Send.world -> A * Send.world) : safe f -> preserves (Send.asking f).
Proof. intros Hf s Hs. unfold Send.asking. specialize (Hf _ Hs). by destruct (f (Send.wld s)). Qed.
Lemma preserves_write b : preserves (Send.write b).
Proof. intros s Hs. unfold Send.write. pose proof (nw_write Hn b _ Hs) as Hw. by destruct (Send.write_all b (Send.wld s)) as [[] w]. Qed.
Lemma preserves_response : preserves Send.response_.
Proof. intros s Hs. unfold Send.response_. by destruct (Send.read_response _) as [[a|[p|]] r]. Qed.

Create HintDb preserves.
#[local] Hint Resolve preserves_ret preserves_throw preserves_asking preserves_write preserves_response nw_connected nw_flush
  nw_ready nw_cancelled : preserves.

Ltac preserves :=
  lazymatch goal with
  | |- preserves (Send.bind _ _) => apply preserves_bind; [preserves|intros; preserves]
  | |- preserves (let _ := _ in _) => cbv zeta; preserves
  | |- preserves (if ?b then _ else _) => destruct b; preserves
  | |- preserves (match ?x with _ => _ end) => destruct x; preserves
  | |- _ => try solve [auto with preserves]
  end.

Lemma preserves_report d t : preserves (Send.report d t).
Proof. apply preserves_asking. intros w. apply (nw_progress Hn). Qed.

Lemma preserves_flush : preserves Send.flush_.
Proof. unfold Send.flush_. preserves. Qed.

#[local] Hint Resolve preserves_report preserves_flush : preserves.

Lemma preserves_request path body k : preserves (Send.request path body k).
Proof. unfold Send.request. preserves. Qed.

Lemma preserves_wait_answer n : preserves (Send.wait_answer n).
Proof. induction n; cbn [Send.wait_answer]; preserves. Qed.

Lemma preserves_write_chunks ps : preserves (Send.write_chunks ps).
Proof. induction ps; cbn [Send.write_chunks]; unfold Send.write_chunk; preserves. Qed.

Lemma preserves_end_chunks : preserves Send.end_chunks.
Proof. unfold Send.end_chunks. preserves. Qed.

#[local] Hint Resolve preserves_request preserves_wait_answer preserves_write_chunks preserves_end_chunks : preserves.

Lemma preserves_gz_write b g : preserves (Send.gz_write_ b g).
Proof. unfold Send.gz_write_. destruct (Send.gz_write b g). preserves. Qed.

#[local] Hint Resolve preserves_gz_write : preserves.

Lemma preserves_gz_writes bs g : preserves (Send.gz_writes bs g).
Proof. revert g. induction bs; intros g; cbn [Send.gz_writes]; preserves. Qed.

Lemma preserves_counting_read c : preserves (Send.counting_read c).
Proof. unfold Send.counting_read. preserves. Qed.

Lemma preserves_copy fuel n c g : preserves (Send.copy fuel n c g).
Proof.
  revert n c g. induction fuel as [|fuel IH]; intros n c g; cbn [Send.copy]; [apply preserves_throw|]. intros s Hs.
  pose proof (preserves_counting_read c s Hs) as Hr. destruct (Send.counting_read c s) as [[[b c']|[]] s'];
    cbn [snd] in Hr; try done; [|by apply IH].
  destruct (is_empty b); [done|]. apply preserves_bind; [apply preserves_gz_write| |done]. intros g'. apply IH.
Qed.

#[local] Hint Resolve preserves_gz_writes preserves_copy : preserves.

Lemma preserves_send_items fuel total n d items g : preserves (Send.send_items fuel total n d items g).
Proof. revert n d g. induction items as [|i items IH]; intros n d g; cbn [Send.send_items]; preserves. Qed.

#[local] Hint Resolve preserves_send_items : preserves.

(** The AirDrop client keeps what its network keeps. *)
Lemma airdrop_preserves fuel sid items name_ model : preserves (Send.send fuel sid items name_ model).
Proof. unfold Send.send, Send.offer, Send.connect, Send.upload. preserves. Qed.

End Airdrop.
