(* ===== verification/Daemon.v ===== *)
(** * The daemon around a session ([sharingd/src/main.rs], [QsHost] and [TransferProgress])

    What a running transfer shares with the rest of the daemon (the transfer table, the list of
    clients, the inbox, the policy), and how it reaches them: the two types that implement the
    traits of [Connection] and [Outbound], as instances of their classes.  The theorem is about
    the receiving session in this daemon: what ends up in the inbox, and who was asked. *)

From stdpp Require Import gmap.
From S2P Require Import Prelude Utf8 Text Crypto Ukey2Crypto Sharing Upgrade Inbox Stream Steps.
From S2P Require Mdns Peers Discovery Device Visibility Transfers Connection Outbound.

Definition PROTOCOL_QUICKSHARE : Z := 1.

(** ** What is around the daemon *)

(** Descriptors, sockets and files alike, are read through what their reads return.  [gone]
    tells that a call found its client dead; a deadline is a number of rounds of the loop that
    waits for it; [denied] are the paths the system refuses to create or remove. *)
Class System : Type := {
  Client : Type;
  Fd : Type;
  net : Type;
  reads : Fd -> list Read;
  dup : Fd -> net -> option Fd * net;
  file_len : Fd -> net -> option Z * net;
  put : Fd -> list byte -> net -> bool * net;
  readable : net -> option bool * net;
  deadline : net -> nat * net;
  dial : Outbound.IpAddr -> Z -> net -> option Fd * net;
  unsent : Fd -> net -> option Z * net;
  entropy : Z -> net -> list byte * net;
  listen : net -> bool * net;
  listening_on : net -> option Z * net;
  arrives : net -> AcceptResult Fd * net;
  worker_done : net -> bool * net;
  gone : Client -> net -> bool * net;
  shut : Fd -> net -> net;
  writes : net -> bool * net;
  denied : list byte -> bool
}.

Record TarishGroup : Type := mkGroup {
  gr_ssid : list byte;
  gr_passphrase : list byte;
  gr_goAddress : list byte;
  gr_frequency : Z
}.

Record TarishUpgrade : Type := mkUpgrade {
  tu_medium : Z;
  tu_ssid : list byte;
  tu_passphrase : list byte;
  tu_gateway : list byte;
  tu_port : Z;
  tu_frequency : Z
}.

(** The one-way calls of [ITarishCallback] that a transfer makes. *)
Inductive Call : Type :=
| OnTransferOffered (id : Z) (from : list byte) (names : list (list byte)) (total protocol : Z)
| OnTransferProgress (id done total : Z)
| OnTransferFinished (id status : Z)
| OnUpgradeNeeded (id : Z) (u : TarishUpgrade)
| OnGroupNeeded (id : Z).

Section Daemon.
Context `{System} `{Rand}.

Abbreviation Table := (@Transfers.St Fd Fd TarishGroup).

(** What threads share; a lock that somebody panicked under is [None]. *)
Record Daemon : Type := mkDaemon {
  table : Table;
  fs : Fs;
  callbacks : option (list Client);
  auto_accept : bool;
  policy : option Visibility.TarishPolicy;
  published : option (list Mdns.Peer);
  accepting : option Peers.AcceptState;
  qs_lan : option (list Discovery.QsPeer);
  props : Device.Properties;
  clock : Z
}.

Definition set_table (t : Table) (d : Daemon) : Daemon :=
  mkDaemon t (fs d) (callbacks d) (auto_accept d) (policy d) (published d) (accepting d) (qs_lan d) (props d) (clock d).
Definition set_fs (f : Fs) (d : Daemon) : Daemon :=
  mkDaemon (table d) f (callbacks d) (auto_accept d) (policy d) (published d) (accepting d) (qs_lan d) (props d) (clock d).
Definition set_callbacks (cs : list Client) (d : Daemon) : Daemon :=
  mkDaemon (table d) (fs d) (Some cs) (auto_accept d) (policy d) (published d) (accepting d) (qs_lan d) (props d) (clock d).
Definition set_published (ps : option (list Mdns.Peer)) (d : Daemon) : Daemon :=
  mkDaemon (table d) (fs d) (callbacks d) (auto_accept d) (policy d) ps (accepting d) (qs_lan d) (props d) (clock d).
Definition set_accepting (a : option Peers.AcceptState) (d : Daemon) : Daemon :=
  mkDaemon (table d) (fs d) (callbacks d) (auto_accept d) (policy d) (published d) a (qs_lan d) (props d) (clock d).

(** What a thread does that others can see, for the theorems: calls to clients, the answer to
    an offer ([Waived] is the standing switch), files created and removed in the inbox, whether
    it got the radio, the slot it claims and frees. *)
Inductive Act : Type :=
| Called (c : Client) (e : Call)
| Waived
| Heard (id : Z) (yes : bool)
| Created (path : list byte)
| Removed (path : list byte)
| Armed (yes : bool)
| Began (id : Z)
| Ended (id : Z).

(** A thread: [others] is what other threads do before each of its accesses, [waits] what they
    do between the passes of each of its waits, [asks] how often a repeated question is asked
    before its deadline; [created] are the files it has opened. *)
Record Job : Type := mkJob {
  daemon : Daemon;
  others : list (Daemon -> Daemon);
  waits : list (list (Daemon -> Daemon));
  asks : list nat;
  created : list (list byte);
  sys : net;
  gen : rng;
  acts : list Act
}.

Definition J (A : Type) : Type := Job -> A * Job.
Definition pure {A} (a : A) : J A := fun j => (a, j).
Definition andthen {A B} (m : J A) (k : A -> J B) : J B := fun j => let (a, j) := m j in k a j.

#[local] Notation "'let*' x ':=' m 'in' k" := (andthen m (fun x => k))
  (at level 10, x pattern, m at level 100, k at level 200).
#[local] Notation "'do*' m 'in' k" := (andthen m (fun _ => k))
  (at level 10, m at level 100, k at level 200).

Definition with_daemon (d : Daemon) (j : Job) : Job :=
  mkJob d (others j) (waits j) (asks j) (created j) (sys j) (gen j) (acts j).
Definition with_gen (g : rng) (j : Job) : Job :=
  mkJob (daemon j) (others j) (waits j) (asks j) (created j) (sys j) g (acts j).

(** Another thread's turn. *)
Definition interfere (j : Job) : Job :=
  match others j with
  | [] => j
  | o :: os => mkJob (o (daemon j)) os (waits j) (asks j) (created j) (sys j) (gen j) (acts j)
  end.

(** One access to what is shared; [held] is one under a lock that is still held. *)
Definition held {A} (f : Daemon -> A * Daemon) : J A :=
  fun j => let (a, d) := f (daemon j) in (a, with_daemon d j).
Definition access {A} (f : Daemon -> A * Daemon) : J A := fun j => held f (interfere j).
Definition look {A} (f : Daemon -> A) : J A := access (fun d => (f d, d)).
Definition on_table {A} (f : Table -> A * Table) : J A :=
  access (fun d => let (a, t) := f (table d) in (a, set_table t d)).
Definition change_table (f : Table -> Table) : J unit := on_table (fun t => (tt, f t)).

Definition syscall {A} (f : net -> A * net) : J A :=
  fun j => let (a, n) := f (sys j) in
           (a, mkJob (daemon j) (others j) (waits j) (asks j) (created j) n (gen j) (acts j)).
Definition act (a : Act) : J unit :=
  fun j => (tt, mkJob (daemon j) (others j) (waits j) (asks j) (created j) (sys j) (gen j) (acts j ++ [a])).

(** What happens during the next wait; how often the next question is asked. *)
Definition turns : J (list (Daemon -> Daemon)) :=
  fun j => (default [] (head (waits j)),
            mkJob (daemon j) (others j) (tail (waits j)) (asks j) (created j) (sys j) (gen j) (acts j)).
Definition patience : J nat :=
  fun j => (default O (head (asks j)),
            mkJob (daemon j) (others j) (waits j) (tail (asks j)) (created j) (sys j) (gen j) (acts j)).

(** A wait for an entry of the table. *)
Definition awaiting {A} (pass : Table -> Transfers.Pass A * Table) (dflt : A) : J A :=
  let* ts := turns in
  access (Transfers.await (fun d => let (p, t) := pass (table d) in (p, set_table t d)) dflt ts).

(** *** Calling the clients *)

(** The clients that are left once the dead ones are dropped. *)
Fixpoint ring (cs : list Client) (e : Call) : J (list Client) :=
  match cs with
  | [] => pure []
  | c :: cs =>
      do* act (Called c e) in
      let* dead := syscall (gone c) in
      let* rest := ring cs e in
      pure (if dead then rest else c :: rest)
  end.

(** [if let Ok(cbs) = callbacks.lock() { for cb in cbs.iter() { let _ = cb.f(..); } }]. *)
Definition announce (e : Call) : J unit :=
  let* cs := look callbacks in
  match cs with
  | None => pure tt
  | Some cs => do* ring cs e in pure tt
  end.

(** [connection::notify]. *)
Definition notify_clients (e : Call) : J unit :=
  let* cs := look callbacks in
  match cs with
  | None => pure tt
  | Some cs => let* live := ring cs e in held (fun d => (tt, set_callbacks live d))
  end.

(** *** The table's operations *)

Definition begin_ (needs_awdl : bool) : J (option Z) :=
  let* id := access (fun d => let (r, t) := Transfers.try_begin (clock d) needs_awdl (table d) in (r, set_table t d)) in
  match id with
  | Some id => do* act (Began id) in pure (Some id)
  | None => pure None
  end.

Definition finish_ (id : Z) : J unit := do* change_table (Transfers.finish id) in act (Ended id).

Definition arm_abort_ (id : Z) (sock : option Fd) : J unit :=
  match sock with
  | Some s => let* c := syscall (dup s) in change_table (Transfers.arm_abort id (Some c))
  | None => change_table (Transfers.arm_abort id None)
  end.

Definition late : J (Daemon -> Daemon) :=
  fun j => match others j with
           | [] => (fun d => d, j)
           | o :: os => (o, mkJob (daemon j) os (waits j) (asks j) (created j) (sys j) (gen j) (acts j))
           end.
Definition arm_ : J bool :=
  let* ts := turns in
  let* l := late in
  let* r := access (Transfers.arm_wifi_direct table set_table ts l) in
  do* act (Armed r) in pure r.

Definition touch_ : J unit := access (fun d => (tt, set_table (Transfers.touch (clock d) (table d)) d)).

(** ** [TransferProgress] and what [QsHost] has in common with it *)

Section Transfer.
Context (id : Z).

Definition cancelled_ : J bool := look (fun d => Transfers.is_cancelled id (table d)).

Definition progress_ (done total : Z) : J unit :=
  do* touch_ in announce (OnTransferProgress id (as_i64 done) (as_i64 total)).

(** [TransferProgress::finished]. *)
Definition finished (status : Z) : J unit := announce (OnTransferFinished id status).

Definition confirm_pin_ (_ : list byte) : J bool := pure true.

Definition upgrade_of (r : Outbound.WifiJoin) : TarishUpgrade :=
  mkUpgrade (Medium.as_u64 (Outbound.wj_medium r)) (Outbound.wj_ssid r) (Outbound.wj_passphrase r)
    (Outbound.wj_gateway r) (Outbound.wj_port r) (Outbound.wj_frequency r).

Definition join_wifi_ (req : Outbound.WifiJoin) : J (option Fd) :=
  let* cs := look callbacks in
  match cs with
  | None | Some [] => pure None
  | Some cs =>
      let* may := if bool_decide (Outbound.wj_medium req = Medium.WifiDirect) then arm_ else pure true in
      if negb may then pure None
      else
        do* ring cs (OnUpgradeNeeded id (upgrade_of req)) in
        let* answered := awaiting (Transfers.await_upgrade_pass id) None in
        do* change_table (Transfers.clear_upgrade id) in
        pure answered
  end.

(** ** [QsHost] *)

(** What the daemon calls the one that offers. *)
Context (peer : list byte).

(** The sum wraps where overflow is not checked, and panics where it is. *)
Definition ask_ (transfer_id : Z) (files : list FileMetadata) : J bool :=
  let names := fm_name <$> files in
  let total := as_i64 (foldr (fun f n => Z.max (fm_size f) 0 + n) 0 files) in
  let* auto := look auto_accept in
  if auto then do* act Waived in pure true
  else
    let* cs := look callbacks in
    match cs with
    | None | Some [] => pure false
    | Some cs =>
        do* ring cs (OnTransferOffered id peer names total PROTOCOL_QUICKSHARE) in
        let* answer := awaiting (fun t => let (p, t) := Transfers.await_answer_pass transfer_id t in
                                          (match p with Transfers.Stop b => Transfers.Stop (Some b) | Transfers.Wait => Transfers.Wait end, t)) None in
        match answer with
        | Some accepted => do* act (Heard transfer_id accepted) in pure accepted
        | None => pure false
        end
    end.

(** The open file is its path: what is written goes to whatever has that name. *)
Definition create_ (name : list byte) : J (option (list byte)) :=
  match safe_leaf name with
  | None => pure None
  | Some leaf =>
      let* dest := look (fun d => non_clobbering (fun p => bool_decide (is_Some (fs d !! p))) INBOX leaf) in
      let* new := access (fun d => if bool_decide (is_Some (fs d !! dest)) || denied dest then (false, d)
                                   else (true, set_fs (<[dest := []]> (fs d)) d)) in
      if negb new then pure None
      else
        do* act (Created dest) in
        fun j => (Some dest, mkJob (daemon j) (others j) (waits j) (asks j) (created j ++ [dest]) (sys j) (gen j) (acts j))
  end.

Definition write_ (path b : list byte) : J bool :=
  let* ok := syscall writes in
  if ok then access (fun d => (true, set_fs (alter (fun x => x ++ b) path (fs d)) d)) else pure false.

Fixpoint remove_all (ps : list (list byte)) : J unit :=
  match ps with
  | [] => pure tt
  | p :: ps =>
      let* ok := access (fun d => if bool_decide (is_Some (fs d !! p)) && negb (denied p)
                                  then (true, set_fs (delete p (fs d)) d) else (false, d)) in
      do* (if ok : bool then act (Removed p) else pure tt) in
      remove_all ps
  end.

Definition discard_ : J unit :=
  fun j => remove_all (created j) (mkJob (daemon j) (others j) (waits j) (asks j) [] (sys j) (gen j) (acts j)).

(** The loop of [host_group]; [n] is how often the clients are asked before the deadline. *)
Fixpoint ask_group (n : nat) : J (option TarishGroup) :=
  match n with
  | O => do* change_table Transfers.stop_wanting_group in pure None
  | S n =>
      do* change_table (Transfers.want_group id) in
      let* cs := look callbacks in
      match cs with
      | None => do* change_table Transfers.stop_wanting_group in pure None
      | Some cs =>
          do* ring cs (OnGroupNeeded id) in
          let* g := awaiting (Transfers.await_group_pass id) None in
          match g with
          | Some g => do* change_table Transfers.stop_wanting_group in pure (Some g)
          | None => ask_group n
          end
      end
  end.

Definition host_group_ : J (option WifiGroup) :=
  let* armed := arm_ in
  if negb armed then pure None
  else
    let* n := patience in
    let* g := ask_group n in
    pure ((fun g => mkWifiGroup (gr_ssid g) (gr_passphrase g) (gr_goAddress g) (gr_frequency g)) <$> g).

(** ** The classes of the sessions *)

(** The one-way calls of the session code. *)
Definition told (n : Notice Fd) : J unit :=
  match n with
  | Offered i from names total => notify_clients (OnTransferOffered i from names total PROTOCOL_QUICKSHARE)
  | Progressed done total => progress_ done total
  | Reported i done total => notify_clients (OnTransferProgress i (as_i64 done) (as_i64 total))
  | ArmAbort i s => arm_abort_ i (Some s)
  | Finished i => finish_ i
  | Discarded => discard_
  end.

Definition try_clone_ (s : Fd) : J bool := let* c := syscall (dup s) in pure (bool_decide (is_Some c)).

#[local] Instance job_world : World := {|
  world := Job;
  socket := Fd;
  incoming := reads;
  write_all s b := syscall (put s b);
  ready_within := syscall readable;
  rounds := syscall deadline;
  try_clone := try_clone_;
  cancelled := cancelled_;
  notice n j := (told n j).2
|}.

(** A [&str] is valid: there is no call of [create] with anything else. *)
Definition qs_host : Host := {|
  sink := list byte;
  Stream.id := id;
  ask i _ files := ask_ i files;
  create name := if valid name then create_ name else pure None;
  sink_write := write_;
  sink_flush _ := pure true;
  host_group := host_group_;
  worker_finished := syscall worker_done;
  bind := syscall listen;
  local_port := syscall listening_on;
  accept := syscall arrives
|}.

Definition transfer_progress : Outbound.Sender := {|
  Outbound.getrandom n := syscall (entropy n);
  Outbound.confirm_pin := confirm_pin_;
  Outbound.join_wifi := join_wifi_;
  Outbound.connect ip port := syscall (dial ip port);
  Outbound.unacked s := syscall (unsent s)
|}.

End Transfer.
End Daemon.

(** ** What a thread leaves behind *)

Lemma omap_split {A B} (f : A -> option B) l x y z :
  omap f l = x ++ y :: z -> exists a b c, l = a ++ b :: c /\ omap f a = x /\ f b = Some y /\ omap f c = z.
Proof.
  revert x. induction l as [|h l IH]; intros x Heq; [by destruct x|]. cbn in Heq. destruct (f h) as [v|] eqn:Hf.
  - destruct x as [|u x]; injection Heq as -> Heq; [by exists [], h, l|].
    destruct (IH x Heq) as (a & b & c & -> & Ha & Hb & Hc). exists (h :: a), b, c. cbn. by rewrite Hf, Ha.
  - destruct (IH x Heq) as (a & b & c & -> & Ha & Hb & Hc). exists (h :: a), b, c. cbn. by rewrite Hf, Ha.
Qed.

Section Kept.
Context `{System} `{Rand}.

(** The answer and the files, in the order they came: of a thread, and of a session's trace. *)
Definition mark (a : Act) : option bool :=
  match a with
  | Waived | Heard _ true => Some true
  | Created _ => Some false
  | _ => None
  end.
Definition seen {W : World} (o : @Obs W) : option bool :=
  match o with
  | Asked _ _ _ true => Some true
  | Opened _ _ => Some false
  | _ => None
  end.

(** A transfer [id] from [peer]. *)
Context (id : Z) (peer : list byte).

(** What a session may do after [pre].  A client's yes is taken only once clients were shown
    the offer; files are created in the inbox, and only those are removed; clients are asked
    for a network only with the radio held; and nobody is told that the transfer is over. *)
Definition permitted (pre : list Act) (a : Act) : Prop :=
  match a with
  | Called _ (OnTransferFinished _ _) => False
  | Called _ (OnGroupNeeded i) => i = id /\ Armed true ∈ pre
  | Called _ (OnUpgradeNeeded i u) => i = id /\ (tu_medium u = Medium.as_u64 Medium.WifiDirect -> Armed true ∈ pre)
  | Heard i true => i = id /\ exists c names total, Called c (OnTransferOffered id peer names total PROTOCOL_QUICKSHARE) ∈ pre
  | Created p => exists leaf, good_leaf leaf /\ p = path_in INBOX leaf
  | Removed p => Created p ∈ pre
  | Began _ => False
  | _ => True
  end.

Definition orderly (l : list Act) : Prop := forall pre a post, l = pre ++ a :: post -> permitted pre a.

Lemma orderly_nil : orderly [].
Proof. intros pre a post Heq. by destruct pre. Qed.

Lemma orderly_snoc l a : orderly l -> permitted l a -> orderly (l ++ [a]).
Proof.
  intros Hl Ha pre b post Heq. destruct post as [|x post _] using rev_ind.
  - apply app_inj_tail in Heq as [-> ->]. done.
  - rewrite app_comm_cons, app_assoc in Heq. apply app_inj_tail in Heq as [-> _]. by eapply Hl.
Qed.

(** A thread that started with [base] has since left the marks [ms] and done, among other
    things, all of [facts]. *)
Context (base : list Act).

Record kept (ms : list bool) (facts : list Act) (j : Job) : Prop := mkKept {
  k_acts : exists l, acts j = base ++ l /\ orderly l /\ omap mark l = ms /\
           (forall p, p ∈ created j -> Created p ∈ l) /\ (forall a, a ∈ facts -> a ∈ l)
}.

Definition triple {A} (P : Job -> Prop) (m : J A) (Q : A -> Job -> Prop) : Prop :=
  forall j, P j -> Q (m j).1 (m j).2.

(** Nothing to be seen happens. *)
Definition stays {A} (m : J A) : Prop := forall ms facts, triple (kept ms facts) m (fun _ => kept ms facts).

Lemma triple_pure {A} (a : A) (Q : A -> Job -> Prop) : triple (Q a) (pure a) Q.
Proof. by intros j. Qed.

Lemma triple_andthen {A B} P (m : J A) R (k : A -> J B) Q :
  triple P m R -> (forall a, triple (R a) (k a) Q) -> triple P (andthen m k) Q.
Proof. intros Hm Hk j Hj. specialize (Hm j Hj). unfold andthen. destruct (m j) as [a j']. by apply Hk. Qed.

Lemma stays_pure {A} (a : A) : stays (pure a).
Proof. intros ms facts. apply (triple_pure a (fun _ => kept ms facts)). Qed.

Lemma stays_andthen {A B} (m : J A) (k : A -> J B) : stays m -> (forall a, stays (k a)) -> stays (andthen m k).
Proof. intros Hm Hk ms facts. eapply triple_andthen; [apply Hm|intros a; apply Hk]. Qed.

(** What touches neither the acts nor the files opened. *)
Lemma stays_same {A} (m : J A) : (forall j, acts (m j).2 = acts j /\ created (m j).2 = created j) -> stays m.
Proof. intros Hm ms facts j [Hk]. destruct (Hm j) as [Ha Hc]. constructor. by rewrite Ha, Hc. Qed.

Lemma interfere_same j : acts (interfere j) = acts j /\ created (interfere j) = created j.
Proof. unfold interfere. by destruct (others j). Qed.

Lemma stays_held {A} (f : Daemon -> A * Daemon) : stays (held f).
Proof. apply stays_same. intros j. unfold held. by destruct (f (daemon j)). Qed.

Lemma stays_access {A} (f : Daemon -> A * Daemon) : stays (access f).
Proof. apply stays_same. intros j. unfold access, held. destruct (f _). apply interfere_same. Qed.

Lemma stays_syscall {A} (f : net -> A * net) : stays (syscall f).
Proof. apply stays_same. intros j. unfold syscall. by destruct (f (sys j)). Qed.

Lemma stays_turns : stays turns.
Proof. by apply stays_same. Qed.
Lemma stays_patience : stays patience.
Proof. by apply stays_same. Qed.
Lemma stays_late : stays late.
Proof. apply stays_same. intros j. unfold late. by destruct (others j). Qed.
Lemma stays_look {A} (f : Daemon -> A) : stays (look f).
Proof. apply stays_access. Qed.
Lemma stays_on_table {A} (f : Transfers.St -> A * Transfers.St) : stays (on_table f).
Proof. apply stays_access. Qed.
Lemma stays_change_table f : stays (change_table f).
Proof. apply stays_on_table. Qed.

(** One more act. *)
Lemma act_kept ms facts a :
  (forall l, (forall b, b ∈ facts -> b ∈ l) -> permitted l a) ->
  triple (kept ms facts) (act a) (fun _ => kept (ms ++ option_list (mark a)) (a :: facts)).
Proof.
  intros Ha j [(l & Hl & Ho & Hm & Hc & Hf)]. constructor. exists (l ++ [a]). cbn. split_and!.
  - by rewrite Hl, app_assoc.
  - apply orderly_snoc; [done|]. by apply Ha.
  - rewrite omap_app, Hm. cbn. by destruct (mark a).
  - intros p Hp. apply elem_of_app. left. by apply Hc.
  - intros b [->|Hb]%elem_of_cons; apply elem_of_app; [right; by left|left; by apply Hf].
Qed.

Lemma kept_forget ms facts facts' j : facts' ⊆ facts -> kept ms facts j -> kept ms facts' j.
Proof. intros Hsub [(l & Hl & Ho & Hm & Hc & Hf)]. constructor. exists l. split_and!; try done. intros a Ha. by apply Hf, Hsub. Qed.

Lemma stays_act a : mark a = None -> (forall l, permitted l a) -> stays (act a).
Proof.
  intros Hm Ha ms facts j Hj. pose proof (act_kept ms facts a (fun l _ => Ha l) j Hj) as Hk. rewrite Hm in Hk. cbn [option_list] in Hk. rewrite app_nil_r in Hk.
  by eapply kept_forget; [|exact Hk]; set_solver.
Qed.

Lemma stays_awaiting {A} (pass : Transfers.St -> Transfers.Pass A * Transfers.St) dflt : stays (awaiting pass dflt).
Proof. apply stays_andthen; [apply stays_turns|intros; apply stays_access]. Qed.

End Kept.

Create HintDb stays.
#[export] Hint Resolve stays_pure stays_held stays_access stays_syscall stays_turns stays_patience stays_late stays_look
  stays_on_table stays_change_table stays_awaiting : stays.

Ltac stays :=
  lazymatch goal with
  | |- stays _ _ _ (andthen _ _) => apply stays_andthen; [stays|intros; stays]
  | |- stays _ _ _ (if ?b then _ else _) => destruct b; stays
  | |- stays _ _ _ (match ?x with _ => _ end) => destruct x; stays
  | |- _ => try solve [auto with stays]
  end.

Section Operations.
Context `{System} `{Rand}.
Context (id : Z) (peer : list byte) (base : list Act).
Abbreviation kept := (kept id peer base).
Abbreviation stays := (stays id peer base).
Abbreviation permitted := (permitted id peer).

(** The first client that was called, if any. *)
Definition rung (cs : list Client) (e : Call) (facts : list Act) : list Act :=
  match cs with [] => facts | c :: _ => Called c e :: facts end.

Lemma ring_kept ms facts cs e :
  (forall l c, (forall b, b ∈ facts -> b ∈ l) -> permitted l (Called c e)) ->
  triple (kept ms facts) (ring cs e) (fun _ => kept ms (rung cs e facts)).
Proof.
  intros He. revert facts He. induction cs as [|c cs IH]; intros facts He; cbn [ring rung].
  { intros j Hj. exact Hj. }
  eapply triple_andthen.
  { apply (act_kept id peer base). intros l Hl. by apply He. }
  intros []. cbn [mark option_list]. rewrite app_nil_r. eapply triple_andthen; [apply stays_syscall|]. intros dead.
  eapply triple_andthen.
  { apply IH. intros l c' Hl. apply He. intros b Hb. apply Hl. by right. }
  intros rest j Hj. eapply kept_forget; [|exact Hj]. destruct cs; cbn; set_solver.
Qed.

(** A call that may always be made. *)
Definition free (e : Call) : Prop := forall l c, permitted l (Called c e).

Lemma stays_ring cs e : free e -> stays (ring cs e).
Proof.
  intros He ms facts j Hj. pose proof (ring_kept ms facts cs e (fun l c _ => He l c) j Hj) as Hk.
  eapply kept_forget; [|exact Hk]. destruct cs; cbn; set_solver.
Qed.

Lemma stays_announce e : free e -> stays (announce e).
Proof. intros He. unfold announce. stays. by apply stays_ring. Qed.

Lemma stays_notify_clients e : free e -> stays (notify_clients e).
Proof. intros He. unfold notify_clients. stays. by apply stays_ring. Qed.

Lemma stays_finish i : stays (finish_ i).
Proof. unfold finish_. stays. by apply stays_act. Qed.

Lemma stays_arm_abort i s : stays (arm_abort_ i s).
Proof. unfold arm_abort_. stays. Qed.

Lemma stays_cancelled : stays (cancelled_ id).
Proof. apply stays_look. Qed.

Lemma stays_progress d t : stays (progress_ id d t).
Proof. unfold progress_, touch_. stays. by apply stays_announce. Qed.

#[local] Hint Resolve stays_ring stays_announce stays_notify_clients stays_finish stays_arm_abort stays_cancelled stays_progress : stays.

Lemma arm_kept ms facts : triple (kept ms facts) arm_ (fun r => kept ms (if r then Armed true :: facts else facts)).
Proof.
  unfold arm_. eapply triple_andthen; [apply stays_turns|intros ts].
  eapply triple_andthen; [apply stays_late|intros fl]. eapply triple_andthen; [apply stays_access|intros r]. eapply triple_andthen.
  { apply act_kept. by intros l _. }
  intros []. cbn [mark option_list]. rewrite app_nil_r. intros j Hj. cbn [pure fst snd]. destruct r; [done|].
  eapply kept_forget; [|exact Hj]. set_solver.
Qed.

Lemma join_kept r : stays (join_wifi_ id r).
Proof.
  intros ms facts. unfold join_wifi_. eapply triple_andthen; [apply stays_look|]. intros [[|c cs]|]; try (apply stays_pure).
  set (up := OnUpgradeNeeded id (upgrade_of r)).
  eapply triple_andthen with (R := fun may => if may : bool
      then kept ms (if bool_decide (Outbound.wj_medium r = Medium.WifiDirect) then Armed true :: facts else facts) else kept ms facts).
  { case_bool_decide.
    - intros j Hj. pose proof (arm_kept ms facts j Hj) as Ha. by destruct (arm_ j) as [[] j'].
    - intros j Hj. exact Hj. }
  intros [|]; cbn [negb]; [|apply stays_pure]. eapply triple_andthen.
  { apply ring_kept. intros l c' Hl. cbn. split; [done|]. intros Hm. apply Hl. case_bool_decide as Hw; [by left|].
    exfalso. apply Hw. by destruct (Outbound.wj_medium r). }
  intros live. eapply triple_andthen; [apply stays_awaiting|]. intros f. eapply triple_andthen; [apply stays_change_table|].
  intros [] j Hj. eapply kept_forget; [|exact Hj]. cbn [rung]. case_bool_decide; set_solver.
Qed.

(** A yes is one mark. *)
Lemma ask_kept ms facts files :
  triple (kept ms facts) (ask_ id peer id files) (fun yes => kept (ms ++ if yes then [true] else []) facts).
Proof.
  unfold ask_. eapply triple_andthen; [apply stays_look|]. intros [|].
  { eapply triple_andthen; [apply act_kept; by intros l _|]. intros [] j Hj. eapply kept_forget; [|exact Hj]. set_solver. }
  assert (Hno : forall fs, facts ⊆ fs -> triple (kept ms fs) (pure false) (fun yes => kept (ms ++ if yes then [true] else []) facts)).
  { intros fs Hsub j Hj. cbn. rewrite app_nil_r. by eapply kept_forget. }
  eapply triple_andthen; [apply stays_look|]. intros [[|c cs]|]; try by apply Hno.
  eapply triple_andthen; [by apply ring_kept|]. intros live. cbn [rung]. eapply triple_andthen; [apply stays_awaiting|].
  intros [b|]; [|apply Hno; set_solver]. destruct b.
  - eapply triple_andthen.
    { apply act_kept. intros l Hl. split; [done|]. do 3 eexists. apply Hl. by left. }
    intros [] j Hj. eapply kept_forget; [|exact Hj]. set_solver.
  - eapply triple_andthen; [by apply act_kept|]. intros [] j Hj. cbn in *. rewrite app_nil_r in *.
    eapply kept_forget; [|exact Hj]. set_solver.
Qed.

Lemma look_kept {A} ms facts (f : Daemon -> A) : triple (kept ms facts) (look f) (fun a j => kept ms facts j /\ exists d, a = f d).
Proof. intros j Hj. split; [exact (stays_look id peer base f ms facts j Hj)|]. by exists (daemon (interfere j)). Qed.

Lemma triple_fact {A} P (F : Prop) (m : J A) Q : (F -> triple P m Q) -> triple (fun j => P j /\ F) m Q.
Proof. intros Hm j [Hj HF]. by apply Hm. Qed.

(** Opening a file is a mark. *)
Definition opens (k : option (list byte)) : list bool := match k with Some _ => [false] | None => [] end.

Lemma create_kept ms facts name :
  valid name = true ->
  triple (kept ms facts) (create_ name) (fun k => kept (ms ++ opens k) facts).
Proof.
  intros Hv. unfold create_.
  assert (Hno : triple (kept ms facts) (pure None) (fun k => kept (ms ++ opens k) facts)).
  { intros j Hj. cbn. by rewrite app_nil_r. }
  destruct (safe_leaf name) as [leaf|] eqn:Hs; [|done]. apply safe_leaf_good in Hs; [|done].
  eapply triple_andthen; [apply look_kept|]. intros dest. apply triple_fact. intros [d Hd].
  assert (Hg : exists l, good_leaf l /\ dest = path_in INBOX l).
  { subst dest. destruct (non_clobbering_good (fun p => bool_decide (is_Some (fs d !! p))) INBOX leaf Hs) as (l & Hl & Hg). by exists l. }
  clear Hd. eapply triple_andthen; [apply stays_access|]. intros [|]; cbn [negb]; [|done]. eapply triple_andthen.
  { apply act_kept. by intros l _. }
  intros [] j1 [(l & Hl & Ho & Hm & Hc & Hf)]. constructor. exists l. cbn in *. split_and!; try done.
  - intros p [Hp|Hp%list_elem_of_singleton]%elem_of_app; [by apply Hc|]. subst. apply Hf. by left.
  - intros a Ha. apply Hf. by right.
Qed.

Lemma stays_write p b : stays (write_ p b).
Proof. unfold write_. stays. Qed.

Lemma remove_all_kept ms facts ps : triple (kept ms ((Created <$> ps) ++ facts)) (remove_all ps) (fun _ => kept ms facts).
Proof.
  induction ps as [|p ps IH]; cbn [remove_all fmap list_fmap app]; [by intros j|].
  eapply triple_andthen; [apply stays_access|]. intros ok.
  eapply triple_andthen with (R := fun _ => kept ms ((Created <$> ps) ++ facts)); [|intros []; apply IH].
  destruct ok; intros j Hj.
  - apply (act_kept id peer base ms _ (Removed p)) in Hj; [|intros l Hl; apply Hl; by left].
    cbn [mark option_list] in Hj. rewrite app_nil_r in Hj. eapply kept_forget; [|exact Hj]. set_solver.
  - eapply kept_forget; [|exact Hj]. set_solver.
Qed.

Lemma stays_discard : stays discard_.
Proof.
  intros ms facts j [(l & Hl & Ho & Hm & Hc & Hf)]. apply remove_all_kept. constructor. exists l. cbn. split_and!; try done; [set_solver|].
  intros a [(p & -> & Hp)%list_elem_of_fmap|Ha]%elem_of_app; [by apply Hc|by apply Hf].
Qed.

Lemma ask_group_kept ms facts n : Armed true ∈ facts -> triple (kept ms facts) (ask_group id n) (fun _ => kept ms facts).
Proof.
  intros Harm. induction n as [|n IH]; cbn [ask_group].
  { eapply triple_andthen; [apply stays_change_table|]. intros []. apply stays_pure. }
  eapply triple_andthen; [apply stays_change_table|]. intros []. eapply triple_andthen; [apply stays_look|]. intros [cs|].
  2:{ eapply triple_andthen; [apply stays_change_table|]. intros []. apply stays_pure. }
  eapply triple_andthen; [apply ring_kept; intros l c Hl; split; [done|by apply Hl]|]. intros live.
  eapply triple_andthen; [apply stays_awaiting|].
  assert (Hsub : facts ⊆ rung cs (OnGroupNeeded id) facts) by (destruct cs; cbn; set_solver).
  intros [g|].
  - eapply triple_andthen; [apply stays_change_table|]. intros [] j Hj. by eapply kept_forget.
  - intros j Hj. apply IH. by eapply kept_forget.
Qed.

Lemma stays_host_group : stays (host_group_ id).
Proof.
  intros ms facts. unfold host_group_. eapply triple_andthen; [apply arm_kept|]. intros [|]; cbn [negb]; [|apply stays_pure].
  eapply triple_andthen; [apply stays_patience|]. intros n. eapply triple_andthen; [apply ask_group_kept; by left|].
  intros g j Hj. eapply kept_forget; [|exact Hj]. set_solver.
Qed.

Lemma told_kept n ms facts : triple (kept ms facts) (told id n) (fun _ => kept ms facts).
Proof.
  destruct n; cbn [told]; [by apply stays_notify_clients|apply stays_progress|by apply stays_notify_clients|apply stays_arm_abort|apply stays_finish|apply stays_discard].
Qed.

End Operations.

(** ** Sessions *)

Section Sessions.
Context `{System} `{Ec} `{Digest} `{Hmac} `{Cipher} `{Memcmp}.
Context (id : Z) (peer : list byte).
#[local] Instance the_world : World := job_world id.
#[local] Instance the_host : Host := qs_host id peer.
#[local] Instance the_progress : Outbound.Sender := transfer_progress id.

(** [connection::serve] and [outbound::send] on this thread, for [n] rounds of their loops. *)
Definition serve_ (n : nat) (reader sock : Fd) (bootstrap : Medium.t) : J (option (result Connection.ServeOutcome IoError)) :=
  fun j =>
    let (r, l) := Connection.serve n (reads reader) sock bootstrap j (gen j) in
    (match r with Connection.Ended r => Some r | Connection.Running _ => None end, with_gen (Stream.gen l) (wld l)).

Definition send_ (n : nat) (reader sock : Fd) (device_name endpoint : list byte) (bootstrap : Medium.t)
    (mediums : list Z) (files : list Outbound.OutFile) : J (option (result bool IoError)) :=
  fun j =>
    let (r, l) := Outbound.send n (reads reader) sock device_name endpoint bootstrap mediums files j (gen j) in
    (match r with Outbound.Ended r => Some r | Outbound.Running _ => None end, with_gen (Stream.gen l) (wld l)).

(** *** The classes keep the account *)

(** What the thread has left is in step with what was observed of its session, which it began
    with the marks [ms]. *)
Definition coupled (base : list Act) (ms : list bool) (j : Job) (tr : list (@Obs (job_world id))) : Prop :=
  kept id peer base (ms ++ omap seen tr) [] j.

Lemma coupled_stays {A} base ms (m : J A) : stays id peer base m -> calm (coupled base ms) m.
Proof. intros Hm w tr Hw. exact (Hm _ _ _ Hw). Qed.

Lemma job_steady base ms : steady (coupled base ms).
Proof.
  constructor; intros; try (apply coupled_stays).
  - unfold coupled in *. rewrite omap_app. cbn. destruct o; try done; cbn; by rewrite app_nil_r.
  - apply stays_syscall.
  - apply stays_syscall.
  - apply stays_syscall.
  - apply stays_andthen; [apply stays_syscall|intros; apply stays_pure].
  - apply stays_cancelled.
  - intros ms' facts. apply told_kept.
  - assumption.
Qed.

Lemma job_hospitable base ms : hospitable (coupled base ms).
Proof.
  constructor; try (intros; apply coupled_stays).
  - intros p files w tr Hw. pose proof (ask_kept id peer base _ _ files w Hw) as Ha.
    change (ask Stream.id p files w) with (ask_ id peer id files w).
    destruct (ask_ id peer id files w) as [a w']. unfold coupled. rewrite omap_app, app_assoc. cbn in *. by destruct a.
  - intros pid name w tr Hw. change (create name w) with ((if valid name then create_ name else pure None) w).
    destruct (valid name) eqn:Hv; [|done]. pose proof (create_kept id peer base _ _ name Hv w Hw) as Hc.
    destruct (create_ name w) as [[k|] w']; cbn in Hc; [|by rewrite app_nil_r in Hc]. unfold coupled. by rewrite omap_app, app_assoc.
  - apply stays_write.
  - apply stays_pure.
  - apply stays_host_group.
  - apply stays_syscall.
  - apply stays_syscall.
  - apply stays_syscall.
  - apply stays_syscall.
Qed.

Lemma job_sendable base ms : sendable (coupled base ms).
Proof.
  constructor; intros; apply coupled_stays.
  - apply stays_syscall.
  - apply stays_pure.
  - apply join_kept.
  - apply stays_syscall.
  - apply stays_syscall.
Qed.

Lemma fresh_kept j : created j = [] -> kept id peer (acts j) [] [] j.
Proof. intros Hc. constructor. exists []. rewrite app_nil_r, Hc. split_and!; try done; [apply orderly_nil|set_solver..]. Qed.

Lemma serve_kept base ms n reader sock boot j :
  kept id peer base ms [] j ->
  exists tr, Connection.good tr /\ kept id peer base (ms ++ omap seen tr) [] (serve_ n reader sock boot j).2.
Proof.
  intros Hj. unfold serve_. pose proof (Connection.serve_good n (reads reader) sock boot j (gen j)) as Hg.
  pose proof (serve_keeps (coupled base ms) (job_steady _ _) (job_hospitable _ _) n (reads reader) sock boot j (gen j)) as Hk.
  specialize (Hk ltac:(by unfold coupled; rewrite app_nil_r)).
  destruct (Connection.serve _ _ _ _ _ _) as [r l]. destruct Hk as [Hk]. exists (trace l). by split.
Qed.

Lemma send_kept base ms n reader sock device endpoint boot mediums files j :
  kept id peer base ms [] j ->
  exists ms', kept id peer base ms' [] (send_ n reader sock device endpoint boot mediums files j).2.
Proof.
  intros Hj. unfold send_.
  pose proof (send_keeps (coupled base ms) (job_steady _ _) (job_sendable _ _) n (reads reader) sock device endpoint boot mediums files j (gen j)) as Hk.
  specialize (Hk ltac:(by unfold coupled; rewrite app_nil_r)).
  destruct (Outbound.send _ _ _ _ _ _ _ _ _ _) as [r l]. destruct Hk as [Hk]. by eexists.
Qed.

Lemma opened_after_yes (tr : list Obs) ms1 ms2 : Connection.good tr -> omap seen tr = ms1 ++ false :: ms2 -> true ∈ ms1.
Proof.
  intros [Hob _] Heq. apply omap_split in Heq as (a & o & c & -> & <- & Hs & _).
  destruct o as [| |? ? ? []|pid name| | | | |]; try done. destruct (Hob a _ c eq_refl) as (m & (t & p & fs & Hin & _) & _).
  apply list_elem_of_omap. by exists (Asked t p fs true).
Qed.

Lemma created_after_yes (l pre post : list Act) p (tr : list Obs) :
  Connection.good tr -> orderly id peer l -> omap mark l = omap seen tr -> l = pre ++ Created p :: post ->
  Waived ∈ pre \/ Heard id true ∈ pre.
Proof.
  intros Hg Ho Hm ->. rewrite omap_app in Hm. apply (opened_after_yes tr (omap mark pre) (omap mark post)) in Hg; [|done].
  apply list_elem_of_omap in Hg as (a & Hin & Ha). destruct a as [| |i []| | | | |]; try done; [by left|]. right.
  apply list_elem_of_split in Hin as (x & y & ->). rewrite <- app_assoc in Ho.
  destruct (Ho x (Heard i true) (y ++ Created p :: post) eq_refl) as [-> _]. set_solver.
Qed.

End Sessions.

(** ** Properties *)


(** ** The request for a network *)

Section Group.
Context `{System} `{Rand}.
Context (id : Z).

(** The last thing done. *)
Abbreviation stop a := (andthen (change_table Transfers.stop_wanting_group) (fun _ => pure a)).

Lemma withdrawn {A} (a : A) j : Transfers.group_wanted (table (daemon (stop a j).2)) = 0 /\ (stop a j).1 = a.
Proof. unfold andthen, change_table, on_table, access, held. by destruct (daemon (interfere j)). Qed.

(** A client has offered [g] for this transfer. *)
Definition offered (g : TarishGroup) : Prop := exists d, Transfers.group (table d) = Some (id, Some g).

Lemma awaiting_group j g : (awaiting (Transfers.await_group_pass id) None j).1 = Some g -> offered g.
Proof.
  unfold awaiting, andthen, turns, access, held. generalize (default [] (head (waits j))). intros ts.
  set (pass := fun d : Daemon => _). match goal with |- context [daemon ?x] => generalize (daemon x) end. intros d.
  pose proof (Transfers.await_some pass ts d g) as Ha. destruct (Transfers.await pass None ts d) as [r d']. cbn in *. intros Hr.
  destruct (Ha Hr) as [d0 Hd0]. subst pass. cbv beta in Hd0. unfold Transfers.await_group_pass in Hd0. exists d0.
  destruct (Transfers.group (table d0)) as [[who o]|].
  - destruct (Z.eqb_spec who id) as [->|]; [cbn in Hd0; by injection Hd0 as ->|]. by destruct (Transfers.is_cancelled id (table d0)); cbn in Hd0.
  - by destruct (Transfers.is_cancelled id (table d0)); cbn in Hd0.
Qed.

Definition ends (m : J (option TarishGroup)) : Prop :=
  forall j, Transfers.group_wanted (table (daemon (m j).2)) = 0 /\ forall g, (m j).1 = Some g -> offered g.

Lemma group_ends_andthen {A} (R : A -> Prop) (m : J A) k :
  (forall j, R (m j).1) -> (forall a, R a -> ends (k a)) -> ends (andthen m k).
Proof. intros Hm Hk j. unfold andthen. specialize (Hm j). destruct (m j) as [a j']. by apply Hk. Qed.

Lemma ends_stop g : (forall g', g = Some g' -> offered g') -> ends (stop g).
Proof. intros Hg j. destruct (withdrawn g j) as [Hz ->]. by split. Qed.

Lemma ask_group_ends n : ends (ask_group id n).
Proof.
  induction n as [|n IH]; cbn [ask_group]; [by apply ends_stop|].
  apply (group_ends_andthen (fun _ => True)); [done|intros _ _]. apply (group_ends_andthen (fun _ => True)); [done|].
  intros [cs|] _; [|by apply ends_stop]. apply (group_ends_andthen (fun _ => True)); [done|intros _ _].
  apply (group_ends_andthen (fun g => forall g', g = Some g' -> offered g')); [intros j g; apply awaiting_group|].
  intros [g|] Hg; [by apply ends_stop|done].
Qed.

End Group.

(** How [host_group] ends, whatever happens meanwhile: if the radio cannot be had no client is
    asked; otherwise the request is withdrawn at the end, and a network that is returned is one
    a client offered for this transfer. *)
Theorem group_request_is_withdrawn `{System} `{Rand} id j :
  let (armed, j1) := arm_ j in
  let (w, j2) := host_group_ id j in
  if armed : bool then
    Transfers.group_wanted (table (daemon j2)) = 0 /\
    (forall x, w = Some x -> exists g, offered id g /\ x = mkWifiGroup (gr_ssid g) (gr_passphrase g) (gr_goAddress g) (gr_frequency g))
  else w = None /\ j2 = j1.
Proof.
  unfold host_group_, andthen. destruct (arm_ j) as [[] j1]; cbn [negb]; [|done].
  unfold patience. set (j0 := mkJob _ _ _ _ _ _ _ _). generalize (default 0%nat (head (asks j1))). intros n.
  destruct (ask_group_ends id n j0) as [Hz Hg]. destruct (ask_group id n j0) as [g j2]. split; [exact Hz|]. cbn [pure fst snd] in *.
  intros x Hx. destruct g as [gr|]; [|done]. injection Hx as <-. exists gr. split; [by apply Hg|done].
Qed.

(** ** Runs *)

Module ToyDaemon.

(** Clients are numbers, descriptors what they give; everything works, but no network comes. *)
#[export] Instance toy_system : System := {|
  Client := Z; Fd := list Read; net := unit;
  reads s := s; dup s n := (Some s, n); file_len _ n := (Some 0, n);
  put _ _ n := (true, n); readable n := (Some true, n); deadline n := (0%nat, n);
  dial _ _ n := (None, n); unsent _ n := (None, n);
  entropy k n := (replicate (Z.to_nat k) (to_u8 0), n);
  listen n := (false, n); listening_on n := (None, n); arrives n := (WouldBlock, n);
  worker_done n := (true, n); gone _ n := (false, n); shut _ n := n; writes n := (true, n); denied _ := false
|}.

#[export] Existing Instances Toy.rand Toy.hmac Toy.cipher Toy.memcmp Toy.digest Toy.ec.

(** A daemon with two clients. *)
Definition phone (auto : bool) : Daemon :=
  mkDaemon Transfers.idle ∅ (Some [1; 2]) auto (Some Visibility.denied_policy) (Some []) (Some ∅) (Some []) ∅ 0.
Definition thread (auto : bool) (ws : list (list (Daemon -> Daemon))) (asks : list nat) : Job :=
  mkJob (phone auto) [] ws asks [] tt (1 : rng) [].

Definition says_yes (i : Z) (d : Daemon) : Daemon := set_table (Transfers.answer i true (table d)) d.

(** A session over frames that are already decrypted: how it ends and what was done, the
    reports of progress left out. *)
Definition run (j : Job) (fs : list (list byte)) : option (list (list byte)) * list Act :=
  let W := job_world 9 in
  let Hst := qs_host 9 (str "a nearby device") in
  let (sess, g) := Connection.session (1 : rng) in
  let (r, c) := Connection.rounds_of 20 false (str "Pixel") sess
    (mkConn (@mkLink W _ (@nil Read) j g []) (FrameStream.new [])
       (Channel.new Channel.toy_keys D2d.Server) fs) in
  (match r with Connection.Ended (Ok (Connection.Received names)) => Some names | _ => None end,
   List.filter (fun a => match a with Called _ (OnTransferProgress _ _ _) => false | _ => true end) (acts (wld (link c)))).

(** One file, accepted by the first client. *)
Definition share : list (list byte) :=
  Connection.ToyRun.frames [Connection.ToyRun.chunk false 0 (str "hel"); Connection.ToyRun.chunk true 3 (str "lo")].

Definition offer_from (from : list byte) (c : Z) : Act :=
  Called c (OnTransferOffered 9 from [str "a.txt"] 5 PROTOCOL_QUICKSHARE).

(** Every client is shown every offer twice, the second time under another name. *)
Example an_offer_is_shown_twice :
  run (thread false [[says_yes 9]] []) share =
  (Some [str "a.txt"],
   [offer_from (str "Pixel") 1; offer_from (str "Pixel") 2;
    offer_from (str "a nearby device") 1; offer_from (str "a nearby device") 2;
    Heard 9 true; Created (path_in INBOX (str "a.txt")); Ended 9]).
Proof. vm_compute. reflexivity. Qed.

(** And is shown an offer that nobody is to be asked about. *)
Example a_waived_offer_is_shown :
  run (thread true [] []) share =
  (Some [str "a.txt"],
   [offer_from (str "Pixel") 1; offer_from (str "Pixel") 2; Waived; Created (path_in INBOX (str "a.txt")); Ended 9]).
Proof. vm_compute. reflexivity. Qed.

(** A client that declines to host a network is asked again at once, as often as fits into the
    thirty seconds; so is one whose transfer has been cancelled. *)
Definition declines (d : Daemon) : Daemon := set_table (Transfers.provide_group 9 None (table d)) d.
Definition cancels (d : Daemon) : Daemon := set_table (Transfers.cancel 9 (table d)) d.

Definition asked_for_a_network (j : Job) : option WifiGroup * list Act :=
  let (g, j) := host_group_ 9 j in (g, List.filter (fun a => match a with Called 1 _ => true | _ => false end) (acts j)).

Example a_refusal_is_no_answer :
  asked_for_a_network (thread false ([] :: replicate 4 [declines]) [4%nat]) = (None, replicate 4 (Called 1 (OnGroupNeeded 9))) /\
  asked_for_a_network (thread false [[]; [cancels]] [4%nat]) = (None, replicate 4 (Called 1 (OnGroupNeeded 9))).
Proof. split; vm_compute; reflexivity. Qed.

(** The sizes in an offer are the peer's: their sum wraps. *)
Definition huge (n : Z) : FileMetadata := mkFileMetadata (str "a") FileType.Document 1 n [] 1 [] 0 false.
Example a_total_that_wraps :
  List.filter (fun a => match a with Called 1 _ => true | _ => false end)
    (acts (ask_ 9 (str "peer") 9 [huge i64_max; huge 2] (thread false [] [])).2)
  = [Called 1 (OnTransferOffered 9 (str "peer") [str "a"; str "a"] (- i64_max) PROTOCOL_QUICKSHARE)].
Proof. vm_compute. reflexivity. Qed.


End ToyDaemon.
