(* ===== verification/Jobs.v ===== *)
(** * Transfers on request ([sharingd/src/main.rs], the service's calls and threads)

    What the calls of the service that start, answer and stop transfers do, and the threads they
    start.  A call returns its reply and the thread it has spawned, which runs on a state of its
    own later; a thread is given the number of rounds its session may take, and tells whether it
    has ended.  The theorem is about what becomes of a transfer that has begun. *)

From stdpp Require Import gmap.
From S2P Require Import Prelude Utf8 Text Crypto Ukey2Crypto Upgrade Inbox Stream Steps Daemon.
From S2P Require Mdns Peers Discovery Device Visibility Transfers Ble Http Send Connection Outbound Mux.

Definition STATUS_OK : Z := 0.
Definition STATUS_FAILED : Z := -1.
Definition STATUS_DECLINED : Z := -2.
Definition STATUS_CANCELLED : Z := -3.

(** The error a call is answered with. *)
Inductive Refusal : Type := PERMISSION_DENIED | BAD_VALUE | WOULD_BLOCK | ILLEGAL_ARGUMENT | UNKNOWN_ERROR.

(** What the code looks at in the kind of an [io::Error]. *)
Inductive Kind : Type := KPermissionDenied | KConnectionReset | KTimedOut | KOther.

(** The rest of what is around: the encrypted connection to an AirDrop peer, the kind of the
    last failure of the system, the interface's address and index, the packets of an L2CAP
    channel as the stream [Mux] makes of them, and the process's sender id. *)
Class Airdrop_ `{System} : Type := {
  tls_reads : Peers.Target -> list Http.Read;
  tls_connect : Peers.Target -> net -> result Fd Send.SendError * net;
  tls_write : list byte -> net -> bool * net;
  tls_flush : net -> bool * net;
  tls_ready : net -> option bool * net;
  last_kind : net -> Kind * net;
  own_address : net -> option (list byte) * net;
  scope_of : net -> option Z * net;
  spawns : net -> bool * net;
  packets : Fd -> FrameStream.t -> Fd;
  process_id : list byte
}.

Section Jobs.
Context `{Airdrop_} `{Ec} `{Digest} `{Hmac} `{Cipher} `{Memcmp} `{Send.Gzip} `{Send.Odc}.

#[local] Notation "'let*' x ':=' m 'in' k" := (andthen m (fun x => k))
  (at level 10, x pattern, m at level 100, k at level 200).
#[local] Notation "'do*' m 'in' k" := (andthen m (fun _ => k))
  (at level 10, m at level 100, k at level 200).

Definition airdrop_mode (d : Daemon) : Z :=
  match policy d with Some p => Visibility.airdrop p | None => Visibility.MODE_OFF end.
Definition quickshare_mode (d : Daemon) : Z :=
  match policy d with Some p => Visibility.quickshare p | None => Visibility.MODE_OFF end.

Definition Thread : Type := nat -> J bool.
Abbreviation Reply := (result Z Refusal * option Thread)%type.

(** [SlotGuard]: [finish] once more, however the thread ends. *)
Definition guarded (id : Z) (body : Thread) : Thread :=
  fun n => let* e := body n in if e then do* finish_ id in pure true else pure false.

(** ** Receiving with Quick Share *)

Definition status_of (outcome : result Connection.ServeOutcome IoError) : Z :=
  match outcome with
  | Ok (Connection.Received names) => if negb (is_empty names) then STATUS_OK else STATUS_DECLINED
  | Ok Connection.OutCancelled => STATUS_CANCELLED
  | Err _ => STATUS_FAILED
  end.

(** The part the two threads that receive have in common. *)
Definition receiving (id : Z) (peer : list byte) (reader sock : Fd) (bootstrap : Medium.t) : Thread :=
  fun n =>
    let* outcome := serve_ id peer n reader sock bootstrap in
    match outcome with
    | None => pure false
    | Some outcome => do* announce (OnTransferFinished id (status_of outcome)) in do* finish_ id in pure true
    end.

Definition nearby : list byte := str "a nearby device".

Definition receiveOnSocket (socket : Fd) : J Reply :=
  let* mode := look quickshare_mode in
  if negb (Visibility.allows_receive mode) then pure (Err PERMISSION_DENIED, None)
  else
    let* sock := syscall (dup socket) in
    match sock with
    | None => pure (Ok 0, None)
    | Some sock =>
        let* reader := syscall (dup sock) in
        match reader with
        | None => pure (Ok 0, None)
        | Some reader =>
            let* id := begin_ false in
            match id with
            | None => pure (Ok 0, None)
            | Some id => pure (Ok id, Some (guarded id (receiving id nearby reader sock Medium.Bluetooth)))
            end
        end
    end.

(** A connection the listener of [start_quickshare_server] has accepted, and its thread. *)
Definition on_connection_thread (sock : Fd) (peer : option (list byte)) : Thread :=
  fun n =>
    let* reader := syscall (dup sock) in
    match reader with
    | None => pure true
    | Some reader =>
        let* id := begin_ false in
        match id with
        | None => pure true
        | Some id => receiving id (unwrap_or peer nearby) reader sock Medium.WifiLan n
        end
    end.

Definition on_connection (sock : Fd) (peer : option (list byte)) : J (option Thread) :=
  let* mode := look quickshare_mode in
  if negb (Visibility.allows_receive mode) then pure None else pure (Some (on_connection_thread sock peer)).

(** ** Sending with Quick Share *)

Definition report_outcome (id : Z) (outcome : result bool IoError) : J unit :=
  match outcome with
  | Ok true => finished id STATUS_OK
  | Ok false =>
      let* c := cancelled_ id in
      if c then finished id STATUS_FAILED else finished id STATUS_DECLINED
  | Err _ => finished id STATUS_FAILED
  end.

(** The loop that takes the files out of the parcel; [None] is a descriptor that could not be. *)
Fixpoint take_files (fs : list (Fd * list byte)) : J (option (list Outbound.OutFile)) :=
  match fs with
  | [] => pure (Some [])
  | (f, n) :: fs =>
      let* file := syscall (dup f) in
      match file with
      | None => pure None
      | Some file =>
          let* size := syscall (file_len file) in
          let* rest := take_files fs in
          pure (let^ rest := rest in
                Some (Outbound.mkOutFile n (Device.mime_of n) (as_i64 (unwrap_or size 0)) (reads file) :: rest))
      end
  end.

(** [String::from_utf8_lossy(&random_endpoint_id())]: letters and digits. *)
Definition endpoint_ : J (list byte) := let* r := syscall (entropy 4) in pure (Discovery.random_endpoint_id r).

(** From the session on. *)
Definition sending (id : Z) (reader sock : Fd) (device endpoint : list byte) (bootstrap : Medium.t) (mediums : list Z)
    (files : list Outbound.OutFile) : Thread :=
  fun n =>
    let* outcome := send_ id n reader sock device endpoint bootstrap mediums files in
    match outcome with
    | None => pure false
    | Some outcome => do* report_outcome id outcome in do* finish_ id in pure true
    end.

(** The virtual socket of an L2CAP channel. *)
Definition open_mux (reader sock : Fd) : J (result Fd IoError) :=
  let* spawned := syscall spawns in
  fun j =>
    let (r, j) := Mux.open (fun b j => syscall (put sock b) j) spawned (FrameStream.new (reads reader)) j in
    (match r with Ok frames => Ok (packets sock frames) | Err e => Err e end, j).

Definition send_common (peer_id : list byte) (socket : Fd) (files : list Fd) (names : list (list byte)) (multiplexed : bool)
    : J Reply :=
  let* mode := look quickshare_mode in
  if negb (Visibility.allows_send mode) then pure (Err PERMISSION_DENIED, None)
  else if negb (len files =? len names) then pure (Err BAD_VALUE, None)
  else
    let* sock := syscall (dup socket) in
    match sock with
    | None => pure (Err BAD_VALUE, None)
    | Some sock =>
        let* out_files := take_files (zip files names) in
        match out_files with
        | None => pure (Err BAD_VALUE, None)
        | Some out_files =>
            let* id := begin_ false in
            match id with
            | None => pure (Err WOULD_BLOCK, None)
            | Some id =>
                let* device := look (fun d => Device.device_name (props d)) in
                let* endpoint := endpoint_ in
                pure (Ok id, Some (guarded id (fun n =>
                  let* reader := syscall (dup sock) in
                  match reader with
                  | None => do* finish_ id in pure true
                  | Some reader =>
                      let* mediums := look (fun d => Device.quickshare_mediums (props d)) in
                      if multiplexed then
                        let* acks := syscall (dup sock) in
                        match acks with
                        | None => do* finished id STATUS_FAILED in do* finish_ id in pure true
                        | Some _ =>
                            let* virtual := open_mux reader sock in
                            match virtual with
                            | Ok v => sending id v v device endpoint Medium.Bluetooth mediums out_files n
                            | Err e => do* report_outcome id (Err e) in do* finish_ id in pure true
                            end
                        end
                      else sending id reader sock device endpoint Medium.Bluetooth mediums out_files n
                  end)))
            end
        end
    end.

Definition sendFilesOnSocket (peer_id : list byte) (socket : Fd) (files : list Fd) (names : list (list byte)) : J Reply :=
  send_common peer_id socket files names false.
Definition sendFilesOnL2capSocket (peer_id : list byte) (socket : Fd) (files : list Fd) (names : list (list byte)) : J Reply :=
  send_common peer_id socket files names true.

(** The first peer of that id, if it has an address. *)
Definition lan_route (peer_id : list byte) (table : list Discovery.QsPeer) : option (list byte * Z) :=
  let^ ip := list_find (fun p => Discovery.endpoint_id p = peer_id) table in
  let^ a := Discovery.q_addr ip.2 in Some (a, Discovery.q_port ip.2).

Definition send_on_lan (peer_id : list byte) (files : list Fd) (names : list (list byte)) : J Reply :=
  let* mode := look quickshare_mode in
  if negb (Visibility.allows_send mode) then pure (Err PERMISSION_DENIED, None)
  else if negb (len files =? len names) then pure (Err BAD_VALUE, None)
  else
    let* table := look qs_lan in
    match table with
    | None => pure (Err UNKNOWN_ERROR, None)
    | Some table =>
        match lan_route peer_id table with
        | None => pure (Ok 0, None)
        | Some (addr, port) =>
            if port =? 0 then pure (Ok 0, None)
            else
              let* sock := syscall (dial (Outbound.V4 addr) port) in
              match sock with
              | None => pure (Ok 0, None)
              | Some sock =>
                  let* out_files := take_files (zip files names) in
                  match out_files with
                  | None => pure (Err BAD_VALUE, None)
                  | Some out_files =>
                      let* id := begin_ false in
                      match id with
                      | None => pure (Err WOULD_BLOCK, None)
                      | Some id =>
                          let* device := look (fun d => Device.device_name (props d)) in
                          let* endpoint := endpoint_ in
                          pure (Ok id, Some (guarded id (fun n =>
                            let* reader := syscall (dup sock) in
                            match reader with
                            | None => do* finish_ id in pure true
                            | Some reader => sending id reader sock device endpoint Medium.WifiLan [Medium.as_u64 Medium.WifiLan] out_files n
                            end)))
                      end
                  end
              end
        end
    end.

Definition sendFilesOnLan (peer_id : list byte) (files : list Fd) (names : list (list byte)) : J Reply :=
  send_on_lan peer_id files names.

(** ** Sending with AirDrop *)

Definition raw (r : Read) : Http.Read := match r with Data b => Http.Data b | ReadError => Http.Failed end.

Fixpoint take_items (fs : list (Fd * list byte)) : J (option (list Send.Item)) :=
  match fs with
  | [] => pure (Some [])
  | (f, n) :: fs =>
      let* file := syscall (dup f) in
      match file with
      | None => pure None
      | Some file =>
          let* size := syscall (file_len file) in
          let* rest := take_items fs in
          pure (let^ rest := rest in
                Some (Send.mkItem (raw <$> reads file) (unwrap_or (safe_leaf n) (str "file")) (unwrap_or size 0) :: rest))
      end
  end.

(** The client's network on this thread: the closures [sendFiles] hands to [send::send].  The
    one for progress reports it and does not touch the clock of the slot. *)
Definition airdrop_network (id : Z) (target : Peers.Target) : Send.Network := {|
  Send.world := Job;
  Send.connected :=
    let* c := syscall (tls_connect target) in
    match c with
    | Ok fd => do* arm_abort_ id (Some fd) in pure (Ok tt)
    | Err e => pure (Err e)
    end;
  Send.write_all b := syscall (tls_write b);
  Send.flush := syscall tls_flush;
  Send.ready := syscall tls_ready;
  Send.cancelled := cancelled_ id;
  Send.progress done total j := (announce (OnTransferProgress id (as_i64 done) (as_i64 total)) j).2
|}.

Definition airdrop_send (id : Z) (target : Peers.Target) (items : list Send.Item) (name model : list byte) (fuel : nat)
    : J (result unit Send.SendError) :=
  fun j =>
    let N := airdrop_network id target in
    let (r, s) := Send.send fuel process_id items name model (Send.mkSt j (tls_reads target) []) in (r, Send.wld s).

Definition kind_of (e : Send.SendError) : J Kind :=
  match e with
  | Send.PermissionDenied => pure KPermissionDenied
  | Send.TimedOut | Send.Unfinished => pure KTimedOut
  | Send.OsError => syscall last_kind
  | _ => pure KOther
  end.

(** [acc.entry(addr).or_insert(..)], its stalls raised to what labels the peer. *)
Definition label_now (addr : list byte) (now : Z) (acc : Peers.AcceptState) : Peers.AcceptState :=
  let entry := unwrap_or (acc !! addr) (Peers.mkAccepting 0 now) in
  <[addr := Peers.mkAccepting (Z.max (Peers.stalls entry) Peers.ACCEPT_STALLS_TO_LABEL) now]> acc.

Definition forget (peer_instance : list byte) (ps : list Mdns.Peer) : list Mdns.Peer :=
  filter (fun p => Mdns.p_instance p <> peer_instance) ps.

(** [Err(e)]: the label, the peer, and the status. *)
Definition after_failure (target : Peers.Target) (peer_instance : list byte) (e : Send.SendError) : J Z :=
  do* match e with
      | Send.Unfinished =>
          access (fun d => (tt, set_accepting (let^ a := accepting d in Some (label_now (Peers.t_addr target) (clock d) a)) d))
      | _ => pure tt
      end in
  let* k := kind_of e in
  let status := match k with KPermissionDenied => STATUS_DECLINED | _ => STATUS_FAILED end in
  do* match k with
      | KConnectionReset | KTimedOut =>
          access (fun d => (tt, set_published (let^ ps := published d in Some (forget peer_instance ps)) d))
      | _ => pure tt
      end in
  pure status.

Definition sending_airdrop (id : Z) (target : Peers.Target) (peer_instance : list byte) (items : list Send.Item)
    (name model : list byte) : Thread :=
  fun n =>
    let* result := airdrop_send id target items name model n in
    match result with
    | Err Send.Running => pure false
    | _ =>
        do* arm_abort_ id None in
        let* status := match result with Ok _ => pure STATUS_OK | Err e => after_failure target peer_instance e end in
        do* announce (OnTransferFinished id status) in
        do* finish_ id in pure true
    end.

Definition sendFiles (peer_id : list byte) (files : list Fd) (names : list (list byte)) : J Reply :=
  let* mode := look airdrop_mode in
  if negb (Visibility.allows_send mode) then pure (Err PERMISSION_DENIED, None)
  else if negb (len files =? len names) then pure (Err ILLEGAL_ARGUMENT, None)
  else
    let* ps := look published in
    let* own := syscall own_address in
    let* scope := syscall scope_of in
    match (let^ ps := ps in Peers.resolve own scope peer_id ps) with
    | None => pure (Err ILLEGAL_ARGUMENT, None)
    | Some target =>
        let* items := take_items (zip files names) in
        match items with
        | None => pure (Err ILLEGAL_ARGUMENT, None)
        | Some items =>
            let* id := begin_ true in
            match id with
            | None => pure (Err WOULD_BLOCK, None)
            | Some id =>
                let* name := look (fun d => Device.device_name (props d)) in
                let* model := look (fun d => Device.device_model (props d)) in
                pure (Ok id, Some (guarded id (sending_airdrop id target peer_id items name model)))
            end
        end
    end.

(** ** Answers, and stopping *)

Definition provideWifiDirectGroup (transfer_id : Z) (group : TarishGroup) : J unit :=
  if is_empty (gr_ssid group) then change_table (Transfers.provide_group transfer_id None)
  else change_table (Transfers.provide_group transfer_id (Some group)).

Definition provideUpgradeSocket (transfer_id : Z) (socket : option Fd) : J unit :=
  match socket with
  | None => change_table (Transfers.provide_upgrade transfer_id None)
  | Some pfd =>
      let* f := syscall (dup pfd) in change_table (Transfers.provide_upgrade transfer_id f)
  end.

Definition respondToOffer (transfer_id : Z) (accept : bool) : J unit :=
  change_table (Transfers.answer transfer_id accept).

(** With the thread that shuts the socket down after the grace period. *)
Definition cancelTransfer (transfer_id : Z) : J (option Thread) :=
  let* id := if transfer_id =? 0 then look (fun d => Transfers.current (table d)) else pure transfer_id in
  if id =? 0 then pure None
  else
    do* change_table (Transfers.cancel id) in
    pure (Some (fun _ =>
      let* s := on_table (Transfers.force_cancel id) in
      do* match s with Some s => syscall (fun n => (tt, shut s n)) | None => pure tt end in
      pure true)).

Definition getReceivedFiles : J (list (list byte)) := look (fun d => received_files (fs d)).
Definition openReceivedFile (name : list byte) : J (result (list byte) Refusal) :=
  look (fun d => match open_received (fs d) name with Some b => Ok b | None => Err ILLEGAL_ARGUMENT end).
Definition deleteReceivedFile (name : list byte) : J (result unit Refusal) :=
  access (fun d => match delete_received (fs d) name with
                   | Some f => (Ok tt, set_fs f d)
                   | None => (Err ILLEGAL_ARGUMENT, d)
                   end).

Definition quickShareAdvertisement (ident : Discovery.QsIdentity) (bluetooth_mac : list byte) : J (list byte) :=
  let* mode := look quickshare_mode in
  if negb (Visibility.allows_receive mode) then pure []
  else
    match Device.parse_mac bluetooth_mac with
    | None => pure []
    | Some mac =>
        pure (unwrap_or (Ble.build_advertisement (Discovery.id_str ident) (Discovery.id_info ident) (Some mac)
                           (Discovery.id_token ident) None) [])
    end.

(** ["{id}|{name}|{addr}:{port}"]; [show_ip] is how an address is printed. *)
Definition getQuickShareLanPeers (show_ip : list byte -> list byte) : J (list (list byte)) :=
  look (fun d => match qs_lan d with
                 | None => []
                 | Some t => (fun p => Discovery.endpoint_id p ++ str "|" ++ unwrap_or (Discovery.q_name p) [] ++ str "|"
                                       ++ match Discovery.q_addr p with Some a => show_ip a | None => Discovery.q_host p end
                                       ++ str ":" ++ show (Discovery.q_port p)) <$> t
                 end).

(** The calls that start a transfer. *)
Inductive Request : Type :=
| ReceiveOnSocket (socket : Fd)
| SendFiles (peer_id : list byte) (files : list Fd) (names : list (list byte))
| SendFilesOnSocket (peer_id : list byte) (socket : Fd) (files : list Fd) (names : list (list byte))
| SendFilesOnL2capSocket (peer_id : list byte) (socket : Fd) (files : list Fd) (names : list (list byte))
| SendFilesOnLan (peer_id : list byte) (files : list Fd) (names : list (list byte)).

Definition request (r : Request) : J Reply :=
  match r with
  | ReceiveOnSocket s => receiveOnSocket s
  | SendFiles p fs ns => sendFiles p fs ns
  | SendFilesOnSocket p s fs ns => sendFilesOnSocket p s fs ns
  | SendFilesOnL2capSocket p s fs ns => sendFilesOnL2capSocket p s fs ns
  | SendFilesOnLan p fs ns => sendFilesOnLan p fs ns
  end.

End Jobs.

(** ** A client that stays *)

Section Loyal.
Context `{System} `{Rand}.
(** [c] is registered once, other threads leave it so, and no call finds it dead. *)
Context (c : Client).

Definition member (d : Daemon) : Prop := exists cs, callbacks d = Some cs /\ c ∈ cs /\ NoDup cs.
Definition loyal (o : Daemon -> Daemon) : Prop := forall d, member d -> member (o d).
Record registered (j : Job) : Prop := mkRegistered {
  rg_now : member (daemon j);
  rg_others : Forall loyal (others j);
  rg_waits : Forall (Forall loyal) (waits j)
}.

Definition regular {A} (m : J A) : Prop := forall j, registered j -> registered (m j).2.

Lemma regular_pure {A} (a : A) : regular (pure a).
Proof. by intros j. Qed.

Lemma regular_andthen {A B} (m : J A) (k : A -> J B) : regular m -> (forall a, regular (k a)) -> regular (andthen m k).
Proof. intros Hm Hk j Hj. specialize (Hm j Hj). unfold andthen. destruct (m j) as [a j']. by apply Hk. Qed.

(** An access that leaves the list alone. *)
Definition spares {A} (f : Daemon -> A * Daemon) : Prop := forall d, member d -> member (f d).2.

Lemma regular_held {A} (f : Daemon -> A * Daemon) : spares f -> regular (held f).
Proof. intros Hf j [Hn Ho Hw]. unfold held. specialize (Hf _ Hn). destruct (f (daemon j)) as [a d]. by constructor. Qed.

Lemma registered_interfere j : registered j -> registered (interfere j).
Proof.
  intros [Hn Ho Hw]. unfold interfere. destruct (others j) as [|o os] eqn:Hos; [by constructor; rewrite ?Hos|].
  apply Forall_cons in Ho as [Ho Hos']. constructor; cbn; [by apply Ho|done|done].
Qed.

Lemma regular_access {A} (f : Daemon -> A * Daemon) : spares f -> regular (access f).
Proof. intros Hf j Hj. by apply regular_held, registered_interfere. Qed.

Lemma regular_syscall {A} (f : net -> A * net) : regular (syscall f).
Proof. intros j [Hn Ho Hw]. unfold syscall. destruct (f (sys j)). by constructor. Qed.
Lemma regular_act a : regular (act a).
Proof. intros j [Hn Ho Hw]. by constructor. Qed.
Lemma regular_patience : regular patience.
Proof. intros j [Hn Ho Hw]. by constructor. Qed.
Lemma regular_look {A} (f : Daemon -> A) : regular (look f).
Proof. apply regular_access. by intros d. Qed.
Lemma regular_on_table {A} (f : Transfers.St -> A * Transfers.St) : regular (on_table f).
Proof. apply regular_access. intros d Hd. by destruct (f (table d)). Qed.
Lemma regular_change_table f : regular (change_table f).
Proof. apply regular_on_table. Qed.

(** A wait of any kind: what other threads do meanwhile is loyal too. *)
Lemma regular_turns {A} (k : list (Daemon -> Daemon) -> J A) : (forall ts, Forall loyal ts -> regular (k ts)) -> regular (andthen turns k).
Proof.
  intros Hk j [Hn Ho Hw]. unfold andthen, turns. destruct (waits j) as [|w ws]; cbn.
  - apply Hk; [done|]. by constructor.
  - apply Forall_cons in Hw as [Hw Hws]. apply Hk; [done|]. by constructor.
Qed.

Lemma regular_late {A} (k : (Daemon -> Daemon) -> J A) : (forall o, loyal o -> regular (k o)) -> regular (andthen late k).
Proof.
  intros Hk j [Hn Ho Hw]. unfold andthen, late. destruct (others j) as [|o os] eqn:Hos.
  - apply Hk; [by intros d|]. constructor; rewrite ?Hos; done.
  - apply Forall_cons in Ho as [Ho Hos']. apply Hk; [done|]. by constructor.
Qed.

Lemma await_spares {A} (pass : Daemon -> Transfers.Pass A * Daemon) dflt ts :
  (forall d, member d -> member (pass d).2) -> Forall loyal ts -> spares (Transfers.await pass dflt ts).
Proof.
  intros Hp. induction ts as [|o ts IH]; intros Ht d Hd; cbn [Transfers.await]; specialize (Hp d Hd); destruct (pass d) as [[a|] d']; try done.
  apply Forall_cons in Ht as [Ho Ht]. by apply IH, Ho.
Qed.

Lemma regular_awaiting {A} (pass : Transfers.St -> Transfers.Pass A * Transfers.St) dflt : regular (awaiting pass dflt).
Proof.
  apply regular_turns. intros ts Ht. apply regular_access, await_spares; [|done]. intros d Hd. by destruct (pass (table d)).
Qed.

Lemma arm_spares ts l : Forall loyal ts -> loyal l -> spares (Transfers.arm_wifi_direct table set_table ts l).
Proof.
  intros Ht Hl d Hd. unfold Transfers.arm_wifi_direct. destruct (Transfers.wifi_direct_active (table d)); [done|].
  assert (Hw : member (Transfers.wait_while (fun s => Transfers.airdrop_busy (table s)) ts d).2).
  { revert d Hd. induction Ht as [|o ts Ho _ IH]; intros d Hd; cbn [Transfers.wait_while]; destruct (Transfers.airdrop_busy _); try done. by apply IH, Ho. }
  destruct (Transfers.wait_while _ ts d) as [free d1]. cbn [snd] in Hw. destruct (negb free); [done|]. cbv zeta.
  destruct (Transfers.wifi_direct_active (table d1)); [done|].
  assert (Hd2 : member (l (set_table (Transfers.set_wifi_direct true (table d1)) d1))) by (by apply Hl).
  by destruct (Transfers.airdrop_busy _).
Qed.

Lemma regular_arm : regular arm_.
Proof.
  apply regular_turns. intros ts Ht. apply regular_late. intros l Hl.
  apply regular_andthen; [by apply regular_access, arm_spares|]. intros r.
  apply regular_andthen; [apply regular_act|]. intros []. apply regular_pure.
Qed.

Context (Halive : forall n, (gone c n).1 = false).

(** Who is called, and who is left. *)
Lemma ring_calls cs e j :
  let (live, j') := ring cs e j in
  acts j' = acts j ++ ((fun c => Called c e) <$> cs) /\ daemon j' = daemon j /\ others j' = others j /\ waits j' = waits j /\
  live ⊆ cs /\ (c ∈ cs -> c ∈ live) /\ (NoDup cs -> NoDup live).
Proof using Halive.
  revert j. induction cs as [|c' cs IH]; intros j; cbn [ring].
  { cbn. rewrite app_nil_r. by split_and!. }
  unfold andthen, act, syscall. cbn. pose proof (Halive (sys j)) as Hal. destruct (gone c' (sys j)) as [dead n] eqn:Hg.
  set (j0 := mkJob _ _ _ _ _ n _ _). specialize (IH j0). destruct (ring cs e j0) as [rest j'].
  destruct IH as (Ha & Hd & Ho & Hw & Hs & Hc & Hn). cbn in Ha, Hd, Ho, Hw. split_and!; try done.
  - by rewrite Ha, <- app_assoc.
  - destruct dead; set_solver.
  - intros [<-|Hin]%elem_of_cons.
    + rewrite Hg in Hal. cbn in Hal. subst dead. by left.
    + destruct dead; [by apply Hc|right; by apply Hc].
  - intros [Hno Hnd]%NoDup_cons. destruct dead; [by apply Hn|]. apply NoDup_cons. split; [|by apply Hn]. intros Hin. by apply Hno, Hs.
Qed.

Lemma regular_ring cs e : regular (ring cs e).
Proof using Halive.
  intros j [Hn Ho Hw]. pose proof (ring_calls cs e j) as Hr. destruct (ring cs e j) as [live j'].
  destruct Hr as (_ & Hd & Ho' & Hw' & _). by constructor; cbn [snd]; rewrite ?Hd, ?Ho', ?Hw'.
Qed.

Lemma regular_announce e : regular (announce e).
Proof using Halive.
  apply regular_andthen; [apply regular_look|]. intros [cs|]; [|apply regular_pure].
  apply regular_andthen; [apply regular_ring|]. intros; apply regular_pure.
Qed.

(** The list, and the job that has looked at it. *)
Lemma look_callbacks {A} (k : option (list Client) -> J A) j :
  andthen (look callbacks) k j = k (callbacks (daemon (interfere j))) (interfere j).
Proof using. unfold andthen, look, access, held. by destruct (interfere j). Qed.

Lemma regular_notify_clients e : regular (notify_clients e).
Proof using Halive.
  intros j Hj. unfold notify_clients. rewrite look_callbacks. apply registered_interfere in Hj.
  destruct Hj as [(cs & Hcs & Hin & Hnd) Ho Hw]. rewrite Hcs. unfold andthen. pose proof (ring_calls cs e (interfere j)) as Hr.
  destruct (ring cs e (interfere j)) as [live j']. destruct Hr as (_ & Hd & Ho' & Hw' & _ & Hc & Hn).
  constructor; cbn; rewrite ?Ho', ?Hw'; try done. exists live. split_and!; [done|by apply Hc|by apply Hn].
Qed.

End Loyal.

Create HintDb regular.
#[export] Hint Resolve regular_pure regular_look regular_syscall regular_act regular_patience regular_on_table regular_change_table
  regular_awaiting regular_arm regular_ring regular_announce regular_notify_clients : regular.

Ltac regular :=
  lazymatch goal with
  | |- regular _ (andthen _ _) => apply regular_andthen; [regular|intros; regular]
  | |- regular _ (access _) => apply regular_access; try solve [let x := fresh in let Hx := fresh in intros x Hx; repeat case_match; done]
  | |- regular _ (if ?b then _ else _) => destruct b; regular
  | |- regular _ (match ?x with _ => _ end) => destruct x; regular
  | |- _ => try solve [auto with regular]
  end.

Section LoyalSessions.
Context `{System} `{Ec} `{Digest} `{Hmac} `{Cipher} `{Memcmp}.
Context (c : Client) (Halive : forall n, (gone c n).1 = false).
Context (id : Z) (peer : list byte).
Abbreviation regular := (regular c).

#[local] Hint Resolve Halive : regular.

Lemma regular_finish i : regular (finish_ i).
Proof using. unfold finish_. regular. Qed.

Lemma regular_progress d t : regular (progress_ id d t).
Proof using Halive. unfold progress_, touch_. regular. Qed.

Lemma regular_arm_abort i s : regular (arm_abort_ i s).
Proof using. unfold arm_abort_. regular. Qed.

Lemma regular_remove_all ps : regular (remove_all ps).
Proof using. induction ps as [|p ps IH]; cbn [remove_all]; regular. Qed.

Lemma regular_told n : regular (told id n).
Proof using Halive.
  destruct n; cbn [told]; try solve [auto with regular].
  - apply regular_progress.
  - apply regular_arm_abort.
  - apply regular_finish.
  - intros j [Hn Ho Hw]. apply regular_remove_all. by constructor.
Qed.

Lemma regular_ask t files : regular (ask_ id peer t files).
Proof using Halive. unfold ask_. regular. Qed.

Lemma regular_create name : regular (create_ name).
Proof using. unfold create_. regular. intros j [Hn Ho Hw]. by constructor. Qed.

Lemma regular_write p b : regular (write_ p b).
Proof using. unfold write_. regular. Qed.

Lemma regular_ask_group n : regular (ask_group id n).
Proof using Halive. induction n as [|n IH]; cbn [ask_group]; regular. Qed.

Lemma regular_host_group : regular (host_group_ id).
Proof using Halive. unfold host_group_. regular. apply regular_ask_group. Qed.

Lemma regular_join r : regular (join_wifi_ id r).
Proof using Halive. unfold join_wifi_. regular. Qed.

(** The account of the classes once more, for the one thing that is to be kept. *)
Definition still (j : Job) (_ : list (@Obs (job_world id))) : Prop := registered c j.

Lemma still_steady : @steady (job_world id) still.
Proof using Halive.
  constructor; intros; try done.
  - intros w tr. apply regular_syscall.
  - intros w tr. apply regular_syscall.
  - intros w tr. apply regular_syscall.
  - intros w tr. apply (regular_andthen c); [apply regular_syscall|intros; apply regular_pure].
  - intros w tr. apply regular_look.
  - by apply regular_told.
Qed.

Lemma still_hospitable : @hospitable (job_world id) (qs_host id peer) still.
Proof using Halive.
  constructor.
  - intros p files w tr Hw. change (@ask _ (qs_host id peer) Stream.id p files w) with (ask_ id peer id files w).
    pose proof (regular_ask id files w Hw) as Ha. by destruct (ask_ id peer id files w).
  - intros pid name w tr Hw. change (@create _ (qs_host id peer) name w) with ((if valid name then create_ name else pure None) w).
    destruct (valid name); [|done]. pose proof (regular_create name w Hw) as Ha. by destruct (create_ name w) as [[k|] w'].
  - intros k b w tr. apply regular_write.
  - intros k w tr. apply regular_pure.
  - intros w tr. apply regular_host_group.
  - intros w tr. apply regular_syscall.
  - intros w tr. apply regular_syscall.
  - intros w tr. apply regular_syscall.
  - intros w tr. apply regular_syscall.
Qed.

Lemma still_sendable : @sendable (job_world id) (transfer_progress id) still.
Proof using Halive.
  constructor; intros.
  - intros w tr. apply regular_syscall.
  - intros w tr. apply regular_pure.
  - intros w tr. apply regular_join.
  - intros w tr. apply regular_syscall.
  - intros w tr. apply regular_syscall.
Qed.

Lemma regular_serve n reader sock boot : regular (serve_ id peer n reader sock boot).
Proof using Halive.
  intros j Hj. unfold serve_. pose proof (@serve_keeps (job_world id) (qs_host id peer) _ _ _ _ _ _ still still_steady still_hospitable n (reads reader) sock boot j (gen j) Hj) as Hk.
  destruct (Connection.serve _ _ _ _ _ _) as [r l]. unfold holds, still in Hk. destruct Hk. by constructor.
Qed.

Lemma regular_send n reader sock device endpoint boot mediums files : regular (send_ id n reader sock device endpoint boot mediums files).
Proof using Halive.
  intros j Hj. unfold send_.
  pose proof (@send_keeps (job_world id) (transfer_progress id) _ _ _ _ _ _ still still_steady still_sendable n (reads reader) sock device endpoint boot mediums files j (gen j) Hj) as Hk.
  destruct (Outbound.send _ _ _ _ _ _ _ _ _ _) as [r l]. unfold holds, still in Hk. destruct Hk. by constructor.
Qed.

End LoyalSessions.

(** ** How a thread ends *)

Section Ending.
Context `{Airdrop_} `{Ec} `{Digest} `{Hmac} `{Cipher} `{Memcmp} `{Send.Gzip} `{Send.Odc}.
Context (id : Z).

#[local] Notation "'let*' x ':=' m 'in' k" := (andthen m (fun x => k))
  (at level 10, x pattern, m at level 100, k at level 200).
#[local] Notation "'do*' m 'in' k" := (andthen m (fun _ => k))
  (at level 10, m at level 100, k at level 200).

(** Nothing about an end, and no new transfer. *)
Definition unfinished (a : Act) : Prop :=
  match a with Called _ (OnTransferFinished _ _) | Began _ => False | _ => True end.

Lemma orderly_unfinished i peer l : orderly i peer l -> Forall unfinished l.
Proof.
  intros Ho. apply Forall_forall. intros a (pre & post & ->)%list_elem_of_split. specialize (Ho pre a post eq_refl).
  by destruct a as [c []| | | | | | |].
Qed.

Definition tells (st : Z) (cs : list Client) : list Act := (fun c => Called c (OnTransferFinished id st)) <$> cs.

Definition alive (c : Client) : Prop := forall n, (gone c n).1 = false.
(** No descriptor fails to be duplicated. *)
Definition duplicates : Prop := forall s n, is_Some (dup s n).1.

(** Ended, since it had done [base] and was in [j0]: whoever was registered all along was told
    once how, and the slot is free. *)
Record over (base : list Act) (j0 j : Job) : Prop := mkOver {
  ov_acts : exists l st cs k, acts j = base ++ l ++ tells st cs ++ replicate (S k) (Ended id) /\ Forall unfinished l /\
    (duplicates -> forall c, alive c -> registered c j0 -> c ∈ cs /\ NoDup cs);
  ov_slot : Transfers.current (table (daemon j)) = id -> id = 0
}.

(** [finish] frees the slot. *)
Lemma finish_acts j : acts (finish_ id j).2 = acts j ++ [Ended id].
Proof.
  unfold finish_, andthen, change_table, on_table, access, held. cbn. unfold interfere.
  by destruct (others j).
Qed.

Lemma finish_frees j : Transfers.current (table (daemon (finish_ id j).2)) = id -> id = 0.
Proof.
  change (Transfers.current (Transfers.finish id (table (daemon (interfere j)))) = id -> id = 0).
  destruct (Transfers.finish_fields id (table (daemon (interfere j)))) as [-> _].
  destruct (Z.eqb_spec (Transfers.current (table (daemon (interfere j)))) id); [by intros <-|done].
Qed.

Section Thread.
Context (peer : list byte).

(** On its way. *)
Record going (base : list Act) (j0 j : Job) : Prop := mkGoing {
  go_kept : exists ms, kept id peer base ms [] j;
  go_told : forall c, alive c -> registered c j0 -> registered c j
}.

Definition smooth {A} (m : J A) : Prop :=
  (forall base ms j, kept id peer base ms [] j -> exists ms, kept id peer base ms [] (m j).2) /\
  (forall c, alive c -> regular c m).

(** What a thread does from here to where it is stopped, or ends. *)
Definition ends (m : J bool) : Prop :=
  forall base j0 j, going base j0 j -> let (e, j') := m j in if e then over base j0 j' else going base j0 j'.

Lemma smooth_stays {A} (m : J A) : (forall base, stays id peer base m) -> (forall c, alive c -> regular c m) -> smooth m.
Proof. intros Hs Hr. split; [|done]. intros base ms j Hj. exists ms. by apply Hs. Qed.

Lemma smooth_pure {A} (a : A) : smooth (pure a).
Proof. apply smooth_stays; intros; [apply stays_pure|apply regular_pure]. Qed.
Lemma smooth_look {A} (f : Daemon -> A) : smooth (look f).
Proof. apply smooth_stays; intros; [apply stays_look|apply regular_look]. Qed.
Lemma smooth_syscall {A} (f : net -> A * net) : smooth (syscall f).
Proof. apply smooth_stays; intros; [apply stays_syscall|apply regular_syscall]. Qed.
Lemma smooth_access {A} (f : Daemon -> A * Daemon) : (forall c, spares c f) -> smooth (access f).
Proof. intros Hf. apply smooth_stays; intros; [apply stays_access|by apply regular_access]. Qed.
Lemma smooth_arm_abort s : smooth (arm_abort_ id s).
Proof. apply smooth_stays; intros; [apply stays_arm_abort|apply regular_arm_abort]. Qed.
Lemma smooth_cancelled : smooth (cancelled_ id).
Proof. apply smooth_look. Qed.
Lemma smooth_andthen {A B} (m : J A) (k : A -> J B) : smooth m -> (forall a, smooth (k a)) -> smooth (andthen m k).
Proof.
  intros [Hm Hm'] Hk. split.
  - intros base ms j Hj. destruct (Hm base ms j Hj) as [ms' Hj']. unfold andthen. destruct (m j) as [a j']. by apply (Hk a) in Hj'.
  - intros c Hc. apply regular_andthen; [by apply Hm'|]. intros a. by apply Hk.
Qed.

Lemma smooth_serve n reader sock boot : smooth (serve_ id peer n reader sock boot).
Proof.
  split; [|intros c Hc; by apply regular_serve]. intros base ms j Hj.
  destruct (serve_kept id peer base ms n reader sock boot j Hj) as (tr & _ & Hk). by eexists.
Qed.

Lemma smooth_send n reader sock device endpoint boot mediums files : smooth (send_ id n reader sock device endpoint boot mediums files).
Proof. split; [intros base ms j; apply send_kept|intros c Hc; by apply regular_send]. Qed.

Lemma smooth_airdrop target items name model fuel : smooth (airdrop_send id target items name model fuel).
Proof.
  assert (Hnet : forall I : Job -> Prop, (forall A (m : J A), (forall c, alive c -> regular c m) -> (forall base, stays id peer base m) ->
      forall j, I j -> I (m j).2) -> forall j, I j -> I (airdrop_send id target items name model fuel j).2).
  { intros I HI j Hj. unfold airdrop_send. set (N := airdrop_network id target).
    assert (Hn : networked I).
    { constructor; repeat intros ?; apply HI; try done; intros; cbn [Send.connected N airdrop_network].
      all: first [apply regular_syscall | apply stays_syscall | apply regular_look | apply stays_look
                 | by apply regular_announce | by apply stays_announce | idtac].
      - apply regular_andthen; [apply regular_syscall|]. intros [fd|e]; [|apply regular_pure].
        apply regular_andthen; [apply regular_arm_abort|]. intros; apply regular_pure.
      - apply stays_andthen; [apply stays_syscall|]. intros [fd|e]; [|apply stays_pure].
        apply stays_andthen; [apply stays_arm_abort|]. intros; apply stays_pure. }
    pose proof (airdrop_preserves I Hn fuel process_id items name model (Send.mkSt j (tls_reads target) []) Hj) as Hp.
    by destruct (Send.send _ _ _ _ _ _) as [r s]. }
  split.
  - intros base ms j Hj. exists ms. revert j Hj. apply Hnet. intros A m _ Hm j Hj. by apply Hm.
  - intros c Hc j. apply Hnet. intros A m Hm _. by apply Hm.
Qed.

Lemma going_smooth {A} (m : J A) base j0 j : smooth m -> going base j0 j -> going base j0 (m j).2.
Proof.
  intros [Hm Hm'] [[ms Hj] Ht]. constructor; [by apply (Hm base ms)|]. intros c Hc Hc0. apply Hm'; [done|]. by apply Ht.
Qed.

Lemma ends_andthen {A} (m : J A) (k : A -> J bool) : smooth m -> (forall a, ends (k a)) -> ends (andthen m k).
Proof.
  intros Hm Hk base j0 j Hg. apply (going_smooth m base j0 j Hm) in Hg. unfold andthen. destruct (m j) as [a j']. by apply Hk.
Qed.

Lemma ends_running : ends (pure false).
Proof. by intros base j0 j Hj. Qed.

Lemma andthen_assoc {A B C} (m : J A) (k : A -> J B) (l : B -> J C) j :
  andthen (andthen m k) l j = andthen m (fun a => andthen (k a) l) j.
Proof. unfold andthen. by destruct (m j). Qed.

Lemma announce_calls e j :
  exists cs, acts (announce e j).2 = acts j ++ ((fun c => Called c e) <$> cs) /\
    (forall c, alive c -> registered c j -> c ∈ cs /\ NoDup cs).
Proof.
  unfold announce. rewrite look_callbacks. assert (Ha : acts (interfere j) = acts j) by (unfold interfere; by destruct (others j)).
  destruct (callbacks (daemon (interfere j))) as [cs|] eqn:Hcs.
  - exists cs. split.
    + unfold andthen. rewrite <- Ha. clear Hcs Ha. generalize (interfere j). clear j. induction cs as [|c cs IH]; intros j; cbn [ring fmap list_fmap].
      { by rewrite app_nil_r. }
      unfold andthen at 1, act. unfold andthen at 1, syscall. destruct (gone c _) as [dead n]. unfold andthen.
      set (j1 := mkJob _ _ _ _ _ n _ _). specialize (IH j1). destruct (ring cs e j1) as [live j2]. cbn in *. by rewrite IH, <- app_assoc.
    + intros c Hc Hr. apply registered_interfere in Hr as [(cs' & Hcs' & Hin & Hnd) _ _]. rewrite Hcs in Hcs'. by injection Hcs' as <-.
  - exists []. cbn. rewrite app_nil_r. split; [done|]. intros c Hc Hr.
    apply registered_interfere in Hr as [(cs' & Hcs' & _) _ _]. by rewrite Hcs in Hcs'.
Qed.

(** The end itself. *)
Lemma ends_finished st : ends (do* finished id st in do* finish_ id in pure true).
Proof.
  intros base j0 j [[ms [(l & Hl & Ho & _)]] Ht]. unfold finished. destruct (announce_calls (OnTransferFinished id st) j) as (cs & Ha & Hcs).
  unfold andthen at 1. destruct (announce _ j) as [[] j1]. cbn [snd] in Ha. unfold andthen.
  pose proof (finish_acts j1) as Hf. pose proof (finish_frees j1) as Hs. destruct (finish_ id j1) as [[] j2]. cbn [snd pure] in *.
  constructor; [|exact Hs]. exists l, st, cs, O. split_and!.
  - by rewrite Hf, Ha, Hl, <- !app_assoc.
  - by eapply orderly_unfinished.
  - intros _ c Hc Hr. apply Hcs; [done|]. by apply Ht.
Qed.

Lemma ends_report outcome : ends (do* report_outcome id outcome in do* finish_ id in pure true).
Proof.
  destruct outcome as [[|]|e]; cbn [report_outcome]; try apply ends_finished.
  intros base j0 j Hg. rewrite andthen_assoc. revert base j0 j Hg. apply ends_andthen; [apply smooth_cancelled|].
  intros [|]; apply ends_finished.
Qed.

(** A descriptor that cannot be duplicated is the one case in which nobody is told. *)
Lemma ends_dup s (k : option Fd -> J bool) :
  (forall s', ends (k (Some s'))) -> (k None = (do* finish_ id in pure true) \/ ends (k None)) -> ends (let* r := syscall (dup s) in k r).
Proof.
  intros Hs Hn base j0 j Hg. pose proof (going_smooth _ base j0 j (smooth_syscall (dup s)) Hg) as Hg1. unfold andthen at 1.
  destruct (syscall (dup s) j) as [[s'|] j1] eqn:Hd; [by apply Hs|]. destruct Hn as [Hn|Hn]; [|by apply Hn].
  rewrite Hn. unfold andthen. assert (Hj1 : acts j1 = acts j) by (unfold syscall in Hd; destruct (dup s (sys j)); by injection Hd as _ <-).
  pose proof (finish_acts j1) as Hf. pose proof (finish_frees j1) as Hz. destruct (finish_ id j1) as [[] j2]. cbn [snd pure] in *.
  destruct Hg as [[ms [(l & Hl & Ho & _)]] Ht]. constructor; [|exact Hz]. exists l, 0, [], O. split_and!.
  - by rewrite Hf, Hj1, Hl, <- !app_assoc.
  - by eapply orderly_unfinished.
  - intros Hall. exfalso. destruct (Hall s (sys j)) as [x Hx]. unfold syscall in Hd. destruct (dup s (sys j)) as [o n]. cbn in Hx. subst o. by injection Hd.
Qed.

Lemma ends_guarded (body : Thread) n : ends (body n) -> ends (guarded id body n).
Proof.
  intros Hb base j0 j Hg. specialize (Hb base j0 j Hg). unfold guarded, andthen. destruct (body n j) as [[|] j1]; [|exact Hb].
  destruct Hb as [(l & st & cs & k & Ha & Hu & Hc) _]. pose proof (finish_acts j1) as Hf. pose proof (finish_frees j1) as Hs.
  destruct (finish_ id j1) as [[] j2]. cbn [snd pure] in *. constructor; [|exact Hs]. exists l, st, cs, (S k). split_and!; [|done|done].
  rewrite Hf, Ha, <- !app_assoc. do 3 f_equal. change [Ended id] with (replicate 1 (Ended id)). rewrite <- replicate_add. f_equal. lia.
Qed.

End Thread.
End Ending.

(** ** The threads, and the calls that start them *)

Section Accounts.
Context `{Airdrop_} `{Ec} `{Digest} `{Hmac} `{Cipher} `{Memcmp} `{Send.Gzip} `{Send.Odc}.

Lemma receiving_ends id peer reader sock boot n : ends id peer (receiving id peer reader sock boot n).
Proof.
  apply ends_andthen; [apply smooth_serve|]. intros [outcome|]; [apply ends_finished|apply ends_running].
Qed.

Lemma sending_ends id peer reader sock device endpoint boot mediums files n :
  ends id peer (sending id reader sock device endpoint boot mediums files n).
Proof.
  apply ends_andthen; [apply smooth_send|]. intros [outcome|]; [apply ends_report|apply ends_running].
Qed.

Lemma smooth_after_failure id peer target inst e : smooth id peer (after_failure target inst e).
Proof.
  assert (Hset : forall f : Daemon -> unit * Daemon, (forall d, callbacks (f d).2 = callbacks d) -> smooth id peer (access f)).
  { intros f Hf. apply smooth_access. intros c d. unfold member. by rewrite Hf. }
  unfold after_failure. apply smooth_andthen; [destruct e; try apply smooth_pure; by apply Hset|]. intros [].
  apply smooth_andthen; [destruct e; (apply smooth_pure || apply smooth_syscall)|]. intros k.
  apply smooth_andthen; [destruct k; (apply smooth_pure || by apply Hset)|]. intros []. apply smooth_pure.
Qed.

Lemma sending_airdrop_ends id peer target inst items name model n :
  ends id peer (sending_airdrop id target inst items name model n).
Proof.
  apply ends_andthen; [apply smooth_airdrop|]. intros r.
  assert (Hgo : forall m, smooth id peer m -> ends id peer (andthen (arm_abort_ id None) (fun _ => andthen m (fun status =>
    andthen (announce (OnTransferFinished id status)) (fun _ => andthen (finish_ id) (fun _ => pure true)))))).
  { intros m Hm. apply ends_andthen; [apply smooth_arm_abort|]. intros []. apply ends_andthen; [done|]. intros st. apply ends_finished. }
  destruct r as [[]|[]]; try apply ends_running; apply Hgo; (apply smooth_pure || apply smooth_after_failure).
Qed.

Lemma mux_open_keeps {W} (I : W -> Prop) (write : list byte -> W -> bool * W) spawned frames w :
  (forall b w, I w -> I (write b w).2) -> I w -> I (Mux.open write spawned frames w).2.
Proof.
  intros Hw Hi. unfold Mux.open. cbv zeta. set (b1 := Framing.encode _). pose proof (Hw b1 w Hi) as Ha. destruct (write b1 w) as [[] w1]; [|done].
  destruct (FrameStream.next frames) as [[ready|e] f]; [|done]. destruct (_ <? _); [done|]. destruct ready as [|b l]; [done|].
  destruct (_ =? _); [|done]. set (b2 := Framing.encode _). pose proof (Hw b2 w1 Ha) as Hb. by destruct (write b2 w1) as [[] w2].
Qed.

Lemma smooth_open_mux id peer reader sock : smooth id peer (open_mux reader sock).
Proof.
  apply smooth_andthen; [apply smooth_syscall|]. intros sp.
  assert (Hk : forall (I : Job -> Prop) j, (forall b j, I j -> I (syscall (put sock b) j).2) -> I j ->
    I (let (r, j) := Mux.open (fun b j => syscall (put sock b) j) sp (FrameStream.new (reads reader)) j in
       (match r with Ok frames => Ok (packets sock frames) | Err e => Err e end, j)).2).
  { intros I j HI Hj. pose proof (mux_open_keeps I (fun b j => syscall (put sock b) j) sp (FrameStream.new (reads reader)) j HI Hj) as Hm.
    by destruct (Mux.open _ _ _ _). }
  split.
  - intros base ms j Hj. exists ms. apply (Hk (kept id peer base ms [])); [|done]. intros b j'. apply stays_syscall.
  - intros c Hc j. apply (Hk (registered c)). intros b j'. apply regular_syscall.
Qed.

(** *** What a call comes to *)

(** Where a thread is that has started in [j]. *)
Definition account (id : Z) (j : Job) (r : bool * Job) : Prop :=
  let (e, j') := r in if e then over id (acts j) j j' else exists l, acts j' = acts j ++ l /\ Forall unfinished l.

Lemma ends_account id peer (m : J bool) j : ends id peer m -> created j = [] -> account id j (m j).
Proof.
  intros Ht Hc. pose proof (Ht (acts j) j j) as He. unfold account. destruct (m j) as [[|] j1].
  - apply He. constructor; [|done]. exists []. by apply fresh_kept.
  - destruct He as [[ms [(l & Hl & Ho & _)]] _]; [|exists l; split; [done|by eapply orderly_unfinished]].
    constructor; [|done]. exists []. by apply fresh_kept.
Qed.

(** The threads of a transfer: from their start to their end. *)
Definition accounted (id : Z) (t : Thread) : Prop := forall n j, created j = [] -> account id j (t n j).

Lemma ends_accounted id peer (t : Thread) : (forall n, ends id peer (t n)) -> accounted id t.
Proof. intros Ht n j Hc. by apply (ends_account id peer). Qed.

(** Either nothing has begun, or one transfer has. *)
Definition answered (before : list Act) (r : result Z Refusal * option Thread) (after : Job) : Prop :=
  match r.2 with
  | None => acts after = before /\ forall i, r.1 = Ok i -> i = 0
  | Some t => exists id, r.1 = Ok id /\ acts after = before ++ [Began id] /\ accounted id t
  end.

Definition sound (m : J (result Z Refusal * option Thread)) : Prop := forall j, answered (acts j) (m j).1 (m j).2.

Definition silent {A} (m : J A) : Prop := forall j, acts (m j).2 = acts j.

Lemma silent_look {A} (f : Daemon -> A) : silent (look f).
Proof. intros j. unfold look, access, held. cbn. unfold interfere. by destruct (others j). Qed.
Lemma silent_syscall {A} (f : net -> A * net) : silent (syscall f).
Proof. intros j. unfold syscall. by destruct (f (sys j)). Qed.
Lemma silent_pure {A} (a : A) : silent (pure a).
Proof. done. Qed.
Lemma silent_andthen {A B} (m : J A) (k : A -> J B) : silent m -> (forall a, silent (k a)) -> silent (andthen m k).
Proof. intros Hm Hk j. unfold andthen. specialize (Hm j). destruct (m j) as [a j']. cbn in Hm. by rewrite <- Hm, Hk. Qed.

Lemma sound_andthen {A} (m : J A) k : silent m -> (forall a, sound (k a)) -> sound (andthen m k).
Proof. intros Hm Hk j. unfold andthen. specialize (Hm j). destruct (m j) as [a j']. cbn in Hm. rewrite <- Hm. apply Hk. Qed.

Lemma sound_refused e : sound (pure (Err e, None)).
Proof. by intros j. Qed.
Lemma sound_nothing : sound (pure (Ok 0, None)).
Proof. intros j. split; [done|]. by intros i [= <-]. Qed.

(** What follows a claim of the slot. *)
Definition starts (id : Z) (m : J (result Z Refusal * option Thread)) : Prop :=
  forall j, exists t, (m j).1 = (Ok id, Some t) /\ acts (m j).2 = acts j /\ accounted id t.

Lemma starts_pure id t : accounted id t -> starts id (pure (Ok id, Some t)).
Proof. intros Ht j. by exists t. Qed.

Lemma starts_andthen {A} id (m : J A) k : silent m -> (forall a, starts id (k a)) -> starts id (andthen m k).
Proof.
  intros Hm Hk j. unfold andthen. specialize (Hm j). destruct (m j) as [a j']. cbn in Hm. destruct (Hk a j') as (t & Ht & Ha & Hacc).
  exists t. by rewrite Ht, Ha, Hm.
Qed.

(** [begin_] by cases. *)
Lemma andthen_begin {A} needs (k : option Z -> J A) j :
  exists r j1, andthen (begin_ needs) k j = k r j1 /\ created j1 = created j /\
    acts j1 = acts j ++ match r with Some id => [Began id] | None => [] end.
Proof.
  unfold begin_. set (m := access _).
  assert (Hm : acts (m j).2 = acts j /\ created (m j).2 = created j).
  { subst m. unfold access, held. destruct (_ : option Z * Daemon). cbn. apply interfere_same. }
  unfold andthen, act, pure. destruct (m j) as [[id|] j1]; cbn [snd] in Hm; destruct Hm as [<- <-].
  - by eexists (Some id), _.
  - exists None, j1. by rewrite app_nil_r.
Qed.

Lemma sound_begin needs (k : option Z -> J (result Z Refusal * option Thread)) :
  sound (k None) -> (forall id, starts id (k (Some id))) -> sound (andthen (begin_ needs) k).
Proof.
  intros Hn Hs j. destruct (andthen_begin needs k j) as ([id|] & j1 & -> & _ & Ha).
  - destruct (Hs id j1) as (t & Ht & Ha' & Hacc). unfold answered. rewrite Ht. exists id. split_and!; [done| |done]. by rewrite Ha', Ha.
  - rewrite app_nil_r in Ha. rewrite <- Ha. apply Hn.
Qed.

Lemma silent_take_files fs : silent (take_files fs).
Proof.
  induction fs as [|[f n] fs IH]; [done|]. cbn [take_files]. apply silent_andthen; [apply silent_syscall|]. intros [file|]; [|done].
  apply silent_andthen; [apply silent_syscall|]. intros size. by apply silent_andthen.
Qed.

Lemma silent_take_items fs : silent (take_items fs).
Proof.
  induction fs as [|[f n] fs IH]; [done|]. cbn [take_items]. apply silent_andthen; [apply silent_syscall|]. intros [file|]; [|done].
  apply silent_andthen; [apply silent_syscall|]. intros size. by apply silent_andthen.
Qed.

Lemma silent_endpoint : silent endpoint_.
Proof. apply silent_andthen; [apply silent_syscall|done]. Qed.

#[local] Create HintDb sound.
#[local] Hint Resolve silent_look silent_syscall silent_take_files silent_take_items silent_endpoint sound_refused sound_nothing : sound.

(** The guards of a call, one after another. *)
Ltac sound :=
  lazymatch goal with
  | |- sound (andthen (begin_ _) _) => apply sound_begin; [|intros]
  | |- sound (andthen _ _) => apply sound_andthen; [auto with sound|intros; sound]
  | |- sound (if ?b then _ else _) => destruct b; sound
  | |- sound (match ?x with _ => _ end) => destruct x; sound
  | |- _ => try solve [auto with sound]
  end.

Lemma starts_guarded id peer (body : Thread) : (forall n, ends id peer (body n)) -> starts id (pure (Ok id, Some (guarded id body))).
Proof. intros Hb. apply starts_pure, (ends_accounted id peer). intros n. by apply ends_guarded. Qed.

Lemma sound_receive_on_socket s : sound (receiveOnSocket s).
Proof. unfold receiveOnSocket. sound; auto with sound. apply (starts_guarded id nearby). intros n. apply receiving_ends. Qed.

Lemma sound_send_files p fs ns : sound (sendFiles p fs ns).
Proof.
  unfold sendFiles. sound; auto with sound. do 2 (apply starts_andthen; [apply silent_look|intros]).
  apply (starts_guarded id []). intros n. apply sending_airdrop_ends.
Qed.

Lemma sound_send_common p s fs ns multiplexed : sound (send_common p s fs ns multiplexed).
Proof.
  unfold send_common. sound; auto with sound.
  apply starts_andthen; [apply silent_look|intros device]. apply starts_andthen; [apply silent_endpoint|intros endpoint].
  apply (starts_guarded id []). intros n. apply ends_dup; [intros reader|by left].
  apply ends_andthen; [apply smooth_look|]. intros mediums. destruct multiplexed; [|apply sending_ends].
  apply ends_andthen; [apply smooth_syscall|]. intros [acks|]; [|apply ends_finished].
  apply ends_andthen; [apply smooth_open_mux|]. intros [v|e]; [apply sending_ends|apply ends_report].
Qed.

Lemma sound_send_on_lan p fs ns : sound (send_on_lan p fs ns).
Proof.
  unfold send_on_lan. sound; auto with sound.
  apply starts_andthen; [apply silent_look|intros device]. apply starts_andthen; [apply silent_endpoint|intros endpoint].
  apply (starts_guarded id []). intros n. apply ends_dup; [intros reader; apply sending_ends|by left].
Qed.

(** A connection that was accepted: its thread claims the slot itself, or is gone without a trace. *)
Theorem connection_is_accounted_for sock peer n j :
  created j = [] ->
  acts (on_connection_thread sock peer n j).2 = acts j \/
  exists id j0, acts j0 = acts j ++ [Began id] /\ account id j0 (on_connection_thread sock peer n j).
Proof.
  intros Hc. unfold on_connection_thread. set (m := syscall (dup sock)).
  assert (Hm : acts (m j).2 = acts j /\ created (m j).2 = created j) by (subst m; unfold syscall; by destruct (dup sock (sys j))).
  unfold andthen at 1 3. destruct (m j) as [[reader|] j1]; cbn [snd] in Hm; destruct Hm as [<- Hc1]; [|by left].
  match goal with |- context [andthen (begin_ false) ?k j1] => destruct (andthen_begin false k j1) as ([id|] & j2 & -> & Hc2 & Ha) end.
  - right. exists id, j2. split; [done|]. apply (ends_account id (unwrap_or peer nearby)); [apply receiving_ends|]. by rewrite Hc2, Hc1.
  - left. by rewrite app_nil_r in Ha.
Qed.

(** C10: what a call that starts a transfer comes to, whichever of the five it is.  Either it is refused, or answered with
    0, and nothing has happened; or one transfer has begun, the call is answered with its id, and a thread is left.  If
    that thread ends, whatever the peer, the network and the other threads did, then before its end it told nobody that
    the transfer was over, at its end it told every client it called once and the same status, it freed the slot after
    that, and the slot is not its own any more.  Where descriptors can be duplicated, a client that was registered all
    along and answers is among those told. *)
Theorem every_transfer_is_accounted_for (r : Request) (j : Job) : answered (acts j) (request r j).1 (request r j).2.
Proof.
  destruct r; cbn [request]; [apply sound_receive_on_socket|apply sound_send_files|apply sound_send_common|apply sound_send_common|apply sound_send_on_lan].
Qed.

End Accounts.

(** ** Runs *)

Module ToyJobs.
#[local] Existing Instances Toy.rand Toy.hmac Toy.cipher Toy.memcmp Toy.digest Toy.ec.

(** [ToyDaemon]'s system, in which only so many descriptors can still be duplicated. *)
#[local] Instance few_descriptors : System := {|
  Client := Z; Fd := list Read; net := nat;
  reads s := s; dup s n := match n with O => (None, O) | S n => (Some s, n) end; file_len f n := (Some (len (mjoin ((fun r => match r with Data b => b | ReadError => [] end) <$> f))), n);
  put _ _ n := (true, n); readable n := (Some true, n); deadline n := (0%nat, n);
  dial _ _ n := (Some [], n); unsent _ n := (None, n);
  entropy k n := (replicate (Z.to_nat k) (to_u8 0), n);
  listen n := (false, n); listening_on n := (None, n); arrives n := (WouldBlock, n);
  worker_done n := (true, n); gone _ n := (false, n); shut _ n := n; writes n := (true, n); denied _ := false
|}.
(** An AirDrop peer that answers every request with "200". *)
#[local] Instance willing : Airdrop_ := {|
  tls_reads _ := let ok := Http.Data (Http.head_of [str "HTTP/1.1 200 OK"; str "Content-Length: 0"]) in [ok; ok];
  tls_connect _ n := (Ok [], n); tls_write _ n := (true, n); tls_flush n := (true, n); tls_ready n := (Some true, n);
  last_kind n := (KOther, n); own_address n := (None, n); scope_of n := (Some 4, n); spawns n := (true, n);
  packets s _ := s; process_id := str "id"
|}.
#[local] Instance toy_gzip : Send.Gzip := {|
  Send.gz := unit; Send.gz_new := tt; Send.gz_write b _ := ((fun x => [x]) <$> b, tt); Send.gz_finish _ := [str "!"]
|}.
#[local] Instance toy_odc : Send.Odc := {|
  Send.odc_header n name size := Some [name; show size]; Send.odc_trailer n := [str "end"]
|}.

Definition iphone : Mdns.Peer := Mdns.mkPeer (str "c217cb857db9._airdrop._tcp.local") (str "iPhone.local") 8770 (Some (str "fe80")) 0 0 0 None false.
Definition tablet : Discovery.QsPeer := Discovery.mkQsPeer (str "AbCd") [] (str "pixel.local") 5000 (Some (to_u8 <$> [192; 168; 1; 7])) None 0.

(** Everything is permitted, and two clients listen. *)
Definition phone : Daemon :=
  mkDaemon Transfers.idle ∅ (Some [1; 2]) false (Some Visibility.ToyVisibility.receiving) (Some [iphone]) (Some ∅) (Some [tablet]) ∅ 0.
Definition thread (n : nat) (d : Daemon) : Job := mkJob d [] [] [] [] n (1 : rng) [].

(** A call and then its thread: the reply, whether it has ended, and what was done. *)
Definition play (r : Request) (j : Job) : result Z Refusal * option (bool * list Act) :=
  let '(reply, t, j) := request r j in
  (reply, let^ t := t in let (e, j) := t 20%nat j in Some (e, acts j)).

Definition over_for (id st : Z) : list Act := [Called 1 (OnTransferFinished id st); Called 2 (OnTransferFinished id st); Ended id; Ended id].

(** A peer that hangs up. *)
Example a_silent_peer :
  play (SendFilesOnSocket (str "AbCd") [] [[]] [str "a.txt"]) (thread 9 phone) = (Ok 1, Some (true, Began 1 :: over_for 1 STATUS_FAILED)) /\
  play (SendFilesOnLan (str "AbCd") [] []) (thread 9 phone) = (Ok 1, Some (true, Began 1 :: over_for 1 STATUS_FAILED)) /\
  play (ReceiveOnSocket []) (thread 9 phone) = (Ok 1, Some (true, Began 1 :: over_for 1 STATUS_FAILED)).
Proof. split_and!; vm_compute; reflexivity. Qed.

Definition photo : Request := SendFiles (str "c217cb857db9") [[Data (str "abc")]] [str "photo.jpg"].

Definition ends_of (l : list Act) : list Act :=
  List.filter (fun a => match a with Called _ (OnTransferProgress _ _ _) => false | _ => true end) l.

(** A photo that arrives. *)
Example a_photo :
  (fun p => (fst p, let^ q := snd p in Some (fst q, ends_of (snd q)))) (play photo (thread 9 phone))
  = (Ok 1, Some (true, Began 1 :: over_for 1 STATUS_OK)).
Proof. vm_compute. reflexivity. Qed.

(** The stream cannot be duplicated for reading: the transfer is over, and nobody is told. *)
Example a_lost_descriptor_is_untold :
  play (SendFilesOnSocket (str "AbCd") [] [] []) (thread 1 phone) = (Ok 1, Some (true, [Began 1; Ended 1; Ended 1])) /\
  play (SendFilesOnLan (str "AbCd") [] []) (thread 0 phone) = (Ok 1, Some (true, [Began 1; Ended 1; Ended 1])).
Proof. split; vm_compute; reflexivity. Qed.

(** What the same cancel is called by the two sides of a transfer. *)
Definition cancelled_1 : Daemon := set_table (Transfers.cancel 1 Transfers.idle) phone.
Example a_cancelled_send_has_failed :
  acts (report_outcome 1 (Ok false) (thread 9 cancelled_1)).2 = [Called 1 (OnTransferFinished 1 STATUS_FAILED); Called 2 (OnTransferFinished 1 STATUS_FAILED)] /\
  status_of (Ok Connection.OutCancelled) = STATUS_CANCELLED.
Proof. by vm_compute. Qed.

(** What keeps a slot is progress, but not that of an AirDrop send: one that is still sending
    after three minutes loses its slot to the next transfer. *)
Definition at_time (t : Z) (d : Daemon) : Daemon :=
  mkDaemon (table d) (fs d) (callbacks d) (auto_accept d) (policy d) (published d) (accepting d) (qs_lan d) (props d) t.
Definition then_another (progress : Job -> Job) : option Z :=
  let '(_, _, j) := request photo (thread 9 phone) in
  let j := progress (with_daemon (at_time (Transfers.STALE_TRANSFER + 1) (daemon j)) j) in
  (begin_ false j).1.
Example a_living_send_is_reclaimed :
  then_another (Send.progress (Network := airdrop_network 1 (Peers.mkTarget (str "fe80") 8770 4)) 1000 5000) = Some 2 /\
  then_another (fun j => (progress_ 1 1000 5000 j).2) = None.
Proof. split; vm_compute; reflexivity. Qed.

(** A peer is looked up by its short id and forgotten by its full one. *)
Example an_unreachable_peer_stays :
  (Peers.resolve None (Some 4) (str "c217cb857db9") [iphone] <> None) /\ forget (str "c217cb857db9") [iphone] = [iphone].
Proof. split; vm_compute; [discriminate|reflexivity]. Qed.

End ToyJobs.
