(* ===== verification/Server.v ===== *)
(** * Around the AirDrop server ([sharingd/src/httpd.rs], [Httpd], and [start_airdrop_server])

    The thread that listens on the link and notices when the link is replaced, and the list of
    clients the server's connections call, from which they drop those that are gone.  What a
    connection does is [Airdrop]. *)

From S2P Require Import Prelude Crypto Stream Steps Daemon.

(** Milliseconds. *)
Definition ACCEPT_POLL : Z := 250.
Definition IFACE_CHECK_EVERY : Z := 8.

(** ** Listening *)

(** What the system says of the interface: its link-local address, its index. *)
Record Iface : Type := mkIface { link_local : option (list byte); index : option Z }.

(** The listener: the address it is bound to, the index, the polls without a connection. *)
Record Listening : Type := mkListening { own : list byte; scope : Z; ticks : Z }.

(** [Httpd::new], and where [serve] starts; [ready]: the socket and TLS can be set up. *)
Definition listen_on (i : Iface) (ready : bool) : option Listening :=
  match link_local i, index i with
  | Some a, Some s => if ready then Some (mkListening a s 0) else None
  | _, _ => None
  end.

Definition iface_changed (l : Listening) (i : Iface) : bool :=
  match link_local i, index i with
  | Some a, Some s => negb (bool_decide (a = own l)) || negb (s =? scope l)
  | _, _ => true
  end.

(** What [accept] gives: a connection, with its peer's address; nothing yet; a failure. *)
Inductive Accept : Type :=
| Connected (peer : option (list byte))
| NothingYet
| Broken.

(** One round of [serve]: what is left of the listener, and whom to serve.  The counter wraps. *)
Definition serve_round (a : Accept) (i : Iface) (l : Listening) : option Listening * option (option (list byte)) :=
  match a with
  | Connected peer => (Some l, Some peer)
  | NothingYet =>
      let l := mkListening (own l) (scope l) (as_u32 (ticks l + 1)) in
      if (ticks l mod IFACE_CHECK_EVERY =? 0) && iface_changed l i then (None, None) else (Some l, None)
  | Broken => (None, None)
  end.

(** [serve], until it returns or the rounds are over: what is left, the connections, and the
    rounds that are left. *)
Fixpoint serve (rounds : list (Accept * Iface)) (l : Listening) : option Listening * list (option (list byte)) * list (Accept * Iface) :=
  match rounds with
  | [] => (Some l, [], [])
  | (a, i) :: rounds =>
      match serve_round a i l with
      | (None, c) => (None, option_list c, rounds)
      | (Some l, c) => let '(o, cs, rest) := serve rounds l in (o, option_list c ++ cs, rest)
      end
  end.

(** How long [start_airdrop_server] sleeps before it tries again. *)
Definition retry_in (i : Iface) : Z := match index i with Some _ => 500 | None => 5000 end.

(** *** What it notices *)

Definition idle (r : Accept * Iface) : bool := match fst r with NothingYet => true | _ => false end.
Definition idle_rounds (rounds : list (Accept * Iface)) : nat := length (filter (fun r => idle r = true) rounds).

Definition counting (l : Listening) : Prop := 0 <= ticks l < 2 ^ 32.

Lemma next_tick l : counting l -> as_u32 (ticks l + 1) mod 8 = (ticks l + 1) mod 8 /\ 0 <= as_u32 (ticks l + 1) < 2 ^ 32.
Proof.
  intros Hl. unfold as_u32. split; [|apply Z.mod_pos_bound; lia].
  change (2 ^ 32) with (8 * 536870912). rewrite Z.rem_mul_r by lia. rewrite (Z.mul_comm 8 (_ mod 536870912)), Z.mod_add by lia. by rewrite Z.mod_mod by lia.
Qed.

Lemma iface_changed_ticks l i t : iface_changed (mkListening (own l) (scope l) t) i = iface_changed l i.
Proof. done. Qed.

(** The polls until the next look at the interface. *)
Definition until_look (l : Listening) : Z := 8 - ticks l mod 8.

Lemma serve_notices rounds l :
  counting l -> Forall (fun r => iface_changed l (snd r) = true) rounds -> until_look l <= Z.of_nat (idle_rounds rounds) ->
  fst (fst (serve rounds l)) = None.
Proof.
  revert l. unfold until_look. induction rounds as [|[a i] rounds IH]; intros l Hc Hch Hn.
  { exfalso. cbn in Hn. pose proof (Z.mod_pos_bound (ticks l) 8). lia. }
  apply Forall_cons in Hch as [Hi Hch]. cbn [serve]. unfold idle_rounds in Hn. cbn [filter] in Hn.
  destruct a as [peer| |]; cbn [serve_round]; [| |done].
  - rewrite filter_cons_False in Hn by done. specialize (IH l Hc Hch Hn). destruct (serve rounds l) as [[o cs] rest]. exact IH.
  - rewrite filter_cons_True in Hn by done. cbn [length] in Hn. destruct (next_tick l Hc) as [Hm Hb]. unfold IFACE_CHECK_EVERY. cbn [ticks].
    rewrite Hm, iface_changed_ticks. cbn [snd] in Hi. rewrite Hi, andb_true_r. destruct (Z.eqb_spec ((ticks l + 1) mod 8) 0) as [|Hz]; [done|].
    match goal with |- context [serve rounds ?l'] => specialize (IH l'); destruct (serve rounds l') as [[o cs] rest] end.
    apply IH; [done|exact Hch|]. cbn [ticks]. rewrite Hm. fold (idle_rounds rounds) in Hn. revert Hn Hz. clear. intros Hn Hz. Z.div_mod_to_equations. lia.
Qed.

(** [serve] and the link.  A listener whose interface has been replaced, or is gone, is given up
    after at most eight polls without a connection; one whose interface has not been is kept for
    as long as [accept] does not fail, and every connection is served, in order. *)
Theorem a_replaced_link_is_noticed rounds l :
  counting l ->
  (Forall (fun r => iface_changed l (snd r) = true) rounds -> 8 <= Z.of_nat (idle_rounds rounds) -> fst (fst (serve rounds l)) = None) /\
  (Forall (fun r => iface_changed l (snd r) = false /\ fst r <> Broken) rounds ->
     exists t, serve rounds l = (Some (mkListening (own l) (scope l) t), omap (fun r => match fst r with Connected p => Some p | _ => None end) rounds, [])).
Proof.
  intros Hc. split.
  - intros Hch Hn. apply serve_notices; [done|done|]. unfold until_look. pose proof (Z.mod_pos_bound (ticks l) 8). lia.
  - clear Hc. revert l. induction rounds as [|[a i] rounds IH]; intros l Hok; [exists (ticks l); by destruct l|].
    apply Forall_cons in Hok as [[Hi Ha] Hok]. cbn [serve]. cbn [fst snd] in *.
    destruct a as [peer| |]; [| |done]; cbn [serve_round].
    + destruct (IH l Hok) as (t & ->). by exists t.
    + rewrite iface_changed_ticks, Hi, andb_false_r.
      match goal with |- context [serve rounds ?l'] => destruct (IH l' Hok) as (t & ->) end. by exists t.
Qed.

(** ** Calling the clients *)

Section Clients.
Context `{System} `{Rand}.

#[local] Notation "'let*' x ':=' m 'in' k" := (andthen m (fun x => k))
  (at level 10, x pattern, m at level 100, k at level 200).
#[local] Notation "'do*' m 'in' k" := (andthen m (fun _ => k))
  (at level 10, m at level 100, k at level 200).

(** The places of those a call found dead. *)
Fixpoint ring_from (i : nat) (cs : list Client) (e : Call) : J (list nat) :=
  match cs with
  | [] => pure []
  | c :: cs =>
      do* act (Called c e) in
      let* dead := syscall (gone c) in
      let* rest := ring_from (S i) cs e in
      pure (if dead then i :: rest else rest)
  end.

(** The removal, back to front; a place beyond the end is left out. *)
Definition prune (dead : list nat) (cs : list Client) : list Client := foldr (fun i cs => delete i cs) cs dead.

(** The lock is let go between the calls and the pruning. *)
Definition each_callback (e : Call) : J unit :=
  let* cs := look callbacks in
  match cs with
  | None => pure tt
  | Some cs =>
      let* dead := ring_from 0 cs e in
      match dead with
      | [] => pure tt
      | _ => access (fun d => (tt, match callbacks d with Some cs => set_callbacks (prune dead cs) d | None => d end))
      end
  end.

(** The same calls as [ring] makes, and the same verdicts. *)
Lemma ring_from_prunes i cs e j more :
  let (dead, j1) := ring_from i cs e j in
  let (live, j2) := ring cs e j in
  j1 = j2 /\ Forall (fun k => (i <= k)%nat) dead /\ (dead = [] -> live = cs) /\
  forall pre, length pre = i -> prune dead (pre ++ cs ++ more) = pre ++ live ++ more.
Proof.
  revert i j. induction cs as [|c cs IH]; intros i j; cbn [ring_from ring]; [by cbn|].
  unfold andthen, act, syscall. cbn. destruct (gone c (sys j)) as [dead n]. set (j0 := mkJob _ _ _ _ _ n _ _).
  specialize (IH (S i) j0). destruct (ring_from (S i) cs e j0) as [ds j1], (ring cs e j0) as [live j2].
  destruct IH as (-> & Hge & Hnil & Hp). cbn. split; [done|].
  assert (Hpre : forall pre, length pre = i -> prune ds (pre ++ c :: cs ++ more) = pre ++ c :: live ++ more).
  { intros pre Hl. specialize (Hp (pre ++ [c])). rewrite <- !app_assoc in Hp. apply Hp. rewrite length_app. cbn. lia. }
  destruct dead; split_and!; try done.
  - constructor; [lia|]. eapply Forall_impl; [exact Hge|]. cbn. lia.
  - intros pre Hl. cbn. change (foldr (fun i cs => delete i cs) ?x ds) with (prune ds x). rewrite Hpre by done.
    subst i. by rewrite delete_middle.
  - eapply Forall_impl; [exact Hge|]. cbn. lia.
  - intros Hd. by rewrite (Hnil Hd).
Qed.

(** Where others, between the calls and the pruning, at most register clients, those that were
    found dead are dropped and nobody else. *)
Theorem pruning_drops_the_dead e j cs :
  callbacks (daemon (interfere j)) = Some cs ->
  let (live, j1) := ring cs e (interfere j) in
  let j2 := (each_callback e j).2 in
  acts j2 = acts j1 /\
  (live = cs /\ j2 = j1 \/
   forall more, callbacks (daemon (interfere j1)) = Some (cs ++ more) -> callbacks (daemon j2) = Some (live ++ more)).
Proof.
  intros Hcs. unfold each_callback. assert (Hlook : forall A (k : option (list Client) -> J A), andthen (look callbacks) k j = k (Some cs) (interfere j)).
  { intros A k. rewrite <- Hcs. unfold andthen, look, access, held. by destruct (interfere j). }
  rewrite Hlook. unfold andthen. pose proof (fun more => ring_from_prunes 0 cs e (interfere j) more) as Hp.
  destruct (ring_from 0 cs e (interfere j)) as [dead j1], (ring cs e (interfere j)) as [live j2].
  destruct (Hp []) as (-> & _ & Hnil & _). destruct dead as [|i dead].
  - split; [done|]. left. by split; [apply Hnil|].
  - split; [by apply interfere_same|]. right. intros more Hmore. destruct (Hp more) as (_ & _ & _ & Hpr).
    unfold access, held. rewrite Hmore. cbn [snd daemon with_daemon set_callbacks callbacks]. specialize (Hpr [] eq_refl). cbn [app] in Hpr. by rewrite Hpr.
Qed.

End Clients.

(** ** Runs *)

Module ToyServer.
#[local] Existing Instance Toy.rand.

(** Clients are numbers; the odd ones are gone. *)
#[local] Instance odd_ones_gone : System := {|
  Client := Z; Fd := list Read; net := unit;
  reads s := s; dup s n := (Some s, n); file_len _ n := (Some 0, n);
  put _ _ n := (true, n); readable n := (Some true, n); deadline n := (0%nat, n);
  dial _ _ n := (None, n); unsent _ n := (None, n);
  entropy k n := ([], n); listen n := (false, n); listening_on n := (None, n); arrives n := (WouldBlock, n);
  worker_done n := (true, n); gone c n := (Z.odd c, n); shut _ n := n; writes n := (true, n); denied _ := false
|}.

Definition daemon_with (cs : list Z) : Daemon :=
  mkDaemon Transfers.idle ∅ (Some cs) false None None None None ∅ 0.
Definition after (os : list (Daemon -> Daemon)) : option (list Z) :=
  callbacks (daemon (each_callback (OnTransferFinished 1 0) (mkJob (daemon_with [1; 2; 3; 4]) os [] [] [] tt (1 : rng) [])).2).

Example the_dead_are_dropped : after [] = Some [2; 4].
Proof. vm_compute. reflexivity. Qed.

(** Two connections find the same clients dead: the second prunes by places that are no longer
    those, and a client that is alive is dropped. *)
Example a_live_client_is_dropped : after [fun d => d; fun d => set_callbacks [2; 4] d] = Some [4].
Proof. vm_compute. reflexivity. Qed.

Definition here : Iface := mkIface (Some (str "fe80::1")) (Some 7).
Definition moved : Iface := mkIface (Some (str "fe80::1")) (Some 8).

(** Two seconds of polls, and the listener is gone. *)
Example two_seconds : serve (replicate 3 (NothingYet, here) ++ replicate 8 (NothingYet, moved)) (mkListening (str "fe80::1") 7 0)
  = (None, [], replicate 3 (NothingYet, moved)).
Proof. vm_compute. reflexivity. Qed.

(** While connections keep coming it is not looked at. *)
Example a_busy_listener : fst (fst (serve (replicate 100 (Connected None, moved)) (mkListening (str "fe80::1") 7 0))) <> None.
Proof. vm_compute. discriminate. Qed.

End ToyServer.
