(* ===== verification/Ctl.v ===== *)
(** * The shell client ([tarishctl/src/main.rs])

    What a command line comes to: which calls of the service are made, in which order and with
    what, what is printed, and how the program exits.  The service and the app's bridge are
    operations on a world.  The theorems are about the policy subcommands, which read the
    policy, change a field and write it back, and about what an error leaves behind. *)

From S2P Require Import Prelude Utf8 Text.
From S2P Require Channels Inbox Peers Visibility.

(** An error is what is printed of it. *)
Abbreviation Message := (list byte).

(** The calls of [ITarishService] the client makes, opening a file, and the app's bridge. *)
Class Bus : Type := {
  Fd : Type;
  world : Type;
  connect : world -> result unit Message * world;
  open : list byte -> world -> result Fd Message * world;
  getPeers : world -> result (list Peers.TarishPeer) Message * world;
  getQuickShareLanPeers : world -> result (list (list byte)) Message * world;
  setDeviceName : list byte -> world -> result unit Message * world;
  getDeviceName : world -> result (list byte) Message * world;
  setDiscoverable : bool -> Z -> world -> result unit Message * world;
  sendFiles : list byte -> list Fd -> list (list byte) -> world -> result Z Message * world;
  sendFilesOnLan : list byte -> list Fd -> list (list byte) -> world -> result Z Message * world;
  respondToOffer : Z -> bool -> world -> result unit Message * world;
  confirmTransferPin : Z -> list byte -> world -> result bool Message * world;
  cancelTransfer : Z -> world -> result unit Message * world;
  getReceivedFiles : world -> result (list (list byte)) Message * world;
  refreshPeers : world -> result unit Message * world;
  getPolicy : world -> result Visibility.TarishPolicy Message * world;
  setPolicy : Visibility.TarishPolicy -> world -> result unit Message * world;
  app : list byte -> world -> result (list byte) Message * world;
  debug : list byte -> list byte
}.

(** How the program ends early: [usage], or an error. *)
Inductive Exit : Type := Usage | Failed (m : Message).

(** ** Text *)

Definition space : byte := to_u8 32.

Fixpoint join_words (ws : list (list byte)) : list byte :=
  match ws with
  | [] => []
  | [w] => w
  | w :: ws => w ++ [space] ++ join_words ws
  end.

Definition show_signed (n : Z) : list byte := Visibility.show_i32 n.
Definition show_bool (b : bool) : list byte := if b then str "true" else str "false".

(** [parse::<i64>]. *)
Definition parse_i64 (s : list byte) : option Z :=
  match s with
  | b :: s' =>
      if (u8 b =? 45) && negb (is_empty s') then map_opt Z.opp (digits 10 (2 ^ 63) 0 s') else parse_radix 10 i64_max s
  | [] => None
  end.

(** The components of a path that are names, and the last of them. *)
Fixpoint components (part s : list byte) : list (list byte) :=
  match s with
  | [] => [part]
  | b :: s => if Inbox.slash b then part :: components [] s else components (part ++ [b]) s
  end.
Definition file_name (path : list byte) : option (list byte) :=
  match last (filter (fun c => c <> [] /\ c <> str ".") (components [] path)) with
  | Some c => if bool_decide (c = str "..") then None else Some c
  | None => None
  end.

(** ** Commands *)

Section Ctl.
Context `{Bus}.

(** The state is the world and the lines printed. *)
Definition M (A : Type) : Type := world * list (list byte) -> result A Exit * (world * list (list byte)).
Definition ret {A} (a : A) : M A := fun s => (Ok a, s).
Definition exit {A} (e : Exit) : M A := fun s => (Err e, s).
Definition bind {A B} (m : M A) (k : A -> M B) : M B :=
  fun s => match m s with (Ok a, s) => k a s | (Err e, s) => (Err e, s) end.
Definition call {A} (f : world -> result A Message * world) : M A :=
  fun s => let (r, w) := f (fst s) in (match r with Ok a => Ok a | Err m => Err (Failed m) end, (w, snd s)).
Definition print (line : list byte) : M unit := fun s => (Ok tt, (fst s, snd s ++ [line])).
Definition need {A} (o : option A) (m : Message) : M A := match o with Some a => ret a | None => exit (Failed m) end.

#[local] Notation "'let?' x ':=' m 'in' k" := (bind m (fun x => k))
  (at level 10, x pattern, m at level 100, k at level 200).
#[local] Notation "'do?' m 'in' k" := (bind m (fun _ => k))
  (at level 10, m at level 100, k at level 200).

Fixpoint print_all (ls : list (list byte)) : M unit :=
  match ls with [] => ret tt | l :: ls => do? print l in print_all ls end.

Fixpoint open_files (paths : list (list byte)) : M (list Fd * list (list byte)) :=
  match paths with
  | [] => ret ([], [])
  | p :: paths =>
      let? f := call (open p) in
      let? (fds, names) := open_files paths in
      ret (f :: fds, match file_name p with Some n => from_utf8_lossy n | None => p end :: names)
  end.

Definition peer_line (p : Peers.TarishPeer) : list byte :=
  join_words [Peers.id p; show_signed (Peers.protocol p); show_signed (Peers.state p); Peers.name p].

Definition transfer_id (args : list (list byte)) : M Z :=
  let? a := need (args !! 1%nat) (str "needs a transfer id") in need (parse_i64 a) (str "bad id").

(** What a [policy] subcommand makes of the policy that was read. *)
Definition mode (v : list byte) : result Z Exit :=
  match Channels.parse_i32 v with
  | Some m => if between 0 3 m then Ok m else Err (Failed (str "mode takes 0 (off), 1 (receive), 2 (send) or 3 (both)"))
  | None => Err (Failed (str "mode takes 0 (off), 1 (receive), 2 (send) or 3 (both)"))
  end.

Definition set_modes (a q : Z) (p : Visibility.TarishPolicy) : Visibility.TarishPolicy :=
  Visibility.mkPolicy a q (Visibility.requireConfirmation p) (Visibility.deviceName p) (Visibility.airdropManaged p)
    (Visibility.quickshareManaged p) (Visibility.requireConfirmationManaged p) (Visibility.deviceNameManaged p)
    (Visibility.requirePin p) (Visibility.requirePinManaged p).
Definition set_prompts (confirm pin : bool) (p : Visibility.TarishPolicy) : Visibility.TarishPolicy :=
  Visibility.mkPolicy (Visibility.airdrop p) (Visibility.quickshare p) confirm (Visibility.deviceName p) (Visibility.airdropManaged p)
    (Visibility.quickshareManaged p) (Visibility.requireConfirmationManaged p) (Visibility.deviceNameManaged p)
    pin (Visibility.requirePinManaged p).

Definition is_on (v : list byte) : bool := bool_decide (v = str "on").

Definition edit (sub v : list byte) (p : Visibility.TarishPolicy) : result Visibility.TarishPolicy Exit :=
  if bool_decide (sub = str "pin") then Ok (set_prompts (Visibility.requireConfirmation p) (is_on v) p)
  else if bool_decide (sub = str "confirm") then Ok (set_prompts (is_on v) (Visibility.requirePin p) p)
  else if bool_decide (sub = str "mode") then try_bind (mode v) (fun m => Ok (set_modes m m p))
  else if bool_decide (sub = str "airdrop") then try_bind (mode v) (fun m => Ok (set_modes m (Visibility.quickshare p) p))
  else if bool_decide (sub = str "quickshare") then try_bind (mode v) (fun m => Ok (set_modes (Visibility.airdrop p) m p))
  else Err Usage.

Definition field (name value : list byte) : list byte := name ++ str "=" ++ value.
Definition policy_lines (p : Visibility.TarishPolicy) : list (list byte) :=
  [join_words [field (str "airdrop") (show_signed (Visibility.airdrop p)); field (str "quickshare") (show_signed (Visibility.quickshare p));
               field (str "confirm") (show_bool (Visibility.requireConfirmation p)); field (str "pin") (show_bool (Visibility.requirePin p));
               field (str "name") (debug (Visibility.deviceName p))];
   join_words [str "managed"; field (str "airdrop") (show_bool (Visibility.airdropManaged p));
               field (str "quickshare") (show_bool (Visibility.quickshareManaged p));
               field (str "confirm") (show_bool (Visibility.requireConfirmationManaged p));
               field (str "pin") (show_bool (Visibility.requirePinManaged p)); field (str "name") (show_bool (Visibility.deviceNameManaged p))]].

Definition policy (args : list (list byte)) : M unit :=
  let? p := call getPolicy in
  match args !! 1%nat, args !! 2%nat with
  | None, _ => print_all (policy_lines p)
  | Some sub, Some v => match edit sub v p with Ok p => call (setPolicy p) | Err e => exit e end
  | Some _, None => exit Usage
  end.

Definition send (lan : bool) (args : list (list byte)) : M unit :=
  let? peer := need (args !! 1%nat) (str "send needs a peer id") in
  let paths := drop 2 args in
  if is_empty paths then exit (Failed (str "send needs at least one file"))
  else
    let? (fds, names) := open_files paths in
    let? id := call (if lan then sendFilesOnLan peer fds names else sendFiles peer fds names) in
    print (show_signed id).

Definition discoverable (args : list (list byte)) : M unit :=
  let secs := unwrap_or (let^ s := args !! 2%nat in Channels.parse_i32 s) 0 in
  call (setDiscoverable (bool_decide (args !! 1%nat = Some (str "on"))) secs).

Definition pin (args : list (list byte)) : M unit :=
  let? id := transfer_id args in
  let? code := need (args !! 2%nat) (str "needs a pin") in
  let? b := call (confirmTransferPin id code) in
  print (show_bool b).

Definition app_ (args : list (list byte)) : M unit :=
  match drop 1 args with
  | [] => exit (Failed (str "usage: app <ping|peers|send <peer-id> <path>>"))
  | words => let? reply := call (app (join_words words)) in print reply
  end.

Definition word (c : list byte) (s : string) : bool := bool_decide (c = str s).

(** [args]: without the program's name. *)
Definition run (args : list (list byte)) : M unit :=
  match args with
  | [] => exit Usage
  | c :: _ =>
      do? call connect in
      if word c "peers" then let? ps := call getPeers in print_all (peer_line <$> ps)
      else if word c "qs-peers" then let? ls := call getQuickShareLanPeers in print_all ls
      else if word c "name" then
        match args !! 1%nat with
        | Some n => call (setDeviceName n)
        | None => let? n := call getDeviceName in print n
        end
      else if word c "discoverable" then discoverable args
      else if word c "send" || word c "send-lan" then send (word c "send-lan") args
      else if word c "accept" || word c "decline" then
        let? id := transfer_id args in call (respondToOffer id (word c "accept"))
      else if word c "pin" then pin args
      else if word c "cancel" then let? id := transfer_id args in call (cancelTransfer id)
      else if word c "received" then let? fs := call getReceivedFiles in print_all fs
      else if word c "refresh" then call refreshPeers
      else if word c "app" then app_ args
      else if word c "policy" then policy args
      else exit Usage
  end.

(** ** Properties *)

(** What a subcommand may change: the rest of the policy is as it was read. *)
Record same_but_modes (p p' : Visibility.TarishPolicy) : Prop := mkSame {
  sb_name : Visibility.deviceName p' = Visibility.deviceName p;
  sb_airdropManaged : Visibility.airdropManaged p' = Visibility.airdropManaged p;
  sb_quickshareManaged : Visibility.quickshareManaged p' = Visibility.quickshareManaged p;
  sb_confirmManaged : Visibility.requireConfirmationManaged p' = Visibility.requireConfirmationManaged p;
  sb_nameManaged : Visibility.deviceNameManaged p' = Visibility.deviceNameManaged p;
  sb_pinManaged : Visibility.requirePinManaged p' = Visibility.requirePinManaged p
}.

Lemma mode_range v m : mode v = Ok m -> 0 <= m <= 3.
Proof. unfold mode, between. destruct (Channels.parse_i32 v) as [n|]; [|done]. destruct (_ && _) eqn:Hb; [|done]. intros [= <-]. lia. Qed.

(** A [policy] subcommand touches one thing.  The name and what is managed are always as they
    were read; a prompt is changed by the subcommand named after it alone; the mode of a
    protocol only by its own and by [mode], and to one of the four modes. *)
Theorem policy_edits_one_thing sub v p p' :
  edit sub v p = Ok p' ->
  same_but_modes p p' /\
  (sub <> str "confirm" -> Visibility.requireConfirmation p' = Visibility.requireConfirmation p) /\
  (sub <> str "pin" -> Visibility.requirePin p' = Visibility.requirePin p) /\
  (Visibility.airdrop p' = Visibility.airdrop p \/ (sub = str "airdrop" \/ sub = str "mode") /\ 0 <= Visibility.airdrop p' <= 3) /\
  (Visibility.quickshare p' = Visibility.quickshare p \/ (sub = str "quickshare" \/ sub = str "mode") /\ 0 <= Visibility.quickshare p' <= 3).
Proof using.
  assert (Hsame : forall p', Visibility.deviceName p' = Visibility.deviceName p -> p' = set_prompts (Visibility.requireConfirmation p') (Visibility.requirePin p') p \/
      p' = set_modes (Visibility.airdrop p') (Visibility.quickshare p') p -> same_but_modes p p').
  { intros q _ [-> | ->]; by constructor. }
  unfold edit. repeat case_bool_decide; try done; subst.
  1-2: intros [= <-]; split; [apply Hsame; [done|by left]|]; split_and!; try by left.
  1-4: done.
  all: destruct (mode v) as [m|] eqn:Hm; [|done]; cbn [try_bind]; intros [= <-]; apply mode_range in Hm;
    split; [apply Hsame; [done|by right]|]; split_and!; try done; cbn; auto.
Qed.

(** A [policy] command writes at most once, last, and what it writes is an edit of what it has
    just read; if it ends otherwise nothing has been written. *)
Theorem policy_reads_then_writes args s :
  let (r, w) := getPolicy (fst s) in
  match r, args !! 1%nat, args !! 2%nat with
  | Ok p, Some sub, Some v =>
      match edit sub v p with
      | Ok p' => policy args s = call (setPolicy p') (w, snd s)
      | Err e => policy args s = (Err e, (w, snd s))
      end
  | _, _, _ => fst (policy args s).2 = w
  end.
Proof using.
  unfold policy, bind, call. destruct (getPolicy (fst s)) as [[p|m] w]; [|done].
  destruct (args !! 1%nat) as [sub|]; [|done]. destruct (args !! 2%nat) as [v|]; [|done]. by destruct (edit sub v p).
Qed.

End Ctl.

Module ToyCtl.

Example names_of_paths :
  file_name <$> [str "/sdcard/a.txt"; str "a.txt"; str "dir/"; str "dir/."; str "/"; str ".."; str "."]
  = [Some (str "a.txt"); Some (str "a.txt"); Some (str "dir"); Some (str "dir"); None; None; None].
Proof. vm_compute. reflexivity. Qed.

Example ids : parse_i64 <$> [str "12"; str "-12"; str "+1"; str "-"; str ""; str "9223372036854775807"; str "9223372036854775808"; str "-9223372036854775808"]
  = [Some 12; Some (-12); Some 1; None; None; Some i64_max; None; Some (- 2 ^ 63)].
Proof. vm_compute. reflexivity. Qed.

End ToyCtl.
